(* ===== verification/_CoqProject ===== *)
-Q . S2P
Prelude.v
GoStd.v
GoBytes.v
Json.v
JsonText.v
SchedulerWire.v
Scheduler.v
EngineNative.v
Noderec.v
Netpick.v
Reach.v
ProxyNodes.v
Routing.v
FleetScheduling.v
WorkloadStore.v
WorkloadHistory.v
GoList.v
PrefixTable.v
Affinity.v
Dedup.v
FloatRange.v
NodeMetrics.v
LiveProgress.v
BrokerWorkloads.v
SchedulerFeed.v
Broadcast.v
WorkloadManager.v
EapWire.v
EapKeys.v
EapNoob.v
EapSession.v
EapPairing.v
EapExample.v
ClusterAddresses.v
ClusterTrust.v
ClusterState.v
ClusterRoster.v
ClusterLogic.v
ClusterSafety.v
ClusterRemoval.v
ClusterTeardown.v
ClusterRelay.v
ClusterExample.v
Browser.v
Mesh.v
RetryGate.v
NodeDirectory.v
Scanner.v
ScannerSteps.v
ScannerSafety.v
ScannerRevocation.v
ScannerExample.v
