(* ===== verification/Prelude.v ===== *)
(** * A verification library for Personal AI Router

    The program is a set of Go services on every node of a small cluster.  Nodes find each
    other over mDNS and publish records; a scheduler ranks them; a proxy in front of each
    inference engine forwards every request to a node of the cluster; a workload manager
    tells the other nodes what runs here; and a broker collects all of it for the clients.
    This library translates the logic of the path from "a node is advertised" to "a request
    is routed, and its workload is seen by every client" and proves what makes it correct.

    ** The parts, their files, and how they interact

    Source paths are under src/services/.  Each operation keeps its name; a record keeps
    its fields, with a prefix where two records share a name.

    - GoStd (strings, strconv, net) and Json ([encoding/json] on decoded values): the parts
      of Go's standard library the rest computes with.  GoList: [container/list].
    - Noderec (shared/noderec): the TXT record of a node, its printer and parser, and the
      directory entry with its identity.  Every component below consumes these entries.
    - Netpick (shared/netpick) and Reach (shared/reach): in which order the addresses of a
      node are tried, which one is confirmed, and what is remembered of it.
    - SchedulerWire (shared/schedulerwire) and Scheduler (nvpair-job-scheduler: schedule.go,
      state.go, telemetry.go, manager.go): the universe of nodes, the catalogue of
      workloads, the GPU readings, the rank with hysteresis, and the message loop that
      publishes it.
    - ProxyNodes and Routing (ollama-proxy: discovery.go, proxy.go, stall.go, ingress.go):
      the proxy's overlays over the directory, the candidates of a request, their order,
      and the reservations that spread a burst between two rank snapshots.
      FleetScheduling composes the scheduler's output with the proxy's routing.
    - PrefixTable, Affinity (shared/prefixhash, ollama-proxy/affinity.go): the transcript
      digests of a conversation and the table that sends a follow-up to the warm node.
    - WorkloadStore, WorkloadHistory (nvpair-ui-broker/workloadstore): the broker's index of
      workloads with its provenance-aware merge, and its history on disk.
    - NodeMetrics (nvpair-ui-broker/nodemetrics, shared/inferencemetrics) with FloatRange:
      token totals and rolling rates.  LiveProgress (liveprogress.go, progress.go): the
      live view of a running job.
    - BrokerWorkloads (nvpair-ui-broker: broker.go, node_metrics.go, peer_inventory.go):
      composes the three previous ones into the pipeline a workload event runs through.
      SchedulerFeed joins it to the Scheduler: the notifications it sends there, as
      state.go decodes and applies them.
    - Dedup, Broadcast, WorkloadManager (nvpair-workload-manager): what a node puts on the
      inter-node wire, to whom, how often it retries, and how the receiver validates,
      deduplicates and relays it.  The receiver's output is BrokerWorkloads' input.
    - GoBytes (encoding/base64, crypto/sha256, crypto/hmac) and JsonText ([encoding/json]
      from bytes to bytes) carry EapWire, EapKeys and EapNoob (eap-noob): the messages, the
      keys and both roles of the protocol that pairs two nodes.  EapSession has the
      invariants and the security theorems, EapPairing the conversation of two honest
      sides, EapExample a session that is run.
    - The cluster manager (nvpair-cluster-manager).  ClusterAddresses (addresses.go): the
      address hints of a member and the dial budget.  ClusterTrust (endorsement.go,
      identity.go): what members sign and check.  ClusterState (manager.go, truststore.go,
      membership.go and the stores beside them, teardown_store.go): the [Manager] with its
      disk, the state monad [M], every store operation, and [NewManager].  ClusterRoster
      (roster.go, roster_http.go, remove.go, mtls.go, leave.go, rpc_identity.go, the commits
      of httpserver.go and respond.go): merging, removing, leaving, founding and joining.
      ClusterLogic has the frame and postcondition rules and what a pin, a removal and a
      stored proof change; ClusterSafety, ClusterRemoval, ClusterTeardown and ClusterRelay
      the theorems, over sequences of operations, restarts and failing writes; ClusterExample
      a cluster of four nodes that is run.
    - Who is out there.  Browser (shared/discovery): the map of advertised nodes, with its
      misses, probes and evictions, one step per scan.  Mesh (shared/clustertrust): what a
      service reads of the cluster manager's directory and the authenticated read of a
      peer's inventory.  EngineNative (shared/enginenative): an engine's own counters.  The
      node scanner (nvpair-node-scanner) uses all three: RetryGate (daemon.go,
      enrich_hosts.go), NodeDirectory (registry.go, directory.go), Scanner (daemon.go,
      peer_inventory.go: the handlers between two waits) and ScannerSteps (the handlers
      interleaved, and a publication step by step beside the trust passes); ScannerSafety
      and ScannerRevocation have its theorems, ScannerExample a node that meets a peer and
      loses it.  Its directory is what the proxies, the broker and the scheduler are fed.

    ** What the theorems show

    - Routing.  The candidates of a request are exactly the discovered nodes with the
      requested model that may be dialled (the local engine, a pinned peer, or a node the
      user added), one per host and never this proxy itself; the candidates come in the
      selection's, the scheduler's and the id's order, and a cooldown only moves them to the
      end; a reservation takes a least loaded candidate, and a burst over nodes that are
      neither selected nor cooling stays balanced but for warm nodes; the first request after
      a snapshot goes where the scheduler ranked first, unless it is warm elsewhere, the
      user selected a node or a cooldown sets nodes aside.
    - Scheduling.  The ranking lists every known node once, by load, pressure and id, in
      whatever order maps are walked; after any message the parent was last sent the
      current ranking, and its copy is the one the scheduler compares against.
    - Prompt affinity.  The table implements a bounded recency list; no message boundary of
      a transcript can be forged; a response counts as complete by its last line, however
      the stream is cut.
    - Workload state.  The merge converges for every delivery order, keeps terminal
      states, and yields to a heartbeat; the sweeps only fail what is really silent
      (theorems of WorkloadStore); the history comes back after a flush that succeeds and a
      restart, and is capped; a checkpoint whose write fails, however, leaves the store
      marked clean, so what it should have written can be lost ([failed_checkpoint]; theorems
      of WorkloadHistory).
    - The broker.  The client is told exactly the index, and the scheduler's catalogue is
      exactly its queued and running workloads (SchedulerFeed); a completion is counted once
      over any number of duplicate events, provided its terminal reports name one node; a
      lost node's workloads fail, and stamping attributes a local event to one node for good
      (theorems of BrokerWorkloads).  Metrics equal a
      recount of the window and are finite; live views refine a map with retirement.
    - The inter-node wire.  A frame the sender builds parses back to the same workload; a
      re-sync reconciles a receiver that lost events; a removal is the last event of its
      key; whatever is posted, the answer is the one its case has and only well-typed events
      of pinned peers reach the broker; concurrent duplicates are emitted once and everyone
      waiting gets an answer (theorems of WorkloadManager, Dedup, Broadcast).
    - Records and addresses.  TXT printing and parsing are inverse; record identity
      separates nodes; the candidate order equals a reference sort; a probe that was
      running when an address was forgotten cannot bring it back.

    - Pairing.  Without an out-of-band step nobody registers anybody, whatever is received;
      when a side accepts the other's code, both hold the same view of the session and the
      same keys, unless the two computations exhibit a named collision of the hash
      (EapSession); an accepted out-of-band message means one initial exchange, and two
      honest, compatible sides end with one association and equal exported secrets
      (EapPairing).
    - The cluster.  A roster, whatever a peer puts into it, only adds pins that a chain of
      endorsements from this node or a pinned peer vouches for, in admissions later than any
      recorded removal; merging ends, and with a working disk leaves nothing admissible
      (ClusterSafety).  A removed node has no pin through any run of operations, failing
      writes and restarts until it is readmitted or this node leaves (ClusterRemoval); its
      removal travels along a path of nodes that know their predecessor, still have the node
      in that admission without a proof, and can write (ClusterRelay).  A
      teardown ends clean or leaves the marker and grants nothing, and a start on a marker
      finishes it or does not start (ClusterTeardown).  Signed statements are unambiguous
      (ClusterTrust), and dialling keeps within its budget (ClusterAddresses).

    - Discovery.  A subscriber that applies the browser's events holds the browser's map,
      but for the order of addresses and TXT strings and, under a key function, the instance
      names; a node is given up only after its threshold of scans without a sign of it, the
      late ones with a refused probe, and a node that is gone does age out, unless the
      browser is set up to keep its nodes (Browser).  An accepted inventory read is proof
      that the peer holds the pinned key and that nothing the proof rests on changed
      meanwhile; a membership that ended on disk grants nothing at the next look (Mesh).
      One telemetry request per node is under way, and a failure holds back its own endpoint
      only, for two seconds doubled with every failure in a row and at most thirty
      (RetryGate).
    - The node scanner.  In whatever order the handlers run, an entry is routable only if it
      is this node or shows exactly what an accepted read proved, at the address that proved
      it (ScannerSafety); once no publication is between its check and its write, a revoked
      binding is never published again by a read that was under way, and is gone when a
      trust pass that began later is over (ScannerRevocation).  A publication that is past
      its check when the record is revoked does outlive a whole pass, until the next one
      ([publication_outlives_pass] in ScannerExample).  A wiped machine does not keep its
      old record alive, and activity is never dated in the future (lemmas of Scanner).

    ** Modelling decisions

    - A method that holds one mutex from start to end is one step; a goroutine that takes
      it several times is several steps, and the theorems quantify over their
      interleavings (Reach, Dedup, WorkloadManager).  A clock is read once per step; a
      reading is an argument.
    - Iteration over a Go map has no order.  A definition that does it takes the order from
      the class [MapRange] of this file (a list with exactly the bindings of the map) and
      the theorems hold for every instance; [sort.Slice] is insertion sort where the order
      is total, and theorems about it only use that it sorts.
    - Integers are [Z].  64-bit counters that can wrap are reduced ([Scheduler]'s
      generations); theorems that need them not to wrap assume fewer than 2^64 events.
      [float64] is SpecFloat's binary64 without fused operations.
    - JSON is modelled on decoded values, with Go's field matching, ASCII case folding of
      names, and typed decoding errors; EAP-NOOB authenticates raw texts, so there it is
      modelled from bytes to bytes, with Go's scanner, escapes and nesting limit.  The text
      of floating-point literals, the encoder of a prompt, the hash of a transcript, the
      peer identity of a TLS connection and the verdict of an address probe are parameters.
      Messages, posts and writes are values the operations return; whether a write succeeds
      is an argument, and so is what the random source yields.
    - SHA-256 in EAP-NOOB is the class [Sha256] (32 bytes, nothing else assumed) with an
      executable instance; the curves of [crypto/ecdh] are the class [Ecdh] with the laws
      [EcdhLaws].  No theorem assumes that collisions do not exist: it names one instead.
    - The cluster manager runs on a [World]: whether the n-th durable write succeeds, and
      what the n-th reading of the clock is.  A crash is a world in which no later write
      succeeds, followed by a start on the disk.  A file of the cluster directory is the
      value it decodes to, and [atomicWrite] replaces it or leaves it; file names are those
      of Unix.  A handler that waits for the network is the step before and the step after,
      each under the roster lock.  Certificates, PEM and Ed25519 are the class [Pki] with
      the laws [PkiLaws] (a signature verifies and has 64 bytes); only ClusterRelay uses the
      laws, and the safety theorems hold of any [Pki].  Events are values kept in order.
    - A [ClusterDir] is what the file reads of one refresh of the mesh returned, each at its
      own time.  The scanner's handlers wait for the network: a wait ends an event and
      [task] holds what is carried over it; answers, clock readings and directory readings
      are inputs of the events.  Each event refreshes the mesh at most once.  [publishSelf],
      which holds its lock while it asks this node over loopback, is one event; browse
      handlers, serial in the code, may overlap, which only adds behaviour; trust passes are
      serial, as the read loop runs them.  [publishVerified], the writes of a fetch and the
      expiry of a peer whose sweep failed are run step by step under [inventoryMu], which
      the trust pass does not take.  Decoding a node-info answer is a parameter, and JSON
      yields no NaN.
    - Fuel.  The hysteresis loops move through at most four pressure bands; a textual IPv6
      address has at most nine fields; trimming, expiring and evicting loops use the length
      of their list, the reader of a response its length plus one, and a delivery the three
      attempts of the code; the JSON parser uses twice the length of the text and two, and
      the two derivation loops the length of their output; the passes over a roster are one
      more than its entries ([members_settle]).  In each case the component's lemmas show
      that the loop ends within it.

    ** Not modelled

    PROJECT.json lists every component with its status.  Left out are process supervision
    and operating-system glue (pipes, child processes, installers, ports, file dialogs), the
    HTTP forwarding itself and its telemetry, the mDNS packets, the text user interface, and
    the desktop application in TypeScript.  The proxies for LM Studio and oMLX repeat the
    code of ollama-proxy with another engine's paths and are not modelled a second time.  Of
    the cluster manager, the HTTP exchange of an invitation, its cancellation and expiry,
    and mDNS browsing are left out; the state they keep (sessions, invites) and their
    commits are in.  Of the node scanner, the multicast exchange, the telemetry workers
    beyond their gate, the origin gate of plain reads and the startup grace are left out.
    The broker's supervisor, its discovery and settings, manual nodes and the engine manager
    are not modelled: most of their code drives sockets, processes and files of other
    programs.*)
From stdpp Require Export gmap strings list sorting.
From Stdlib Require Export ZArith Lia.
From Stdlib Require Import SpecFloat.

(** * Notations and tactics of the development *)

Declare Scope pair_scope.
Delimit Scope pair_scope with pair.
Open Scope Z_scope.

Create HintDb pair.

(** Splits every boolean test of the goal or of a hypothesis into its cases. *)
Ltac case_bool :=
  match goal with
  | |- context [if ?b then _ else _] =>
      lazymatch type of b with bool => destruct b eqn:? end
  | H : context [if ?b then _ else _] |- _ =>
      lazymatch type of b with bool => destruct b eqn:? end
  end.

(** Turns boolean comparisons in the context into propositions. *)
Ltac unbool :=
  repeat match goal with
  | H : (_ && _)%bool = true |- _ => apply andb_prop in H; destruct H
  | H : (_ || _)%bool = false |- _ => apply orb_false_elim in H; destruct H
  | H : negb _ = true |- _ => apply negb_true_iff in H
  | H : negb _ = false |- _ => apply negb_false_iff in H
  | H : bool_decide _ = true |- _ => apply bool_decide_eq_true in H
  | H : bool_decide _ = false |- _ => apply bool_decide_eq_false in H
  | H : Z.ltb _ _ = true |- _ => apply Z.ltb_lt in H
  | H : Z.ltb _ _ = false |- _ => apply Z.ltb_ge in H
  | H : Z.leb _ _ = true |- _ => apply Z.leb_le in H
  | H : Z.leb _ _ = false |- _ => apply Z.leb_gt in H
  | H : Z.eqb _ _ = true |- _ => apply Z.eqb_eq in H
  | H : Z.eqb _ _ = false |- _ => apply Z.eqb_neq in H
  end.

(** Case analysis on every test, matching and lookup, then congruence and
    linear arithmetic: the routine branch of an early-return handler. *)
Ltac branches :=
  repeat (case_match || case_bool); unbool; simplify_eq/=; try done; try lia.

(** * Machine integers *)

(** Go's [int] and [int64] are 64-bit two's complement, [uint64] is modulo 2^64. *)
Definition wrap64 (z : Z) : Z := (z + 2 ^ 63) mod 2 ^ 64 - 2 ^ 63.
Definition wrapU64 (z : Z) : Z := z mod 2 ^ 64.

Definition in_int64 (z : Z) : Prop := - 2 ^ 63 <= z < 2 ^ 63.

Lemma wrap64_id z : in_int64 z -> wrap64 z = z.
Proof. unfold wrap64, in_int64. intros. rewrite Z.mod_small; lia. Qed.

Lemma wrap64_range z : in_int64 (wrap64 z).
Proof.
  unfold wrap64, in_int64.
  pose proof (Z.mod_pos_bound (z + 2 ^ 63) (2 ^ 64) ltac:(lia)). lia.
Qed.

Lemma wrap64_add_l a b : wrap64 (wrap64 a + b) = wrap64 (a + b).
Proof.
  unfold wrap64. f_equal.
  replace ((a + 2 ^ 63) mod 2 ^ 64 - 2 ^ 63 + b + 2 ^ 63)
    with ((a + 2 ^ 63) mod 2 ^ 64 + b) by lia.
  rewrite Zplus_mod_idemp_l. f_equal. lia.
Qed.

Lemma wrapU64_id z : 0 <= z < 2 ^ 64 -> wrapU64 z = z.
Proof. intros. unfold wrapU64. by apply Z.mod_small. Qed.

#[export] Hint Resolve wrap64_range : pair.

(** * Time *)

(** An instant is a monotonic reading in nanoseconds and a [time.Duration] a
    nanosecond count; [time.Time.Sub] saturates at the ends of int64. *)
Definition nanosecond : Z := 1.
Definition millisecond : Z := 1000000.
Definition second : Z := 1000000000.

Definition time_sub (a b : Z) : Z := Z.max (- 2 ^ 63) (Z.min (2 ^ 63 - 1) (a - b)).

Lemma time_sub_exact a b : in_int64 (a - b) -> time_sub a b = a - b.
Proof. unfold time_sub, in_int64. lia. Qed.

(** * IEEE 754 binary64, as Go's [float64] *)

Module F64.
Definition prec : Z := 53.
Definition emax : Z := 1024.
Definition of_Z (z : Z) : spec_float := binary_normalize prec emax z 0 false.
Definition add : spec_float -> spec_float -> spec_float := SFadd prec emax.
Definition mul : spec_float -> spec_float -> spec_float := SFmul prec emax.
Definition div : spec_float -> spec_float -> spec_float := SFdiv prec emax.
(** [x < y] and [x >= y] of Go: both false when an operand is NaN. *)
Definition lt (x y : spec_float) : bool := SFltb x y.
Definition ge (x y : spec_float) : bool := SFleb y x.

#[global] Arguments of_Z : simpl never.
#[global] Arguments add : simpl never.
#[global] Arguments mul : simpl never.
#[global] Arguments div : simpl never.
#[global] Arguments lt : simpl never.
#[global] Arguments ge : simpl never.

Lemma ge_not_lt x y : ge x y = true -> lt x y = false.
Proof.
  unfold ge, lt, SFleb, SFltb.
  destruct x as [[]|[]| |[] m e], y as [[]|[]| |[] m' e']; simpl; try done;
    rewrite (Z.compare_antisym e' e); destruct (Z.compare e' e); simpl; try done;
    pose proof (Pos.compare_cont_antisym m' m Eq) as Hm; simpl in Hm;
    rewrite <- ?Hm; by destruct (Pos.compare_cont Eq m' m).
Qed.

Lemma lt_trans x y z : lt x y = true -> lt y z = true -> lt x z = true.
Proof.
  unfold lt, SFltb.
  destruct x as [[]|[]| |[] mx ex], y as [[]|[]| |[] my ey], z as [[]|[]| |[] mz ez];
    simpl; try done; intros H1 H2;
    destruct (Z.compare_spec ex ey), (Z.compare_spec ey ez), (Z.compare_spec ex ez);
    try done; try lia; revert H1 H2;
    change (Pos.compare_cont Eq) with Pos.compare;
    destruct (Pos.compare_spec mx my), (Pos.compare_spec my mz), (Pos.compare_spec mx mz);
    simpl; try done; lia.
Qed.
End F64.

(** * Go's maps and sorts *)

(** A [for range] over a Go map visits every entry exactly once, in an order the
    language leaves unspecified.  Definitions whose code ranges over a map take
    the order from this interface; a theorem about them holds for every order. *)
Class MapRange : Type := {
  range : forall {K : Type} `{Countable K} {A : Type}, gmap K A -> list (K * A);
  range_perm : forall {K : Type} `{Countable K} {A : Type} (m : gmap K A),
    range m ≡ₚ map_to_list m
}.

#[export] Hint Resolve range_perm : pair.

(** Two concrete orders, for evaluation: ascending by key encoding, and its reverse. *)
Definition ascending_range : MapRange :=
  {| range := fun _ _ _ _ m => map_to_list m; range_perm := fun _ _ _ _ m => reflexivity _ |}.

Definition descending_range : MapRange :=
  {| range := fun _ _ _ _ m => rev (map_to_list m);
     range_perm := fun _ _ _ _ m => symmetry (Permutation_rev _) |}.

Section MapRangeFacts.
Context `{!MapRange} {K : Type} `{Countable K} {A : Type}.
Implicit Types (m : gmap K A).

Lemma elem_of_range m k x : (k, x) ∈ range m <-> m !! k = Some x.
Proof. rewrite range_perm. apply elem_of_map_to_list. Qed.

Lemma NoDup_fst_range m : NoDup (range m).*1.
Proof. rewrite range_perm. apply NoDup_fst_map_to_list. Qed.

Lemma length_range m : length (range m) = size m.
Proof. rewrite range_perm. apply length_map_to_list. Qed.

Lemma elem_of_fst_range m k : k ∈ (range m).*1 <-> is_Some (m !! k).
Proof.
  rewrite list_elem_of_fmap. split.
  - intros ([k' x] & -> & Hin). apply elem_of_range in Hin. eauto.
  - intros [x Hx]. exists (k, x). split; [done |]. by apply elem_of_range.
Qed.
End MapRangeFacts.

(** [sort.Slice] and [sort.SliceStable] with a comparison [less].  A stable
    insertion sort: with the input order left arbitrary (see [MapRange]) its
    results are exactly the orders an unstable sort may produce. *)
Fixpoint insert_by {A} (less : A -> A -> bool) (x : A) (l : list A) : list A :=
  match l with
  | [] => [x]
  | y :: l' => if less y x then y :: insert_by less x l' else x :: l
  end.

Fixpoint sort_by {A} (less : A -> A -> bool) (l : list A) : list A :=
  match l with
  | [] => []
  | x :: l' => insert_by less x (sort_by less l')
  end.

(** What a comparison must satisfy for the result to be sorted: [less] is a
    strict weak order, stated on its complement. *)
Class StrictWeak {A} (less : A -> A -> bool) : Prop := {
  sw_asym : forall x y, less x y = true -> less y x = false;
  sw_trans : forall x y z, less y x = false -> less z y = false -> less z x = false
}.

Definition not_after {A} (less : A -> A -> bool) : A -> A -> Prop :=
  fun x y => less y x = false.

Section SortFacts.
Context {A : Type} (less : A -> A -> bool).

Lemma insert_by_perm x l : insert_by less x l ≡ₚ x :: l.
Proof.
  induction l as [|y l IH]; simpl; [done |].
  case_bool; [rewrite IH; constructor | done].
Qed.

Lemma sort_by_perm l : sort_by less l ≡ₚ l.
Proof. induction l as [|x l IH]; simpl; [done |]. by rewrite insert_by_perm, IH. Qed.

Lemma elem_of_sort_by x l : x ∈ sort_by less l <-> x ∈ l.
Proof. by rewrite sort_by_perm. Qed.

Lemma length_sort_by l : length (sort_by less l) = length l.
Proof. by rewrite sort_by_perm. Qed.

Context `{!StrictWeak less}.

Lemma insert_by_sorted x l :
  StronglySorted (not_after less) l -> StronglySorted (not_after less) (insert_by less x l).
Proof.
  induction 1 as [|y l Hl IH Hy]; simpl; [repeat constructor |].
  destruct (less y x) eqn:E.
  - constructor; [done |]. rewrite insert_by_perm. constructor; [by apply sw_asym | done].
  - constructor; [by constructor |]. constructor; [done |].
    eapply Forall_impl; [exact Hy |]. intros z Hz. by eapply sw_trans.
Qed.

Lemma sort_by_sorted l : StronglySorted (not_after less) (sort_by less l).
Proof. induction l; simpl; [constructor | by apply insert_by_sorted]. Qed.

(** When [less] separates any two distinct elements, the result does not
    depend on the order of the input. *)
Lemma sort_by_unique l l' :
  (forall x y, x ∈ l -> y ∈ l -> less x y = false -> less y x = false -> x = y) ->
  l ≡ₚ l' -> sort_by less l = sort_by less l'.
Proof.
  intros Htot Hp. apply (StronglySorted_unique_strong (not_after less)).
  - intros x y Hx Hy. rewrite elem_of_sort_by in Hx. rewrite elem_of_sort_by, <- Hp in Hy.
    unfold not_after. eauto.
  - apply sort_by_sorted.
  - apply sort_by_sorted.
  - by rewrite !sort_by_perm.
Qed.

Lemma sorted_heads x l y : StronglySorted (not_after less) (x :: l) -> y ∈ x :: l -> less y x = false.
Proof.
  intros Hs Hy. apply StronglySorted_inv in Hs as [_ Hs].
  apply elem_of_cons in Hy as [-> | Hy].
  - destruct (less x x) eqn:E; [| done]. by rewrite (sw_asym x x E) in E.
  - rewrite Forall_forall in Hs. by apply Hs.
Qed.

(** The keys of two sorted permutations agree, when elements that [less] does
    not separate have the same key. *)
Lemma sorted_keys_unique {B} (f : A -> B) (l l' : list A) :
  (forall x y, x ∈ l -> y ∈ l -> less x y = false -> less y x = false -> f x = f y) ->
  StronglySorted (not_after less) l -> StronglySorted (not_after less) l' ->
  l ≡ₚ l' -> f <$> l = f <$> l'.
Proof.
  revert l'. induction l as [|x l IH]; intros l' Hf Hs Hs' Hp.
  { by apply Permutation_nil_l in Hp as ->. }
  assert (x ∈ l') as Hx by (rewrite <- Hp; left).
  apply list_elem_of_split in Hx as (a & b & ->).
  assert (l ≡ₚ a ++ b) as Hp' by (rewrite <- Permutation_middle in Hp; by apply Permutation_cons_inv in Hp).
  assert (StronglySorted (not_after less) (a ++ b)) as Hab.
  { apply StronglySorted_app in Hs' as (H1 & H2 & H3).
    apply StronglySorted_app. split_and!; [| done | by apply StronglySorted_inv in H3 as [? _]].
    intros u v Hu Hv. apply H1; [done | by right]. }
  assert (forall u, u ∈ a -> f u = f x) as Ha.
  { intros u Hu. apply Hf.
    - rewrite Hp. set_solver.
    - left.
    - eapply sorted_heads; [exact Hs | rewrite Hp; set_solver].
    - apply StronglySorted_app in Hs' as (H1 & _ & _). apply H1; [done | left]. }
  rewrite fmap_cons, (IH (a ++ b)).
  - rewrite !fmap_app, fmap_cons. clear -Ha. induction a as [|u a IH]; [done |].
    rewrite fmap_cons, (Ha u) by left. simpl. f_equal. apply IH. intros v Hv. apply Ha. by right.
  - intros u v Hu Hv. apply Hf; by right.
  - by apply StronglySorted_inv in Hs as [? _].
  - done.
  - done.
Qed.

Lemma sort_by_keys {B} (f : A -> B) (l l' : list A) :
  (forall x y, x ∈ l -> y ∈ l -> less x y = false -> less y x = false -> f x = f y) ->
  l ≡ₚ l' -> f <$> sort_by less l = f <$> sort_by less l'.
Proof.
  intros Hf Hp. apply sorted_keys_unique; [| apply sort_by_sorted | apply sort_by_sorted |].
  - intros x y. rewrite !elem_of_sort_by. apply Hf.
  - by rewrite !sort_by_perm.
Qed.
End SortFacts.

(** Go's [<] on strings: byte-wise lexicographic. *)
Definition str_ltb (a b : string) : bool := negb (String.leb b a).

Lemma str_ltb_irrefl a : str_ltb a a = false.
Proof.
  unfold str_ltb. apply negb_false_iff.
  destruct (String.leb_total a a) as [H | H]; exact H.
Qed.

Lemma str_ltb_asym a b : str_ltb a b = true -> str_ltb b a = false.
Proof.
  unfold str_ltb. intros H. apply negb_true_iff in H. apply negb_false_iff.
  destruct (String.leb_total a b) as [? | ?]; [done | congruence].
Qed.

Lemma str_ltb_total a b : str_ltb a b = false -> str_ltb b a = false -> a = b.
Proof.
  unfold str_ltb. rewrite !negb_false_iff. intros. by apply String.leb_antisym.
Qed.

Lemma str_ltb_ntrans a b c :
  str_ltb b a = false -> str_ltb c b = false -> str_ltb c a = false.
Proof.
  unfold str_ltb. rewrite !negb_false_iff. intros H1 H2.
  apply Is_true_true. change (stdpp.strings.String.le a c).
  transitivity b; by apply Is_true_true.
Qed.

#[export] Hint Resolve str_ltb_irrefl str_ltb_asym : pair.

(** Reduces [str_ltb] facts of the context to contradictions or equalities. *)
Ltac str_order :=
  repeat match goal with
  | H : str_ltb ?a ?a = true |- _ => rewrite str_ltb_irrefl in H; discriminate
  | H : str_ltb ?a ?b = true |- _ =>
      lazymatch goal with
      | H' : str_ltb b a = false |- _ => fail
      | _ => pose proof (str_ltb_asym a b H)
      end
  | H : str_ltb ?a ?b = false, H' : str_ltb ?b ?a = false |- _ =>
      assert_fails (constr_eq a b); pose proof (str_ltb_total a b H H'); subst
  | H : str_ltb ?b ?a = false, H' : str_ltb ?c ?b = false |- _ =>
      lazymatch goal with
      | H'' : str_ltb c a = false |- _ => fail
      | _ => pose proof (str_ltb_ntrans a b c H H')
      end
  end; try congruence.

#[export] Instance str_ltb_weak : StrictWeak str_ltb.
Proof. split; [apply str_ltb_asym | intros x y z; apply str_ltb_ntrans]. Qed.

(** The sorted keys of a map depend neither on the order of its iteration nor on its values. *)
Lemma sorted_keys_dom (R R' : MapRange) {A B} (m : gmap string A) (m' : gmap string B) :
  (forall k, is_Some (m !! k) <-> is_Some (m' !! k)) ->
  sort_by str_ltb (@range R _ _ _ _ m).*1 = sort_by str_ltb (@range R' _ _ _ _ m').*1.
Proof.
  intros Hd. apply sort_by_unique; [apply _ | intros; by apply str_ltb_total |].
  apply NoDup_Permutation; [apply NoDup_fst_range | apply NoDup_fst_range |].
  intros k. by rewrite !elem_of_fst_range.
Qed.

(** The names an attribute takes in a list, in order. *)
Definition names_of {A} (f : A -> string) (l : list A) : list string := sort_by str_ltb (remove_dups (f <$> l)).

Lemma sorted_keys_names `{!MapRange} {A B} (m : gmap string A) (f : B -> string) (l : list B) :
  (forall k, is_Some (m !! k) <-> k ∈ f <$> l) -> sort_by str_ltb (range m).*1 = names_of f l.
Proof.
  intros Hd. apply sort_by_unique; [apply _ | intros; by apply str_ltb_total |].
  apply NoDup_Permutation; [apply NoDup_fst_range | apply NoDup_remove_dups |].
  intros k. by rewrite elem_of_fst_range, elem_of_remove_dups.
Qed.

Lemma names_of_perm {A} (f : A -> string) (l l' : list A) : f <$> l ≡ₚ f <$> l' -> names_of f l = names_of f l'.
Proof.
  intros Hp. apply sort_by_unique; [apply _ | intros; by apply str_ltb_total |].
  apply NoDup_Permutation; [apply NoDup_remove_dups | apply NoDup_remove_dups |].
  intros k. by rewrite !elem_of_remove_dups, Hp.
Qed.

Lemma elem_of_names {A} (f : A -> string) (l : list A) k : k ∈ names_of f l <-> k ∈ f <$> l.
Proof. unfold names_of. by rewrite elem_of_sort_by, elem_of_remove_dups. Qed.

(** Collecting present entries. *)
Lemma omap_all {A B} (f : A -> option B) (g : A -> B) (l : list A) :
  (forall x, x ∈ l -> f x = Some (g x)) -> omap f l = g <$> l.
Proof.
  induction l as [|x l IH]; intros Hf; [done |]. cbn. rewrite (Hf x) by left.
  cbn. f_equal. apply IH. intros y Hy. apply Hf. by right.
Qed.

(** Membership in the Standard Library's boolean filter. *)
(** A second key of a list, separating what the first one separates. *)
Lemma NoDup_fmap_on {X Y Z : Type} (f : X -> Y) (g : X -> Z) (xs : list X) :
  NoDup (f <$> xs) -> (forall x y, x ∈ xs -> y ∈ xs -> g x = g y -> f x = f y) -> NoDup (g <$> xs).
Proof.
  induction xs as [|x xs IH]; intros Hn Hg; [constructor |]. rewrite fmap_cons in *.
  apply NoDup_cons in Hn as [Hx Hn]. constructor.
  - rewrite list_elem_of_fmap. intros (y & Hy & Hin). apply Hx.
    rewrite (Hg x y) by (by constructor || done). by apply list_elem_of_fmap_2.
  - apply IH; [done |]. intros a b Ha Hb. apply Hg; by right.
Qed.

Lemma elem_of_bfilter {A} (f : A -> bool) (l : list A) x : x ∈ List.filter f l <-> x ∈ l /\ f x = true.
Proof. by rewrite !list_elem_of_In, filter_In. Qed.

(** Filtering bindings by their values. *)
Lemma bfilter_snd {A B} (f : B -> bool) (l : list (A * B)) : (List.filter (fun p => f p.2) l).*2 = List.filter f l.*2.
Proof. induction l as [|[a b] l IH]; [done |]. cbn. destruct (f b); cbn; [f_equal |]; exact IH. Qed.

Lemma NoDup_fst_bfilter {A B} (f : A * B -> bool) (l : list (A * B)) : NoDup l.*1 -> NoDup (List.filter f l).*1.
Proof.
  induction l as [|[a b] l IH]; [done |]. cbn [fmap list_fmap fst List.filter]. intros [Ha Hnd]%NoDup_cons.
  destruct (f (a, b)); [| by apply IH]. cbn [fmap list_fmap fst]. apply NoDup_cons. split; [| by apply IH].
  intros ([a' b'] & Haa & [Hin _]%elem_of_bfilter)%list_elem_of_fmap. cbn in Haa. subst a'.
  apply Ha. by apply (list_elem_of_fmap_2 fst _ (a, b')).
Qed.

Lemma lfilter_perm {A} (f : A -> bool) (l l' : list A) : l ≡ₚ l' -> List.filter f l ≡ₚ List.filter f l'.
Proof.
  induction 1 as [| x l l' _ IH | x y l | l l' l'' _ IH1 _ IH2]; cbn; [done | | | by rewrite IH1].
  - destruct (f x); by rewrite IH.
  - destruct (f x), (f y); try done. apply perm_swap.
Qed.

(** * Counting the entries of a map *)

(** The number of values of [m] that satisfy [f]. *)
Definition map_count {K} `{Countable K} {A} (f : A -> bool) (m : gmap K A) : nat :=
  length (List.filter f (map_to_list m).*2).

Section MapCount.
Context {K : Type} `{Countable K} {A : Type} (f : A -> bool).
Implicit Types (m : gmap K A).

Lemma filter_length_perm (l l' : list A) :
  l ≡ₚ l' -> length (List.filter f l) = length (List.filter f l').
Proof. induction 1; simpl; repeat case_bool; simpl; lia. Qed.

Lemma map_count_insert_fresh m k v :
  m !! k = None ->
  map_count f (<[k := v]> m) = (Nat.b2n (f v) + map_count f m)%nat.
Proof.
  intros Hk. unfold map_count.
  rewrite (filter_length_perm _ (v :: (map_to_list m).*2)).
  - simpl. by case_bool.
  - by rewrite map_to_list_insert.
Qed.

Lemma map_count_lookup m k v :
  m !! k = Some v -> map_count f m = (Nat.b2n (f v) + map_count f (delete k m))%nat.
Proof.
  intros Hk. rewrite <- (insert_id m k v) at 1 by done.
  rewrite <- insert_delete_eq. apply map_count_insert_fresh. apply lookup_delete_eq.
Qed.

Lemma map_count_insert m k v :
  map_count f (<[k := v]> m) = (Nat.b2n (f v) + map_count f (delete k m))%nat.
Proof. rewrite <- insert_delete_eq. apply map_count_insert_fresh, lookup_delete_eq. Qed.

Lemma map_count_delete_none m k : m !! k = None -> map_count f (delete k m) = map_count f m.
Proof. intros. by rewrite delete_id. Qed.

Lemma map_filter_perm (P : K * A -> Prop) `{!forall x, Decision (P x)} m :
  map_to_list (filter P m) ≡ₚ base.filter P (map_to_list m).
Proof.
  apply NoDup_Permutation.
  - apply NoDup_map_to_list.
  - apply NoDup_filter, NoDup_map_to_list.
  - intros [k x].
    by rewrite elem_of_map_to_list, map_lookup_filter_Some, list_elem_of_filter,
      elem_of_map_to_list, (comm and).
Qed.

Lemma map_count_filter (P : K * A -> Prop) `{!forall x, Decision (P x)} m :
  (forall k v, m !! k = Some v -> ~ P (k, v) -> f v = false) ->
  map_count f (filter P m) = map_count f m.
Proof.
  intros Hout. unfold map_count.
  rewrite (filter_length_perm _ (base.filter P (map_to_list m)).*2)
    by (by rewrite map_filter_perm).
  assert (forall k v, (k, v) ∈ map_to_list m -> ~ P (k, v) -> f v = false) as Hl
    by (intros ??; rewrite elem_of_map_to_list; eauto).
  clear Hout. induction (map_to_list m) as [|[k v] l IH]; [done |].
  assert (length (List.filter f (base.filter P l).*2) = length (List.filter f l.*2)) as E
    by (apply IH; set_solver).
  destruct (decide (P (k, v))) as [HP | HP].
  - rewrite filter_cons_True by done. rewrite !fmap_cons. cbn [List.filter snd].
    destruct (f v); simpl; congruence.
  - rewrite filter_cons_False by done. rewrite fmap_cons. cbn [List.filter snd].
    by rewrite (Hl k v ltac:(set_solver) HP).
Qed.
End MapCount.

(** * Loops over maps, one key at a time *)

(** A loop whose steps concern one key each, seen from one key: the steps of that key. *)
Lemma foldl_project {S X T : Type} (I : S -> Prop) (f : S -> X -> S) (kx : X -> string) (k : string)
    (proj : S -> T) (upd : T -> X -> T) (l : list X) (s : S) :
  (forall s x, x ∈ l -> I s -> I (f s x)) ->
  (forall s x, x ∈ l -> I s ->
     proj (f s x) = if bool_decide (kx x = k) then upd (proj s) x else proj s) ->
  I s ->
  proj (foldl f s l) = foldl upd (proj s) (List.filter (fun x => bool_decide (kx x = k)) l)
  /\ I (foldl f s l).
Proof.
  revert s. induction l as [|x l IH]; intros s HI Hf Hs; [done |]. cbn [foldl List.filter].
  destruct (IH (f s x)) as [-> ?].
  - intros. apply HI; [by right | done].
  - intros. apply Hf; [by right | done].
  - apply HI; [by left | done].
  - rewrite Hf by first [done | left]. by case_bool_decide.
Qed.

(** Walking a map meets a key once, if it is there. *)
Lemma filter_range `{!MapRange} {A} (m : gmap string A) k :
  List.filter (fun p => bool_decide (p.1 = k)) (range m) =
  match m !! k with Some x => [(k, x)] | None => [] end.
Proof.
  assert (forall l : list (string * A), NoDup l.*1 ->
    List.filter (fun p => bool_decide (p.1 = k)) l =
    match (list_to_map l : gmap string A) !! k with Some x => [(k, x)] | None => [] end) as Hl.
  { induction l as [|[k' x] l IH]; [done |]. intros [Hk Hl]%NoDup_cons. cbn [list_to_map foldr List.filter fst].
    rewrite (IH Hl). cbn. case_bool_decide as E.
    - subst. rewrite lookup_insert_eq. by rewrite (not_elem_of_list_to_map_1 _ _ Hk).
    - by rewrite lookup_insert_ne. }
  rewrite (Hl _ (NoDup_fst_range m)). f_equal.
  rewrite (list_to_map_proper (range m) (map_to_list m)); [by rewrite list_to_map_to_list | apply NoDup_fst_range |].
  apply range_perm.
Qed.
