(* ===== verification/GoStd.v ===== *)
(** The parts of Go's standard library that the modelled code computes with:
    [strings] (Cut, Split, Join, TrimSpace, EqualFold), [strconv] (Itoa, Atoi) and
    [net] (JoinHostPort, SplitHostPort, ParseIP and the address-class tests), as
    executable functions on byte strings, with the round trips the rest relies on. *)
From Stdlib Require Export Ascii.
From Stdlib Require Import DecimalString DecimalZ DecimalFacts.
From S2P Require Import Prelude.

Open Scope string_scope.
Open Scope list_scope.
Open Scope Z_scope.

(** * Package strings *)

Fixpoint has_char (c : ascii) (s : string) : bool :=
  match s with
  | EmptyString => false
  | String d s' => bool_decide (c = d) || has_char c s'
  end.

(** [strings.Cut s c] for a one-byte separator. *)
Fixpoint cut (c : ascii) (s : string) : option (string * string) :=
  match s with
  | EmptyString => None
  | String d s' =>
      if bool_decide (c = d) then Some ("", s')
      else match cut c s' with
           | Some (a, b) => Some (String d a, b)
           | None => None
           end
  end.

(** The text before and after the last [c] ([strings.LastIndexByte]). *)
Fixpoint cut_last (c : ascii) (s : string) : option (string * string) :=
  match s with
  | EmptyString => None
  | String d s' =>
      match cut_last c s' with
      | Some (a, b) => Some (String d a, b)
      | None => if bool_decide (c = d) then Some ("", s') else None
      end
  end.

(** [strings.Split s c]: never empty. *)
Fixpoint split (c : ascii) (s : string) : list string :=
  match s with
  | EmptyString => [""]
  | String d s' =>
      if bool_decide (c = d) then "" :: split c s'
      else match split c s' with
           | a :: l => String d a :: l
           | [] => [String d ""]
           end
  end.

(** [strings.Join l c]. *)
Fixpoint join (c : ascii) (l : list string) : string :=
  match l with
  | [] => ""
  | [a] => a
  | a :: l' => a +:+ String c (join c l')
  end.

Fixpoint cut_prefix (p s : string) : option string :=
  match p, s with
  | EmptyString, _ => Some s
  | String c p', String d s' => if bool_decide (c = d) then cut_prefix p' s' else None
  | String _ _, EmptyString => None
  end.

Definition has_prefix (p s : string) : bool := bool_decide (is_Some (cut_prefix p s)).

Definition byte (c : ascii) : Z := Z.of_N (N_of_ascii c).

(** The leading [unicode.IsSpace] rune of a UTF-8 byte list, removed. *)
Definition strip_space (l : list Z) : option (list Z) :=
  match l with
  | b1 :: l1 =>
      if ((9 <=? b1) && (b1 <=? 13)) || (b1 =? 32) then Some l1
      else match l1 with
           | b2 :: l2 =>
               if (b1 =? 194) && ((b2 =? 133) || (b2 =? 160)) then Some l2
               else match l2 with
                    | b3 :: l3 =>
                        if ((b1 =? 225) && (b2 =? 154) && (b3 =? 128))
                           || ((b1 =? 226) && (b2 =? 128)
                               && (((128 <=? b3) && (b3 <=? 138)) || (b3 =? 168) || (b3 =? 169)
                                   || (b3 =? 175)))
                           || ((b1 =? 226) && (b2 =? 129) && (b3 =? 159))
                           || ((b1 =? 227) && (b2 =? 128) && (b3 =? 128))
                        then Some l3 else None
                    | [] => None
                    end
           | [] => None
           end
  | [] => None
  end.

(** The number of bytes a leading white-space rune of [l] occupies (0: none). *)
Definition space_width (l : list Z) : nat :=
  match strip_space l with Some l' => (length l - length l')%nat | None => O end.

Fixpoint trim_left (fuel : nat) (s : list ascii) : list ascii :=
  match fuel with
  | O => s
  | S fuel =>
      match space_width (byte <$> s) with
      | O => s
      | w => trim_left fuel (drop w s)
      end
  end.

(** The width of the white-space rune that ends [rev r]. *)
Definition space_width_back (r : list Z) : nat :=
  if Nat.eqb (space_width (take 1 r)) 1 then 1%nat
  else if Nat.eqb (space_width (rev (take 2 r))) 2 then 2%nat
  else if Nat.eqb (space_width (rev (take 3 r))) 3 then 3%nat
  else O.

Fixpoint trim_right (fuel : nat) (r : list ascii) : list ascii :=
  match fuel with
  | O => r
  | S fuel =>
      match space_width_back (byte <$> r) with
      | O => r
      | w => trim_right fuel (drop w r)
      end
  end.

Definition TrimSpace (s : string) : string :=
  let l := String.list_ascii_of_string s in
  let l := trim_left (length l) l in
  let r := rev l in
  String.string_of_list_ascii (rev (trim_right (length r) r)).

(** [strings.EqualFold s t] for an ASCII [t]: simple folding maps the letters to
    one case, U+017F to s and U+212A to k. *)
Fixpoint fold_case (s : string) : string :=
  match s with
  | EmptyString => ""
  | String c s1 =>
      let b := byte c in
      if (65 <=? b) && (b <=? 90) then String (ascii_of_N (Z.to_N (b + 32))) (fold_case s1)
      else match s1 with
           | String c2 s2 =>
               if (b =? 197) && (byte c2 =? 191) then String "s" (fold_case s2)
               else match s2 with
                    | String c3 s3 =>
                        if (b =? 226) && (byte c2 =? 132) && (byte c3 =? 170)
                        then String "k" (fold_case s3) else String c (fold_case s1)
                    | EmptyString => String c (fold_case s1)
                    end
           | EmptyString => String c (fold_case s1)
           end
  end.

Definition EqualFold_ascii (s t : string) : bool := bool_decide (fold_case s = fold_case t).

(** [strings.ToLower s] as far as ASCII results go: beside A to Z, U+0130 lowers to
    i and U+212A to k; other runes do not become ASCII. *)
Fixpoint ToLower (s : string) : string :=
  match s with
  | EmptyString => ""
  | String c s1 =>
      let b := byte c in
      if (65 <=? b) && (b <=? 90) then String (ascii_of_N (Z.to_N (b + 32))) (ToLower s1)
      else match s1 with
           | String c2 s2 =>
               if (b =? 196) && (byte c2 =? 176) then String "i" (ToLower s2)
               else match s2 with
                    | String c3 s3 =>
                        if (b =? 226) && (byte c2 =? 132) && (byte c3 =? 170)
                        then String "k" (ToLower s3) else String c (ToLower s1)
                    | EmptyString => String c (ToLower s1)
                    end
           | EmptyString => String c (ToLower s1)
           end
  end.

(** [strings.TrimSuffix s "."] *)
Definition trim_dot (s : string) : string :=
  match cut_last "." s with Some (a, "") => a | _ => s end.

(** * Package strconv *)

Definition Itoa (z : Z) : string := NilZero.string_of_int (Z.to_int z).

Definition parse_digits (s : string) : option Z :=
  match NilZero.uint_of_string s with Some d => Some (Z.of_uint d) | None => None end.

(** [strconv.Atoi]: [None] is a syntax or a range error. *)
Definition Atoi (s : string) : option Z :=
  let v := match s with
           | String "+" s' => parse_digits s'
           | String "-" s' => Z.opp <$> parse_digits s'
           | _ => parse_digits s
           end in
  match v with
  | Some z => if (- 2 ^ 63 <=? z) && (z <? 2 ^ 63) then Some z else None
  | None => None
  end.

(** * Package net *)

Definition JoinHostPort (host port : string) : string :=
  if has_char ":" host then "[" +:+ host +:+ "]:" +:+ port else host +:+ ":" +:+ port.

(** [net.SplitHostPort]; [None] is its error result. *)
Definition SplitHostPort (hostport : string) : option (string * string) :=
  match cut_last ":" hostport with
  | None => None
  | Some (pre, port) =>
      match hostport with
      | String "[" inner =>
          match cut "]" hostport with
          | None => None
          | Some (a, b) =>
              if negb (Nat.eqb (String.length pre) (S (String.length a))) then None
              else if has_char "[" inner || has_char "]" b then None
              else match a with String _ host => Some (host, port) | EmptyString => None end
          end
      | _ =>
          if has_char ":" pre || has_char "[" hostport || has_char "]" hostport then None
          else Some (pre, port)
      end
  end.

(** A [net.IP] as its sixteen bytes; IPv4 addresses are mapped. *)
Definition IP : Type := list Z.

Definition v4_prefix : list Z := [0; 0; 0; 0; 0; 0; 0; 0; 0; 0; 255; 255].

Definition IPv4 (a b c d : Z) : IP := v4_prefix ++ [a; b; c; d].
Definition IPv6loopback : IP := [0; 0; 0; 0; 0; 0; 0; 0; 0; 0; 0; 0; 0; 0; 0; 1].

Definition To4 (ip : IP) : option (list Z) :=
  if bool_decide (take 12 ip = v4_prefix) then Some (drop 12 ip) else None.

Definition IsLoopback (ip : IP) : bool :=
  match To4 ip with
  | Some q => bool_decide (head q = Some 127)
  | None => bool_decide (ip = IPv6loopback)
  end.

Definition IsLinkLocalUnicast (ip : IP) : bool :=
  match To4 ip with
  | Some q => bool_decide (take 2 q = [169; 254])
  | None => match ip with
            | a :: b :: _ => (a =? 254) && (Z.land b 192 =? 128)
            | _ => false
            end
  end.

(** [IsPrivate] for the IPv6 addresses it is asked about (fc00::/7). *)
Definition IsPrivate6 (ip : IP) : bool :=
  match ip with a :: _ => Z.land a 254 =? 252 | [] => false end.

Definition is_digit (c : ascii) : bool := (48 <=? byte c) && (byte c <=? 57).

Definition parse_octet (s : string) : option Z :=
  match s with
  | EmptyString => None
  | String "0" (String _ _) => None
  | _ =>
      if forallb is_digit (String.list_ascii_of_string s) then
        match parse_digits s with
        | Some v => if v <=? 255 then Some v else None
        | None => None
        end
      else None
  end.

Definition parseIPv4 (s : string) : option (list Z) :=
  match split "." s with
  | [a; b; c; d] =>
      match parse_octet a, parse_octet b, parse_octet c, parse_octet d with
      | Some a, Some b, Some c, Some d => Some [a; b; c; d]
      | _, _, _, _ => None
      end
  | _ => None
  end.

Definition hex_val (c : ascii) : option Z :=
  let b := byte c in
  if (48 <=? b) && (b <=? 57) then Some (b - 48)
  else if (97 <=? b) && (b <=? 102) then Some (b - 87)
  else if (65 <=? b) && (b <=? 70) then Some (b - 55)
  else None.

(** The leading hexadecimal digits: value, count, rest. *)
Fixpoint hex_prefix (acc : Z) (off : nat) (s : string) : Z * nat * string :=
  match s with
  | String c s' =>
      match hex_val c with
      | Some d => hex_prefix (Z.shiftl acc 4 + d) (S off) s'
      | None => (acc, off, s)
      end
  | EmptyString => (acc, off, s)
  end.

(** The field loop of [netip.parseIPv6]: bytes so far, position of [::], rest.
    Each round adds two bytes, so nine rounds reach the loop's exit. *)
Fixpoint v6_fields (fuel : nat) (s : string) (ip : list Z) (ellipsis : option nat)
    : option (list Z * option nat * string) :=
  match fuel with
  | O => None
  | S fuel =>
      if Nat.leb 16 (length ip) then Some (ip, ellipsis, s)
      else
        let '(acc, off, rest) := hex_prefix 0 0 s in
        if Nat.eqb off 0 || Nat.ltb 4 off then None
        else
          let ip' := (ip ++ [Z.shiftr acc 8; Z.land acc 255])%list in
          match rest with
          | String "." _ =>
              if (bool_decide (ellipsis = None) && negb (Nat.eqb (length ip) 12))
                 || Nat.ltb 16 (length ip + 4) then None
              else match parseIPv4 s with
                   | Some q => Some ((ip ++ q)%list, ellipsis, "")
                   | None => None
                   end
          | EmptyString => Some (ip', ellipsis, "")
          | String ":" EmptyString => None
          | String ":" (String ":" s'') =>
              match ellipsis with
              | Some _ => None
              | None => if bool_decide (s'' = "") then Some (ip', Some (length ip'), "")
                        else v6_fields fuel s'' ip' (Some (length ip'))
              end
          | String ":" s' => v6_fields fuel s' ip' ellipsis
          | String _ _ => None
          end
  end.

Definition parseIPv6 (s : string) : option IP :=
  let '(ellipsis, s') := match cut_prefix "::" s with
                         | Some s' => (Some O, s')
                         | None => (None, s)
                         end in
  if bool_decide (ellipsis = Some O) && bool_decide (s' = "") then Some (replicate 16 0)
  else match v6_fields 9 s' [] ellipsis with
       | Some (ip, e, rest) =>
           if negb (bool_decide (rest = "")) then None
           else if Nat.ltb (length ip) 16 then
             match e with
             | Some e => Some (take e ip ++ replicate (16 - length ip) 0 ++ drop e ip)%list
             | None => None
             end
           else match e with Some _ => None | None => Some ip end
       | None => None
       end.

(** The first of '.', ':' and '%' selects the syntax; [net.ParseIP] refuses zones. *)
Fixpoint ip_syntax (s : string) : option ascii :=
  match s with
  | EmptyString => None
  | String c s' =>
      if bool_decide (c = "."%char) || bool_decide (c = ":"%char) || bool_decide (c = "%"%char)
      then Some c else ip_syntax s'
  end.

Definition ParseIP (s : string) : option IP :=
  match ip_syntax s with
  | Some "."%char => match parseIPv4 s with Some q => Some (v4_prefix ++ q)%list | None => None end
  | Some ":"%char => if has_char "%" s then None else parseIPv6 s
  | _ => None
  end.

(** * Facts *)

Lemma has_char_app c a b : has_char c (a +:+ b) = has_char c a || has_char c b.
Proof. induction a as [|d a IH]; simpl; [done |]. by rewrite IH, orb_assoc. Qed.

Lemma cut_app c a b : has_char c a = false -> cut c (a +:+ String c b) = Some (a, b).
Proof.
  induction a as [|d a IH]; simpl; intros H.
  - by rewrite bool_decide_true.
  - unbool. rewrite bool_decide_false by done. by rewrite IH.
Qed.

Lemma cut_none c s : has_char c s = false -> cut c s = None.
Proof.
  induction s as [|d s IH]; simpl; intros H; [done |]. unbool.
  rewrite bool_decide_false by done. by rewrite IH.
Qed.

Lemma cut_last_none c s : has_char c s = false -> cut_last c s = None.
Proof.
  induction s as [|d s IH]; simpl; intros H; [done |]. unbool.
  rewrite IH by done. by rewrite bool_decide_false.
Qed.

Lemma cut_last_app c a b : has_char c b = false -> cut_last c (a +:+ String c b) = Some (a, b).
Proof.
  intros H. induction a as [|d a IH]; simpl.
  - rewrite cut_last_none by done. by rewrite bool_decide_true.
  - by rewrite IH.
Qed.

Lemma cut_last_sound c s a b : cut_last c s = Some (a, b) -> s = a +:+ String c b.
Proof.
  revert a b. induction s as [|d s IH]; simpl; intros a b H; [done |].
  destruct (cut_last c s) as [[a' b']|] eqn:E.
  - injection H as <- <-. change (String d s = String d (a' +:+ String c b')). f_equal. by apply IH.
  - case_bool; simplify_eq. unbool. by subst.
Qed.

Lemma split_none c s : has_char c s = false -> split c s = [s].
Proof.
  induction s as [|d s IH]; simpl; intros H; [done |]. unbool.
  rewrite bool_decide_false by done. by rewrite IH.
Qed.

Lemma split_app c a b : has_char c a = false -> split c (a +:+ String c b) = a :: split c b.
Proof.
  induction a as [|d a IH]; simpl; intros H.
  - by rewrite bool_decide_true.
  - unbool. rewrite bool_decide_false by done. by rewrite IH.
Qed.

(** [strings.Split] undoes [strings.Join] on parts without the separator. *)
Lemma cut_sound c s a b : cut c s = Some (a, b) -> s = a +:+ String c b /\ has_char c a = false.
Proof.
  revert a b. induction s as [|d s IH]; simpl; intros a b H; [done |].
  case_bool; [injection H as <- <-; unbool; by subst |].
  destruct (cut c s) as [[a' b']|] eqn:E; [| done]. injection H as <- <-. destruct (IH a' b' eq_refl) as [-> Ha].
  split; [done |]. simpl. unbool. by rewrite bool_decide_false.
Qed.

Lemma cut_none_inv c s : cut c s = None -> has_char c s = false.
Proof.
  induction s as [|d s IH]; simpl; [done |]. case_bool; [done |]. unbool.
  destruct (cut c s) as [[? ?]|]; [done |]. intros _. by apply IH.
Qed.

Lemma split_nonempty c s : split c s <> [].
Proof. destruct s as [|d s]; simpl; [done |]. case_bool; [done |]. by destruct (split c s). Qed.

Lemma split_pieces c s : Forall (fun p => has_char c p = false) (split c s).
Proof.
  induction s as [|d s IH]; simpl; [by repeat constructor |]. case_bool; [by constructor |].
  unbool. destruct (split c s) as [|p l].
  - constructor; [| done]. simpl. by rewrite bool_decide_false.
  - apply Forall_cons in IH as [Hp Hl]. constructor; [| done]. simpl. by rewrite bool_decide_false.
Qed.

Lemma split_prefix c z y : has_char c z = false ->
  split c (z +:+ y) = match split c y with h :: t => (z +:+ h) :: t | [] => [z] end.
Proof.
  induction z as [|d z IH]; intros H.
  - cbn [String.app]. change ("" +:+ y) with y. by destruct (split c y) eqn:E; [apply split_nonempty in E |].
  - change (String d z +:+ y) with (String d (z +:+ y)). simpl in H |- *. unbool. rewrite bool_decide_false by done.
    rewrite IH by done. by destruct (split c y) eqn:E; [apply split_nonempty in E |].
Qed.

(** Splitting a longer text resumes in the last piece. *)
Lemma split_append c x y :
  split c (x +:+ y) = removelast (split c x) ++ split c (List.last (split c x) "" +:+ y).
Proof.
  induction x as [|d x IH]; [done |]. change (String d x +:+ y) with (String d (x +:+ y)).
  cbn [split]. destruct (split c x) as [|p l] eqn:E; [by apply split_nonempty in E |].
  destruct (bool_decide (c = d)) eqn:Ed.
  - rewrite IH. done.
  - destruct l as [|q l]; cbn [removelast List.last app] in *.
    + rewrite IH. change (String d p +:+ y) with (String d (p +:+ y)). cbn [split]. by rewrite Ed.
    + by rewrite IH.
Qed.

Lemma split_join c l :
  l <> [] -> Forall (fun p => has_char c p = false) l -> split c (join c l) = l.
Proof.
  intros Hne Hl. induction Hl as [|p l Hp Hl IH]; [done |].
  destruct l as [|q l]; [by apply split_none |].
  change (join c (p :: q :: l)) with (p +:+ String c (join c (q :: l))).
  rewrite split_app by done. by rewrite IH.
Qed.

Lemma string_app_cons d (a b : string) : String d a +:+ b = String d (a +:+ b).
Proof. reflexivity. Qed.

Lemma string_app_assoc (a b c : string) : (a +:+ b) +:+ c = a +:+ (b +:+ c).
Proof. induction a as [|d a IH]; [done |]. by rewrite !string_app_cons, IH. Qed.

Lemma string_length_app (a b : string) :
  String.length (a +:+ b) = (String.length a + String.length b)%nat.
Proof. induction a as [|d a IH]; [done |]. rewrite string_app_cons. simpl. by rewrite IH. Qed.

Lemma string_app_inj_len (a b c d : string) :
  String.length a = String.length c -> a +:+ b = c +:+ d -> a = c /\ b = d.
Proof.
  revert c. induction a as [|x a IH]; intros [|y c] Hl; try done; cbn in Hl.
  rewrite !string_app_cons. intros [= -> H]. destruct (IH c ltac:(lia) H) as [-> ->]. done.
Qed.

Lemma string_app_nil_r (a : string) : a +:+ "" = a.
Proof. induction a as [|c a IH]; [done |]. by rewrite string_app_cons, IH. Qed.

(** [net.SplitHostPort] undoes [net.JoinHostPort] unless the host holds a bracket. *)
Lemma SplitHostPort_JoinHostPort host port :
  has_char "[" host = false -> has_char "]" host = false ->
  has_char ":" port = false -> has_char "[" port = false -> has_char "]" port = false ->
  SplitHostPort (JoinHostPort host port) = Some (host, port).
Proof.
  intros H1 H2 H3 H4 H5. unfold JoinHostPort. destruct (has_char ":" host) eqn:Hc.
  - set (hp := "[" +:+ host +:+ "]:" +:+ port).
    assert (cut_last ":" hp = Some (("[" +:+ host) +:+ "]", port)) as Hp.
    { replace hp with ((("[" +:+ host) +:+ "]") +:+ String ":" port)
        by (unfold hp; by rewrite !string_app_assoc). by apply cut_last_app. }
    assert (cut "]" hp = Some ("[" +:+ host, String ":" port)) as Hcut.
    { replace hp with (("[" +:+ host) +:+ String "]" (String ":" port))
        by (unfold hp; by rewrite !string_app_assoc). apply cut_app.
      rewrite string_app_cons. simpl. done. }
    unfold SplitHostPort. rewrite Hp, Hcut. unfold hp.
    rewrite !string_length_app, string_app_cons. cbn [String.length].
    replace (Nat.eqb (1 + String.length host + 1) (S (1 + String.length host))) with true
      by (symmetry; apply Nat.eqb_eq; lia).
    change (has_char "[" ("" +:+ host +:+ "]:" +:+ port)) with (has_char "[" (host +:+ "]:" +:+ port)).
    rewrite !has_char_app, H1. simpl. by rewrite H4, H5.
  - unfold SplitHostPort. change (":" +:+ port) with (String ":" port).
    rewrite cut_last_app by done.
    assert (has_char "[" (host +:+ String ":" port) = false) as E1
      by (rewrite has_char_app, H1; simpl; done).
    assert (has_char "]" (host +:+ String ":" port) = false) as E2
      by (rewrite has_char_app, H2; simpl; done).
    rewrite Hc, E1, E2. destruct host as [|d host]; [done |]. rewrite string_app_cons.
    destruct d as [[] [] [] [] [] [] [] []]; try reflexivity. simpl in H1. done.
Qed.

Lemma parse_digits_to_uint d : d <> Decimal.Nil ->
  parse_digits (NilZero.string_of_uint d) = Some (Z.of_uint d).
Proof. intros H. unfold parse_digits. by rewrite NilZero.usu. Qed.

Lemma Z_to_int_nonneg z : 0 <= z ->
  exists d, Z.to_int z = Decimal.Pos d /\ d <> Decimal.Nil /\ Z.of_uint d = z.
Proof.
  intros Hz. pose proof (DecimalZ.of_to z) as Ho. destruct z as [|p|p]; [| |lia].
  - exists (Decimal.D0 Decimal.Nil). done.
  - simpl in *. exists (Pos.to_uint p). split_and!; [done | | done].
    apply DecimalPos.Unsigned.to_uint_nonnil.
Qed.

(** A decimal numeral starts with a digit. *)
Lemma uint_head d : d <> Decimal.Nil ->
  exists c s, NilZero.string_of_uint d = String c s /\ is_digit c = true.
Proof. destruct d; intros; try done; eexists _, _; (split; [reflexivity | reflexivity]). Qed.

Lemma Atoi_digits c s : is_digit c = true ->
  Atoi (String c s) = match parse_digits (String c s) with
                      | Some z => if (- 2 ^ 63 <=? z) && (z <? 2 ^ 63) then Some z else None
                      | None => None
                      end.
Proof.
  intros Hd. unfold Atoi. destruct c as [[] [] [] [] [] [] [] []]; done.
Qed.

(** [strconv.Atoi] undoes [strconv.Itoa]. *)
Lemma Atoi_Itoa z : 0 <= z < 2 ^ 63 -> Atoi (Itoa z) = Some z.
Proof.
  intros Hz. destruct (Z_to_int_nonneg z) as (d & Hd & Hn & Ho); [lia |].
  unfold Itoa. rewrite Hd. simpl. destruct (uint_head d Hn) as (c & s & Hs & Hc).
  rewrite Hs, Atoi_digits by done. rewrite <- Hs, parse_digits_to_uint by done.
  rewrite Ho. destruct (_ && _) eqn:E; [done |]. apply andb_false_iff in E as [E | E]; unbool; lia.
Qed.

Lemma digits_no_char x d :
  is_digit x = false -> has_char x (NilEmpty.string_of_uint d) = false.
Proof.
  intros Hx. induction d; simpl; try done; rewrite IHd, orb_false_r;
    apply bool_decide_false; intros ->; done.
Qed.

Lemma Itoa_no_char x z : 0 <= z -> is_digit x = false -> has_char x (Itoa z) = false.
Proof.
  intros Hz Hx. destruct (Z_to_int_nonneg z Hz) as (d & Hd & Hn & _).
  unfold Itoa. rewrite Hd. simpl. destruct d; [done | ..];
    exact (digits_no_char x _ Hx).
Qed.

Lemma Z_to_int_proper z : Z.to_int z <> Decimal.Pos Decimal.Nil /\ Z.to_int z <> Decimal.Neg Decimal.Nil.
Proof. destruct z as [|p|p]; simpl; split; try done; intros [= H]; by apply DecimalPos.Unsigned.to_uint_nonnil in H. Qed.

Lemma Itoa_inj a b : Itoa a = Itoa b -> a = b.
Proof.
  unfold Itoa. intros H. destruct (Z_to_int_proper a) as [? ?], (Z_to_int_proper b) as [? ?].
  apply (f_equal NilZero.int_of_string) in H. rewrite !NilZero.isi in H by done.
  injection H as H. by rewrite <- (DecimalZ.of_to a), <- (DecimalZ.of_to b), H.
Qed.
