(* ===== verification/GoBytes.v ===== *)
(** Byte strings as Go's [[]byte]: slicing, big-endian words, [encoding/base64]'s raw URL
    encoding, [crypto/sha256] and [crypto/hmac].  The hash is an interface with its
    implementation, so that what uses it is stated for every hash of 32 bytes. *)
From S2P Require Import Prelude.
From S2P Require Import GoStd.

Open Scope string_scope.
Open Scope list_scope.
Open Scope Z_scope.

(** * Slices *)

(** The byte of value [z mod 256]. *)
Definition chr (z : Z) : ascii := ascii_of_N (Z.to_N (z mod 256)).

Abbreviation slen := String.length.

(** [s[:n]] and [s[n:]], for [n] within the length. *)
Fixpoint str_take (n : nat) (s : string) : string :=
  match n, s with
  | S n, String c s => String c (str_take n s)
  | _, _ => ""
  end.
Fixpoint str_drop (n : nat) (s : string) : string :=
  match n, s with
  | S n, String _ s => str_drop n s
  | _, _ => s
  end.

(** [s[i:j]]. *)
Definition slice (i j : nat) (s : string) : string := str_take (j - i) (str_drop i s).

Fixpoint str_repeat (c : ascii) (n : nat) : string :=
  match n with O => "" | S n => String c (str_repeat c n) end.

Fixpoint str_map (f : ascii -> ascii) (s : string) : string :=
  match s with "" => "" | String c s => String (f c) (str_map f s) end.

(** [binary.BigEndian.PutUint32]. *)
Definition be32 (z : Z) : string :=
  String (chr (Z.shiftr z 24)) (String (chr (Z.shiftr z 16)) (String (chr (Z.shiftr z 8)) (String (chr z) ""))).

(** * encoding/base64: RawURLEncoding *)

Definition b64_digit (z : Z) : ascii :=
  if z <? 26 then chr (65 + z) else if z <? 52 then chr (71 + z) else if z <? 62 then chr (z - 4)
  else if z =? 62 then "-"%char else "_"%char.

Definition b64_value (c : ascii) : option Z :=
  let b := byte c in
  if (65 <=? b) && (b <=? 90) then Some (b - 65)
  else if (97 <=? b) && (b <=? 122) then Some (b - 71)
  else if (48 <=? b) && (b <=? 57) then Some (b + 4)
  else if b =? 45 then Some 62 else if b =? 95 then Some 63 else None.

Fixpoint b64Encode (s : string) : string :=
  match s with
  | "" => ""
  | String a "" =>
      let v := byte a in
      String (b64_digit (Z.shiftr v 2)) (String (b64_digit (Z.shiftl (Z.land v 3) 4)) "")
  | String a (String b "") =>
      let v := Z.shiftl (byte a) 8 + byte b in
      String (b64_digit (Z.shiftr v 10)) (String (b64_digit (Z.land (Z.shiftr v 4) 63))
        (String (b64_digit (Z.shiftl (Z.land v 15) 2)) ""))
  | String a (String b (String c s)) =>
      let v := Z.shiftl (byte a) 16 + Z.shiftl (byte b) 8 + byte c in
      String (b64_digit (Z.shiftr v 18)) (String (b64_digit (Z.land (Z.shiftr v 12) 63))
        (String (b64_digit (Z.land (Z.shiftr v 6) 63)) (String (b64_digit (Z.land v 63)) (b64Encode s))))
  end.

(** The values of the digits; line breaks are skipped, any other character is an error. *)
Fixpoint b64_values (s : string) : option (list Z) :=
  match s with
  | "" => Some []
  | String c s =>
      match b64_value c with
      | Some v => cons v <$> b64_values s
      | None => if (byte c =? 10) || (byte c =? 13) then b64_values s else None
      end
  end.

(** Four digits give three bytes; the bits that a shorter last group leaves over are
    not looked at; a single last digit is an error. *)
Fixpoint b64_join (l : list Z) : option string :=
  match l with
  | [] => Some ""
  | [_] => None
  | [a; b] => Some (String (chr (Z.shiftr (Z.shiftl a 6 + b) 4)) "")
  | [a; b; c] =>
      let v := Z.shiftl a 12 + Z.shiftl b 6 + c in
      Some (String (chr (Z.shiftr v 10)) (String (chr (Z.shiftr v 2)) ""))
  | a :: b :: c :: d :: l =>
      let v := Z.shiftl a 18 + Z.shiftl b 12 + Z.shiftl c 6 + d in
      (fun s => String (chr (Z.shiftr v 16)) (String (chr (Z.shiftr v 8)) (String (chr v) s))) <$> b64_join l
  end.

Definition b64Decode (s : string) : option string := b64_values s ≫= b64_join.

(** * crypto/sha256 *)

(** What the clients rely on: a digest is 32 bytes. *)
Class Sha256 : Type := {
  sha256 : string -> string;
  sha256_length : forall m, slen (sha256 m) = 32%nat
}.

Module Sha2.
Definition m32 (z : Z) : Z := Z.land z 0xffffffff.
Definition rotr (n x : Z) : Z := Z.lor (Z.shiftr x n) (m32 (Z.shiftl x (32 - n))).

(** The round constants are the first 32 bits of the fractional parts of the cube roots
    of the first 64 primes, the initial state those of the square roots of the first 8. *)
Definition is_prime (n : Z) : bool := forallb (fun d => negb (n mod Z.of_nat d =? 0)) (seq 2 (Z.to_nat n - 2)).
Definition primes : list Z := filter (fun n => is_prime n = true) (Z.of_nat <$> seq 2 310).
(** The greatest [r + d] with [(r + d)^3 <= n] and [d < 2^bits]. *)
Fixpoint cube_root (bits : nat) (n r : Z) : Z :=
  match bits with
  | O => r
  | S k => let r' := r + 2 ^ Z.of_nat k in cube_root k n (if r' * r' * r' <=? n then r' else r)
  end.
Definition K : list Z := Eval vm_compute in (fun p => m32 (cube_root 36 (p * 2 ^ 96) 0)) <$> primes.
Definition H0 : list Z := Eval vm_compute in (fun p => m32 (Z.sqrt (p * 2 ^ 64))) <$> take 8 primes.

(** The message schedule, latest word first. *)
Fixpoint schedule (n : nat) (w : list Z) : list Z :=
  match n with
  | O => w
  | S n =>
      let w2 := default 0 (w !! 1%nat) in let w7 := default 0 (w !! 6%nat) in
      let w15 := default 0 (w !! 14%nat) in let w16 := default 0 (w !! 15%nat) in
      let s0 := Z.lxor (Z.lxor (rotr 7 w15) (rotr 18 w15)) (Z.shiftr w15 3) in
      let s1 := Z.lxor (Z.lxor (rotr 17 w2) (rotr 19 w2)) (Z.shiftr w2 10) in
      schedule n (m32 (w16 + s0 + w7 + s1) :: w)
  end.

Record regs : Type := mkRegs { ra : Z; rb : Z; rc : Z; rd : Z; re : Z; rf : Z; rg : Z; rh : Z }.

Definition round (s : regs) (kw : Z * Z) : regs :=
  let '(mkRegs a b c d e f g h) := s in
  let s1 := Z.lxor (Z.lxor (rotr 6 e) (rotr 11 e)) (rotr 25 e) in
  let ch := Z.lxor (Z.land e f) (Z.land (Z.lxor e 0xffffffff) g) in
  let t1 := h + s1 + ch + kw.1 + kw.2 in
  let s0 := Z.lxor (Z.lxor (rotr 2 a) (rotr 13 a)) (rotr 22 a) in
  let maj := Z.lxor (Z.lxor (Z.land a b) (Z.land a c)) (Z.land b c) in
  mkRegs (m32 (t1 + s0 + maj)) a b c (m32 (d + t1)) e f g.

Definition block (s : regs) (w : list Z) : regs :=
  let t := foldl round s (combine K (rev (schedule 48 (rev w)))) in
  mkRegs (m32 (ra s + ra t)) (m32 (rb s + rb t)) (m32 (rc s + rc t)) (m32 (rd s + rd t))
         (m32 (re s + re t)) (m32 (rf s + rf t)) (m32 (rg s + rg t)) (m32 (rh s + rh t)).

Fixpoint words (s : string) : list Z :=
  match s with
  | String a (String b (String c (String d s))) =>
      (Z.shiftl (byte a) 24 + Z.shiftl (byte b) 16 + Z.shiftl (byte c) 8 + byte d) :: words s
  | _ => []
  end.

(** The message, a one bit, zeroes up to 56 modulo 64 bytes, and its length in bits. *)
Definition pad (s : string) : string :=
  let n := Z.of_nat (slen s) in
  s +:+ String (chr 128) (str_repeat zero (Z.to_nat ((55 - n) mod 64)) +:+
    (be32 (Z.shiftr (8 * n) 32) +:+ be32 (m32 (8 * n)))).

Fixpoint blocks (n : nat) (w : list Z) (s : regs) : regs :=
  match n with
  | O => s
  | S n => blocks n (drop 16 w) (block s (take 16 w))
  end.

Definition init : regs :=
  match H0 with
  | [a; b; c; d; e; f; g; h] => mkRegs a b c d e f g h
  | _ => mkRegs 0 0 0 0 0 0 0 0
  end.

Definition sum (s : string) : string :=
  let w := words (pad s) in
  let '(mkRegs a b c d e f g h) := blocks (length w / 16) w init in
  be32 a +:+ (be32 b +:+ (be32 c +:+ (be32 d +:+ (be32 e +:+ (be32 f +:+ (be32 g +:+ be32 h)))))).
End Sha2.

#[export] Instance go_sha256 : Sha256.
Proof.
  refine {| sha256 := Sha2.sum |}. intros m. unfold Sha2.sum.
  by destruct (Sha2.blocks _ _ _).
Defined.

Fixpoint hex (s : string) : string :=
  match s with
  | "" => ""
  | String c s => let d z := chr (if z <? 10 then 48 + z else 87 + z) in
                  String (d (Z.shiftr (byte c) 4)) (String (d (Z.land (byte c) 15)) (hex s))
  end.

Lemma length_hex s : slen (hex s) = (2 * slen s)%nat.
Proof. induction s as [|c s IH]; [done |]. cbn [hex String.length]. rewrite IH. lia. Qed.

Definition hex_digit_of (z : Z) : ascii := chr (if z <? 10 then 48 + z else 87 + z).

Lemma hex_digit_inj x y : 0 <= x < 16 -> 0 <= y < 16 -> hex_digit_of x = hex_digit_of y -> x = y.
Proof.
  intros Hx Hy H. unfold hex_digit_of, chr in H. apply (f_equal N_of_ascii) in H.
  rewrite !N_ascii_embedding in H by (case_bool; unbool; rewrite Z.mod_small by lia; lia).
  repeat case_bool; unbool; rewrite !Z.mod_small in H by lia; lia.
Qed.

Lemma hex_inj s t : hex s = hex t -> s = t.
Proof.
  revert t. induction s as [|c s IH]; intros [|d t] H; try done. cbn [hex] in H. injection H as H1 H2 H3.
  f_equal; [| by apply IH].
  assert (forall a : ascii, 0 <= byte a < 256) as Hb.
  { intros a. unfold byte. pose proof (N_ascii_bounded a). lia. }
  pose proof (Hb c) as Hc. pose proof (Hb d) as Hd.
  apply hex_digit_inj in H1; [| rewrite Z.shiftr_div_pow2 by lia; split; [apply Z.div_pos; lia | apply Z.div_lt_upper_bound; lia] ..].
  assert (forall z, Z.land z 15 = z mod 16) as Hl by (intros z; apply (Z.land_ones z 4); lia).
  rewrite !Hl in H2. apply hex_digit_inj in H2; [| apply Z.mod_pos_bound; lia ..].
  rewrite !Z.shiftr_div_pow2 in H1 by lia. change (2 ^ 4) with 16 in H1.
  assert (byte c = byte d) as E by (rewrite (Z.div_mod (byte c) 16), (Z.div_mod (byte d) 16) by lia; congruence).
  unfold byte in E. rewrite <- (ascii_N_embedding c), <- (ascii_N_embedding d). f_equal. lia.
Qed.

(** The vectors of FIPS 180-4. *)
Example sha256_abc : hex (Sha2.sum "abc") = "ba7816bf8f01cfea414140de5dae2223b00361a396177a9cb410ff61f20015ad".
Proof. vm_compute. reflexivity. Qed.

Example sha256_two_blocks :
  hex (Sha2.sum "abcdbcdecdefdefgefghfghighijhijkijkljklmklmnlmnomnopnopq") =
  "248d6a61d20638b8e5c026930c3e6039a33ce45964ff2167f6ecedd419db06c1".
Proof. vm_compute. reflexivity. Qed.

(** * crypto/hmac *)

Section Hmac.
Context {sha : Sha256}.

Definition hmac_block (key : string) : string :=
  let k := if (64 <? slen key)%nat then sha256 key else key in k +:+ str_repeat zero (64 - slen k).

Definition xor_pad (p : Z) (s : string) : string := str_map (fun c => chr (Z.lxor p (byte c))) s.

(** The inputs of the two hashes of an HMAC. *)
Definition hmac_inner (key m : string) : string := xor_pad 54 (hmac_block key) +:+ m.
Definition hmac_outer (key m : string) : string := xor_pad 92 (hmac_block key) +:+ sha256 (hmac_inner key m).
Definition hmac (key m : string) : string := sha256 (hmac_outer key m).
End Hmac.

(** Test case 2 of RFC 4231. *)
Example hmac_jefe :
  hex (hmac "Jefe" "what do ya want for nothing?") = "5bdcc146bf60754e6a042426089575c75a003f089d2739839dec58b964ec3843".
Proof. vm_compute. reflexivity. Qed.

(** * Facts *)

Lemma byte_range c : 0 <= byte c < 256.
Proof. unfold byte. destruct c as [[] [] [] [] [] [] [] []]; vm_compute; split; congruence. Qed.

Lemma byte_chr z : byte (chr z) = z mod 256.
Proof.
  unfold byte, chr. pose proof (Z.mod_pos_bound z 256 ltac:(lia)).
  rewrite N_ascii_embedding; [lia |]. lia.
Qed.

Lemma chr_byte c : chr (byte c) = c.
Proof.
  unfold chr. rewrite Z.mod_small by apply byte_range. unfold byte. rewrite N2Z.id. apply ascii_N_embedding.
Qed.

Lemma chr_mod z c : z mod 256 = byte c -> chr z = c.
Proof.
  intros H. rewrite <- (chr_byte c), <- H. unfold chr. by rewrite Z.mod_mod by lia.
Qed.

Lemma byte_inj c d : byte c = byte d -> c = d.
Proof. intros H. by rewrite <- (chr_byte c), H, chr_byte. Qed.

Lemma str_app_inv (a b c d : string) : slen a = slen b -> a +:+ c = b +:+ d -> a = b /\ c = d.
Proof.
  revert b. induction a as [|x a IH]; intros [|y b] H; try discriminate; [done |].
  rewrite !string_app_cons. intros E. injection E as -> E. injection H as H. by destruct (IH b H E) as [-> ->].
Qed.

Lemma str_app_inv_l (a c d : string) : a +:+ c = a +:+ d -> c = d.
Proof. intros H. by apply (str_app_inv a a c d) in H as [_ H]. Qed.

Lemma length_str_repeat c n : slen (str_repeat c n) = n.
Proof. induction n; cbn; congruence. Qed.

Lemma length_str_map f s : slen (str_map f s) = slen s.
Proof. induction s; cbn; congruence. Qed.

Lemma str_map_inj f s t : (forall c d, f c = f d -> c = d) -> str_map f s = str_map f t -> s = t.
Proof.
  intros Hf. revert t. induction s as [|c s IH]; intros [|d t]; try discriminate; cbn; [done |].
  intros E. injection E as Ec E. by rewrite (Hf c d Ec), (IH t E).
Qed.

Lemma str_take_drop n s : str_take n s +:+ str_drop n s = s.
Proof.
  revert s. induction n as [|n IH]; intros [|c s]; cbn; try done. by rewrite string_app_cons, IH.
Qed.

Lemma length_str_take n s : slen (str_take n s) = Nat.min n (slen s).
Proof. revert s. induction n as [|n IH]; intros [|c s]; cbn; [done .. |]. by rewrite IH. Qed.

Lemma length_str_drop n s : slen (str_drop n s) = (slen s - n)%nat.
Proof. revert s. induction n as [|n IH]; intros [|c s]; cbn; [done .. |]. apply IH. Qed.

Lemma length_slice i j s : (i <= j <= slen s)%nat -> slen (slice i j s) = (j - i)%nat.
Proof. intros. unfold slice. rewrite length_str_take, length_str_drop. lia. Qed.

Lemma str_take_app n a b : slen a = n -> str_take n (a +:+ b) = a.
Proof. revert a. induction n as [|n IH]; intros [|c a]; try discriminate; [by destruct b |]. intros [= H]. rewrite string_app_cons. cbn. by rewrite IH. Qed.

Lemma str_take_all n s : (slen s <= n)%nat -> str_take n s = s.
Proof. revert s. induction n as [|n IH]; intros [|c s]; cbn; try done; [lia |]. intros. by rewrite IH by lia. Qed.

(** ** Base64 *)

Lemma b64_value_digit z : 0 <= z < 64 -> b64_value (b64_digit z) = Some z.
Proof.
  intros H.
  assert (forallb (fun z => bool_decide (b64_value (b64_digit z) = Some z)) (seqZ 0 64) = true) as Hall by (vm_compute; reflexivity).
  rewrite forallb_forall in Hall. apply (bool_decide_eq_true_1 _), Hall, list_elem_of_In, elem_of_seqZ. lia.
Qed.

Lemma b64_values_digit z s : 0 <= z < 64 -> b64_values (String (b64_digit z) s) = cons z <$> b64_values s.
Proof. intros H. cbn [b64_values]. by rewrite b64_value_digit. Qed.

(** Bytes as bounded integers, shifts and masks as arithmetic. *)
Ltac byte_arith :=
  change 63 with (Z.ones 6); change 3 with (Z.ones 2); change 15 with (Z.ones 4);
  rewrite ?Z.land_ones, ?Z.shiftr_div_pow2, ?Z.shiftl_mul_pow2 by lia;
  repeat match goal with c : ascii |- _ => pose proof (byte_range c); generalize dependent (byte c); clear c; intros end;
  cbn [Z.pow Z.pow_pos Pos.iter Z.mul Pos.mul] in *; Z.to_euclidean_division_equations; lia.

Lemma string_ind3 (P : string -> Prop) :
  P "" -> (forall a, P (String a "")) -> (forall a b, P (String a (String b ""))) ->
  (forall a b c s, P s -> P (String a (String b (String c s)))) -> forall s, P s.
Proof.
  intros H0 H1 H2 H3 s.
  assert (forall n s, (slen s <= n)%nat -> P s) as H; [| by apply (H (slen s))].
  clear s. intros n. induction n as [|n IH]; intros [|a [|b [|c s]]] Hl; cbn in Hl; try done; try lia.
  apply H3, IH. lia.
Qed.

(** Decoding what was encoded gives the bytes back. *)
Lemma b64_values_encode s : exists l, b64_values (b64Encode s) = Some l /\ b64_join l = Some s.
Proof.
  induction s as [|a|a b|a b c s (l & Hl & Hj)] using string_ind3.
  - by exists [].
  - eexists. cbn [b64Encode]. rewrite !b64_values_digit by byte_arith. cbn. split; [reflexivity |]. cbn.
    do 2 f_equal. apply chr_mod. byte_arith.
  - eexists. cbn [b64Encode]. rewrite !b64_values_digit by byte_arith. cbn. split; [reflexivity |]. cbn.
    do 3 f_equal; [| f_equal]; apply chr_mod; byte_arith.
  - eexists. cbn [b64Encode]. rewrite !b64_values_digit by byte_arith. rewrite Hl. cbn. split; [reflexivity |]. cbn.
    rewrite Hj. cbn. do 2 f_equal; [| f_equal; [| f_equal]]; apply chr_mod; byte_arith.
Qed.

Lemma b64Decode_Encode s : b64Decode (b64Encode s) = Some s.
Proof. unfold b64Decode. destruct (b64_values_encode s) as (l & -> & Hj). exact Hj. Qed.

Lemma b64Encode_inj s t : b64Encode s = b64Encode t -> s = t.
Proof. intros H. apply (f_equal b64Decode) in H. rewrite !b64Decode_Encode in H. congruence. Qed.

(** ** HMAC *)

Section HmacFacts.
Context {sha : Sha256}.

(** A collision is named by its two messages: that some exist says nothing. *)
Definition collides (x y : string) : Prop := x <> y /\ sha256 x = sha256 y.

Lemma sha256_agree x y : sha256 x = sha256 y -> x = y \/ collides x y.
Proof. intros H. destruct (decide (x = y)); [by left | by right]. Qed.

Lemma xor_pad_inj p s t : p = 54 \/ p = 92 -> xor_pad p s = xor_pad p t -> s = t.
Proof.
  intros Hp. apply str_map_inj. intros c d H. apply (f_equal (fun c => chr (Z.lxor p (byte c)))) in H.
  assert (forall c, chr (Z.lxor p (byte (chr (Z.lxor p (byte c))))) = c) as Hinv; [| by rewrite !Hinv in H].
  intros x. destruct Hp as [-> | ->]; by destruct x as [[] [] [] [] [] [] [] []].
Qed.

Lemma length_hmac key m : slen (hmac key m) = 32%nat.
Proof. apply sha256_length. Qed.

(** Equal MACs under keys of one block length have the same key and message, or exhibit
    a collision of the hash. *)
Lemma hmac_agree k m k' m' :
  (slen k <= 64)%nat -> slen k = slen k' -> hmac k m = hmac k' m' ->
  (k = k' /\ m = m') \/ collides (hmac_outer k m) (hmac_outer k' m') \/ collides (hmac_inner k m) (hmac_inner k' m').
Proof.
  intros Hk Hkk H. unfold hmac in H. apply sha256_agree in H as [H | H]; [| auto].
  assert (forall p, slen (xor_pad p (hmac_block k)) = slen (xor_pad p (hmac_block k'))) as Hl.
  { intros p. unfold xor_pad, hmac_block. rewrite !length_str_map, <- Hkk, (proj2 (Nat.ltb_ge 64 (slen k))) by done.
    rewrite !string_length_app, !length_str_repeat. lia. }
  apply str_app_inv in H as [Hp H]; [| apply Hl]. apply sha256_agree in H as [H | H]; [| auto].
  left. apply str_app_inv in H as [_ ->]; [| apply Hl]. split; [| done].
  apply xor_pad_inj in Hp; [| auto]. unfold hmac_block in Hp. rewrite <- Hkk, (proj2 (Nat.ltb_ge 64 (slen k))) in Hp by done.
  by apply str_app_inv in Hp as [-> _].
Qed.
End HmacFacts.
