(* ===== verification/Json.v ===== *)
(** Decoded JSON and Go's [encoding/json] on it: how [json.Unmarshal] fills the fields of
    a struct, and generic objects as maps. *)
From S2P Require Import Prelude.
From S2P Require Import GoStd.

Open Scope string_scope.
Open Scope list_scope.
Open Scope Z_scope.

(** A decoded JSON value: members in document order, repeats kept; an integer
    literal by its value, any other number by its text. *)
#[warnings="-register-all"]
Inductive json : Type :=
| JNull
| JBool (b : bool)
| JInt (z : Z)
| JNum (lit : string)
| JStr (s : string)
| JArr (l : list json)
| JObj (l : list (string * json)).

Definition members : Type := list (string * json).

(** ** Struct fields

    A member sets the field whose name matches without regard to case; later members
    overwrite earlier ones; [null] leaves a field that is not a pointer as it was; a
    value of another type fails the whole call. *)

Section Fields.
Context {V A : Type} (dec : A -> V -> option A).

Definition field (name : string) (l : list (string * V)) (start : A) : option A :=
  foldl (fun acc p => match acc with
                      | None => None
                      | Some a => if EqualFold_ascii p.1 name then dec a p.2 else Some a
                      end) (Some start) l.
End Fields.

Section Decoders.
Context {A : Type} (dec : A -> json -> option A).

(** A pointer: [null] makes it nil, anything else decodes into what it points at. *)
Definition dec_ptr (zero : A) (a : option A) (v : json) : option (option A) :=
  match v with JNull => Some None | _ => Some <$> dec (default zero a) v end.

(** A struct: [null] leaves it as it was. *)
Definition dec_struct (step : members -> A -> option A) (a : A) (v : json) : option A :=
  match v with JNull => Some a | JObj l => step l a | _ => None end.
End Decoders.

Definition dec_string (a : string) (v : json) : option string :=
  match v with JStr s => Some s | JNull => Some a | _ => None end.
Definition dec_int64 (a : Z) (v : json) : option Z :=
  match v with
  | JInt z => if bool_decide (- 2 ^ 63 <= z < 2 ^ 63) then Some z else None
  | JNull => Some a
  | _ => None
  end.
Definition dec_uint64 (a : Z) (v : json) : option Z :=
  match v with JInt z => if bool_decide (0 <= z < 2 ^ 64) then Some z else None | JNull => Some a | _ => None end.
Definition dec_bool (a : bool) (v : json) : option bool :=
  match v with JBool b => Some b | JNull => Some a | _ => None end.
(** [json.RawMessage] takes any value, [null] too; [None] is its empty value. *)
Definition dec_raw (a : option json) (v : json) : option (option json) := Some (Some v).

(** ** Generic objects *)

(** Unmarshalling into a map keeps the last of repeated members, under their exact names. *)
Definition object_map (l : members) : gmap string json := foldl (fun m p => <[p.1 := p.2]> m) ∅ l.

(** Marshalling a map writes its members ordered by name. *)
Definition marshal_map (m : gmap string json) : json :=
  JObj (sort_by (fun a b => str_ltb a.1 b.1) (map_to_list m)).

Lemma object_map_snoc l k v : object_map (l ++ [(k, v)]) = <[k := v]> (object_map l).
Proof. unfold object_map. by rewrite foldl_app. Qed.

(** A field is what the last of its members makes of it. *)
Lemma field_app {V A} (dec : A -> V -> option A) name l l' a :
  field dec name (l ++ l') a = match field dec name l a with Some b => field dec name l' b | None => None end.
Proof.
  unfold field. rewrite foldl_app. destruct (foldl _ (Some a) l); [done |].
  induction l' as [|p l' IH]; [done |]. exact IH.
Qed.

Lemma field_skip {V A} (dec : A -> V -> option A) name l a :
  Forall (fun p => EqualFold_ascii p.1 name = false) l -> field dec name l a = Some a.
Proof. unfold field. induction 1 as [|p l Hp _ IH]; [done |]. cbn. by rewrite Hp. Qed.

(** One member carries the field and no other matches it. *)
Lemma field_one {V A} (dec : A -> V -> option A) name l1 l2 k v a :
  Forall (fun p => EqualFold_ascii p.1 name = false) (l1 ++ l2) -> EqualFold_ascii k name = true ->
  field dec name (l1 ++ (k, v) :: l2) a = dec a v.
Proof.
  intros [H1 H2]%Forall_app Hk. rewrite field_app, field_skip by done.
  change ((k, v) :: l2) with ([(k, v)] ++ l2). rewrite field_app. unfold field at 1. cbn. rewrite Hk.
  destruct (dec a v); [by apply field_skip | done].
Qed.

(** ** Structs

    A struct is written member by member in field order; [None] is a member that
    [omitempty] leaves out. *)
Definition encode {V} (l : list (string * option V)) : list (string * V) :=
  omap (fun p => (fun v => (p.1, v)) <$> p.2) l.

Definition opt_string (s : string) : option json := if bool_decide (s = "") then None else Some (JStr s).
Definition ptr (v : option json) : json := default JNull v.

(** Reading a field of a written struct computes name by name. *)
Lemma field_encode {V A} (dec : A -> V -> option A) name l a :
  field dec name (encode l) a =
  foldl (fun acc p => match acc with
                      | None => None
                      | Some a => if EqualFold_ascii p.1 name
                                  then match p.2 with Some v => dec a v | None => Some a end else Some a
                      end) (Some a) l.
Proof.
  unfold field. generalize (Some a). induction l as [|[k [v|]] l IH]; intros acc; [done | |].
  - cbn. exact (IH _).
  - cbn. rewrite IH. destruct acc as [b|]; [| done]. by case_bool.
Qed.

(** ** Objects whose names stay apart *)

(** No two members have names that differ in case only. *)
Definition distinct_names {V} (l : list (string * V)) : Prop := NoDup (fold_case <$> l.*1).

Lemma EqualFold_fold k n : EqualFold_ascii k n = true <-> fold_case k = fold_case n.
Proof. apply bool_decide_eq_true. Qed.

Lemma distinct_keys {V} (l : list (string * V)) : distinct_names l -> NoDup l.*1.
Proof. apply NoDup_fmap_1. Qed.

Lemma field_unique {V A} (dec : A -> V -> option A) name l k v a :
  distinct_names l -> (k, v) ∈ l -> EqualFold_ascii k name = true -> field dec name l a = dec a v.
Proof.
  intros Hd (l1 & l2 & ->)%list_elem_of_split Hk. apply field_one; [| done]. apply EqualFold_fold in Hk.
  unfold distinct_names in Hd. rewrite fmap_app, fmap_cons, fmap_app, fmap_cons in Hd. cbn in Hd.
  apply NoDup_app in Hd as (_ & H1 & H2). apply NoDup_cons in H2 as [H2 _].
  apply Forall_forall. intros [k' v'] [Hin | Hin]%elem_of_app; apply not_true_iff_false; intros Hf%EqualFold_fold; cbn in Hf.
  - apply (H1 (fold_case k')); [apply list_elem_of_fmap_2, (list_elem_of_fmap_2 fst _ _ Hin) |]. rewrite Hf, <- Hk. left.
  - apply H2. rewrite Hk, <- Hf. apply list_elem_of_fmap_2, (list_elem_of_fmap_2 fst _ _ Hin).
Qed.

Lemma field_absent {V A} (dec : A -> V -> option A) name l a :
  (forall k v, (k, v) ∈ l -> EqualFold_ascii k name = false) -> field dec name l a = Some a.
Proof. intros H. apply field_skip, Forall_forall. intros [k v] Hin. by apply (H k v). Qed.

(** Two objects with the same members of a name give it the same field. *)
Lemma field_same {V A} (dec : A -> V -> option A) name l l' a :
  distinct_names l -> distinct_names l' ->
  (forall k v, EqualFold_ascii k name = true -> (k, v) ∈ l <-> (k, v) ∈ l') -> field dec name l a = field dec name l' a.
Proof.
  intros Hd Hd' H. destruct (existsb (fun p => EqualFold_ascii p.1 name) l) eqn:E.
  - apply existsb_exists in E as ([k v] & Hin%list_elem_of_In & Hk). cbn in Hk.
    rewrite (field_unique dec name l k v) by done. symmetry. apply (field_unique dec name l' k v); [done | | done]. by apply H.
  - assert (forall k v, (k, v) ∈ l -> EqualFold_ascii k name = false) as Hno.
    { intros k v Hin. apply not_true_iff_false. intros Hk. apply not_true_iff_false in E. apply E, existsb_exists.
      exists (k, v). by rewrite <- list_elem_of_In. }
    rewrite !field_absent; [done | | done]. intros k v Hin. apply not_true_iff_false. intros Hk.
    apply H in Hin; [| done]. by rewrite (Hno k v Hin) in Hk.
Qed.

Lemma object_map_lookup l k v : NoDup l.*1 -> object_map l !! k = Some v <-> (k, v) ∈ l.
Proof.
  unfold object_map. induction l as [|[k' v'] l IH] using rev_ind; cbn.
  { rewrite lookup_empty. split; [done | by intros ?%not_elem_of_nil]. }
  rewrite fmap_app, foldl_app. cbn. intros Hn. apply NoDup_app in Hn as (Hn & Hk & _).
  rewrite lookup_insert_Some, IH by done. rewrite elem_of_app, list_elem_of_singleton. split.
  - intros [[-> ->] | [_ ?]]; [by right | by left].
  - intros [Hin | [= -> ->]]; [right | by left]. split; [| done]. intros ->. apply (Hk k); [| left].
    by apply (list_elem_of_fmap_2 fst _ (k, v)).
Qed.

#[export] Instance member_order_weak : StrictWeak (fun a b : string * json => str_ltb a.1 b.1).
Proof. split; [intros x y; apply str_ltb_asym | intros x y z; apply str_ltb_ntrans]. Qed.

(** The members of a marshalled map. *)
Definition marshalled (m : gmap string json) : members := sort_by (fun a b => str_ltb a.1 b.1) (map_to_list m).

Lemma elem_of_marshalled m k v : (k, v) ∈ marshalled m <-> m !! k = Some v.
Proof. unfold marshalled. by rewrite elem_of_sort_by, elem_of_map_to_list. Qed.

Lemma marshalled_NoDup m : NoDup (marshalled m).*1.
Proof. unfold marshalled. rewrite sort_by_perm. apply NoDup_fst_map_to_list. Qed.

(** A written struct whose field names stay apart reads back field by field. *)
Lemma encode_field {V A} (dec : A -> V -> option A) name l ov a :
  NoDup (fold_case <$> l.*1) -> (name, ov) ∈ l ->
  field dec name (encode l) a = match ov with Some v => dec a v | None => Some a end.
Proof.
  intros Hd Hin.
  assert (forall k v, (k, v) ∈ encode l <-> (k, Some v) ∈ l) as Hmem.
  { intros k v. unfold encode. rewrite list_elem_of_omap. split.
    - intros ([k' [v'|]] & Hk & He); cbn in He; [| done]. by injection He as -> ->.
    - intros Hk. by exists (k, Some v). }
  assert (forall k o, (k, o) ∈ l -> fold_case k = fold_case name -> k = name /\ o = ov) as Huniq.
  { intros k o Hk Hf. apply list_elem_of_lookup in Hin as [i Hi], Hk as [j Hj].
    assert (i = j) as ->; [| split; congruence]. rewrite <- list_fmap_compose in Hd.
    eapply NoDup_lookup; [exact Hd | |]; rewrite list_lookup_fmap; [by rewrite Hi | rewrite Hj; cbn; by rewrite Hf]. }
  destruct ov as [v|].
  - apply (field_unique dec name (encode l) name v); [| by apply Hmem | by apply EqualFold_fold].
    unfold distinct_names. clear -Hd. induction l as [|[k [v|]] l IH]; cbn in *; [done | |];
      apply NoDup_cons in Hd as [Hk Hd]; [| by apply IH]. apply NoDup_cons. split; [| by apply IH].
    contradict Hk. apply list_elem_of_fmap in Hk as (n & Hn & Hk). rewrite Hn. apply list_elem_of_fmap_2.
    apply list_elem_of_fmap in Hk as ([n' v'] & -> & Hk). unfold encode in Hk. apply list_elem_of_omap in Hk as ([n'' [v''|]] & Hk & He); [| done].
    cbn in He. injection He as -> ->. by apply (list_elem_of_fmap_2 fst _ (n', Some v')).
  - apply field_absent. intros k v Hk%Hmem. apply not_true_iff_false. intros Hf%EqualFold_fold.
    by destruct (Huniq k (Some v) Hk Hf).
Qed.

(** ** Maps whose names stay apart *)

Definition names_apart (m : gmap string json) : Prop :=
  forall k k', is_Some (m !! k) -> is_Some (m !! k') -> fold_case k = fold_case k' -> k = k'.

Lemma names_apart_object l : distinct_names l -> names_apart (object_map l).
Proof.
  intros Hd k k' [v Hv] [v' Hv'] Hf. apply object_map_lookup in Hv, Hv'; [| by apply distinct_keys | by apply distinct_keys].
  unfold distinct_names in Hd. rewrite <- list_fmap_compose in Hd.
  apply list_elem_of_lookup in Hv as [i Hi], Hv' as [j Hj]. assert (i = j) as ->; [| congruence].
  eapply NoDup_lookup; [exact Hd | |]; rewrite list_lookup_fmap; [by rewrite Hi | rewrite Hj; cbn; by rewrite Hf].
Qed.

Lemma names_apart_insert m k v :
  names_apart m -> (forall k', is_Some (m !! k') -> fold_case k' = fold_case k -> k' = k) -> names_apart (<[k := v]> m).
Proof.
  intros Hm Hk a b Ha Hb Hf. rewrite lookup_insert_is_Some in Ha, Hb.
  destruct (decide (k = a)) as [<- | ?], (decide (k = b)) as [<- | ?]; [done | | |].
  - destruct Hb as [? | [_ Hb]]; [done |]. symmetry. by apply Hk.
  - destruct Ha as [? | [_ Ha]]; [done |]. by apply Hk.
  - destruct Ha as [? | [_ Ha]], Hb as [? | [_ Hb]]; try done. by apply Hm.
Qed.

Lemma marshalled_distinct m : names_apart m -> distinct_names (marshalled m).
Proof.
  intros Hm. unfold distinct_names. rewrite <- list_fmap_compose. apply (NoDup_fmap_on fst); [apply marshalled_NoDup |].
  intros [k v] [k' v'] Hk%elem_of_marshalled Hk'%elem_of_marshalled Hf. by apply Hm.
Qed.

(** An object rewritten through a map with one member replaced: that member reads as
    written, every other field as before. *)
Section Overlay.
Context (l : members) (name : string) (v : json).
Hypothesis (Hd : distinct_names l) (Hname : forall k, k ∈ l.*1 -> fold_case k = fold_case name -> k = name).

Lemma overlay_apart : names_apart (<[name := v]> (object_map l)).
Proof.
  apply names_apart_insert; [by apply names_apart_object |]. intros k [x Hx] Hf.
  apply object_map_lookup in Hx; [| by apply distinct_keys]. apply Hname; [| done]. by apply (list_elem_of_fmap_2 fst _ (k, x)).
Qed.

Lemma overlay_read {A} (dec : A -> json -> option A) a :
  field dec name (marshalled (<[name := v]> (object_map l))) a = dec a v.
Proof.
  apply (field_unique dec name _ name v); [apply marshalled_distinct, overlay_apart | | by apply EqualFold_fold].
  apply elem_of_marshalled, lookup_insert_eq.
Qed.

Lemma overlay_other {A} (dec : A -> json -> option A) n a :
  fold_case name <> fold_case n -> field dec n (marshalled (<[name := v]> (object_map l))) a = field dec n l a.
Proof.
  intros Hn. apply field_same; [apply marshalled_distinct, overlay_apart | done |]. intros k x Hk%EqualFold_fold.
  rewrite elem_of_marshalled, lookup_insert_ne by congruence. apply object_map_lookup. by apply distinct_keys.
Qed.
End Overlay.
