(* ===== verification/JsonText.v ===== *)
(** The text of JSON as [encoding/json] reads and writes it: strings with Go's escapes and
    its coercion of invalid UTF-8, numbers, values with the limit on nesting, the members
    of an object with their texts verbatim, and compaction. *)
From Stdlib Require Import DecimalString DecimalZ DecimalFacts DecimalPos.
From S2P Require Import Prelude.
From S2P Require Import GoStd.
From S2P Require Import GoBytes.
From S2P Require Import Json.

Open Scope string_scope.
Open Scope list_scope.
Open Scope Z_scope.

(** * Characters *)

Definition dq : ascii := "034"%char.
Definition bs : ascii := "092"%char.
Definition char_eqb (c d : ascii) : bool := Ascii.eqb c d.
Infix "=?c" := char_eqb (at level 70).

Definition is_ws (c : ascii) : bool := (c =?c " ") || (c =?c "009") || (c =?c "010") || (c =?c "013").

Fixpoint skip_ws (s : string) : string :=
  match s with String c s' => if is_ws c then skip_ws s' else s | "" => "" end.

(** Is byte [i] of [s] between [lo] and [hi]? *)
Definition byte_in (i : nat) (s : string) (lo hi : Z) : bool :=
  match String.get i s with Some c => (lo <=? byte c) && (byte c <=? hi) | None => false end.

(** [utf8.DecodeRune] at a byte that is not ASCII: how many continuation bytes the
    well-formed sequence has, [None] for [RuneError] of width 1. *)
Definition rune_tail (s : string) : option nat :=
  let cont i := byte_in i s 128 191 in
  let head := byte_in 0 s in
  if head 194 223 then if cont 1%nat then Some 1%nat else None
  else if head 224 239 then
    if byte_in 1 s (if head 224 224 then 160 else 128) (if head 237 237 then 159 else 191) && cont 2%nat
    then Some 2%nat else None
  else if head 240 244 then
    if byte_in 1 s (if head 240 240 then 144 else 128) (if head 244 244 then 143 else 191) && cont 2%nat && cont 3%nat
    then Some 3%nat else None
  else None.

(** U+FFFD in UTF-8. *)
Definition replacement : string := String (chr 239) (String (chr 191) (String (chr 189) "")).

(** [utf8.EncodeRune]. *)
Definition utf8_encode (r : Z) : string :=
  let tail k := chr (128 + Z.land (Z.shiftr r k) 63) in
  if r <? 128 then String (chr r) ""
  else if r <? 2048 then String (chr (192 + Z.shiftr r 6)) (String (tail 0) "")
  else if (55296 <=? r) && (r <=? 57343) then replacement
  else if r <? 65536 then String (chr (224 + Z.shiftr r 12)) (String (tail 6) (String (tail 0) ""))
  else if r <=? 1114111 then String (chr (240 + Z.shiftr r 18)) (String (tail 12) (String (tail 6) (String (tail 0) "")))
  else replacement.

(** * Strings *)

(** After an opening quote: the body, still escaped, and what follows the closing quote. *)
Fixpoint scan_str (s : string) : option (string * string) :=
  match s with
  | "" => None
  | String c s1 =>
      if c =?c dq then Some ("", s1)
      else if byte c <? 32 then None
      else if c =?c bs then
        match s1 with
        | "" => None
        | String e s2 =>
            if e =?c "u" then
              match s2 with
              | String h1 (String h2 (String h3 (String h4 s3))) =>
                  if bool_decide (Forall (fun h => is_Some (hex_val h)) [h1; h2; h3; h4])
                  then (fun p => (String c (String e (String h1 (String h2 (String h3 (String h4 p.1))))), p.2)) <$> scan_str s3
                  else None
              | _ => None
              end
            else if bool_decide (e ∈ [dq; bs; "/"; "b"; "f"; "n"; "r"; "t"]%char)
            then (fun p => (String c (String e p.1), p.2)) <$> scan_str s2
            else None
        end
      else (fun p => (String c p.1, p.2)) <$> scan_str s1
  end.

Definition hex4 (a b c d : ascii) : Z :=
  let h x := default 0 (hex_val x) in ((h a * 16 + h b) * 16 + h c) * 16 + h d.

(** The character of a one-letter escape. *)
Definition unescape (e : ascii) : ascii :=
  if e =?c "b" then "008" else if e =?c "f" then "012" else if e =?c "n" then "010"
  else if e =?c "r" then "013" else if e =?c "t" then "009" else e.

(** [utf16.DecodeRune]. *)
Definition surrogates (r1 r2 : Z) : option Z :=
  if (55296 <=? r1) && (r1 <? 56320) && (56320 <=? r2) && (r2 <? 57344)
  then Some ((r1 - 55296) * 1024 + (r2 - 56320) + 65536) else None.

(** The string a scanned body stands for; [k] bytes of a checked sequence are copied. *)
Fixpoint unquote (k : nat) (s : string) : string :=
  match s with
  | "" => ""
  | String c s1 =>
      match k with
      | S k => String c (unquote k s1)
      | O =>
          if c =?c bs then
            match s1 with
            | "" => ""
            | String e s2 =>
                if e =?c "u" then
                  match s2 with
                  | String h1 (String h2 (String h3 (String h4 s3))) =>
                      let r := hex4 h1 h2 h3 h4 in
                      if (55296 <=? r) && (r <? 57344) then
                        match s3 with
                        | String b' (String u' (String g1 (String g2 (String g3 (String g4 s4))))) =>
                            if (b' =?c bs) && (u' =?c "u") then
                              match surrogates r (hex4 g1 g2 g3 g4) with
                              | Some rune => utf8_encode rune +:+ unquote 0 s4
                              | None => replacement +:+ unquote 0 s3
                              end
                            else replacement +:+ unquote 0 s3
                        | _ => replacement +:+ unquote 0 s3
                        end
                      else utf8_encode r +:+ unquote 0 s3
                  | _ => ""
                  end
                else String (unescape e) (unquote 0 s2)
            end
          else if byte c <? 128 then String c (unquote 0 s1)
          else match rune_tail s with
               | Some n => String c (unquote n s1)
               | None => replacement +:+ unquote 0 s1
               end
      end
  end.

Definition hex_digit (z : Z) : ascii := chr (if z <? 10 then 48 + z else 87 + z).

(** How the encoder writes an ASCII character. *)
Definition escape (c : ascii) : string :=
  let b := byte c in
  if (c =?c dq) || (c =?c bs) then String bs (String c "")
  else if b =? 8 then String bs "b" else if b =? 12 then String bs "f" else if b =? 10 then String bs "n"
  else if b =? 13 then String bs "r" else if b =? 9 then String bs "t"
  else if (b <? 32) || (c =?c "<") || (c =?c ">") || (c =?c "&")
  then String bs (String "u" (String "0" (String "0" (String (hex_digit (Z.shiftr b 4)) (String (hex_digit (Z.land b 15)) "")))))
  else String c "".

(** U+2028 and U+2029. *)
Definition line_sep (s : string) : bool := byte_in 0 s 226 226 && byte_in 1 s 128 128 && byte_in 2 s 168 169.

Fixpoint quote_body (k : nat) (s : string) : string :=
  match s with
  | "" => ""
  | String c s1 =>
      match k with
      | S k => String c (quote_body k s1)
      | O =>
          if byte c <? 128 then escape c +:+ quote_body 0 s1
          else match rune_tail s with
               | None => String bs "ufffd" +:+ quote_body 0 s1
               | Some n =>
                   if line_sep s then
                     match s1 with
                     | String _ (String d s3) => String bs "u202" +:+ String (hex_digit (Z.land (byte d) 15)) (quote_body 0 s3)
                     | _ => ""
                     end
                   else String c (quote_body n s1)
               end
      end
  end.

(** [json.Marshal] of a string. *)
Definition quote (s : string) : string := String dq (quote_body 0 s +:+ String dq "").

(** * Numbers *)

Fixpoint digits (s : string) : string * string :=
  match s with
  | String c s' => if is_digit c then (fun p => (String c p.1, p.2)) (digits s') else ("", s)
  | "" => ("", "")
  end.

Definition digits1 (s : string) : option (string * string) :=
  match digits s with ("", _) => None | p => Some p end.

Definition scan_sign (ok : ascii -> bool) (s : string) : string * string :=
  match s with String c s' => if ok c then (String c "", s') else ("", s) | "" => ("", "") end.

(** The digits before the point: no leading zero. *)
Definition scan_nat (s : string) : option (string * string) :=
  match s with String c s' => if c =?c "0" then Some ("0", s') else digits1 s | "" => None end.

Definition scan_frac (s : string) : option (string * string) :=
  match s with
  | String c s1 => if c =?c "." then (fun p => (String c p.1, p.2)) <$> digits1 s1 else Some ("", s)
  | "" => Some ("", "")
  end.

Definition scan_exp (s : string) : option (string * string) :=
  match s with
  | String c s1 =>
      if (c =?c "e") || (c =?c "E") then
        let '(g, s2) := scan_sign (fun d => (d =?c "+") || (d =?c "-")) s1 in
        (fun p => (String c (g +:+ p.1), p.2)) <$> digits1 s2
      else Some ("", s)
  | "" => Some ("", "")
  end.

Definition number (s : string) : option (json * string) :=
  let '(g, s0) := scan_sign (fun c => c =?c "-") s in
  match scan_nat s0 with
  | None => None
  | Some (i, s1) =>
      match scan_frac s1 with
      | None => None
      | Some (f, s2) =>
          match scan_exp s2 with
          | None => None
          | Some (e, s3) =>
              let z := default 0 (parse_digits i) in
              Some (if bool_decide (f = "" /\ e = "") then JInt (if bool_decide (g = "") then z else - z)
                    else JNum (g +:+ (i +:+ (f +:+ e))), s3)
          end
      end
  end.

(** * Values *)

(** [maxNestingDepth] of the scanner. *)
Definition maxNestingDepth : Z := 10000.

Definition literal (w : string) (v : json) (s : string) : option (json * string) :=
  match cut_prefix w s with Some r => Some (v, r) | None => None end.

Fixpoint value (fuel : nat) (depth : Z) (s : string) {struct fuel} : option (json * string) :=
  match fuel, s with
  | S fuel, String c s1 =>
      if c =?c "{" then
        if depth <=? 0 then None else
        match skip_ws s1 with
        | String d s2 =>
            if d =?c "}" then Some (JObj [], s2)
            else (fun p => (JObj ((fun m => (m.1.1, m.2)) <$> p.1), p.2)) <$> members fuel (depth - 1) s1
        | "" => None
        end
      else if c =?c "[" then
        if depth <=? 0 then None else
        match skip_ws s1 with
        | String d s2 =>
            if d =?c "]" then Some (JArr [], s2)
            else (fun p => (JArr p.1, p.2)) <$> elements fuel (depth - 1) s1
        | "" => None
        end
      else if c =?c dq then (fun p => (JStr (unquote 0 p.1), p.2)) <$> scan_str s1
      else if c =?c "t" then literal "true" (JBool true) s
      else if c =?c "f" then literal "false" (JBool false) s
      else if c =?c "n" then literal "null" JNull s
      else number s
  | _, _ => None
  end
(** The elements up to the closing bracket. *)
with elements (fuel : nat) (depth : Z) (s : string) {struct fuel} : option (list json * string) :=
  match fuel with
  | O => None
  | S fuel =>
      match value fuel depth (skip_ws s) with
      | None => None
      | Some (v, s1) =>
          match skip_ws s1 with
          | String d s2 =>
              if d =?c "," then (fun p => (v :: p.1, p.2)) <$> elements fuel depth s2
              else if d =?c "]" then Some ([v], s2) else None
          | "" => None
          end
      end
  end
(** The members up to the closing brace: name, text and value. *)
with members (fuel : nat) (depth : Z) (s : string) {struct fuel} : option (list (string * string * json) * string) :=
  match fuel with
  | O => None
  | S fuel =>
      match skip_ws s with
      | String q s0 =>
          if q =?c dq then
            match scan_str s0 with
            | None => None
            | Some (k, s1) =>
                match skip_ws s1 with
                | String o s2 =>
                    if o =?c ":" then
                      let s3 := skip_ws s2 in
                      match value fuel depth s3 with
                      | None => None
                      | Some (v, s4) =>
                          let m := (unquote 0 k, str_take (slen s3 - slen s4) s3, v) in
                          match skip_ws s4 with
                          | String d s5 =>
                              if d =?c "," then (fun p => (m :: p.1, p.2)) <$> members fuel depth s5
                              else if d =?c "}" then Some ([m], s5) else None
                          | "" => None
                          end
                      end
                    else None
                | "" => None
                end
            end
          else None
      | "" => None
      end
  end.

Definition enough (s : string) : nat := 2 * slen s + 2.

(** A whole text. *)
Definition parse (s : string) : option json :=
  match value (enough s) maxNestingDepth (skip_ws s) with
  | Some (v, r) => if bool_decide (skip_ws r = "") then Some v else None
  | None => None
  end.

(** [json.Unmarshal] into a struct: the members with their texts; [null] has none; any
    other value is not an object. *)
Definition parse_object (s : string) : option (list (string * string * json)) :=
  match parse s with
  | Some JNull => Some []
  | Some (JObj []) => Some []
  | Some (JObj _) =>
      match skip_ws s with
      | String _ s1 => fst <$> members (enough s) (maxNestingDepth - 1) s1
      | "" => None
      end
  | _ => None
  end.

(** * Compaction *)

(** Encoding a [json.RawMessage] escapes what HTML could misread, wherever it is. *)
Fixpoint html_escape (s : string) : string :=
  match s with
  | "" => ""
  | String c s1 =>
      if (c =?c "<") || (c =?c ">") || (c =?c "&")
      then String bs (String "u" (String "0" (String "0" (String (hex_digit (Z.shiftr (byte c) 4)) (String (hex_digit (Z.land (byte c) 15)) (html_escape s1))))))
      else if line_sep s then
        match s1 with
        | String _ (String d s3) => String bs "u202" +:+ String (hex_digit (Z.land (byte d) 15)) (html_escape s3)
        | _ => ""
        end
      else String c (html_escape s1)
  end.

(** Removes the white space outside strings.  [q]: inside a string; [e]: after a backslash. *)
Fixpoint strip (q e : bool) (s : string) : string :=
  match s with
  | "" => ""
  | String c s1 =>
      if q then String c (if e then strip true false s1 else strip (negb (c =?c dq)) (c =?c bs) s1)
      else if is_ws c then strip false false s1
      else String c (strip (c =?c dq) false s1)
  end.

Definition compact (s : string) : option string :=
  match parse s with Some _ => Some (strip false false (html_escape s)) | None => None end.

(** * Objects *)

(** A struct as the encoder writes it, from the texts of its members. *)
Fixpoint write_members (l : list (string * string)) : string :=
  match l with
  | [] => "}"
  | (k, x) :: l' =>
      quote k +:+ String ":" (x +:+ match l' with [] => "}" | _ => String "," (write_members l') end)
  end.

Definition write_object (l : list (string * string)) : string := String "{" (write_members l).

(** An array of integers. *)
Fixpoint write_ints (l : list Z) : string :=
  match l with
  | [] => "]"
  | z :: l' => Itoa z +:+ match l' with [] => "]" | _ => String "," (write_ints l') end
  end.

Definition write_int_array (l : list Z) : string := String "[" (write_ints l).

(** * Facts: texts are read locally *)

(** No character that could continue a number comes first. *)
Definition stops (t : string) : bool :=
  match t with
  | String c _ => negb (is_digit c || (c =?c ".") || (c =?c "e") || (c =?c "E"))
  | "" => true
  end.

Lemma char_eqb_eq c d : (c =?c d) = true <-> c = d.
Proof. apply Ascii.eqb_eq. Qed.

Lemma skip_ws_spec s : exists w, s = w +:+ skip_ws s /\
  (forall c x, is_ws c = false -> skip_ws (w +:+ String c x) = String c x) /\
  match skip_ws s with String c _ => is_ws c = false | "" => True end.
Proof.
  induction s as [|c s (w & Hs & Hw & Hh)]; cbn.
  { exists "". split; [done |]. split; [| done]. intros d x Hd. change ("" +:+ String d x) with (String d x). cbn. by rewrite Hd. }
  destruct (is_ws c) eqn:Hc.
  - exists (String c w). rewrite string_app_cons, <- Hs. split; [done |]. split; [| done].
    intros d x Hd. rewrite string_app_cons. cbn. rewrite Hc. by apply Hw.
  - exists "". split; [done |]. split; [| done]. intros d x Hd. change ("" +:+ String d x) with (String d x). cbn. by rewrite Hd.
Qed.

(** Skipping spaces before a token depends on nothing after its first character. *)
Lemma skip_ws_local s c x : skip_ws s = String c x ->
  exists w, s = w +:+ String c x /\ forall y, skip_ws (w +:+ String c y) = String c y.
Proof.
  intros E. destruct (skip_ws_spec s) as (w & Hs & Hw & Hh). rewrite E in Hs, Hh. exists w. split; [done |].
  intros y. by apply Hw.
Qed.

Lemma scan_str_local s b r : scan_str s = Some (b, r) ->
  s = b +:+ String dq r /\ forall t, scan_str (b +:+ String dq t) = Some (b, t).
Proof.
  remember (slen s) as n eqn:Hn. assert (slen s <= n)%nat as Hle by lia. clear Hn.
  revert s b r Hle. induction n as [n IH] using lt_wf_ind. intros [|c s] b r Hle; [done |]. cbn in Hle.
  cbn [scan_str]. destruct (c =?c dq) eqn:Hq.
  { intros [= <- <-]. apply char_eqb_eq in Hq as ->. split; [done |]. intros t. done. }
  destruct (byte c <? 32) eqn:Hctl; [done |].
  assert (Hrec : forall s', (slen s' < slen s + 1)%nat -> forall b' r', scan_str s' = Some (b', r') ->
    s' = b' +:+ String dq r' /\ forall t, scan_str (b' +:+ String dq t) = Some (b', t)).
  { intros s' Hs' b' r'. apply (IH (slen s')); lia. }
  destruct (c =?c bs) eqn:Hb.
  - destruct s as [|e s2]; [done |]. destruct (e =?c "u") eqn:Hu.
    + destruct s2 as [|h1 [|h2 [|h3 [|h4 s3]]]]; try done. case_bool_decide as Hhex; [| done].
      destruct (scan_str s3) as [[b' r']|] eqn:E; [| done]. intros [= <- <-].
      destruct (Hrec s3 ltac:(cbn; lia) _ _ E) as [-> Ht]. split; [by rewrite !string_app_cons |].
      intros t. rewrite !string_app_cons. cbn [scan_str]. rewrite Hq, Hctl, Hb, Hu, bool_decide_true by done. by rewrite Ht.
    + case_bool_decide as He; [| done]. destruct (scan_str s2) as [[b' r']|] eqn:E; [| done]. intros [= <- <-].
      destruct (Hrec s2 ltac:(cbn; lia) _ _ E) as [-> Ht]. split; [by rewrite !string_app_cons |].
      intros t. rewrite !string_app_cons. cbn [scan_str]. rewrite Hq, Hctl, Hb, Hu, bool_decide_true by done. by rewrite Ht.
  - destruct (scan_str s) as [[b' r']|] eqn:E; [| done]. intros [= <- <-].
    destruct (Hrec s ltac:(cbn; lia) _ _ E) as [-> Ht]. split; [by rewrite string_app_cons |].
    intros t. rewrite string_app_cons. cbn [scan_str]. rewrite Hq, Hctl, Hb. by rewrite Ht.
Qed.

Lemma stops_no_digit t : stops t = true -> digits t = ("", t).
Proof. destruct t as [|c t]; [done |]. cbn. destruct (is_digit c); [done |]. done. Qed.

Lemma digits_local s d r : digits s = (d, r) ->
  s = d +:+ r /\ (forall t, digits t = ("", t) -> digits (d +:+ t) = (d, t)) /\ digits r = ("", r).
Proof.
  revert d r. induction s as [|c s IH]; cbn; intros d r.
  { intros [= <- <-]. done. }
  destruct (is_digit c) eqn:Hc.
  - destruct (digits s) as [d' r'] eqn:E. intros [= <- <-]. destruct (IH d' r' eq_refl) as (-> & Ht & Hr).
    split; [by rewrite string_app_cons |]. split; [| done]. intros t Hd. rewrite string_app_cons. cbn. by rewrite Hc, (Ht t Hd).
  - intros [= <- <-]. split; [done |]. split; [by intros t Ht |]. cbn. by rewrite Hc.
Qed.

Lemma digits1_local s d r : digits1 s = Some (d, r) ->
  s = d +:+ r /\ (exists c d', d = String c d' /\ is_digit c = true) /\
  forall t, digits t = ("", t) -> digits1 (d +:+ t) = Some (d, t).
Proof.
  unfold digits1. destruct (digits s) as [[|c d'] r'] eqn:E; [done |]. intros [= <- <-].
  destruct (digits_local _ _ _ E) as (-> & Ht & _). split; [done |]. split.
  - exists c, d'. split; [done |]. rewrite string_app_cons in E. cbn in E. by destruct (is_digit c).
  - intros t Hdt. by rewrite (Ht t Hdt).
Qed.

(** A digit is none of the other characters of a number. *)
Lemma digit_not c d : is_digit c = true -> is_digit d = false -> (c =?c d) = false.
Proof. intros Hc Hd. apply not_true_iff_false. intros ->%char_eqb_eq. congruence. Qed.

Lemma scan_nat_local s i r : scan_nat s = Some (i, r) ->
  s = i +:+ r /\ (exists c i', i = String c i' /\ is_digit c = true) /\
  forall t, digits t = ("", t) -> scan_nat (i +:+ t) = Some (i, t).
Proof.
  unfold scan_nat. destruct s as [|c s]; [done |]. destruct (c =?c "0") eqn:Hc.
  - intros [= <- <-]. apply char_eqb_eq in Hc as ->. split; [done |]. split; [by eexists _, _ | done].
  - intros E. destruct (digits1_local _ _ _ E) as (Hs & (c' & d' & -> & Hd) & Ht). split; [done |]. split; [by eexists _, _ |].
    intros t Hdt. specialize (Ht t Hdt). rewrite string_app_cons in *. injection Hs as <- Hs. by rewrite Hc.
Qed.

(** The first character of [t], if any, is not [c]. *)
Definition not_first (c : ascii) (t : string) : Prop := match t with String d _ => (d =?c c) = false | "" => True end.

Lemma scan_frac_local s f r : scan_frac s = Some (f, r) ->
  s = f +:+ r /\ (f = "" \/ exists f', f = String "." f') /\
  forall t, digits t = ("", t) -> (f = "" -> not_first "." t) -> scan_frac (f +:+ t) = Some (f, t).
Proof.
  assert (Hno : forall t, not_first "." t -> scan_frac t = Some ("", t)) by (intros [|d t]; [done | cbn; by intros ->]).
  unfold scan_frac at 1. destruct s as [|c s]; [intros [= <- <-] | destruct (c =?c ".") eqn:Hc].
  - split; [done |]. split; [by left |]. intros t _ Hn. by apply Hno, Hn.
  - destruct (digits1 s) as [[d r']|] eqn:E; [| done]. intros [= <- <-].
    destruct (digits1_local _ _ _ E) as (-> & _ & Ht). apply char_eqb_eq in Hc as ->. rewrite string_app_cons.
    split; [done |]. split; [by right; eexists |]. intros t Hdt _. rewrite string_app_cons. unfold scan_frac.
    rewrite (Ht t Hdt). done.
  - intros [= <- <-]. split; [done |]. split; [by left |]. intros t _ Hn. by apply Hno, Hn.
Qed.

Lemma scan_sign_local ok s g r : scan_sign ok s = (g, r) ->
  s = g +:+ r /\ forall c t, (forall d r', r = String d r' -> d = c) -> r <> "" -> scan_sign ok (g +:+ String c t) = (g, String c t).
Proof.
  unfold scan_sign. destruct s as [|c s]; [by intros [= <- <-] | destruct (ok c) eqn:Hc; intros [= <- <-]].
  - split; [done |]. intros d t _ _. rewrite string_app_cons. by rewrite Hc.
  - split; [done |]. intros d t Hd _. specialize (Hd c s eq_refl) as ->. change ("" +:+ String d t) with (String d t). cbn. by rewrite Hc.
Qed.

Lemma scan_exp_local s e r : scan_exp s = Some (e, r) ->
  s = e +:+ r /\ (e = "" \/ exists c e', e = String c e' /\ (c =?c "e") || (c =?c "E") = true) /\
  forall t, digits t = ("", t) -> (e = "" -> not_first "e" t /\ not_first "E" t) -> scan_exp (e +:+ t) = Some (e, t).
Proof.
  assert (Hno : forall t, not_first "e" t /\ not_first "E" t -> scan_exp t = Some ("", t))
    by (intros [|d t]; [done | cbn; by intros [-> ->]]).
  unfold scan_exp at 1. destruct s as [|c s]; [intros [= <- <-] | destruct ((c =?c "e") || (c =?c "E")) eqn:Hc].
  - split; [done |]. split; [by left |]. intros t _ Hn. by apply Hno, Hn.
  - destruct (scan_sign _ s) as [g s2] eqn:Hg. destruct (digits1 s2) as [[d r']|] eqn:E; [| done]. intros [= <- <-].
    destruct (digits1_local _ _ _ E) as (-> & (d0 & d' & -> & _) & Ht). destruct (scan_sign_local _ _ _ _ Hg) as [-> Hsg].
    split; [by rewrite ?string_app_cons, ?string_app_assoc, ?string_app_cons |]. split; [right; by eexists _, _ |].
    intros t Hdt _. rewrite ?string_app_cons, ?string_app_assoc, ?string_app_cons. cbn [scan_exp]. rewrite Hc. specialize (Ht t Hdt).
    rewrite !string_app_cons in *. rewrite (Hsg d0 (d' +:+ t)); [| by intros ? ? [= <- _] | done]. by rewrite Ht.
  - intros [= <- <-]. split; [done |]. split; [by left |]. intros t _ Hn. by apply Hno, Hn.
Qed.

Lemma stops_not_first t : stops t = true ->
  digits t = ("", t) /\ not_first "." t /\ not_first "e" t /\ not_first "E" t.
Proof.
  intros H. split; [by apply stops_no_digit |]. destruct t as [|c t]; [done |]. cbn in *.
  apply negb_true_iff in H. repeat (apply orb_false_elim in H as [H ?]). done.
Qed.

Lemma number_local s v r : number s = Some (v, r) ->
  exists c p, s = String c p +:+ r /\ (c =?c "-") || is_digit c = true /\
    forall t, stops t = true -> number (String c p +:+ t) = Some (v, t).
Proof.
  unfold number. destruct (scan_sign _ s) as [g s0] eqn:Hg. destruct (scan_nat s0) as [[i s1]|] eqn:Hi; [| done].
  destruct (scan_frac s1) as [[f s2]|] eqn:Hf; [| done]. destruct (scan_exp s2) as [[e s3]|] eqn:He; [| done].
  intros H. assert (s3 = r) as -> by congruence.
  destruct (scan_nat_local _ _ _ Hi) as (-> & (c0 & i' & -> & Hd) & Ht1).
  destruct (scan_frac_local _ _ _ Hf) as (-> & Hf' & Ht2). destruct (scan_exp_local _ _ _ He) as (-> & He' & Ht3).
  destruct (scan_sign_local _ _ _ _ Hg) as [-> Hsg].
  assert (exists c p, g +:+ (String c0 i' +:+ (f +:+ e)) = String c p /\ (c =?c "-") || is_digit c = true) as (c & p & Hp & Hc).
  { unfold scan_sign in Hg. destruct g as [|c g]; [exists c0; eexists; split; [reflexivity | by rewrite Hd, orb_true_r] |].
    exists c. eexists. split; [reflexivity |]. rewrite string_app_cons in Hg. by destruct (c =?c "-"). }
  exists c, p. rewrite <- Hp, !string_app_assoc. split; [done |]. split; [done |]. intros t Hs.
  destruct (stops_not_first t Hs) as (Hd0 & Hdot & Hee & HE).
  assert (digits (e +:+ t) = ("", e +:+ t)) as Hd1.
  { destruct He' as [-> | (x & e' & -> & Hx)]; [done |]. rewrite string_app_cons. cbn.
    assert (is_digit x = false) as ->; [| done]. apply orb_true_iff in Hx as [->%char_eqb_eq | ->%char_eqb_eq]; done. }
  assert (digits (f +:+ e +:+ t) = ("", f +:+ e +:+ t)) as Hd2.
  { destruct Hf' as [-> | (f' & ->)]; [done |]. by rewrite string_app_cons. }
  rewrite !string_app_assoc, (string_app_cons c0 i'), Hsg; [| by intros ? ? [= <- _] | done]. rewrite <- (string_app_cons c0 i'), Ht1 by done.
  rewrite Ht2; [| done |]. 2: { intros ->. destruct He' as [-> | (x & e' & -> & Hx)]; [done |]. rewrite string_app_cons. cbn.
    apply orb_true_iff in Hx as [->%char_eqb_eq | ->%char_eqb_eq]; done. }
  rewrite Ht3 by done. congruence.
Qed.

Lemma number_first c : (c =?c "-") || is_digit c = true ->
  is_ws c = false /\ (c =?c "{") = false /\ (c =?c "[") = false /\ (c =?c dq) = false /\
  (c =?c "t") = false /\ (c =?c "f") = false /\ (c =?c "n") = false.
Proof. destruct c as [[] [] [] [] [] [] [] []]; vm_compute; try done; intros H; discriminate H. Qed.

Lemma cut_prefix_spec w s r : cut_prefix w s = Some r <-> s = w +:+ r.
Proof.
  revert s. induction w as [|c w IH]; intros s; cbn.
  { split; [by intros [= ->] | by intros ->]. }
  destruct s as [|d s]; [done |]. rewrite string_app_cons. case_bool_decide as E.
  - subst d. rewrite IH. split; [by intros -> | by intros [= ->]].
  - split; [done |]. by intros [= -> _].
Qed.

(** The text [x] is the value [v], from its first character to its last, in front of
    anything that does not continue it. *)
Definition reads (fuel : nat) (depth : Z) (v : json) (x : string) : Prop :=
  (exists c p, x = String c p /\ is_ws c = false) /\
  forall t, stops t = true -> value fuel depth (x +:+ t) = Some (v, t).

Definition text_of (v : json) (x : string) : Prop := exists fuel depth, reads fuel depth v x.

Lemma is_ws_stops c t : is_ws c = true -> stops (String c t) = true.
Proof. intros H. destruct c as [[] [] [] [] [] [] [] []]; done. Qed.

(** White space and then a delimiter end a number. *)
Lemma skip_ws_stops w c y : skip_ws (w +:+ String c y) = String c y -> stops (String c y) = true ->
  stops (w +:+ String c y) = true.
Proof.
  intros H Hs. destruct w as [|d w]; [done |]. rewrite string_app_cons in *. cbn in H.
  destruct (is_ws d) eqn:Hd; [by apply is_ws_stops |]. injection H as -> H. exfalso.
  apply (f_equal slen) in H. rewrite string_length_app in H. cbn in H. lia.
Qed.

Lemma stops_delim d y : d ∈ [","; "]"; "}"]%char -> stops (String d y) = true.
Proof. intros H. repeat (apply elem_of_cons in H as [-> | H]; [done |]). by apply not_elem_of_nil in H. Qed.

Lemma local_cons c p t : String c p +:+ t = String c (p +:+ t).
Proof. done. Qed.

(** Normal form: concatenation to the right, first characters outside. *)
Ltac norm_app := repeat first [rewrite string_app_assoc | rewrite local_cons | progress change ("" +:+ ?x) with x].

Section Local.
Context (fuel : nat).

Definition elements_at (l : list json) (x : string) (depth : Z) : Prop :=
  forall t, elements fuel depth (x +:+ t) = Some (l, t).
Definition members_at (l : list (string * string * json)) (x : string) (depth : Z) : Prop :=
  forall t, members fuel depth (x +:+ t) = Some (l, t).

Definition value_local_at : Prop := forall d s v r, value fuel d s = Some (v, r) ->
  exists x, s = x +:+ r /\ reads fuel d v x.
Definition elements_local_at : Prop := forall d s l r, elements fuel d s = Some (l, r) ->
  exists x, s = x +:+ r /\ elements_at l x d.
Definition members_local_at : Prop := forall d s l r, members fuel d s = Some (l, r) ->
  exists x, s = x +:+ r /\ members_at l x d /\ Forall (fun m => text_of m.2 m.1.2) l.
End Local.

Lemma elements_local_step fuel : value_local_at fuel -> elements_local_at fuel -> elements_local_at (S fuel).
Proof.
  intros Hv He d s l r. cbn [elements]. destruct (value fuel d (skip_ws s)) as [[v s1]|] eqn:Ev; [| done].
  destruct (Hv _ _ _ _ Ev) as (x & Hs & (c & p & -> & Hc) & Hx). rewrite local_cons in Hs.
  destruct (skip_ws_local s c (p +:+ s1) Hs) as (w & -> & Hw).
  destruct (skip_ws s1) as [|e s2] eqn:E1; [done |]. destruct (skip_ws_local s1 e s2 E1) as (w1 & -> & Hw1).
  assert (Hread : forall y, e ∈ [","; "]"; "}"]%char ->
    value fuel d (skip_ws (w +:+ String c (p +:+ w1 +:+ String e y))) = Some (v, w1 +:+ String e y)).
  { intros y Hin. rewrite Hw, <- local_cons. apply Hx, skip_ws_stops; [apply Hw1 | by apply stops_delim]. }
  destruct (e =?c ",") eqn:Hcomma; [| destruct (e =?c "]") eqn:Hend; [| done]].
  - apply char_eqb_eq in Hcomma as ->. destruct (elements fuel d s2) as [[l' r']|] eqn:Ee; [| done]. intros [= <- <-].
    destruct (He _ _ _ _ Ee) as (y & -> & Hy). exists (w +:+ String c (p +:+ w1 +:+ String "," y)).
    split; [by norm_app |]. intros t. norm_app. cbn [elements].
    rewrite Hread by (repeat constructor). rewrite Hw1. by rewrite (Hy t).
  - apply char_eqb_eq in Hend as ->. intros [= <- <-]. exists (w +:+ String c (p +:+ w1 +:+ String "]" "")).
    split; [by norm_app |]. intros t. norm_app. cbn [elements].
    rewrite Hread by (repeat constructor). by rewrite Hw1.
Qed.

Lemma members_local_step fuel : value_local_at fuel -> members_local_at fuel -> members_local_at (S fuel).
Proof.
  intros Hv He d s l r. cbn [members]. destruct (skip_ws s) as [|q s0] eqn:Eq; [done |].
  destruct (skip_ws_local s q s0 Eq) as (w0 & -> & Hw0). destruct (q =?c dq) eqn:Hq; [| done].
  destruct (scan_str s0) as [[k s1]|] eqn:Ek; [| done]. destruct (scan_str_local _ _ _ Ek) as [-> Hk].
  destruct (skip_ws s1) as [|o s2] eqn:Eo; [done |]. destruct (skip_ws_local s1 o s2 Eo) as (w1 & -> & Hw1).
  destruct (o =?c ":") eqn:Ho; [| done]. destruct (value fuel d (skip_ws s2)) as [[v s4]|] eqn:Ev; [| done].
  destruct (Hv _ _ _ _ Ev) as (x & Hs & (c & p & -> & Hc) & Hx). rewrite local_cons in Hs.
  destruct (skip_ws_local s2 c (p +:+ s4) Hs) as (w & -> & Hw).
  assert (Hraw : forall z, str_take (slen (String c (p +:+ z)) - slen z) (String c (p +:+ z)) = String c p).
  { intros z. rewrite <- local_cons, string_length_app. apply str_take_app. lia. }
  rewrite Hw, Hraw. destruct (skip_ws s4) as [|e s5] eqn:E1; [done |].
  destruct (skip_ws_local s4 e s5 E1) as (w2 & -> & Hw2).
  assert (Hread : forall y, e ∈ [","; "]"; "}"]%char ->
    value fuel d (String c (p +:+ w2 +:+ String e y)) = Some (v, w2 +:+ String e y)).
  { intros y Hin. rewrite <- local_cons. apply Hx, skip_ws_stops; [apply Hw2 | by apply stops_delim]. }
  assert (text_of v (String c p)) as Htext by (exists fuel, d; split; [by eexists _, _ | done]).
  destruct (e =?c ",") eqn:Hcomma; [| destruct (e =?c "}") eqn:Hend; [| done]].
  - apply char_eqb_eq in Hcomma as ->. destruct (members fuel d s5) as [[l' r']|] eqn:Ee; [| done]. intros [= <- <-].
    destruct (He _ _ _ _ Ee) as (y & -> & Hy & Hall).
    exists (w0 +:+ String q (k +:+ String dq (w1 +:+ String o (w +:+ String c (p +:+ w2 +:+ String "," y))))).
    split; [by norm_app |]. split; [| by constructor]. intros t. norm_app. cbn [members].
    rewrite Hw0, Hq, Hk, Hw1, Ho, Hw. rewrite Hread by (repeat constructor). rewrite Hraw, Hw2. by rewrite (Hy t).
  - apply char_eqb_eq in Hend as ->. intros [= <- <-].
    exists (w0 +:+ String q (k +:+ String dq (w1 +:+ String o (w +:+ String c (p +:+ w2 +:+ String "}" ""))))).
    split; [by norm_app |]. split; [| by constructor]. intros t. norm_app. cbn [members].
    rewrite Hw0, Hq, Hk, Hw1, Ho, Hw. rewrite Hread by (repeat constructor). by rewrite Hraw, Hw2.
Qed.

Lemma members_first fuel d s l r : members fuel d s = Some (l, r) -> exists c y, skip_ws s = String c y /\ (c =?c "}") = false.
Proof.
  destruct fuel; [done |]. cbn [members]. destruct (skip_ws s) as [|q s0]; [done |]. destruct (q =?c dq) eqn:Hq; [| done].
  intros _. exists q, s0. split; [done |]. by apply char_eqb_eq in Hq as ->.
Qed.

Lemma elements_first fuel d s l r : elements fuel d s = Some (l, r) -> exists c y, skip_ws s = String c y /\ (c =?c "]") = false.
Proof.
  destruct fuel as [|fuel]; [done |]. cbn [elements]. destruct (value fuel d (skip_ws s)) as [[v s1]|] eqn:Ev; [| done].
  intros _. destruct fuel; [done |]. destruct (skip_ws s) as [|c y]; [done |]. exists c, y. split; [done |].
  apply not_true_iff_false. intros ->%char_eqb_eq. done.
Qed.

Lemma literal_local w v s v' r d p : literal w v s = Some (v', r) -> w = String d p ->
  s = w +:+ r /\ forall t, literal w v (w +:+ t) = Some (v', t).
Proof.
  unfold literal. intros H _. destruct (cut_prefix w s) as [r'|] eqn:E; [| done]. injection H as <- <-.
  apply cut_prefix_spec in E as ->. split; [done |]. intros t. by rewrite (proj2 (cut_prefix_spec w (w +:+ t) t)).
Qed.

Lemma value_local_step fuel : elements_local_at fuel -> members_local_at fuel -> value_local_at (S fuel).
Proof.
  intros He Hm depth s v r. destruct s as [|c s1]; [done |]. cbn [value].
  assert (Hexit : forall x, s1 = x +:+ r -> is_ws c = false ->
    (forall t, stops t = true -> value (S fuel) depth (String c (x +:+ t)) = Some (v, t)) ->
    exists y, String c s1 = y +:+ r /\ reads (S fuel) depth v y).
  { intros x -> Hc Hx. exists (String c x). split; [by rewrite local_cons |]. split; [by eexists _, _ |]. done. }
  destruct (c =?c "{") eqn:C1; [| destruct (c =?c "[") eqn:C2; [| destruct (c =?c dq) eqn:C3]].
  - assert (is_ws c = false) as Hws by (by apply char_eqb_eq in C1 as ->).
    destruct (depth <=? 0) eqn:Hd; [done |]. destruct (skip_ws s1) as [|e s2] eqn:E1; [done |].
    destruct (e =?c "}") eqn:Ee.
    + intros [= <- <-]. destruct (skip_ws_local s1 e s2 E1) as (w & -> & Hw). apply (Hexit (w +:+ String e "")); [by norm_app | done |].
      intros t _. norm_app. cbn [value]. by rewrite C1, Hd, Hw, Ee.
    + destruct (members fuel (depth - 1) s1) as [[l r']|] eqn:Em; [| done]. intros [= <- <-].
      destruct (Hm _ _ _ _ Em) as (x & -> & Hx & _). apply (Hexit x); [done .. |]. intros t _. cbn [value].
      rewrite C1, Hd. destruct (members_first _ _ _ _ _ (Hx t)) as (e' & y & -> & ->). by rewrite Hx.
  - assert (is_ws c = false) as Hws by (by apply char_eqb_eq in C2 as ->).
    destruct (depth <=? 0) eqn:Hd; [done |]. destruct (skip_ws s1) as [|e s2] eqn:E1; [done |].
    destruct (e =?c "]") eqn:Ee.
    + intros [= <- <-]. destruct (skip_ws_local s1 e s2 E1) as (w & -> & Hw). apply (Hexit (w +:+ String e "")); [by norm_app | done |].
      intros t _. norm_app. cbn [value]. by rewrite C1, C2, Hd, Hw, Ee.
    + destruct (elements fuel (depth - 1) s1) as [[l r']|] eqn:Em; [| done]. intros [= <- <-].
      destruct (He _ _ _ _ Em) as (x & -> & Hx). apply (Hexit x); [done .. |]. intros t _. cbn [value].
      rewrite C1, C2, Hd. destruct (elements_first _ _ _ _ _ (Hx t)) as (e' & y & -> & ->). by rewrite Hx.
  - destruct (scan_str s1) as [[b r']|] eqn:Es; [| done]. intros [= <- <-]. destruct (scan_str_local _ _ _ Es) as [-> Ht].
    apply (Hexit (b +:+ String dq "")); [by norm_app | by apply char_eqb_eq in C3 as -> |].
    intros t _. norm_app. cbn [value]. by rewrite C1, C2, C3, Ht.
  - assert (Hlit : forall w' u d p, w' = String d p -> is_ws d = false ->
      (forall y, value (S fuel) depth (String d y) = literal w' u (String d y)) ->
      literal w' u (String c s1) = Some (v, r) -> exists y, String c s1 = y +:+ r /\ reads (S fuel) depth v y).
    { intros w' u d p -> Hws Hv Hl. destruct (literal_local _ _ _ _ _ d p Hl eq_refl) as [Hs Ht]. exists (String d p).
      split; [done |]. split; [by eexists _, _ |]. intros t _. rewrite <- (Ht t), local_cons. apply Hv. }
    destruct (c =?c "t") eqn:C4; [by apply (Hlit _ _ _ _ eq_refl) |].
    destruct (c =?c "f") eqn:C5; [by apply (Hlit _ _ _ _ eq_refl) |].
    destruct (c =?c "n") eqn:C6; [by apply (Hlit _ _ _ _ eq_refl) |].
    intros Hn. destruct (number_local _ _ _ Hn) as (c' & p & Hs & Hc & Ht). exists (String c' p). split; [done |].
    destruct (number_first c' Hc) as (Hws & N1 & N2 & N3 & N4 & N5 & N6). split; [by eexists _, _ |].
    intros t Hst. rewrite local_cons. cbn [value]. rewrite N1, N2, N3, N4, N5, N6, <- local_cons. by apply Ht.
Qed.

(** What a value, a list of elements or of members consumes is read the same wherever
    it stands. *)
Lemma local_all fuel : value_local_at fuel /\ elements_local_at fuel /\ members_local_at fuel.
Proof.
  induction fuel as [|fuel (Hv & He & Hm)]; [by split_and! |].
  split_and!; [by apply value_local_step | by apply elements_local_step | by apply members_local_step].
Qed.

(** * Facts: fuel and depth *)

(** The readers at [f], [d] answer no more than those at [f'], [d']. *)
Definition below (f f' : nat) (d d' : Z) (s : string) : Prop :=
  (forall x, value f d s = Some x -> value f' d' s = Some x) /\
  (forall x, elements f d s = Some x -> elements f' d' s = Some x) /\
  (forall x, members f d s = Some x -> members f' d' s = Some x).

Lemma below_step f f' d d' s :
  d <= d' -> (forall e e' s, e <= e' -> below f f' e e' s) -> below (S f) (S f') d d' s.
Proof.
  intros Hd IH. unfold below. cbn [value elements members]. split_and!; intros x.
  - destruct s as [|c s1]; [done |].
    destruct (c =?c "{"); [| destruct (c =?c "["); [| done]];
      (destruct (d <=? 0) eqn:E; [done |]; apply Z.leb_gt in E; rewrite (proj2 (Z.leb_gt d' 0)) by lia;
       destruct (skip_ws s1) as [|e s2]; [done |]; case_bool; [done |];
       destruct (IH (d - 1) (d' - 1) s1 ltac:(lia)) as (_ & He & Hm)).
    + destruct (members f (d - 1) s1); [| done]. by rewrite (Hm _ eq_refl).
    + destruct (elements f (d - 1) s1); [| done]. by rewrite (He _ eq_refl).
  - destruct (IH d d' (skip_ws s) Hd) as (Hv & _). destruct (value f d (skip_ws s)) as [[v s1]|]; [| done].
    rewrite (Hv _ eq_refl). destruct (skip_ws s1) as [|e s2]; [done |]. case_bool; [| done].
    destruct (IH d d' s2 Hd) as (_ & He & _). destruct (elements f d s2); [| done]. by rewrite (He _ eq_refl).
  - destruct (skip_ws s) as [|q s0]; [done |]. destruct (q =?c dq); [| done]. destruct (scan_str s0) as [[k s1]|]; [| done].
    destruct (skip_ws s1) as [|o s2]; [done |]. destruct (o =?c ":"); [| done].
    destruct (IH d d' (skip_ws s2) Hd) as (Hv & _). destruct (value f d (skip_ws s2)) as [[v s4]|]; [| done].
    rewrite (Hv _ eq_refl). destruct (skip_ws s4) as [|e s5]; [done |]. case_bool; [| done].
    destruct (IH d d' s5 Hd) as (_ & _ & Hm). destruct (members f d s5); [| done]. by rewrite (Hm _ eq_refl).
Qed.

Lemma below_mono f : forall f' d d' s, (f <= f')%nat -> d <= d' -> below f f' d d' s.
Proof.
  induction f as [|f IH]; [done |]. intros [|f'] d d' s Hf Hd; [lia |]. apply below_step; [done |].
  intros. apply IH; [lia | done].
Qed.

Lemma reads_mono f f' d d' v x : reads f d v x -> (f <= f')%nat -> d <= d' -> reads f' d' v x.
Proof.
  intros [Hx Ht] Hf Hd. split; [done |]. intros t Hs. destruct (below_mono f f' d d' (x +:+ t) Hf Hd) as (Hv & _).
  by apply Hv, Ht.
Qed.

Lemma value_shorter f d s v r : value f d s = Some (v, r) -> (slen r < slen s)%nat.
Proof.
  intros H. destruct (local_all f) as (Hv & _). destruct (Hv _ _ _ _ H) as (x & -> & (c & p & -> & _) & _).
  rewrite string_length_app. cbn. lia.
Qed.

Lemma skip_ws_shorter s : (slen (skip_ws s) <= slen s)%nat.
Proof. induction s as [|c s IH]; cbn; [done |]. destruct (is_ws c); cbn; lia. Qed.

Lemma scan_str_shorter s b r : scan_str s = Some (b, r) -> (slen r < slen s)%nat.
Proof. intros H. destruct (scan_str_local _ _ _ H) as [-> _]. rewrite string_length_app. cbn. lia. Qed.

(** Twice the length is fuel enough: more never answers more. *)
Definition capped (n : nat) : Prop := forall f f' d s, (slen s <= n)%nat ->
  ((2 * n + 1 <= f)%nat -> forall x, value f' d s = Some x -> value f d s = Some x) /\
  ((2 * n + 2 <= f)%nat -> forall x, elements f' d s = Some x -> elements f d s = Some x) /\
  ((2 * n + 2 <= f)%nat -> forall x, members f' d s = Some x -> members f d s = Some x).

Lemma capped_step n : (forall k, (k < n)%nat -> capped k) -> capped n.
Proof.
  intros IH.
  assert (Hprev : forall f f' d s, (slen s < n)%nat -> (2 * n <= f)%nat ->
    (forall x, elements f' d s = Some x -> elements f d s = Some x) /\
    (forall x, members f' d s = Some x -> members f d s = Some x)).
  { intros f f' d s Hs Hf. destruct (IH (slen s) Hs f f' d s ltac:(lia)) as (_ & He & Hm). split; [apply He | apply Hm]; lia. }
  assert (Hval : forall f f' d s, (slen s <= n)%nat -> (2 * n + 1 <= f)%nat ->
    forall x, value f' d s = Some x -> value f d s = Some x).
  { intros [|f] [|f'] d s Hs Hf x; [lia | lia | done |]. destruct s as [|c s1]; [done |]. cbn in Hs. cbn [value].
    destruct (Hprev f f' (d - 1) s1 ltac:(lia) ltac:(lia)) as [He Hm].
    destruct (c =?c "{"); [| destruct (c =?c "["); [| done]];
      (destruct (d <=? 0); [done |]; destruct (skip_ws s1) as [|e s2]; [done |]; case_bool; [done |]).
    - destruct (members f' (d - 1) s1); [| done]. by rewrite (Hm _ eq_refl).
    - destruct (elements f' (d - 1) s1); [| done]. by rewrite (He _ eq_refl). }
  intros f f' d s Hs. split; [intros; by eapply Hval |].
  destruct f' as [|f']; [done |]. split; (intros Hf x; destruct f as [|f]; [lia |]; cbn [elements members]).
  - pose proof (skip_ws_shorter s). destruct (value f' d (skip_ws s)) as [[v s1]|] eqn:Ev; [| done].
    rewrite (Hval f f' d (skip_ws s) ltac:(lia) ltac:(lia) _ Ev). apply value_shorter in Ev. pose proof (skip_ws_shorter s1).
    destruct (skip_ws s1) as [|e s2]; [done |]. cbn in *. case_bool; [| done].
    destruct (Hprev f f' d s2 ltac:(lia) ltac:(lia)) as [He _]. destruct (elements f' d s2); [| done]. by rewrite (He _ eq_refl).
  - pose proof (skip_ws_shorter s). destruct (skip_ws s) as [|q s0]; [done |]. cbn in *. destruct (q =?c dq); [| done].
    destruct (scan_str s0) as [[k s1]|] eqn:Ek; [| done]. apply scan_str_shorter in Ek. pose proof (skip_ws_shorter s1).
    destruct (skip_ws s1) as [|o s2]; [done |]. cbn in *. destruct (o =?c ":"); [| done]. pose proof (skip_ws_shorter s2).
    destruct (value f' d (skip_ws s2)) as [[v s4]|] eqn:Ev; [| done].
    rewrite (Hval f f' d (skip_ws s2) ltac:(lia) ltac:(lia) _ Ev). apply value_shorter in Ev. pose proof (skip_ws_shorter s4).
    destruct (skip_ws s4) as [|e s5]; [done |]. cbn in *. case_bool; [| done].
    destruct (Hprev f f' d s5 ltac:(lia) ltac:(lia)) as [_ Hm]. destruct (members f' d s5); [| done]. by rewrite (Hm _ eq_refl).
Qed.

Lemma fuel_enough n : capped n.
Proof. induction n as [n IH] using lt_wf_ind. by apply capped_step. Qed.

(** * Facts: reading back what is written *)

Lemma reads_front f d f' d' v v' x x' t t' :
  reads f d v x -> reads f' d' v' x' -> stops t = true -> stops t' = true ->
  x +:+ t = x' +:+ t' -> v = v' /\ x = x' /\ t = t'.
Proof.
  intros H H' Ht Ht' E.
  apply (reads_mono f (Nat.max f f') d (Z.max d d')) in H; [| lia | lia].
  apply (reads_mono f' (Nat.max f f') d' (Z.max d d')) in H'; [| lia | lia].
  pose proof (proj2 H t Ht) as E1. pose proof (proj2 H' t' Ht') as E2. rewrite E in E1. rewrite E1 in E2.
  injection E2 as -> ->. split; [done |]. split; [| done].
  pose proof (f_equal slen E) as Hl. rewrite !string_length_app in Hl. apply (str_app_inv x x' t' t'); [lia | done].
Qed.

(** Two texts at the front of one string, each in front of a delimiter, are the same. *)
Lemma text_front v v' x x' t t' : text_of v x -> text_of v' x' -> stops t = true -> stops t' = true ->
  x +:+ t = x' +:+ t' -> v = v' /\ x = x' /\ t = t'.
Proof. intros (f & d & H) (f' & d' & H'). by eapply reads_front. Qed.

Lemma app_nil_str s : s +:+ "" = s.
Proof. induction s as [|c s IH]; [done |]. by rewrite local_cons, IH. Qed.

(** A text whose nesting is within the limit parses to its value, whatever white space
    is around it. *)
Lemma parse_text f d v x : reads f d v x -> d <= maxNestingDepth -> parse x = Some v.
Proof.
  intros H Hd. pose proof (reads_mono _ f _ maxNestingDepth _ _ H ltac:(lia) Hd) as H'.
  unfold parse. destruct (proj1 H) as (c & p & Hx & Hc).
  assert (skip_ws x = x) as -> by (rewrite Hx; cbn; by rewrite Hc).
  assert (value (enough x) maxNestingDepth x = Some (v, "")) as ->; [| done].
  pose proof (proj2 H' "" eq_refl) as E. rewrite app_nil_str in E.
  destruct (fuel_enough (slen x) (enough x) f maxNestingDepth x ltac:(lia)) as (Hv & _). apply Hv; [unfold enough; lia | done].
Qed.

(** ** Strings *)

Definition ascii_text (s : string) : Prop := forall i c, String.get i s = Some c -> byte c < 128.

Lemma ascii_text_cons c s : ascii_text (String c s) <-> byte c < 128 /\ ascii_text s.
Proof.
  split.
  - intros H. split; [by apply (H 0%nat) |]. intros i d Hd. by apply (H (S i)).
  - intros [Hc H] [|i] d; cbn; [by intros [= <-] | apply H].
Qed.

Lemma escape_spec c : byte c < 128 ->
  (forall x, scan_str (escape c +:+ x) = (fun p => (escape c +:+ p.1, p.2)) <$> scan_str x) /\
  (forall x, unquote 0 (escape c +:+ x) = String c (unquote 0 x)).
Proof.
  intros H. destruct c as [[] [] [] [] [] [] [] []]; try (exfalso; revert H; vm_compute; congruence); clear H;
    split; intros x; reflexivity.
Qed.

Lemma byte_in_true i s lo hi : byte_in i s lo hi = true -> exists c, String.get i s = Some c /\ lo <= byte c <= hi.
Proof. unfold byte_in. destruct (String.get i s) as [c|]; [| done]. intros H. exists c. split; [done |]. unbool. lia. Qed.

(** The bytes a checked sequence continues with are not ASCII. *)
Lemma rune_tail_high s n : rune_tail s = Some n ->
  forall i c, (0 < i <= n)%nat -> String.get i s = Some c -> 128 <= byte c.
Proof.
  intros H i c Hi Hg.
  assert (exists hi lo, 128 <= lo /\ byte_in i s lo hi = true) as (hi & lo & Hlo & (c' & Hc' & Hb)%byte_in_true); [| assert (c = c') as -> by congruence; lia].
  revert H. unfold rune_tail. destruct (byte_in 0 s 194 223).
  { destruct (byte_in 1 s 128 191) eqn:E; [| done]. intros [= <-]. assert (i = 1%nat) as -> by lia. by exists 191, 128. }
  destruct (byte_in 0 s 224 239).
  { destruct (byte_in 1 s _ _) eqn:E1; [| done]. destruct (byte_in 2 s 128 191) eqn:E2; [| done]. intros [= <-].
    assert (i = 1 \/ i = 2)%nat as [-> | ->] by lia; [| by exists 191, 128]. eexists _, _. split; [| exact E1]. by case_bool. }
  destruct (byte_in 0 s 240 244); [| done].
  destruct (byte_in 1 s _ _) eqn:E1; [| done]. destruct (byte_in 2 s 128 191) eqn:E2; [| done].
  destruct (byte_in 3 s 128 191) eqn:E3; [| done]. intros [= <-].
  assert (i = 1 \/ i = 2 \/ i = 3)%nat as [-> | [-> | ->]] by lia; [| by exists 191, 128 ..].
  eexists _, _. split; [| exact E1]. by case_bool.
Qed.

Lemma high_byte c : 128 <= byte c -> (c =?c dq) = false /\ (byte c <? 32) = false /\ (c =?c bs) = false.
Proof.
  intros H. split_and!; [| lia |]; apply not_true_iff_false; intros ->%char_eqb_eq; revert H; vm_compute; congruence.
Qed.

(** The scanner takes a written string back as it is, whatever its bytes. *)
Lemma scan_quote s : forall k t, (forall i c, (i < k)%nat -> String.get i s = Some c -> 128 <= byte c) ->
  scan_str (quote_body k s +:+ String dq t) = Some (quote_body k s, t).
Proof.
  remember (slen s) as n eqn:Hn. revert s Hn. induction n as [n IH] using lt_wf_ind. intros [|c s1] -> k t Hk; [done |].
  cbn [quote_body]. destruct k as [|k].
  - destruct (byte c <? 128) eqn:Hc.
    + apply Z.ltb_lt in Hc. rewrite string_app_assoc. destruct (escape_spec c Hc) as [-> _].
      rewrite (IH (slen s1)) by (done || cbn; lia). done.
    + apply Z.ltb_ge in Hc. destruct (high_byte c Hc) as (H1 & H2 & H3).
      destruct (rune_tail (String c s1)) as [m|] eqn:Hr.
      * destruct (line_sep (String c s1)) eqn:Hl.
        -- unfold line_sep in Hl. apply andb_prop in Hl as [_ (d & Hd & Hb)%byte_in_true].
           destruct s1 as [|c1 [|c2 s3]]; [done .. |]. cbn in Hd. injection Hd as ->.
           assert (hex_digit (Z.land (byte d) 15) = "8"%char \/ hex_digit (Z.land (byte d) 15) = "9"%char) as Hx.
           { assert (byte d = 168 \/ byte d = 169) as [-> | ->] by lia; [by left | by right]. }
           pose proof (IH (slen s3) ltac:(cbn; lia) s3 eq_refl 0%nat t ltac:(intros; lia)) as Hs.
           destruct Hx as [-> | ->]; norm_app; cbn [scan_str]; cbn -[quote_body scan_str]; by rewrite Hs.
        -- rewrite local_cons. cbn [scan_str]. rewrite H1, H2, H3, (IH (slen s1)); [done | cbn; lia | done |].
           intros i d Hi Hd. by apply (rune_tail_high _ _ Hr (S i) d); [lia |].
      * rewrite string_app_assoc. change (scan_str (String bs "ufffd" +:+ ?x)) with ((fun p => (String bs "ufffd" +:+ p.1, p.2)) <$> scan_str x).
        rewrite (IH (slen s1)); [done | cbn; lia | done |]. intros; lia.
  - destruct (high_byte c (Hk 0%nat c ltac:(lia) eq_refl)) as (H1 & H2 & H3).
    rewrite local_cons. cbn [scan_str]. rewrite H1, H2, H3, (IH (slen s1)); [done | cbn; lia | done |].
    intros i d Hi Hd. by apply (Hk (S i) d); [lia |].
Qed.

Lemma reads_quote f d s : (0 < f)%nat -> reads f d (JStr (unquote 0 (quote_body 0 s))) (quote s).
Proof.
  intros Hf. split; [by eexists _, _ |]. intros t _. destruct f as [|f]; [lia |]. unfold quote. norm_app. cbn [value].
  change (dq =?c "{") with false. change (dq =?c "[") with false. change (dq =?c dq) with true. cbv iota.
  rewrite scan_quote by (intros; lia). done.
Qed.

Lemma unquote_quote s : ascii_text s -> unquote 0 (quote_body 0 s) = s.
Proof.
  induction s as [|c s IH]; [done |]. intros [Hc Hs]%ascii_text_cons. cbn [quote_body].
  rewrite (proj2 (Z.ltb_lt _ _) Hc). destruct (escape_spec c Hc) as [_ ->]. by rewrite IH.
Qed.

(** Reading what was written gives an ASCII string back. *)
Lemma reads_ascii f d s : (0 < f)%nat -> ascii_text s -> reads f d (JStr s) (quote s).
Proof. intros Hf Hs. rewrite <- (unquote_quote s Hs) at 1. by apply reads_quote. Qed.

(** ** Integers *)

Lemma pos_uint_head p : forall d, Pos.to_uint p <> Decimal.D0 d.
Proof.
  intros d H. pose proof (DecimalPos.Unsigned.to_of (Pos.to_uint p)) as E. rewrite DecimalPos.Unsigned.of_to in E. cbn in E.
  unfold Decimal.unorm in E. destruct (Decimal.nzhead (Pos.to_uint p)) eqn:Hz; rewrite H in E; try discriminate E.
  - injection E as ->. by apply (DecimalPos.Unsigned.to_uint_nonzero p).
  - by apply DecimalFacts.nzhead_nonzero in Hz.
Qed.

Lemma digits_uint d t : digits t = ("", t) ->
  digits (NilEmpty.string_of_uint d +:+ t) = (NilEmpty.string_of_uint d, t).
Proof. intros Ht. induction d as [|d IH|d IH|d IH|d IH|d IH|d IH|d IH|d IH|d IH|d IH]; cbn [NilEmpty.string_of_uint]; [exact Ht | ..]; rewrite local_cons; cbn [digits]; by rewrite IH. Qed.

Lemma scan_nat_uint d t : (forall d', d = Decimal.D0 d' -> d' = Decimal.Nil) -> d <> Decimal.Nil -> digits t = ("", t) ->
  scan_nat (NilZero.string_of_uint d +:+ t) = Some (NilZero.string_of_uint d, t).
Proof.
  intros H0 Hn Ht.
  assert (forall d, digits1 (NilEmpty.string_of_uint d +:+ t) = match NilEmpty.string_of_uint d with "" => None | x => Some (x, t) end) as Hd
    by (intros d'; unfold digits1; rewrite digits_uint by done; by destruct (NilEmpty.string_of_uint d')).
  destruct d as [| d | d | d | d | d | d | d | d | d | d]; [done | | exact (Hd (Decimal.D1 d)) | exact (Hd (Decimal.D2 d)) |
    exact (Hd (Decimal.D3 d)) | exact (Hd (Decimal.D4 d)) | exact (Hd (Decimal.D5 d)) | exact (Hd (Decimal.D6 d)) |
    exact (Hd (Decimal.D7 d)) | exact (Hd (Decimal.D8 d)) | exact (Hd (Decimal.D9 d))].
  by rewrite (H0 d eq_refl).
Qed.

Lemma Itoa_uint z : exists d, d <> Decimal.Nil /\ (forall d', d = Decimal.D0 d' -> d' = Decimal.Nil) /\ Z.of_uint d = Z.abs z /\
  Itoa z = (if z <? 0 then "-" else "") +:+ NilZero.string_of_uint d.
Proof.
  unfold Itoa. destruct z as [|p|p].
  - exists (Decimal.D0 Decimal.Nil). split_and!; [done | by intros d' [= <-] | done | done].
  - exists (Pos.to_uint p). split_and!; [apply DecimalPos.Unsigned.to_uint_nonnil | intros d' H; by apply pos_uint_head in H | | done].
    exact (DecimalZ.of_to (Z.pos p)).
  - exists (Pos.to_uint p). split_and!; [apply DecimalPos.Unsigned.to_uint_nonnil | intros d' H; by apply pos_uint_head in H | | done].
    exact (DecimalZ.of_to (Z.pos p)).
Qed.

Lemma reads_Itoa f d z : (0 < f)%nat -> reads f d (JInt z) (Itoa z).
Proof.
  intros Hf. destruct (Itoa_uint z) as (u & Hn & H0 & Hz & Hs). destruct (uint_head u Hn) as (c & p & Hu & Hc).
  assert (exists c' p', Itoa z = String c' p' /\ (c' =?c "-") || is_digit c' = true) as (c' & p' & Hi & Hc').
  { rewrite Hs, Hu. destruct (z <? 0); [by eexists _, _ |]. exists c, p. split; [done |]. by rewrite Hc, orb_true_r. }
  destruct (number_first c' Hc') as (Hws & N1 & N2 & N3 & N4 & N5 & N6). split; [by exists c', p' |].
  intros t Ht. destruct (stops_not_first t Ht) as (Hd & Hdot & Hee & HE). destruct f as [|f]; [lia |].
  rewrite Hi, local_cons. cbn [value]. rewrite N1, N2, N3, N4, N5, N6, <- local_cons, <- Hi, Hs. unfold number.
  assert (Hsign : scan_sign (fun c => c =?c "-") (((if z <? 0 then "-" else "") +:+ NilZero.string_of_uint u) +:+ t)
    = (if z <? 0 then "-" else "", NilZero.string_of_uint u +:+ t)).
  { destruct (z <? 0); [done |]. change ("" +:+ ?x) with x. rewrite Hu, local_cons. unfold scan_sign.
    by rewrite (digit_not c "-") by done. }
  rewrite Hsign, scan_nat_uint by done.
  assert (scan_frac t = Some ("", t)) as -> by (destruct t as [|x t]; [done |]; cbn in *; by rewrite Hdot).
  assert (scan_exp t = Some ("", t)) as -> by (destruct t as [|x t]; [done |]; cbn in *; by rewrite Hee, HE).
  rewrite parse_digits_to_uint by done. rewrite bool_decide_true by done. cbn [default]. rewrite Hz.
  do 2 f_equal. destruct (z <? 0) eqn:E; [rewrite bool_decide_false by done | rewrite bool_decide_true by done]; unbool; cbn; f_equal; lia.
Qed.

(** ** Objects *)

Lemma write_members_cons k x l : write_members ((k, x) :: l) =
  quote k +:+ String ":" (x +:+ match l with [] => "}" | _ => String "," (write_members l) end).
Proof. by destruct l. Qed.

(** A member that reads back: an ASCII name and the text of its value. *)
Definition readable (depth : Z) (m : string * string * json) : Prop :=
  ascii_text m.1.1 /\ exists f, reads f depth m.2 m.1.2.

Lemma reads_skip f d v x t : reads f d v x -> skip_ws (x +:+ t) = x +:+ t.
Proof. intros [(c & p & -> & Hc) _]. rewrite local_cons. cbn. by rewrite Hc. Qed.

Lemma members_write depth l t : l <> [] -> Forall (readable depth) l ->
  exists f, members f depth (write_members l.*1 +:+ t) = Some (l, t).
Proof.
  intros Hne Hl. induction Hl as [|[[k x] v] l [Hk [f Hx]] Hl IH]; [done |]. cbn in Hk, Hx.
  assert (Hmem : forall F d y, (f <= F)%nat -> d ∈ [","; "}"]%char ->
    members (S F) depth (quote k +:+ String ":" (x +:+ String d y)) =
    (if d =?c "," then (fun p => ((k, x, v) :: p.1, p.2)) <$> members F depth y else Some ([(k, x, v)], y))).
  { intros F d y HF Hd. assert (stops (String d y) = true) as Hst.
    { repeat (apply elem_of_cons in Hd as [-> | Hd]; [done |]). by apply not_elem_of_nil in Hd. }
    unfold quote. norm_app. cbn [members skip_ws]. change (is_ws dq) with false. cbv iota. change (dq =?c dq) with true. cbv iota.
    rewrite scan_quote by (intros; lia). cbn [skip_ws]. change (is_ws ":") with false. cbv iota. change (":" =?c ":") with true. cbv iota.
    rewrite (reads_skip _ _ _ _ _ Hx). rewrite (proj2 (reads_mono _ F _ depth _ _ Hx HF ltac:(lia)) _ Hst).
    rewrite string_length_app, str_take_app by lia. rewrite unquote_quote by done.
    repeat (apply elem_of_cons in Hd as [-> | Hd]; [done |]). by apply not_elem_of_nil in Hd. }
  rewrite fmap_cons. cbn [fst]. rewrite write_members_cons. destruct l as [|m l].
  - exists (S f). cbn [fmap list_fmap]. norm_app. rewrite Hmem by first [lia | repeat constructor]. done.
  - destruct IH as [f' IH]; [done |]. exists (S (Nat.max f f')). rewrite fmap_cons in *.
    norm_app. rewrite Hmem by first [lia | repeat constructor]. change ("," =?c ",") with true. cbv iota.
    destruct (below_mono f' (Nat.max f f') depth depth (write_members (m.1 :: l.*1) +:+ t) ltac:(lia) ltac:(lia)) as (_ & _ & Hm).
    by rewrite (Hm _ IH).
Qed.

Lemma parse_object_write l : Forall (readable (maxNestingDepth - 1)) l -> parse_object (write_object l.*1) = Some l.
Proof.
  intros Hl. destruct (decide (l = [])) as [-> | Hne]; [by vm_compute |].
  destruct (members_write _ l "" Hne Hl) as [f Hf]. rewrite app_nil_str in Hf.
  assert (Hm : members (enough (write_members l.*1)) (maxNestingDepth - 1) (write_members l.*1) = Some (l, "")).
  { destruct (fuel_enough (slen (write_members l.*1)) (enough (write_members l.*1)) f (maxNestingDepth - 1) (write_members l.*1) ltac:(lia)) as (_ & _ & H).
    apply H; [unfold enough; lia | done]. }
  destruct (members_first _ _ _ _ _ Hf) as (c & y & Hs & Hc).
  assert (Hv : value (enough (write_object l.*1)) maxNestingDepth (write_object l.*1) = Some (JObj ((fun m => (m.1.1, m.2)) <$> l), "")).
  { unfold write_object, enough. cbn [slen]. replace (2 * S (slen (write_members l.*1)) + 2)%nat with (S (S (enough (write_members l.*1)))) by (unfold enough; lia).
    cbn [value]. change ("{" =?c "{") with true. change (maxNestingDepth <=? 0) with false. cbv iota. rewrite Hs, Hc.
    destruct (below_mono (enough (write_members l.*1)) (S (enough (write_members l.*1))) (maxNestingDepth - 1) (maxNestingDepth - 1) (write_members l.*1) ltac:(lia) ltac:(lia)) as (_ & _ & H).
    by rewrite (H _ Hm). }
  unfold parse_object, parse. change (skip_ws (write_object l.*1)) with (write_object l.*1). rewrite Hv. cbn [skip_ws].
  rewrite bool_decide_true by done. destruct l as [|m l]; [done |]. rewrite fmap_cons at 1. unfold write_object.
  destruct (below_mono (enough (write_members (m :: l).*1)) (enough (String "{" (write_members (m :: l).*1))) (maxNestingDepth - 1) (maxNestingDepth - 1)
    (write_members (m :: l).*1) ltac:(unfold enough; cbn [slen]; lia) ltac:(lia)) as (_ & _ & H).
  by rewrite (H _ Hm).
Qed.

(** ** Arrays of integers *)

Lemma reads_int_array l : exists f, forall d, 0 < d -> reads f d (JArr (JInt <$> l)) (write_int_array l).
Proof.
  assert (forall l, l <> [] -> exists f, forall d t, elements f d (write_ints l +:+ t) = Some (JInt <$> l, t)) as Hl.
  { clear l. intros l Hne. induction l as [|z l IH]; [done |].
    assert (Hel : forall F d e y, (0 < F)%nat -> e ∈ [","; "]"]%char ->
      elements (S F) d (Itoa z +:+ String e y) =
      (if e =?c "," then (fun p => (JInt z :: p.1, p.2)) <$> elements F d y else Some ([JInt z], y))).
    { intros F d e y HF He. cbn [elements]. pose proof (reads_Itoa F d z HF) as Hr. rewrite (reads_skip _ _ _ _ _ Hr).
      assert (stops (String e y) = true) as Hst.
      { repeat (apply elem_of_cons in He as [-> | He]; [done |]). by apply not_elem_of_nil in He. }
      rewrite (proj2 Hr _ Hst). repeat (apply elem_of_cons in He as [-> | He]; [done |]). by apply not_elem_of_nil in He. }
    destruct l as [|z' l].
    - exists 2%nat. intros d t. cbn [write_ints]. norm_app. by rewrite Hel by first [lia | repeat constructor].
    - destruct IH as [f IH]; [done |]. exists (S (S f)). intros d t. change (write_ints (z :: z' :: l)) with (Itoa z +:+ String "," (write_ints (z' :: l))).
      norm_app. rewrite Hel by first [lia | repeat constructor]. change ("," =?c ",") with true. cbv iota.
      destruct (below_mono f (S f) d d (write_ints (z' :: l) +:+ t) ltac:(lia) ltac:(lia)) as (_ & H & _).
      by rewrite (H _ (IH d t)). }
  destruct (decide (l = [])) as [-> | Hne].
  - exists 1%nat. intros d Hd. split; [by eexists _, _ |]. intros t _. unfold write_int_array. norm_app. cbn [value].
    change ("[" =?c "{") with false. change ("[" =?c "[") with true. cbv iota. by rewrite (proj2 (Z.leb_gt d 0)) by done.
  - destruct (Hl l Hne) as [f Hf]. exists (S f). intros d Hd. split; [by eexists _, _ |]. intros t _. unfold write_int_array. norm_app. cbn [value].
    change ("[" =?c "{") with false. change ("[" =?c "[") with true. cbv iota. rewrite (proj2 (Z.leb_gt d 0)) by done.
    destruct (elements_first _ _ _ _ _ (Hf (d - 1) t)) as (c & y & -> & ->). by rewrite Hf.
Qed.

(** ** Compaction leaves compact texts alone *)

(** ASCII without the characters HTML could misread. *)
Fixpoint plain (s : string) : bool :=
  match s with
  | "" => true
  | String c s => (byte c <? 128) && negb ((c =?c "<") || (c =?c ">") || (c =?c "&")) && plain s
  end.

(** No white space outside strings, and every string closed. *)
Definition solid (x : string) : Prop := forall t, strip false false (x +:+ t) = x +:+ strip false false t.

Lemma plain_app a b : plain (a +:+ b) = plain a && plain b.
Proof. induction a as [|c a IH]; [done |]. rewrite local_cons. cbn [plain]. by rewrite IH, andb_assoc. Qed.

Lemma html_escape_plain s : plain s = true -> html_escape s = s.
Proof.
  induction s as [|c s IH]; [done |]. cbn [plain]. intros [[Hc Hn]%andb_prop Hs]%andb_prop. cbn [html_escape].
  apply negb_true_iff in Hn. rewrite Hn. assert (line_sep (String c s) = false) as ->; [| by rewrite IH].
  unfold line_sep, byte_in. cbn. unbool. by rewrite (proj2 (Z.leb_gt 226 (byte c))) by lia.
Qed.

Lemma solid_app a b : solid a -> solid b -> solid (a +:+ b).
Proof. intros Ha Hb t. by rewrite !string_app_assoc, Ha, Hb. Qed.

Lemma solid_char c : is_ws c = false -> (c =?c dq) = false -> solid (String c "").
Proof. intros Hw Hq t. norm_app. cbn. by rewrite Hw, Hq. Qed.

Lemma solid_cons c x : is_ws c = false -> (c =?c dq) = false -> solid x -> solid (String c x).
Proof. intros Hw Hq Hx. change (String c x) with (String c "" +:+ x). apply solid_app; [by apply solid_char | done]. Qed.

Lemma strip_escape c x : byte c < 128 -> strip true false (escape c +:+ x) = escape c +:+ strip true false x.
Proof.
  intros H. destruct c as [[] [] [] [] [] [] [] []]; try (exfalso; revert H; vm_compute; congruence); reflexivity.
Qed.

Lemma solid_quote s : ascii_text s -> solid (quote s).
Proof.
  intros Hs t. unfold quote. norm_app. cbn [strip]. change (is_ws dq) with false. change (dq =?c dq) with true. cbv iota. f_equal.
  induction s as [|c s IH]; [done |]. apply ascii_text_cons in Hs as [Hc Hs]. cbn [quote_body].
  rewrite (proj2 (Z.ltb_lt _ _) Hc). rewrite !string_app_assoc, strip_escape by done. by rewrite IH.
Qed.

Lemma plain_quote s : ascii_text s -> plain (quote s) = true.
Proof.
  intros Hs. unfold quote. cbn [plain]. rewrite plain_app. change (byte dq <? 128) with true. cbn.
  rewrite andb_true_r. induction s as [|c s IH]; [done |]. apply ascii_text_cons in Hs as [Hc Hs].
  cbn [quote_body]. rewrite (proj2 (Z.ltb_lt _ _) Hc), plain_app, IH by done. rewrite andb_true_r.
  clear -Hc. by destruct c as [[] [] [] [] [] [] [] []].
Qed.
