(* ===== verification/SchedulerWire.v ===== *)
(** The scheduler's wire contract (services/shared/schedulerwire): the rank
    snapshot the scheduler publishes and the proxies consume. *)
From S2P Require Import Prelude.

Definition MaxGPUPressure : Z := 3.

Record NodeRank : Type := mkNodeRank {
  nr_ID : string;
  nr_Pending : Z;
  nr_GPUPressure : Z;
  nr_Rank : Z
}.

#[export] Instance NodeRank_eq_dec : EqDecision NodeRank.
Proof. solve_decision. Defined.

Record Priority : Type := mkPriority { pr_Nodes : list string; pr_Ranks : list NodeRank }.

Record EnginePriority : Type := mkEnginePriority {
  ep_Engine : string;
  ep_Nodes : list string;
  ep_Ranks : list NodeRank
}.

(** [EnginePriority.Snapshot]: the payload without its engine, as the broker relays it. *)
Definition EnginePriority_Snapshot (p : EnginePriority) : Priority :=
  mkPriority (ep_Nodes p) (ep_Ranks p).
