(* ===== verification/Scheduler.v ===== *)
(** The job scheduler (services/nvpair-job-scheduler): the node universe, the
    workload catalogue and the GPU telemetry it keeps, the rank it derives from
    them, and the message loop that decides when to publish it. *)
From Stdlib Require Import SpecFloat.
From S2P Require Import Prelude.
From S2P Require Import SchedulerWire.

(** * Data *)

(** state.go: the part of a workload the scheduler reads. *)
Record workload : Type := mkWorkload {
  w_ID : string;
  w_Engine : string;
  w_RunID : string;
  w_State : string;
  w_OriginatedFrom : string;
  w_ScheduledOn : string
}.

Record wlKey : Type := mkWlKey {
  k_origin : string;
  k_engine : string;
  k_runID : string;
  k_id : string
}.

#[export] Instance workload_eq_dec : EqDecision workload.
Proof. solve_decision. Defined.

#[export] Instance wlKey_eq_dec : EqDecision wlKey.
Proof. solve_decision. Defined.

#[export] Instance wlKey_countable : Countable wlKey.
Proof.
  refine (inj_countable' (fun k => (k_origin k, k_engine k, k_runID k, k_id k))
            (fun '(o, e, r, i) => mkWlKey o e r i) _).
  by intros [].
Defined.

Record availableNode : Type := mkAvailableNode { an_ID : string; an_HostUUID : string }.

(** noderec.NodeTelemetry, decoded. *)
Record NodeTelemetry : Type := mkNodeTelemetry {
  nt_HostUUID : string;
  nt_GPUUtilizationPct : Z;
  nt_TelemetryValid : bool;
  nt_MSSince : Z;
  nt_SampleSeq : Z
}.

(** telemetry.go: the folded telemetry of one node. *)
Record gpuTelemetryState : Type := mkTelemetryState {
  ts_ewma : spec_float;
  ts_pressure : Z;
  ts_hasEWMA : bool;
  ts_valid : bool;
  ts_ageAtReceipt : Z;
  ts_receivedAt : Z;
  ts_lastSampleSeq : Z
}.

Definition zero_telemetry : gpuTelemetryState :=
  mkTelemetryState (S754_zero false) 0 false false 0 0 0.

(** schedule.go: what an engine was last sent. *)
Record engineState : Type := mkEngineState { es_ranks : list NodeRank; es_lastEmittedAt : Z }.

Definition zero_engineState : engineState := mkEngineState [] 0.

(** manager.go: the scheduler's memory.  [tickCh] holds the buffered forced tick. *)
Record Manager : Type := mkManager {
  m_interval : Z;
  m_nodes : gmap string bool;
  m_catalog : gmap wlKey workload;
  m_telemetry : gmap string gpuTelemetryState;
  m_emitted : gmap string engineState;
  m_tickCh : bool;
  m_cancelled : bool
}.

Definition schedulerEngines : list string := ["ollama"; "lmstudio"; "omlx"].

Definition intervalFloor : Z := 200 * millisecond.
Definition gpuTelemetryFreshness : Z := 10 * second.
Definition unknownGPUPressure : Z := 1.

(** * Telemetry (telemetry.go) *)

Definition pressureBand (utilization : spec_float) : Z :=
  if F64.lt utilization (F64.of_Z 40) then 0
  else if F64.lt utilization (F64.of_Z 70) then 1
  else if F64.lt utilization (F64.of_Z 85) then 2
  else 3.

Definition hysteresis_up (pressure : Z) : spec_float :=
  F64.of_Z (if pressure =? 0 then 40 else if pressure =? 1 then 70 else 85).

Definition hysteresis_down (pressure : Z) : spec_float :=
  F64.of_Z (if pressure =? 0 then 0 else if pressure =? 1 then 35
            else if pressure =? 2 then 65 else 80).

(** The two [for] loops; four rounds cover the four bands. *)
Fixpoint climb (fuel : nat) (utilization : spec_float) (pressure : Z) : Z :=
  match fuel with
  | O => pressure
  | S fuel =>
      if (pressure <? 3) && F64.ge utilization (hysteresis_up pressure)
      then climb fuel utilization (pressure + 1) else pressure
  end.

Fixpoint descend (fuel : nat) (utilization : spec_float) (pressure : Z) : Z :=
  match fuel with
  | O => pressure
  | S fuel =>
      if (0 <? pressure) && F64.lt utilization (hysteresis_down pressure)
      then descend fuel utilization (pressure - 1) else pressure
  end.

Definition pressureWithHysteresis (utilization : spec_float) (previous : Z) : Z :=
  if (previous <? 0) || (3 <? previous) then pressureBand utilization
  else descend 4 utilization (climb 4 utilization previous).

Definition normalizedTelemetryAge (ms : Z) : Z :=
  if ms <=? 0 then 0
  else if gpuTelemetryFreshness / millisecond <? ms
  then gpuTelemetryFreshness + millisecond
  else wrap64 (ms * millisecond).

Definition telemetryFreshAt (state : gpuTelemetryState) (now : Z) : bool :=
  if negb (ts_valid state) then false
  else
    let elapsed := Z.max 0 (time_sub now (ts_receivedAt state)) in
    wrap64 (ts_ageAtReceipt state + elapsed) <=? gpuTelemetryFreshness.

Definition effectiveGPUPressure (state : gpuTelemetryState) (exists_ : bool) (now : Z) : Z :=
  if negb exists_ || negb (telemetryFreshAt state now) then unknownGPUPressure
  else ts_pressure state.

Definition gpuEWMAAlpha : spec_float := F64.div (F64.of_Z 35) (F64.of_Z 100).
Definition gpuEWMAComplement : spec_float := F64.div (F64.of_Z 65) (F64.of_Z 100).

(** The state [applyTelemetryAt] stores for the node. *)
Definition fold_sample (previous : gpuTelemetryState) (existed : bool)
    (value : NodeTelemetry) (receivedAt : Z) : gpuTelemetryState :=
  let ageAtReceipt := normalizedTelemetryAge (nt_MSSince value) in
  let incomingFresh := nt_TelemetryValid value && (ageAtReceipt <=? gpuTelemetryFreshness) in
  let utilization :=
    if 100 <? nt_GPUUtilizationPct value then 100 else nt_GPUUtilizationPct value in
  if negb incomingFresh then
    mkTelemetryState (ts_ewma previous) (ts_pressure previous) (ts_hasEWMA previous)
      false ageAtReceipt receivedAt (ts_lastSampleSeq previous)
  else if negb (nt_SampleSeq value =? 0)
          && (ts_lastSampleSeq previous =? nt_SampleSeq value) then
    mkTelemetryState (ts_ewma previous) (ts_pressure previous) (ts_hasEWMA previous)
      true ageAtReceipt receivedAt (nt_SampleSeq value)
  else
    let previousFresh := existed && telemetryFreshAt previous receivedAt in
    let '(ewma, pressure) :=
      if negb previousFresh || negb (ts_hasEWMA previous) then
        let e := F64.of_Z utilization in (e, pressureBand e)
      else
        let e := F64.add (F64.mul gpuEWMAAlpha (F64.of_Z utilization))
                         (F64.mul gpuEWMAComplement (ts_ewma previous)) in
        (e, pressureWithHysteresis e (ts_pressure previous)) in
    mkTelemetryState ewma pressure true true ageAtReceipt receivedAt (nt_SampleSeq value).

Definition set_telemetry (m : Manager) (t : gmap string gpuTelemetryState) : Manager :=
  mkManager (m_interval m) (m_nodes m) (m_catalog m) t (m_emitted m) (m_tickCh m) (m_cancelled m).

Definition applyTelemetryAt (m : Manager) (value : NodeTelemetry) (receivedAt : Z)
    : Manager * bool :=
  if bool_decide (nt_HostUUID value = "") then (m, false)
  else
    let entry := m_telemetry m !! nt_HostUUID value in
    let existed := bool_decide (is_Some entry) in
    let previous := default zero_telemetry entry in
    let previousPressure := effectiveGPUPressure previous existed receivedAt in
    let next := fold_sample previous existed value receivedAt in
    (set_telemetry m (<[nt_HostUUID value := next]> (m_telemetry m)),
     negb (previousPressure =? effectiveGPUPressure next true receivedAt)).

(** * The catalogue and the node universe (state.go) *)

Definition isPending (w : workload) : bool :=
  bool_decide (w_State w = "queued") || bool_decide (w_State w = "running").

Definition pendingNode (w : workload) : string :=
  if isPending w then w_ScheduledOn w else "".

Definition zero_workload : workload := mkWorkload "" "" "" "" "" "".

(** [nil] reads as false, so a missing id of [b] fails the test. *)
Definition sameNodeSet (a b : gmap string bool) : bool :=
  bool_decide (size a = size b)
  && forallb (fun id => default false (b !! id)) (map_to_list a).*1.

Definition node_set (nodes : list availableNode) : gmap string bool :=
  foldl (fun set n => if bool_decide (an_HostUUID n = "") then set
                      else <[an_HostUUID n := true]> set) ∅ nodes.

Definition applyNodesChanged (m : Manager) (nodes : option (list availableNode))
    : Manager * bool :=
  match nodes with
  | None => (m, false)
  | Some nodes =>
      let set := node_set nodes in
      let telemetry := filter (fun '(h, _) => default false (set !! h) = true) (m_telemetry m) in
      (mkManager (m_interval m) set (m_catalog m) telemetry (m_emitted m) (m_tickCh m)
         (m_cancelled m),
       negb (sameNodeSet (m_nodes m) set))
  end.

Definition set_catalog (m : Manager) (c : gmap wlKey workload) : Manager :=
  mkManager (m_interval m) (m_nodes m) c (m_telemetry m) (m_emitted m) (m_tickCh m)
    (m_cancelled m).

Definition key_of (w : workload) : wlKey :=
  mkWlKey (w_OriginatedFrom w) (w_Engine w) (w_RunID w) (w_ID w).

Definition applyUpsert (m : Manager) (p : option workload) : Manager * bool :=
  match p with
  | None => (m, false)
  | Some w =>
      if bool_decide (w_ID w = "") then (m, false)
      else
        let entry := m_catalog m !! key_of w in
        let previousNode := pendingNode (default zero_workload entry) in
        if negb (isPending w) then
          (set_catalog m (delete (key_of w) (m_catalog m)),
           bool_decide (is_Some entry) && negb (bool_decide (previousNode = "")))
        else
          (set_catalog m (<[key_of w := w]> (m_catalog m)),
           negb (bool_decide (previousNode = w_ScheduledOn w)))
  end.

Definition removal_matches (origin id : string) (k : wlKey) : bool :=
  bool_decide (k_origin k = origin) && bool_decide (k_id k = id).

(** The removal wire: (workloadId, originatedFrom). *)
Definition applyRemove (m : Manager) (p : option (string * string)) : Manager * bool :=
  match p with
  | None => (m, false)
  | Some (id, origin) =>
      (set_catalog m (filter (fun '(k, _) => removal_matches origin id k = false) (m_catalog m)),
       existsb (fun '(k, w) => removal_matches origin id k
                               && negb (bool_decide (pendingNode w = "")))
         (map_to_list (m_catalog m)))
  end.

(** * Ranking (schedule.go) *)

Definition rank_less (a b : NodeRank) : bool :=
  let leftLoad := nr_Pending a + nr_GPUPressure a in
  let rightLoad := nr_Pending b + nr_GPUPressure b in
  if negb (leftLoad =? rightLoad) then leftLoad <? rightLoad
  else if negb (nr_GPUPressure a =? nr_GPUPressure b) then nr_GPUPressure a <? nr_GPUPressure b
  else str_ltb (nr_ID a) (nr_ID b).

Definition count_pending (nodes : gmap string bool) (ws : list workload) : gmap string Z :=
  foldl (fun pending w =>
           if negb (isPending w) then pending
           else if bool_decide (w_ScheduledOn w = "") then pending
           else match nodes !! w_ScheduledOn w with
                | Some _ => <[w_ScheduledOn w := default 0 (pending !! w_ScheduledOn w) + 1]> pending
                | None => pending
                end)
    ((fun _ => 0) <$> nodes) ws.

Definition number_ranks (ranks : list NodeRank) : list NodeRank :=
  imap (fun i r => mkNodeRank (nr_ID r) (nr_Pending r) (nr_GPUPressure r) (Z.of_nat i)) ranks.

Section Ranking.
Context `{!MapRange}.

Definition rankAt (m : Manager) (now : Z) : list string * list NodeRank :=
  let pending := count_pending (m_nodes m) (range (m_catalog m)).*2 in
  let ranks :=
    (fun '(id, _) =>
       let entry := m_telemetry m !! id in
       mkNodeRank id (default 0 (pending !! id))
         (effectiveGPUPressure (default zero_telemetry entry) (bool_decide (is_Some entry)) now) 0)
      <$> range (m_nodes m) in
  let sorted := number_ranks (sort_by rank_less ranks) in
  (nr_ID <$> sorted, sorted).
End Ranking.

(** * Publication and the message loop (schedule.go, manager.go) *)

Record EngineSchedule : Type := mkEngineSchedule {
  sch_Engine : string;
  sch_Emitted : list NodeRank;
  sch_LastEmittedAt : Z
}.

Record statusResult : Type := mkStatus { st_IntervalMs : Z; st_Engines : list EngineSchedule }.

(** What the manager writes to its parent. *)
Inductive output : Type :=
| NotifyPriority (p : EnginePriority)
| RespondOK
| RespondLevel (level : string)
| RespondStatus (s : statusResult)
| RespondInterval (ms : Z)
| RespondTicked
| RespondError (code : Z).

Definition equalRanks (a b : list NodeRank) : bool :=
  if negb (Nat.eqb (length a) (length b)) then false
  else forallb (fun '(x, y) => bool_decide (x = y)) (zip a b).

Definition set_emitted (m : Manager) (e : gmap string engineState) : Manager :=
  mkManager (m_interval m) (m_nodes m) (m_catalog m) (m_telemetry m) e (m_tickCh m)
    (m_cancelled m).

Definition emitIfChanged (m : Manager) (engine : string) (order : list string)
    (ranks : list NodeRank) (force : bool) (now : Z) : Manager * list output :=
  let prev := default zero_engineState (m_emitted m !! engine) in
  let changed := force || negb (equalRanks (es_ranks prev) ranks) in
  if changed then
    (set_emitted m (<[engine := mkEngineState ranks (now / millisecond)]> (m_emitted m)),
     [NotifyPriority (mkEnginePriority engine order ranks)])
  else (m, []).

Definition status (m : Manager) : statusResult :=
  mkStatus (m_interval m / millisecond)
    ((fun e => let st := default zero_engineState (m_emitted m !! e) in
               mkEngineSchedule e (es_ranks st) (es_lastEmittedAt st)) <$> schedulerEngines).

(** The messages of the read loop, decoded: [None] is a payload
    [json.Unmarshal] rejects.  [log/set-level] is resolved by the shared logger. *)
Inductive message : Type :=
| SetLevel (is_request : bool) (resolved : option string)
| NodesChanged (p : option (list availableNode))
| Upsert (p : option workload)
| Remove (p : option (string * string))
| Telemetry (p : option NodeTelemetry)
| OtherNotification (method : string)
| ReqHealth
| ReqGetStatus
| ReqGetInterval
| ReqSetInterval (p : option Z)
| ReqTick
| ReqShutdown
| ReqUnknown (method : string).

Inductive event : Type :=
| Message (msg : message)
| TickReceived
| TimerFired.

Definition set_interval (m : Manager) (d : Z) : Manager :=
  mkManager d (m_nodes m) (m_catalog m) (m_telemetry m) (m_emitted m) (m_tickCh m) (m_cancelled m).

Definition set_tick (m : Manager) (b : bool) : Manager :=
  mkManager (m_interval m) (m_nodes m) (m_catalog m) (m_telemetry m) (m_emitted m) b (m_cancelled m).

Definition cancel (m : Manager) : Manager :=
  mkManager (m_interval m) (m_nodes m) (m_catalog m) (m_telemetry m) (m_emitted m) (m_tickCh m) true.

Definition NewManager (interval : Z) : Manager :=
  mkManager (if interval <? intervalFloor then intervalFloor else interval) ∅ ∅ ∅ ∅ false false.

Section Loop.
Context `{!MapRange}.

Definition recomputeAll (m : Manager) (force : bool) (now : Z) : Manager * list output :=
  let '(order, ranks) := rankAt m now in
  foldl (fun '(m, out) e =>
           let '(m', o) := emitIfChanged m e order ranks force now in (m', out ++ o))
    (m, []) schedulerEngines.

(** The notification [switch] of [handleMessage]: the new state and [changed]. *)
Definition applyNotification (m : Manager) (msg : message) (now : Z) : Manager * bool :=
  match msg with
  | NodesChanged p => applyNodesChanged m p
  | Upsert p => applyUpsert m p
  | Remove p => applyRemove m p
  | Telemetry (Some v) => applyTelemetryAt m v now
  | _ => (m, false)
  end.

Definition handleMessage (m : Manager) (msg : message) (now : Z) : Manager * list output :=
  match msg with
  | SetLevel true None => (m, [RespondError (-32602)])
  | SetLevel true (Some l) => (m, [RespondLevel l])
  | SetLevel false _ => (m, [])
  | NodesChanged _ | Upsert _ | Remove _ | Telemetry _ | OtherNotification _ =>
      let '(m', changed) := applyNotification m msg now in
      if changed then recomputeAll m' false now else (m', [])
  | ReqHealth => (m, [RespondOK])
  | ReqGetStatus => (m, [RespondStatus (status m)])
  | ReqGetInterval => (m, [RespondInterval (m_interval m / millisecond)])
  | ReqSetInterval p =>
      match p with
      | Some ms =>
          if ms <=? 0 then (m, [RespondError (-32602)])
          else
            let d := wrap64 (ms * millisecond) in
            let d := if d <? intervalFloor then intervalFloor else d in
            (set_interval m d, [RespondInterval (d / millisecond)])
      | None => (m, [RespondError (-32602)])
      end
  | ReqTick => (set_tick m true, [RespondTicked])
  | ReqShutdown => (cancel m, [RespondOK])
  | ReqUnknown _ => (m, [RespondError (-32601)])
  end.

(** One scheduling of the process: the read loop handles a message, or the
    schedule loop takes the buffered tick or its timer.  Nothing runs once the
    context is cancelled. *)
Definition step (m : Manager) (ev : event) (now : Z) : Manager * list output :=
  if m_cancelled m then (m, [])
  else match ev with
       | Message msg => handleMessage m msg now
       | TickReceived => if m_tickCh m then recomputeAll (set_tick m false) true now else (m, [])
       | TimerFired => recomputeAll m false now
       end.

Definition run (m : Manager) (evs : list (event * Z)) : Manager * list output :=
  foldl (fun '(m, out) '(ev, now) => let '(m', o) := step m ev now in (m', out ++ o))
    (m, []) evs.
End Loop.

(** * Ranking: the specification *)

#[export] Instance rank_less_strict_weak : StrictWeak rank_less.
Proof.
  split; unfold rank_less.
  - intros [ia pa ga ra] [ib pb gb rb]; simpl. repeat case_bool; unbool; intros; try lia.
    by apply str_ltb_asym.
  - intros [ia pa ga ra] [ib pb gb rb] [ic pc gc rc]; simpl.
    repeat case_bool; unbool; intros; unbool; try lia. by eapply str_ltb_ntrans.
Qed.

Lemma rank_less_separates (x y : NodeRank) :
  nr_Rank x = 0 -> nr_Rank y = 0 -> rank_less x y = false -> rank_less y x = false -> x = y.
Proof.
  unfold rank_less. destruct x as [ix px gx rx], y as [iy py gy ry]; simpl.
  repeat case_bool; unbool; intros; unbool; try lia.
  assert (ix = iy) as -> by (by apply str_ltb_total). f_equal; lia.
Qed.

(** The work that counts towards a node: queued or running, and placed there. *)
Definition places_on (id : string) (w : workload) : bool :=
  negb (bool_decide (id = "")) && bool_decide (pendingNode w = id).

Lemma count_pending_lookup nodes ws id :
  is_Some (nodes !! id) ->
  count_pending nodes ws !! id = Some (Z.of_nat (length (List.filter (places_on id) ws))).
Proof.
  intros [b Hid]. unfold count_pending.
  assert (forall (pending : gmap string Z) k,
    pending !! id = Some (Z.of_nat k) ->
    foldl (fun pending w =>
           if negb (isPending w) then pending
           else if bool_decide (w_ScheduledOn w = "") then pending
           else match nodes !! w_ScheduledOn w with
                | Some _ => <[w_ScheduledOn w := default 0 (pending !! w_ScheduledOn w) + 1]> pending
                | None => pending
                end) pending ws !! id
    = Some (Z.of_nat (k + length (List.filter (places_on id) ws)))) as Hgo.
  { induction ws as [|w ws IH]; intros pending k Hk; simpl; [by rewrite Nat.add_0_r |].
    unfold places_on at 1, pendingNode.
    destruct (isPending w) eqn:Ep; simpl.
    - destruct (decide (w_ScheduledOn w = id)) as [Hw | Hw].
      + rewrite Hw. destruct (decide (id = "")) as [-> | Hne].
        * simpl. by apply IH.
        * rewrite !bool_decide_eq_false_2 by done. rewrite bool_decide_eq_true_2 by done.
          rewrite Hid, Hk. simpl.
          rewrite (IH _ (S k)); [do 2 f_equal; lia |].
          rewrite lookup_insert_eq. simpl. do 2 f_equal. lia.
      + rewrite (bool_decide_eq_false_2 (w_ScheduledOn w = id)) by done.
        rewrite andb_false_r. simpl.
        repeat case_match; try by apply IH.
        all: apply IH; by rewrite lookup_insert_ne.
    - destruct (decide (id = "")) as [-> | Hne]; simpl; [by apply IH |].
      rewrite (bool_decide_eq_false_2 ("" = id)) by done. rewrite andb_false_r.
      by apply IH. }
  rewrite (Hgo _ 0%nat); [done |]. by rewrite lookup_fmap, Hid.
Qed.

(** The unsorted rank entry of one node. *)
Definition node_pressure (m : Manager) (now : Z) (id : string) : Z :=
  effectiveGPUPressure (default zero_telemetry (m_telemetry m !! id))
    (bool_decide (is_Some (m_telemetry m !! id))) now.

Definition rank_entry (m : Manager) (now : Z) (id : string) : NodeRank :=
  mkNodeRank id (Z.of_nat (map_count (places_on id) (m_catalog m))) (node_pressure m now id) 0.

Lemma rankAt_eq `{!MapRange} m now :
  rankAt m now =
    let sorted := number_ranks (sort_by rank_less (rank_entry m now <$> (range (m_nodes m)).*1)) in
    (nr_ID <$> sorted, sorted).
Proof.
  unfold rankAt. cbv zeta.
  assert (forall l1 l2 : list NodeRank, l1 = l2 ->
    (nr_ID <$> number_ranks (sort_by rank_less l1), number_ranks (sort_by rank_less l1)) =
    (nr_ID <$> number_ranks (sort_by rank_less l2), number_ranks (sort_by rank_less l2)))
    as Hc by congruence.
  apply Hc. clear Hc. rewrite <- list_fmap_compose. apply list_fmap_ext. intros i [id b] Hi.
  unfold rank_entry, node_pressure, map_count; simpl.
  rewrite count_pending_lookup.
  - simpl. f_equal. f_equal. apply filter_length_perm. by rewrite range_perm.
  - exists b. apply elem_of_range. by eapply list_elem_of_lookup_2.
Qed.

(** Two states rank alike, whatever the iteration orders, when they have the same
    nodes and agree on each node's pending count and pressure. *)
Lemma rankAt_congr (R1 R2 : MapRange) m1 m2 now1 now2 :
  dom (m_nodes m1) = dom (m_nodes m2) ->
  (forall id, id ∈ dom (m_nodes m1) -> rank_entry m1 now1 id = rank_entry m2 now2 id) ->
  @rankAt R1 m1 now1 = @rankAt R2 m2 now2.
Proof.
  intros Hdom Hent. rewrite !rankAt_eq.
  assert (rank_entry m1 now1 <$> (@range R1 _ _ _ _ (m_nodes m1)).*1 ≡ₚ
          rank_entry m2 now2 <$> (@range R2 _ _ _ _ (m_nodes m2)).*1) as Hp.
  { apply NoDup_Permutation.
    - apply NoDup_fmap_2_strong; [by intros ???? [=] | apply NoDup_fst_range].
    - apply NoDup_fmap_2_strong; [by intros ???? [=] | apply NoDup_fst_range].
    - intros x. rewrite !list_elem_of_fmap.
      setoid_rewrite elem_of_fst_range. setoid_rewrite <- elem_of_dom.
      split; intros (id & -> & Hid); exists id.
      + split; [by apply Hent | by rewrite <- Hdom].
      + rewrite <- Hdom in Hid. split; [by rewrite Hent | done]. }
  cbv zeta. erewrite (sort_by_unique rank_less); [done | | exact Hp].
  intros x y Hx Hy. apply rank_less_separates.
  - by apply list_elem_of_fmap in Hx as (? & -> & _).
  - by apply list_elem_of_fmap in Hy as (? & -> & _).
Qed.

(** * Pressure bands *)

(** Each band's lower exit lies below the threshold that entered it. *)
Lemma band_thresholds u r :
  0 <= r < 3 -> F64.ge u (hysteresis_up r) = true -> F64.lt u (hysteresis_down (r + 1)) = false.
Proof.
  intros Hr Hge. apply F64.ge_not_lt in Hge.
  destruct (F64.lt u (hysteresis_down (r + 1))) eqn:E; [| done].
  assert (F64.lt (hysteresis_down (r + 1)) (hysteresis_up r) = true) as Hab.
  { assert (r = 0 \/ r = 1 \/ r = 2) as [-> | [-> | ->]] by lia; reflexivity. }
  pose proof (F64.lt_trans _ _ _ E Hab). congruence.
Qed.

Lemma climb_spec fuel u p :
  0 <= p <= 3 -> 3 - p <= Z.of_nat fuel ->
  let r := climb fuel u p in
  p <= r <= 3 /\ (r < 3 -> F64.ge u (hysteresis_up r) = false) /\
  (p < r -> F64.ge u (hysteresis_up (r - 1)) = true).
Proof.
  revert p. induction fuel as [|fuel IH]; intros p Hp Hf; cbn [climb]; [lia |].
  case_bool; unbool.
  - specialize (IH (p + 1) ltac:(lia) ltac:(lia)). cbv zeta in IH.
    destruct IH as (H1 & H2 & H3). repeat split; [lia | lia | done |]. intros _.
    destruct (decide (p + 1 < climb fuel u (p + 1))) as [? | ?]; [by apply H3 |].
    by replace (climb fuel u (p + 1) - 1) with p by lia.
  - repeat split; try lia. intros ?. by apply andb_false_iff in Heqb as [? | ?]; unbool; [lia |].
Qed.

Lemma descend_spec fuel u p :
  0 <= p <= 3 -> p <= Z.of_nat fuel ->
  let r := descend fuel u p in
  0 <= r <= p /\ (0 < r -> F64.lt u (hysteresis_down r) = false) /\
  (r < p -> F64.lt u (hysteresis_down (r + 1)) = true).
Proof.
  revert p. induction fuel as [|fuel IH]; intros p Hp Hf; cbn [descend]; [repeat split; lia |].
  case_bool; unbool.
  - specialize (IH (p - 1) ltac:(lia) ltac:(lia)). cbv zeta in IH.
    destruct IH as (H1 & H2 & H3). repeat split; [lia | lia | done |]. intros _.
    destruct (decide (descend fuel u (p - 1) < p - 1)) as [? | ?]; [by apply H3 |].
    by replace (descend fuel u (p - 1) + 1) with p by lia.
  - repeat split; try lia. intros ?. by apply andb_false_iff in Heqb as [? | ?]; unbool; [lia |].
Qed.

Lemma pressureBand_range u : 0 <= pressureBand u <= 3.
Proof. unfold pressureBand. repeat case_bool; lia. Qed.

(** Where the hysteresis settles: a band neither loop wants to leave. *)
Definition settled (u : spec_float) (r : Z) : Prop :=
  0 <= r <= 3 /\ (r < 3 -> F64.ge u (hysteresis_up r) = false) /\
  (0 < r -> F64.lt u (hysteresis_down r) = false).

Lemma settled_stable u r : settled u r -> pressureWithHysteresis u r = r.
Proof.
  intros (Hr & Hup & Hdown). unfold pressureWithHysteresis. case_bool; unbool.
  { apply orb_true_iff in Heqb as [? | ?]; unbool; lia. }
  assert (climb 4 u r = r) as ->.
  { cbn [climb]. case_bool; [| done]. unbool. rewrite Hup in * by lia. discriminate. }
  cbn [descend]. case_bool; [| done]. unbool. rewrite Hdown in * by lia. discriminate.
Qed.

Lemma hysteresis_settles u p : 0 <= p <= 3 -> settled u (pressureWithHysteresis u p).
Proof.
  intros Hp. unfold settled, pressureWithHysteresis. case_bool; unbool.
  { apply orb_true_iff in Heqb as [? | ?]; unbool; lia. }
  destruct (climb_spec 4 u p Hp ltac:(lia)) as (C1 & C2 & C3).
  set (c := climb 4 u p) in *.
  destruct (descend_spec 4 u c ltac:(lia) ltac:(lia)) as (D1 & D2 & D3).
  set (d := descend 4 u c) in *.
  repeat split; [lia | lia | | done]. intros Hd.
  destruct (decide (d < c)) as [Hlt | Hge].
  - destruct (F64.ge u (hysteresis_up d)) eqn:E; [| done].
    apply band_thresholds in E; [| lia]. rewrite D3 in E; [done | lia].
  - replace d with c in * by lia. by apply C2.
Qed.

Lemma band_settles u : settled u (pressureBand u).
Proof.
  assert (forall a b, F64.lt (F64.of_Z a) (F64.of_Z b) = true ->
    F64.lt u (F64.of_Z b) = false -> F64.lt u (F64.of_Z a) = false) as Hdn.
  { intros a b Hab Hb. destruct (F64.lt u (F64.of_Z a)) eqn:E; [| done].
    pose proof (F64.lt_trans _ _ _ E Hab). congruence. }
  assert (forall t, F64.lt u t = true -> F64.ge u t = false) as Hup.
  { intros t Ht. destruct (F64.ge u t) eqn:E; [| done].
    apply F64.ge_not_lt in E. congruence. }
  split; [apply pressureBand_range |]. unfold pressureBand.
  repeat case_bool; split; intros; try lia; cbn;
    first [by apply Hup | by apply (Hdn _ 40) | by apply (Hdn _ 70) | by apply (Hdn _ 85)].
Qed.

Lemma pressureWithHysteresis_settled u p : settled u (pressureWithHysteresis u p).
Proof.
  destruct (decide (0 <= p <= 3)) as [Hp | Hp]; [by apply hysteresis_settles |].
  replace (pressureWithHysteresis u p) with (pressureBand u); [apply band_settles |].
  unfold pressureWithHysteresis. case_bool; [done |]. unbool. lia.
Qed.

(** * Change detection *)

Lemma equalRanks_spec a b : equalRanks a b = true <-> a = b.
Proof.
  unfold equalRanks. case_bool; unbool.
  - split; [done |]. intros ->. by rewrite Nat.eqb_refl in Heqb0.
  - apply Nat.eqb_eq in Heqb0. revert b Heqb0.
    induction a as [|x a IH]; intros [|y b] Hlen; try done.
    simpl. rewrite andb_true_iff, bool_decide_eq_true, IH by (simpl in Hlen; lia).
    split; [by intros [-> ->] | by intros [= -> ->]].
Qed.

Lemma sameNodeSet_dom a b : sameNodeSet a b = true -> dom a = dom b.
Proof.
  unfold sameNodeSet. intros H. unbool.
  assert (dom a ⊆ dom b) as Hsub.
  { intros id Hid. apply elem_of_dom in Hid as [x Hx]. apply elem_of_dom.
    rewrite forallb_forall in H0.
    specialize (H0 id). simpl in H0. destruct (b !! id) eqn:E; [eauto |].
    simpl in H0. exfalso. enough (false = true) by done. apply H0.
    apply list_elem_of_In, list_elem_of_fmap. exists (id, x).
    split; [done | by apply elem_of_map_to_list]. }
  apply set_eq. intros id. split; [apply Hsub |]. intros Hid.
  destruct (decide (id ∈ dom a)) as [? | Hn]; [done | exfalso].
  assert (dom a ⊂ dom b) as Hlt by (split; [done | set_solver]).
  apply subset_size in Hlt. rewrite !size_dom in Hlt. lia.
Qed.

Lemma places_on_pendingNode id w : places_on id w = negb (bool_decide (id = "")) && bool_decide (pendingNode w = id).
Proof. done. Qed.

Lemma places_on_unplaced id w : pendingNode w = "" -> places_on id w = false.
Proof.
  intros Hw. unfold places_on. rewrite Hw.
  destruct (decide (id = "")) as [-> | Hne]; [done |].
  by rewrite (bool_decide_eq_false_2 ("" = id)), andb_false_r.
Qed.

Lemma places_on_congr id w w' : pendingNode w = pendingNode w' -> places_on id w = places_on id w'.
Proof. unfold places_on. by intros ->. Qed.

(** Removing or replacing a catalogue entry keeps every count when the entry's
    placement stays the same. *)
Lemma count_replace (c : gmap wlKey workload) k w id :
  pendingNode (default zero_workload (c !! k)) = pendingNode w ->
  map_count (places_on id) (<[k := w]> c) = map_count (places_on id) c.
Proof.
  intros Hp. rewrite map_count_insert. destruct (c !! k) as [w0|] eqn:E; simpl in Hp.
  - rewrite (map_count_lookup _ c k w0) by done. by rewrite (places_on_congr id w w0).
  - rewrite (places_on_unplaced id w) by (by rewrite <- Hp). by rewrite delete_id.
Qed.

Lemma count_delete (c : gmap wlKey workload) k id :
  pendingNode (default zero_workload (c !! k)) = "" ->
  map_count (places_on id) (delete k c) = map_count (places_on id) c.
Proof.
  intros Hp. destruct (c !! k) as [w0|] eqn:E; simpl in Hp; [| by rewrite delete_id].
  rewrite (map_count_lookup _ c k w0) by done. by rewrite (places_on_unplaced id w0).
Qed.

Lemma count_delete_removed (c : gmap wlKey workload) k id :
  bool_decide (is_Some (c !! k))
    && negb (bool_decide (pendingNode (default zero_workload (c !! k)) = "")) = false ->
  map_count (places_on id) (delete k c) = map_count (places_on id) c.
Proof.
  intros H. apply count_delete. destruct (c !! k) eqn:E; [| done].
  apply andb_false_iff in H as [H | H]; unbool; [| exact H].
  destruct H. eauto.
Qed.

Lemma node_set_true ns id b : node_set ns !! id = Some b -> b = true.
Proof.
  unfold node_set. assert (forall acc : gmap string bool,
    (forall b, acc !! id = Some b -> b = true) ->
    foldl (fun set n => if bool_decide (an_HostUUID n = "") then set
                        else <[an_HostUUID n := true]> set) acc ns !! id = Some b -> b = true)
    as Hgo.
  { induction ns as [|n ns IH]; intros acc Hacc; simpl; [apply Hacc |].
    apply IH. intros b'. case_bool; [apply Hacc |].
    destruct (decide (an_HostUUID n = id)) as [Hn | Hn].
    - rewrite Hn, lookup_insert_eq. by intros [=].
    - rewrite lookup_insert_ne by done. apply Hacc. }
  apply Hgo. intros b'. by rewrite lookup_empty.
Qed.

(** The heart of [changed]: when a handler reports no change, the ranking at that
    instant is what it was, so skipping the recomputation loses nothing. *)
Lemma unchanged_rank `{MR : !MapRange} m msg now m' :
  applyNotification m msg now = (m', false) -> rankAt m' now = rankAt m now.
Proof.
  intros H. apply rankAt_congr.
  - destruct msg as [| [ns|] | [w|] | [[i o]|] | [v|] | | | | | | | | ]; simpl in H;
      try (by simplify_eq).
    + injection H as <- Hs. simpl. unbool. symmetry. by apply sameNodeSet_dom.
    + unfold applyUpsert in H. by repeat case_bool; simplify_eq.
    + unfold applyTelemetryAt in H. by repeat case_bool; simplify_eq.
  - intros id Hid. unfold rank_entry.
    destruct msg as [| [ns|] | [w|] | [[i o]|] | [v|] | | | | | | | | ]; simpl in H;
      try (by simplify_eq).
    + injection H as <- Hs. simpl in *. unfold node_pressure. simpl.
      apply elem_of_dom in Hid as [b Hb].
      rewrite map_lookup_filter. destruct (m_telemetry m !! id) as [t|]; simpl; [| done].
      by rewrite option_guard_True by (rewrite Hb; exact (node_set_true ns id b Hb)).
    + unfold applyUpsert in H. repeat case_bool; simplify_eq; try done; simpl; f_equal.
      * f_equal. by apply count_delete_removed.
      * f_equal. apply count_replace. unbool. unfold pendingNode at 2. by rewrite Heqb0.
    + injection H as <- Hs. simpl. f_equal. f_equal. apply map_count_filter.
      intros k w Hk Hout. apply not_false_is_true in Hout.
      apply places_on_unplaced.
      destruct (decide (pendingNode w = "")) as [? | Hne]; [done | exfalso].
      assert (existsb (fun '(k, w) => removal_matches o i k
        && negb (bool_decide (pendingNode w = ""))) (map_to_list (m_catalog m)) = true); [| congruence].
      apply existsb_exists. exists (k, w). split.
      * by apply list_elem_of_In, elem_of_map_to_list.
      * by rewrite Hout, bool_decide_eq_false_2.
    + unfold applyTelemetryAt in H. case_bool; [by injection H as <- |].
      injection H as <- Hs.
      simpl. f_equal. unfold node_pressure; simpl. unbool.
      destruct (decide (nt_HostUUID v = id)) as [<- | Hne].
      * rewrite lookup_insert_eq, (bool_decide_eq_true_2 (is_Some (Some _))) by eauto.
        symmetry. exact Hs.
      * by rewrite lookup_insert_ne.
Qed.

(** * Publication *)

(** The ranks [engine] was last sent. *)
Definition emitted_ranks (m : Manager) (engine : string) : list NodeRank :=
  es_ranks (default zero_engineState (m_emitted m !! engine)).

(** The fields that the ranking reads. *)
Definition same_inputs (m m' : Manager) : Prop :=
  m_nodes m' = m_nodes m /\ m_catalog m' = m_catalog m /\ m_telemetry m' = m_telemetry m.

Lemma same_inputs_rank `{MR : !MapRange} m m' now :
  same_inputs m m' -> rankAt m' now = rankAt m now.
Proof.
  intros (Hn & Hc & Ht). apply rankAt_congr; [by rewrite Hn |].
  intros id _. unfold rank_entry, node_pressure. by rewrite Hc, Ht.
Qed.

Lemma emitIfChanged_spec m e order ranks force now :
  let '(m', out) := emitIfChanged m e order ranks force now in
  same_inputs m m' /\
  m_interval m' = m_interval m /\ m_tickCh m' = m_tickCh m /\ m_cancelled m' = m_cancelled m /\
  emitted_ranks m' e = ranks /\
  (forall e', e' <> e -> emitted_ranks m' e' = emitted_ranks m e') /\
  out = (if force || negb (equalRanks (emitted_ranks m e) ranks)
         then [NotifyPriority (mkEnginePriority e order ranks)] else []).
Proof.
  unfold emitIfChanged, emitted_ranks. case_bool; cbn [m_emitted set_emitted].
  - rewrite lookup_insert_eq. split_and!; try done. intros. by rewrite lookup_insert_ne.
  - split_and!; try done. unbool. by apply equalRanks_spec.
Qed.

Section PublicationFacts.
Context `{MR : !MapRange}.

(** The outputs of a recomputation: one notification per engine whose last ranks
    differ (every engine when forced). *)
Definition due_notifications (m : Manager) (force : bool) (now : Z) : list output :=
  let '(order, ranks) := rankAt m now in
  (fun e => NotifyPriority (mkEnginePriority e order ranks)) <$>
    List.filter (fun e => force || negb (equalRanks (emitted_ranks m e) ranks)) schedulerEngines.

Lemma recomputeAll_spec m force now :
  let '(m', out) := recomputeAll m force now in
  same_inputs m m' /\
  m_interval m' = m_interval m /\ m_tickCh m' = m_tickCh m /\ m_cancelled m' = m_cancelled m /\
  (forall e, e ∈ schedulerEngines -> emitted_ranks m' e = (rankAt m now).2) /\
  out = due_notifications m force now.
Proof.
  unfold recomputeAll, due_notifications, schedulerEngines.
  destruct (rankAt m now) as [order ranks] eqn:Hr. cbn [foldl].
  pose proof (emitIfChanged_spec m "ollama" order ranks force now) as H1.
  destruct (emitIfChanged m "ollama" order ranks force now) as [m1 o1].
  destruct H1 as ((A1 & A2 & A3) & A4 & A5 & A6 & E1 & N1 & ->).
  pose proof (emitIfChanged_spec m1 "lmstudio" order ranks force now) as H2.
  destruct (emitIfChanged m1 "lmstudio" order ranks force now) as [m2 o2].
  destruct H2 as ((B1 & B2 & B3) & B4 & B5 & B6 & E2 & N2 & ->).
  pose proof (emitIfChanged_spec m2 "omlx" order ranks force now) as H3.
  destruct (emitIfChanged m2 "omlx" order ranks force now) as [m3 o3].
  destruct H3 as ((C1 & C2 & C3) & C4 & C5 & C6 & E3 & N3 & ->).
  split; [split_and!; congruence |]. split_and!; try congruence.
  - intros e He. simpl. rewrite !elem_of_cons, elem_of_nil in He.
    destruct He as [-> | [-> | [-> | []]]]; [| |done].
    + by rewrite N3, N2.
    + by rewrite N3.
  - rewrite (N2 "omlx"), !(N1 _) by done. simpl. by repeat case_bool.
Qed.

(** Every engine has been sent the ranking of the current state. *)
Definition published_current (m : Manager) (now : Z) : Prop :=
  forall e, e ∈ schedulerEngines -> emitted_ranks m e = (rankAt m now).2.

Lemma recompute_current m force now : published_current (recomputeAll m force now).1 now.
Proof.
  pose proof (recomputeAll_spec m force now) as H.
  destruct (recomputeAll m force now) as [m' out]. destruct H as (Hs & _ & _ & _ & Hr & _).
  intros e He. cbn [fst]. rewrite (same_inputs_rank m m') by done. by apply Hr.
Qed.

Lemma current_same m m' now :
  same_inputs m m' -> m_emitted m' = m_emitted m ->
  published_current m now -> published_current m' now.
Proof.
  intros Hs He Hc e Hin. unfold emitted_ranks. rewrite He, (same_inputs_rank m m') by done.
  by apply Hc.
Qed.

Lemma applyNotification_emitted m msg now :
  m_emitted (applyNotification m msg now).1 = m_emitted m /\
  m_interval (applyNotification m msg now).1 = m_interval m /\
  m_cancelled (applyNotification m msg now).1 = m_cancelled m.
Proof.
  destruct msg as [| [ns|] | [w|] | [[i o]|] | [v|] | | | | | | | | ]; try done; simpl;
    unfold applyUpsert, applyTelemetryAt; repeat case_match; done.
Qed.

Lemma handle_notification_current m msg now :
  published_current m now ->
  published_current (let '(m', changed) := applyNotification m msg now in
                     if changed then recomputeAll m' false now else (m', [])).1 now.
Proof.
  intros Hc. pose proof (applyNotification_emitted m msg now) as (He & _ & _).
  destruct (applyNotification m msg now) as [m' []] eqn:E; [apply recompute_current |].
  intros e Hin. cbn [fst] in *. unfold emitted_ranks. rewrite He, (unchanged_rank m msg now) by done.
  by apply Hc.
Qed.
End PublicationFacts.

(** * Properties of the scheduler *)

Lemma StronglySorted_lookup {A} (R : A -> A -> Prop) (l : list A) i j x y :
  StronglySorted R l -> (i < j)%nat -> l !! i = Some x -> l !! j = Some y -> R x y.
Proof.
  intros Hs. revert i j. induction Hs as [|a l Hl IH Ha]; intros i j Hij Hi Hj; [done |].
  destruct j as [|j]; [lia |]. destruct i as [|i]; simpl in *.
  - simplify_eq. rewrite Forall_forall in Ha. apply Ha. by eapply list_elem_of_lookup_2.
  - apply (IH i j); [lia | done | done].
Qed.

Lemma number_ranks_lookup l i r :
  number_ranks l !! i = Some r <->
  exists r0, l !! i = Some r0 /\
    r = mkNodeRank (nr_ID r0) (nr_Pending r0) (nr_GPUPressure r0) (Z.of_nat i).
Proof.
  unfold number_ranks. rewrite list_lookup_imap, fmap_Some. naive_solver.
Qed.

Lemma number_ranks_ids l : nr_ID <$> number_ranks l = nr_ID <$> l.
Proof.
  apply list_eq. intros i. unfold number_ranks.
  rewrite !list_lookup_fmap, list_lookup_imap. by destruct (l !! i).
Qed.

Lemma rank_facts (R : MapRange) (m : Manager) (now : Z) :
  let '(order, ranks) := @rankAt R m now in
  order = nr_ID <$> ranks /\
  order ≡ₚ (map_to_list (m_nodes m)).*1 /\
  (forall i r, ranks !! i = Some r ->
     nr_Rank r = Z.of_nat i /\
     nr_Pending r = Z.of_nat (map_count (places_on (nr_ID r)) (m_catalog m)) /\
     nr_GPUPressure r = node_pressure m now (nr_ID r)) /\
  (forall i j a b, (i < j)%nat -> ranks !! i = Some a -> ranks !! j = Some b ->
     rank_less a b = true) /\
  (forall R' : MapRange, @rankAt R' m now = (order, ranks)).
Proof.
  destruct (@rankAt R m now) as [order ranks] eqn:Hr.
  assert (forall R' : MapRange, @rankAt R' m now = (order, ranks)) as Hany
    by (intros R'; rewrite <- Hr; by apply rankAt_congr).
  rewrite rankAt_eq in Hr.
  set (l := rank_entry m now <$> (range (m_nodes m)).*1) in Hr. cbv zeta in Hr.
  injection Hr as <- <-.
  assert ((nr_ID <$> l) = (range (m_nodes m)).*1) as Hids.
  { unfold l. rewrite <- list_fmap_compose. apply list_fmap_id. }
  split_and!.
  - done.
  - rewrite number_ranks_ids, sort_by_perm, Hids. by rewrite range_perm.
  - intros i r (r0 & Hr0 & ->)%number_ranks_lookup. simpl.
    apply list_elem_of_lookup_2 in Hr0. rewrite elem_of_sort_by in Hr0. unfold l in Hr0.
    by apply list_elem_of_fmap in Hr0 as (id & -> & _).
  - intros i j a b Hij (a0 & Ha & ->)%number_ranks_lookup (b0 & Hb & ->)%number_ranks_lookup.
    pose proof (StronglySorted_lookup _ _ _ _ _ _ (sort_by_sorted rank_less l) Hij Ha Hb) as Hs.
    unfold not_after in Hs. destruct (rank_less a0 b0) eqn:E.
    { revert E. unfold rank_less. by simpl. }
    exfalso. apply list_elem_of_lookup_2 in Ha as Ha'. apply list_elem_of_lookup_2 in Hb as Hb'.
    rewrite elem_of_sort_by in Ha', Hb'. unfold l in Ha', Hb'.
    apply list_elem_of_fmap in Ha' as (x & -> & _). apply list_elem_of_fmap in Hb' as (y & -> & _).
    assert (x = y) as ->.
    { assert (rank_entry m now x = rank_entry m now y) as [=]; [| done].
      by apply rank_less_separates. }
    assert (NoDup (nr_ID <$> sort_by rank_less l)) as Hnd.
    { rewrite sort_by_perm, Hids. apply NoDup_fst_range. }
    assert (i = j) as ->; [| lia].
    apply (NoDup_lookup _ i j y Hnd); by rewrite list_lookup_fmap, ?Ha, ?Hb.
  - exact Hany.
Qed.

(** C19. The published ranking is exactly the specified one: it lists every known
    node once; entry [i] carries rank [i], the number of queued or running
    workloads placed on the node and the node's effective GPU pressure; of two entries the
    earlier one has the smaller sum of pending work and pressure, at equal sums the smaller
    pressure, and at equal sums and pressures the smaller id in byte order; and no map
    iteration order can change the result. *)
Theorem rank_spec (R : MapRange) (m : Manager) (now : Z) :
  let '(order, ranks) := @rankAt R m now in
  order = nr_ID <$> ranks /\
  order ≡ₚ (map_to_list (m_nodes m)).*1 /\
  (forall i r, ranks !! i = Some r ->
     nr_Rank r = Z.of_nat i /\
     nr_Pending r = Z.of_nat (map_count (places_on (nr_ID r)) (m_catalog m)) /\
     nr_GPUPressure r = node_pressure m now (nr_ID r)) /\
  (forall i j a b, (i < j)%nat -> ranks !! i = Some a -> ranks !! j = Some b ->
     nr_Pending a + nr_GPUPressure a < nr_Pending b + nr_GPUPressure b \/
     (nr_Pending a + nr_GPUPressure a = nr_Pending b + nr_GPUPressure b /\
      (nr_GPUPressure a < nr_GPUPressure b \/
       (nr_GPUPressure a = nr_GPUPressure b /\ str_ltb (nr_ID a) (nr_ID b) = true)))) /\
  (forall R' : MapRange, @rankAt R' m now = (order, ranks)).
Proof.
  pose proof (rank_facts R m now) as H. destruct (@rankAt R m now) as [order ranks].
  destruct H as (? & ? & ? & Hsorted & ?). split_and!; try done. intros i j a b Hij Ha Hb.
  pose proof (Hsorted i j a b Hij Ha Hb) as Hless. revert Hless. unfold rank_less.
  destruct (Z.eqb_spec (nr_Pending a + nr_GPUPressure a) (nr_Pending b + nr_GPUPressure b)) as [He|]; cbn [negb];
    [| intros ?%Z.ltb_lt; by left].
  intros Hl. right. split; [done |]. revert Hl.
  destruct (Z.eqb_spec (nr_GPUPressure a) (nr_GPUPressure b)) as [Hg|]; cbn [negb]; [right; by split | intros ?%Z.ltb_lt; by left].
Qed.

(** A message either is a notification, folded in and published when it reports a
    change, or touches neither the inputs of the ranking nor what was emitted. *)
Lemma handleMessage_cases `{MR : !MapRange} m msg now :
  handleMessage m msg now =
    (let '(m', changed) := applyNotification m msg now in
     if changed then recomputeAll m' false now else (m', [])) \/
  let m' := (handleMessage m msg now).1 in
  same_inputs m m' /\ m_emitted m' = m_emitted m /\
  (intervalFloor <= m_interval m -> intervalFloor <= m_interval m') /\
  Forall (fun o => match o with NotifyPriority _ => False | _ => True end)
    (handleMessage m msg now).2.
Proof.
  destruct msg as [[] [l|] | p | p | p | p | | | | | [ms|] | | |]; try (by left);
    right; simpl; repeat case_bool; simpl; unbool; split_and!; try done; by repeat constructor.
Qed.

(** C23. No stale publication.  If every engine was last sent the current ranking,
    handling any message leaves that true at the same instant, although the
    handlers recompute only when they report a change; and a timer or a forced
    tick establishes it from any state. *)
Theorem publication_current (R : MapRange) (m : Manager) (now : Z) :
  m_cancelled m = false ->
  (forall msg, published_current m now ->
     published_current (step m (Message msg) now).1 now) /\
  published_current (step m TimerFired now).1 now /\
  (m_tickCh m = true -> published_current (step m TickReceived now).1 now).
Proof.
  intros Hrun. unfold step. rewrite Hrun. split_and!.
  - intros msg Hc. destruct (handleMessage_cases m msg now) as [-> | (Hs & He & _ & _)].
    + by apply handle_notification_current.
    + by apply (current_same m).
  - apply recompute_current.
  - intros ->. apply recompute_current.
Qed.

(** The GPU-pressure band settles: for every utilisation (NaN included) and
    every previous band the result is a band in 0..3 that neither hysteresis loop
    wants to leave, so folding the same utilisation again cannot flap. *)
Theorem hysteresis_stable (u : spec_float) (p : Z) :
  let r := pressureWithHysteresis u p in
  0 <= r <= MaxGPUPressure /\
  (r < 3 -> F64.ge u (hysteresis_up r) = false) /\
  (0 < r -> F64.lt u (hysteresis_down r) = false) /\
  pressureWithHysteresis u r = r.
Proof.
  pose proof (pressureWithHysteresis_settled u p) as Hs. pose proof (settled_stable u _ Hs) as Hst.
  by destruct Hs as (? & ? & ?).
Qed.

(** Reachability invariant of the scheduler's memory. *)
Record Manager_wf (m : Manager) : Prop := {
  wf_interval : intervalFloor <= m_interval m;
  wf_pressure : forall id t, m_telemetry m !! id = Some t -> 0 <= ts_pressure t <= MaxGPUPressure;
  wf_nodes : m_nodes m !! "" = None;
  wf_catalog : forall k w, m_catalog m !! k = Some w -> isPending w = true /\ key_of w = k
}.

Lemma fold_sample_pressure t b v now :
  0 <= ts_pressure t <= MaxGPUPressure ->
  0 <= ts_pressure (fold_sample t b v now) <= MaxGPUPressure.
Proof.
  intros Ht. unfold fold_sample. cbv zeta. repeat case_bool; simpl; try done.
  all: first [apply pressureBand_range | apply pressureWithHysteresis_settled].
Qed.

Lemma node_set_no_empty ns : node_set ns !! "" = None.
Proof.
  unfold node_set. assert (forall acc : gmap string bool, acc !! "" = None ->
    foldl (fun set n => if bool_decide (an_HostUUID n = "") then set
                        else <[an_HostUUID n := true]> set) acc ns !! "" = None) as Hgo.
  { induction ns as [|n ns IH]; intros acc Hacc; simpl; [done |].
    apply IH. case_bool; [done |]. unbool. by rewrite lookup_insert_ne. }
  by apply Hgo.
Qed.

Lemma applyNotification_wf m msg now :
  Manager_wf m -> Manager_wf (applyNotification m msg now).1.
Proof.
  intros [Hi Hp Hn Hc].
  destruct msg as [| [ns|] | [w|] | [[id o]|] | [v|] | | | | | | | | ]; simpl; try by constructor.
  - constructor; simpl; try done; [| apply node_set_no_empty].
    intros id t Ht. apply map_lookup_filter_Some in Ht as [Ht _]. eauto.
  - unfold applyUpsert. repeat case_bool; simpl; constructor; try done; simpl; intros k w'.
    + rewrite lookup_delete_Some. intros [_ Hk]. eauto.
    + rewrite lookup_insert_Some. unbool. intros [[<- <-] | [_ Hk]]; eauto.
  - constructor; try done; simpl. intros k w'. rewrite map_lookup_filter_Some. intros [Hk _]. eauto.
  - unfold applyTelemetryAt. case_bool; simpl; constructor; try done; simpl. intros id t.
    rewrite lookup_insert_Some. intros [[<- <-] | [_ Hk]]; [| eauto].
    apply fold_sample_pressure. destruct (m_telemetry m !! nt_HostUUID v) eqn:E; simpl; eauto.
    unfold MaxGPUPressure. lia.
Qed.

Lemma recomputeAll_wf `{MR : !MapRange} m force now :
  Manager_wf m -> Manager_wf (recomputeAll m force now).1.
Proof.
  intros [Hi Hp Hn Hc]. pose proof (recomputeAll_spec m force now) as H.
  destruct (recomputeAll m force now) as [m' out].
  destruct H as ((En & Ec & Et) & Ei & _). simpl.
  by constructor; rewrite ?Ei, ?En, ?Ec, ?Et.
Qed.

Lemma step_wf `{MR : !MapRange} m ev now : Manager_wf m -> Manager_wf (step m ev now).1.
Proof.
  intros Hwf. unfold step. case_bool; [done |]. destruct ev as [msg | |].
  - destruct (handleMessage_cases m msg now) as [-> | ((En & Ec & Et) & _ & Hi & _)].
    + pose proof (applyNotification_wf m msg now Hwf) as H.
      destruct (applyNotification m msg now) as [m' []]; [by apply recomputeAll_wf | done].
    + destruct Hwf. constructor; rewrite ?En, ?Ec, ?Et; auto.
  - case_bool; [| done]. apply recomputeAll_wf. destruct Hwf; by constructor.
  - by apply recomputeAll_wf.
Qed.

Lemma run_snoc `{MR : !MapRange} m evs ev now :
  run m (evs ++ [(ev, now)]) =
    let '(m1, o1) := run m evs in let '(m2, o2) := step m1 ev now in (m2, o1 ++ o2).
Proof. unfold run. rewrite foldl_app. cbn [foldl]. by destruct (foldl _ _ evs). Qed.

Lemma run_wf `{MR : !MapRange} interval evs : Manager_wf (run (NewManager interval) evs).1.
Proof.
  induction evs as [|[ev now] evs IH] using rev_ind.
  - constructor; simpl; try done. case_bool; unbool; [done | lia].
  - rewrite run_snoc. destruct (run (NewManager interval) evs) as [m1 o1].
    pose proof (step_wf m1 ev now IH) as H. by destruct (step m1 ev now).
Qed.

(** Whatever events arrive, in any order and at any instants, from start-up on:
    the interval never drops below its floor, every stored pressure band is in
    0..MaxGPUPressure, the node universe never holds an empty id, and the catalogue
    holds only queued or running workloads, each under its own identity. *)
Theorem scheduler_invariant (R : MapRange) (interval : Z) (evs : list (event * Z)) :
  Manager_wf (run (NewManager interval) evs).1.
Proof. apply run_wf. Qed.

(** What the parent knows: the last ranking it was sent for an engine. *)
Definition sent_after (e : string) (acc : list NodeRank) (o : output) : list NodeRank :=
  match o with
  | NotifyPriority p => if bool_decide (ep_Engine p = e) then ep_Ranks p else acc
  | _ => acc
  end.

Definition last_sent (e : string) (out : list output) : list NodeRank :=
  foldl (sent_after e) [] out.

(** A well-formed payload: the id list mirrors the ranks, and every pressure is in
    the contract's range. *)
Definition payload_ok (o : output) : Prop :=
  match o with
  | NotifyPriority p =>
      ep_Engine p ∈ schedulerEngines /\ ep_Nodes p = nr_ID <$> ep_Ranks p /\
      Forall (fun r => 0 <= nr_GPUPressure r <= MaxGPUPressure /\ 0 <= nr_Pending r) (ep_Ranks p)
  | _ => True
  end.

Lemma emit_view m e0 order ranks force now e :
  let '(m', out) := emitIfChanged m e0 order ranks force now in
  foldl (sent_after e) (emitted_ranks m e) out = emitted_ranks m' e.
Proof.
  pose proof (emitIfChanged_spec m e0 order ranks force now) as H.
  destruct (emitIfChanged m e0 order ranks force now) as [m' out].
  destruct H as (_ & _ & _ & _ & He & Hne & ->).
  destruct (decide (e0 = e)) as [-> | Hd].
  - destruct (force || negb _) eqn:E; cbn [foldl sent_after ep_Engine ep_Ranks].
    + by rewrite bool_decide_true.
    + unbool. rewrite He. by apply equalRanks_spec.
  - rewrite (Hne e) by done. case_bool; [| done]. cbn [foldl sent_after ep_Engine].
    by rewrite bool_decide_false.
Qed.

Section RunFacts.
Context `{MR : !MapRange}.

Lemma recompute_view m force now e :
  let '(m', out) := recomputeAll m force now in
  foldl (sent_after e) (emitted_ranks m e) out = emitted_ranks m' e.
Proof.
  unfold recomputeAll. destruct (rankAt m now) as [order ranks].
  assert (forall es m0 o0 a, foldl (sent_after e) a o0 = emitted_ranks m0 e ->
    let '(m', out) := foldl (fun '(m, out) e1 =>
      let '(m', o) := emitIfChanged m e1 order ranks force now in (m', out ++ o)) (m0, o0) es in
    foldl (sent_after e) a out = emitted_ranks m' e) as Hgo; [| by apply Hgo].
  induction es as [|e1 es IH]; intros m0 o0 a Ha; cbn [foldl]; [done |].
  pose proof (emit_view m0 e1 order ranks force now e) as Hv.
  destruct (emitIfChanged m0 e1 order ranks force now) as [m1 o1].
  apply IH. by rewrite foldl_app, Ha.
Qed.

Lemma node_pressure_range m now id :
  Manager_wf m -> 0 <= node_pressure m now id <= MaxGPUPressure.
Proof.
  intros [_ Hp _ _]. unfold node_pressure, effectiveGPUPressure, unknownGPUPressure, MaxGPUPressure.
  case_bool; [lia |]. destruct (m_telemetry m !! id) eqn:E; simpl; [by apply (Hp id) | lia].
Qed.

Lemma rank_payload_ok m now r :
  Manager_wf m -> r ∈ (rankAt m now).2 -> 0 <= nr_GPUPressure r <= MaxGPUPressure /\ 0 <= nr_Pending r.
Proof.
  intros Hwf Hr. rewrite rankAt_eq in Hr. cbn [snd] in Hr.
  apply list_elem_of_lookup_1 in Hr as [i (r0 & Hr0 & ->)%number_ranks_lookup]. simpl.
  apply list_elem_of_lookup_2 in Hr0. rewrite elem_of_sort_by in Hr0.
  apply list_elem_of_fmap in Hr0 as (id & -> & _). simpl.
  split; [by apply node_pressure_range | lia].
Qed.

Lemma recompute_payload_ok m force now :
  Manager_wf m -> Forall payload_ok (recomputeAll m force now).2.
Proof.
  intros Hwf. pose proof (recomputeAll_spec m force now) as H.
  destruct (recomputeAll m force now) as [m' out]. destruct H as (_ & _ & _ & _ & _ & ->).
  cbn [snd]. unfold due_notifications. pose proof (rank_payload_ok m now) as Hp.
  destruct (rankAt m now) as [order ranks] eqn:Hr. apply Forall_fmap, Forall_forall.
  intros e He. apply list_elem_of_In, filter_In in He as [He _]. rewrite <- list_elem_of_In in He.
  simpl. split_and!; [done | |].
  - rewrite rankAt_eq in Hr. cbv zeta in Hr. by injection Hr as <- <-.
  - apply Forall_forall. eauto.
Qed.

Lemma step_view m ev now e :
  let '(m', out) := step m ev now in
  foldl (sent_after e) (emitted_ranks m e) out = emitted_ranks m' e.
Proof.
  unfold step. case_bool; [done |]. destruct ev as [msg | |].
  - destruct (handleMessage_cases m msg now) as [-> | (_ & He & _ & Hq)].
    + pose proof (applyNotification_emitted m msg now) as (He & _ & _).
      destruct (applyNotification m msg now) as [m' []]; cbn [fst] in He;
        replace (emitted_ranks m e) with (emitted_ranks m' e)
          by (unfold emitted_ranks; by rewrite He); [apply recompute_view | done].
    + destruct (handleMessage m msg now) as [m' out]; cbn [fst snd] in *.
      unfold emitted_ranks. rewrite He.
      induction Hq as [|o out Ho _ IH]; [done |]. by destruct o.
  - case_bool; [| done]. by apply (recompute_view (set_tick m false)).
  - apply recompute_view.
Qed.

Lemma step_payload_ok m ev now : Manager_wf m -> Forall payload_ok (step m ev now).2.
Proof.
  intros Hwf. unfold step. case_bool; [constructor |]. destruct ev as [msg | |].
  - assert (Forall payload_ok (let '(m', changed) := applyNotification m msg now in
      if changed then recomputeAll m' false now else (m', [])).2) as Hn.
    { pose proof (applyNotification_wf m msg now Hwf) as H.
      destruct (applyNotification m msg now) as [m' []]; [by apply recompute_payload_ok | constructor]. }
    destruct msg as [[] [l|] | p | p | p | p | | | | | [ms|] | | |]; try exact Hn;
      simpl; repeat case_bool; repeat constructor.
  - case_bool; [| constructor]. apply recompute_payload_ok. destruct Hwf; by constructor.
  - by apply recompute_payload_ok.
Qed.
End RunFacts.

(** The parent's view is the scheduler's: after any events from start-up, the
    last ranking sent for each engine is the one the scheduler compares against,
    so a suppressed publication is one the parent already holds; and every payload
    has matching ids and ranks, a known engine, and pressures inside the contract. *)
Theorem parent_view (R : MapRange) (interval : Z) (evs : list (event * Z)) :
  let '(m, out) := run (NewManager interval) evs in
  (forall e, last_sent e out = emitted_ranks m e) /\ Forall payload_ok out.
Proof.
  induction evs as [|[ev now] evs IH] using rev_ind; [done |].
  rewrite run_snoc. pose proof (run_wf interval evs) as Hwf.
  destruct (run (NewManager interval) evs) as [m1 o1]. destruct IH as [Hl Hp].
  pose proof (step_payload_ok m1 ev now Hwf) as Ho. pose proof (step_view m1 ev now) as Hv.
  destruct (step m1 ev now) as [m2 o2]. split.
  - intros e. unfold last_sent. rewrite foldl_app. specialize (Hl e). unfold last_sent in Hl.
    rewrite Hl. apply Hv.
  - by apply Forall_app.
Qed.

(** A scheduler that knows two nodes and one running workload. *)
Definition demo_events : list (event * Z) :=
  [(Message (NodesChanged (Some [mkAvailableNode "h:1" "a"; mkAvailableNode "h:2" "b"])), 1);
   (Message (Upsert (Some (mkWorkload "1" "ollama" "r" "running" "peer" "a"))), 2)].

Definition demo_manager : Manager := (@run ascending_range (NewManager 0) demo_events).1.

Lemma publication_current_witness :
  m_cancelled demo_manager = false /\
  (@rankAt descending_range demo_manager 5).1 = ["b"; "a"] /\
  @published_current ascending_range (@step ascending_range demo_manager TimerFired 5).1 5.
Proof.
  assert (m_cancelled demo_manager = false) as Hrun by (vm_compute; reflexivity).
  split; [exact Hrun |]. split; [vm_compute; reflexivity |].
  destruct (publication_current ascending_range demo_manager 5 Hrun) as (_ & H & _). exact H.
Defined.
