(* ===== verification/EngineNative.v ===== *)
(** The engine-native view (services/shared/enginenative/enginenative.go): the counters an
    engine reports of itself, the comparison that decides whether a new reading is worth
    announcing, and the forgiving parsers of the engine's statistics and activity payloads.
    A payload is a decoded JSON value; [ParseFloat] converts the text of a literal that is
    no integer. *)
From S2P Require Import Prelude.
From S2P Require Import GoStd.
From S2P Require Import Json.
From S2P Require Import JsonText.
From Stdlib Require Import SpecFloat.

Open Scope string_scope.
Open Scope list_scope.
Open Scope Z_scope.

(** * Data *)

Definition EngineOmlx : string := "omlx".
Definition PhaseWaiting : string := "waiting".
Definition PhasePrefilling : string := "prefilling".
Definition PhaseGenerating : string := "generating".

Record Totals : Type := mkTotals {
  to_Requests : Z; to_PromptTokens : Z; to_CompletionTokens : Z; to_CachedTokens : Z; to_CacheEfficiency : spec_float
}.
Record Rates : Type := mkRates { ra_Prefill : spec_float; ra_Generation : spec_float }.
Record Model : Type := mkModel { mo_Model : string; mo_Loaded : bool }.

Record Stats : Type := mkStats {
  st_Engine : string; st_Supported : bool; st_Totals : Totals; st_Rates : Rates; st_Models : list Model;
  st_Error : string; st_ObservedAt : Z
}.

Record ActivityRow : Type := mkRow {
  ar_RequestID : string; ar_Phase : string; ar_QueuePosition : option Z; ar_GeneratedTokens : option Z;
  ar_TokensPerSecond : option spec_float; ar_PrefillProgress : option spec_float;
  ar_ElapsedSeconds : option spec_float; ar_PromptTokens : option Z
}.
Record Activity : Type := mkActivity { ac_Engine : string; ac_Supported : bool; ac_Rows : list ActivityRow }.

#[export] Instance Model_eq_dec : EqDecision Model.
Proof. solve_decision. Defined.
#[export] Instance Model_countable : Countable Model :=
  inj_countable' (fun m => (mo_Model m, mo_Loaded m)) (fun p => mkModel p.1 p.2)
    ltac:(abstract (by intros [])).

(** * Comparison *)

(** [==] of Go on float64: both zeros are equal, and NaN equals nothing. *)
Definition float_eq (x y : spec_float) : bool := SFeqb x y.

Definition same_totals (a b : Totals) : bool :=
  (to_Requests a =? to_Requests b) && (to_PromptTokens a =? to_PromptTokens b)
  && (to_CompletionTokens a =? to_CompletionTokens b) && (to_CachedTokens a =? to_CachedTokens b)
  && float_eq (to_CacheEfficiency a) (to_CacheEfficiency b).
Definition same_rates (a b : Rates) : bool :=
  float_eq (ra_Prefill a) (ra_Prefill b) && float_eq (ra_Generation a) (ra_Generation b).

Definition tally_model (counts : gmap Model nat) (m : Model) : gmap Model nat :=
  <[m := S (default 0%nat (counts !! m))]> counts.
Fixpoint take_models (counts : gmap Model nat) (b : list Model) : bool :=
  match b with
  | [] => true
  | m :: b =>
      match default 0%nat (counts !! m) with
      | 0%nat => false
      | S n => take_models (<[m := n]> counts) b
      end
  end.
Definition sameModelSet (a b : list Model) : bool :=
  bool_decide (length a = length b) && take_models (foldl tally_model ∅ a) b.

Definition SameNumbers (a b : option Stats) : bool :=
  match a, b with
  | Some a, Some b =>
      if negb (bool_decide (st_Engine a = st_Engine b)) || negb (Bool.eqb (st_Supported a) (st_Supported b))
         || negb (bool_decide (st_Error a = st_Error b)) then false
      else if negb (same_totals (st_Totals a) (st_Totals b)) || negb (same_rates (st_Rates a) (st_Rates b)) then false
      else sameModelSet (st_Models a) (st_Models b)
  | None, None => true
  | _, _ => false
  end.

Definition Changed (prev next : option Stats) : bool :=
  if negb (SameNumbers prev next) then true
  else match next, prev with
       | None, _ => false
       | Some _, None => true
       | Some next, Some prev => st_ObservedAt prev <? st_ObservedAt next
       end.

Definition SameView (a b : option Stats) : bool := negb (Changed a b) && negb (Changed b a).

(** * Parsing *)

Section Parse.
Context `{!MapRange} (ParseFloat : string -> option spec_float).

(** A payload object as the map Go reads it into: [null] and other values are errors. *)
Definition decodeFields (raw : json) : option (gmap string json) :=
  match raw with JObj l => Some (object_map l) | _ => None end.

(** The literal a [json.Number] holds: a number, or a string that spells one. *)
Definition json_Number (raw : json) : option json :=
  match raw with
  | JInt _ | JNum _ => Some raw
  | JStr s => match number s with Some (v, "") => Some v | _ => None end
  | _ => None
  end.

Definition number_Float64 (n : json) : option spec_float :=
  match n with
  | JInt z => match F64.of_Z z with S754_infinity _ => None | x => Some x end
  | JNum lit => ParseFloat lit
  | _ => None
  end.
Definition number_Int64 (n : json) : option Z :=
  match n with JInt z => if bool_decide (in_int64 z) then Some z else None | _ => None end.

Definition numberField (fields : gmap string json) (key : string) : option spec_float :=
  (fields !! key ≫= json_Number) ≫= number_Float64.

(** [value == math.Trunc(value)] and the conversion to an integer of such a value. *)
Definition is_whole (x : spec_float) : bool :=
  match x with
  | S754_zero _ | S754_infinity _ => true
  | S754_nan => false
  | S754_finite _ m e => if 0 <=? e then true else Z.pos m mod 2 ^ (- e) =? 0
  end.
Definition float_int (x : spec_float) : Z :=
  match x with
  | S754_finite s m e =>
      let v := if 0 <=? e then Z.pos m * 2 ^ e else Z.pos m / 2 ^ (- e) in if s then - v else v
  | _ => 0
  end.

Definition intField (fields : gmap string json) (key : string) : option Z :=
  match fields !! key ≫= json_Number with
  | None => None
  | Some n =>
      match number_Int64 n with
      | Some whole => Some whole
      | None =>
          match number_Float64 n with
          | None => None
          | Some value =>
              if negb (is_whole value) then None
              else if F64.lt value (F64.of_Z (- 2 ^ 63)) || F64.ge value (F64.of_Z (2 ^ 63 - 1)) then None
              else Some (float_int value)
          end
      end
  end.

Definition counterField (fields : gmap string json) (key : string) : Z := default 0 (intField fields key).
Definition rateField (fields : gmap string json) (key : string) : spec_float :=
  default (F64.of_Z 0) (numberField fields key).
Definition optionalInt := intField.
Definition optionalNumber := numberField.

(** [json.Unmarshal] into a string: the value, [None] on an error; [null] leaves it empty. *)
Definition string_of (v : json) : option string := dec_string "" v.

Fixpoint first_name (fields : gmap string json) (keys : list string) : string :=
  match keys with
  | [] => ""
  | k :: keys =>
      match fields !! k ≫= string_of with
      | Some name => if bool_decide (name = "") then first_name fields keys else name
      | None => first_name fields keys
      end
  end.
Definition modelNameOf (fields : gmap string json) : string := first_name fields ["model"; "name"; "id"].

Record modelEntry : Type := mkModelEntry { me_name : string; me_fields : gmap string json }.

(** [null] decodes as the empty array; an absent value does not decode. *)
Definition decodeArray (raw : option json) : option (list json) :=
  match raw with Some (JArr l) => Some l | Some JNull => Some [] | _ => None end.

Definition decodeModelName (raw : json) : option string :=
  match string_of raw with Some name => if bool_decide (name = "") then None else Some name | None => None end.

Definition model_entry (entry : json) : option modelEntry :=
  match decodeModelName entry with
  | Some name => Some (mkModelEntry name ∅)
  | None => match decodeFields entry with
            | Some fields => Some (mkModelEntry (modelNameOf fields) fields)
            | None => None
            end
  end.
Definition modelEntriesOf (entries : list json) : list modelEntry := omap model_entry entries.

Definition decodeModelEntries (raw : option json) : list modelEntry :=
  match decodeArray raw with
  | Some entries => modelEntriesOf entries
  | None =>
      match raw ≫= decodeFields with
      | None => []
      | Some byName =>
          match decodeArray (byName !! "models") with
          | Some entries => modelEntriesOf entries
          | None =>
              omap (fun name => match byName !! name ≫= decodeFields with
                                | Some fields => Some (mkModelEntry name fields)
                                | None => None
                                end) (sort_by str_ltb (range byName).*1)
          end
      end
  end.

Definition model_loaded (fields : gmap string json) : bool :=
  match fields !! "loaded" with
  | None => true
  | Some v => match dec_bool false v with Some reported => reported | None => true end
  end.
Definition parseModels (raw : option json) : list Model :=
  omap (fun e => if bool_decide (me_name e = "") then None
                 else Some (mkModel (me_name e) (model_loaded (me_fields e)))) (decodeModelEntries raw).

Definition ParseStats (raw : json) : option Stats :=
  match decodeFields raw with
  | None => None
  | Some f =>
      Some (mkStats EngineOmlx true
        (mkTotals (counterField f "total_requests") (counterField f "total_prompt_tokens")
           (counterField f "total_completion_tokens") (counterField f "total_cached_tokens")
           (rateField f "cache_efficiency"))
        (mkRates (rateField f "avg_prefill_tps") (rateField f "avg_generation_tps"))
        (parseModels (f !! "active_models")) "" 0)
  end.

Definition prefillProgress (fields : gmap string json) : option spec_float :=
  match numberField fields "progress" with
  | Some value =>
      if negb (float_eq value (F64.of_Z 0)) then Some value
      else match numberField fields "prefill_progress" with Some alternate => Some alternate | None => Some value end
  | None => numberField fields "prefill_progress"
  end.

Definition row_keys : list string :=
  ["request_id"; "queue_position"; "generated_tokens"; "tokens_per_second";
   "progress"; "prefill_progress"; "elapsed_seconds"; "prompt_tokens"].

Definition parseRow (raw : json) (phase : string) : option ActivityRow :=
  match decodeFields raw with
  | None => None
  | Some f =>
      if negb (existsb (fun k => bool_decide (is_Some (f !! k))) row_keys) then None
      else Some (mkRow (default "" (f !! "request_id" ≫= string_of)) phase
        (optionalInt f "queue_position") (optionalInt f "generated_tokens")
        (optionalNumber f "tokens_per_second") (prefillProgress f)
        (optionalNumber f "elapsed_seconds") (optionalInt f "prompt_tokens"))
  end.

Definition parseRows (model : gmap string json) (phase key : string) : list ActivityRow :=
  match decodeArray (model !! key) with
  | None => []
  | Some entries => omap (fun e => parseRow e phase) entries
  end.

Definition ParseActivity (raw : json) : option Activity :=
  match decodeFields raw with
  | None => None
  | Some f =>
      Some (mkActivity EngineOmlx true
        (decodeModelEntries (f !! "active_models") ≫= fun m =>
           parseRows (me_fields m) PhaseWaiting "waiting" ++ parseRows (me_fields m) PhasePrefilling "prefilling"
           ++ parseRows (me_fields m) PhaseGenerating "generating"))
  end.
End Parse.

(** * Facts *)

Lemma take_models_spec counts b :
  take_models counts b = true <->
  forall m, (count_occ Model_eq_dec b m <= default 0%nat (counts !! m))%nat.
Proof.
  revert counts. induction b as [|x b IH]; intros counts; cbn [take_models count_occ].
  - split; [intros _ m; lia | done].
  - destruct (default 0%nat (counts !! x)) as [|n] eqn:E.
    + split; [done |]. intros Hm. specialize (Hm x). rewrite E in Hm. destruct (Model_eq_dec x x); [lia | done].
    + rewrite IH. split; intros Hm m; specialize (Hm m); destruct (Model_eq_dec x m) as [<-|Hne];
        rewrite ?lookup_insert_eq, ?lookup_insert_ne in * by done; rewrite ?E in *; cbn [default from_option id] in *;
        unfold id in *; lia.
Qed.

Lemma tally_models l counts m :
  default 0%nat (foldl tally_model counts l !! m) = (default 0%nat (counts !! m) + count_occ Model_eq_dec l m)%nat.
Proof.
  revert counts. induction l as [|x l IH]; intros counts; cbn [foldl count_occ]; [lia |].
  rewrite IH. unfold tally_model. destruct (Model_eq_dec x m) as [<-|Hne].
  - rewrite lookup_insert_eq. cbn. unfold id. lia.
  - by rewrite lookup_insert_ne.
Qed.

(** The model lists are compared as multisets of (name, loaded) pairs. *)
Lemma sameModelSet_perm a b : sameModelSet a b = true <-> a ≡ₚ b.
Proof.
  unfold sameModelSet. rewrite andb_true_iff, bool_decide_eq_true, take_models_spec.
  assert (forall m, default 0%nat (foldl tally_model ∅ a !! m) = count_occ Model_eq_dec a m) as Ha.
  { intros m. by rewrite tally_models, lookup_empty. }
  split.
  - intros [Hl Hc]. symmetry. revert a Hl Hc Ha. induction b as [|x b IH]; intros a Hl Hc Ha.
    + destruct a; [done | cbn in Hl; lia].
    + assert (x ∈ a) as Hx.
      { apply list_elem_of_In, (count_occ_In Model_eq_dec). specialize (Hc x). rewrite Ha in Hc.
        cbn [count_occ] in Hc. destruct (Model_eq_dec x x); [lia | done]. }
      apply elem_of_Permutation in Hx as [a' Hp]. rewrite Hp. constructor. apply IH.
      * apply Permutation_length in Hp. cbn in *. lia.
      * intros m. specialize (Hc m). rewrite Ha in Hc. rewrite tally_models, lookup_empty.
        rewrite (proj1 (Permutation_count_occ Model_eq_dec _ _) Hp m) in Hc. cbn [count_occ] in *.
        destruct (Model_eq_dec x m); cbn; unfold id; lia.
      * intros m. by rewrite tally_models, lookup_empty.
  - intros Hp. split; [by apply Permutation_length |]. intros m. rewrite Ha.
    by rewrite (proj1 (Permutation_count_occ Model_eq_dec _ _) Hp m).
Qed.

Lemma float_eq_sym x y : float_eq x y = float_eq y x.
Proof.
  unfold float_eq, SFeqb, SFcompare. destruct x as [sx|sx| |sx mx ex], y as [sy|sy| |sy my ey]; try done;
    try destruct sx; try destruct sy; try done.
  all: rewrite (Z.compare_antisym ex ey); destruct (ex ?= ey); cbn [CompOpp]; try done;
    change (PosDef.Pos.compare_cont Eq my mx) with (my ?= mx)%positive;
    change (PosDef.Pos.compare_cont Eq mx my) with (mx ?= my)%positive;
    rewrite (Pos.compare_antisym mx my); by destruct (mx ?= my)%positive.
Qed.

Lemma SameNumbers_sym a b : SameNumbers a b = SameNumbers b a.
Proof.
  destruct a as [a|], b as [b|]; try done. unfold SameNumbers, same_totals, same_rates.
  destruct a as [? ? ta ra ? ? ?], b as [? ? tb rb ? ? ?]. cbn.
  rewrite (float_eq_sym (to_CacheEfficiency ta)), (float_eq_sym (ra_Prefill ra)), (float_eq_sym (ra_Generation ra)).
  rewrite (Z.eqb_sym (to_Requests ta)), (Z.eqb_sym (to_PromptTokens ta)), (Z.eqb_sym (to_CompletionTokens ta)),
    (Z.eqb_sym (to_CachedTokens ta)).
  assert (forall x y : string, bool_decide (x = y) = bool_decide (y = x)) as Hs by (intros; by apply bool_decide_ext).
  rewrite (Hs st_Engine0), (Hs st_Error0).
  assert (Bool.eqb st_Supported0 st_Supported1 = Bool.eqb st_Supported1 st_Supported0) as -> by
    (by destruct st_Supported0, st_Supported1).
  repeat case_bool; try done. apply eq_true_iff_eq. rewrite !sameModelSet_perm. by split.
Qed.

(** Two readings are the same view exactly when their numbers are the same and neither is
    newer. *)
Lemma SameView_spec a b :
  SameView a b = true <->
  SameNumbers a b = true /\ option_map st_ObservedAt a = option_map st_ObservedAt b.
Proof.
  unfold SameView, Changed. rewrite (SameNumbers_sym b a).
  destruct (SameNumbers a b) eqn:E; cbn [negb andb]; [| naive_solver].
  destruct a as [a|], b as [b|]; cbn in *; try done; try naive_solver.
  rewrite andb_true_iff, !negb_true_iff, !Z.ltb_ge. split; [intros []; split; [done |]; f_equal; lia |].
  intros [_ H]. simplify_eq. lia.
Qed.

(** The fields of the payload the two parsers read. *)
Definition stats_keys : list string :=
  ["total_requests"; "total_prompt_tokens"; "total_completion_tokens"; "total_cached_tokens";
   "cache_efficiency"; "avg_prefill_tps"; "avg_generation_tps"; "active_models"].

(** Nothing else of the payload, such as the engine's key, address or port, can show in
    the published view. *)
Lemma ParseStats_reads_only `{!MapRange} ParseFloat l l' :
  (forall k, k ∈ stats_keys -> object_map l !! k = object_map l' !! k) ->
  ParseStats ParseFloat (JObj l) = ParseStats ParseFloat (JObj l').
Proof.
  intros Hk. unfold ParseStats, decodeFields, counterField, rateField, intField, numberField.
  rewrite !Hk by (unfold stats_keys; set_solver). done.
Qed.

(** A count is an int64, whatever the payload holds; a whole literal in range is itself. *)
Lemma number_Int64_range n z : number_Int64 n = Some z -> in_int64 z.
Proof. destruct n; cbn; try done. case_bool_decide; naive_solver. Qed.

(** A literal one below the smallest int64 is rounded to it on the way through float64. *)
Example count_rounds_up :
  intField (fun _ => None) {[ "n" := JInt (- 2 ^ 63 - 1) ]} "n" = Some (- 2 ^ 63).
Proof. vm_compute. reflexivity. Qed.
