(* ===== verification/Noderec.v ===== *)
(** The consolidated node record (services/shared/noderec/noderec.go): the TXT wire
    form a node advertises, its parser and printer, the static transport policy,
    and the directory entry with its identity and selection rules. *)
From S2P Require Import Prelude.
From S2P Require Import GoStd.
From S2P Require Import GoBytes.
From S2P Require Import EngineNative.

Open Scope string_scope.
Open Scope list_scope.
Open Scope Z_scope.

(** * Constants *)

Definition SchemaVersion : string := "1".
Definition KeySchema : string := "v".
Definition KeyHostUUID : string := "uuid".
Definition KeyClusterUUID : string := "cluster-uuid".
Definition KeyIP : string := "ip".
Definition KeyIPs : string := "ips".
Definition IPsSeparator : ascii := ",".
Definition MaxAdvertisedIPs : nat := 4.
Definition maxTXTStringLen : nat := 255.

(** The service keys, in [serviceKeyOrder]. *)
Definition ServiceNodeInfo : string := "ni".
Definition ServiceOllama : string := "ol".
Definition ServiceLMStudio : string := "lm".
Definition ServiceOMLX : string := "om".
Definition ServiceErrors : string := "er".
Definition ServiceWorkload : string := "wl".
Definition ServiceCluster : string := "cl".
Definition ServiceEngineManager : string := "em".
Definition ServiceEngineControl : string := "ec".

Definition serviceKeyOrder : list string :=
  [ServiceNodeInfo; ServiceOllama; ServiceLMStudio; ServiceOMLX; ServiceErrors;
   ServiceWorkload; ServiceCluster; ServiceEngineManager; ServiceEngineControl].

(** * Transport policy *)

Inductive Transport : Type :=
| TransportPlain
| TransportMTLSWhenClustered
| TransportSplit.

Definition ServiceKey_Transport (s : string) : Transport :=
  if bool_decide (s = ServiceErrors) || bool_decide (s = ServiceWorkload)
     || bool_decide (s = ServiceEngineControl) then TransportMTLSWhenClustered
  else if bool_decide (s = ServiceCluster) then TransportSplit
  else TransportPlain.

Definition UsesMTLS (s : string) (targetClustered : bool) : bool :=
  match ServiceKey_Transport s with
  | TransportPlain => false
  | TransportMTLSWhenClustered | TransportSplit => targetClustered
  end.

(** * The TXT record *)

Record NodeRecord : Type := mkNodeRecord {
  rec_SchemaVersion : string;
  rec_HostUUID : string;
  rec_ClusterUUID : string;
  rec_IP : string;
  rec_IPs : list string;
  rec_Services : gmap string Z
}.

Definition rec_Clustered (r : NodeRecord) : bool := negb (bool_decide (rec_ClusterUUID r = "")).

Definition rec_Port (r : NodeRecord) (s : string) : option Z := rec_Services r !! s.

Definition with_IPs (r : NodeRecord) (ips : list string) : NodeRecord :=
  mkNodeRecord (rec_SchemaVersion r) (rec_HostUUID r) (rec_ClusterUUID r) (rec_IP r) ips
    (rec_Services r).

Definition with_Services (r : NodeRecord) (s : gmap string Z) : NodeRecord :=
  mkNodeRecord (rec_SchemaVersion r) (rec_HostUUID r) (rec_ClusterUUID r) (rec_IP r) (rec_IPs r) s.

(** The capped loop over the parts of [ips=]. *)
Fixpoint append_ips (ips : list string) (parts : list string) : list string :=
  match parts with
  | [] => ips
  | part :: parts =>
      if Nat.leb MaxAdvertisedIPs (length ips) then ips
      else
        let part := TrimSpace part in
        append_ips (if bool_decide (part = "") then ips else ips ++ [part]) parts
  end.

(** One round of the [ParseTXT] loop. *)
Definition parse_entry (r : NodeRecord) (kv : string) : NodeRecord :=
  match cut "=" kv with
  | None => r
  | Some (key, val) =>
      if bool_decide (key = KeySchema) then
        mkNodeRecord val (rec_HostUUID r) (rec_ClusterUUID r) (rec_IP r) (rec_IPs r) (rec_Services r)
      else if bool_decide (key = KeyHostUUID) then
        mkNodeRecord (rec_SchemaVersion r) val (rec_ClusterUUID r) (rec_IP r) (rec_IPs r)
          (rec_Services r)
      else if bool_decide (key = KeyClusterUUID) then
        mkNodeRecord (rec_SchemaVersion r) (rec_HostUUID r) val (rec_IP r) (rec_IPs r)
          (rec_Services r)
      else if bool_decide (key = KeyIP) then
        mkNodeRecord (rec_SchemaVersion r) (rec_HostUUID r) (rec_ClusterUUID r) val (rec_IPs r)
          (rec_Services r)
      else if bool_decide (key = "otel") then r
      else if bool_decide (key = KeyIPs) then
        with_IPs r (append_ips (rec_IPs r) (split IPsSeparator val))
      else match Atoi val with
           | Some port => if 0 <? port then with_Services r (<[key := port]> (rec_Services r)) else r
           | None => r
           end
  end.

Definition ParseTXT (txt : list string) : NodeRecord :=
  foldl parse_entry (mkNodeRecord "" "" "" "" [] ∅) txt.

Definition entry (key val : string) : string := key +:+ String "=" val.

Definition opt_entry (key val : string) : list string :=
  if bool_decide (val = "") then [] else [entry key val].

Definition service_entry (p : string * Z) : string := entry p.1 (Itoa p.2).

Section Print.
Context `{!MapRange}.

Definition TXT (r : NodeRecord) : list string :=
  let ver := if bool_decide (rec_SchemaVersion r = "") then SchemaVersion else rec_SchemaVersion r in
  let ips := if Nat.ltb 1 (length (rec_IPs r))
             then [entry KeyIPs (join IPsSeparator (take MaxAdvertisedIPs (rec_IPs r)))] else [] in
  let known := omap (fun s => match rec_Services r !! s with
                              | Some port => Some (service_entry (s, port))
                              | None => None
                              end) serviceKeyOrder in
  let extra := sort_by str_ltb
                 (service_entry <$> List.filter (fun '(s, _) => negb (bool_decide (s ∈ serviceKeyOrder)))
                                      (range (rec_Services r))) in
  entry KeySchema ver :: opt_entry KeyHostUUID (rec_HostUUID r)
    ++ opt_entry KeyClusterUUID (rec_ClusterUUID r) ++ opt_entry KeyIP (rec_IP r)
    ++ ips ++ known ++ extra.
End Print.

(** The first entry over the DNS per-string limit: its key and its length. *)
Fixpoint ValidateTXTSize (txt : list string) : option (string * nat) :=
  match txt with
  | [] => None
  | s :: txt =>
      if Nat.ltb maxTXTStringLen (String.length s)
      then Some (match cut "=" s with Some (key, _) => key | None => s end, String.length s)
      else ValidateTXTSize txt
  end.

(** * Directory entries *)

Record ServiceStatus : Type := mkServiceStatus { ss_Port : Z; ss_Probe : string }.

(** ** Inventory a node reports *)

Definition MemoryUnavailable : string := "unavailable".

Record GPUInfo : Type := mkGPU {
  gpu_Name : string; gpu_MemoryKind : string; gpu_VRAMBytes : option Z; gpu_VRAMUsedBytes : option Z;
  gpu_SharedBytes : option Z; gpu_SharedUsedBytes : option Z; gpu_UtilizationPercent : option Z
}.
Record CPUInfo : Type := mkCPU { cpu_Name : string; cpu_Cores : Z; cpu_UtilizationPercent : Z }.
Record MemoryInfo : Type := mkMemory { mem_TotalBytes : Z; mem_UsedBytes : Z }.
#[export] Instance GPUInfo_eq_dec : EqDecision GPUInfo.
Proof. solve_decision. Defined.
#[export] Instance CPUInfo_eq_dec : EqDecision CPUInfo.
Proof. solve_decision. Defined.
#[export] Instance MemoryInfo_eq_dec : EqDecision MemoryInfo.
Proof. solve_decision. Defined.
#[export] Instance ServiceStatus_eq_dec : EqDecision ServiceStatus.
Proof. solve_decision. Defined.

Definition readingEqual (a b : option Z) : bool :=
  match a, b with Some a, Some b => a =? b | None, None => true | _, _ => false end.
Definition GPUInfo_Equal (g other : GPUInfo) : bool :=
  bool_decide (gpu_Name g = gpu_Name other) && bool_decide (gpu_MemoryKind g = gpu_MemoryKind other)
  && readingEqual (gpu_VRAMBytes g) (gpu_VRAMBytes other) && readingEqual (gpu_VRAMUsedBytes g) (gpu_VRAMUsedBytes other)
  && readingEqual (gpu_SharedBytes g) (gpu_SharedBytes other)
  && readingEqual (gpu_SharedUsedBytes g) (gpu_SharedUsedBytes other)
  && readingEqual (gpu_UtilizationPercent g) (gpu_UtilizationPercent other).

(** ** The entry: pointers and slices that may be nil are options *)

Record DirectoryNode : Type := mkDirectoryNode {
  dn_HostUUID : string;
  dn_Name : string;
  dn_IP : string;
  dn_IPs : list string;
  dn_ClusterUUID : string;
  dn_Trusted : bool;
  dn_PeerRecordID : string;
  dn_IdentityVerification : string;
  dn_Services : gmap string ServiceStatus;
  dn_GPUs : option (list GPUInfo);
  dn_CPU : option CPUInfo;
  dn_Memory : option MemoryInfo;
  dn_Models : option (list string);
  dn_ModelsByEngine : option (gmap string (list string));
  dn_LoadedByEngine : option (gmap string (list string));
  dn_EngineNative : option Stats;
  dn_LastSeen : Z
}.

(** An entry before any enrichment. *)
Definition bare_node (host name ip : string) (ips : list string) (cluster : string) (trusted : bool)
    (record verification : string) (services : gmap string ServiceStatus) : DirectoryNode :=
  mkDirectoryNode host name ip ips cluster trusted record verification services
    None None None None None None None 0.

(** The identifiers of entries that no identity proof backs. *)
Definition nul_sep : string := String "000" "".
Definition PreviewRecordID (name claimedHostUUID : string) : string :=
  "preview:" +:+ hex (sha256 (name +:+ nul_sep +:+ claimedHostUUID)).
Definition ManualRecordID (id : string) : string := "manual:" +:+ hex (sha256 id).

Definition reserved_key (s : string) : bool := has_prefix "preview:" s || has_prefix "manual:" s.

Definition RecordKey (n : DirectoryNode) : string :=
  if bool_decide (dn_IdentityVerification n = "local")
     || bool_decide (dn_IdentityVerification n = "verified") then
    if reserved_key (dn_HostUUID n) then "" else dn_HostUUID n
  else if reserved_key (dn_PeerRecordID n) then dn_PeerRecordID n
  else "".

Definition RecordSelector (key : string) : DirectoryNode :=
  if reserved_key key
  then bare_node "" "" "" [] "" false key "unverified" ∅
  else bare_node key "" "" [] "" false "" "verified" ∅.

Definition ServicePeer (n : DirectoryNode) : bool :=
  negb (bool_decide (RecordKey n = ""))
  && (bool_decide (dn_IdentityVerification n = "local")
      || (bool_decide (dn_IdentityVerification n = "verified") && dn_Trusted n
          && negb (bool_decide (dn_PeerRecordID n = "")))).

Definition dn_Clustered (n : DirectoryNode) : bool := negb (bool_decide (dn_ClusterUUID n = "")).

Definition CandidateIPs (n : DirectoryNode) : list string :=
  match dn_IPs n with
  | [] => if bool_decide (dn_IP n = "") then [] else [dn_IP n]
  | ips => ips
  end.

Definition AddressTXT (n : DirectoryNode) : list string :=
  match CandidateIPs n with
  | [] => []
  | ip :: rest =>
      entry KeyIP ip ::
        match rest with
        | [] => []
        | _ => [entry KeyIPs (join IPsSeparator (ip :: rest))]
        end
  end.

Definition HasService (n : DirectoryNode) (s : string) : bool :=
  bool_decide (is_Some (dn_Services n !! s)).

Definition EngineModels (n : DirectoryNode) (engine : string) : list string :=
  match dn_ModelsByEngine n with
  | Some by_engine => default [] (by_engine !! engine)
  | None => default [] (dn_Models n)
  end.

(** [SubscribeParams.Matches] *)
Definition Matches (services : list string) (n : DirectoryNode) : bool :=
  match services with
  | [] => true
  | _ => existsb (HasService n) services
  end.

(** * Facts *)

Lemma cut_entry k v : has_char "=" k = false -> cut "=" (entry k v) = Some (k, v).
Proof. apply cut_app. Qed.

Lemma append_ips_app acc l :
  Forall (fun p => TrimSpace p = p /\ p <> "") l -> (length acc + length l <= MaxAdvertisedIPs)%nat ->
  append_ips acc l = acc ++ l.
Proof.
  intros Hl. revert acc. induction Hl as [|p l [Ht Hp] Hl IH]; intros acc Hlen; cbn [append_ips length] in *.
  - by rewrite app_nil_r.
  - destruct (Nat.leb_spec MaxAdvertisedIPs (length acc)); [unfold MaxAdvertisedIPs in *; lia |].
    rewrite Ht, bool_decide_false by done. rewrite IH.
    + by rewrite <- app_assoc.
    + rewrite length_app. simpl. lia.
Qed.

Lemma append_ips_bound acc l :
  (length acc <= MaxAdvertisedIPs)%nat -> (length (append_ips acc l) <= MaxAdvertisedIPs)%nat.
Proof.
  revert acc. induction l as [|p l IH]; intros acc Hl; cbn [append_ips]; [done |].
  destruct (Nat.leb_spec MaxAdvertisedIPs (length acc)); [done |]. apply IH.
  case_bool; [done |]. rewrite length_app. simpl. lia.
Qed.

(** A service key the parser files under [Services]. *)
Definition service_key_ok (s : string) : Prop :=
  has_char "=" s = false /\
  s ∉ [KeySchema; KeyHostUUID; KeyClusterUUID; KeyIP; "otel"; KeyIPs].

Lemma parse_service r s p :
  service_key_ok s -> 0 < p < 2 ^ 63 ->
  parse_entry r (service_entry (s, p)) = with_Services r (<[s := p]> (rec_Services r)).
Proof.
  intros [Hc Hs] Hp. unfold parse_entry, service_entry. cbn [fst snd].
  rewrite cut_entry by done. rewrite !not_elem_of_cons in Hs.
  repeat rewrite bool_decide_false by tauto. rewrite Atoi_Itoa by lia.
  by destruct (Z.ltb_spec 0 p); [| lia].
Qed.

Definition insert_all (m : gmap string Z) (l : list (string * Z)) : gmap string Z :=
  foldl (fun m p => <[p.1 := p.2]> m) m l.

Lemma parse_services r l :
  (forall s p, (s, p) ∈ l -> service_key_ok s /\ 0 < p < 2 ^ 63) ->
  foldl parse_entry r (service_entry <$> l) = with_Services r (insert_all (rec_Services r) l).
Proof.
  revert r. induction l as [|[s p] l IH]; intros r Hl; simpl; [by destruct r |].
  destruct (Hl s p) as [Hs Hp]; [left |]. rewrite parse_service by done.
  rewrite IH; [done |]. intros s' p' Hin. apply Hl. by right.
Qed.

Lemma insert_all_lookup m l :
  NoDup l.*1 -> insert_all m l = list_to_map l ∪ m.
Proof.
  revert m. induction l as [|[s p] l IH]; intros m Hnd; simpl in *; [by rewrite (left_id_L ∅ (∪)) |].
  apply NoDup_cons in Hnd as [Hs Hnd]. rewrite IH by done.
  rewrite <- insert_union_r by (by apply not_elem_of_list_to_map_1). by rewrite insert_union_l.
Qed.

(** The service ports split into known and unknown keys without loss. *)
Lemma known_perm (m : gmap string Z) (l : list string) :
  NoDup l ->
  omap (fun s => match m !! s with Some p => Some (s, p) | None => None end) l ≡ₚ
  List.filter (fun '(s, _) => bool_decide (s ∈ l)) (map_to_list m).
Proof.
  intros Hl. apply NoDup_Permutation.
  - induction Hl as [|s l Hs Hl IH]; simpl; [constructor |].
    destruct (m !! s) eqn:E; [| done]. constructor; [| done].
    rewrite list_elem_of_omap. intros (x & Hx & Heq). destruct (m !! x); naive_solver.
  - apply NoDup_ListNoDup, List.NoDup_filter, NoDup_ListNoDup, NoDup_map_to_list.
  - intros [s p]. rewrite list_elem_of_omap, list_elem_of_In, filter_In, <- list_elem_of_In,
      elem_of_map_to_list, bool_decide_eq_true. split.
    + intros (x & Hx & Heq). destruct (m !! x) eqn:E; naive_solver.
    + intros [Hm Hs]. exists s. by rewrite Hm.
Qed.

Lemma filter_split_perm {A} (f g : A -> bool) (l : list A) :
  (forall x, g x = negb (f x)) -> List.filter f l ++ List.filter g l ≡ₚ l.
Proof.
  intros Hg. induction l as [|x l IH]; simpl; [done |]. rewrite (Hg x).
  destruct (f x); simpl; [by rewrite IH |]. by rewrite <- Permutation_middle, IH.
Qed.

Lemma known_entries (m : gmap string Z) (l : list string) :
  omap (fun s => match m !! s with Some p => Some (service_entry (s, p)) | None => None end) l =
  service_entry <$> omap (fun s => match m !! s with Some p => Some (s, p) | None => None end) l.
Proof.
  induction l as [|s l IH]; [done |]. cbn. destruct (m !! s); cbn; by rewrite IH.
Qed.

Section PrintFacts.
Context `{MR : !MapRange}.

(** The service entries printed are those of some listing of the map. *)
Lemma printed_services (r : NodeRecord) :
  exists l, l ≡ₚ map_to_list (rec_Services r) /\
    omap (fun s => match rec_Services r !! s with
                   | Some port => Some (service_entry (s, port))
                   | None => None
                   end) serviceKeyOrder
    ++ sort_by str_ltb
         (service_entry <$> List.filter (fun '(s, _) => negb (bool_decide (s ∈ serviceKeyOrder)))
                              (range (rec_Services r))) = service_entry <$> l.
Proof.
  set (m := rec_Services r).
  destruct (Permutation_map_inv service_entry
    (List.filter (fun '(s, _) => negb (bool_decide (s ∈ serviceKeyOrder))) (range m))
    (l1 := sort_by str_ltb (service_entry <$>
       List.filter (fun '(s, _) => negb (bool_decide (s ∈ serviceKeyOrder))) (range m))))
    as (extra & He & Hp).
  { by rewrite sort_by_perm. }
  exists (omap (fun s => match m !! s with Some p => Some (s, p) | None => None end) serviceKeyOrder
          ++ extra). split.
  - rewrite known_perm by (vm_compute; apply (bool_decide_unpack _); vm_compute; exact I).
    rewrite <- Hp.
    assert (forall l l' : list (string * Z), l ≡ₚ l' ->
      List.filter (fun '(s, _) => negb (bool_decide (s ∈ serviceKeyOrder))) l ≡ₚ
      List.filter (fun '(s, _) => negb (bool_decide (s ∈ serviceKeyOrder))) l') as Hf.
    { intros l l' Hl. induction Hl as [|[s p] l l' Hl IH|[s p] [s' p'] l|l1 l2 l3 H1 IH1 H2 IH2]; simpl; try done.
      - by case_match; [rewrite IH |].
      - repeat case_match; try done. constructor.
      - by rewrite IH1. }
    rewrite (Hf _ _ (range_perm m)). apply filter_split_perm. by intros [].
  - rewrite fmap_app, He. f_equal. apply known_entries.
Qed.
End PrintFacts.

(** What the TXT form keeps of a record: an empty version is printed as the
    current one, and the candidate list only when it says more than [ip=], capped. *)
Definition normalise (r : NodeRecord) : NodeRecord :=
  mkNodeRecord (if bool_decide (rec_SchemaVersion r = "") then SchemaVersion else rec_SchemaVersion r)
    (rec_HostUUID r) (rec_ClusterUUID r) (rec_IP r)
    (if Nat.ltb 1 (length (rec_IPs r)) then take MaxAdvertisedIPs (rec_IPs r) else [])
    (rec_Services r).

(** A record that fits the wire syntax. *)
Record wire_ok (r : NodeRecord) : Prop := {
  ok_ips : Forall (fun p => has_char IPsSeparator p = false /\ TrimSpace p = p /\ p <> "") (rec_IPs r);
  ok_services : forall s p, rec_Services r !! s = Some p -> service_key_ok s /\ 0 < p < 2 ^ 63
}.

Lemma parse_opt_entry r k v (f : NodeRecord -> string -> NodeRecord) :
  (forall r v, parse_entry r (entry k v) = f r v) -> f r "" = r ->
  foldl parse_entry r (opt_entry k v) = f r v.
Proof.
  intros Hf Hr. unfold opt_entry. case_bool; simpl; [unbool; by subst |]. apply Hf.
Qed.

(** Round trip of the advertised record: parsing what a node prints gives the
    record back (with the current version filled in and the candidate list capped),
    whatever order the service map is walked in. *)
Theorem ParseTXT_TXT (R : MapRange) (r : NodeRecord) :
  wire_ok r -> ParseTXT (TXT r) = normalise r.
Proof.
  intros [Hips Hsvc]. unfold ParseTXT, TXT.
  destruct (printed_services r) as (l & Hl & ->).
  destruct r as [ver host cluster ip ips services]; simpl in *.
  set (v := if bool_decide (ver = "") then SchemaVersion else ver).
  change (parse_entry _ (entry KeySchema v)) with (mkNodeRecord v "" "" "" [] ∅).
  rewrite !foldl_app.
  rewrite (parse_opt_entry _ KeyHostUUID host (fun r v => mkNodeRecord (rec_SchemaVersion r) v
    (rec_ClusterUUID r) (rec_IP r) (rec_IPs r) (rec_Services r))) by (intros; reflexivity).
  rewrite (parse_opt_entry _ KeyClusterUUID cluster (fun r v => mkNodeRecord (rec_SchemaVersion r)
    (rec_HostUUID r) v (rec_IP r) (rec_IPs r) (rec_Services r))) by (intros; reflexivity).
  rewrite (parse_opt_entry _ KeyIP ip (fun r v => mkNodeRecord (rec_SchemaVersion r)
    (rec_HostUUID r) (rec_ClusterUUID r) v (rec_IPs r) (rec_Services r))) by (intros; reflexivity).
  simpl. rewrite parse_services.
  2: { intros s p Hin. apply Hsvc. rewrite Hl in Hin. by apply elem_of_map_to_list. }
  rewrite insert_all_lookup by (rewrite Hl; apply NoDup_fst_map_to_list).
  assert (list_to_map l = services) as Hmap.
  { rewrite (list_to_map_proper l (map_to_list services)); [apply list_to_map_to_list | | done].
    rewrite Hl. apply NoDup_fst_map_to_list. }
  unfold normalise, with_Services. simpl. rewrite Hmap.
  destruct (Nat.ltb_spec 1 (length ips)) as [Hlen | Hlen]; simpl.
  - change (parse_entry ?r (entry KeyIPs ?x)) with (with_IPs r (append_ips (rec_IPs r) (split IPsSeparator x))).
    rewrite split_join.
    + rewrite append_ips_app; simpl.
      * by rewrite (right_id_L ∅ (∪)).
      * apply Forall_take. eapply Forall_impl; [exact Hips |]. by intros x (? & ? & ?).
      * rewrite length_take. lia.
    + destruct ips as [|? [|? ?]]; simpl in *; done || lia.
    + apply Forall_take. eapply Forall_impl; [exact Hips |]. by intros x (? & ? & ?).
  - by rewrite (right_id_L ∅ (∪)).
Qed.

Definition demo_record : NodeRecord :=
  mkNodeRecord "" "h-1" "" "10.0.0.5" ["10.0.0.5"; "192.168.1.7"]
    (<["zz" := 9]> (<["ol" := 11434]> ∅)).

Lemma ParseTXT_TXT_witness :
  wire_ok demo_record /\
  @TXT ascending_range demo_record =
    ["v=1"; "uuid=h-1"; "ip=10.0.0.5"; "ips=10.0.0.5,192.168.1.7"; "ol=11434"; "zz=9"] /\
  ParseTXT (@TXT descending_range demo_record) = normalise demo_record.
Proof.
  assert (wire_ok demo_record) as Hok.
  { constructor.
    - repeat constructor; vm_compute; done.
    - intros s p. unfold demo_record. simpl. rewrite !lookup_insert_Some, lookup_empty.
      intros [[<- <-] | [_ [[<- <-] | [_ ?]]]]; [.. | done];
        (split; [split; [done | apply (bool_decide_unpack _); vm_compute; exact I] | lia]). }
  split; [exact Hok |]. split; [vm_compute; reflexivity |].
  apply ParseTXT_TXT. exact Hok.
Defined.

(** An entry whose identity was proved locally or over mutual TLS. *)
Definition authenticated (n : DirectoryNode) : bool :=
  bool_decide (dn_IdentityVerification n = "local")
  || bool_decide (dn_IdentityVerification n = "verified").

Lemma RecordKey_authenticated n :
  RecordKey n <> "" -> reserved_key (RecordKey n) = negb (authenticated n).
Proof.
  unfold RecordKey. fold (authenticated n). destruct (authenticated n); case_bool; done.
Qed.

(** Directory keys separate proven identities from claims: an authenticated and
    an unauthenticated entry never share a key, whatever either one claims; a
    service peer always has an authenticated key; and selecting by a key addresses
    the entry that has it. *)
Theorem RecordKey_separates (a b : DirectoryNode) :
  RecordKey a <> "" ->
  (RecordKey a = RecordKey b -> authenticated a = authenticated b) /\
  (ServicePeer a = true -> authenticated a = true /\ reserved_key (RecordKey a) = false) /\
  RecordKey (RecordSelector (RecordKey a)) = RecordKey a /\
  authenticated (RecordSelector (RecordKey a)) = authenticated a.
Proof.
  intros Ha. pose proof (RecordKey_authenticated a Ha) as Hk. split_and!.
  - intros Heq. rewrite Heq in Ha, Hk. rewrite (RecordKey_authenticated b Ha) in Hk.
    by destruct (authenticated a), (authenticated b).
  - unfold ServicePeer. intros Hp. unbool.
    assert (authenticated a = true) as E.
    { unfold authenticated. destruct (bool_decide (dn_IdentityVerification a = "local")); [done |].
      simpl in H0. unbool. by rewrite bool_decide_true. }
    by rewrite Hk, E.
  - unfold RecordSelector. destruct (reserved_key (RecordKey a)) eqn:E; unfold RecordKey at 1; simpl;
      by rewrite E.
  - unfold RecordSelector. rewrite Hk. by destruct (authenticated a).
Qed.

Lemma RecordKey_separates_witness :
  let a := bare_node "preview:x" "n" "" [] "" true "preview:abc" "unverified" ∅ in
  let b := bare_node "preview:abc" "n" "" [] "" true "r" "verified" ∅ in
  RecordKey a = "preview:abc" /\ RecordKey b = "" /\ (ServicePeer a = true -> authenticated a = true).
Proof.
  split; [reflexivity |]. split; [reflexivity |]. intros H.
  apply (RecordKey_separates
           (bare_node "preview:x" "n" "" [] "" true "preview:abc" "unverified" ∅)
           (bare_node "preview:abc" "n" "" [] "" true "r" "verified" ∅)); [done | exact H].
Defined.
