(* ===== verification/Netpick.v ===== *)
(** Address selection (services/shared/netpick): which of a peer's advertised
    addresses to dial (netpick.go) and which of its own a host publishes (local.go). *)
From S2P Require Import Prelude.
From S2P Require Import GoStd.
From S2P Require Import Noderec.

Open Scope string_scope.
Open Scope list_scope.
Open Scope Z_scope.

(** * Scoring an address (netpick.go) *)

Definition scoreUnparseable : Z := -1000.
Definition scoreLoopback : Z := -500.
Definition scoreLinkLocal : Z := -100.
Definition scoreCGNAT : Z := -50.
Definition scoreDocker : Z := 20.
Definition scoreIPv6Global : Z := 20.
Definition scoreIPv6ULA : Z := 30.
Definition scorePublic : Z := 40.
Definition scorePrivate : Z := 100.

Definition dockerDefaultBridge (ip : IP) : bool :=
  match To4 ip with Some (a :: b :: _) => (a =? 172) && (b =? 17) | _ => false end.

(** 100.64.0.0/10 *)
Definition cgnat (a b : Z) : bool := (a =? 100) && (Z.land b 192 =? 64).

Definition scoreIP (ip : option IP) : Z :=
  match ip with
  | None => scoreUnparseable
  | Some ip =>
      if IsLoopback ip then scoreLoopback
      else match To4 ip with
           | Some (a :: b :: _) =>
               if IsLinkLocalUnicast ip then scoreLinkLocal
               else if cgnat a b then scoreCGNAT
               else if dockerDefaultBridge ip then scoreDocker
               else if (a =? 10) || ((a =? 172) && (16 <=? b) && (b <=? 31))
                       || ((a =? 192) && (b =? 168)) then scorePrivate
               else scorePublic
           | _ =>
               if IsLinkLocalUnicast ip then scoreLinkLocal
               else if IsPrivate6 ip then scoreIPv6ULA
               else scoreIPv6Global
           end
  end.

Definition ScoreAddress (addr : string) : Z := scoreIP (ParseIP (TrimSpace addr)).

(** * Dialing a peer (netpick.go) *)

Record scored : Type := mkScored { sc_addr : string; sc_score : Z }.

Definition scored_less (a b : scored) : bool :=
  if negb (sc_score a =? sc_score b) then sc_score b <? sc_score a
  else str_ltb (sc_addr a) (sc_addr b).

Definition RankRemote (addrs : list string) : list string :=
  let ranked := omap (fun a => match ParseIP (TrimSpace a) with
                               | Some ip => Some (mkScored a (scoreIP (Some ip)))
                               | None => None
                               end) addrs in
  sc_addr <$> sort_by scored_less ranked.

Fixpoint IPFromTXT (txt : list string) : string :=
  match txt with
  | [] => ""
  | kv :: txt =>
      match cut_prefix (KeyIP +:+ "=") kv with
      | Some v => TrimSpace v
      | None => IPFromTXT txt
      end
  end.

Definition valid_part (part : string) : option string :=
  let part := TrimSpace part in
  if negb (bool_decide (part = "")) && bool_decide (is_Some (ParseIP part)) then Some part else None.

Fixpoint IPsFromTXT (txt : list string) : list string :=
  match txt with
  | [] => []
  | kv :: txt =>
      match cut_prefix (KeyIPs +:+ "=") kv with
      | Some v => omap valid_part (split IPsSeparator v)
      | None => IPsFromTXT txt
      end
  end.

(** The closure [add] of [Candidates] over ([out], [seen]). *)
Definition add_candidate (st : list string * gmap string bool) (a : string)
    : list string * gmap string bool :=
  let '(out, seen) := st in
  let a := TrimSpace a in
  if bool_decide (a = "") || default false (seen !! a) || Nat.leb MaxAdvertisedIPs (length out)
     || bool_decide (ParseIP a = None) then st
  else (out ++ [a], <[a := true]> seen).

Definition Candidates (txt addrs : list string) : list string :=
  (foldl add_candidate ([], ∅) (IPFromTXT txt :: IPsFromTXT txt ++ RankRemote addrs)).1.

Definition Primary (txt addrs : list string) : string :=
  match Candidates txt addrs with c :: _ => c | [] => "" end.

(** * Publishing our own addresses (local.go) *)

Definition maxPrefixLen : Z := 30.

Record Evidence : Type := mkEvidence {
  ev_SendFailed : gmap string bool;
  ev_PeerOnLink : gmap string bool;
  ev_PeerObserved : gmap string bool
}.

Definition sendFailed (e : Evidence) (iface : string) : bool := default false (ev_SendFailed e !! iface).
Definition peerOnLink (e : Evidence) (iface : string) : bool := default false (ev_PeerOnLink e !! iface).
Definition peerObserved (e : Evidence) (ip : string) : bool := default false (ev_PeerObserved e !! ip).

(** [strings.ToLower] as far as ASCII patterns can see it: A-Z, U+0130 and U+212A. *)
Fixpoint ToLower (s : string) : string :=
  match s with
  | EmptyString => ""
  | String c s1 =>
      let b := byte c in
      if (65 <=? b) && (b <=? 90) then String (ascii_of_N (Z.to_N (b + 32))) (ToLower s1)
      else match s1 with
           | String c2 s2 =>
               if (b =? 196) && (byte c2 =? 176) then String "i" (ToLower s2)
               else match s2 with
                    | String c3 s3 =>
                        if (b =? 226) && (byte c2 =? 132) && (byte c3 =? 170)
                        then String "k" (ToLower s3) else String c (ToLower s1)
                    | EmptyString => String c (ToLower s1)
                    end
           | EmptyString => String c (ToLower s1)
           end
  end.

Fixpoint contains (s p : string) : bool :=
  has_prefix p s || match s with EmptyString => false | String _ s' => contains s' p end.

Definition virtualIface (name : string) : bool :=
  existsb (contains (ToLower name))
    ["veth"; "docker"; "br-"; "vethernet"; "vmnet"; "vboxnet"; "virbr";
     "tailscale"; "zt"; "utun"; "wg"; "tun"; "tap"; "ppp"; "vpn";
     "hyper-v"; "virtual"; "wsl"; "loopback"; "isatap"; "teredo"].

Definition physicalBonus (name : string) : Z :=
  let n := ToLower name in
  if contains n "wi-fi" || contains n "wifi" || contains n "wlan" || has_prefix "wl" n then 20
  else if contains n "ethernet" || has_prefix "eth" n || has_prefix "en" n then 15
  else 0.

Record localAddr : Type := mkLocalAddr { la_ip : string; la_prefixLen : Z }.

Record localIface : Type := mkLocalIface {
  li_name : string;
  li_pointToPoint : bool;
  li_addrs : list localAddr
}.

Definition isTailscaleOverlay (ifaceName : string) (ip : IP) : bool :=
  contains (ToLower ifaceName) "tailscale"
  || match To4 ip with Some (a :: b :: _) => cgnat a b | _ => false end.

Record candidate : Type := mkCandidate {
  c_ip : string;
  c_qualified : bool;
  c_sendFailed : bool;
  c_peerSeen : bool;
  c_peerOnLink : bool;
  c_routeSource : bool;
  c_physical : Z;
  c_score : Z;
  c_tailscale : bool
}.

Definition betterThan (c o : candidate) : bool :=
  if negb (Bool.eqb (c_qualified c) (c_qualified o)) then c_qualified c
  else if negb (Bool.eqb (c_peerSeen c) (c_peerSeen o)) then c_peerSeen c
  else if negb (Bool.eqb (c_peerOnLink c) (c_peerOnLink o)) then c_peerOnLink c
  else if negb (Bool.eqb (c_routeSource c) (c_routeSource o)) then c_routeSource c
  else if negb (c_physical c =? c_physical o) then c_physical o <? c_physical c
  else if negb (c_score c =? c_score o) then c_score o <? c_score c
  else str_ltb (c_ip c) (c_ip o).

(** [net.IP.String] of an IPv4 address. *)
Definition dotted (q : list Z) : string := join "." (Itoa <$> q).

(** One address of an interface, when it is publishable. *)
Definition rank_addr (ifi : localIface) (ev : Evidence) (routeIP : string) (physical : Z)
    (a : localAddr) : option candidate :=
  match ParseIP (la_ip a) with
  | None => None
  | Some ip =>
      match To4 ip with
      | None => None
      | Some ip4 =>
          if IsLoopback ip || IsLinkLocalUnicast ip then None
          else if dockerDefaultBridge ip then None
          else
            let narrow := maxPrefixLen <=? la_prefixLen a in
            let sf := sendFailed ev (li_name ifi) in
            Some (mkCandidate (dotted ip4)
              (negb (li_pointToPoint ifi) && negb narrow && negb sf) sf
              (peerObserved ev (dotted ip4)) (peerOnLink ev (li_name ifi))
              (negb (bool_decide (routeIP = "")) && bool_decide (dotted ip4 = routeIP))
              physical (scoreIP (Some ip)) (isTailscaleOverlay (li_name ifi) ip))
      end
  end.

Definition iface_candidates (ev : Evidence) (routeIP : string) (virtual : bool) (ifi : localIface)
    : list candidate :=
  if negb (Bool.eqb (virtualIface (li_name ifi)) virtual) then []
  else
    let physical := if negb virtual then physicalBonus (li_name ifi) else 0 in
    omap (rank_addr ifi ev routeIP physical) (li_addrs ifi).

Definition rankIfaces (ifaces : list localIface) (ev : Evidence) (routeIP : string) (virtual : bool)
    : list candidate :=
  sort_by betterThan (ifaces ≫= iface_candidates ev routeIP virtual).

Definition overlayFallbacks (cands : list candidate) : list candidate :=
  List.filter (fun c => (c_peerSeen c || c_tailscale c) && negb (c_sendFailed c)) cands.

(** The [seen] loop of [addresses]. *)
Fixpoint keep_first (seen : list string) (l : list string) : list string :=
  match l with
  | [] => []
  | a :: l => if bool_decide (a ∈ seen) then keep_first seen l
              else a :: keep_first (a :: seen) l
  end.

Definition addresses (cands : list candidate) : list string := keep_first [] (c_ip <$> cands).

Definition rankLocal (ifaces : list localIface) (ev : Evidence) (routeIP : string) : list string :=
  let physical := rankIfaces ifaces ev routeIP false in
  let overlay := rankIfaces ifaces ev routeIP true in
  match physical with
  | p :: _ => if c_qualified p then addresses (physical ++ overlayFallbacks overlay)
              else addresses (overlay ++ physical)
  | [] => addresses (overlay ++ physical)
  end.

(** A 32-bit reading of four bytes, and prefix containment. *)
Definition be32 (q : list Z) : Z := foldl (fun acc b => Z.lor (Z.shiftl acc 8) b) 0 q.

Definition network_contains (ip4 peer : list Z) (prefixLen : Z) : bool :=
  (prefixLen <=? 32)
  && (Z.shiftr (be32 ip4) (32 - prefixLen) =? Z.shiftr (be32 peer) (32 - prefixLen)).

Definition parse_peer (p : string) : option (list Z) :=
  match ParseIP (TrimSpace p) with
  | Some ip => match To4 ip with
               | Some q => if IsLoopback ip then None else Some q
               | None => None
               end
  | None => None
  end.

Definition addr_faces (parsed : list (list Z)) (a : localAddr) : bool :=
  if la_prefixLen a <? 0 then false
  else match ParseIP (la_ip a) with
       | Some ip => match To4 ip with
                    | Some ip4 => existsb (fun peer => negb (bool_decide (peer = ip4))
                                             && network_contains ip4 peer (la_prefixLen a)) parsed
                    | None => false
                    end
       | None => false
       end.

Definition facingPeers (ifaces : list localIface) (peerIPs : list string) : gmap string bool :=
  let parsed := omap parse_peer peerIPs in
  match parsed with
  | [] => ∅
  | _ => foldl (fun out ifi =>
                  if virtualIface (li_name ifi) then out
                  else if existsb (addr_faces parsed) (li_addrs ifi)
                       then <[li_name ifi := true]> out else out) ∅ ifaces
  end.

(** * Facts *)

Lemma keep_first_elem seen l x : x ∈ keep_first seen l <-> x ∈ l /\ x ∉ seen.
Proof.
  revert seen. induction l as [|a l IH]; intros seen; simpl; [set_solver |].
  case_bool; unbool.
  - rewrite IH. set_solver.
  - rewrite elem_of_cons, IH. destruct (decide (x = a)); set_solver.
Qed.

Lemma keep_first_NoDup seen l : NoDup (keep_first seen l).
Proof.
  revert seen. induction l as [|a l IH]; intros seen; simpl; [constructor |].
  case_bool; [done |]. constructor; [| done]. rewrite keep_first_elem. set_solver.
Qed.

Lemma keep_first_ext seen seen' l :
  (forall x, x ∈ seen <-> x ∈ seen') -> keep_first seen l = keep_first seen' l.
Proof.
  revert seen seen'. induction l as [|a l IH]; intros seen seen' Hs; simpl; [done |].
  rewrite (bool_decide_ext (a ∈ seen) (a ∈ seen')) by apply Hs.
  case_bool; [by apply IH |]. f_equal. apply IH. set_solver.
Qed.

Lemma keep_first_app seen l l' :
  NoDup l -> (forall x, x ∈ l -> x ∉ seen) ->
  keep_first seen (l ++ l') = l ++ keep_first (seen ++ l) l'.
Proof.
  revert seen. induction l as [|a l IH]; intros seen Hnd Hs; simpl.
  - by rewrite app_nil_r.
  - apply NoDup_cons in Hnd as [Ha Hnd]. rewrite bool_decide_false by (apply Hs; left).
    f_equal. rewrite IH by (try done; set_solver). f_equal. apply keep_first_ext. set_solver.
Qed.

(** ** Candidates *)

(** An address worth trying: trimmed, and an IP literal. *)
Definition usable (a : string) : bool :=
  negb (bool_decide (a = "")) && negb (bool_decide (ParseIP a = None)).

Lemma add_candidate_spec l out seen :
  (forall a, default false (seen !! a) = bool_decide (a ∈ out)) ->
  (length out <= MaxAdvertisedIPs)%nat ->
  (foldl add_candidate (out, seen) l).1 =
    take MaxAdvertisedIPs (out ++ keep_first out (List.filter usable (TrimSpace <$> l))).
Proof.
  revert out seen. induction l as [|a l IH]; intros out seen Hseen Hlen; cbn [foldl].
  - simpl. rewrite app_nil_r. by rewrite take_ge.
  - rewrite fmap_cons. set (t := TrimSpace a). cbn [List.filter]. unfold add_candidate at 2. fold t.
    rewrite Hseen. unfold usable at 1.
    destruct (bool_decide (t = "")) eqn:E1; cbn [orb negb andb]; [by apply IH |].
    destruct (bool_decide (ParseIP t = None)) eqn:E3; cbn [negb].
    { rewrite !orb_true_r. by apply IH. }
    rewrite orb_false_r. destruct (bool_decide (t ∈ out)) eqn:E2; cbn [orb keep_first].
    { rewrite E2. by apply IH. }
    rewrite E2. destruct (Nat.leb_spec MaxAdvertisedIPs (length out)) as [Hfull | Hroom].
    + rewrite (IH out seen) by done. rewrite !take_app_le by lia. done.
    + rewrite IH.
      * rewrite <- app_assoc. simpl. f_equal. f_equal. f_equal. apply keep_first_ext. set_solver.
      * intros x. destruct (decide (x = t)) as [-> | Hx].
        { rewrite lookup_insert_eq. symmetry. apply bool_decide_true. set_solver. }
        rewrite lookup_insert_ne by done. rewrite Hseen. apply bool_decide_ext. set_solver.
      * rewrite length_app. simpl. lia.
Qed.

Lemma Candidates_eq txt addrs :
  Candidates txt addrs =
    take MaxAdvertisedIPs (keep_first []
      (List.filter usable (TrimSpace <$> IPFromTXT txt :: IPsFromTXT txt ++ RankRemote addrs))).
Proof. unfold Candidates. rewrite add_candidate_spec; [done | | simpl; lia]. done. Qed.

(** The addresses tried for a peer are the usable ones among its canonical
    address, its published list and its other advertised addresses, in that order,
    each once, at most four: the loop with its cap and its seen-map computes
    exactly this, so the result is duplicate-free, bounded and made of IP literals
    whatever an unauthenticated record contains. *)
Theorem Candidates_spec (txt addrs : list string) :
  Candidates txt addrs =
    take MaxAdvertisedIPs (keep_first []
      (List.filter usable (TrimSpace <$> IPFromTXT txt :: IPsFromTXT txt ++ RankRemote addrs))) /\
  NoDup (Candidates txt addrs) /\
  (length (Candidates txt addrs) <= MaxAdvertisedIPs)%nat /\
  Forall (fun a => is_Some (ParseIP a)) (Candidates txt addrs) /\
  Primary txt addrs = hd "" (Candidates txt addrs).
Proof.
  split; [apply Candidates_eq |]. rewrite Candidates_eq. split_and!.
  - eapply sublist_NoDup; [apply keep_first_NoDup | apply sublist_take].
  - rewrite length_take. lia.
  - apply Forall_take, Forall_forall. intros a [Ha _]%keep_first_elem.
    rewrite list_elem_of_In, filter_In in Ha. destruct Ha as [_ Hu]. unfold usable in Hu. unbool.
    destruct (ParseIP a); [eauto | done].
  - unfold Primary. rewrite Candidates_eq. by destruct (take _ _).
Qed.

Lemma usable_all l :
  Forall (fun p => TrimSpace p = p /\ is_Some (ParseIP p)) l ->
  List.filter usable (TrimSpace <$> l) = l /\ omap valid_part l = l.
Proof.
  induction 1 as [|p l [Ht [ip Hip]] Hl [IH1 IH2]]; [done |].
  assert (p <> "") as Hne by (intros ->; done).
  split.
  - rewrite fmap_cons, Ht. cbn [List.filter]. unfold usable at 1. rewrite Hip.
    rewrite (bool_decide_false _ Hne). cbn. by rewrite IH1.
  - cbn. unfold valid_part at 1. rewrite Ht, Hip, (bool_decide_false _ Hne). cbn.
    by rewrite IH2.
Qed.

(** A node's own ranking survives publication: the addresses a consumer tries
    for a directory entry begin with the entry's candidate list, in its order, and
    advertised addresses the node did not rank only follow it. *)
Theorem published_order_kept (n : DirectoryNode) (addrs : list string) :
  NoDup (CandidateIPs n) -> (length (CandidateIPs n) <= MaxAdvertisedIPs)%nat ->
  Forall (fun p => has_char IPsSeparator p = false /\ TrimSpace p = p /\ is_Some (ParseIP p))
    (CandidateIPs n) ->
  exists rest, Candidates (AddressTXT n) addrs = CandidateIPs n ++ rest.
Proof.
  intros Hnd Hlen Hok. rewrite Candidates_eq. unfold AddressTXT.
  destruct (CandidateIPs n) as [|ip rest] eqn:E; [eauto |].
  set (more := match rest with [] => [] | _ => [entry KeyIPs (join IPsSeparator (ip :: rest))] end).
  assert (Forall (fun p => TrimSpace p = p /\ is_Some (ParseIP p)) (ip :: rest)) as Hok'
    by (eapply Forall_impl; [exact Hok | by intros ? (? & ? & ?)]).
  assert (IPFromTXT (entry KeyIP ip :: more) = ip) as ->.
  { apply Forall_cons_1 in Hok' as [[Ht _] _]. exact Ht. }
  assert (exists l, IPsFromTXT (entry KeyIP ip :: more) = l /\ (l = [] /\ rest = [] \/ l = ip :: rest))
    as (l & -> & Hl).
  { exists (match rest with [] => [] | _ => ip :: rest end). subst more. destruct rest as [|q rest]; [by eauto |].
    split; [| by right]. change (IPsFromTXT _) with (omap valid_part (split IPsSeparator (join IPsSeparator (ip :: q :: rest)))).
    rewrite split_join; [| done |].
    - by apply usable_all.
    - eapply Forall_impl; [exact Hok | by intros ? (? & ? & ?)]. }
  set (tail := RankRemote addrs).
  assert (exists t, keep_first [] (List.filter usable (TrimSpace <$> ip :: l ++ tail)) =
    (ip :: rest) ++ t) as [t ->].
  { change (ip :: l ++ tail) with ([ip] ++ l ++ tail). rewrite !fmap_app, !List.filter_app.
    pose proof (proj1 (usable_all [ip] ltac:(apply Forall_cons_1 in Hok' as [? _]; by constructor))) as ->.
    destruct Hl as [[-> ->] | ->].
    - rewrite keep_first_app; [eauto | done | set_solver].
    - rewrite (proj1 (usable_all _ Hok')). cbn [app keep_first].
      rewrite bool_decide_false by set_solver. rewrite bool_decide_true by set_solver.
      apply NoDup_cons in Hnd as [Hip Hnd]. cbn [app]. rewrite keep_first_app; [eauto | done | set_solver]. }
  rewrite take_app_ge by done. eauto.
Qed.

Definition demo_node : DirectoryNode :=
  bare_node "h" "n" "10.0.0.9" ["10.0.0.9"; "192.168.1.7"; "fd00::2"] "" false "" "local" ∅.

Lemma published_order_kept_witness :
  Candidates (AddressTXT demo_node) ["8.8.8.8"; "10.0.0.9"] = CandidateIPs demo_node ++ ["8.8.8.8"] /\
  exists rest, Candidates (AddressTXT demo_node) ["8.8.8.8"] = CandidateIPs demo_node ++ rest.
Proof.
  split; [vm_compute; reflexivity |]. apply published_order_kept.
  - apply (bool_decide_unpack _). vm_compute. exact I.
  - vm_compute. lia.
  - repeat constructor; vm_compute; eauto.
Defined.

(** ** Local ranking *)

Definition rank_key (c : candidate) : bool * bool * bool * bool * Z * Z * string :=
  (c_qualified c, c_peerSeen c, c_peerOnLink c, c_routeSource c, c_physical c, c_score c, c_ip c).

Lemma betterThan_separates a b :
  betterThan a b = false -> betterThan b a = false -> rank_key a = rank_key b.
Proof.
  unfold betterThan, rank_key. destruct a as [i q s p l r h c t], b as [i' q' s' p' l' r' h' c' t']; simpl.
  destruct q, q', p, p', l, l', r, r'; simpl; try done;
    repeat case_bool; unbool; intros; unbool; try lia; subst;
    rewrite (str_ltb_total i i') by done; done.
Qed.

#[export] Instance betterThan_strict_weak : StrictWeak betterThan.
Proof.
  split; unfold betterThan.
  - intros [i q s p l r h c t] [i' q' s' p' l' r' h' c' t']; simpl.
    destruct q, q', p, p', l, l', r, r'; simpl; try done;
      repeat case_bool; unbool; intros; try lia; by apply str_ltb_asym.
  - intros [i q s p l r h c t] [i' q' s' p' l' r' h' c' t'] [i2 q2 s2 p2 l2 r2 h2 c2 t2]; simpl.
    destruct q, q', q2; simpl; try done; destruct p, p', p2; simpl; try done;
      destruct l, l', l2; simpl; try done; destruct r, r', r2; simpl; try done;
      repeat case_bool; unbool; intros; unbool; try lia; by eapply str_ltb_ntrans.
Qed.

Lemma bind_perm {A B} (f : A -> list B) (l l' : list A) : l ≡ₚ l' -> l ≫= f ≡ₚ l' ≫= f.
Proof.
  induction 1 as [|x l l' Hp IH|x y l|l1 l2 l3 H1 IH1 H2 IH2]; [done | | |].
  - rewrite !bind_cons. by rewrite IH.
  - rewrite !bind_cons, !(assoc_L (++)). by rewrite (Permutation_app_comm (f y)).
  - by rewrite IH1.
Qed.

Lemma rankIfaces_keys ifaces ifaces' ev routeIP v :
  ifaces ≡ₚ ifaces' ->
  rank_key <$> rankIfaces ifaces ev routeIP v = rank_key <$> rankIfaces ifaces' ev routeIP v.
Proof.
  intros Hp. apply (sort_by_keys betterThan); [| by apply bind_perm].
  intros a b _ _. apply betterThan_separates.
Qed.

Lemma ip_of_keys (l l' : list candidate) : rank_key <$> l = rank_key <$> l' -> c_ip <$> l = c_ip <$> l'.
Proof.
  assert (forall l : list candidate, c_ip <$> l = snd <$> (rank_key <$> l)) as E
    by (intros; by rewrite <- list_fmap_compose).
  intros H. by rewrite !E, H.
Qed.

Lemma filter_sorted (f : candidate -> bool) l :
  StronglySorted (not_after betterThan) l -> StronglySorted (not_after betterThan) (List.filter f l).
Proof.
  induction 1 as [|a l Hl IH Ha]; simpl; [constructor |]. case_bool; [| done].
  constructor; [done |]. rewrite Forall_forall in *. intros x Hx. apply Ha.
  rewrite list_elem_of_In, filter_In in Hx. rewrite list_elem_of_In. tauto.
Qed.

Lemma filter_perm {A} (f : A -> bool) (l l' : list A) : l ≡ₚ l' -> List.filter f l ≡ₚ List.filter f l'.
Proof.
  induction 1 as [|x l l' Hp IH|x y l|l1 l2 l3 H1 IH1 H2 IH2]; simpl; try done.
  - case_bool; [by constructor | done].
  - destruct (f x), (f y); try done. apply Permutation_swap.
  - by rewrite IH1.
Qed.

Lemma fallbacks_keys ifaces ifaces' ev routeIP v :
  ifaces ≡ₚ ifaces' ->
  rank_key <$> overlayFallbacks (rankIfaces ifaces ev routeIP v) =
  rank_key <$> overlayFallbacks (rankIfaces ifaces' ev routeIP v).
Proof.
  intros Hp. apply (sorted_keys_unique betterThan rank_key).
  - intros a b _ _. apply betterThan_separates.
  - apply filter_sorted. apply (sort_by_sorted betterThan).
  - apply filter_sorted. apply (sort_by_sorted betterThan).
  - apply filter_perm. unfold rankIfaces. rewrite !sort_by_perm. by apply bind_perm.
Qed.

(** The published list does not depend on the order the system enumerates the
    interfaces in (nor, within one, its addresses): the comparison's last key makes
    the ranking total on what is published, so a restart cannot move the canonical
    address. *)
Theorem rankLocal_deterministic (ifaces ifaces' : list localIface) (ev : Evidence) (routeIP : string) :
  ifaces ≡ₚ ifaces' -> rankLocal ifaces ev routeIP = rankLocal ifaces' ev routeIP.
Proof.
  intros Hp. unfold rankLocal, addresses.
  pose proof (rankIfaces_keys _ _ ev routeIP false Hp) as Hph.
  pose proof (rankIfaces_keys _ _ ev routeIP true Hp) as Hov.
  pose proof (fallbacks_keys _ _ ev routeIP true Hp) as Hfb.
  apply ip_of_keys in Hov, Hfb. pose proof (ip_of_keys _ _ Hph) as Hip.
  destruct (rankIfaces ifaces ev routeIP false) as [|p ps],
    (rankIfaces ifaces' ev routeIP false) as [|p' ps']; try discriminate Hph.
  - by rewrite !app_nil_r, Hov.
  - assert (c_qualified p = c_qualified p') as <- by (rewrite !fmap_cons in Hph; unfold rank_key at 1 3 in Hph; congruence).
    case_bool; rewrite !fmap_app; by rewrite ?Hip, ?Hfb, ?Hov.
Qed.

Lemma rank_addr_safe ifi ev routeIP ph a c :
  rank_addr ifi ev routeIP ph a = Some c ->
  exists ip ip4, ParseIP (la_ip a) = Some ip /\ To4 ip = Some ip4 /\ c_ip c = dotted ip4 /\
    IsLoopback ip = false /\ IsLinkLocalUnicast ip = false /\ dockerDefaultBridge ip = false /\
    (c_qualified c = true ->
       li_pointToPoint ifi = false /\ la_prefixLen a < 30 /\ sendFailed ev (li_name ifi) = false).
Proof.
  unfold rank_addr. destruct (ParseIP (la_ip a)) as [ip|] eqn:E1; [| done].
  destruct (To4 ip) as [ip4|] eqn:E2; [| done]. repeat case_bool; intros; simplify_eq/=.
  exists ip, ip4. unbool. split_and!; try done. unfold maxPrefixLen. intros. unbool. done.
Qed.

Lemma rankIfaces_elem ifaces ev routeIP v c :
  c ∈ rankIfaces ifaces ev routeIP v <->
  exists ifi a, ifi ∈ ifaces /\ virtualIface (li_name ifi) = v /\ a ∈ li_addrs ifi /\
    rank_addr ifi ev routeIP (if negb v then physicalBonus (li_name ifi) else 0) a = Some c.
Proof.
  unfold rankIfaces. rewrite elem_of_sort_by, list_elem_of_bind. unfold iface_candidates. cbv beta. split.
  - intros (ifi & Hc & Hifi). destruct (Bool.eqb _ v) eqn:Heqb; [| set_solver].
    apply eqb_prop in Heqb. simpl in Hc. rewrite <- Heqb in *.
    apply list_elem_of_omap in Hc as (a & Ha & Hr). by exists ifi, a.
  - intros (ifi & a & Hifi & Hv & Ha & Hr). exists ifi. split; [| done].
    rewrite Hv, eqb_reflx. simpl. apply list_elem_of_omap. eauto.
Qed.

(** What a host publishes: no loopback, link-local or Docker-bridge address,
    no duplicates; and whenever some physical interface holds an address that no
    evidence disqualifies, the canonical (first) address is such an address and no
    other physical address ranks above it. *)
Theorem rankLocal_canonical (ifaces : list localIface) (ev : Evidence) (routeIP : string) :
  NoDup (rankLocal ifaces ev routeIP) /\
  (forall a, a ∈ rankLocal ifaces ev routeIP ->
     exists ifi la ip ip4, ifi ∈ ifaces /\ la ∈ li_addrs ifi /\ ParseIP (la_ip la) = Some ip /\
       To4 ip = Some ip4 /\ a = dotted ip4 /\ IsLoopback ip = false /\
       IsLinkLocalUnicast ip = false /\ dockerDefaultBridge ip = false) /\
  (forall c, c ∈ rankIfaces ifaces ev routeIP false -> c_qualified c = true ->
     exists best, head (rankLocal ifaces ev routeIP) = Some (c_ip best) /\
       best ∈ rankIfaces ifaces ev routeIP false /\ c_qualified best = true /\
       betterThan c best = false).
Proof.
  assert (forall l, NoDup (addresses l)) as Hnd by (intros; apply keep_first_NoDup).
  assert (forall a, a ∈ rankLocal ifaces ev routeIP ->
    exists v c, c ∈ rankIfaces ifaces ev routeIP v /\ a = c_ip c) as Hel.
  { intros a. unfold rankLocal, addresses.
    assert (forall l, a ∈ keep_first [] (c_ip <$> l) ->
      (forall c, c ∈ l -> exists v, c ∈ rankIfaces ifaces ev routeIP v) ->
      exists v c, c ∈ rankIfaces ifaces ev routeIP v /\ a = c_ip c) as Hgo.
    { intros l [Hin _]%keep_first_elem Hl. apply list_elem_of_fmap in Hin as (c & -> & Hc).
      destruct (Hl c Hc) as [v Hv]. eauto. }
    assert (forall c, c ∈ overlayFallbacks (rankIfaces ifaces ev routeIP true) ->
      c ∈ rankIfaces ifaces ev routeIP true) as Hfb.
    { unfold overlayFallbacks. intros c. rewrite !list_elem_of_In, filter_In. tauto. }
    destruct (rankIfaces ifaces ev routeIP false) as [|p ps] eqn:E; [| case_bool];
      intros Ha; apply (Hgo _ Ha); intros c; rewrite <- ?E, elem_of_app; intros [H | H]; eauto;
      exists false; rewrite E; done. }
  split_and!.
  - unfold rankLocal. destruct (rankIfaces ifaces ev routeIP false); [done |]. by case_bool.
  - intros a (v & c & Hc & ->)%Hel. apply rankIfaces_elem in Hc as (ifi & la & Hi & _ & Hla & Hr).
    apply rank_addr_safe in Hr as (ip & ip4 & ? & ? & ? & ? & ? & ? & _). eauto 15.
  - intros c Hc Hq. unfold rankLocal.
    assert (StronglySorted (not_after betterThan) (rankIfaces ifaces ev routeIP false)) as Hs
      by apply (sort_by_sorted betterThan).
    destruct (rankIfaces ifaces ev routeIP false) as [|p ps]; [set_solver |].
    pose proof (sorted_heads betterThan p ps c Hs Hc) as Hb.
    assert (c_qualified p = true) as Hp.
    { destruct (c_qualified p) eqn:E; [done |]. unfold betterThan in Hb. by rewrite Hq, E in Hb. }
    rewrite Hp. exists p. split_and!; [done | left | done | done].
Qed.

(** A host with a direct-connect link, a LAN and a Docker bridge. *)
Definition demo_ifaces : list localIface :=
  [mkLocalIface "eth1" false [mkLocalAddr "10.9.9.1" 30];
   mkLocalIface "docker0" false [mkLocalAddr "172.17.0.1" 16];
   mkLocalIface "tailscale0" false [mkLocalAddr "100.101.102.103" 32];
   mkLocalIface "eth0" false [mkLocalAddr "fe80::1" 64; mkLocalAddr "192.168.1.5" 24]].

Lemma rankLocal_deterministic_witness :
  rankLocal demo_ifaces (mkEvidence ∅ ∅ ∅) "" = ["192.168.1.5"; "10.9.9.1"; "100.101.102.103"] /\
  rankLocal (rev demo_ifaces) (mkEvidence ∅ ∅ ∅) "" = rankLocal demo_ifaces (mkEvidence ∅ ∅ ∅) "".
Proof.
  split; [vm_compute; reflexivity |]. apply rankLocal_deterministic. symmetry. apply Permutation_rev.
Defined.
