(* ===== verification/Reach.v ===== *)
(** Address confirmation (services/shared/reach/reach.go): which of a node's
    published addresses to dial, the memory of what worked, and the background
    probes whose verdicts a [Forget] must be able to retire. *)
From S2P Require Import Prelude.
From S2P Require Import GoStd.

Open Scope string_scope.
Open Scope list_scope.
Open Scope Z_scope.

Definition DefaultTimeout : Z := second.
Definition UnconfirmedCooldown : Z := 5 * second.
Definition FallbackCooldown : Z := 15 * second.

(** * One walk over the candidates *)

(** The network as a probe sees it: does [address] accept within [timeout]?  The
    concurrent handshakes of [first] are read in rank order, so the walk is a
    function of these verdicts alone. *)
Definition dialer : Type := string -> Z -> bool.

Fixpoint read_verdicts (dial : dialer) (timeout : Z) (candidates : list string) : option string :=
  match candidates with
  | [] => None
  | address :: rest =>
      if bool_decide (address = "") then read_verdicts dial timeout rest
      else if dial address timeout then Some address
      else read_verdicts dial timeout rest
  end.

Definition first (dial : dialer) (candidates : list string) (timeout : Z) (deadline : option Z)
    (now : Z) : option string :=
  let timeout := if timeout <=? 0 then DefaultTimeout else timeout in
  match deadline with
  | None => read_verdicts dial timeout candidates
  | Some d =>
      let remaining := time_sub d now in
      if remaining <=? 0 then None else read_verdicts dial (Z.min timeout remaining) candidates
  end.

(** * The chooser *)

Record choice : Type := mkChoice {
  ch_fingerprint : string;
  ch_address : string;
  ch_settled : bool;
  ch_at : Z
}.

(** [choice.reusePrefer]: address, keep, probe. *)
Definition choice_reusePrefer (c : choice) (candidates : list string) (fingerprint : string) (now : Z)
    : string * bool * bool :=
  if bool_decide (ch_fingerprint c = fingerprint) then
    if negb (ch_settled c) then
      (ch_address c, time_sub now (ch_at c) <? UnconfirmedCooldown, false)
    else if bool_decide (head candidates = Some (ch_address c)) then (ch_address c, true, false)
    else if time_sub now (ch_at c) <? FallbackCooldown then (ch_address c, true, false)
    else (ch_address c, true, true)
  else if negb (ch_settled c) || negb (bool_decide (ch_address c ∈ candidates)) then
    (ch_address c, false, false)
  else if bool_decide (head candidates = Some (ch_address c)) then (ch_address c, true, false)
  else (ch_address c, true, true).

Definition choice_reuseSync (c : choice) (candidates : list string) (fingerprint : string) (now : Z)
    : string * bool :=
  if bool_decide (ch_fingerprint c = fingerprint) then
    if negb (ch_settled c) then
      (ch_address c, time_sub now (ch_at c) <? UnconfirmedCooldown)
    else if bool_decide (head candidates = Some (ch_address c)) then (ch_address c, true)
    else (ch_address c, time_sub now (ch_at c) <? FallbackCooldown)
  else if negb (ch_settled c) || negb (bool_decide (ch_address c ∈ candidates)) then
    (ch_address c, false)
  else if bool_decide (head candidates = Some (ch_address c)) then (ch_address c, true)
  else (ch_address c, time_sub now (ch_at c) <? FallbackCooldown).

Record Chooser : Type := mkChooser {
  c_timeout : Z;
  c_cache : gmap string choice;
  c_probing : gmap string bool;
  c_generation : gmap string Z
}.

Definition NewChooser : Chooser := mkChooser DefaultTimeout ∅ ∅ ∅.

Definition set_cache (c : Chooser) (m : gmap string choice) : Chooser :=
  mkChooser (c_timeout c) m (c_probing c) (c_generation c).

Definition set_probing (c : Chooser) (m : gmap string bool) : Chooser :=
  mkChooser (c_timeout c) (c_cache c) m (c_generation c).

Definition generation_of (c : Chooser) (key : string) : Z := default 0 (c_generation c !! key).

Definition is_probing (c : Chooser) (key : string) : bool := default false (c_probing c !! key).

(** [Chooser.reusePrefer], under the lock: [None] is keep = false. *)
Definition reusePrefer (c : Chooser) (key : string) (candidates : list string) (fingerprint : string)
    (now : Z) : Chooser * option (string * bool) :=
  match c_cache c !! key with
  | None => (c, None)
  | Some e =>
      let '(address, keep, probe) := choice_reusePrefer e candidates fingerprint now in
      if negb keep then (c, None)
      else
        let e' := mkChoice fingerprint (ch_address e) (ch_settled e) (if probe then now else ch_at e) in
        (set_cache c (<[key := e']> (c_cache c)), Some (address, probe))
  end.

Definition reuseSync (c : Chooser) (key : string) (candidates : list string) (fingerprint : string)
    (now : Z) : Chooser * option string :=
  match c_cache c !! key with
  | None => (c, None)
  | Some e =>
      let '(address, keep) := choice_reuseSync e candidates fingerprint now in
      if negb keep then (c, None)
      else
        let e' := mkChoice fingerprint (ch_address e) (ch_settled e) (ch_at e) in
        (set_cache c (<[key := e']> (c_cache c)), Some address)
  end.

(** A confirmation in flight: what [confirm] (background) or [ChooseWithin]
    captured before it started to dial. *)
Record probe : Type := mkProbe {
  pr_key : string;
  pr_candidates : list string;
  pr_fingerprint : string;
  pr_generation : Z;
  pr_background : bool;
  pr_deadline : option Z
}.

(** [Prefer]'s critical section: the address returned and the confirmation it
    starts, if any. *)
Definition Prefer (c : Chooser) (key : string) (candidates : list string) (now : Z)
    : Chooser * string * option probe :=
  match candidates with
  | [] => (c, "", None)
  | [a] => (c, a, None)
  | top :: _ =>
      let fingerprint := join "|" candidates in
      let '(c1, kept) := reusePrefer c key candidates fingerprint now in
      let start := (set_probing c1 (<[key := true]> (c_probing c1)),
                    Some (mkProbe key candidates fingerprint (generation_of c1 key) true None)) in
      match kept with
      | Some (address, probe) =>
          if probe && negb (is_probing c1 key) then (start.1, address, start.2)
          else (c1, address, None)
      | None =>
          if negb (is_probing c1 key) then (start.1, top, start.2) else (c1, top, None)
      end
  end.

(** [ChooseWithin] up to the walk: an immediate answer, or the probe to run. *)
Definition ChooseWithin (c : Chooser) (key : string) (candidates : list string)
    (deadline : option Z) (now : Z) : Chooser * (string + probe) :=
  match candidates with
  | [] => (c, inl "")
  | [a] => (c, inl a)
  | _ =>
      let fingerprint := join "|" candidates in
      let '(c1, kept) := reuseSync c key candidates fingerprint now in
      match kept with
      | Some address => (c1, inl address)
      | None => (c1, inr (mkProbe key candidates fingerprint (generation_of c1 key) false deadline))
      end
  end.

(** [remember]: records the outcome unless the answer was retired meanwhile. *)
Definition remember (c : Chooser) (p : probe) (outcome : option string) (now : Z) : Chooser * string :=
  let address := match outcome with Some a => a | None => hd "" (pr_candidates p) end in
  let settled := bool_decide (is_Some outcome) in
  (if generation_of c (pr_key p) =? pr_generation p
   then set_cache c (<[pr_key p := mkChoice (pr_fingerprint p) address settled now]> (c_cache c))
   else c, address).

(** The tail of [confirm]: release the registration if it is still this probe's. *)
Definition release (c : Chooser) (p : probe) : Chooser :=
  if generation_of c (pr_key p) =? pr_generation p
  then set_probing c (delete (pr_key p) (c_probing c)) else c.

Definition Forget (c : Chooser) (key : string) : Chooser :=
  mkChooser (c_timeout c) (delete key (c_cache c)) (delete key (c_probing c))
    (<[key := wrapU64 (generation_of c key + 1)]> (c_generation c)).

(** * Concurrent executions *)

(** The chooser and the goroutines in flight: [true] when a background probe has
    recorded its verdict and has yet to release its registration. *)
Record system : Type := mkSystem {
  sys_chooser : Chooser;
  sys_flight : gmap nat (probe * bool);
  sys_next : nat
}.

Inductive event : Type :=
| EPrefer (key : string) (candidates : list string) (now : Z)
| EChoose (key : string) (candidates : list string) (deadline : option Z) (now : Z)
| EVerdict (i : nat) (dial : dialer) (started now : Z)
| ERelease (i : nat)
| EForget (key : string).

Definition launch (s : system) (c : Chooser) (p : option probe) : system :=
  match p with
  | None => mkSystem c (sys_flight s) (sys_next s)
  | Some p => mkSystem c (<[sys_next s := (p, false)]> (sys_flight s)) (S (sys_next s))
  end.

(** One critical section of one goroutine. *)
Definition step (s : system) (ev : event) : system :=
  let c := sys_chooser s in
  match ev with
  | EPrefer key candidates now =>
      let '(c', _, p) := Prefer c key candidates now in launch s c' p
  | EChoose key candidates deadline now =>
      let '(c', r) := ChooseWithin c key candidates deadline now in
      launch s c' (match r with inl _ => None | inr p => Some p end)
  | EVerdict i dial started now =>
      match sys_flight s !! i with
      | Some (p, false) =>
          let outcome := first dial (pr_candidates p) (c_timeout c) (pr_deadline p) started in
          let c' := (remember c p outcome now).1 in
          mkSystem c'
            (if pr_background p then <[i := (p, true)]> (sys_flight s) else delete i (sys_flight s))
            (sys_next s)
      | _ => s
      end
  | ERelease i =>
      match sys_flight s !! i with
      | Some (p, true) => mkSystem (release c p) (delete i (sys_flight s)) (sys_next s)
      | _ => s
      end
  | EForget key => mkSystem (Forget c key) (sys_flight s) (sys_next s)
  end.

Definition run (s : system) (evs : list event) : system := foldl step s evs.

Definition start : system := mkSystem NewChooser ∅ 0.

(** * Facts about the operations *)

Lemma read_verdicts_spec dial t l :
  match read_verdicts dial t l with
  | Some a => exists i, l !! i = Some a /\ a <> "" /\ dial a t = true /\
      forall j b, (j < i)%nat -> l !! j = Some b -> b = "" \/ dial b t = false
  | None => forall a, a ∈ l -> a = "" \/ dial a t = false
  end.
Proof.
  induction l as [|a l IH]; simpl; [set_solver |].
  destruct (bool_decide (a = "")) eqn:Ea; unbool; [| destruct (dial a t) eqn:Ed].
  - destruct (read_verdicts dial t l); [| set_solver].
    destruct IH as (i & Hi & Hn & Hd & Hj). exists (S i). split_and!; try done.
    intros [|j] b Hlt Hb; simpl in *; [simplify_eq; by left | apply (Hj j); [lia | done]].
  - exists 0%nat. split_and!; try done. lia.
  - destruct (read_verdicts dial t l); [| set_solver].
    destruct IH as (i & Hi & Hn & Hd & Hj). exists (S i). split_and!; try done.
    intros [|j] b Hlt Hb; simpl in *; [simplify_eq; by right | apply (Hj j); [lia | done]].
Qed.

Lemma first_elem dial l t d now a : first dial l t d now = Some a -> a ∈ l.
Proof.
  unfold first. intros H.
  assert (exists t', read_verdicts dial t' l = Some a) as [t' H'] by (repeat case_match; simplify_eq; eauto).
  pose proof (read_verdicts_spec dial t' l) as Hs. rewrite H' in Hs.
  destruct Hs as (i & Hi & _). by eapply list_elem_of_lookup_2.
Qed.

Lemma remember_spec c p o now :
  c_generation (remember c p o now).1 = c_generation c /\
  c_probing (remember c p o now).1 = c_probing c.
Proof. unfold remember. simpl. by case_bool. Qed.

(** How a reuse may touch the entry: it keeps the address, under a candidate list
    the address is still on. *)
Definition refreshed (cands : list string) (e e' : choice) : Prop :=
  ch_fingerprint e' = join "|" cands /\ ch_address e' = ch_address e /\
  ch_settled e' = ch_settled e /\
  (ch_fingerprint e = join "|" cands \/ ch_address e ∈ cands).

Definition cache_reused (c c' : Chooser) (key : string) (cands : list string) : Prop :=
  c_cache c' = c_cache c \/
  exists e e', c_cache c !! key = Some e /\ c_cache c' = <[key := e']> (c_cache c) /\
    refreshed cands e e'.

Lemma reusePrefer_spec c key cands now :
  let '(c', r) := reusePrefer c key cands (join "|" cands) now in
  c_generation c' = c_generation c /\ c_probing c' = c_probing c /\
  cache_reused c c' key cands /\
  match r with
  | Some (a, _) => exists e, c_cache c !! key = Some e /\ a = ch_address e /\
                     (ch_fingerprint e = join "|" cands \/ a ∈ cands)
  | None => c' = c
  end.
Proof.
  unfold reusePrefer, cache_reused, refreshed.
  destruct (c_cache c !! key) as [e|] eqn:E; [| by eauto].
  unfold choice_reusePrefer. repeat case_bool; simpl; unbool; try (by eauto);
    split_and!; try done; try (eexists; split_and!; [done | done |]); try (right; eexists _, _; split_and!; try done; simpl);
    try (by left); right; destruct (decide (ch_address e ∈ cands)); try done;
    destruct (ch_settled e); try done; simpl in *; unbool; done.
Qed.

Lemma reuseSync_spec c key cands now :
  let '(c', r) := reuseSync c key cands (join "|" cands) now in
  c_generation c' = c_generation c /\ c_probing c' = c_probing c /\
  cache_reused c c' key cands /\
  match r with
  | Some a => exists e, c_cache c !! key = Some e /\ a = ch_address e /\
                (ch_fingerprint e = join "|" cands \/ a ∈ cands)
  | None => c' = c
  end.
Proof.
  unfold reuseSync, cache_reused, refreshed.
  destruct (c_cache c !! key) as [e|] eqn:E; [| by eauto].
  unfold choice_reuseSync. repeat case_bool; simpl; unbool; try (by eauto);
    split_and!; try done; try (eexists; split_and!; [done | done |]); try (right; eexists _, _; split_and!; try done; simpl);
    try (by left); right; destruct (decide (ch_address e ∈ cands)); try done;
    destruct (ch_settled e); try done; simpl in *; unbool; done.
Qed.

Definition probe_of (c : Chooser) (key : string) (cands : list string) (bg : bool) (d : option Z) : probe :=
  mkProbe key cands (join "|" cands) (generation_of c key) bg d.

Lemma Prefer_spec c key cands now :
  let '(c', a, p) := Prefer c key cands now in
  c_generation c' = c_generation c /\ cache_reused c c' key cands /\
  match p with
  | None => c_probing c' = c_probing c
  | Some p => is_probing c key = false /\ c_probing c' = <[key := true]> (c_probing c) /\
              p = probe_of c key cands true None /\ (2 <= length cands)%nat
  end /\
  (cands = [] \/ a ∈ cands \/
   exists e, c_cache c !! key = Some e /\ a = ch_address e /\ ch_fingerprint e = join "|" cands).
Proof.
  unfold Prefer. destruct cands as [|a0 [|a1 cands]]; [unfold cache_reused; split_and!; by eauto | |].
  { split_and!; try done; [by left | right; left; set_solver]. }
  set (l := a0 :: a1 :: cands).
  pose proof (reusePrefer_spec c key l now) as H.
  destruct (reusePrefer c key l (join "|" l) now) as [c1 r]. destruct H as (Hg & Hp & Hc & Hr).
  assert (is_probing c1 key = is_probing c key) as Hprob by (unfold is_probing; by rewrite Hp).
  assert (generation_of c1 key = generation_of c key) as Hgen by (unfold generation_of; by rewrite Hg).
  destruct r as [[a pb]|].
  - destruct Hr as (e & He & -> & Hin).
    destruct (pb && negb (is_probing c1 key)) eqn:E; cbn [fst snd]; split_and!; try done; try lia;
      try (destruct Hin; [right; right; eauto | by right; left]).
    + simpl in E. unbool. by rewrite <- Hprob.
    + simpl. by rewrite Hp.
    + unfold probe_of. by rewrite Hgen.
    + simpl. lia.
  - destruct (negb (is_probing c1 key)) eqn:E; cbn [fst snd]; split_and!; try done; try lia;
      try (right; left; set_solver).
    + unbool. by rewrite <- Hprob.
    + simpl. by rewrite Hp.
    + unfold probe_of. by rewrite Hgen.
    + simpl. lia.
Qed.

Lemma ChooseWithin_spec c key cands d now :
  let '(c', r) := ChooseWithin c key cands d now in
  c_generation c' = c_generation c /\ c_probing c' = c_probing c /\ cache_reused c c' key cands /\
  match r with
  | inl a => True
  | inr p => p = probe_of c key cands false d /\ (2 <= length cands)%nat
  end.
Proof.
  unfold ChooseWithin. destruct cands as [|a0 [|a1 cands]]; [unfold cache_reused; split_and!; by eauto | |].
  { split_and!; try done. by left. }
  set (l := a0 :: a1 :: cands).
  pose proof (reuseSync_spec c key l now) as H.
  destruct (reuseSync c key l (join "|" l) now) as [c1 r]. destruct H as (Hg & Hp & Hc & Hr).
  destruct r as [a|]; split_and!; try done.
  - unfold probe_of, generation_of. by rewrite Hg.
  - simpl. lia.
Qed.

(** * The invariant of concurrent executions *)

(** Goroutine [i] runs a background probe for [k] that nothing has retired. *)
Definition current_probe (s : system) (i : nat) (k : string) : Prop :=
  exists p b, sys_flight s !! i = Some (p, b) /\ pr_background p = true /\ pr_key p = k /\
    pr_generation p = generation_of (sys_chooser s) k.

Record system_ok (n : Z) (s : system) : Prop := {
  ok_gen : forall k, 0 <= generation_of (sys_chooser s) k <= n;
  ok_flight : forall i p b, sys_flight s !! i = Some (p, b) ->
    (i < sys_next s)%nat /\ pr_generation p <= generation_of (sys_chooser s) (pr_key p) /\
    (b = true -> pr_background p = true) /\ (2 <= length (pr_candidates p))%nat /\
    pr_fingerprint p = join "|" (pr_candidates p);
  ok_probing : forall k, is_probing (sys_chooser s) k = true <-> exists i, current_probe s i k;
  ok_single : forall i j k, current_probe s i k -> current_probe s j k -> i = j;
  ok_cache : forall k e, c_cache (sys_chooser s) !! k = Some e ->
    exists cands, ch_fingerprint e = join "|" cands /\ ch_address e ∈ cands
}.

Lemma start_ok : system_ok 0 start.
Proof.
  constructor; try done.
  - intros k. split; [done |]. intros (i & p & b & H & _). done.
  - intros i j k (p & b & H & _). done.
Qed.

Lemma current_probe_same s s' i k :
  sys_flight s' !! i = sys_flight s !! i ->
  generation_of (sys_chooser s') k = generation_of (sys_chooser s) k ->
  current_probe s' i k <-> current_probe s i k.
Proof. intros Hf Hg. unfold current_probe. by rewrite Hf, Hg. Qed.

Lemma cache_ok_reused c c' key cands :
  (forall k e, c_cache c !! k = Some e ->
     exists l, ch_fingerprint e = join "|" l /\ ch_address e ∈ l) ->
  cache_reused c c' key cands ->
  forall k e, c_cache c' !! k = Some e ->
     exists l, ch_fingerprint e = join "|" l /\ ch_address e ∈ l.
Proof.
  intros Hok [-> | (e & e' & He & -> & Hf & Ha & _ & Hor)]; [done |].
  intros k e0. destruct (decide (k = key)) as [-> | Hk].
  - rewrite lookup_insert_eq. intros [= <-]. rewrite Hf, Ha.
    destruct Hor as [Hfp | Hin]; [| eauto].
    destruct (Hok key e He) as (l & Hl & Hin). exists l. by rewrite <- Hl, <- Hfp.
  - rewrite lookup_insert_ne by done. apply Hok.
Qed.

(** Launching nothing leaves the flight as it was. *)
Lemma launch_none_ok n s c' key cands :
  system_ok n s -> c_generation c' = c_generation (sys_chooser s) ->
  c_probing c' = c_probing (sys_chooser s) -> cache_reused (sys_chooser s) c' key cands ->
  system_ok n (launch s c' None).
Proof.
  intros [Hgen Hfl Hpr Hsi Hca] Hg Hp Hc.
  assert (forall k, generation_of c' k = generation_of (sys_chooser s) k) as Hgo
    by (intros; unfold generation_of; by rewrite Hg).
  assert (forall i k, current_probe (launch s c' None) i k <-> current_probe s i k) as Hcp
    by (intros i k; exact (current_probe_same s (launch s c' None) i k eq_refl (Hgo k))).
  constructor; simpl; try (by eapply cache_ok_reused).
  - intros k. by rewrite Hgo.
  - intros i p b H. rewrite Hgo. by apply Hfl in H.
  - intros k. unfold is_probing. rewrite Hp. fold (is_probing (sys_chooser s) k). rewrite Hpr.
    split; intros [i Hi]; exists i; by apply Hcp.
  - intros i j k Hi Hj. apply Hcp in Hi, Hj. eauto.
Qed.

Lemma current_probe_launch n s c' p i k :
  system_ok n s -> c_generation c' = c_generation (sys_chooser s) ->
  current_probe (launch s c' (Some p)) i k <->
  current_probe s i k \/
  (i = sys_next s /\ pr_background p = true /\ pr_key p = k /\
   pr_generation p = generation_of (sys_chooser s) k).
Proof.
  intros Hok Hg. unfold current_probe. simpl.
  assert (generation_of c' k = generation_of (sys_chooser s) k) as ->
    by (unfold generation_of; by rewrite Hg).
  destruct (decide (i = sys_next s)) as [-> | Hi].
  - rewrite lookup_insert_eq. split.
    + intros (q & b & [= <- <-] & ?). by right.
    + intros [(q & b & Hq & _) | (_ & H)]; [| exists p, false; split; [done | exact H]].
      destruct (ok_flight n s Hok _ _ _ Hq) as [Hlt _]. lia.
  - rewrite lookup_insert_ne by done. naive_solver.
Qed.

Lemma launch_some_ok n s c' key cands (bg : bool) d :
  system_ok n s -> c_generation c' = c_generation (sys_chooser s) ->
  cache_reused (sys_chooser s) c' key cands -> (2 <= length cands)%nat ->
  c_probing c' = (if bg then (<[key := true]> (c_probing (sys_chooser s)) : gmap string bool) else c_probing (sys_chooser s)) ->
  (bg = true -> is_probing (sys_chooser s) key = false) ->
  system_ok n (launch s c' (Some (probe_of (sys_chooser s) key cands bg d))).
Proof.
  intros Hok Hg Hc Hlen Hp Hnew. pose proof Hok as [Hgen Hfl Hpr Hsi Hca].
  assert (forall k, generation_of c' k = generation_of (sys_chooser s) k) as Hgo
    by (intros; unfold generation_of; by rewrite Hg).
  assert (forall i k, current_probe (launch s c' (Some (probe_of (sys_chooser s) key cands bg d))) i k <->
    current_probe s i k \/ (i = sys_next s /\ bg = true /\ key = k)) as Hcp.
  { intros i k. rewrite (current_probe_launch n) by done. simpl. split; [tauto |].
    intros [? | (? & ? & <-)]; [by left | by right]. }
  constructor; simpl; try (by eapply cache_ok_reused).
  - intros k. by rewrite Hgo.
  - intros i p b. rewrite lookup_insert_Some. intros [[<- [= <- <-]] | [Hne H]].
    + rewrite Hgo. simpl. split_and!; [lia | lia | done | done | done].
    + rewrite Hgo. apply Hfl in H as (? & ? & ? & ? & ?). split_and!; try done. lia.
  - intros k. unfold is_probing. rewrite Hp. split.
    + destruct bg; [| by intros [i Hi]%Hpr; exists i; apply Hcp; left].
      destruct (decide (key = k)) as [<- | Hk].
      * intros _. exists (sys_next s). apply Hcp. by right.
      * rewrite lookup_insert_ne by done. intros [i Hi]%Hpr. exists i. apply Hcp. by left.
    + intros [i [Hi | (-> & -> & <-)]%Hcp]; [| by rewrite lookup_insert_eq].
      assert (is_probing (sys_chooser s) k = true) as Hk by (apply Hpr; eauto).
      unfold is_probing in Hk. destruct bg; [| done].
      destruct (decide (key = k)) as [<- | Hne]; [by rewrite lookup_insert_eq |].
      by rewrite lookup_insert_ne.
  - intros i j k [Hi | (-> & -> & <-)]%Hcp [Hj | (-> & Hb & Hk)]%Hcp; [by eapply Hsi | | | done].
    + subst. specialize (Hnew eq_refl). assert (is_probing (sys_chooser s) k = true) by (apply Hpr; eauto).
      congruence.
    + specialize (Hnew eq_refl). assert (is_probing (sys_chooser s) key = true) by (apply Hpr; eauto).
      congruence.
Qed.

Lemma verdict_ok n s i dial started now p :
  system_ok n s -> sys_flight s !! i = Some (p, false) -> system_ok n (step s (EVerdict i dial started now)).
Proof.
  intros Hok Hi. pose proof Hok as [Hgen Hfl Hpr Hsi Hca]. unfold step. rewrite Hi. cbv zeta.
  set (o := first dial (pr_candidates p) _ _ _).
  assert (forall a, o = Some a -> a ∈ pr_candidates p) as Ho by (intros a; apply first_elem).
  clearbody o. pose proof (remember_spec (sys_chooser s) p o now) as [Hg Hp].
  remember ((remember (sys_chooser s) p o now).1) as c' eqn:Ec'.
  assert (forall k, generation_of c' k = generation_of (sys_chooser s) k) as Hgo
    by (intros; unfold generation_of; by rewrite Hg).
  set (f' := if pr_background p then _ else _).
  assert (forall j k, current_probe (mkSystem c' f' (sys_next s)) j k <-> current_probe s j k) as Hcp.
  { intros j k. unfold current_probe. simpl. rewrite Hgo. unfold f'.
    destruct (decide (j = i)) as [-> | Hj].
    - rewrite Hi. destruct (pr_background p) eqn:Hb.
      + rewrite lookup_insert_eq. split; intros (q & b & [= <- <-] & H); by eexists _, _.
      + rewrite lookup_delete_eq. split; [by intros (q & b & ? & _) |].
        intros (q & b & [= <- <-] & Hb' & _). congruence.
    - destruct (pr_background p); [by rewrite lookup_insert_ne | by rewrite lookup_delete_ne]. }
  constructor; cbn [sys_chooser sys_flight sys_next].
  - intros k. by rewrite Hgo.
  - intros j q b Hj. rewrite Hgo. unfold f' in Hj. destruct (pr_background p) eqn:Hb.
    + apply lookup_insert_Some in Hj as [[<- [= <- <-]] | [_ Hj]]; [| by apply Hfl].
      destruct (Hfl _ _ _ Hi) as (? & ? & _ & ? & ?). done.
    + apply lookup_delete_Some in Hj as [_ Hj]. by apply Hfl.
  - intros k. unfold is_probing. rewrite Hp. fold (is_probing (sys_chooser s) k). rewrite Hpr.
    split; intros [j Hj]; exists j; by apply Hcp.
  - intros j j' k Hj Hj'. apply Hcp in Hj, Hj'. eauto.
  - intros k e. rewrite Ec'. unfold remember. simpl. case_bool; [| apply Hca]. simpl.
    rewrite lookup_insert_Some. intros [[<- <-] | [_ He]]; [| by eapply Hca]. simpl.
    destruct (Hfl _ _ _ Hi) as (_ & _ & _ & Hlen & Hfp). exists (pr_candidates p). split; [done |].
    destruct o as [a|]; [by apply Ho |]. destruct (pr_candidates p); simpl in *; [lia | left].
Qed.

Lemma release_ok n s i p :
  system_ok n s -> sys_flight s !! i = Some (p, true) -> system_ok n (step s (ERelease i)).
Proof.
  intros Hok Hi. pose proof Hok as [Hgen Hfl Hpr Hsi Hca]. unfold step. rewrite Hi. cbv zeta.
  set (k0 := pr_key p). destruct (Hfl _ _ _ Hi) as (_ & Hle & Hbg & _). specialize (Hbg eq_refl).
  assert (c_generation (release (sys_chooser s) p) = c_generation (sys_chooser s) /\
          c_cache (release (sys_chooser s) p) = c_cache (sys_chooser s)) as [Hg Hc]
    by (unfold release; by case_bool).
  assert (forall k, is_probing (release (sys_chooser s) p) k =
    if (generation_of (sys_chooser s) k0 =? pr_generation p) && bool_decide (k = k0) then false
    else is_probing (sys_chooser s) k) as Hpb.
  { intros k. unfold release, is_probing. fold k0. destruct (_ =? _); [| done]. simpl.
    case_bool; unbool; [subst; by rewrite lookup_delete_eq | by rewrite lookup_delete_ne]. }
  remember (release (sys_chooser s) p) as c' eqn:Ec'.
  assert (forall k, generation_of c' k = generation_of (sys_chooser s) k) as Hgo
    by (intros; unfold generation_of; by rewrite Hg).
  assert (forall j k, current_probe (mkSystem c' (delete i (sys_flight s)) (sys_next s)) j k <->
    j <> i /\ current_probe s j k) as Hcp.
  { intros j k. unfold current_probe. simpl. rewrite Hgo. destruct (decide (j = i)) as [-> | Hj].
    - rewrite lookup_delete_eq. split; [by intros (q & b & ? & _) | by intros [? _]].
    - rewrite lookup_delete_ne by done. split; [by split | by intros [_ ?]]. }
  constructor; cbn [sys_chooser sys_flight sys_next].
  - intros k. by rewrite Hgo.
  - intros j q b [_ Hj]%lookup_delete_Some. rewrite Hgo. by apply Hfl.
  - intros k. destruct (decide (generation_of (sys_chooser s) k0 = pr_generation p)) as [Hcur | Hold].
    + assert (current_probe s i k0) as Hik by (exists p, true; by rewrite Hcur).
      rewrite Hpb, Hcur, Z.eqb_refl. destruct (decide (k = k0)) as [-> | Hk].
      * rewrite bool_decide_true by done. split; [done |]. intros (j & [Hj Hc']%Hcp).
        by rewrite (Hsi j i k0 Hc' Hik) in Hj.
      * rewrite bool_decide_false by done. simpl. rewrite Hpr.
        split; [| intros [j [_ Hj]%Hcp]; by exists j].
        intros [j Hj]; exists j; apply Hcp. split; [| done].
        intros ->. destruct Hj as (q & b & Hq & _ & Hkey & _). rewrite Hi in Hq. by simplify_eq.
    + rewrite Hpb, (proj2 (Z.eqb_neq _ _)) by done. simpl. rewrite Hpr.
      split; [| intros [j [_ Hj]%Hcp]; by exists j]. intros [j Hj]; exists j; apply Hcp.
      split; [| done]. intros ->. destruct Hj as (q & b & Hq & _ & Hkey & Hge). rewrite Hi in Hq. by simplify_eq.
  - intros j j' k [_ Hj]%Hcp [_ Hj']%Hcp. eauto.
  - rewrite Hc. exact Hca.
Qed.

Lemma forget_generation n s key k :
  system_ok n s -> n + 1 < 2 ^ 64 ->
  generation_of (Forget (sys_chooser s) key) k =
    if bool_decide (k = key) then generation_of (sys_chooser s) k + 1 else generation_of (sys_chooser s) k.
Proof.
  intros Hok Hn. unfold generation_of at 1. simpl. case_bool; unbool.
  - subst. rewrite lookup_insert_eq. simpl. apply wrapU64_id. pose proof (ok_gen n s Hok key). lia.
  - by rewrite lookup_insert_ne.
Qed.

Lemma forget_ok n s key :
  system_ok n s -> 0 <= n -> n + 1 < 2 ^ 64 -> system_ok (n + 1) (step s (EForget key)).
Proof.
  intros Hok H0 Hn. pose proof Hok as [Hgen Hfl Hpr Hsi Hca].
  pose proof (fun k => forget_generation n s key k Hok Hn) as Hg.
  assert (forall j k, current_probe (step s (EForget key)) j k <-> k <> key /\ current_probe s j k) as Hcp.
  { intros j k. unfold current_probe. cbn [step sys_chooser sys_flight]. rewrite Hg.
    case_bool; unbool; [| split; [by split | by intros [_ ?]]]. subst. split; [| by intros [? _]].
    intros (p & b & Hj & _ & Hkey & Hge). apply Hfl in Hj as (_ & Hle & _). rewrite Hkey in Hle. lia. }
  constructor.
  - intros k. cbn [step sys_chooser]. rewrite Hg. specialize (Hgen k). case_bool; lia.
  - intros i p b Hi. apply Hfl in Hi as (? & ? & ?). split; [done |]. split; [| done].
    cbn [step sys_chooser]. rewrite Hg. case_bool; lia.
  - intros k. unfold is_probing. cbn [step sys_chooser Forget c_probing].
    destruct (decide (k = key)) as [-> | Hk].
    + rewrite lookup_delete_eq. split; [done |]. intros (j & [? _]%Hcp). done.
    + rewrite lookup_delete_ne by done. fold (is_probing (sys_chooser s) k). rewrite Hpr.
      split; [intros [j Hj]; exists j; by apply Hcp | intros [j [_ Hj]%Hcp]; by exists j].
  - intros j j' k [_ Hj]%Hcp [_ Hj']%Hcp. eauto.
  - cbn. intros k e [_ He]%lookup_delete_Some. eauto.
Qed.

Lemma system_ok_weaken n s : system_ok n s -> system_ok (n + 1) s.
Proof.
  intros [Hgen Hfl Hpr Hsi Hca]. constructor; try done. intros k. specialize (Hgen k). lia.
Qed.

Lemma step_ok n s ev : system_ok n s -> 0 <= n -> n + 1 < 2 ^ 64 -> system_ok (n + 1) (step s ev).
Proof.
  intros Hok H0 Hn. destruct ev as [key cands now | key cands d now | i dial t0 now | i | key].
  - apply system_ok_weaken. simpl. pose proof (Prefer_spec (sys_chooser s) key cands now) as H.
    destruct (Prefer (sys_chooser s) key cands now) as [[c' a] [p|]]; destruct H as (Hg & Hc & Hp & _).
    + destruct Hp as (Hnew & Hp & -> & Hlen). by apply launch_some_ok.
    + by eapply launch_none_ok.
  - apply system_ok_weaken. simpl. pose proof (ChooseWithin_spec (sys_chooser s) key cands d now) as H.
    destruct (ChooseWithin (sys_chooser s) key cands d now) as [c' [a|p]]; destruct H as (Hg & Hp & Hc & Hr).
    + by eapply launch_none_ok.
    + destruct Hr as [-> Hlen]. by apply launch_some_ok.
  - apply system_ok_weaken. destruct (sys_flight s !! i) as [[p []]|] eqn:E;
      [by simpl; rewrite E | by eapply verdict_ok | by simpl; rewrite E].
  - apply system_ok_weaken. destruct (sys_flight s !! i) as [[p []]|] eqn:E;
      [by eapply release_ok | by simpl; rewrite E | by simpl; rewrite E].
  - by apply forget_ok.
Qed.

Lemma run_ok evs : Z.of_nat (length evs) < 2 ^ 64 -> system_ok (Z.of_nat (length evs)) (run start evs).
Proof.
  induction evs as [|ev evs IH] using rev_ind; intros Hlen; [apply start_ok |].
  rewrite length_app in *. simpl in *. unfold run. rewrite foldl_snoc.
  replace (Z.of_nat (length evs + 1)) with (Z.of_nat (length evs) + 1) by lia.
  apply step_ok; [apply IH; lia | lia | lia].
Qed.

(** * Addresses stay published *)

Definition no_bar (l : list string) : Prop := Forall (fun a => has_char "|" a = false) l.

Lemma join_inj l l' : l <> [] -> l' <> [] -> no_bar l -> no_bar l' -> join "|" l = join "|" l' -> l = l'.
Proof. intros ???? H. by rewrite <- (split_join "|" l), <- (split_join "|" l'), H. Qed.

Record published_ok (s : system) : Prop := {
  pub_flight : forall i p b, sys_flight s !! i = Some (p, b) ->
    no_bar (pr_candidates p) /\ pr_candidates p <> [] /\ pr_fingerprint p = join "|" (pr_candidates p);
  pub_cache : forall k e, c_cache (sys_chooser s) !! k = Some e ->
    exists l, l <> [] /\ no_bar l /\ ch_fingerprint e = join "|" l /\ ch_address e ∈ l
}.

(** The events whose candidate lists hold no separator (host:port never does). *)
Definition event_no_bar (ev : event) : Prop :=
  match ev with EPrefer _ l _ | EChoose _ l _ _ => no_bar l | _ => True end.

Lemma cache_published s c' key cands :
  published_ok s -> no_bar cands -> cache_reused (sys_chooser s) c' key cands ->
  forall k e, c_cache c' !! k = Some e ->
    exists l, l <> [] /\ no_bar l /\ ch_fingerprint e = join "|" l /\ ch_address e ∈ l.
Proof.
  intros [_ Hc] Hnb [-> | (e & e' & He & -> & Hf & Ha & _ & Hor)]; [done |].
  intros k e0. rewrite lookup_insert_Some. intros [[<- <-] | [_ ?]]; [| eauto].
  rewrite Hf, Ha. destruct Hor as [Hfp | Hin].
  - destruct (Hc _ _ He) as (l & ? & ? & Hl & ?). exists l. by rewrite <- Hfp.
  - exists cands. split_and!; try done. by intros ->; apply not_elem_of_nil in Hin.
Qed.

Lemma launch_published s c' p key cands :
  published_ok s -> no_bar cands -> cache_reused (sys_chooser s) c' key cands ->
  (forall q, p = Some q -> pr_candidates q = cands /\ cands <> [] /\ pr_fingerprint q = join "|" cands) ->
  published_ok (launch s c' p).
Proof.
  intros Hok Hnb Hc Hq. constructor.
  - destruct p as [q|]; simpl; [| apply Hok]. intros i q' b. rewrite lookup_insert_Some.
    intros [[_ [= <- <-]] | [_ ?]]; [| by eapply pub_flight].
    destruct (Hq q eq_refl) as (E1 & E2 & E3). rewrite E3. by rewrite E1.
  - destruct p; simpl; by eapply cache_published.
Qed.

Lemma step_published s ev : published_ok s -> event_no_bar ev -> published_ok (step s ev).
Proof.
  intros Hok Hev. destruct ev as [key cands now | key cands d now | i dial t0 now | i | key]; unfold step.
  - pose proof (Prefer_spec (sys_chooser s) key cands now) as H.
    destruct (Prefer _ key cands now) as [[c' a] p]. destruct H as (_ & Hc & Hp & _).
    apply (launch_published s c' p key cands); try done. intros q ->.
    destruct Hp as (_ & _ & -> & Hlen). split_and!; try done. intros ->. simpl in Hlen. lia.
  - pose proof (ChooseWithin_spec (sys_chooser s) key cands d now) as H.
    destruct (ChooseWithin _ key cands d now) as [c' r]. destruct H as (_ & _ & Hc & Hr).
    apply (launch_published s c' _ key cands); try done. intros q. destruct r as [|q']; [done |].
    intros [= <-]. destruct Hr as [-> Hlen]. split_and!; try done. intros ->. simpl in Hlen. lia.
  - destruct (sys_flight s !! i) as [[p []]|] eqn:Hi; try done.
    destruct (pub_flight s Hok _ _ _ Hi) as (Hnb & Hne & Hfp). constructor; cbn [sys_flight sys_chooser].
    + intros j q b. case_bool.
      * rewrite lookup_insert_Some. intros [[_ [= <- <-]] | [_ ?]]; [done | by eapply pub_flight].
      * rewrite lookup_delete_Some. intros [_ ?]. by eapply pub_flight.
    + intros k e. unfold remember. cbn [fst]. case_bool; [| by apply pub_cache]. cbn [c_cache set_cache].
      rewrite lookup_insert_Some. intros [[_ <-] | [_ ?]]; [| by eapply pub_cache].
      exists (pr_candidates p). split_and!; try done. cbn [ch_address].
      destruct (first _ _ _ _ _) eqn:E; [by eapply first_elem |].
      destruct (pr_candidates p); [done | left].
  - destruct (sys_flight s !! i) as [[p []]|] eqn:Hi; try done. constructor; cbn [sys_flight sys_chooser].
    + intros j q b. rewrite lookup_delete_Some. intros [_ ?]. by eapply pub_flight.
    + unfold release. case_bool; apply Hok.
  - constructor; cbn [sys_flight sys_chooser]; [apply Hok |]. cbn. intros k e. rewrite lookup_delete_Some.
    intros [_ ?]. by eapply pub_cache.
Qed.

Lemma run_published evs : Forall event_no_bar evs -> published_ok (run start evs).
Proof.
  induction evs as [|ev evs IH] using rev_ind; intros Hev.
  - constructor; intros *; cbn; by rewrite lookup_empty.
  - apply Forall_app in Hev as [Hevs Hlast]. unfold run. rewrite foldl_snoc.
    apply step_published; [by apply IH |].
    by inversion Hlast.
Qed.

(** * Properties *)

(** A walk returns the best-ranked address that accepts, and nothing only when
    no candidate accepts: reading concurrent verdicts in rank order loses nothing
    against a sequential walk. *)
Theorem first_best_ranked (dial : dialer) (candidates : list string) (timeout now : Z) :
  let t := if timeout <=? 0 then DefaultTimeout else timeout in
  match first dial candidates timeout None now with
  | Some a => exists i, candidates !! i = Some a /\ a <> "" /\ dial a t = true /\
      forall j b, (j < i)%nat -> candidates !! j = Some b -> b = "" \/ dial b t = false
  | None => forall a, a ∈ candidates -> a = "" \/ dial a t = false
  end.
Proof. apply read_verdicts_spec. Qed.

(** One confirmation per node: in every concurrent execution a node is
    registered as being probed exactly when a background probe that nothing has
    retired is in flight for it, and there is never more than one. *)
Theorem single_flight (evs : list event) :
  Z.of_nat (length evs) < 2 ^ 64 ->
  let s := run start evs in
  forall k, (is_probing (sys_chooser s) k = true <-> exists i, current_probe s i k) /\
            (forall i j, current_probe s i k -> current_probe s j k -> i = j).
Proof.
  intros Hlen s k. pose proof (run_ok evs Hlen) as Hok. split; [by eapply ok_probing |].
  intros i j. by eapply ok_single.
Qed.

Lemma step_next s ev : (sys_next s <= sys_next (step s ev))%nat.
Proof. unfold step, launch. repeat case_match; simpl; lia. Qed.

(** The probes of [k] that were in flight when [k] was retired stay behind. *)
Lemma stale_kept (evs : list event) (n : Z) (s : system) (k : string) (m : nat) :
  system_ok n s -> 0 <= n -> n + Z.of_nat (length evs) < 2 ^ 64 -> (m <= sys_next s)%nat ->
  (forall i p b, (i < m)%nat -> sys_flight s !! i = Some (p, b) -> pr_key p = k ->
     pr_generation p < generation_of (sys_chooser s) k) ->
  forall i p b, (i < m)%nat -> sys_flight (run s evs) !! i = Some (p, b) -> pr_key p = k ->
     pr_generation p < generation_of (sys_chooser (run s evs)) k.
Proof.
  revert n s. induction evs as [|ev evs IH]; intros n s Hok Hn Hlen Hm Hst; [done |]. cbn [length] in Hlen.
  apply (IH (n + 1)); [apply step_ok; lia || done | lia | lia | |]; fold (run (step s ev) evs).
  - pose proof (step_next s ev). lia.
  - intros i p b Hi. destruct ev as [key cands now | key cands d now | j dial t0 now | j | key]; unfold step.
    + pose proof (Prefer_spec (sys_chooser s) key cands now) as H.
      destruct (Prefer _ key cands now) as [[c' a] q]. destruct H as (Hg & _).
      unfold launch, generation_of. destruct q; cbn [sys_chooser sys_flight]; rewrite Hg.
      * rewrite lookup_insert_ne by lia. by eapply Hst.
      * by eapply Hst.
    + pose proof (ChooseWithin_spec (sys_chooser s) key cands d now) as H.
      destruct (ChooseWithin _ key cands d now) as [c' [a|q]]; destruct H as (Hg & _);
        unfold launch, generation_of; cbn [sys_chooser sys_flight]; rewrite Hg.
      * by eapply Hst.
      * rewrite lookup_insert_ne by lia. by eapply Hst.
    + destruct (sys_flight s !! j) as [[q []]|] eqn:Hj; try (by eapply Hst). cbn [sys_chooser sys_flight].
      pose proof (remember_spec (sys_chooser s) q
        (first dial (pr_candidates q) (c_timeout (sys_chooser s)) (pr_deadline q) t0) now) as [Hg _].
      unfold generation_of. rewrite Hg. case_bool.
      * rewrite lookup_insert_Some. intros [[-> [= <- <-]] | [_ ?]]; [by eapply Hst | by eapply Hst].
      * rewrite lookup_delete_Some. intros [_ ?]. by eapply Hst.
    + destruct (sys_flight s !! j) as [[q []]|] eqn:Hj; try (by eapply Hst). cbn [sys_chooser sys_flight].
      replace (generation_of (release (sys_chooser s) q) k) with (generation_of (sys_chooser s) k)
        by (unfold release; by case_bool).
      rewrite lookup_delete_Some. intros [_ ?]. by eapply Hst.
    + cbn [sys_chooser sys_flight]. rewrite (forget_generation n) by (done || lia). intros Hf Hk.
      pose proof (Hst i p b Hi Hf Hk). case_bool; lia.
Qed.

(** A retired answer stays retired.  Once a failure is reported against a node
    ([Forget]), no probe that was already in flight for it can ever install its
    verdict or touch a registration, whatever happens in between. *)
Theorem forget_retires (evs later : list event) (k : string) :
  Z.of_nat (length evs) + 1 + Z.of_nat (length later) < 2 ^ 64 ->
  let s := run start evs in
  let t := run (step s (EForget k)) later in
  c_cache (sys_chooser (step s (EForget k))) !! k = None /\
  forall i p b, (i < sys_next s)%nat -> sys_flight t !! i = Some (p, b) -> pr_key p = k ->
    (forall dial started now, sys_chooser (step t (EVerdict i dial started now)) = sys_chooser t) /\
    sys_chooser (step t (ERelease i)) = sys_chooser t.
Proof.
  intros Hlen s t. split; [apply lookup_delete_eq |]. intros i p b Hi Hp Hk.
  assert (system_ok (Z.of_nat (length evs)) s) as Hok by (apply run_ok; lia).
  assert (pr_generation p < generation_of (sys_chooser t) k) as Hlt.
  { eapply (stale_kept later (Z.of_nat (length evs) + 1) (step s (EForget k)) k (sys_next s));
      [apply forget_ok; try done; lia | lia | lia | done | | exact Hi | exact Hp | exact Hk].
    intros j q c Hj Hq Hqk. apply (ok_flight _ s Hok) in Hq as (_ & Hle & _).
    cbn [step sys_chooser]. rewrite (forget_generation (Z.of_nat (length evs))) by (done || lia).
    rewrite Hqk in Hle. rewrite bool_decide_true by done. lia. }
  assert ((generation_of (sys_chooser t) (pr_key p) =? pr_generation p) = false) as Hneq
    by (rewrite Hk; apply Z.eqb_neq; lia).
  unfold step. rewrite Hp. destruct b; split; intros; try done; cbn [sys_chooser].
  - unfold release. by rewrite Hneq.
  - unfold remember. by rewrite Hneq.
Qed.

(** [Prefer] answers at once with an address the node currently publishes: in
    every reachable state the address handed to a request is a member of the
    candidate list it was given, remembered or not. *)
Theorem Prefer_published (evs : list event) (key : string) (candidates : list string) (now : Z) :
  Forall event_no_bar evs -> no_bar candidates -> candidates <> [] ->
  (Prefer (sys_chooser (run start evs)) key candidates now).1.2 ∈ candidates.
Proof.
  intros Hev Hnb Hne. pose proof (run_published evs Hev) as Hok.
  pose proof (Prefer_spec (sys_chooser (run start evs)) key candidates now) as H.
  destruct (Prefer _ key candidates now) as [[c' a] p]. cbn [fst snd].
  destruct H as (_ & _ & _ & [-> | [Hin | (e & He & -> & Hf)]]); [done | done |].
  destruct (pub_cache _ Hok _ _ He) as (l & Hl & Hlb & Hfl & Hin).
  by rewrite (join_inj candidates l) by congruence.
Qed.

(** Two requests race a failure report: the first probe's verdict arrives after
    the report and is dropped; the second probe's is installed. *)
Definition demo_cands : list string := ["10.0.0.5:80"; "192.168.1.5:80"].
Definition demo_dial : dialer := fun a _ => bool_decide (a = "192.168.1.5:80").

Lemma single_flight_witness :
  let evs := [EPrefer "n" demo_cands 1; EPrefer "n" demo_cands 2] in
  map_to_list (sys_flight (run start evs)) = [(0%nat, (probe_of NewChooser "n" demo_cands true None, false))] /\
  is_probing (sys_chooser (run start evs)) "n" = true /\
  exists i, current_probe (run start evs) i "n".
Proof.
  split; [vm_compute; reflexivity |]. split; [vm_compute; reflexivity |].
  apply (single_flight [EPrefer "n" demo_cands 1; EPrefer "n" demo_cands 2]);
    [vm_compute; reflexivity | vm_compute; reflexivity].
Defined.

Lemma forget_retires_witness :
  let s := run start [EPrefer "n" demo_cands 1] in
  let t := run (step s (EForget "n")) [EPrefer "n" demo_cands 2; EVerdict 1 demo_dial 3 4] in
  ch_address <$> c_cache (sys_chooser t) !! "n" = Some "192.168.1.5:80" /\
  sys_chooser (step t (EVerdict 0 (fun _ _ => true) 3 5)) = sys_chooser t.
Proof.
  split; [vm_compute; reflexivity |].
  destruct (forget_retires [EPrefer "n" demo_cands 1] [EPrefer "n" demo_cands 2; EVerdict 1 demo_dial 3 4] "n"
    eq_refl) as [_ H].
  destruct (H 0%nat (probe_of NewChooser "n" demo_cands true None) false ltac:(vm_compute; lia) eq_refl eq_refl)
    as [Hv _].
  apply Hv.
Defined.

Lemma Prefer_published_witness :
  (Prefer (sys_chooser (run start [EPrefer "n" demo_cands 1; EVerdict 0 demo_dial 1 2])) "n" demo_cands 3).1.2
    = "192.168.1.5:80" /\
  (Prefer (sys_chooser (run start [EPrefer "n" demo_cands 1; EVerdict 0 demo_dial 1 2])) "n" demo_cands 3).1.2
    ∈ demo_cands.
Proof.
  split; [vm_compute; reflexivity |]. apply Prefer_published; [repeat constructor | repeat constructor | done].
Defined.
