(* ===== verification/ProxyNodes.v ===== *)
(** The inference proxy's view of the fleet (services/ollama-proxy): the routing
    overlays and the client's selection (discovery.go and the message handlers of
    proxy.go), model ownership, and the addresses a node is dialled at. *)
From S2P Require Import Prelude.
From S2P Require Import GoStd.
From S2P Require Import Noderec.
From S2P Require Import Netpick.

Open Scope string_scope.
Open Scope list_scope.
Open Scope Z_scope.

(** * Nodes (discovery.go) *)

Record Node : Type := mkNode {
  n_ID : string;
  n_Host : string;
  n_Port : Z;
  n_Addresses : list string;
  n_TXT : list string;
  n_Models : list string;
  n_IP : string;
  n_ClusterUUID : string
}.

#[export] Instance Node_eq_dec : EqDecision Node.
Proof. solve_decision. Defined.

Definition withPrimaryIP (n : Node) : Node :=
  mkNode (n_ID n) (n_Host n) (n_Port n) (n_Addresses n) (n_TXT n) (n_Models n)
    (Primary (n_TXT n) (n_Addresses n)) (n_ClusterUUID n).

Record Discovery : Type := mkDiscovery {
  d_manual : gmap string Node;
  d_subscribed : gmap string Node
}.

Definition NewDiscovery : Discovery := mkDiscovery ∅ ∅.

Definition nodeEqual (a b : Node) : bool :=
  bool_decide (n_ID a = n_ID b) && bool_decide (n_Host a = n_Host b) && (n_Port a =? n_Port b)
  && bool_decide (n_IP a = n_IP b) && bool_decide (n_Addresses a = n_Addresses b)
  && bool_decide (n_TXT a = n_TXT b) && bool_decide (n_Models a = n_Models b).

Definition AddManual (d : Discovery) (node : Node) : Discovery * bool :=
  (mkDiscovery (<[n_ID node := node]> (d_manual d)) (d_subscribed d),
   negb (bool_decide (is_Some (d_manual d !! n_ID node)))).

Definition RemoveManual (d : Discovery) (id : string) : Discovery * bool :=
  if bool_decide (is_Some (d_manual d !! id))
  then (mkDiscovery (delete id (d_manual d)) (d_subscribed d), true) else (d, false).

Definition IsManual (d : Discovery) (id : string) : bool := bool_decide (is_Some (d_manual d !! id)).

Section Overlay.
Context `{!MapRange}.

(** [Nodes]: the relay-fed set, then the manual nodes it does not cover. *)
Definition Nodes (d : Discovery) : list Node :=
  (range (d_subscribed d)).*2
  ++ (List.filter (fun '(id, _) => negb (bool_decide (is_Some (d_subscribed d !! id))))
        (range (d_manual d))).*2.

(** [SetSubscribed]: (discovered, updated, removed) against the previous set. *)
Definition SetSubscribed (d : Discovery) (nodes : list Node)
    : Discovery * (list Node * list Node * list Node) :=
  let next := foldl (fun next n => <[n_ID n := n]> next) (∅ : gmap string Node) nodes in
  let discovered := List.filter (fun n => negb (bool_decide (is_Some (d_subscribed d !! n_ID n)))) nodes in
  let updated := List.filter (fun n => match d_subscribed d !! n_ID n with
                                       | Some prev => negb (nodeEqual prev n)
                                       | None => false
                                       end) nodes in
  let removed := (List.filter (fun '(id, _) => negb (bool_decide (is_Some (next !! id))))
                    (range (d_subscribed d))).*2 in
  (mkDiscovery (d_manual d) next, (discovered, updated, removed)).
End Overlay.

(** [subscribedToNode]: the projection of a directory entry; [None] when it has no
    Ollama service or no address. *)
Definition subscribedToNode (n : DirectoryNode) : option Node :=
  match dn_Services n !! ServiceOllama with
  | None => None
  | Some svc =>
      if bool_decide (dn_IP n = "") then None
      else Some (mkNode (dn_HostUUID n) (dn_Name n) (ss_Port svc) (CandidateIPs n) (AddressTXT n)
                   (EngineModels n "ollama") (dn_IP n) (dn_ClusterUUID n))
  end.

(** * Selection and the message loop (proxy.go) *)

Inductive output : Type :=
| NodeDiscovered (n : Node)
| NodeUpdated (n : Node)
| NodeRemoved (n : Node)
| ErrorsClear (id : string)
| ErrorsReport (id : string) (host : string)
| SelectionChanged (id : string)
| RespondNodes (nodes : list Node)
| RespondSelected (id : string)
| RespondAdded (added : bool)
| RespondRemoved (removed : bool)
| RespondError (code : Z).

Definition upstreamUnreachableID (nodeID : string) : string :=
  "ollama-proxy:upstream-unreachable:" +:+ nodeID.

Record view : Type := mkView { v_discovery : Discovery; v_selectedID : string }.

Definition clearSelectionIfNotPresent (v : view) (present : gmap string bool) : view * list output :=
  let sel := v_selectedID v in
  if bool_decide (sel = "") || default false (present !! sel) || IsManual (v_discovery v) sel
  then (v, [])
  else (mkView (v_discovery v) "", [SelectionChanged ""]).

(** The requests and notifications that touch the overlays; [None] is a payload
    [json.Unmarshal] rejects. *)
Inductive message : Type :=
| NotifyNodes (p : option (list DirectoryNode))
| NodesList
| NodeSelect (p : option string)
| NodeSelected
| NodeAddManual (p : option Node)
| NodeRemoveManual (p : option string).

Definition zero_node (id : string) : Node := mkNode id "" 0 [] [] [] "" "".

Section Messages.
Context `{!MapRange}.

Definition replaceSubscribed (v : view) (p : option (list DirectoryNode)) : view * list output :=
  match p with
  | None => (v, [])
  | Some dns =>
      let nodes := omap subscribedToNode dns in
      let present := foldl (fun m n => <[n_ID n := true]> m) (∅ : gmap string bool) nodes in
      let '(d, (discovered, updated, removed)) := SetSubscribed (v_discovery v) nodes in
      let '(v', out) := clearSelectionIfNotPresent (mkView d (v_selectedID v)) present in
      (v', (discovered ≫= fun n => [NodeDiscovered (withPrimaryIP n);
                                    ErrorsClear (upstreamUnreachableID (n_ID n))])
           ++ (NodeUpdated ∘ withPrimaryIP <$> updated)
           ++ (removed ≫= fun n => [NodeRemoved (withPrimaryIP n);
                                    ErrorsReport (upstreamUnreachableID (n_ID n)) (n_Host n)])
           ++ out)
  end.

Definition handleMessage (v : view) (msg : message) : view * list output :=
  let d := v_discovery v in
  match msg with
  | NotifyNodes p => replaceSubscribed v p
  | NodesList => (v, [RespondNodes (Nodes d)])
  | NodeSelect None => (v, [RespondError (-32602)])
  | NodeSelect (Some id) =>
      if negb (bool_decide (id = "")) && negb (existsb (fun n => bool_decide (n_ID n = id)) (Nodes d))
      then (v, [RespondError (-32602)])
      else (mkView d id, [RespondSelected id; SelectionChanged id])
  | NodeSelected => (v, [RespondSelected (v_selectedID v)])
  | NodeAddManual None => (v, [RespondError (-32602)])
  | NodeAddManual (Some node) =>
      if bool_decide (n_ID node = "") || (n_Port node =? 0) || bool_decide (n_Addresses node = [])
      then (v, [RespondError (-32602)])
      else
        let '(d', added) := AddManual d node in
        (mkView d' (v_selectedID v),
         [RespondAdded added;
          if added then NodeDiscovered (withPrimaryIP node) else NodeUpdated (withPrimaryIP node)])
  | NodeRemoveManual None => (v, [RespondError (-32602)])
  | NodeRemoveManual (Some id) =>
      let '(d', removed) := RemoveManual d id in
      if negb removed then (mkView d' (v_selectedID v), [RespondRemoved false])
      else
        let cleared := bool_decide (v_selectedID v = id) in
        (mkView d' (if cleared then "" else v_selectedID v),
         RespondRemoved true :: (if cleared then [SelectionChanged ""] else [])
           ++ [NodeRemoved (zero_node id)])
  end.

Definition run (v : view) (msgs : list message) : view :=
  foldl (fun v msg => (handleMessage v msg).1) v msgs.
End Messages.

(** * Model ownership *)

Definition ollamaModelKey (model : string) : string :=
  let model := TrimSpace model in
  let name := match cut_last "/" model with Some (_, name) => name | None => model end in
  if negb (bool_decide (name = "")) && negb (has_char ":" name || has_char "@" name)
  then model +:+ ":latest" else model.

Definition nodeAdvertisesModel (n : Node) (model : string) : bool :=
  let requested := ollamaModelKey model in
  if bool_decide (requested = "") then false
  else existsb (fun available => bool_decide (ollamaModelKey available = requested)) (n_Models n).

(** * Addresses of a node *)

Definition isLocalhostName (host : string) : bool := EqualFold_ascii (trim_dot host) "localhost".

Definition isLoopbackIP (host : string) : bool :=
  match ParseIP host with Some ip => IsLoopback ip | None => false end.

Definition isLoopbackHost (host : string) : bool := isLocalhostName host || isLoopbackIP host.

Definition equalLoopbackHosts (a b : string) : bool :=
  let aLocalhost := isLocalhostName a in
  let bLocalhost := isLocalhostName b in
  if aLocalhost || bLocalhost then
    if aLocalhost && bLocalhost then true
    else
      let other := if aLocalhost then b else a in
      match ParseIP other with
      | Some ip => bool_decide (ip = IPv4 127 0 0 1) || bool_decide (ip = IPv6loopback)
      | None => false
      end
  else match ParseIP a, ParseIP b with
       | Some aIP, Some bIP => IsLoopback aIP && IsLoopback bIP && bool_decide (aIP = bIP)
       | _, _ => false
       end.

(** A [*url.URL], as far as routing fills it in. *)
Record url : Type := mkUrl { u_Scheme : string; u_Host : string }.

Definition isSelfTarget (u : url) (selfPort : Z) : bool :=
  match SplitHostPort (u_Host u) with
  | None => false
  | Some (host, portStr) =>
      match Atoi portStr with
      | Some port => if port =? selfPort then isLoopbackHost host else false
      | None => false
      end
  end.

Definition isAliasSelfTarget (u : url) (boundAddress : string) : bool :=
  if bool_decide (boundAddress = "") then false
  else match SplitHostPort (u_Host u) with
       | None => false
       | Some (targetHost, targetPort) =>
           match SplitHostPort boundAddress with
           | Some (boundHost, boundPort) =>
               if bool_decide (targetPort = boundPort) then equalLoopbackHosts targetHost boundHost
               else false
           | None => false
           end
       end.

Definition isAnyAliasSelfTarget (u : url) (boundAddresses : list string) : bool :=
  existsb (isAliasSelfTarget u) boundAddresses.

(** [localAddrs]: the addresses bound to this host's interfaces. *)
Definition isLocalAddress (localAddrs : gmap string bool) (addr : string) : bool :=
  default false (localAddrs !! addr).

(** The loop of [nodeCandidates] over (seen, loopback, rest). *)
Definition place_target (localAddrs : gmap string bool) (port : string)
    (st : list string * list string * list string) (h : string)
    : list string * list string * list string :=
  let '(seen, loopback, rest) := st in
  let h := if isLocalAddress localAddrs h && negb (isLoopbackHost h) then "127.0.0.1" else h in
  let hp := JoinHostPort h port in
  if bool_decide (hp ∈ seen) then st
  else if isLoopbackIP h then (hp :: seen, loopback ++ [hp], rest)
  else (hp :: seen, loopback, rest ++ [hp]).

Definition nodeCandidates (localAddrs : gmap string bool) (n : Node) : list string :=
  let sorted := match Candidates (n_TXT n) (n_Addresses n) with
                | [] => match n_Addresses n with
                        | [] => if bool_decide (n_Host n = "") then [] else [n_Host n]
                        | hosts => hosts
                        end
                | l => l
                end in
  let '(_, loopback, rest) := foldl (place_target localAddrs (Itoa (n_Port n))) ([], [], []) sorted in
  loopback ++ rest.

Definition nodeURL (localAddrs : gmap string bool) (n : Node) : option url :=
  match nodeCandidates localAddrs n with
  | [] => None
  | c :: _ => Some (mkUrl "http" c)
  end.

(** * Facts *)

Definition keyed (m : gmap string Node) : Prop := forall id n, m !! id = Some n -> n_ID n = id.

Lemma foldl_insert_lookup (nodes : list Node) (m : gmap string Node) id n :
  foldl (fun next n => <[n_ID n := n]> next) m nodes !! id = Some n ->
  (n ∈ nodes /\ n_ID n = id) \/ m !! id = Some n.
Proof.
  revert m. induction nodes as [|a nodes IH]; intros m; simpl; [by right |].
  intros [[? ?] | H]%IH; [left; split; [by right | done] |].
  apply lookup_insert_Some in H as [[<- <-] | [_ ?]]; [left; split; [by left | done] | by right].
Qed.

Lemma foldl_insert_is_Some (nodes : list Node) (m : gmap string Node) id :
  is_Some (foldl (fun next n => <[n_ID n := n]> next) m nodes !! id) <->
  (exists n, n ∈ nodes /\ n_ID n = id) \/ is_Some (m !! id).
Proof.
  revert m. induction nodes as [|a nodes IH]; intros m; simpl; [set_solver |].
  rewrite IH. split.
  - intros [(n & ? & ?) | H]; [left; exists n; split; [by right | done] |].
    destruct (decide (n_ID a = id)) as [<- |]; [left; exists a; split; [by left | done] |].
    rewrite lookup_insert_ne in H by done. by right.
  - intros [(n & Hn & Hid) | H].
    + apply elem_of_cons in Hn as [-> | Hn]; [| by left; exists n]. right. rewrite Hid, lookup_insert_eq. eauto.
    + right. destruct (decide (n_ID a = id)) as [<- |]; [rewrite lookup_insert_eq; eauto |].
      by rewrite lookup_insert_ne.
Qed.

Lemma foldl_present (nodes : list Node) (m : gmap string bool) id :
  default false (foldl (fun m n => <[n_ID n := true]> m) m nodes !! id) = true ->
  (exists n, n ∈ nodes /\ n_ID n = id) \/ default false (m !! id) = true.
Proof.
  revert m. induction nodes as [|a nodes IH]; intros m; simpl; [by right |].
  intros [(n & ? & ?) | H]%IH; [left; exists n; split; [by right | done] |].
  destruct (decide (n_ID a = id)) as [<- |]; [left; exists a; split; [by left | done] |].
  rewrite lookup_insert_ne in H by done. by right.
Qed.

Section OverlayFacts.
Context `{MR : !MapRange}.

Lemma elem_of_Nodes d n :
  n ∈ Nodes d <->
  (exists id, d_subscribed d !! id = Some n) \/
  (exists id, d_manual d !! id = Some n /\ d_subscribed d !! id = None).
Proof.
  unfold Nodes. rewrite elem_of_app, !list_elem_of_fmap. split.
  - intros [([id n'] & -> & H) | ([id n'] & -> & H)].
    + left. exists id. by apply elem_of_range.
    + right. exists id. rewrite list_elem_of_In, filter_In in H. destruct H as [H Hn].
      rewrite <- list_elem_of_In in H. apply elem_of_range in H. split; [done |].
      unbool. by apply eq_None_not_Some.
  - intros [(id & H) | (id & H & Hn)].
    + left. exists (id, n). split; [done |]. by apply elem_of_range.
    + right. exists (id, n). split; [done |]. rewrite list_elem_of_In, filter_In, <- list_elem_of_In.
      split; [by apply elem_of_range |]. rewrite Hn. done.
Qed.

Record view_ok (v : view) : Prop := {
  vo_manual : keyed (d_manual (v_discovery v));
  vo_subscribed : keyed (d_subscribed (v_discovery v));
  vo_selected : v_selectedID v = "" \/
    is_Some (d_subscribed (v_discovery v) !! v_selectedID v) \/
    is_Some (d_manual (v_discovery v) !! v_selectedID v)
}.

Lemma replaceSubscribed_ok v p : view_ok v -> view_ok (replaceSubscribed v p).1.
Proof.
  intros [Hm Hs Hsel]. destruct p as [dns|]; [| by constructor]. simpl.
  set (nodes := omap subscribedToNode dns).
  assert (keyed (foldl (fun next n => <[n_ID n := n]> next) ∅ nodes)) as Hk.
  { intros id n [[_ ?] | H]%foldl_insert_lookup; [done |]. by rewrite lookup_empty in H. }
  unfold clearSelectionIfNotPresent. cbn [v_selectedID v_discovery].
  case_bool; cbn [fst]; constructor; cbn [v_selectedID v_discovery d_manual d_subscribed]; try done;
    [| by left].
  apply orb_true_iff in Heqb as [H | H].
  - apply orb_true_iff in H as [H | H]; [unbool; by left |].
    apply foldl_present in H as [H | H]; [| by rewrite lookup_empty in H].
    right; left. apply foldl_insert_is_Some. by left.
  - right; right. unfold IsManual in H. simpl in H. by unbool.
Qed.

Lemma handleMessage_ok v msg : view_ok v -> view_ok (handleMessage v msg).1.
Proof.
  intros Hok. destruct msg as [p| |[id|]| |[node|]|[id|]]; simpl; try done.
  - by apply replaceSubscribed_ok.
  - destruct Hok as [Hm Hs Hsel]. case_bool; [by constructor |]. constructor; simpl; try done.
    apply andb_false_iff in Heqb as [H | H]; unbool; [by left |].
    apply existsb_exists in H as (n & Hn & Hid). unbool. rewrite <- list_elem_of_In in Hn.
    apply elem_of_Nodes in Hn as [(k & Hk) | (k & Hk & _)].
    + right; left. rewrite <- Hid, (Hs _ _ Hk). eauto.
    + right; right. rewrite <- Hid, (Hm _ _ Hk). eauto.
  - case_bool; [done |]. destruct Hok as [Hm Hs Hsel]. constructor; simpl; try done.
    + intros id n. rewrite lookup_insert_Some. intros [[<- <-] | [_ ?]]; [done | by apply Hm].
    + destruct Hsel as [? | [? | ?]]; [by left | by right; left |]. right; right.
      destruct (decide (n_ID node = v_selectedID v)) as [-> |]; [rewrite lookup_insert_eq; eauto |].
      by rewrite lookup_insert_ne.
  - destruct Hok as [Hm Hs Hsel]. unfold RemoveManual. case_bool; simpl; [| by constructor].
    constructor; simpl; try done.
    + intros id' n. rewrite lookup_delete_Some. intros [_ ?]. by apply Hm.
    + case_bool; [by left |]. unbool. destruct Hsel as [? | [? | ?]]; [by left | by right; left |].
      right; right. by rewrite lookup_delete_ne.
Qed.

Lemma run_view_ok msgs : view_ok (run (mkView NewDiscovery "") msgs).
Proof.
  induction msgs as [|msg msgs IH] using rev_ind.
  - constructor; simpl; [| | by left]; intros id n; cbn; by rewrite lookup_empty.
  - unfold run. rewrite foldl_snoc. by apply handleMessage_ok.
Qed.
End OverlayFacts.

(** A selection never pins routing to a departed node: after any messages, the
    selected id is empty or belongs to a node that is currently routable, and every
    overlay files a node under its own id. *)
Theorem selection_present (R : MapRange) (msgs : list message) :
  let v := run (mkView NewDiscovery "") msgs in
  (v_selectedID v = "" \/ exists n, n ∈ Nodes (v_discovery v) /\ n_ID n = v_selectedID v) /\
  keyed (d_subscribed (v_discovery v)) /\ keyed (d_manual (v_discovery v)).
Proof.
  intros v. destruct (run_view_ok msgs) as [Hm Hs Hsel]. fold v in Hm, Hs, Hsel. split_and!; try done.
  destruct (d_subscribed (v_discovery v) !! v_selectedID v) as [n|] eqn:E.
  - right. exists n. split; [| by apply Hs]. apply elem_of_Nodes. left. eauto.
  - destruct Hsel as [? | [[n Hn] | [n Hn]]]; [by left | congruence |].
    right. exists n. split; [| by apply Hm]. apply elem_of_Nodes. right. eauto.
Qed.

(** A consumer's mirror of the overlay, built from the node/* notifications; the
    cluster principal is internal and not part of the notified node. *)
Definition shown (n : Node) : Node :=
  mkNode (n_ID n) (n_Host n) (n_Port n) (n_Addresses n) (n_TXT n) (n_Models n) (n_IP n) "".

Definition mirror (m : gmap string Node) (discovered updated removed : list Node) : gmap string Node :=
  let m := foldl (fun m n => <[n_ID n := shown n]> m) m discovered in
  let m := foldl (fun m n => <[n_ID n := shown n]> m) m updated in
  foldl (fun m n => delete (n_ID n) m) m removed.

Lemma foldl_shown_in (l : list Node) (m : gmap string Node) n :
  NoDup (n_ID <$> l) -> n ∈ l ->
  foldl (fun m n => <[n_ID n := shown n]> m) m l !! n_ID n = Some (shown n).
Proof.
  revert m. induction l as [|a l IH]; intros m Hnd Hn; [by apply not_elem_of_nil in Hn |].
  rewrite fmap_cons in Hnd. apply NoDup_cons in Hnd as [Ha Hnd].
  destruct (decide (n ∈ l)) as [Hin | Hout]; [by apply IH |].
  apply elem_of_cons in Hn as [-> | ?]; [| done]. cbn [foldl].
  assert (forall m' : gmap string Node, m' !! n_ID a = Some (shown a) ->
    foldl (fun m n => <[n_ID n := shown n]> m) m' l !! n_ID a = Some (shown a)) as Hgo.
  { clear -Ha. induction l as [|b l IH]; intros m' Hm'; [done |]. rewrite fmap_cons in Ha.
    apply not_elem_of_cons in Ha as [Hab Ha]. apply IH; [done |]. by rewrite lookup_insert_ne. }
  apply Hgo. apply lookup_insert_eq.
Qed.

Lemma foldl_shown_out (l : list Node) (m : gmap string Node) id :
  id ∉ n_ID <$> l -> foldl (fun m n => <[n_ID n := shown n]> m) m l !! id = m !! id.
Proof.
  revert m. induction l as [|a l IH]; intros m Ha; [done |]. rewrite fmap_cons in Ha.
  apply not_elem_of_cons in Ha as [? ?]. cbn [foldl]. rewrite IH by done. by rewrite lookup_insert_ne.
Qed.

Lemma foldl_delete_lookup (l : list Node) (m : gmap string Node) id :
  foldl (fun m n => delete (n_ID n) m) m l !! id =
    if bool_decide (id ∈ n_ID <$> l) then None else m !! id.
Proof.
  revert m. induction l as [|a l IH]; intros m; [done |]. cbn [foldl]. rewrite IH, fmap_cons.
  destruct (decide (id = n_ID a)) as [-> | Hne].
  - rewrite lookup_delete_eq. rewrite (bool_decide_true (_ ∈ _ :: _)) by left. by case_bool.
  - rewrite lookup_delete_ne by done. rewrite (bool_decide_ext (id ∈ n_ID a :: _) (id ∈ n_ID <$> l)); [done |].
    rewrite elem_of_cons. naive_solver.
Qed.

Lemma nodeEqual_shown a b : nodeEqual a b = true -> shown a = shown b.
Proof.
  unfold nodeEqual, shown. intros H. unbool. by f_equal.
Qed.

Lemma filter_ids (f : Node -> bool) (l : list Node) :
  NoDup (n_ID <$> l) -> NoDup (n_ID <$> List.filter f l).
Proof.
  induction l as [|a l IH]; intros Hnd; [done |]. rewrite fmap_cons in Hnd.
  apply NoDup_cons in Hnd as [Ha Hnd]. cbn [List.filter]. case_bool; [| by apply IH].
  rewrite fmap_cons. constructor; [| by apply IH]. intros Hin. apply Ha.
  apply list_elem_of_fmap in Hin as (b & -> & Hb). apply list_elem_of_fmap. exists b. split; [done |].
  rewrite list_elem_of_In, filter_In in Hb. rewrite list_elem_of_In. tauto.
Qed.

(** The node/* notifications are an exact diff: a consumer that mirrors the
    overlay and applies the discovered, updated and removed nodes of a snapshot
    ends with exactly the new overlay, in every map order. *)
Theorem SetSubscribed_diff (R : MapRange) (d : Discovery) (nodes : list Node) :
  keyed (d_subscribed d) -> NoDup (n_ID <$> nodes) ->
  let '(d', (discovered, updated, removed)) := SetSubscribed d nodes in
  mirror (shown <$> d_subscribed d) discovered updated removed = shown <$> d_subscribed d' /\
  d_manual d' = d_manual d.
Proof.
  intros Hk Hnd. unfold SetSubscribed. set (next := foldl _ _ nodes). set (disc := List.filter _ nodes).
  set (upd := List.filter _ nodes). split; [| done]. cbn [d_subscribed]. apply map_eq. intros id.
  unfold mirror. rewrite foldl_delete_lookup, lookup_fmap.
  assert (next !! id = None <-> id ∉ n_ID <$> nodes) as Hnext.
  { rewrite eq_None_not_Some. unfold next. rewrite foldl_insert_is_Some, lookup_empty, list_elem_of_fmap.
    split; [intros H (n & -> & ?); apply H; left; eauto | intros H [(n & ? & <-) | [? ?]]; [| done]; eauto]. }
  assert (forall n, n ∈ nodes -> n_ID n = id -> next !! id = Some n) as Hin.
  { intros n Hn <-. assert (is_Some (next !! n_ID n)) as [n' E].
    { apply not_eq_None_Some. rewrite Hnext. intros Hx. apply Hx. apply list_elem_of_fmap. eauto. }
    rewrite E. apply foldl_insert_lookup in E as [[Hn' Hid] | E]; [| by rewrite lookup_empty in E].
    f_equal. apply list_elem_of_lookup in Hn as [i Hi], Hn' as [j Hj].
    assert (i = j) as <-; [| congruence].
    apply (NoDup_lookup _ i j (n_ID n) Hnd); by rewrite list_lookup_fmap, ?Hi, ?Hj; simpl; rewrite ?Hid. }
  assert (id ∈ n_ID <$> (List.filter (fun '(id, _) => negb (bool_decide (is_Some (next !! id))))
    (range (d_subscribed d))).*2 <-> next !! id = None /\ is_Some (d_subscribed d !! id)) as Hrem.
  { rewrite list_elem_of_fmap. setoid_rewrite list_elem_of_fmap. split.
    - intros (n & -> & ([k n'] & -> & Hf)). apply elem_of_bfilter in Hf as [Hf Hn]. apply elem_of_range in Hf.
      simpl. rewrite (Hk _ _ Hf). unbool. split; [by apply eq_None_not_Some | eauto].
    - intros [Hn [n Hd]]. exists n. rewrite (Hk _ _ Hd). split; [done |]. exists (id, n). split; [done |].
      apply elem_of_bfilter. split; [by apply elem_of_range |]. by rewrite Hn. }
  rewrite (bool_decide_ext _ _ Hrem).
  destruct (next !! id) as [n|] eqn:En; cbn [fmap option_fmap option_map].
  - rewrite bool_decide_false by naive_solver. unfold next in En.
    apply foldl_insert_lookup in En as [[Hn <-] | En]; [| by apply lookup_empty_Some in En].
    destruct (decide (n ∈ upd)) as [Hu | Hu]; [apply foldl_shown_in; [by apply filter_ids | done] |].
    assert (n_ID n ∉ n_ID <$> upd) as Hu'.
    { intros (n' & Hid & Hn')%list_elem_of_fmap. apply Hu. assert (n' ∈ nodes) as Hin' by (by apply elem_of_bfilter in Hn' as [? _]).
      assert (Some n = Some n') as [= ->] by (by apply Hin). done. }
    rewrite foldl_shown_out by done.
    destruct (decide (n ∈ disc)) as [Hd | Hd]; [apply foldl_shown_in; [by apply filter_ids | done] |].
    assert (n_ID n ∉ n_ID <$> disc) as Hd'.
    { intros (n' & Hid & Hn')%list_elem_of_fmap. apply Hd. assert (n' ∈ nodes) as Hin' by (by apply elem_of_bfilter in Hn' as [? _]).
      assert (Some n = Some n') as [= ->] by (by apply Hin). done. }
    rewrite foldl_shown_out, lookup_fmap by done.
    unfold disc in Hd. rewrite elem_of_bfilter in Hd. unfold upd in Hu. rewrite elem_of_bfilter in Hu.
    destruct (d_subscribed d !! n_ID n) as [prev|] eqn:Ep; simpl.
    + f_equal. apply nodeEqual_shown. destruct (nodeEqual prev n) eqn:E; [done |]. exfalso. by apply Hu.
    + exfalso. by apply Hd.
  - destruct (d_subscribed d !! id) as [prev|] eqn:Ep; [by rewrite bool_decide_true by eauto |].
    rewrite bool_decide_false by (intros [_ [? ?]]; done).
    assert (forall f : Node -> bool, id ∉ n_ID <$> List.filter f nodes) as Hf.
    { intros f (n & -> & Hn)%list_elem_of_fmap. apply elem_of_bfilter in Hn as [Hn _].
      apply (proj1 Hnext eq_refl). apply list_elem_of_fmap. eauto. }
    by rewrite !foldl_shown_out, lookup_fmap, Ep by apply Hf.
Qed.

Definition demo_overlay : Discovery :=
  mkDiscovery ∅ (<["a" := mkNode "a" "alpha" 1 ["10.0.0.1"] [] [] "10.0.0.1" ""]>
                (<["b" := mkNode "b" "beta" 1 ["10.0.0.2"] [] [] "10.0.0.2" ""]> ∅)).

Definition demo_snapshot : list Node :=
  [mkNode "a" "alpha" 1 ["10.0.0.1"] [] ["m"] "10.0.0.1" "c"; mkNode "c" "gamma" 1 ["10.0.0.3"] [] [] "" ""].

Lemma SetSubscribed_diff_witness :
  keyed (d_subscribed demo_overlay) /\
  (let '(_, (discovered, updated, removed)) := @SetSubscribed ascending_range demo_overlay demo_snapshot in
   (n_ID <$> discovered, n_ID <$> updated, n_ID <$> removed)) = (["c"], ["a"], ["b"]) /\
  let '(d', (discovered, updated, removed)) := @SetSubscribed descending_range demo_overlay demo_snapshot in
  mirror (shown <$> d_subscribed demo_overlay) discovered updated removed = shown <$> d_subscribed d' /\
  d_manual d' = d_manual demo_overlay.
Proof.
  assert (keyed (d_subscribed demo_overlay)) as Hk.
  { intros id n. unfold demo_overlay. simpl. rewrite !lookup_insert_Some, lookup_empty. naive_solver. }
  split; [exact Hk |]. split; [vm_compute; reflexivity |].
  apply (SetSubscribed_diff descending_range); [exact Hk |].
  apply (bool_decide_unpack _). vm_compute. exact I.
Defined.
