(* ===== verification/Routing.v ===== *)
(** Candidate resolution and load-aware reservation in the inference proxy
    (services/ollama-proxy/proxy.go, stall.go, ingress.go): which nodes a request
    may be forwarded to, in which order, and how a burst of requests spreads over
    them between two scheduler snapshots. *)
From S2P Require Import Prelude.
From S2P Require Import GoStd.
From S2P Require Import SchedulerWire.
From S2P Require Import Noderec.
From S2P Require Import Netpick.
From S2P Require Import Reach.
From S2P Require Import ProxyNodes.

Open Scope string_scope.
Open Scope list_scope.
Open Scope Z_scope.

(** * State *)

(** The membership view of clustertrust.Mesh after a refresh. *)
Record Mesh : Type := mkMesh {
  mesh_clustered : bool;
  mesh_identity : option string;
  mesh_pins : gset string
}.

(** [trustedDER]: is there a certificate to expect for [uuid]? *)
Definition trustedDER (m : Mesh) (uuid : string) : bool :=
  if negb (mesh_clustered m) || bool_decide (uuid = "") then false
  else match mesh_identity m with
       | None => false
       | Some self => bool_decide (uuid = self) || bool_decide (uuid ∈ mesh_pins m)
       end.

Definition HasPin (m : Mesh) (uuid : string) : bool := trustedDER m uuid.

(** ingress.go: the explicit loopback engine. *)
Record localBackend : Type := mkLocalBackend {
  lb_Engine : string;
  lb_Host : string;
  lb_Port : Z;
  lb_Healthy : bool
}.

Definition backend_target (b : localBackend) : option url :=
  if (lb_Port b <=? 0) || negb (lb_Healthy b) then None
  else
    let host := if bool_decide (lb_Host b = "") then "127.0.0.1" else lb_Host b in
    Some (mkUrl "http" (JoinHostPort host (Itoa (lb_Port b)))).

Record candidate : Type := mkCandidate {
  c_id : string;
  c_url : url;
  c_peerUUID : string;
  c_gpuPressure : Z;
  c_queueDepth : Z
}.

Record Proxy : Type := mkProxy {
  px_discovery : Discovery;
  px_selectedID : string;
  px_port : Z;
  px_aliases : list string;
  px_backend : localBackend;
  px_mesh : Mesh;
  px_localAddrs : gmap string bool;
  px_targets : Chooser;
  px_priority : list string;
  px_pending : gmap string Z;
  px_gpuPressure : gmap string Z;
  px_reservations : gmap string Z;
  px_coolUntil : gmap string Z;
  px_responseTimeout : Z
}.

Definition count_at (m : gmap string Z) (id : string) : Z := default 0 (m !! id).

Definition with_targets (p : Proxy) (t : Chooser) : Proxy :=
  mkProxy (px_discovery p) (px_selectedID p) (px_port p) (px_aliases p) (px_backend p) (px_mesh p)
    (px_localAddrs p) t (px_priority p) (px_pending p) (px_gpuPressure p) (px_reservations p)
    (px_coolUntil p) (px_responseTimeout p).

Definition with_priority (p : Proxy) (pr : list string) (pe gp re : gmap string Z) : Proxy :=
  mkProxy (px_discovery p) (px_selectedID p) (px_port p) (px_aliases p) (px_backend p) (px_mesh p)
    (px_localAddrs p) (px_targets p) pr pe gp re (px_coolUntil p) (px_responseTimeout p).

Definition with_cool (p : Proxy) (c : gmap string Z) : Proxy :=
  mkProxy (px_discovery p) (px_selectedID p) (px_port p) (px_aliases p) (px_backend p) (px_mesh p)
    (px_localAddrs p) (px_targets p) (px_priority p) (px_pending p) (px_gpuPressure p)
    (px_reservations p) c (px_responseTimeout p).

Definition localBackendTarget (p : Proxy) : option url := backend_target (px_backend p).

(** [nodeMetrics]: (GPU pressure, queue depth). *)
Definition nodeMetrics (p : Proxy) (nodeID : string) : Z * Z :=
  (count_at (px_gpuPressure p) nodeID, count_at (px_pending p) nodeID).

(** * The scheduler's snapshot (proxy.go) *)

Definition clamp_rank (st : gmap string Z * gmap string Z) (rank : NodeRank)
    : gmap string Z * gmap string Z :=
  let '(pending, gpu) := st in
  if bool_decide (nr_ID rank = "") then st
  else
    let pe := if nr_Pending rank <? 0 then 0 else nr_Pending rank in
    let gp := if nr_GPUPressure rank <? 0 then 0
              else if MaxGPUPressure <? nr_GPUPressure rank then MaxGPUPressure
              else nr_GPUPressure rank in
    (<[nr_ID rank := pe]> pending, <[nr_ID rank := gp]> gpu).

Definition SetPrioritySnapshot (p : Proxy) (priority : Priority) : Proxy * Z :=
  let '(pending, gpu) := foldl clamp_rank (∅, ∅) (pr_Ranks priority) in
  (with_priority p (pr_Nodes priority) pending gpu ∅, Z.of_nat (length (pr_Nodes priority))).

Definition SetPriority (p : Proxy) (nodes : list string) : Proxy * Z :=
  SetPrioritySnapshot p (mkPriority nodes []).

(** * Cooldowns (stall.go) *)

Definition noteStalled (p : Proxy) (id : string) (now : Z) : Proxy :=
  with_cool p (<[id := now + px_responseTimeout p]> (px_coolUntil p)).

Definition noteSuccess (p : Proxy) (id : string) : Proxy := with_cool p (delete id (px_coolUntil p)).

(** [coolingSet] keeps the live entries and returns them; the rest are deleted. *)
Definition live_cooldowns (c : gmap string Z) (now : Z) : gmap string Z :=
  filter (fun '(_, until) => now < until) c.

Definition coolingSet (p : Proxy) (now : Z) : Proxy * gmap string Z :=
  let live := live_cooldowns (px_coolUntil p) now in (with_cool p live, live).

Definition cooling (c : gmap string Z) (id : string) : bool := bool_decide (is_Some (c !! id)).

Definition demoteCooling (candidates : list candidate) (c : gmap string Z) : list candidate :=
  if bool_decide (c = ∅) || Nat.ltb (length candidates) 2 then candidates
  else List.filter (fun cand => negb (cooling c (c_id cand))) candidates
       ++ List.filter (fun cand => cooling c (c_id cand)) candidates.

(** * The message loop (proxy.go) *)

(** The requests beyond those of [ProxyNodes.message] that change routing state. *)
Inductive proxy_message : Type :=
| NodesMessage (msg : message)
| NodeSetPriority (p : option Priority)
| NodeSetLocalBackend (p : option localBackend).

Inductive proxy_output : Type :=
| NodesOutput (o : output)
| RespondCount (count : Z)
| RespondOK
| RespondInvalidParams.

Definition with_view (p : Proxy) (v : view) : Proxy :=
  mkProxy (v_discovery v) (v_selectedID v) (px_port p) (px_aliases p) (px_backend p) (px_mesh p)
    (px_localAddrs p) (px_targets p) (px_priority p) (px_pending p) (px_gpuPressure p)
    (px_reservations p) (px_coolUntil p) (px_responseTimeout p).

Definition setLocalBackend (p : Proxy) (b : localBackend) : Proxy :=
  mkProxy (px_discovery p) (px_selectedID p) (px_port p) (px_aliases p) b (px_mesh p)
    (px_localAddrs p) (px_targets p) (px_priority p) (px_pending p) (px_gpuPressure p)
    (px_reservations p) (px_coolUntil p) (px_responseTimeout p).

Definition handleProxyMessage `{!MapRange} (p : Proxy) (msg : proxy_message)
    : Proxy * list proxy_output :=
  match msg with
  | NodesMessage m =>
      let '(v, out) := handleMessage (mkView (px_discovery p) (px_selectedID p)) m in
      (with_view p v, NodesOutput <$> out)
  | NodeSetPriority None | NodeSetLocalBackend None => (p, [RespondInvalidParams])
  | NodeSetPriority (Some pr) =>
      let '(p', count) := SetPrioritySnapshot p pr in (p', [RespondCount count])
  | NodeSetLocalBackend (Some b) => (setLocalBackend p b, [RespondOK])
  end.

(** * Resolving candidates (proxy.go) *)

(** [targetURL]: the address to dial, and the confirmation it may have started. *)
Definition targetURL (p : Proxy) (n : Node) (now : Z) : Proxy * option url * list probe :=
  match nodeCandidates (px_localAddrs p) n with
  | [] => (p, None, [])
  | candidates =>
      let '(t, host, pr) := Prefer (px_targets p) (n_ID n) candidates now in
      (with_targets p t, Some (mkUrl "http" host), option_list pr)
  end.

Definition is_self (p : Proxy) (u : url) : bool :=
  isSelfTarget u (px_port p) || isAnyAliasSelfTarget u (px_aliases p).

(** The [switch] of [add] and the defensive check after it: the URL to dial and
    the peer identity to pin, or nothing. *)
Definition classify (p : Proxy) (n : Node) (u : url) : option (url * string) :=
  let r :=
    if is_self p u then
      match localBackendTarget p with Some lb => Some (lb, "") | None => None end
    else if HasPin (px_mesh p) (n_ClusterUUID n) then
      Some (mkUrl "https" (u_Host u), n_ClusterUUID n)
    else if IsManual (px_discovery p) (n_ID n) then Some (u, "")
    else None in
  match r with
  | Some (u', peer) => if is_self p u' then None else Some (u', peer)
  | None => None
  end.

(** What the closure [add] accumulates. *)
Record walk : Type := mkWalk {
  w_proxy : Proxy;
  w_placed : list string;
  w_seenHost : list string;
  w_out : list candidate;
  w_probes : list probe
}.

Definition add_node (now : Z) (w : walk) (n : Node) : walk :=
  let placed := n_ID n :: w_placed w in
  let '(p, u, pr) := targetURL (w_proxy w) n now in
  let skip := mkWalk p placed (w_seenHost w) (w_out w) (w_probes w ++ pr) in
  match u with
  | None => skip
  | Some u =>
      match classify p n u with
      | None => skip
      | Some (u, peerUUID) =>
          if bool_decide (u_Host u ∈ w_seenHost w) then skip
          else
            let '(gp, qd) := nodeMetrics p (n_ID n) in
            mkWalk p placed (u_Host u :: w_seenHost w)
              (w_out w ++ [mkCandidate (n_ID n) u peerUUID gp qd]) (w_probes w ++ pr)
      end
  end.

Definition consider (now : Z) (w : walk) (n : Node) : walk :=
  if bool_decide (n_ID n ∈ w_placed w) then w else add_node now w n.

Definition node_less (a b : Node) : bool := str_ltb (n_ID a) (n_ID b).

Section Resolve.
Context `{!MapRange}.

(** The eligible nodes in stable ID order. *)
Definition eligible (p : Proxy) (model : string) : list Node :=
  let nodes := Nodes (px_discovery p) in
  sort_by node_less
    (if bool_decide (model = "") then nodes
     else List.filter (fun n => nodeAdvertisesModel n model) nodes).

Definition by_id (nodes : list Node) : gmap string Node :=
  foldl (fun m n => <[n_ID n := n]> m) ∅ nodes.

(** The nodes in the order they are considered: an eligible selection, the
    scheduler's order, then the rest by ID. *)
Definition attempt_order (p : Proxy) (nodes : list Node) : list Node :=
  let byID := by_id nodes in
  (if bool_decide (px_selectedID p = "") then [] else option_list (byID !! px_selectedID p))
  ++ omap (fun pid => byID !! pid) (px_priority p)
  ++ nodes.

Definition resolveCandidates (p : Proxy) (model : string) (now : Z) : Proxy * list candidate * list probe :=
  let nodes := eligible p model in
  let w := foldl (consider now) (mkWalk p [] [] [] []) (attempt_order p nodes) in
  let '(p', live) := coolingSet (w_proxy w) now in
  (p', demoteCooling (w_out w) live, w_probes w).
End Resolve.

(** * Reserving a candidate (proxy.go) *)

Definition index_of (candidates : list candidate) : gmap string nat :=
  foldl (fun m p => <[c_id p.2 := p.1]> m) ∅ (imap pair candidates).

(** [copy(c[1:i+1], c[:i]); c[0] = chosen] *)
Definition move_front (i : nat) (l : list candidate) : list candidate :=
  match l !! i with
  | Some chosen => chosen :: take i l ++ drop (S i) l
  | None => l
  end.

Definition load_of (p : Proxy) (id : string) : Z :=
  wrapU64 (count_at (px_pending p) id + count_at (px_gpuPressure p) id + count_at (px_reservations p) id).

(** The [for order, id] loop: (index, order, load) of the best so far. *)
Definition better (p : Proxy) (idx : gmap string nat) (skip : string -> bool)
    (best : option (nat * nat * Z)) (e : nat * string) : option (nat * nat * Z) :=
  let '(order, id) := e in
  if skip id then best
  else match idx !! id with
       | None => best
       | Some index =>
           let load := load_of p id in
           match best with
           | None => Some (index, order, load)
           | Some (_, bestOrder, bestLoad) =>
               if (load <? bestLoad) || ((load =? bestLoad) && Nat.ltb order bestOrder)
               then Some (index, order, load) else best
           end
       end.

Definition best_candidate (p : Proxy) (idx : gmap string nat) (skip : string -> bool)
    : option (nat * nat * Z) :=
  foldl (better p idx skip) None (imap pair (px_priority p)).

Definition reserve (p : Proxy) (id : string) : Proxy :=
  with_priority p (px_priority p) (px_pending p) (px_gpuPressure p)
    (<[id := wrap64 (count_at (px_reservations p) id + 1)]> (px_reservations p)).

Definition reserveCandidateWithAffinity (p : Proxy) (candidates : list candidate) (warmNodeID : string)
    (now : Z) : Proxy * list candidate * bool :=
  match candidates with
  | [] => (p, [], false)
  | _ =>
      let '(p, live) := coolingSet p now in
      let candidates := demoteCooling candidates live in
      let hasReady := existsb (fun cand => negb (cooling live (c_id cand))) candidates in
      if negb (bool_decide (px_selectedID p = ""))
         && existsb (fun cand => bool_decide (c_id cand = px_selectedID p)) candidates
      then (p, candidates, false)
      else
        let idx := index_of candidates in
        let skip id := hasReady && cooling live id in
        match idx !! warmNodeID with
        | Some index =>
            if negb (bool_decide (warmNodeID = ""))
               && (negb hasReady || negb (cooling live warmNodeID))
               && (wrap64 (count_at (px_pending p) warmNodeID + count_at (px_reservations p) warmNodeID) <=? 1)
               && (count_at (px_gpuPressure p) warmNodeID <? MaxGPUPressure)
            then (reserve p warmNodeID, move_front index candidates, true)
            else match best_candidate p idx skip with
                 | None => (p, candidates, false)
                 | Some (i, _, _) =>
                     (reserve p (from_option c_id "" (candidates !! i)), move_front i candidates, false)
                 end
        | None =>
            match best_candidate p idx skip with
            | None => (p, candidates, false)
            | Some (i, _, _) =>
                (reserve p (from_option c_id "" (candidates !! i)), move_front i candidates, false)
            end
        end
  end.

Definition reserveCandidate (p : Proxy) (candidates : list candidate) (now : Z) : Proxy * list candidate :=
  (reserveCandidateWithAffinity p candidates "" now).1.

(** * Facts: resolution *)

(** The part of the state resolution reads and never changes. *)
Definition core (p : Proxy) : Proxy := with_cool (with_targets p NewChooser) ∅.

Lemma classify_core p p' n u : core p = core p' -> classify p n u = classify p' n u.
Proof.
  destruct p, p'. unfold core, with_cool, with_targets. simpl. intros [=]. subst. done.
Qed.

Lemma targetURL_core p n now : core (targetURL p n now).1.1 = core p.
Proof. unfold targetURL. repeat case_match; simplify_eq; done. Qed.

Lemma targetURL_host p n now u : (targetURL p n now).1.2 = Some u -> u_Scheme u = "http".
Proof. unfold targetURL. repeat case_match; simpl; intros; by simplify_eq. Qed.

(** How a candidate may be reached. *)
Inductive route (p : Proxy) (n : Node) : url -> string -> Prop :=
| route_self u : localBackendTarget p = Some u -> is_self p u = false -> route p n u ""
| route_peer u : HasPin (px_mesh p) (n_ClusterUUID n) = true -> u_Scheme u = "https" ->
    is_self p u = false -> route p n u (n_ClusterUUID n)
| route_manual u : IsManual (px_discovery p) (n_ID n) = true ->
    HasPin (px_mesh p) (n_ClusterUUID n) = false -> u_Scheme u = "http" ->
    is_self p u = false -> route p n u "".

Lemma route_core p p' n u peer : core p = core p' -> route p n u peer -> route p' n u peer.
Proof.
  destruct p, p'. unfold core, with_cool, with_targets. simpl. intros [=] Hr. subst.
  destruct Hr; [by apply route_self | by apply route_peer | by apply route_manual].
Qed.

Lemma classify_route p n u u' peer :
  u_Scheme u = "http" -> classify p n u = Some (u', peer) -> route p n u' peer.
Proof.
  intros Hs. unfold classify. destruct (is_self p u) eqn:E1.
  - destruct (localBackendTarget p) as [lb|] eqn:E2; [| done]. case_bool; [done |].
    intros [= -> <-]. by apply route_self.
  - destruct (HasPin _ _) eqn:E2.
    + case_bool; [done |]. intros [= <- <-]. by apply route_peer.
    + destruct (IsManual _ _) eqn:E3; [| done]. case_bool; [done |]. intros [= <- <-].
      by apply route_manual.
Qed.

Definition candidate_ok (p : Proxy) (eligible : Node -> Prop) (c : candidate) : Prop :=
  exists n, eligible n /\ n_ID n = c_id c /\ route p n (c_url c) (c_peerUUID c).

Record walk_ok (p : Proxy) (eligible : Node -> Prop) (w : walk) : Prop := {
  wo_core : core (w_proxy w) = core p;
  wo_ids : NoDup (c_id <$> w_out w);
  wo_placed : forall c, c ∈ w_out w -> c_id c ∈ w_placed w;
  wo_hosts : NoDup ((u_Host ∘ c_url) <$> w_out w);
  wo_seen : forall c, c ∈ w_out w -> u_Host (c_url c) ∈ w_seenHost w;
  wo_cands : Forall (candidate_ok p eligible) (w_out w)
}.

Lemma consider_ok p (el : Node -> Prop) now w n :
  walk_ok p el w -> el n -> walk_ok p el (consider now w n).
Proof.
  intros [Hc Hi Hp Hh Hs Hok] Hn. unfold consider. case_bool; [by constructor |]. unbool.
  unfold add_node. pose proof (targetURL_core (w_proxy w) n now) as Ht.
  pose proof (fun u => targetURL_host (w_proxy w) n now u) as Hu.
  destruct (targetURL (w_proxy w) n now) as [[p' u] pr]. cbn [fst snd] in *.
  assert (walk_ok p el (mkWalk p' (n_ID n :: w_placed w) (w_seenHost w) (w_out w) (w_probes w ++ pr))) as Hskip.
  { constructor; simpl; try done; [congruence |]. intros c Hc'. right. by apply Hp. }
  destruct u as [u|]; [| done]. destruct (classify p' n u) as [[u' peer]|] eqn:Ecl; [| done].
  destruct (bool_decide (u_Host u' ∈ w_seenHost w)) eqn:Eh; [done |]. unbool.
  destruct (nodeMetrics p' (n_ID n)) as [gp qd]. constructor; simpl.
  - congruence.
  - rewrite fmap_app. apply NoDup_app. split; [done |]. split; [| apply NoDup_singleton].
    simpl. intros x Hx Hx'. apply list_elem_of_singleton in Hx' as ->.
    apply list_elem_of_fmap in Hx as (c & Hid & Hx). apply Hp in Hx. congruence.
  - intros c [H | ->%list_elem_of_singleton]%elem_of_app; [right; by apply Hp | left].
  - rewrite fmap_app. apply NoDup_app. split; [done |]. split; [| apply NoDup_singleton].
    simpl. intros x Hx Hx'. apply list_elem_of_singleton in Hx' as ->.
    apply list_elem_of_fmap in Hx as (c & Hid & Hx). apply Hs in Hx. simpl in Hid. congruence.
  - intros c [H | ->%list_elem_of_singleton]%elem_of_app; [right; by apply Hs | left].
  - apply Forall_app. split; [done |]. constructor; [| constructor]. exists n. simpl. split_and!; try done.
    apply (route_core p'); [congruence |]. eapply classify_route; [by apply Hu | done].
Qed.

Lemma foldl_consider_ok p (el : Node -> Prop) now l w :
  walk_ok p el w -> (forall n, n ∈ l -> el n) -> walk_ok p el (foldl (consider now) w l).
Proof.
  revert w. induction l as [|n l IH]; intros w Hw Hl; simpl; [done |].
  apply IH; [apply consider_ok; [done | apply Hl; left] | intros; apply Hl; by right].
Qed.

Lemma demoteCooling_perm l c : demoteCooling l c ≡ₚ l.
Proof.
  unfold demoteCooling. case_bool; [done |].
  induction l as [|x l IH]; simpl; [done |].
  assert (List.filter (fun cand => negb (cooling c (c_id cand))) l ++
    List.filter (fun cand => cooling c (c_id cand)) l ≡ₚ l) as IH'.
  { clear. induction l as [|x l IH]; simpl; [done |]. destruct (cooling c (c_id x)); simpl.
    - by rewrite <- Permutation_middle, IH.
    - by rewrite IH. }
  destruct (cooling c (c_id x)); simpl; [by rewrite <- Permutation_middle, IH' | by rewrite IH'].
Qed.

Lemma demoteCooling_eq l c :
  demoteCooling l c =
    List.filter (fun cand => negb (cooling c (c_id cand))) l
    ++ List.filter (fun cand => cooling c (c_id cand)) l.
Proof.
  unfold demoteCooling. case_bool; [| done]. apply orb_true_iff in Heqb as [H | H].
  - unbool. subst. unfold cooling. induction l as [|x l IH]; simpl; [done |].
    rewrite lookup_empty. simpl. by f_equal.
  - apply Nat.ltb_lt in H. destruct l as [|x [|y l]]; simpl in *; [done | | lia].
    by destruct (cooling c (c_id x)).
Qed.

Section ResolveFacts.
Context `{MR : !MapRange}.

Lemma by_id_elem nodes id n : by_id nodes !! id = Some n -> n ∈ nodes /\ n_ID n = id.
Proof. intros [H | H]%foldl_insert_lookup; [done | by rewrite lookup_empty in H]. Qed.

Lemma attempt_order_elem p nodes n : n ∈ attempt_order p nodes -> n ∈ nodes.
Proof.
  unfold attempt_order. rewrite !elem_of_app. intros [H | [H | H]]; [| | done].
  - case_bool; [by apply not_elem_of_nil in H |].
    destruct (by_id nodes !! px_selectedID p) eqn:E; simpl in H.
    + apply list_elem_of_singleton in H as ->. by apply by_id_elem in E as [? _].
    + by apply not_elem_of_nil in H.
  - apply list_elem_of_omap in H as (pid & _ & H). by apply by_id_elem in H as [? _].
Qed.

Definition eligible_node (p : Proxy) (model : string) (n : Node) : Prop :=
  n ∈ Nodes (px_discovery p) /\ (model <> "" -> nodeAdvertisesModel n model = true).

Lemma eligible_spec p model n : n ∈ eligible p model <-> eligible_node p model n.
Proof.
  unfold eligible, eligible_node. rewrite elem_of_sort_by. case_bool; unbool.
  - naive_solver.
  - rewrite elem_of_bfilter. naive_solver.
Qed.

Lemma resolve_walk_ok p model now :
  walk_ok p (eligible_node p model)
    (foldl (consider now) (mkWalk p [] [] [] []) (attempt_order p (eligible p model))).
Proof.
  apply foldl_consider_ok.
  - constructor; simpl; try done; try (by constructor); intros c Hc; by apply not_elem_of_nil in Hc.
  - intros n Hn%attempt_order_elem. by apply eligible_spec.
Qed.
End ResolveFacts.

(** ** Order *)

Lemma add_node_out now w n :
  w_placed (add_node now w n) = n_ID n :: w_placed w /\
  exists s, w_out (add_node now w n) = w_out w ++ s /\ (c_id <$> s) `sublist_of` [n_ID n].
Proof.
  unfold add_node. repeat case_match; simpl; split; try done;
    try (exists []; rewrite app_nil_r; split; [done | apply sublist_nil_l]).
  eexists; split; [done |]. done.
Qed.

Lemma foldl_consider_ids now l w :
  exists s, w_out (foldl (consider now) w l) = w_out w ++ s /\
    (c_id <$> s) `sublist_of` keep_first (w_placed w) (n_ID <$> l).
Proof.
  revert w. induction l as [|n l IH]; intros w; simpl.
  { exists []. rewrite app_nil_r. split; [done | apply sublist_nil_l]. }
  unfold consider at 2. case_bool; [apply IH |].
  destruct (add_node_out now w n) as [Hp (s & Hs & Hsub)].
  destruct (IH (add_node now w n)) as (s' & Hs' & Hsub'). exists (s ++ s').
  rewrite Hs', Hs, <- app_assoc. split; [done |]. rewrite fmap_app.
  change (n_ID n :: ?x) with ([n_ID n] ++ x). apply sublist_app; [done |]. by rewrite <- Hp.
Qed.

Lemma Nodes_unique (d : Discovery) (R : MapRange) a b :
  keyed (d_subscribed d) -> keyed (d_manual d) ->
  a ∈ Nodes d -> b ∈ Nodes d -> n_ID a = n_ID b -> a = b.
Proof.
  intros Hs Hm Ha Hb Hab. apply elem_of_Nodes in Ha, Hb.
  destruct Ha as [(i & Hi) | (i & Hi & Hi')], Hb as [(j & Hj) | (j & Hj & Hj')];
    repeat match goal with
    | H : d_subscribed d !! ?k = Some ?n |- _ => lazymatch goal with
        | _ : n_ID n = k |- _ => fail | _ => pose proof (Hs _ _ H) end
    | H : d_manual d !! ?k = Some ?n |- _ => lazymatch goal with
        | _ : n_ID n = k |- _ => fail | _ => pose proof (Hm _ _ H) end
    end; congruence.
Qed.

(** ** Nobody is left out *)

Lemma is_self_host p u u' : u_Host u = u_Host u' -> is_self p u = is_self p u'.
Proof.
  intros Hu. unfold is_self, isSelfTarget, isAnyAliasSelfTarget. rewrite Hu. f_equal.
  induction (px_aliases p) as [|a l IH]; cbn; [done |]. rewrite IH. f_equal. unfold isAliasSelfTarget. by rewrite Hu.
Qed.

(** What a request must be able to dial for a node whose best address is [host]: the
    local engine when the address is this proxy's own, the peer itself over mutual TLS when
    it is pinned, the plain address of a node added by hand; and nothing for the others. *)
Inductive wanted (p : Proxy) (n : Node) (host : string) : url -> string -> Prop :=
| wanted_self lb : is_self p (mkUrl "http" host) = true -> localBackendTarget p = Some lb ->
    is_self p lb = false -> wanted p n host lb ""
| wanted_peer : is_self p (mkUrl "http" host) = false -> HasPin (px_mesh p) (n_ClusterUUID n) = true ->
    wanted p n host (mkUrl "https" host) (n_ClusterUUID n)
| wanted_manual : is_self p (mkUrl "http" host) = false -> HasPin (px_mesh p) (n_ClusterUUID n) = false ->
    IsManual (px_discovery p) (n_ID n) = true -> wanted p n host (mkUrl "http" host) "".

Lemma wanted_classify p n host u peer : wanted p n host u peer -> classify p n (mkUrl "http" host) = Some (u, peer).
Proof.
  unfold classify. intros [lb Hs Hb Hl | Hs Hp | Hs Hp Hm].
  - rewrite Hs, Hb. by rewrite Hl.
  - rewrite Hs, Hp. by rewrite (is_self_host p _ (mkUrl "http" host)), Hs.
  - rewrite Hs, Hp, Hm. by rewrite Hs.
Qed.

(** The address the chooser keeps for a node, and whether it has one. *)
Definition chosen (p : Proxy) (n : Node) (now : Z) : string :=
  (Prefer (px_targets p) (n_ID n) (nodeCandidates (px_localAddrs p) n) now).1.2.

(** A node's address is chosen by its own entry of the cache alone. *)
Lemma Prefer_entry c c' key cands now : c_cache c !! key = c_cache c' !! key ->
  (Prefer c key cands now).1.2 = (Prefer c' key cands now).1.2.
Proof.
  intros He. unfold Prefer, reusePrefer. rewrite He. destruct cands as [|a [|b l]]; try done.
  destruct (c_cache c' !! key) as [e|]; [| by repeat case_match].
  destruct (choice_reusePrefer e _ _ now) as [[addr keep] probe]. destruct keep; cbn; repeat case_match; done.
Qed.

Lemma Prefer_frame c key cands now k : k <> key -> c_cache (Prefer c key cands now).1.1 !! k = c_cache c !! k.
Proof.
  intros Hk. unfold Prefer, reusePrefer. destruct cands as [|a [|b l]]; try done.
  destruct (c_cache c !! key) as [e|]; [| by repeat case_match].
  destruct (choice_reusePrefer e _ _ now) as [[addr keep] probe].
  destruct keep; cbn; repeat case_match; cbn; by rewrite ?lookup_insert_ne.
Qed.

(** A candidate for the node, or another candidate at the host it would be dialled at. *)
Definition represented (p : Proxy) (now : Z) (out : list candidate) (n : Node) : Prop :=
  nodeCandidates (px_localAddrs p) n <> [] ->
  forall u peer, wanted p n (chosen p n now) u peer ->
  exists c, c ∈ out /\ ((c_id c = n_ID n /\ c_url c = u /\ c_peerUUID c = peer) \/ u_Host (c_url c) = u_Host u).

Record walk_full (p : Proxy) (el : Node -> Prop) (now : Z) (w : walk) : Prop := {
  wf_core : core (w_proxy w) = core p;
  wf_cache : forall id, id ∉ w_placed w -> c_cache (px_targets (w_proxy w)) !! id = c_cache (px_targets p) !! id;
  wf_seen : forall h, h ∈ w_seenHost w -> exists c, c ∈ w_out w /\ u_Host (c_url c) = h;
  wf_placed : forall n, el n -> n_ID n ∈ w_placed w -> represented p now (w_out w) n
}.

Lemma represented_more p now out out' n : out ⊆ out' -> represented p now out n -> represented p now out' n.
Proof. intros Hs Hr Hc u peer Hw. destruct (Hr Hc u peer Hw) as (c & Hin & H). exists c. split; [by apply Hs | done]. Qed.

Lemma consider_full p (el : Node -> Prop) now w n :
  (forall a b, el a -> el b -> n_ID a = n_ID b -> a = b) ->
  walk_full p el now w -> el n -> walk_full p el now (consider now w n) /\ n_ID n ∈ w_placed (consider now w n).
Proof.
  intros Huniq Hw Hn. unfold consider. case_bool; unbool; [done |]. destruct Hw as [Hc Hcache Hseen Hplaced].
  unfold add_node. pose proof (targetURL_core (w_proxy w) n now) as Ht.
  assert (nodeCandidates (px_localAddrs (w_proxy w)) n <> [] ->
    (targetURL (w_proxy w) n now).1.2 = Some (mkUrl "http" (chosen p n now))) as Hu.
  { intros Hne. unfold targetURL, chosen.
    assert (px_localAddrs (w_proxy w) = px_localAddrs p) as El by (apply (f_equal px_localAddrs) in Hc; exact Hc). rewrite <- El.
    pose proof (Prefer_entry (px_targets (w_proxy w)) (px_targets p) (n_ID n) (nodeCandidates (px_localAddrs (w_proxy w)) n) now
      (Hcache _ Heqb)) as Hp.
    destruct (nodeCandidates (px_localAddrs (w_proxy w)) n); [done |]. rewrite <- Hp. by destruct (Prefer _ _ _ _) as [[? ?] ?]. }
  assert (forall id, id ∉ n_ID n :: w_placed w ->
    c_cache (px_targets (targetURL (w_proxy w) n now).1.1) !! id = c_cache (px_targets p) !! id) as Hcache'.
  { intros id [Hne Hid]%not_elem_of_cons. rewrite <- Hcache by done. unfold targetURL.
    destruct (nodeCandidates (px_localAddrs (w_proxy w)) n) as [|x l] eqn:El; [done |].
    pose proof (Prefer_frame (px_targets (w_proxy w)) (n_ID n) (x :: l) now id Hne) as Hf.
    by destruct (Prefer _ _ _ _) as [[? ?] ?]. }
  destruct (targetURL (w_proxy w) n now) as [[p' u] pr]. cbn [fst snd] in *.
  (* nothing is added, and nothing had to be *)
  assert (represented p now (w_out w) n -> walk_full p el now (mkWalk p' (n_ID n :: w_placed w) (w_seenHost w) (w_out w) (w_probes w ++ pr)))
    as Hskip.
  { intros Hr. split; cbn; [congruence | done | done |]. intros m Hm [Hid | Hid]%elem_of_cons; [| by apply Hplaced].
    by rewrite (Huniq m n Hm Hn Hid). }
  assert (core p' = core p) as Hcore by congruence.
  assert (nodeCandidates (px_localAddrs p) n <> [] -> u = Some (mkUrl "http" (chosen p n now))) as Hu'.
  { assert (px_localAddrs (w_proxy w) = px_localAddrs p) as <- by (apply (f_equal px_localAddrs) in Hc; exact Hc). exact Hu. }
  destruct u as [u|]; [| split; [apply Hskip; intros Hne; by apply Hu' in Hne | left]].
  destruct (classify p' n u) as [[u' peer]|] eqn:Ecl.
  - assert (forall v q, nodeCandidates (px_localAddrs p) n <> [] -> wanted p n (chosen p n now) v q -> v = u' /\ q = peer) as Hv.
    { intros v q Hne Hw%wanted_classify. apply Hu' in Hne. injection Hne as ->.
      rewrite (classify_core p p') in Hw by done. rewrite Hw in Ecl. by injection Ecl. }
    destruct (bool_decide (u_Host u' ∈ w_seenHost w)) eqn:Eh; unbool.
    + split; [| left]. apply Hskip. intros Hne v q Hw. destruct (Hv v q Hne Hw) as [-> ->].
      destruct (Hseen _ Eh) as (c & Hin & Hh). exists c. split; [done | by right].
    + destruct (nodeMetrics p' (n_ID n)) as [gp qd]. split; [| left]. split; cbn; [done | done | |].
      * intros h [-> | Hh]%elem_of_cons; [eexists; split; [apply elem_of_app; right; left | done] |].
        destruct (Hseen h Hh) as (c & Hin & ?). exists c. split; [apply elem_of_app; by left | done].
      * intros m Hm Hid. assert (n_ID m ∈ w_placed w \/ m = n) as [Hid' | ->].
        { apply elem_of_cons in Hid as [Hid | Hid]; [right; by apply Huniq | by left]. }
        -- apply (represented_more p now (w_out w)); [set_solver | by apply Hplaced].
        -- intros Hne v q Hw. destruct (Hv v q Hne Hw) as [-> ->]. eexists. split; [apply elem_of_app; right; left |].
           by left.
  - split; [| left]. apply Hskip. intros Hne v q Hw%wanted_classify. apply Hu' in Hne. injection Hne as ->.
    rewrite (classify_core p p') in Hw by done. congruence.
Qed.

Lemma foldl_consider_full p (el : Node -> Prop) now l w :
  (forall a b, el a -> el b -> n_ID a = n_ID b -> a = b) ->
  walk_full p el now w -> (forall n, n ∈ l -> el n) ->
  walk_full p el now (foldl (consider now) w l) /\
  forall n, n ∈ l -> n_ID n ∈ w_placed (foldl (consider now) w l).
Proof.
  intros Huniq. revert w. induction l as [|n l IH]; intros w Hw Hl; cbn [foldl].
  { split; [done | by intros n ?%not_elem_of_nil]. }
  destruct (consider_full p el now w n Huniq Hw (Hl n ltac:(left))) as [Hw' Hin].
  destruct (IH (consider now w n) Hw') as [Hf Hall]; [intros m Hm; apply Hl; by right |]. split; [done |].
  intros m [-> | Hm]%elem_of_cons; [| by apply Hall].
  clear -Hin. revert Hin. generalize (consider now w n). clear w. induction l as [|m l IH]; intros w Hin; cbn [foldl]; [done |].
  apply IH. unfold consider. case_bool; [done |]. unfold add_node. repeat case_match; cbn; by right.
Qed.

(** C1. Every candidate of a request is allowed and safe: it is a discovered node
    that advertises the requested model; it is never one of this proxy's own
    listeners; and it is dialled only as the local engine, over mutual TLS to a
    peer pinned in the current mesh, or in the clear when the user added it by
    hand.  An unpinned relay peer is never a candidate.  No node and no backend
    host appears twice.  And nobody is left out: every discovered node that advertises the
    model and has an address is a candidate at the address the chooser prefers for it, in
    the one way of the three it may be dialled, or another candidate has that very host;
    a cooldown only moves candidates to the end. *)
Theorem resolveCandidates_sound (R : MapRange) (p : Proxy) (model : string) (now : Z) :
  let '(p', out, _) := resolveCandidates p model now in
  NoDup (c_id <$> out) /\ NoDup ((u_Host ∘ c_url) <$> out) /\
  Forall (fun c => exists n, eligible_node p model n /\ n_ID n = c_id c /\ route p n (c_url c) (c_peerUUID c)) out /\
  core p' = core p /\
  (keyed (d_subscribed (px_discovery p)) -> keyed (d_manual (px_discovery p)) ->
   forall n u peer, eligible_node p model n -> nodeCandidates (px_localAddrs p) n <> [] ->
     wanted p n (Prefer (px_targets p) (n_ID n) (nodeCandidates (px_localAddrs p) n) now).1.2 u peer ->
     exists c, c ∈ out /\
       ((c_id c = n_ID n /\ c_url c = u /\ c_peerUUID c = peer) \/ u_Host (c_url c) = u_Host u)) /\
  exists ready late, out = ready ++ late /\
    (forall c, c ∈ ready -> cooling (px_coolUntil p') (c_id c) = false) /\
    (forall c, c ∈ late -> cooling (px_coolUntil p') (c_id c) = true).
Proof.
  pose proof (resolve_walk_ok p model now) as [Hc Hi _ Hh _ Hok].
  assert (keyed (d_subscribed (px_discovery p)) -> keyed (d_manual (px_discovery p)) ->
    forall n, eligible_node p model n ->
      represented p now (w_out (foldl (consider now) (mkWalk p [] [] [] []) (attempt_order p (eligible p model)))) n) as Hfull.
  { intros Hs Hm n Hn.
    destruct (foldl_consider_full p (eligible_node p model) now (attempt_order p (eligible p model)) (mkWalk p [] [] [] []))
      as [[_ _ _ Hp] Hall].
    - intros a b [Ha _] [Hb _]. by apply (Nodes_unique (px_discovery p) R).
    - split; [done | done | |]; cbn; intros ? ?%not_elem_of_nil || intros ? _ ?%not_elem_of_nil; done.
    - intros m Hin%attempt_order_elem. by apply eligible_spec.
    - apply Hp; [done |]. apply Hall. unfold attempt_order. rewrite !elem_of_app. right. right. by apply eligible_spec. }
  unfold resolveCandidates. destruct (coolingSet (w_proxy (foldl _ _ _)) now) as [p' live] eqn:E.
  unfold coolingSet in E. injection E as <- <-. split_and!.
  - by rewrite demoteCooling_perm.
  - by rewrite demoteCooling_perm.
  - by rewrite demoteCooling_perm.
  - done.
  - intros Hs Hm n u peer Hn Hne Hw. destruct (Hfull Hs Hm n Hn Hne u peer Hw) as (c & Hin & H). exists c.
    split; [by rewrite demoteCooling_perm | exact H].
  - rewrite demoteCooling_eq. eexists _, _. split; [done |].
    split; [by intros c [_ Hf]%elem_of_bfilter; apply negb_true_iff in Hf | by intros c [_ ?]%elem_of_bfilter].
Qed.

#[export] Instance node_less_strict_weak : StrictWeak node_less.
Proof.
  split; unfold node_less; intros.
  - by apply str_ltb_asym.
  - by eapply str_ltb_ntrans.
Qed.

Lemma Nodes_perm (R R' : MapRange) d : @Nodes R d ≡ₚ @Nodes R' d.
Proof.
  unfold Nodes. apply Permutation_app; apply fmap_Permutation.
  - by rewrite !range_perm.
  - apply filter_perm. by rewrite !range_perm.
Qed.

Lemma eligible_unique (R R' : MapRange) p model :
  keyed (d_subscribed (px_discovery p)) -> keyed (d_manual (px_discovery p)) ->
  @eligible R p model = @eligible R' p model.
Proof.
  intros Hs Hm. unfold eligible. apply sort_by_unique; [apply _ | |].
  - intros a b Ha Hb H1 H2. apply (Nodes_unique (px_discovery p) R); try done.
    + case_bool; [done |]. by apply elem_of_bfilter in Ha as [? _].
    + case_bool; [done |]. by apply elem_of_bfilter in Hb as [? _].
    + by apply str_ltb_total.
  - case_bool; [apply Nodes_perm |]. apply filter_perm, Nodes_perm.
Qed.

(** The failover order: candidates keep the order in which nodes are
    considered - an eligible selection first, then the scheduler's order, then the
    remaining nodes by ID - except that every cooling node comes after every node
    that is not; and the map iteration order of the overlays has no influence. *)
Theorem resolveCandidates_order (R : MapRange) (p : Proxy) (model : string) (now : Z) :
  keyed (d_subscribed (px_discovery p)) -> keyed (d_manual (px_discovery p)) ->
  let order := keep_first [] (n_ID <$> attempt_order p (eligible p model)) in
  let '(p', out, _) := resolveCandidates p model now in
  (exists ready late, out = ready ++ late /\
     (forall c, c ∈ ready -> cooling (px_coolUntil p') (c_id c) = false) /\
     (forall c, c ∈ late -> cooling (px_coolUntil p') (c_id c) = true) /\
     (c_id <$> ready) `sublist_of` order /\ (c_id <$> late) `sublist_of` order) /\
  (forall R' : MapRange, @resolveCandidates R' p model now = resolveCandidates p model now).
Proof.
  intros Hs Hm order. assert (forall R' : MapRange,
    @resolveCandidates R' p model now = resolveCandidates p model now) as Hdet.
  { intros R'. unfold resolveCandidates. by rewrite (eligible_unique R' R). }
  destruct (resolveCandidates p model now) as [[p' out] pr] eqn:E. split; [| exact Hdet].
  unfold resolveCandidates in E.
  destruct (foldl_consider_ids now (attempt_order p (eligible p model)) (mkWalk p [] [] [] []))
    as (s & Hs' & Hsub). simpl in Hs', Hsub. rewrite Hs' in E. unfold coolingSet in E.
  injection E as <- <- _. cbn [px_coolUntil with_cool]. rewrite demoteCooling_eq.
  assert (forall f : candidate -> bool, (c_id <$> List.filter f s) `sublist_of` order) as Hf.
  { intros f. etrans; [| exact Hsub]. apply fmap_sublist. clear. induction s as [|x s IH]; simpl; [constructor |].
    case_bool; by constructor. }
  eexists _, _. split; [reflexivity |]. split_and!; [| | apply Hf | apply Hf].
  - intros c [_ Hc]%elem_of_bfilter. by apply negb_true_iff in Hc.
  - by intros c [_ Hc]%elem_of_bfilter.
Qed.

(** * Facts: reservation *)

Lemma index_of_nil : index_of [] = ∅.
Proof. done. Qed.

Lemma index_of_snoc l c : index_of (l ++ [c]) = <[c_id c := length l]> (index_of l).
Proof. unfold index_of. rewrite imap_app, foldl_app. simpl. by rewrite Nat.add_0_r. Qed.

Lemma index_of_Some l id i : index_of l !! id = Some i -> exists c, l !! i = Some c /\ c_id c = id.
Proof.
  induction l as [|c l IH] using rev_ind; [by rewrite index_of_nil, lookup_empty |].
  rewrite index_of_snoc, lookup_insert_Some. intros [[<- <-] | [_ H]].
  - exists c. split; [| done]. by rewrite list_lookup_middle.
  - destruct (IH H) as (c' & Hc & ?). exists c'. split; [| done]. by apply lookup_app_l_Some.
Qed.

Lemma index_of_is_Some l id : is_Some (index_of l !! id) <-> id ∈ c_id <$> l.
Proof.
  induction l as [|c l IH] using rev_ind.
  { rewrite index_of_nil, lookup_empty. split; [by intros [? ?] | by intros ?%not_elem_of_nil]. }
  rewrite index_of_snoc, fmap_app, elem_of_app, <- IH. simpl. rewrite list_elem_of_singleton.
  destruct (decide (id = c_id c)) as [-> | Hne]; [rewrite lookup_insert_eq | rewrite lookup_insert_ne by done];
    naive_solver.
Qed.

Lemma move_front_perm i l : move_front i l ≡ₚ l.
Proof.
  unfold move_front. destruct (l !! i) as [c|] eqn:E; [| done].
  rewrite <- (take_drop_middle l i c E) at 3. by rewrite Permutation_middle.
Qed.

Lemma move_front_head i l c : l !! i = Some c -> head (move_front i l) = Some c.
Proof. unfold move_front. by intros ->. Qed.

(** The selection loop finds the least load, and the earliest in the scheduler's
    order among equals. *)
Lemma best_spec p idx skip (l : list (nat * string)) :
  let ok e := skip e.2 = false /\ is_Some (idx !! e.2) in
  StronglySorted (fun a b => (a.1 < b.1)%nat) l ->
  match foldl (better p idx skip) None l with
  | None => forall e, e ∈ l -> ~ ok e
  | Some (i, o, ld) => exists id, (o, id) ∈ l /\ ok (o, id) /\ idx !! id = Some i /\ ld = load_of p id /\
      forall e, e ∈ l -> ok e -> ld < load_of p e.2 \/ (ld = load_of p e.2 /\ (o <= e.1)%nat)
  end.
Proof.
  intros ok. induction l as [|[o id] l IH] using rev_ind; intros Hs; [by intros e He%not_elem_of_nil |].
  apply StronglySorted_app in Hs as (Hlt & Hl & _). specialize (IH Hl).
  rewrite foldl_snoc. set (b := foldl _ None l) in *. unfold better.
  destruct (skip id) eqn:Esk; [| destruct (idx !! id) as [i|] eqn:Ei].
  - destruct b as [[[i' o'] ld]|].
    + destruct IH as (id' & ? & ? & ? & ? & Hall). exists id'. split; [set_solver |]. split; [done |]. split; [done |]. split; [done |].
      intros e [He | ->%list_elem_of_singleton]%elem_of_app Hok; [by apply Hall |].
      destruct Hok as [Hok _]. simpl in Hok. congruence.
    + intros e [He | ->%list_elem_of_singleton]%elem_of_app Hok; [by apply (IH e) |].
      destruct Hok as [Hok _]. simpl in Hok. congruence.
  - destruct b as [[[i' o'] ld]|].
    + destruct IH as (id' & Hin & Hok' & Hi' & Hld & Hall).
      destruct ((load_of p id <? ld) || _) eqn:E.
      * exists id. split; [set_solver |]. split; [unfold ok; simpl; rewrite Ei; eauto |].
      split; [done |]. split; [done |].
        assert (load_of p id < ld \/ (load_of p id = ld /\ (o < o')%nat)) as Hlt'.
        { apply orb_true_iff in E as [E | E]; [apply Z.ltb_lt in E; by left |]. apply andb_true_iff in E as [E1 E2].
          apply Nat.ltb_lt in E2. apply Z.eqb_eq in E1. by right. }
        intros e [He | ->%list_elem_of_singleton]%elem_of_app Hok; [| simpl; right; lia].
        destruct (Hall e He Hok) as [? | [? ?]]; destruct Hlt' as [? | [? ?]]; lia.
      * exists id'. split; [set_solver |]. split; [done |]. split; [done |]. split; [done |].
        intros e [He | ->%list_elem_of_singleton]%elem_of_app Hok; [by apply Hall |]. simpl.
        apply orb_false_elim in E as [E1 E2]. apply Z.ltb_ge in E1.
        apply andb_false_iff in E2 as [E2 | E2]; [apply Z.eqb_neq in E2; left; lia |].
        apply Nat.ltb_ge in E2. lia.
    + exists id. split; [set_solver |]. split; [unfold ok; simpl; rewrite Ei; eauto |].
      split; [done |]. split; [done |].
      intros e [He | ->%list_elem_of_singleton]%elem_of_app Hok; [by destruct (IH e He) |]. simpl. right. lia.
  - destruct b as [[[i' o'] ld]|].
    + destruct IH as (id' & ? & ? & ? & ? & Hall). exists id'. split; [set_solver |]. split; [done |]. split; [done |]. split; [done |].
      intros e [He | ->%list_elem_of_singleton]%elem_of_app Hok; [by apply Hall |].
      destruct Hok as [_ [? Hok]]. simpl in Hok. congruence.
    + intros e [He | ->%list_elem_of_singleton]%elem_of_app Hok; [by apply (IH e) |].
      destruct Hok as [_ [? Hok]]. simpl in Hok. congruence.
Qed.

Lemma imap_pair_sorted {A} (l : list A) (k : nat) :
  StronglySorted (fun a b : nat * A => (a.1 < b.1)%nat) (imap (fun i x => ((k + i)%nat, x)) l).
Proof.
  revert k. induction l as [|x l IH]; intros k; simpl; constructor.
  - rewrite (imap_ext _ (fun i x => ((S k + i)%nat, x))) by (intros; cbn; f_equal; lia). apply IH.
  - apply Forall_forall. intros [j y] Hy. apply elem_of_lookup_imap in Hy as (i & z & Hyz & _).
    cbn in Hyz. injection Hyz as -> _. cbn. lia.
Qed.

Lemma best_candidate_spec p idx skip :
  match best_candidate p idx skip with
  | None => forall id, id ∈ px_priority p -> skip id = false -> idx !! id = None
  | Some (i, o, ld) => exists id, px_priority p !! o = Some id /\ skip id = false /\ idx !! id = Some i /\
      forall o' id', px_priority p !! o' = Some id' -> skip id' = false -> is_Some (idx !! id') ->
        load_of p id < load_of p id' \/ (load_of p id = load_of p id' /\ (o <= o')%nat)
  end.
Proof.
  unfold best_candidate. pose proof (best_spec p idx skip (imap pair (px_priority p))) as H.
  assert (forall o id, (o, id) ∈ imap pair (px_priority p) <-> px_priority p !! o = Some id) as Hel.
  { intros o id. rewrite elem_of_lookup_imap. split; [by intros (i & x & [= -> ->] & Hx) | by exists o, id]. }
  destruct (foldl _ _ _) as [[[i o] ld]|].
  - destruct H as (id & Hin & [Hsk _] & Hi & -> & Hall); [apply (imap_pair_sorted _ 0) |].
    exists id. split_and!; try done; [by apply Hel |]. intros o' id' Ho Hs' Hi'.
    by apply (Hall (o', id')); [apply Hel |].
  - intros id [o Ho]%list_elem_of_lookup_1 Hsk. destruct (idx !! id) eqn:E; [| done].
    exfalso. apply (H (imap_pair_sorted _ 0) (o, id)); [by apply Hel |]. split; [done |]. simpl. rewrite E. eauto.
Qed.

Definition has_ready (live : gmap string Z) (l : list candidate) : bool :=
  existsb (fun cand => negb (cooling live (c_id cand))) l.

(** A candidate the scheduler lists and that is not set aside by a cooldown. *)
Definition available (p : Proxy) (live : gmap string Z) (l : list candidate) (id : string) : Prop :=
  id ∈ px_priority p /\ id ∈ c_id <$> l /\ (has_ready live l && cooling live id = false).

Definition pinned (p : Proxy) (l : list candidate) : Prop :=
  px_selectedID p <> "" /\ px_selectedID p ∈ c_id <$> l.

Definition warm_ok (p : Proxy) (live : gmap string Z) (l : list candidate) (warm : string) : Prop :=
  warm <> "" /\ warm ∈ c_id <$> l /\ (has_ready live l = true -> cooling live warm = false) /\
  wrap64 (count_at (px_pending p) warm + count_at (px_reservations p) warm) <= 1 /\
  count_at (px_gpuPressure p) warm < MaxGPUPressure.

(** The candidate at the front was chosen and charged one reservation. *)
Definition charged (p p' : Proxy) (out : list candidate) (id : string) : Prop :=
  c_id <$> head out = Some id /\
  px_reservations p' = <[id := wrap64 (count_at (px_reservations p) id + 1)]> (px_reservations p) /\
  px_priority p' = px_priority p /\ px_pending p' = px_pending p /\
  px_gpuPressure p' = px_gpuPressure p /\ px_selectedID p' = px_selectedID p.

Lemma existsb_id l x : existsb (fun cand => bool_decide (c_id cand = x)) l = true <-> x ∈ c_id <$> l.
Proof.
  rewrite existsb_exists, list_elem_of_fmap. split.
  - intros (c & Hc & Hx). unbool. exists c. split; [done |]. by apply list_elem_of_In.
  - intros (c & -> & Hc). exists c. split; [by apply list_elem_of_In | by rewrite bool_decide_true].
Qed.

Lemma move_front_charged p l i id c cool :
  l !! i = Some c -> c_id c = id ->
  charged p (reserve (with_cool p cool) id) (move_front i l) id.
Proof. intros Hi Hc. unfold charged. rewrite (move_front_head i l c Hi). simpl. by rewrite Hc. Qed.

Lemma reserve_facts (p : Proxy) (candidates : list candidate) (warm : string) (now : Z) :
  let live := live_cooldowns (px_coolUntil p) now in
  let '(p', out, hit) := reserveCandidateWithAffinity p candidates warm now in
  out ≡ₚ candidates /\
  (pinned p candidates ->
     hit = false /\ out = demoteCooling candidates live /\ px_reservations p' = px_reservations p) /\
  (hit = true -> charged p p' out warm) /\
  (~ pinned p candidates -> (hit = true <-> warm_ok p live candidates warm)) /\
  (~ pinned p candidates -> hit = false ->
     ((forall id, ~ available p live candidates id) /\ out = demoteCooling candidates live /\
      px_reservations p' = px_reservations p) \/
     exists id o, px_priority p !! o = Some id /\ available p live candidates id /\ charged p p' out id /\
       forall id' o', px_priority p !! o' = Some id' -> available p live candidates id' ->
         load_of p id < load_of p id' \/ (load_of p id = load_of p id' /\ (o <= o')%nat)).
Proof.
  intros live. unfold reserveCandidateWithAffinity.
  destruct candidates as [|c0 cs].
  { assert (forall x : string, x ∉ c_id <$> ([] : list candidate)) as Hno by (intros x; apply not_elem_of_nil).
    rewrite demoteCooling_eq. split; [done |]. split; [by intros [_ ?%Hno] |]. split; [done |].
    split; [intros _; split; [done | by intros (_ & ?%Hno & _)] |].
    intros _ _. left. split; [by intros id (_ & ?%Hno & _) | done]. }
  set (cands := c0 :: cs). unfold coolingSet. fold live. set (l := demoteCooling cands live).
  assert (l ≡ₚ cands) as Hperm by apply demoteCooling_perm.
  assert (forall x, x ∈ c_id <$> l <-> x ∈ c_id <$> cands) as Hids by (intros x; by rewrite Hperm).
  assert (existsb (fun cand => negb (cooling live (c_id cand))) l = has_ready live cands) as Hready.
  { unfold has_ready. apply eq_true_iff_eq. rewrite !existsb_exists.
    split; intros (c & Hc & ?); exists c; (split; [| done]); rewrite <- list_elem_of_In in *; by rewrite Hperm in *. }
  rewrite Hready. cbn [with_cool px_selectedID].
  set (sel := negb (bool_decide (px_selectedID p = "")) && _).
  assert (sel = true <-> pinned p cands) as Hsel.
  { unfold sel, pinned. rewrite andb_true_iff, negb_true_iff, bool_decide_eq_false.
    by rewrite <- Hids, <- existsb_id. }
  destruct sel.
  { assert (pinned p cands) as Hp by (by apply Hsel). split_and!; try done. }
  assert (~ pinned p cands) as Hnp by (intros Hp; by apply Hsel in Hp). clear Hsel.
  set (p1 := with_cool p live). set (skip := fun id => has_ready live cands && cooling live id).
  assert (forall id, available p live cands id <->
    id ∈ px_priority p1 /\ skip id = false /\ is_Some (index_of l !! id)) as Hav.
  { intros id. rewrite index_of_is_Some, Hids. unfold available, skip. simpl. tauto. }
  assert (forall r, r = match best_candidate p1 (index_of l) skip with
      | None => (p1, l, false)
      | Some (i, _, _) => (reserve p1 (from_option c_id "" (l !! i)), move_front i l, false)
      end -> ~ warm_ok p live cands warm -> let '(p', out, hit) := r in
    out ≡ₚ cands /\
    (pinned p cands -> hit = false /\ out = l /\ px_reservations p' = px_reservations p) /\
    (hit = true -> charged p p' out warm) /\
    (~ pinned p cands -> (hit = true <-> warm_ok p live cands warm)) /\
    (~ pinned p cands -> hit = false ->
      ((forall id, ~ available p live cands id) /\ out = l /\ px_reservations p' = px_reservations p) \/
      exists id o, px_priority p !! o = Some id /\ available p live cands id /\ charged p p' out id /\
        forall id' o', px_priority p !! o' = Some id' -> available p live cands id' ->
          load_of p id < load_of p id' \/ (load_of p id = load_of p id' /\ (o <= o')%nat))) as Hload.
  { intros r -> Hw. pose proof (best_candidate_spec p1 (index_of l) skip) as Hb.
    destruct (best_candidate p1 (index_of l) skip) as [[[i o] ld]|].
    - destruct Hb as (id & Ho & Hsk & Hi & Hmin). destruct (index_of_Some _ _ _ Hi) as (c & Hc & Hcid).
      rewrite Hc. cbn [from_option]. rewrite Hcid. split_and!; try done.
      + by rewrite move_front_perm.
      + intros _ _. right. exists id, o. split_and!; [done | | by eapply move_front_charged |].
        * apply Hav. split_and!; [by eapply list_elem_of_lookup_2 | done | eauto].
        * intros id' o' Ho' (_ & Hsk' & Hi')%Hav. by apply Hmin.
    - split_and!; try done. intros _ _. left. split_and!; try done. intros id (Hin & Hsk & Hi)%Hav.
      rewrite (Hb id Hin Hsk) in Hi. by destruct Hi. }
  cbn [with_cool px_pending px_reservations px_gpuPressure].
  destruct (index_of l !! warm) as [index|] eqn:Ei.
  - destruct (_ && _ && _ && _) eqn:Ew.
    + destruct (index_of_Some _ _ _ Ei) as (c & Hc & Hcid).
      assert (warm_ok p live cands warm) as Hw.
      { apply andb_prop in Ew as [Ew E4]. apply andb_prop in Ew as [Ew E3].
        apply andb_prop in Ew as [E1 E2]. unbool. unfold warm_ok. split_and!; try done.
        - apply Hids, index_of_is_Some. eauto.
        - intros Hr. rewrite Hr in E2. simpl in E2. by apply negb_true_iff in E2. }
      split_and!; try done.
      * by rewrite move_front_perm.
      * intros _. by eapply move_front_charged.
    + apply (Hload _ eq_refl). intros (H1 & _ & H2 & H3 & H4). revert Ew.
      unfold p1. cbn [with_cool px_pending px_reservations px_gpuPressure].
      rewrite bool_decide_false by done. rewrite (proj2 (Z.leb_le _ _) H3), (proj2 (Z.ltb_lt _ _) H4).
      destruct (has_ready live cands); [by rewrite H2 | done].
  - apply (Hload _ eq_refl). intros (_ & H & _). apply Hids, index_of_is_Some in H as [? ?]. congruence.
Qed.


(** ** Bursts *)

(** A request of a burst: its own resolved failover list, the node its conversation is warm
    on, if any, and its time. *)
Record request : Type := mkRequest { rq_candidates : list candidate; rq_warm : string; rq_now : Z }.

Definition burst (p : Proxy) (reqs : list request) : Proxy :=
  foldl (fun p r => (reserveCandidateWithAffinity p (rq_candidates r) (rq_warm r) (rq_now r)).1.1) p reqs.

Definition total (p : Proxy) (id : string) : Z :=
  count_at (px_pending p) id + count_at (px_gpuPressure p) id + count_at (px_reservations p) id.

(** Counts are non-negative and [n] more reservations stay within an [int]. *)
Definition roomy (p : Proxy) (n : Z) : Prop :=
  forall id, 0 <= count_at (px_pending p) id /\ 0 <= count_at (px_gpuPressure p) id /\
             0 <= count_at (px_reservations p) id /\ total p id + n < 2 ^ 63.

Lemma load_total p n id : roomy p n -> 0 <= n -> load_of p id = total p id.
Proof. intros Hr Hn. destruct (Hr id) as (? & ? & ? & Hb). unfold total in *. apply wrapU64_id. lia. Qed.

(** The jobs a node holds as the proxy counts them. *)
Definition jobs (p : Proxy) (id : string) : Z := count_at (px_pending p) id + count_at (px_reservations p) id.

(** The request is routed over exactly the nodes of [S], none of them cooling. *)
Definition routed_over (p : Proxy) (S : list string) (r : request) : Prop :=
  (forall id, id ∈ c_id <$> rq_candidates r <-> id ∈ S) /\
  (forall id, id ∈ S -> cooling (live_cooldowns (px_coolUntil p) (rq_now r)) id = false).

Lemma cooling_subset m m' now id : m' ⊆ m -> cooling (live_cooldowns m now) id = false ->
  cooling (live_cooldowns m' now) id = false.
Proof.
  unfold cooling, live_cooldowns. rewrite !bool_decide_eq_false. intros Hm Hn [t Ht]. apply Hn. exists t.
  apply map_lookup_filter_Some in Ht as [Ht ?]. apply map_lookup_filter_Some. split; [by eapply lookup_weaken | done].
Qed.

Lemma reserve_cool p l w now : px_coolUntil (reserveCandidateWithAffinity p l w now).1.1 ⊆ px_coolUntil p.
Proof.
  assert (live_cooldowns (px_coolUntil p) now ⊆ px_coolUntil p) as Hl by apply map_filter_subseteq.
  unfold reserveCandidateWithAffinity, coolingSet. by repeat case_match.
Qed.

(** Everybody counts as before, but for one reservation of [c]. *)
Definition one_more (p p' : Proxy) (c : string) : Prop :=
  px_priority p' = px_priority p /\ px_selectedID p' = px_selectedID p /\
  (forall x, count_at (px_reservations p') x = count_at (px_reservations p) x + (if bool_decide (x = c) then 1 else 0)) /\
  (forall x, total p' x = total p x + (if bool_decide (x = c) then 1 else 0)) /\
  (forall x, jobs p' x = jobs p x + (if bool_decide (x = c) then 1 else 0)) /\
  forall n, 0 <= n -> roomy p (n + 1) -> roomy p' n.

Lemma charged_one_more p p' out c : roomy p 1 -> charged p p' out c -> one_more p p' c.
Proof.
  intros Hroom (_ & Hres & Hp & Hpe & Hg & Hs).
  assert (forall x, count_at (px_reservations p') x =
       count_at (px_reservations p) x + (if bool_decide (x = c) then 1 else 0)) as Hcount.
  { intros x. rewrite Hres. unfold count_at at 1. case_bool; unbool.
    - subst. rewrite lookup_insert_eq. simpl. apply wrap64_id.
      destruct (Hroom c) as (? & ? & ? & ?). unfold total, in_int64 in *. lia.
    - rewrite lookup_insert_ne by done. unfold count_at. lia. }
  assert (forall x, total p' x = total p x + (if bool_decide (x = c) then 1 else 0)) as Htot.
  { intros x. unfold total. rewrite Hcount, Hpe, Hg. lia. }
  split_and!; [done | done | done | done | |].
  - intros x. unfold jobs. rewrite Hcount, Hpe. lia.
  - intros n Hn Hr x. destruct (Hr x) as (? & ? & ? & ?). rewrite Hcount, Hpe, Hg, Htot. case_bool; lia.
Qed.

(** One reservation of a burst: someone is charged, either a least loaded node or the
    node the request is warm on, which holds at most two jobs then. *)
Lemma burst_step p (S : list string) (r : request) :
  roomy p 1 -> px_selectedID p = "" \/ px_selectedID p ∉ S -> S <> [] -> (forall id, id ∈ S -> id ∈ px_priority p) ->
  routed_over p S r ->
  let p' := (reserveCandidateWithAffinity p (rq_candidates r) (rq_warm r) (rq_now r)).1.1 in
  exists c, c ∈ S /\ one_more p p' c /\
    ((forall x, x ∈ S -> total p c <= total p x) \/ (c = rq_warm r /\ rq_warm r <> "" /\ jobs p' c <= 2)).
Proof.
  intros Hroom Hsel Hne Hpri [Hids Hcool].
  pose proof (reserve_facts p (rq_candidates r) (rq_warm r) (rq_now r)) as H. cbv zeta in H.
  destruct (reserveCandidateWithAffinity p _ _ _) as [[p' out] hit]. cbn [fst].
  destruct H as (_ & _ & Hwarm & Hiff & Hload).
  assert (~ pinned p (rq_candidates r)) as Hnp.
  { intros [Hs Hin]. apply Hids in Hin. by destruct Hsel. }
  destruct hit.
  - specialize (Hwarm eq_refl). destruct (proj1 (Hiff Hnp) eq_refl) as (Hw & Hin & _ & Hjobs & _).
    apply Hids in Hin. pose proof (charged_one_more _ _ _ _ Hroom Hwarm) as Hone. exists (rq_warm r). split; [done |]. split; [done |].
    right. split_and!; [done | done |]. destruct Hone as (_ & _ & _ & _ & Hj & _). rewrite Hj, bool_decide_true by done.
    destruct (Hroom (rq_warm r)) as (? & ? & ? & ?). unfold jobs, total in *.
    rewrite wrap64_id in Hjobs by (unfold in_int64; lia). lia.
  - assert (forall id, id ∈ S -> available p (live_cooldowns (px_coolUntil p) (rq_now r)) (rq_candidates r) id) as Hav.
    { intros id Hid. split_and!; [by apply Hpri | by apply Hids |]. rewrite Hcool by done. by rewrite andb_false_r. }
    destruct (Hload Hnp eq_refl) as [(Hnone & _) | (c & o & _ & (_ & Hcl & _) & Hch & Hmin)].
    { destruct S as [|x S]; [done |]. destruct (Hnone x). apply Hav. left. }
    exists c. split; [by apply Hids |]. split; [by eapply charged_one_more |]. left. intros x Hx.
    rewrite <- !(load_total p 1) by (done || lia).
    destruct (list_elem_of_lookup_1 _ _ (Hpri x Hx)) as [o' Ho'].
    destruct (Hmin x o' Ho' (Hav x Hx)) as [? | [? _]]; lia.
Qed.

Lemma sum_one_more p p' c (T : list string) : one_more p p' c -> NoDup T ->
  foldr Z.add 0 ((fun id => count_at (px_reservations p') id) <$> T) =
  foldr Z.add 0 ((fun id => count_at (px_reservations p) id) <$> T) + (if bool_decide (c ∈ T) then 1 else 0).
Proof.
  intros (_ & _ & Hcnt & _). induction T as [|x T IH]; intros HT; [done |]. apply NoDup_cons in HT as [Hx HT].
  rewrite !fmap_cons. cbn [foldr]. rewrite IH, Hcnt by done.
  destruct (decide (x = c)) as [-> | Hxc].
  - rewrite (bool_decide_false (c ∈ T)) by done. rewrite !bool_decide_true by (done || left). lia.
  - rewrite (bool_decide_false (x = c)) by done.
    rewrite (bool_decide_ext (c ∈ x :: T) (c ∈ T)) by set_solver. lia.
Qed.

(** What a burst that began at [p] has come to at [q]; [hints] are the nodes named warm. *)
Record spread (p q : Proxy) (S hints : list string) (n : Z) : Prop := {
  sp_balance : forall c x, c ∈ S -> x ∈ S -> count_at (px_reservations p) c < count_at (px_reservations q) c ->
    total q c <= total q x + 1 \/ (c ∈ hints /\ jobs q c <= 2);
  sp_more : forall c, count_at (px_reservations p) c <= count_at (px_reservations q) c;
  sp_sum : foldr Z.add 0 ((fun id => count_at (px_reservations q) id) <$> S) =
    foldr Z.add 0 ((fun id => count_at (px_reservations p) id) <$> S) + n;
  sp_roomy : forall k, 0 <= k -> roomy p (n + k) -> roomy q k;
  sp_selected : px_selectedID q = px_selectedID p;
  sp_priority : px_priority q = px_priority p;
  sp_cool : px_coolUntil q ⊆ px_coolUntil p
}.

Lemma spread_start p S : spread p p S [] 0.
Proof. split; try done; intros; lia. Qed.

Lemma spread_step p q S hints n r :
  spread p q S hints n -> 0 <= n -> roomy p (n + 1) -> px_selectedID p = "" \/ px_selectedID p ∉ S -> S <> [] -> NoDup S ->
  (forall id, id ∈ S -> id ∈ px_priority p) -> routed_over p S r ->
  spread p (reserveCandidateWithAffinity q (rq_candidates r) (rq_warm r) (rq_now r)).1.1 S (hints ++ [rq_warm r]) (n + 1).
Proof.
  intros [Hbal Hge Hsum Hrm Hs Hp Hc] Hn Hroom Hsel Hne Hnd Hpri [Hids Hcool].
  pose proof (reserve_cool q (rq_candidates r) (rq_warm r) (rq_now r)) as Hc'.
  destruct (burst_step q S r (Hrm 1 ltac:(lia) Hroom) ltac:(by rewrite Hs) Hne ltac:(by rewrite Hp)) as (c & HcS & Hone & Hwhy).
  { split; [done |]. intros id Hid. by apply (cooling_subset (px_coolUntil p)), Hcool. }
  set (q' := (reserveCandidateWithAffinity q _ _ _).1.1) in *. pose proof (sum_one_more q q' c S Hone Hnd) as Hsum'.
  destruct Hone as (Hp' & Hs' & Hcnt & Htot & Hjob & Hrm'). rewrite bool_decide_true in Hsum' by done.
  split; [| | lia | | congruence | congruence | by etrans].
  - intros d x Hd Hx Hlt. rewrite !Htot, !Hjob. rewrite Hcnt in Hlt. destruct (decide (d = c)) as [-> | Hdc].
    + rewrite (bool_decide_true (c = c)) by done. destruct Hwhy as [Hmin | (-> & _ & H2)].
      * left. specialize (Hmin x Hx). case_bool; lia.
      * right. split; [apply elem_of_app; right; left |]. rewrite Hjob, bool_decide_true in H2 by done. lia.
    + rewrite (bool_decide_false (d = c)) in * by done. destruct (Hbal d x Hd Hx ltac:(lia)) as [Hb | [Hh Hj]].
      * left. case_bool; lia.
      * right. split; [apply elem_of_app; by left | lia].
  - intros d. rewrite Hcnt. specialize (Hge d). case_bool; lia.
  - intros k Hk Hr. apply Hrm'; [done |]. apply Hrm; [lia |]. by replace (n + (k + 1)) with (n + 1 + k) by lia.
Qed.

(** C16. A burst spreads.  Between two scheduler snapshots, let requests with any warm hints
    be routed over the same nodes, which the scheduler lists and none of which is selected
    by the user or cooling.  Then exactly one reservation is charged per request, and a
    node that received any of them never ends up more than one job above any other: the
    optimistic reservations keep concurrent requests from piling onto the node that looked
    idle.  The one exception is a node that some request is warm on, which may be further
    above the others by its GPU pressure or by its jobs, but then holds at most two jobs. *)
Theorem burst_balanced (p : Proxy) (reqs : list request) (S : list string) :
  roomy p (Z.of_nat (length reqs)) -> px_selectedID p = "" \/ px_selectedID p ∉ S -> S <> [] -> NoDup S ->
  (forall id, id ∈ S -> id ∈ px_priority p) -> Forall (routed_over p S) reqs ->
  let p' := burst p reqs in
  (forall c x, c ∈ S -> x ∈ S -> count_at (px_reservations p) c < count_at (px_reservations p') c ->
     total p' c <= total p' x + 1 \/ (c ∈ rq_warm <$> reqs /\ jobs p' c <= 2)) /\
  foldr Z.add 0 ((fun id => count_at (px_reservations p') id) <$> S) =
    foldr Z.add 0 ((fun id => count_at (px_reservations p) id) <$> S) + Z.of_nat (length reqs).
Proof.
  intros Hroom Hsel Hne Hnd Hpri Hreqs.
  assert (spread p (burst p reqs) S (rq_warm <$> reqs) (Z.of_nat (length reqs))) as [Hb _ Hs _ _ _ _]; [| done].
  induction reqs as [|r reqs IH] using rev_ind; [apply spread_start |].
  apply Forall_app in Hreqs as [Hreqs Hr]. apply Forall_cons_1 in Hr as [Hr _].
  rewrite length_app, fmap_app in *. cbn [length fmap list_fmap] in *.
  assert (forall a b, roomy p a -> b <= a -> roomy p b) as Hmono.
  { intros a b Ha Hab id. destruct (Ha id) as (? & ? & ? & ?). split_and!; try done. lia. }
  unfold burst. rewrite foldl_snoc. fold (burst p reqs).
  replace (Z.of_nat (length reqs + 1)) with (Z.of_nat (length reqs) + 1) in * by lia.
  apply spread_step; try done; [| lia]. apply IH; [| done]. by apply (Hmono _ _ Hroom); lia.
Qed.

(** * Concrete fleet *)

(** This node ("self", behind a local engine), a pinned peer, an unpinned relay
    peer and a manual node; the scheduler prefers the peer. *)
Definition demo_proxy : Proxy :=
  mkProxy
    (mkDiscovery
       (<["m" := mkNode "m" "manual" 11434 ["10.0.0.7"] [] ["llama3"] "" ""]> ∅)
       (<["self" := mkNode "self" "me" 11434 ["10.0.0.5"] [] ["llama3"] "10.0.0.5" "cu-self"]>
        (<["peer" := mkNode "peer" "p" 11434 ["10.0.0.6"] [] ["llama3:latest"] "10.0.0.6" "cu-peer"]>
         (<["rogue" := mkNode "rogue" "r" 11434 ["10.0.0.9"] [] ["llama3"] "10.0.0.9" "cu-rogue"]> ∅))))
    "" 11434 [] (mkLocalBackend "ollama" "" 11435 true)
    (mkMesh true (Some "cu-self") {["cu-peer"]}) (<["10.0.0.5" := true]> ∅) NewChooser
    ["peer"; "self"; "rogue"] (<["peer" := 0]> (<["self" := 0]> ∅)) ∅ ∅ ∅ (600 * second).

Definition demo_out : list candidate := (@resolveCandidates ascending_range demo_proxy "llama3" 0).1.2.

Lemma demo_keyed : keyed (d_subscribed (px_discovery demo_proxy)) /\ keyed (d_manual (px_discovery demo_proxy)).
Proof.
  split; intros id n; unfold demo_proxy; cbn [px_discovery d_subscribed d_manual]; rewrite !lookup_insert_Some, lookup_empty;
    [intros [[<- <-] | [_ [[<- <-] | [_ [[<- <-] | [_ ?]]]]]] | intros [[<- <-] | [_ ?]]]; done.
Defined.

(** The pinned peer must be a candidate, over mutual TLS. *)
Lemma resolveCandidates_sound_witness :
  keyed (d_subscribed (px_discovery demo_proxy)) /\
  exists c, c ∈ demo_out /\
    ((c_id c = "peer" /\ c_url c = mkUrl "https" "10.0.0.6:11434" /\ c_peerUUID c = "cu-peer")
     \/ u_Host (c_url c) = "10.0.0.6:11434").
Proof.
  destruct demo_keyed as [Hs Hm]. split; [exact Hs |].
  pose proof (resolveCandidates_sound ascending_range demo_proxy "llama3" 0) as H. unfold demo_out.
  destruct (@resolveCandidates ascending_range demo_proxy "llama3" 0) as [[p' out] pr]. destruct H as (_ & _ & _ & _ & H & _).
  apply (H Hs Hm (mkNode "peer" "p" 11434 ["10.0.0.6"] [] ["llama3:latest"] "10.0.0.6" "cu-peer")).
  - apply (eligible_spec demo_proxy "llama3"). apply (bool_decide_unpack _). vm_compute. exact I.
  - vm_compute. discriminate.
  - apply wanted_peer; vm_compute; reflexivity.
Defined.

Lemma resolveCandidates_order_witness :
  ((fun c => (c_id c, u_Scheme (c_url c), u_Host (c_url c), c_peerUUID c)) <$> demo_out) =
    [("peer", "https", "10.0.0.6:11434", "cu-peer"); ("self", "http", "127.0.0.1:11435", "");
     ("m", "http", "10.0.0.7:11434", "")] /\
  @resolveCandidates descending_range demo_proxy "llama3" 0 = @resolveCandidates ascending_range demo_proxy "llama3" 0.
Proof.
  split; [vm_compute; reflexivity |].
  destruct demo_keyed as [Hs Hm].
  pose proof (resolveCandidates_order ascending_range demo_proxy "llama3" 0 Hs Hm) as H.
  cbv zeta in H. destruct (@resolveCandidates ascending_range demo_proxy "llama3" 0) as [[p' out] pr] eqn:E.
  exact (eq_trans (proj2 H descending_range) E).
Defined.

Definition demo_pair : list candidate :=
  [mkCandidate "peer" (mkUrl "https" "10.0.0.6:11434") "cu-peer" 0 0;
   mkCandidate "self" (mkUrl "http" "127.0.0.1:11435") "" 0 0].

(** The third request is warm on "self". *)
Definition demo_requests : list request :=
  (fun warm => mkRequest demo_pair warm 0) <$> [""; "self"; "self"; ""; ""].

Lemma burst_balanced_witness :
  ((fun id => count_at (px_reservations (burst demo_proxy demo_requests)) id) <$> ["peer"; "self"]) = [3; 2] /\
  (total (burst demo_proxy demo_requests) "peer" <= total (burst demo_proxy demo_requests) "self" + 1 \/
   ("peer" ∈ rq_warm <$> demo_requests /\ jobs (burst demo_proxy demo_requests) "peer" <= 2)).
Proof.
  split; [vm_compute; reflexivity |].
  apply (burst_balanced demo_proxy demo_requests ["peer"; "self"]).
  - assert (forall id, (count_at (px_pending demo_proxy) id = 0 /\ count_at (px_gpuPressure demo_proxy) id = 0 /\
      count_at (px_reservations demo_proxy) id = 0)) as Hz.
    { intros id. unfold count_at, demo_proxy. cbn [px_pending px_gpuPressure px_reservations].
      rewrite lookup_empty. split_and!; try done. rewrite !lookup_insert, lookup_empty.
      by repeat case_decide. }
    intros id. unfold total. destruct (Hz id) as (-> & -> & ->). vm_compute. split_and!; done.
  - by left.
  - done.
  - apply (bool_decide_unpack _). vm_compute. exact I.
  - intros id Hid. repeat (apply elem_of_cons in Hid as [-> | Hid]); [set_solver | set_solver |].
    by apply not_elem_of_nil in Hid.
  - apply Forall_forall. intros r Hr. apply list_elem_of_fmap in Hr as (w & -> & _). split; [done |].
    intros id Hid. repeat (apply elem_of_cons in Hid as [-> | Hid]); [reflexivity | reflexivity |].
    by apply not_elem_of_nil in Hid.
  - set_solver.
  - set_solver.
  - vm_compute. reflexivity.
Defined.
