(* ===== verification/FleetScheduling.v ===== *)
(** The scheduler and the proxy together: what the scheduler publishes is what the
    proxy routes by. *)
From S2P Require Import Prelude.
From S2P Require Import SchedulerWire.
From S2P Require Import Reach.
From S2P Require Import ProxyNodes.
From S2P Require Import Routing.
From S2P Require Scheduler.

Open Scope string_scope.
Open Scope list_scope.
Open Scope Z_scope.

(** * Delivery of a snapshot *)

Definition published (e : string) (ranking : list string * list NodeRank) : Priority :=
  EnginePriority_Snapshot (mkEnginePriority e ranking.1 ranking.2).

(** A rank the proxy stores unchanged. *)
Definition in_range (r : NodeRank) : Prop :=
  nr_ID r <> "" /\ 0 <= nr_Pending r /\ 0 <= nr_GPUPressure r <= MaxGPUPressure.

Lemma clamp_in_range pe gp r :
  in_range r -> clamp_rank (pe, gp) r = (<[nr_ID r := nr_Pending r]> pe, <[nr_ID r := nr_GPUPressure r]> gp).
Proof.
  intros (Hid & Hp & Hg). unfold clamp_rank. rewrite bool_decide_false by done.
  destruct (Z.ltb_spec (nr_Pending r) 0), (Z.ltb_spec (nr_GPUPressure r) 0),
    (Z.ltb_spec MaxGPUPressure (nr_GPUPressure r)); lia || done.
Qed.

Lemma clamp_all (ranks : list NodeRank) pe gp id :
  Forall in_range ranks -> NoDup (nr_ID <$> ranks) ->
  let '(pe', gp') := foldl clamp_rank (pe, gp) ranks in
  (forall r, r ∈ ranks -> nr_ID r = id ->
     pe' !! id = Some (nr_Pending r) /\ gp' !! id = Some (nr_GPUPressure r)) /\
  (id ∉ nr_ID <$> ranks -> pe' !! id = pe !! id /\ gp' !! id = gp !! id).
Proof.
  intros Hr. revert pe gp. induction Hr as [|r ranks Hr Hrs IH]; intros pe gp Hnd; cbn [foldl].
  - split; [by intros r ?%not_elem_of_nil | done].
  - rewrite fmap_cons in *. apply NoDup_cons in Hnd as [Hout Hnd]. rewrite clamp_in_range by done.
    specialize (IH (<[nr_ID r := nr_Pending r]> pe) (<[nr_ID r := nr_GPUPressure r]> gp) Hnd).
    destruct (foldl clamp_rank _ ranks) as [pe' gp']. destruct IH as [IHin IHout]. split.
    + intros r' [-> | Hr']%elem_of_cons Hid; [| by apply IHin]. subst id.
      destruct (IHout Hout) as [-> ->]. by rewrite !lookup_insert_eq.
    + intros [Hne Hni]%not_elem_of_cons. destruct (IHout Hni) as [-> ->]. by rewrite !lookup_insert_ne.
Qed.

Section Fleet.
Context (R : MapRange) (m : Scheduler.Manager) (now : Z).
Context (Hwf : Scheduler.Manager_wf m) (Hsize : Z.of_nat (size (Scheduler.m_catalog m)) < 2 ^ 62).

Lemma rank_in_range r : r ∈ (Scheduler.rankAt m now).2 -> in_range r.
Proof.
  intros Hr. pose proof (Scheduler.rank_payload_ok m now r Hwf Hr) as [Hg Hp].
  pose proof (Scheduler.rank_facts R m now) as H. destruct (Scheduler.rankAt m now) as [order ranks].
  destruct H as (Hord & Hperm & _). cbn [snd] in Hr. split_and!; try done; try lia. intros Hid.
  assert (nr_ID r ∈ order) as Hin by (rewrite Hord; apply list_elem_of_fmap; eauto).
  rewrite Hperm, Hid in Hin. apply list_elem_of_fmap in Hin as ([k v] & Hk & Hin).
  apply elem_of_map_to_list in Hin. simpl in Hk. subst k. by rewrite (Scheduler.wf_nodes m Hwf) in Hin.
Qed.

Lemma pending_bound r : r ∈ (Scheduler.rankAt m now).2 -> nr_Pending r < 2 ^ 62.
Proof.
  intros Hr. pose proof (Scheduler.rank_facts R m now) as H.
  destruct (Scheduler.rankAt m now) as [order ranks]. destruct H as (_ & _ & Hent & _). cbn [snd] in Hr.
  apply list_elem_of_lookup_1 in Hr as [i Hi]. destruct (Hent i r Hi) as (_ & -> & _).
  eapply Z.le_lt_trans; [| exact Hsize]. apply Nat2Z.inj_le. unfold map_count.
  etrans; [apply List.filter_length_le |]. rewrite length_fmap, length_map_to_list. done.
Qed.

Lemma ranks_NoDup : NoDup (nr_ID <$> (Scheduler.rankAt m now).2).
Proof.
  pose proof (Scheduler.rank_facts R m now) as H. destruct (Scheduler.rankAt m now) as [order ranks].
  destruct H as (Hord & Hperm & _). cbn [snd]. rewrite <- Hord, Hperm. apply NoDup_fst_map_to_list.
Qed.

Context (e : string) (p : Proxy).

Definition delivered : Proxy := (SetPrioritySnapshot p (published e (Scheduler.rankAt m now))).1.

Lemma delivered_counts r :
  r ∈ (Scheduler.rankAt m now).2 ->
  count_at (px_pending delivered) (nr_ID r) = nr_Pending r /\
  count_at (px_gpuPressure delivered) (nr_ID r) = nr_GPUPressure r /\
  count_at (px_reservations delivered) (nr_ID r) = 0.
Proof.
  intros Hr. unfold delivered, SetPrioritySnapshot, published. cbn [EnginePriority_Snapshot pr_Ranks ep_Ranks].
  pose proof (clamp_all (Scheduler.rankAt m now).2 ∅ ∅ (nr_ID r)) as H.
  destruct (foldl clamp_rank (∅, ∅) (Scheduler.rankAt m now).2) as [pe gp].
  destruct H as [Hin _]; [| apply ranks_NoDup |].
  - apply Forall_forall. intros. by apply rank_in_range.
  - unfold count_at. cbn [with_priority px_pending px_gpuPressure px_reservations fst].
    destruct (Hin r Hr eq_refl) as [-> ->]. by rewrite lookup_empty.
Qed.

Lemma delivered_rest :
  px_priority delivered = (Scheduler.rankAt m now).1 /\ px_selectedID delivered = px_selectedID p /\
  px_coolUntil delivered = px_coolUntil p.
Proof.
  unfold delivered, SetPrioritySnapshot. by destruct (foldl _ _ _).
Qed.

Lemma delivered_load r : r ∈ (Scheduler.rankAt m now).2 ->
  load_of delivered (nr_ID r) = nr_Pending r + nr_GPUPressure r.
Proof.
  intros Hr. destruct (delivered_counts r Hr) as (E1 & E2 & E3). unfold load_of. rewrite E1, E2, E3.
  destruct (rank_in_range r Hr) as (_ & ? & ?). pose proof (pending_bound r Hr). unfold MaxGPUPressure in *.
  rewrite Z.add_0_r. apply wrapU64_id. lia.
Qed.
End Fleet.

(** What the proxy knows of a node no rank is about. *)
Lemma delivered_unranked (R : MapRange) m now e p w :
  Scheduler.Manager_wf m -> w ∉ nr_ID <$> (Scheduler.rankAt m now).2 ->
  count_at (px_pending (delivered R m now e p)) w = 0.
Proof.
  intros Hwf Hw. unfold delivered, SetPrioritySnapshot, published. cbn [EnginePriority_Snapshot pr_Ranks ep_Ranks].
  pose proof (clamp_all (Scheduler.rankAt m now).2 ∅ ∅ w) as H.
  destruct (foldl clamp_rank (∅, ∅) (Scheduler.rankAt m now).2) as [pe gp].
  destruct H as [_ Hout]; [| apply ranks_NoDup |].
  - apply Forall_forall. intros. by eapply rank_in_range.
  - unfold count_at. cbn [with_priority px_pending fst]. destruct (Hout Hw) as [-> _]. by rewrite lookup_empty.
Qed.

Lemma delivered_no_reservations (R : MapRange) m now e p w : count_at (px_reservations (delivered R m now e p)) w = 0.
Proof.
  unfold delivered, SetPrioritySnapshot. destruct (foldl _ _ _). unfold count_at. cbn. by rewrite lookup_empty.
Qed.

(** The pending count the proxy compares is the plain one. *)
Lemma delivered_jobs (R : MapRange) m now e p w :
  Scheduler.Manager_wf m -> Z.of_nat (size (Scheduler.m_catalog m)) < 2 ^ 62 ->
  wrap64 (count_at (px_pending (delivered R m now e p)) w + count_at (px_reservations (delivered R m now e p)) w) =
  count_at (px_pending (delivered R m now e p)) w.
Proof.
  intros Hwf Hsize. rewrite delivered_no_reservations, Z.add_0_r. apply wrap64_id.
  destruct (decide (w ∈ nr_ID <$> (Scheduler.rankAt m now).2)) as [(r & -> & Hr)%list_elem_of_fmap | Hw].
  - destruct (delivered_counts R m now Hwf e p r Hr) as (-> & _ & _).
    destruct (rank_in_range R m now Hwf r Hr) as (_ & ? & _). pose proof (pending_bound R m now Hsize r Hr).
    unfold in_int64. lia.
  - rewrite delivered_unranked by done. unfold in_int64. lia.
Qed.

(** C17. Scheduler and proxy agree.  A proxy that has just received the scheduler's
    snapshot holds exactly its ranks (its clamps change nothing).  The first request it
    routes, unless the user selected one of its candidates, goes to the node it is warm on
    exactly when that node is a candidate, is not set aside by a cooldown, has at most one
    pending job and is below the top pressure band; otherwise it goes to the first node of
    the scheduler's order that is a candidate and is not set aside by a cooldown (a cooling
    node is set aside while some candidate is not cooling). *)
Theorem first_dispatch (R : MapRange) (m : Scheduler.Manager) (t now : Z) (e : string) (p : Proxy)
    (l : list candidate) (w id : string) (o : nat) :
  Scheduler.Manager_wf m -> Z.of_nat (size (Scheduler.m_catalog m)) < 2 ^ 62 ->
  px_selectedID p = "" \/ px_selectedID p ∉ c_id <$> l ->
  let ranking := Scheduler.rankAt m t in
  let p' := (SetPrioritySnapshot p (published e ranking)).1 in
  let live := live_cooldowns (px_coolUntil p) now in
  let set_aside x := existsb (fun c => negb (cooling live (c_id c))) l && cooling live x in
  ranking.1 !! o = Some id -> id ∈ c_id <$> l -> set_aside id = false ->
  (forall o' id', (o' < o)%nat -> ranking.1 !! o' = Some id' -> id' ∉ c_id <$> l \/ set_aside id' = true) ->
  (forall r, r ∈ ranking.2 -> count_at (px_pending p') (nr_ID r) = nr_Pending r /\
     count_at (px_gpuPressure p') (nr_ID r) = nr_GPUPressure r) /\
  let '(_, out, hit) := reserveCandidateWithAffinity p' l w now in
  (hit = true <-> w <> "" /\ w ∈ c_id <$> l /\ set_aside w = false /\
     count_at (px_pending p') w <= 1 /\ count_at (px_gpuPressure p') w < MaxGPUPressure) /\
  c_id <$> head out = Some (if hit then w else id).
Proof.
  intros Hwf Hsize Hsel ranking p' live set_aside Ho Hid Hset Hfirst.
  pose proof (delivered_rest R m t e p) as (Hpri & Hs & Hc).
  fold ranking in Hpri. change (delivered R m t e p) with p' in *. split.
  { intros r Hr. by destruct (delivered_counts R m t Hwf e p r Hr) as (? & ? & _). }
  pose proof (reserve_facts p' l w now) as H. rewrite Hc in H. fold live in H.
  destruct (reserveCandidateWithAffinity p' l w now) as [[q out] hit].
  destruct H as (_ & _ & Hwarm & Hiff & Hload).
  assert (~ pinned p' l) as Hnp by (intros [? Hin]; rewrite Hs in *; by destruct Hsel).
  split.
  { rewrite (Hiff Hnp). unfold warm_ok. pose proof (delivered_jobs R m t e p w Hwf Hsize) as Hj.
    change (delivered R m t e p) with p' in Hj. rewrite Hj. unfold set_aside. change (existsb _ l) with (has_ready live l).
    destruct (has_ready live l), (cooling live w); cbn; naive_solver. }
  destruct hit; [by apply Hwarm |].
  assert (forall x, x ∈ ranking.1 -> x ∈ c_id <$> l -> set_aside x = false -> available p' live l x) as Hav.
  { intros x Hx Hxl Hxs. split_and!; [by rewrite Hpri | done | exact Hxs]. }
  assert (id ∈ ranking.1) as Hidr by (by eapply list_elem_of_lookup_2).
  destruct (Hload Hnp eq_refl) as [(Hnone & _) | (c & oc & Hoc & (_ & Hcl & Hcs) & (Hhead & _) & Hmin)].
  { by destruct (Hnone id (Hav id Hidr Hid Hset)). }
  rewrite Hpri in Hoc. rewrite Hhead. f_equal.
  specialize (Hmin id o). rewrite Hpri in Hmin. specialize (Hmin Ho (Hav id Hidr Hid Hset)).
  destruct (Nat.lt_ge_cases oc o) as [Hlt | Hge].
  { destruct (Hfirst oc c Hlt Hoc) as [|Hca]; [done |]. unfold set_aside in Hca. change (existsb _ l) with (has_ready live l) in Hca. congruence. }
  destruct (decide (oc = o)) as [-> | Hne]; [congruence |]. exfalso. clear Hfirst Hav set_aside Hset.
  pose proof (Scheduler.rank_facts R m t) as Hfacts. fold ranking in Hfacts.
  pose proof (delivered_load R m t Hwf Hsize e p) as Hl. fold ranking in Hl.
  change (delivered R m t e p) with p' in Hl. clearbody p'.
  destruct ranking as [order ranks]. cbn [fst snd] in *. destruct Hfacts as (Hord & _ & _ & Hsorted & _).
  rewrite Hord, list_lookup_fmap in Ho, Hoc.
  destruct (ranks !! o) as [ro|] eqn:Ero; [| done]. destruct (ranks !! oc) as [rc|] eqn:Erc; [| done].
  cbn in Ho, Hoc. injection Ho as <-. injection Hoc as <-.
  assert (rank_load_le : nr_Pending ro + nr_GPUPressure ro <= nr_Pending rc + nr_GPUPressure rc).
  { pose proof (Hsorted o oc ro rc ltac:(lia) Ero Erc) as Hless. unfold Scheduler.rank_less in Hless.
    revert Hless. repeat case_bool; unbool; intros; unbool; lia. }
  rewrite !Hl in Hmin by (by eapply list_elem_of_lookup_2). lia.
Qed.

Definition demo_ab : list candidate :=
  [mkCandidate "a" (mkUrl "https" "10.0.0.6:11434") "cu-a" 0 0;
   mkCandidate "b" (mkUrl "https" "10.0.0.7:11434") "cu-b" 0 0].

(** "b" heads the order, and a request goes there; one that is warm on "a", which holds one
    job, goes to "a". *)
Lemma first_dispatch_witness :
  let ranking := @Scheduler.rankAt ascending_range Scheduler.demo_manager 5 in
  let p' := (SetPrioritySnapshot demo_proxy (published "ollama" ranking)).1 in
  ranking.1 = ["b"; "a"] /\
  c_id <$> head (reserveCandidateWithAffinity p' demo_ab "" 7).1.2 = Some "b" /\
  c_id <$> head (reserveCandidateWithAffinity p' demo_ab "a" 7).1.2 = Some "a".
Proof.
  intros ranking p'. assert (ranking.1 = ["b"; "a"]) as Hr by (vm_compute; reflexivity).
  split; [exact Hr |].
  assert (forall w, let '(_, out, hit) := reserveCandidateWithAffinity p' demo_ab w 7 in
    (hit = true <-> w <> "" /\ w ∈ c_id <$> demo_ab /\
       existsb (fun c => negb (cooling (live_cooldowns (px_coolUntil demo_proxy) 7) (c_id c))) demo_ab
         && cooling (live_cooldowns (px_coolUntil demo_proxy) 7) w = false /\
       count_at (px_pending p') w <= 1 /\ count_at (px_gpuPressure p') w < MaxGPUPressure) /\
    c_id <$> head out = Some (if hit then w else "b")) as H.
  { intros w. apply (first_dispatch ascending_range Scheduler.demo_manager 5 7 "ollama" demo_proxy demo_ab w "b" 0).
    - apply Scheduler.run_wf.
    - vm_compute. reflexivity.
    - by left.
    - fold ranking. rewrite Hr. reflexivity.
    - right. left.
    - vm_compute. reflexivity.
    - intros o' id' Hlt. lia. }
  split.
  - specialize (H ""). destruct (reserveCandidateWithAffinity p' demo_ab "" 7) as [[q out] hit]. destruct H as [Hhit Hout].
    destruct hit; [exfalso; exact (proj1 (proj1 Hhit eq_refl) eq_refl) | exact Hout].
  - specialize (H "a"). destruct (reserveCandidateWithAffinity p' demo_ab "a" 7) as [[q out] hit]. destruct H as [Hhit Hout].
    destruct hit; [exact Hout |]. exfalso. assert (false = true) as E; [| discriminate E]. apply Hhit.
    split; [discriminate |]. split; [left |].
    split; [vm_compute; reflexivity |]. split; apply (bool_decide_unpack _); vm_compute; exact I.
Defined.
