(* ===== verification/WorkloadStore.v ===== *)
(** The broker's workload index (services/nvpair-ui-broker/workloadstore): the
    provenance-aware merge that makes a workload's state converge, its queries and
    its staleness sweep (store.go).  The on-disk history is WorkloadHistory.v. *)
From S2P Require Import Prelude.
From S2P Require Import Json.

Open Scope string_scope.
Open Scope list_scope.
Open Scope Z_scope.

(** * Data *)

(** A reading of the store clock: the monotonic part in nanoseconds and the wall
    clock in milliseconds ([UnixMilli]).  A reading is never the zero [time.Time],
    so the [IsZero] guards on a stored sighting are always passed. *)
Record reading : Type := mkReading { t_mono : Z; t_unix : Z }.

Record Key : Type := mkKey { k_Origin : string; k_Engine : string; k_RunID : string; k_ID : string }.

#[export] Instance Key_eq_dec : EqDecision Key.
Proof. solve_decision. Defined.

#[export] Instance Key_countable : Countable Key.
Proof.
  refine (inj_countable' (fun k => (k_Origin k, k_Engine k, k_RunID k, k_ID k))
            (fun '(o, e, r, i) => mkKey o e r i) _).
  by intros [].
Defined.

(** [Info] is the raw workloadInfo, kept verbatim; JSON is modelled decoded, so a copy
    and a trip through a file keep it. *)
Definition Info : Type := json.

Record Store_Record : Type := mkRecord {
  r_Origin : string;
  r_ID : string;
  r_State : string;
  r_CreatedAt : Z;
  r_CompletedAt : Z;
  r_ScheduledOn : string;
  r_Terminal : bool;
  r_Inferred : bool;
  r_Info : Info;
  r_LastUpdated : Z;
  r_LastSeen : Z
}.

Record Incoming : Type := mkIncoming {
  in_Origin : string;
  in_Engine : string;
  in_RunID : string;
  in_ID : string;
  in_State : string;
  in_CreatedAt : Z;
  in_CompletedAt : Z;
  in_ScheduledOn : string;
  in_Info : Info
}.

Record Store : Type := mkStore {
  s_records : gmap Key Store_Record;
  s_path : string;
  s_rotations : nat;
  s_historyCap : Z;
  s_maxAgeMs : Z;
  s_dirty : bool
}.

Definition New : Store := mkStore ∅ "" 0 0 0 false.

Definition set_records (s : Store) (m : gmap Key Store_Record) (d : bool) : Store :=
  mkStore m (s_path s) (s_rotations s) (s_historyCap s) (s_maxAgeMs s) d.

(** The header fields [ParseIncoming] unmarshals. *)
Record header : Type := mkHeader {
  h_ID : string;
  h_Engine : string;
  h_RunID : string;
  h_State : string;
  h_OriginatedFrom : string;
  h_ScheduledOn : string;
  h_CreatedAt : Z;
  h_CompletedAt : option Z
}.

Definition unmarshal_header (v : json) : option header :=
  let step l (h : header) :=
    match field dec_string "id" l (h_ID h), field dec_string "engine" l (h_Engine h), field dec_string "runId" l (h_RunID h),
          field dec_string "state" l (h_State h), field dec_string "originatedFrom" l (h_OriginatedFrom h),
          field dec_string "scheduledOn" l (h_ScheduledOn h), field dec_int64 "createdAt" l (h_CreatedAt h),
          field (dec_ptr dec_int64 0) "completedAt" l (h_CompletedAt h) with
    | Some id, Some engine, Some runID, Some state, Some origin, Some scheduledOn, Some createdAt, Some completedAt =>
        Some (mkHeader id engine runID state origin scheduledOn createdAt completedAt)
    | _, _, _, _, _, _, _, _ => None
    end in
  dec_struct step (mkHeader "" "" "" "" "" "" 0 None) v.

Definition ParseIncoming (info : Info) : option Incoming :=
  match unmarshal_header info with
  | None => None
  | Some h =>
      if bool_decide (h_ID h = "") || bool_decide (h_OriginatedFrom h = "") then None
      else Some (mkIncoming (h_OriginatedFrom h) (h_Engine h) (h_RunID h) (h_ID h) (h_State h)
                   (h_CreatedAt h) (default 0 (h_CompletedAt h)) (h_ScheduledOn h) info)
  end.

(** * The merge rule (store.go) *)

Definition IsTerminal (state : string) : bool :=
  bool_decide (state = "completed") || bool_decide (state = "failed").

Definition rank (state : string) : Z :=
  if bool_decide (state = "queued") then 1
  else if bool_decide (state = "running") then 2
  else if IsTerminal state then 3
  else 0.

Definition keyOf (i : Incoming) : Key := mkKey (in_Origin i) (in_Engine i) (in_RunID i) (in_ID i).

Definition recordFrom (i : Incoming) (now : reading) : Store_Record :=
  mkRecord (in_Origin i) (in_ID i) (in_State i) (in_CreatedAt i) (in_CompletedAt i)
    (in_ScheduledOn i) (IsTerminal (in_State i)) false (in_Info i) (t_unix now) (t_mono now).

Definition with_provenance (r : Store_Record) (inferred : bool) (seen : Z) : Store_Record :=
  mkRecord (r_Origin r) (r_ID r) (r_State r) (r_CreatedAt r) (r_CompletedAt r) (r_ScheduledOn r)
    (r_Terminal r) inferred (r_Info r) (r_LastUpdated r) seen.

Definition persistable (r : Store_Record) : bool := r_Terminal r && negb (r_Inferred r).

Definition putLocked (s : Store) (key : Key) (i : Incoming) (inferred : bool) (now : reading) : Store :=
  let prev := s_records s !! key in
  let prevPersistable := match prev with Some r => persistable r | None => false end in
  let rec0 := recordFrom i now in
  let seen := match prev with
              | Some r => if inferred then r_LastSeen r else r_LastSeen rec0
              | None => r_LastSeen rec0
              end in
  let rec := with_provenance rec0 inferred seen in
  set_records s (<[key := rec]> (s_records s)) (s_dirty s || persistable rec || prevPersistable).

Definition applyLocked (s : Store) (i : Incoming) (inferred : bool) (now : reading) : Store * bool :=
  if bool_decide (in_ID i = "") || bool_decide (in_Origin i = "") then (s, false)
  else
    let key := keyOf i in
    match s_records s !! key with
    | None => (putLocked s key i inferred now, true)
    | Some cur =>
        let '(s, cur) :=
          if negb inferred && (r_CreatedAt cur <=? in_CreatedAt i) then
            let cur := with_provenance cur (r_Inferred cur) (t_mono now) in
            (set_records s (<[key := cur]> (s_records s)) (s_dirty s), cur)
          else (s, cur) in
        if r_CreatedAt cur <? in_CreatedAt i then (putLocked s key i inferred now, true)
        else if in_CreatedAt i <? r_CreatedAt cur then (s, false)
        else if negb inferred && r_Inferred cur then (putLocked s key i false now, true)
        else if inferred && negb (r_Inferred cur) then
          if r_Terminal cur then (s, false) else (putLocked s key i true now, true)
        else
          let ri := rank (in_State i) in
          let rc := rank (r_State cur) in
          if rc <? ri then (putLocked s key i inferred now, true)
          else if ri <? rc then (s, false)
          else if negb (bool_decide (in_ScheduledOn i = r_ScheduledOn cur))
               then (putLocked s key i inferred now, true)
               else (s, false)
    end.

Definition Apply (s : Store) (i : Incoming) (now : reading) : Store * bool := applyLocked s i false now.
Definition ApplyInferred (s : Store) (i : Incoming) (now : reading) : Store * bool :=
  applyLocked s i true now.

Definition ApplyInferredUnchangedSince (s : Store) (i : Incoming) (seenAt : Z) (now : reading)
    : Store * bool :=
  match s_records s !! keyOf i with
  | None => (s, false)
  | Some cur => if negb (r_LastSeen cur =? seenAt) then (s, false) else applyLocked s i true now
  end.

Definition matches_pair (origin id : string) (r : Store_Record) : bool :=
  bool_decide (r_Origin r = origin) && bool_decide (r_ID r = id).

Definition Remove (s : Store) (origin id : string) : Store * bool :=
  let gone := List.filter (matches_pair origin id) (map_to_list (s_records s)).*2 in
  (set_records s (filter (fun '(_, r) => matches_pair origin id r = false) (s_records s))
     (s_dirty s || existsb persistable gone),
   negb (bool_decide (gone = []))).

Definition Len (s : Store) : nat := size (s_records s).

(** * Queries (store.go) *)

Definition snapshot_less (a b : Store_Record) : bool :=
  if negb (r_CreatedAt a =? r_CreatedAt b) then r_CreatedAt a <? r_CreatedAt b
  else if negb (bool_decide (r_Origin a = r_Origin b)) then str_ltb (r_Origin a) (r_Origin b)
  else str_ltb (r_ID a) (r_ID b).

Definition snapshotRecords (recs : list Store_Record) : list Info := r_Info <$> sort_by snapshot_less recs.

Definition live (r : Store_Record) : bool := negb (r_Terminal r).

Section Queries.
Context `{!MapRange}.

Definition all_records (s : Store) : list Store_Record := (range (s_records s)).*2.

Definition Snapshot (s : Store) : list Info := snapshotRecords (all_records s).

Definition ActiveSnapshot (s : Store) : list Info :=
  snapshotRecords (List.filter live (all_records s)).

Definition ActiveForNode (s : Store) (node : string) : list Store_Record :=
  List.filter (fun r => live r && (bool_decide (r_Origin r = node) || bool_decide (r_ScheduledOn r = node)))
    (all_records s).

Definition ActiveScheduledOn (s : Store) (node : string) : nat :=
  length (List.filter (fun r => live r && bool_decide (r_ScheduledOn r = node)) (all_records s)).

Definition HasActive (s : Store) : bool := existsb live (all_records s).

(** [liveByClientKey] *)
Definition live_at (s : Store) (origin id : string) : nat :=
  length (List.filter (fun r => live r && negb (bool_decide (r_Origin r = "")) && matches_pair origin id r)
            (all_records s)).

Definition stale (s : Store) (selfNode : string) (staleAfter : Z) (now : reading) (r : Store_Record) : bool :=
  if r_Terminal r || bool_decide (r_Origin r = "") then false
  else if bool_decide (r_Origin r = selfNode) then false
  else if Nat.ltb 1 (live_at s (r_Origin r) (r_ID r)) then false
  else if time_sub (t_mono now) (r_LastSeen r) <? staleAfter then false
  else true.

Definition StaleForeign (s : Store) (selfNode : string) (staleAfter : Z) (now : reading)
    : list Store_Record :=
  List.filter (stale s selfNode staleAfter now) (all_records s).

Definition completionOrder (r : Store_Record) : Z :=
  if 0 <? r_CompletedAt r then r_CompletedAt r else r_LastUpdated r.

Definition ReplayForNode (s : Store) (node : string) (terminalWindowMs : Z) (now : reading)
    : list Store_Record :=
  let cutoff := t_unix now - terminalWindowMs in
  List.filter (fun r => bool_decide (r_Origin r = node)
                        && negb (r_Terminal r && (r_Inferred r || (completionOrder r <? cutoff))))
    (all_records s).
End Queries.

(** * Facts: the merge *)

Lemma rank_terminal st : rank st = 3 <-> IsTerminal st = true.
Proof.
  unfold rank. destruct (IsTerminal st) eqn:E; repeat case_bool; unbool; subst; try done.
Qed.

Lemma rank_range st : 0 <= rank st <= 3.
Proof. unfold rank. repeat case_bool; lia. Qed.

Lemma rank_le_terminal a b : rank a <= rank b -> IsTerminal a = true -> IsTerminal b = true.
Proof.
  rewrite <- !rank_terminal. pose proof (rank_range b). lia.
Qed.

Definition valid (i : Incoming) : Prop := in_ID i <> "" /\ in_Origin i <> "".

(** The displayed content of a record: everything but the store's own clocks. *)
Definition content (r : Store_Record) : string * string * string * Z * Z * string * bool * bool * Info :=
  (r_Origin r, r_ID r, r_State r, r_CreatedAt r, r_CompletedAt r, r_ScheduledOn r, r_Terminal r,
   r_Inferred r, r_Info r).

(** When the merge accepts an event against a current record. *)
Definition accepts (cur : Store_Record) (i : Incoming) (inferred : bool) : bool :=
  if r_CreatedAt cur <? in_CreatedAt i then true
  else if in_CreatedAt i <? r_CreatedAt cur then false
  else if Bool.eqb inferred (r_Inferred cur) then
    (rank (r_State cur) <? rank (in_State i))
    || ((rank (r_State cur) =? rank (in_State i)) && negb (bool_decide (in_ScheduledOn i = r_ScheduledOn cur)))
  else if inferred then negb (r_Terminal cur)
  else true.

Definition written (i : Incoming) (inferred : bool) (now : reading) (seen : Z) : Store_Record :=
  with_provenance (recordFrom i now) inferred seen.

Lemma applyLocked_facts s i inferred now :
  let '(s', ok) := applyLocked s i inferred now in
  (forall k, k <> keyOf i -> s_records s' !! k = s_records s !! k) /\
  (bool_decide (in_ID i = "") || bool_decide (in_Origin i = "") = true -> s' = s /\ ok = false) /\
  (valid i ->
     match s_records s !! keyOf i with
     | None => ok = true /\ s_records s' !! keyOf i = Some (written i inferred now (t_mono now))
     | Some cur =>
         ok = accepts cur i inferred /\
         if ok then exists seen, s_records s' !! keyOf i = Some (written i inferred now seen) /\
                                 seen = (if inferred then r_LastSeen cur else t_mono now)
         else exists seen, s_records s' !! keyOf i = Some (with_provenance cur (r_Inferred cur) seen) /\
              seen = (if negb inferred && (r_CreatedAt cur <=? in_CreatedAt i) then t_mono now else r_LastSeen cur)
     end) /\
  (s_path s' = s_path s /\ s_rotations s' = s_rotations s /\ s_historyCap s' = s_historyCap s /\
   s_maxAgeMs s' = s_maxAgeMs s).
Proof.
  unfold applyLocked. destruct (bool_decide (in_ID i = "") || _) eqn:Ev.
  { split_and!; try done. intros [? ?]. apply orb_true_iff in Ev as [? | ?]; by unbool. }
  set (key := keyOf i). destruct (s_records s !! key) as [cur|] eqn:Ec.
  2: { split_and!; try done; [intros k Hk; unfold putLocked; simpl; by rewrite lookup_insert_ne |].
    intros _. split; [done |]. unfold putLocked. rewrite Ec. simpl. by rewrite lookup_insert_eq. }
  assert (with_provenance cur (r_Inferred cur) (r_LastSeen cur) = cur) as Hcur by (by destruct cur).
  set (t := negb inferred && (r_CreatedAt cur <=? in_CreatedAt i)).
  set (cur' := with_provenance cur (r_Inferred cur) (if t then t_mono now else r_LastSeen cur)).
  set (s1 := if t then set_records s (<[key := cur']> (s_records s)) (s_dirty s) else s).
  assert ((if t then (set_records s (<[key := with_provenance cur (r_Inferred cur) (t_mono now)]> (s_records s))
             (s_dirty s), with_provenance cur (r_Inferred cur) (t_mono now)) else (s, cur)) = (s1, cur')) as ->.
  { unfold s1, cur'. destruct t; [done |]. by rewrite Hcur. }
  assert (s_records s1 !! key = Some cur') as H1.
  { unfold s1, cur'. destruct t; simpl; [by rewrite lookup_insert_eq | by rewrite Ec, Hcur]. }
  assert (forall k, k <> key -> s_records s1 !! k = s_records s !! k) as H2.
  { intros k Hk. unfold s1. destruct t; simpl; [by rewrite lookup_insert_ne | done]. }
  assert (s_path s1 = s_path s /\ s_rotations s1 = s_rotations s /\ s_historyCap s1 = s_historyCap s /\
    s_maxAgeMs s1 = s_maxAgeMs s) as H3 by (unfold s1; by destruct t).
  assert (forall inf, (inf = true -> t = false) -> let s' := putLocked s1 key i inf now in
    (forall k, k <> key -> s_records s' !! k = s_records s !! k) /\
    s_records s' !! key = Some (written i inf now (if inf then r_LastSeen cur else t_mono now)) /\
    (s_path s' = s_path s /\ s_rotations s' = s_rotations s /\ s_historyCap s' = s_historyCap s /\
     s_maxAgeMs s' = s_maxAgeMs s)) as Hput.
  { intros inf Hinf. unfold putLocked. rewrite H1. simpl. split_and!; try apply H3.
    - intros k Hk. rewrite lookup_insert_ne by done. by apply H2.
    - rewrite lookup_insert_eq. unfold written. destruct inf; [| done].
      unfold cur'. by rewrite Hinf. }
  assert (inferred = true -> t = false) as Hinf by (unfold t; by destruct inferred).
  change (r_CreatedAt cur') with (r_CreatedAt cur). change (r_Inferred cur') with (r_Inferred cur).
  change (r_Terminal cur') with (r_Terminal cur). change (r_State cur') with (r_State cur).
  change (r_ScheduledOn cur') with (r_ScheduledOn cur). unfold accepts.
  destruct (Hput inferred Hinf) as (P1 & P2 & P3).
  assert (Hyes : (forall k, k <> key -> s_records (putLocked s1 key i inferred now) !! k = s_records s !! k) /\
    (false = true -> putLocked s1 key i inferred now = s /\ true = false) /\
    (valid i -> true = true /\ exists seen, s_records (putLocked s1 key i inferred now) !! key =
        Some (written i inferred now seen) /\ seen = (if inferred then r_LastSeen cur else t_mono now)) /\
    (s_path (putLocked s1 key i inferred now) = s_path s /\ s_rotations (putLocked s1 key i inferred now) = s_rotations s /\
     s_historyCap (putLocked s1 key i inferred now) = s_historyCap s /\
     s_maxAgeMs (putLocked s1 key i inferred now) = s_maxAgeMs s)).
  { split; [exact P1 |]. split; [done |]. split; [| exact P3]. intros _. split; [done |]. by eexists. }
  assert (Hno : (forall k, k <> key -> s_records s1 !! k = s_records s !! k) /\
    (false = true -> s1 = s /\ false = false) /\
    (valid i -> false = false /\ exists seen, s_records s1 !! key = Some (with_provenance cur (r_Inferred cur) seen) /\
        seen = (if t then t_mono now else r_LastSeen cur)) /\
    (s_path s1 = s_path s /\ s_rotations s1 = s_rotations s /\ s_historyCap s1 = s_historyCap s /\
     s_maxAgeMs s1 = s_maxAgeMs s)).
  { split; [exact H2 |]. split; [done |]. split; [| exact H3]. intros _. split; [done |]. by eexists. }
  fold t. clearbody s1 t. clear P1 P2 P3 H2 H3 Hput Hinf H1.
  destruct (r_CreatedAt cur <? in_CreatedAt i); [exact Hyes |].
  destruct (in_CreatedAt i <? r_CreatedAt cur); [exact Hno |].
  destruct inferred, (r_Inferred cur) eqn:Ei; cbn [negb andb Bool.eqb].
  2: { destruct (r_Terminal cur); [exact Hno | exact Hyes]. }
  2: exact Hyes.
  all: destruct (Z.ltb_spec (rank (r_State cur)) (rank (in_State i))); cbn [orb]; [exact Hyes |];
    destruct (Z.ltb_spec (rank (in_State i)) (rank (r_State cur)));
      [rewrite (proj2 (Z.eqb_neq _ _)) by lia; exact Hno |];
    rewrite (proj2 (Z.eqb_eq _ _)) by lia; cbn [andb]; case_bool; [exact Hyes | exact Hno].
Qed.

(** ** Histories of events *)

Inductive event : Type :=
| EApply (i : Incoming)
| EInferred (i : Incoming)
| EInferredSince (i : Incoming) (seenAt : Z)
| ERemove (origin id : string).

Definition step (s : Store) (ev : event) (now : reading) : Store * bool :=
  match ev with
  | EApply i => Apply s i now
  | EInferred i => ApplyInferred s i now
  | EInferredSince i seenAt => ApplyInferredUnchangedSince s i seenAt now
  | ERemove origin id => Remove s origin id
  end.

Definition run (s : Store) (evs : list (event * reading)) : Store :=
  foldl (fun s e => (step s e.1 e.2).1) s evs.

(** Generation and state rank, as one number. *)
Definition level (r : Store_Record) : Z := 4 * r_CreatedAt r + rank (r_State r).
Definition level_in (i : Incoming) : Z := 4 * in_CreatedAt i + rank (in_State i).

(** A record as authoritative events leave it. *)
Definition authoritative (r : Store_Record) : Prop :=
  r_Inferred r = false /\ r_Terminal r = IsTerminal (r_State r).

Lemma apply_level s i now :
  valid i -> (forall r, s_records s !! keyOf i = Some r -> authoritative r) ->
  exists r, s_records (Apply s i now).1 !! keyOf i = Some r /\ authoritative r /\
    level r = match s_records s !! keyOf i with
              | Some cur => Z.max (level cur) (level_in i)
              | None => level_in i
              end.
Proof.
  intros Hv Hauth. unfold Apply. pose proof (applyLocked_facts s i false now) as H.
  destruct (applyLocked s i false now) as [s' ok]. destruct H as (_ & _ & H & _). specialize (H Hv). cbn [fst].
  destruct (s_records s !! keyOf i) as [cur|].
  2: { destruct H as [_ H]. eexists. split; [exact H |]. done. }
  destruct (Hauth cur eq_refl) as [Hinf Hterm]. destruct H as [Hok H].
  unfold accepts in Hok. rewrite Hinf in Hok. cbn [Bool.eqb] in Hok. unfold level, level_in.
  pose proof (rank_range (in_State i)). pose proof (rank_range (r_State cur)).
  destruct ok; destruct H as (seen & H & _); eexists; (split; [exact H |]).
  - split; [done |]. cbn.
    destruct (Z.ltb_spec (r_CreatedAt cur) (in_CreatedAt i)); [lia |].
    destruct (Z.ltb_spec (in_CreatedAt i) (r_CreatedAt cur)); [done |].
    symmetry in Hok. apply orb_true_iff in Hok as [Hok | Hok]; unbool; lia.
  - split; [by split |]. cbn.
    destruct (Z.ltb_spec (r_CreatedAt cur) (in_CreatedAt i)); [done |].
    destruct (Z.ltb_spec (in_CreatedAt i) (r_CreatedAt cur)); [lia |].
    symmetry in Hok. apply orb_false_iff in Hok as [Hok _]. unbool. lia.
Qed.

Definition run_authoritative (s : Store) (evs : list (Incoming * reading)) : Store :=
  foldl (fun s e => (Apply s e.1 e.2).1) s evs.

(** After authoritative events, a key holds the greatest level asserted for it. *)
Lemma run_level evs k :
  Forall (fun e => valid e.1) evs ->
  match s_records (run_authoritative New evs) !! k with
  | None => forall e, e ∈ evs -> keyOf e.1 <> k
  | Some r => authoritative r /\ (exists e, e ∈ evs /\ keyOf e.1 = k /\ level r = level_in e.1) /\
              (forall e, e ∈ evs -> keyOf e.1 = k -> level_in e.1 <= level r)
  end.
Proof.
  induction evs as [|[i now] evs IH] using rev_ind; intros Hv.
  { cbn. rewrite lookup_empty. by intros e ?%not_elem_of_nil. }
  apply Forall_app in Hv as [Hvs Hv]. apply Forall_cons_1 in Hv as [Hv _]. specialize (IH Hvs).
  unfold run_authoritative. rewrite foldl_snoc. fold (run_authoritative New evs). cbn [fst snd].
  set (s := run_authoritative New evs) in *. destruct (decide (keyOf i = k)) as [<- | Hk].
  - destruct (apply_level s i now Hv) as (r & Hr & Hauth & Hl).
    { intros cur Hcur. rewrite Hcur in IH. apply IH. }
    rewrite Hr. destruct (s_records s !! keyOf i) as [cur|].
    + destruct IH as (_ & (e & He & Hek & Hel) & Hmax). split; [done |]. split.
      * destruct (Z.le_gt_cases (level cur) (level_in i)).
        -- exists (i, now). split; [set_solver |]. split; [done |]. cbn. lia.
        -- exists e. split; [set_solver |]. split; [done |]. lia.
      * intros e' [He' | ->%list_elem_of_singleton]%elem_of_app Hk; cbn in *; [specialize (Hmax e' He' Hk) |]; lia.
    + split; [done |]. split; [exists (i, now); set_solver |].
      intros e' [He' | ->%list_elem_of_singleton]%elem_of_app Hk; cbn; [by destruct (IH e' He') | lia].
  - pose proof (applyLocked_facts s i false now) as H. unfold Apply.
    destruct (applyLocked s i false now) as [s' ok]. destruct H as (H & _). cbn [fst].
    rewrite H by done. destruct (s_records s !! k) as [r|].
    + destruct IH as (? & (e & ? & ? & ?) & Hmax). split; [done |]. split; [exists e; set_solver |].
      intros e' [He' | ->%list_elem_of_singleton]%elem_of_app Hk'; [by apply Hmax | done].
    + intros e' [He' | ->%list_elem_of_singleton]%elem_of_app; [by apply IH | done].
Qed.

(** Two deliveries of the same events leave records of the same level. *)
Lemma order_forgotten (evs evs' : list (Incoming * reading)) (k : Key) :
  let view r := (r_CreatedAt r, rank (r_State r), r_Terminal r, r_Inferred r) in
  let top evs o := match o with
    | None => forall e, e ∈ evs -> keyOf e.1 <> k
    | Some r => authoritative r /\ (exists e, e ∈ evs /\ keyOf e.1 = k /\ level r = level_in e.1) /\
                (forall e, e ∈ evs -> keyOf e.1 = k -> level_in e.1 <= level r)
    end in
  forall o o', (forall i, i ∈ evs.*1 <-> i ∈ evs'.*1) -> top evs o -> top evs' o' -> view <$> o = view <$> o'.
Proof.
  intros view top o o' Hp H H'.
  assert (forall e, e ∈ evs -> exists e', e' ∈ evs' /\ e'.1 = e.1) as Hto.
  { intros e He. assert (e.1 ∈ evs.*1) as Hin by (by apply list_elem_of_fmap_2). rewrite Hp in Hin.
    apply list_elem_of_fmap in Hin as (e' & ? & ?). eauto. }
  assert (forall e, e ∈ evs' -> exists e', e' ∈ evs /\ e'.1 = e.1) as Hfrom.
  { intros e He. assert (e.1 ∈ evs'.*1) as Hin by (by apply list_elem_of_fmap_2). rewrite <- Hp in Hin.
    apply list_elem_of_fmap in Hin as (e' & ? & ?). eauto. }
  destruct o as [r|], o' as [r'|]; cbn in *; try done.
  - destruct H as ([Hi Ht] & (e & He & Hek & Hel) & Hmax), H' as ([Hi' Ht'] & (e' & He' & Hek' & Hel') & Hmax').
    assert (level r = level r') as Hlev.
    { destruct (Hto e He) as (x & Hx & Hxe), (Hfrom e' He') as (x' & Hx' & Hxe').
      pose proof (Hmax' x Hx ltac:(congruence)). pose proof (Hmax x' Hx' ltac:(congruence)).
      rewrite Hxe in *. rewrite Hxe' in *. lia. }
    unfold level in Hlev. pose proof (rank_range (r_State r)). pose proof (rank_range (r_State r')).
    assert (rank (r_State r) = rank (r_State r')) as Hr by lia.
    assert (r_Terminal r = r_Terminal r') as Hterm.
    { rewrite Ht, Ht'. apply eq_true_iff_eq. rewrite <- !rank_terminal. by rewrite Hr. }
    unfold view. rewrite Hi, Hi', Hr, Hterm. do 2 f_equal. f_equal. f_equal. lia.
  - destruct H as (_ & (e & He & Hek & _) & _). destruct (Hto e He) as (x & Hx & Hxe).
    destruct (H' x Hx). congruence.
  - destruct H' as (_ & (e & He & Hek & _) & _). destruct (Hfrom e He) as (x & Hx & Hxe).
    destruct (H x Hx). congruence.
Qed.

(** The lifecycle of a workload: queued, running, then completed or failed; a state that is
    none of these comes before them all. *)
Inductive precedes : string -> string -> Prop :=
| precedes_queued s t : s ∉ ["queued"; "running"; "completed"; "failed"] ->
    t ∈ ["queued"; "running"; "completed"; "failed"] -> precedes s t
| precedes_running : precedes "queued" "running"
| precedes_terminal s t : s ∈ ["queued"; "running"] -> t ∈ ["completed"; "failed"] -> precedes s t.

Lemma precedes_rank s t : precedes s t -> rank s < rank t.
Proof.
  intros [s' t' Hs Ht | | s' t' Hs Ht]; [| done |].
  - rewrite !not_elem_of_cons in Hs. destruct Hs as (H1 & H2 & H3 & H4 & _).
    unfold rank at 1, IsTerminal. rewrite !bool_decide_false by done. cbn.
    by repeat (apply elem_of_cons in Ht as [-> | Ht]); [.. | apply not_elem_of_nil in Ht].
  - repeat (apply elem_of_cons in Hs as [-> | Hs]); try (by apply not_elem_of_nil in Hs);
      repeat (apply elem_of_cons in Ht as [-> | Ht]); try (by apply not_elem_of_nil in Ht); done.
Qed.

(** After authoritative events, a record shows one of the events of its key. *)
Lemma run_source evs k r :
  Forall (fun e => valid e.1) evs -> s_records (run_authoritative New evs) !! k = Some r ->
  exists e, e ∈ evs /\ keyOf e.1 = k /\ content r = content (recordFrom e.1 e.2).
Proof.
  revert r. induction evs as [|[i now] evs IH] using rev_ind; intros r Hv.
  { cbn. by rewrite lookup_empty. }
  apply Forall_app in Hv as [Hvs Hv]. apply Forall_cons_1 in Hv as [Hv _].
  unfold run_authoritative. rewrite foldl_snoc. fold (run_authoritative New evs). cbn [fst snd].
  set (s := run_authoritative New evs) in *. unfold Apply.
  pose proof (applyLocked_facts s i false now) as H. destruct (applyLocked s i false now) as [s' ok]. cbn [fst].
  destruct H as (Hother & _ & Hkey & _). specialize (Hkey Hv).
  assert (forall r, s_records s !! k = Some r ->
    exists e, e ∈ evs ++ [(i, now)] /\ keyOf e.1 = k /\ content r = content (recordFrom e.1 e.2)) as IH'.
  { intros r' Hr'. destruct (IH r' Hvs Hr') as (e & He & ?). exists e. split; [set_solver | done]. }
  destruct (decide (k = keyOf i)) as [-> | Hk]; [| rewrite Hother by done; apply IH'].
  assert (forall seen, content (written i false now seen) = content (recordFrom i now)) as Hw by done.
  destruct (s_records s !! keyOf i) as [cur|] eqn:Ec.
  - destruct Hkey as [Hok Hkey]. destruct ok; destruct Hkey as (seen & -> & _); intros [= <-].
    + exists (i, now). split; [set_solver | done].
    + destruct (IH' cur eq_refl) as (e & He & Hek & Hc). by exists e.
  - destruct Hkey as [_ ->]. intros [= <-]. exists (i, now). split; [set_solver | done].
Qed.

(** C20. Convergence.  The record merged from the origin's lifecycle events shows one of the
    events of its key, of the latest generation (createdAt) any event of the key has and,
    within that generation, of a state no event's state comes after (queued, then running,
    then completed or failed), so no late "running" undoes a terminal; there is no record
    exactly when no event has the key.  And the events may reach a node in any order and
    any number of times: generation, state rank, terminal flag and provenance are then the
    same. *)
Theorem merge_converges (evs : list (Incoming * reading)) (k : Key) :
  Forall (fun e => valid e.1) evs ->
  let merged evs := s_records (run_authoritative New evs) !! k in
  match merged evs with
  | None => forall e, e ∈ evs -> keyOf e.1 <> k
  | Some r =>
      r_Inferred r = false /\
      (exists e, e ∈ evs /\ keyOf e.1 = k /\ content r = content (recordFrom e.1 e.2)) /\
      (forall e, e ∈ evs -> keyOf e.1 = k ->
         in_CreatedAt e.1 < r_CreatedAt r \/
         (in_CreatedAt e.1 = r_CreatedAt r /\ ~ precedes (r_State r) (in_State e.1)))
  end /\
  forall evs', (forall i, i ∈ evs'.*1 <-> i ∈ evs.*1) ->
    let view r := (r_CreatedAt r, rank (r_State r), r_Terminal r, r_Inferred r) in
    view <$> merged evs = view <$> merged evs'.
Proof.
  intros Hv merged. pose proof (run_level evs k Hv) as H. split.
  - subst merged. cbv beta. destruct (s_records (run_authoritative New evs) !! k) as [r|] eqn:Er; [| done].
    destruct H as ([Hi _] & _ & Hmax). split; [done |]. split; [by apply run_source |].
    intros e He Hk. specialize (Hmax e He Hk). unfold level, level_in in Hmax.
    pose proof (rank_range (r_State r)). pose proof (rank_range (in_State e.1)).
    destruct (Z.lt_trichotomy (in_CreatedAt e.1) (r_CreatedAt r)) as [|[|]]; [by left | right | lia].
    split; [done |]. intros Hp%precedes_rank. lia.
  - intros evs' Hp view. subst merged. cbv beta.
    assert (Forall (fun e : Incoming * reading => valid e.1) evs') as Hv'.
    { rewrite Forall_forall in *. intros e He. assert (e.1 ∈ evs'.*1) as Hin by (by apply list_elem_of_fmap_2).
      rewrite Hp in Hin. apply list_elem_of_fmap in Hin as (e0 & -> & ?). by apply Hv. }
    apply (order_forgotten evs evs' k); [by intros i; rewrite Hp | exact H | by apply run_level].
Qed.

(** The events that say nothing newer about a key, and do not retire it. *)
Definition not_newer (k : Key) (r : Store_Record) (ev : event) : Prop :=
  match ev with
  | EApply i | EInferred i | EInferredSince i _ => keyOf i = k -> in_CreatedAt i <= r_CreatedAt r
  | ERemove origin id => matches_pair origin id r = false
  end.

Definition settled (g : Z) (o id : string) (r : Store_Record) : Prop :=
  r_Terminal r = true /\ r_Inferred r = false /\ r_CreatedAt r = g /\ r_Origin r = o /\ r_ID r = id /\
  IsTerminal (r_State r) = true.

Lemma apply_settled s i inferred now k g o id r :
  s_records s !! k = Some r -> settled g o id r -> o = k_Origin k -> id = k_ID k ->
  (keyOf i = k -> in_CreatedAt i <= g) ->
  exists r', s_records (applyLocked s i inferred now).1 !! k = Some r' /\ settled g o id r'.
Proof.
  intros Hr Hs Ho Hid Hle. pose proof (applyLocked_facts s i inferred now) as H.
  destruct (applyLocked s i inferred now) as [s' ok]. destruct H as (Hother & Hinv & H & _). cbn [fst].
  destruct (decide (keyOf i = k)) as [<- | Hk]; [| exists r; by rewrite Hother].
  destruct (bool_decide (in_ID i = "") || bool_decide (in_Origin i = "")) eqn:Ev.
  { destruct (Hinv eq_refl) as [-> _]. eauto. }
  unbool. specialize (H (conj H0 H1)). rewrite Hr in H. destruct H as [Hok H].
  destruct Hs as (Ht & Hi & Hg & Hro & Hrid & Hst). specialize (Hle eq_refl).
  destruct ok; destruct H as (seen & H & _); eexists; (split; [exact H |]); [| by split_and!].
  unfold accepts in Hok. rewrite Hi, Ht, Hg in Hok.
  destruct (Z.ltb_spec g (in_CreatedAt i)); [lia |]. destruct (Z.ltb_spec (in_CreatedAt i) g); [done |].
  destruct inferred; cbn [Bool.eqb negb] in Hok; [done |].
  assert (IsTerminal (in_State i) = true) as Hterm.
  { apply (rank_le_terminal (r_State r)); [| done]. symmetry in Hok.
    apply orb_true_iff in Hok as [Hok | Hok]; unbool; lia. }
  split_and!; cbn; try done; lia || (by rewrite ?Ho, ?Hid).
Qed.

(** C24. A finished workload is never resurrected.  Once the origin's own terminal
    event is merged, no sequence of events about that generation or an older one -
    late, repeated, inferred by a sweep, or checked against a stale sighting - can
    make the record active again or turn it into a guess. *)
Theorem terminal_sticks (s : Store) (evs : list (event * reading)) (k : Key) (r : Store_Record) :
  s_records s !! k = Some r -> settled (r_CreatedAt r) (k_Origin k) (k_ID k) r ->
  Forall (fun e => not_newer k r e.1) evs ->
  exists r', s_records (run s evs) !! k = Some r' /\
    r_Terminal r' = true /\ r_Inferred r' = false /\ r_CreatedAt r' = r_CreatedAt r /\
    IsTerminal (r_State r') = true.
Proof.
  intros Hr Hs Hev.
  assert (exists r', s_records (run s evs) !! k = Some r' /\ settled (r_CreatedAt r) (k_Origin k) (k_ID k) r')
    as (r' & ? & ? & ? & ? & ? & ? & ?); [| eauto 10].
  induction evs as [|[ev now] evs IH] using rev_ind; [eauto |].
  apply Forall_app in Hev as [Hevs Hev]. apply Forall_cons_1 in Hev as [Hev _].
  destruct (IH Hevs) as (r1 & Hr1 & Hs1). unfold run. rewrite foldl_snoc. fold (run s evs). cbn [fst snd] in *.
  pose proof Hs1 as (_ & _ & Hg1 & Ho1 & Hid1 & _).
  destruct ev as [i | i | i seenAt | origin id]; cbn [step] in *; unfold Apply, ApplyInferred.
  - by eapply apply_settled.
  - by eapply apply_settled.
  - unfold ApplyInferredUnchangedSince. destruct (s_records (run s evs) !! keyOf i) as [cur|] eqn:Ec; [| eauto].
    case_bool; [eauto |]. by eapply apply_settled.
  - exists r1. split; [| done]. unfold Remove. cbn. apply map_lookup_filter_Some. split; [done |].
    unfold not_newer, matches_pair in *. destruct Hs as (_ & _ & _ & Ho & Hid & _). by rewrite Ho1, Hid1, <- Ho, <- Hid.
Qed.

(** * Facts: the staleness sweep *)

Lemma filter_positive {A B} (f : B -> bool) (l : list (A * B)) k r :
  (k, r) ∈ l -> f r = true -> (0 < length (List.filter f l.*2))%nat.
Proof.
  intros Hin Hr. destruct (List.filter f l.*2) eqn:E; [| simpl; lia].
  assert (r ∈ List.filter f l.*2) as H; [| rewrite E in H; by apply not_elem_of_nil in H].
  apply elem_of_bfilter. split; [by apply (list_elem_of_fmap_2 snd _ (k, r)) | done].
Qed.

Lemma filter_at_most_one {A B} (f : B -> bool) (l : list (A * B)) k r k' r' :
  NoDup l.*1 -> (length (List.filter f l.*2) <= 1)%nat ->
  (k, r) ∈ l -> (k', r') ∈ l -> f r = true -> f r' = true -> k = k'.
Proof.
  induction l as [|[a b] l IH]; [by intros _ _ ?%not_elem_of_nil |].
  rewrite !fmap_cons, NoDup_cons. cbn [fst snd List.filter].
  intros [Ha Hnd] Hlen [E | Hin]%elem_of_cons [E' | Hin']%elem_of_cons Hr Hr'.
  - congruence.
  - injection E as -> ->. rewrite Hr in Hlen. pose proof (filter_positive f l k' r' Hin' Hr'). simpl in Hlen. lia.
  - injection E' as -> ->. rewrite Hr' in Hlen. pose proof (filter_positive f l k r Hin Hr). simpl in Hlen. lia.
  - apply IH; try done. destruct (f b); simpl in Hlen; lia.
Qed.

Section Sweep.
Context `{!MapRange}.

(** The staleness sweep is safe and reversible.  A candidate is a live record of
    another origin that has been silent for the whole budget, and no other live
    record shares the (origin, id) pair clients see.  Failing it, if the origin is
    still silent, keeps the origin's last sighting and marks the record inferred, and
    the origin's next event of that generation - whatever it says - overrides the
    guess with its own content. *)
Theorem sweep_safe (s : Store) (selfNode : string) (staleAfter : Z) (t : reading) (r : Store_Record) :
  r ∈ StaleForeign s selfNode staleAfter t ->
  r_Terminal r = false /\ r_Origin r <> "" /\ r_Origin r <> selfNode /\
  staleAfter <= time_sub (t_mono t) (r_LastSeen r) /\
  exists k, s_records s !! k = Some r /\
    (forall k' r', s_records s !! k' = Some r' -> r_Terminal r' = false ->
       r_Origin r' = r_Origin r -> r_ID r' = r_ID r -> k' = k) /\
    (forall i now, valid i -> keyOf i = k -> in_CreatedAt i = r_CreatedAt r -> in_State i = "failed" ->
       rank (r_State r) < 3 ->
       let '(s', ok) := ApplyInferredUnchangedSince s i (r_LastSeen r) now in
       ok = true /\ s_records s' !! k = Some (written i true now (r_LastSeen r)) /\
       forall j now', valid j -> keyOf j = k -> in_CreatedAt j = r_CreatedAt r ->
         let '(s'', ok') := Apply s' j now' in
         ok' = true /\ s_records s'' !! k = Some (written j false now' (t_mono now'))).
Proof.
  unfold StaleForeign. intros [Hin Hst]%elem_of_bfilter. unfold all_records in Hin.
  apply list_elem_of_fmap in Hin as ([k r0] & -> & Hin). cbn [snd] in *. unfold stale in Hst.
  destruct (r_Terminal r0) eqn:Et; [done |]. cbn [orb] in Hst.
  destruct (decide (r_Origin r0 = "")) as [Ho | Ho]; [by rewrite bool_decide_true in Hst |].
  rewrite bool_decide_false in Hst by done. case_bool; [done |].
  destruct (Nat.ltb_spec 1 (live_at s (r_Origin r0) (r_ID r0))) as [? | Hone]; [done |].
  destruct (Z.ltb_spec (time_sub (t_mono t) (r_LastSeen r0)) staleAfter); [done |]. clear Hst. unbool.
  split_and!; try done. exists k. pose proof Hin as Hk. rewrite elem_of_range in Hk. split; [done |]. split.
  - intros k' r' Hk' Ht' Ho' Hid'. symmetry.
    eapply (filter_at_most_one _ (range (s_records s)) k r0 k' r' (NoDup_fst_range _) Hone Hin).
    + by apply elem_of_range.
    + cbn. unfold live, matches_pair. rewrite Et, (bool_decide_eq_false_2 _ Ho). by rewrite !bool_decide_true.
    + cbn. unfold live, matches_pair. rewrite Ht', Ho', (bool_decide_eq_false_2 _ Ho). by rewrite !bool_decide_true.
  - intros i now Hv Hki Hg Hf Hrank. unfold ApplyInferredUnchangedSince. rewrite Hki, Hk, Z.eqb_refl. cbn [negb].
    pose proof (applyLocked_facts s i true now) as Ha. destruct (applyLocked s i true now) as [s' ok].
    destruct Ha as (_ & _ & Ha & _). specialize (Ha Hv). rewrite Hki, Hk in Ha. destruct Ha as [Hok Ha].
    unfold accepts in Hok. rewrite Hg, Z.ltb_irrefl, Et, Hf in Hok. change (rank "failed") with 3 in Hok.
    assert (ok = true) as ->.
    { rewrite Hok. destruct (r_Inferred r0); cbn; [| done]. by rewrite (proj2 (Z.ltb_lt _ _)). }
    destruct Ha as (seen & Ha & ->). split; [done |]. split; [done |]. intros j now' Hvj Hkj Hgj.
    unfold Apply. pose proof (applyLocked_facts s' j false now') as Hb.
    destruct (applyLocked s' j false now') as [s'' ok']. destruct Hb as (_ & _ & Hb & _). specialize (Hb Hvj).
    rewrite Hkj, Ha in Hb. destruct Hb as [Hok' Hb]. unfold accepts in Hok'.
    cbn [written with_provenance recordFrom r_CreatedAt r_Inferred Bool.eqb] in Hok'.
    rewrite Hg, Hgj, Z.ltb_irrefl in Hok'. subst ok'. destruct Hb as (seen & Hb & ->). done.
Qed.
End Sweep.

(** The key's record, if any, was sighted after [L]. *)
Definition sighted_after (L : Z) (k : Key) (s : Store) : Prop :=
  forall r, s_records s !! k = Some r -> L < r_LastSeen r.

(** The key's record, if any, is of generation [g] at most. *)
Definition gen_at_most (g : Z) (k : Key) (s : Store) : Prop :=
  forall r, s_records s !! k = Some r -> r_CreatedAt r <= g.

Definition upto (g : Z) (k : Key) (ev : event) : Prop :=
  match ev with
  | EApply i | EInferred i | EInferredSince i _ => keyOf i = k -> in_CreatedAt i <= g
  | ERemove _ _ => True
  end.

Lemma invalid_same s i inferred now :
  bool_decide (in_ID i = "") || bool_decide (in_Origin i = "") = true -> applyLocked s i inferred now = (s, false).
Proof. unfold applyLocked. by intros ->. Qed.

(** What one event does to the two fields the sweep's precondition reads. *)
Lemma step_fields s ev now k r' :
  s_records (step s ev now).1 !! k = Some r' ->
  (exists r, s_records s !! k = Some r /\ r_CreatedAt r' = r_CreatedAt r /\
             (r_LastSeen r' = r_LastSeen r \/ r_LastSeen r' = t_mono now)) \/
  (exists i, keyOf i = k /\ r_CreatedAt r' = in_CreatedAt i /\
     (forall g, upto g k ev -> in_CreatedAt i <= g) /\
     (r_LastSeen r' = t_mono now \/ exists r, s_records s !! k = Some r /\ r_LastSeen r' = r_LastSeen r)).
Proof.
  assert (forall i inferred, (forall g, upto g k ev -> keyOf i = k -> in_CreatedAt i <= g) ->
    s_records (applyLocked s i inferred now).1 !! k = Some r' ->
    (exists r, s_records s !! k = Some r /\ r_CreatedAt r' = r_CreatedAt r /\
             (r_LastSeen r' = r_LastSeen r \/ r_LastSeen r' = t_mono now)) \/
    (exists i, keyOf i = k /\ r_CreatedAt r' = in_CreatedAt i /\
       (forall g, upto g k ev -> in_CreatedAt i <= g) /\
       (r_LastSeen r' = t_mono now \/ exists r, s_records s !! k = Some r /\ r_LastSeen r' = r_LastSeen r))) as Happly.
  { intros i inferred Hup Hr. destruct (bool_decide (in_ID i = "") || bool_decide (in_Origin i = "")) eqn:Ev.
    { rewrite invalid_same in Hr by done. left. eauto. }
    pose proof (applyLocked_facts s i inferred now) as Ha. destruct (applyLocked s i inferred now) as [s' ok].
    destruct Ha as (Hother & _ & Ha & _). cbn [fst] in Hr.
    destruct (decide (keyOf i = k)) as [Hk | Hk]; [| rewrite Hother in Hr by done; left; eauto].
    unbool. specialize (Ha (conj H H0)). rewrite Hk in *. destruct (s_records s !! k) as [cur|] eqn:Ec.
    - destruct Ha as [_ Ha]. destruct ok; destruct Ha as (seen & Ha & Hseen); rewrite Ha in Hr; injection Hr as <-.
      + right. exists i. split_and!; [done | done | auto |]. cbn. destruct inferred; eauto.
      + left. exists cur. split_and!; [done | done |]. cbn. destruct (negb inferred && _); auto.
    - destruct Ha as [_ Ha]. rewrite Ha in Hr. injection Hr as <-. right. exists i. split_and!; auto. }
  destruct ev as [i | i | i seenAt | o id]; cbn [step].
  - apply Happly. intros g Hg. apply Hg.
  - apply Happly. intros g Hg. apply Hg.
  - unfold ApplyInferredUnchangedSince. destruct (s_records s !! keyOf i) as [cur|]; [| intros ?; left; eauto].
    destruct (negb (r_LastSeen cur =? seenAt)); [intros ?; left; eauto |]. apply Happly. intros g Hg. apply Hg.
  - unfold Remove. cbn. intros [Hr _]%map_lookup_filter_Some. left. eauto.
Qed.

Lemma step_sighted L k s ev now : sighted_after L k s -> L < t_mono now -> sighted_after L k (step s ev now).1.
Proof.
  intros Hs Hn r' Hr'. apply step_fields in Hr' as
    [(r & Hr & _ & [-> | ->]) | (i & _ & _ & _ & [-> | (r & Hr & ->)])]; auto.
Qed.

Lemma step_gen g k s ev now : gen_at_most g k s -> upto g k ev -> gen_at_most g k (step s ev now).1.
Proof.
  intros Hs Hup r' Hr'. apply step_fields in Hr' as [(r & Hr & -> & _) | (i & _ & -> & Hi & _)]; auto.
Qed.

(** A heartbeat defeats the sweep.  Between selecting a silent record and failing
    it, let the origin assert anything about the record's generation or a newer one,
    among any other events: the guess based on the old sighting is refused and
    changes nothing, even if the record was retired and re-created in between. *)
Theorem sweep_yields_to_heartbeat (s : Store) (r : Store_Record) (evs evs' : list (event * reading))
    (j i : Incoming) (tj now : reading) :
  s_records s !! keyOf j = Some r -> valid j -> r_CreatedAt r <= in_CreatedAt j ->
  Forall (fun e => upto (in_CreatedAt j) (keyOf j) e.1) evs ->
  Forall (fun e => r_LastSeen r < t_mono e.2) (evs ++ (EApply j, tj) :: evs') ->
  keyOf i = keyOf j ->
  let s' := run s (evs ++ (EApply j, tj) :: evs') in
  ApplyInferredUnchangedSince s' i (r_LastSeen r) now = (s', false).
Proof.
  intros Hr Hv Hg Hup Ht Hki s'. set (L := r_LastSeen r) in *. set (k := keyOf j) in *.
  assert (gen_at_most (in_CreatedAt j) k (run s evs)) as Hgen.
  { clear s' Ht. induction evs as [|e evs IH] using rev_ind.
    - intros r0. cbn. intros ?. by assert (r0 = r) as -> by congruence.
    - apply Forall_app in Hup as [Hups Hup]. apply Forall_cons_1 in Hup as [Hup _].
      unfold run. rewrite foldl_snoc. apply step_gen; [by apply IH | done]. }
  apply Forall_app in Ht as [_ Ht]. apply Forall_cons_1 in Ht as [Htj Ht]. cbn [snd] in Htj.
  assert (sighted_after L k s') as Hs.
  { unfold s', run. rewrite foldl_app. cbn [foldl fst snd]. fold (run s evs). set (s1 := run s evs) in *.
    assert (sighted_after L k (step s1 (EApply j) tj).1) as Hj.
    { intros r' Hr'. cbn [step] in Hr'. unfold Apply in Hr'.
      pose proof (applyLocked_facts s1 j false tj) as Ha. destruct (applyLocked s1 j false tj) as [s2 ok].
      destruct Ha as (_ & _ & Ha & _). specialize (Ha Hv). fold k in Ha. cbn [fst] in Hr'.
      destruct (s_records s1 !! k) as [cur|] eqn:Ec.
      - specialize (Hgen cur Ec). destruct Ha as [_ Ha].
        destruct ok; destruct Ha as (seen & Ha & Hseen); rewrite Ha in Hr'; injection Hr' as <-; cbn.
        + by subst seen.
        + rewrite (proj2 (Z.leb_le _ _)) in Hseen by done. by subst seen.
      - destruct Ha as [_ Ha]. rewrite Ha in Hr'. by injection Hr' as <-. }
    clear Hgen Hup. revert Hj. generalize ((step s1 (EApply j) tj).1). intros s2. clearbody s1. revert s2.
    induction evs' as [|e evs' IH]; [done |]. intros s2 Hj. cbn [foldl]. apply Forall_cons_1 in Ht as [He Ht].
    apply IH; [done |]. by apply step_sighted. }
  unfold ApplyInferredUnchangedSince. rewrite Hki. destruct (s_records s' !! k) as [cur|] eqn:Ec; [| done].
  specialize (Hs cur Ec). by rewrite (proj2 (Z.eqb_neq _ _)) by lia.
Qed.

(** * Witnesses *)

Definition ex_event (state : string) (t : Z) : Incoming * reading :=
  (mkIncoming "a" "o" "1" "7" state 100 (if IsTerminal state then 190 else 0) "b"
     (JStr state), mkReading t t).
Definition ex_key : Key := mkKey "a" "o" "1" "7".
Definition ex_active : Store := run_authoritative New [ex_event "queued" 110; ex_event "running" 120].
Definition ex_finished : Store := run_authoritative ex_active [ex_event "completed" 200].
Definition ex_record (s : Store) : Store_Record :=
  default (recordFrom (ex_event "" 0).1 (mkReading 0 0)) (s_records s !! ex_key).

Lemma merge_converges_witness :
  let evs := [ex_event "queued" 110; ex_event "running" 120; ex_event "completed" 200] in
  let evs' := [ex_event "completed" 110; ex_event "running" 120; ex_event "queued" 130; ex_event "running" 140] in
  let view r := (r_CreatedAt r, rank (r_State r), r_Terminal r, r_Inferred r) in
  view <$> s_records (run_authoritative New evs) !! ex_key = Some (100, 3, true, false) /\
  view <$> s_records (run_authoritative New evs) !! ex_key = view <$> s_records (run_authoritative New evs') !! ex_key.
Proof.
  intros evs evs' view. split; [vm_compute; reflexivity |].
  assert (Forall (fun e : Incoming * reading => valid e.1) evs) as Hv by (repeat constructor; discriminate).
  destruct (merge_converges evs ex_key Hv) as [_ H].
  apply (H evs'). intros i. cbn. set_solver.
Defined.

Lemma terminal_sticks_witness :
  let evs := [(EApply (ex_event "running" 0).1, mkReading 300 300);
              (EInferred (ex_event "failed" 0).1, mkReading 310 310);
              (EInferredSince (ex_event "failed" 0).1 200, mkReading 320 320);
              (ERemove "c" "7", mkReading 330 330)] in
  exists r', s_records (run ex_finished evs) !! ex_key = Some r' /\
    r_Terminal r' = true /\ r_Inferred r' = false /\ r_CreatedAt r' = 100 /\ IsTerminal (r_State r') = true.
Proof.
  intros evs. apply (terminal_sticks ex_finished evs ex_key (ex_record ex_finished)).
  - vm_compute. reflexivity.
  - vm_compute. repeat split.
  - repeat constructor; vm_compute; discriminate.
Defined.

Lemma sweep_safe_witness :
  let _ := ascending_range in
  let s := ex_active in let r := ex_record s in let i := (ex_event "failed" 0).1 in
  StaleForeign s "b" 1000 (mkReading 5000 5000) = [r] /\
  exists k, s_records s !! k = Some r /\
    (ApplyInferredUnchangedSince s (mkIncoming (k_Origin k) (k_Engine k) (k_RunID k) (k_ID k) "failed" 100 190 "" JNull)
       (r_LastSeen r) (mkReading 5001 5001)).2 = true.
Proof.
  intros mr s r i. assert (StaleForeign s "b" 1000 (mkReading 5000 5000) = [r]) as Hst by (vm_compute; reflexivity).
  split; [exact Hst |].
  destruct (sweep_safe s "b" 1000 (mkReading 5000 5000) r ltac:(rewrite Hst; constructor))
    as (_ & _ & _ & _ & k & Hk & _ & Hap).
  assert (k = ex_key) as ->.
  { pose proof (run_level [ex_event "queued" 110; ex_event "running" 120] k ltac:(repeat constructor; discriminate)) as H.
    fold ex_active in H. fold s in H. rewrite Hk in H. destruct H as (_ & (e & He & Hek & _) & _).
    by apply elem_of_cons in He as [-> | ->%list_elem_of_singleton]. }
  exists ex_key. split; [exact Hk |].
  assert (valid i) as Hv by (split; discriminate).
  pose proof (Hap (mkIncoming "a" "o" "1" "7" "failed" 100 190 "" JNull) (mkReading 5001 5001) Hv eq_refl
                eq_refl eq_refl eq_refl) as H.
  destruct (ApplyInferredUnchangedSince s _ _ _) as [s' ok] eqn:E in H. destruct H as [-> _].
  cbn [ex_key k_Origin k_Engine k_RunID k_ID]. by rewrite E.
Defined.

Lemma sweep_yields_to_heartbeat_witness :
  let r := ex_record ex_active in let j := (ex_event "running" 0).1 in let i := (ex_event "failed" 0).1 in
  let s' := run ex_active ([] ++ (EApply j, mkReading 5000 5000) :: []) in
  ApplyInferredUnchangedSince s' i (r_LastSeen r) (mkReading 5001 5001) = (s', false).
Proof.
  intros r j i s'.
  apply (sweep_yields_to_heartbeat ex_active r [] [] j i (mkReading 5000 5000) (mkReading 5001 5001)).
  - vm_compute. reflexivity.
  - split; discriminate.
  - vm_compute. discriminate.
  - constructor.
  - repeat constructor.
  - reflexivity.
Defined.
