(* ===== verification/WorkloadHistory.v ===== *)
(** The broker's on-disk workload history
    (services/nvpair-ui-broker/workloadstore/persistence.go): loading with fallback
    over the rotations, the coalesced flush, the rotating checkpoint, and the age and
    count caps on terminal records. *)
From S2P Require Import Prelude.
From S2P Require Import Json.
From S2P Require Import WorkloadStore.

Open Scope string_scope.
Open Scope list_scope.
Open Scope Z_scope.

(** * Persistence (persistence.go) *)

Definition DefaultHistoryCap : Z := 10000.
Definition DefaultHistoryMaxAge : Z := 7 * 24 * 3600 * second.
Definition DefaultRotations : nat := 3.

Definition WithPersistence (s : Store) (path : string) : Store :=
  mkStore (s_records s) path DefaultRotations DefaultHistoryCap (DefaultHistoryMaxAge / millisecond)
    (s_dirty s).

(** The snapshot files: 0 is the primary, [i] is the rotation [path.i]; [None] is
    a file that does not parse. *)
Definition disk : Type := gmap nat (option (list Info)).

(** [os.Rename], errors ignored: a missing source changes nothing. *)
Definition rename (d : disk) (src dst : nat) : disk :=
  match d !! src with Some c => <[dst := c]> (delete src d) | None => d end.

(** [rotate]: drop the oldest, then shift [keep-1 .. 1], then the primary. *)
Fixpoint shift_up (d : disk) (i : nat) : disk :=
  match i with
  | O => d
  | S i' => shift_up (rename d i (S i)) i'
  end.

Definition rotate (d : disk) (keep : nat) : disk :=
  match keep with
  | O => d
  | S k => rename (shift_up (delete keep d) k) 0 1
  end.

(** [writeSnapshotFile]: the temporary file and its rename take effect together. *)
Definition writeSnapshotFile (d : disk) (infos : list Info) (io_ok : bool) : disk * bool :=
  if io_ok then (<[0%nat := Some infos]> d, true) else (d, false).

(** [readWithFallback] over primary and rotations: [inl] is the snapshot read,
    [inr b] an empty result with ([b]) or without an error. *)
Fixpoint read_candidates (d : disk) (cs : list nat) (sawFile : bool) : list Info + bool :=
  match cs with
  | [] => inr sawFile
  | c :: cs =>
      match d !! c with
      | Some (Some infos) => inl infos
      | Some None => read_candidates d cs true
      | None => read_candidates d cs sawFile
      end
  end.

Definition readWithFallback (d : disk) (rotations : nat) : list Info + bool :=
  read_candidates d (seq 0 (S rotations)) false.

Section Persist.
Context `{!MapRange}.

Definition historyInfosLocked (s : Store) : list Info :=
  r_Info <$> sort_by (fun a b => completionOrder a <? completionOrder b)
               (List.filter persistable (all_records s)).

(** [pruneLocked]: the age cap, then the count cap, on terminal records. *)
Definition expired (s : Store) (now : Z) (r : Store_Record) : bool :=
  r_Terminal r && (s_maxAgeMs s <? now - completionOrder r).

Definition pruneLocked (s : Store) (now : Z) : Store :=
  let m := if 0 <? s_maxAgeMs s
           then filter (fun '(_, r) => expired s now r = false) (s_records s) else s_records s in
  let m' :=
    if s_historyCap s <=? 0 then m
    else
      let term := List.filter (fun '(_, r) => r_Terminal r) (range m) in
      if Z.of_nat (length term) <=? s_historyCap s then m
      else
        let sorted := sort_by (fun a b => completionOrder a.2 <? completionOrder b.2) term in
        let drop_n := Z.to_nat (Z.of_nat (length term) - s_historyCap s) in
        foldl (fun m p => delete p.1 m) m (take drop_n sorted) in
  set_records s m' (s_dirty s).

Definition load_one (now : reading) (m : gmap Key Store_Record) (info : Info) : gmap Key Store_Record :=
  match ParseIncoming info with
  | None => m
  | Some i => let rec := recordFrom i now in
              if negb (r_Terminal rec) then m else <[keyOf i := rec]> m
  end.

Definition Load (s : Store) (d : disk) (now : reading) : Store * bool :=
  if bool_decide (s_path s = "") then (s, true)
  else
    let '(infos, ok) := match readWithFallback d (s_rotations s) with
                        | inl infos => (infos, true)
                        | inr sawFile => ([], negb sawFile)
                        end in
    let s1 := set_records s (foldl (load_one now) (s_records s) infos) (s_dirty s) in
    let s2 := pruneLocked s1 (t_unix now) in
    (set_records s2 (s_records s2) false, ok).

Definition Flush (s : Store) (d : disk) (now : reading) (io_ok : bool) : Store * disk * bool :=
  if bool_decide (s_path s = "") then (s, d, true)
  else if negb (s_dirty s) then (s, d, true)
  else
    let s1 := pruneLocked s (t_unix now) in
    let infos := historyInfosLocked s1 in
    let '(d', ok) := writeSnapshotFile d infos io_ok in
    (set_records s1 (s_records s1) (negb ok), d', ok).

Definition Checkpoint (s : Store) (d : disk) (now : reading) (io_ok : bool) : Store * disk * bool :=
  if bool_decide (s_path s = "") then (s, d, true)
  else
    let s1 := pruneLocked s (t_unix now) in
    let infos := historyInfosLocked s1 in
    let '(d', ok) := writeSnapshotFile (rotate d (s_rotations s)) infos io_ok in
    (set_records s1 (s_records s1) false, d', ok).
End Persist.


(** * Facts: the caps *)

Lemma foldl_delete_keys {A} (l : list (Key * A)) (m : gmap Key A) k :
  foldl (fun m p => delete p.1 m) m l !! k = if decide (k ∈ l.*1) then None else m !! k.
Proof.
  revert m. induction l as [|[k' a] l IH]; intros m; cbn [foldl].
  { rewrite decide_False; [done | apply not_elem_of_nil]. }
  rewrite IH, fmap_cons. cbn [fst]. destruct (decide (k ∈ l.*1)) as [H | H].
  - by rewrite decide_True by (by constructor).
  - destruct (decide (k = k')) as [-> | Hk].
    + by rewrite decide_True, lookup_delete_eq by constructor.
    + rewrite lookup_delete_ne by done. rewrite decide_False; [done |].
      by intros [? | ?]%list.elem_of_cons.
Qed.

Section PruneFacts.
Context `{!MapRange}.

Definition keep_unexpired (s : Store) (now : Z) : gmap Key Store_Record :=
  if 0 <? s_maxAgeMs s then filter (fun '(_, r) => expired s now r = false) (s_records s) else s_records s.

Lemma keep_unexpired_lookup s now k r :
  keep_unexpired s now !! k = Some r <->
  s_records s !! k = Some r /\ (0 < s_maxAgeMs s -> expired s now r = false).
Proof.
  unfold keep_unexpired. destruct (Z.ltb_spec 0 (s_maxAgeMs s)).
  - rewrite map_lookup_filter_Some. split; intros [? H']; auto.
  - split; [| by intros [? _]]. intros ?. split; [done | lia].
Qed.

Definition terminals (m : gmap Key Store_Record) : list (Key * Store_Record) :=
  List.filter (fun '(_, r) => r_Terminal r) (range m).

Lemma elem_of_terminals m k r : (k, r) ∈ terminals m <-> m !! k = Some r /\ r_Terminal r = true.
Proof. unfold terminals. by rewrite elem_of_bfilter, elem_of_range. Qed.

(** The entries the count cap drops: a prefix of the terminals, oldest first. *)
Definition by_completion (a b : Key * Store_Record) : bool := completionOrder a.2 <? completionOrder b.2.

#[export] Instance by_completion_weak : StrictWeak by_completion.
Proof. split; unfold by_completion; intros; unbool; lia || (apply Z.ltb_ge; lia). Qed.

Lemma prune_facts s now :
  let m := keep_unexpired s now in
  let drop_n := Z.to_nat (Z.of_nat (length (terminals m)) - s_historyCap s) in
  let gone := if 0 <? s_historyCap s then take drop_n (sort_by by_completion (terminals m)) else [] in
  forall k, s_records (pruneLocked s now) !! k = if decide (k ∈ gone.*1) then None else m !! k.
Proof.
  intros m drop_n gone k. unfold pruneLocked. cbn [s_records set_records].
  change (if 0 <? s_maxAgeMs s then filter (λ '(_, r), expired s now r = false) (s_records s) else s_records s)
    with m.
  fold (terminals m). fold drop_n. fold by_completion.
  destruct (Z.leb_spec (s_historyCap s) 0) as [Hc | Hc].
  { unfold gone. rewrite (proj2 (Z.ltb_ge _ _)) by done. rewrite decide_False; [done | apply not_elem_of_nil]. }
  destruct (Z.leb_spec (Z.of_nat (length (terminals m))) (s_historyCap s)).
  - assert (gone = []) as ->.
    { unfold gone. rewrite (proj2 (Z.ltb_lt _ _)) by done. assert (drop_n = 0%nat) as -> by lia. done. }
    rewrite decide_False; [done | apply not_elem_of_nil].
  - unfold gone. rewrite (proj2 (Z.ltb_lt _ _)) by done. apply foldl_delete_keys.
Qed.
End PruneFacts.

Section Caps.
Context `{!MapRange}.

(** With the count cap active, the terminals left are the newest ones. *)
Lemma prune_terminals s now :
  0 < s_historyCap s ->
  let T := sort_by by_completion (terminals (keep_unexpired s now)) in
  terminals (s_records (pruneLocked s now)) ≡ₚ
    drop (Z.to_nat (Z.of_nat (length (terminals (keep_unexpired s now))) - s_historyCap s)) T.
Proof.
  intros Hc T. set (n := Z.to_nat _).
  assert (T ≡ₚ terminals (keep_unexpired s now)) as HT by apply sort_by_perm.
  assert (NoDup T.*1) as HN.
  { rewrite HT. apply NoDup_fst_bfilter, NoDup_fst_range. }
  rewrite <- (take_drop n T), fmap_app in HN. apply NoDup_app in HN as (_ & Hdisj & Hd).
  apply NoDup_Permutation.
  - eapply NoDup_fmap_1, NoDup_fst_bfilter, NoDup_fst_range.
  - by eapply NoDup_fmap_1.
  - intros [k r]. rewrite elem_of_terminals, prune_facts. fold n T. rewrite (proj2 (Z.ltb_lt _ _) Hc).
    split.
    + intros [Hr Ht]. case_decide as Hk; [done |].
      assert ((k, r) ∈ T) as Hin by (by rewrite HT, elem_of_terminals).
      rewrite <- (take_drop n T) in Hin. apply elem_of_app in Hin as [Hin | Hin]; [| done].
      destruct Hk. by apply (list_elem_of_fmap_2 fst _ (k, r)).
    + intros Hin. assert ((k, r) ∈ T) as HinT.
      { rewrite <- (take_drop n T). apply elem_of_app. by right. }
      rewrite HT, elem_of_terminals in HinT. destruct HinT as [Hr Ht]. split; [| done].
      rewrite decide_False; [done |]. intros Hk. apply (Hdisj k Hk).
      by apply (list_elem_of_fmap_2 fst _ (k, r)).
Qed.

Lemma prune_count s now :
  0 < s_historyCap s -> Z.of_nat (length (terminals (s_records (pruneLocked s now)))) <= s_historyCap s.
Proof.
  intros Hc. rewrite (prune_terminals s now Hc), length_drop, length_sort_by. lia.
Qed.

(** The caps on history.  Pruning only removes terminal records: every active
    workload survives it.  It leaves no expired terminal and at most the cap, and a
    terminal it drops is expired, or the cap is exactly full of terminals that
    completed no earlier. *)
Theorem prune_caps (s : Store) (now : Z) :
  let s' := pruneLocked s now in
  (forall k r, s_records s' !! k = Some r ->
     s_records s !! k = Some r /\ (0 < s_maxAgeMs s -> expired s now r = false)) /\
  (forall k r, s_records s !! k = Some r -> r_Terminal r = false -> s_records s' !! k = Some r) /\
  (0 < s_historyCap s -> Z.of_nat (length (terminals (s_records s'))) <= s_historyCap s) /\
  (forall k r, s_records s !! k = Some r -> s_records s' !! k = None ->
     r_Terminal r = true /\
     (0 < s_maxAgeMs s /\ expired s now r = true \/
      Z.of_nat (length (terminals (s_records s'))) = s_historyCap s /\
      forall k' r', s_records s' !! k' = Some r' -> r_Terminal r' = true ->
        completionOrder r <= completionOrder r')).
Proof.
  intros s'. pose proof (prune_facts s now) as Hp. cbv zeta in Hp. fold s' in Hp.
  set (T := sort_by by_completion (terminals (keep_unexpired s now))) in *.
  set (n := Z.to_nat _) in Hp.
  assert (forall k r, (k, r) ∈ take n T -> keep_unexpired s now !! k = Some r /\ r_Terminal r = true) as Htake.
  { intros k r Hin. rewrite <- elem_of_terminals. unfold T in Hin.
    rewrite <- elem_of_sort_by. eapply elem_of_take in Hin as (? & ? & _). by eapply list_elem_of_lookup_2. }
  split_and!.
  - intros k r. rewrite Hp. case_decide; [done |]. apply keep_unexpired_lookup.
  - intros k r Hr Ht. rewrite Hp. rewrite decide_False.
    + apply keep_unexpired_lookup. split; [done |]. intros _. unfold expired. by rewrite Ht.
    + destruct (0 <? s_historyCap s); [| apply not_elem_of_nil].
      intros ([k' r'] & -> & Hin)%list_elem_of_fmap. apply Htake in Hin as [Hin Ht'].
      apply keep_unexpired_lookup in Hin as [Hin _]. cbn in Hr. congruence.
  - apply prune_count.
  - intros k r Hr. rewrite Hp. case_decide as Hk; intros Hnone.
    + destruct (Z.ltb_spec 0 (s_historyCap s)) as [Hc | Hc]; [| by apply elem_of_nil in Hk].
      apply list_elem_of_fmap in Hk as ([k' r'] & Ek & Hin). cbn in Ek. subst k'.
      destruct (Htake _ _ Hin) as [Hin' Ht']. apply keep_unexpired_lookup in Hin' as [Hin' _].
      assert (r' = r) as -> by congruence. split; [done |]. right.
      pose proof (prune_terminals s now Hc) as Hperm. fold s' T n in Hperm. split.
      * rewrite Hperm, length_drop. unfold T. rewrite length_sort_by.
        assert (0 < n)%nat; [| lia]. destruct n; [by apply elem_of_nil in Hin | lia].
      * intros k' r'' Hr'' Ht''. assert ((k', r'') ∈ drop n T) as Hd.
        { rewrite <- Hperm. by apply elem_of_terminals. }
        pose proof (sort_by_sorted by_completion (terminals (keep_unexpired s now))) as Hs. fold T in Hs.
        rewrite <- (take_drop n T) in Hs.
        pose proof (StronglySorted_app_1_elem_of _ _ _ _ _ Hs Hin Hd) as Hle. unfold not_after, by_completion in Hle.
        cbn in Hle. unbool. lia.
    + destruct (Z.ltb_spec 0 (s_maxAgeMs s)) as [Hm | Hm].
      * destruct (expired s now r) eqn:E.
        -- split; [unfold expired in E; by destruct (r_Terminal r) | by left].
        -- rewrite (proj2 (keep_unexpired_lookup s now k r)) in Hnone; done.
      * rewrite (proj2 (keep_unexpired_lookup s now k r)) in Hnone; [done | split; [done | lia]].
Qed.
End Caps.

(** * Facts: durability *)

Section Durability.
Context `{!MapRange}.

(** The store and its files, driven by lifecycle events, the flush timer (whose
    write may fail) and the rotation timer. *)
Inductive op : Type :=
| OEvent (ev : event)
| OFlush (io_ok : bool)
| OCheckpoint.

Definition step_op (sd : Store * disk) (o : op) (now : reading) : Store * disk :=
  match o with
  | OEvent ev => ((step sd.1 ev now).1, sd.2)
  | OFlush io_ok => (Flush sd.1 sd.2 now io_ok).1
  | OCheckpoint => (Checkpoint sd.1 sd.2 now true).1
  end.

Definition run_ops (sd : Store * disk) (ops : list (op * reading)) : Store * disk :=
  foldl (fun sd o => step_op sd o.1 o.2) sd ops.

(** Every upsert the broker applies is the parse of the payload it carries. *)
Definition from_wire (o : op) : Prop :=
  match o with
  | OEvent (EApply i | EInferred i | EInferredSince i _) => ParseIncoming (in_Info i) = Some i
  | _ => True
  end.

(** A record that reads back from its own [Info]. *)
Definition faithful (k : Key) (r : Store_Record) : Prop :=
  exists i, ParseIncoming (r_Info r) = Some i /\ keyOf i = k /\
    r = mkRecord (in_Origin i) (in_ID i) (in_State i) (in_CreatedAt i) (in_CompletedAt i) (in_ScheduledOn i)
          (IsTerminal (in_State i)) (r_Inferred r) (in_Info i) (r_LastUpdated r) (r_LastSeen r).

Definition all_faithful (s : Store) : Prop := forall k r, s_records s !! k = Some r -> faithful k r.

(** The durable part of a store: the payload of each authoritative terminal. *)
Definition durable (r : Store_Record) : option Info := if persistable r then Some (r_Info r) else None.
Definition hist (s : Store) : gmap Key Info := omap durable (s_records s).

Lemma hist_lookup s k : hist s !! k = s_records s !! k ≫= durable.
Proof. apply lookup_omap. Qed.

Lemma written_faithful i inferred now seen :
  ParseIncoming (in_Info i) = Some i -> faithful (keyOf i) (written i inferred now seen).
Proof. intros Hi. exists i. by split_and!. Qed.

Lemma reseen_faithful k r seen : faithful k r -> faithful k (with_provenance r (r_Inferred r) seen).
Proof. intros (i & Hp & Hk & Hr). exists i. split; [done |]. split; [done |]. rewrite Hr at 1. by destruct r. Qed.

Lemma putLocked_hist s k i inferred now :
  s_dirty (putLocked s k i inferred now) = false -> s_dirty s = false /\ hist (putLocked s k i inferred now) = hist s.
Proof.
  unfold putLocked, set_records. cbn [s_records set_records s_dirty]. intros Hd. apply orb_false_iff in Hd as [Hd Hp].
  apply orb_false_iff in Hd as [Hd Hr]. split; [done |]. apply map_eq. intros k'.
  rewrite !hist_lookup. cbn [s_records set_records]. destruct (decide (k = k')) as [<- | Hk]; [| by rewrite lookup_insert_ne].
  rewrite lookup_insert_eq. cbn [mbind option_bind]. unfold durable. rewrite Hr.
  destruct (s_records s !! k); cbn [mbind option_bind]; [by rewrite Hp | done].
Qed.

Lemma applyLocked_hist s i inferred now :
  s_dirty (applyLocked s i inferred now).1 = false ->
  s_dirty s = false /\ hist (applyLocked s i inferred now).1 = hist s.
Proof.
  unfold applyLocked. case_bool; [done |]. destruct (s_records s !! keyOf i) as [cur|] eqn:Ec.
  2: apply putLocked_hist.
  assert (forall b, hist (set_records s (<[keyOf i := with_provenance cur b (t_mono now)]> (s_records s)) (s_dirty s)) =
    hist s \/ b <> r_Inferred cur) as Hsee.
  { intros b. destruct (decide (b = r_Inferred cur)) as [-> | ?]; [left | by right]. apply map_eq. intros k.
    rewrite !hist_lookup. cbn [s_records set_records]. destruct (decide (keyOf i = k)) as [<- | ?]; [| by rewrite lookup_insert_ne].
    by rewrite lookup_insert_eq, Ec. }
  destruct (Hsee (r_Inferred cur)) as [Hs | ?]; [| done].
  destruct (negb inferred && (r_CreatedAt cur <=? in_CreatedAt i)).
  - set (s1 := set_records s _ _) in *. assert (s_dirty s1 = s_dirty s) as <- by done. rewrite <- Hs. clearbody s1.
    repeat case_bool; cbn; (apply putLocked_hist || done).
  - repeat case_bool; cbn; (apply putLocked_hist || done).
Qed.

Lemma applyLocked_faithful s i inferred now :
  ParseIncoming (in_Info i) = Some i -> all_faithful s -> all_faithful (applyLocked s i inferred now).1.
Proof.
  intros Hi Hs k r. pose proof (applyLocked_facts s i inferred now) as Ha.
  destruct (applyLocked s i inferred now) as [s' ok]. destruct Ha as (Hother & _ & Ha & _). cbn [fst].
  destruct (decide (k = keyOf i)) as [-> | Hk]; [| rewrite Hother by done; apply Hs].
  assert (valid i) as Hv.
  { unfold ParseIncoming in Hi. destruct (unmarshal_header (in_Info i)) as [h|]; [| done]. destruct (bool_decide (h_ID h = "") || _) eqn:E; [done |]. unbool.
    injection Hi as <-. by split. }
  specialize (Ha Hv). specialize (Hs (keyOf i)).
  destruct (s_records s !! keyOf i) as [cur|].
  - destruct Ha as [_ Ha]. destruct ok; destruct Ha as (seen & -> & _); intros [= <-].
    + by apply written_faithful.
    + by apply reseen_faithful, Hs.
  - destruct Ha as [_ ->]. intros [= <-]. by apply written_faithful.
Qed.

Lemma Remove_hist s o id :
  s_dirty (Remove s o id).1 = false -> s_dirty s = false /\ hist (Remove s o id).1 = hist s.
Proof.
  unfold Remove. cbn [fst]. cbn [s_records set_records s_dirty]. intros Hd. apply orb_false_iff in Hd as [Hd He].
  split; [done |]. apply map_eq. intros k. rewrite !hist_lookup. cbn.
  destruct (s_records s !! k) as [r|] eqn:Er.
  - destruct (matches_pair o id r) eqn:Em.
    + rewrite (proj2 (map_lookup_filter_None _ _ _)); [| right; intros ? [= <-]%(eq_trans (eq_sym Er)); congruence].
      cbn [mbind option_bind]. unfold durable. destruct (persistable r) eqn:Ep; [| done]. exfalso.
      rewrite <- not_true_iff_false, existsb_exists in He. apply He. exists r. split; [| done].
      rewrite <- list_elem_of_In, elem_of_bfilter. split; [| done].
      apply (list_elem_of_fmap_2 snd _ (k, r)). by apply elem_of_map_to_list.
    + by rewrite (proj2 (map_lookup_filter_Some _ _ _ _) (conj Er Em)).
  - rewrite (proj2 (map_lookup_filter_None _ _ _)); [done | by left].
Qed.

Lemma hist_list m :
  (map_to_list (omap durable m : gmap Key Info)).*2 ≡ₚ r_Info <$> List.filter persistable (map_to_list m).*2.
Proof.
  induction m as [|k r m Hk IH] using map_ind; [by rewrite omap_empty, !map_to_list_empty |].
  assert ((omap durable m : gmap Key Info) !! k = None) as Hk' by (by rewrite lookup_omap, Hk).
  rewrite (lfilter_perm _ (map_to_list (<[k := r]> m)).*2 (r :: (map_to_list m).*2))
    by (by rewrite map_to_list_insert).
  rewrite omap_insert. unfold durable at 1. cbn [List.filter]. destruct (persistable r).
  - rewrite map_to_list_insert by done. rewrite !fmap_cons. by rewrite IH.
  - by rewrite delete_id.
Qed.

Lemma historyInfos_hist s : historyInfosLocked s ≡ₚ (map_to_list (hist s)).*2.
Proof.
  unfold historyInfosLocked, all_records, hist. rewrite sort_by_perm, hist_list.
  by rewrite (lfilter_perm _ (range (s_records s)).*2 (map_to_list (s_records s)).*2) by (by rewrite range_perm).
Qed.

(** [Load] on a list of faithful payloads. *)
Definition readable (k : Key) (info : Info) : Prop :=
  exists i, ParseIncoming info = Some i /\ keyOf i = k /\ IsTerminal (in_State i) = true.

Definition restore (now : reading) (info : Info) : option Store_Record :=
  (fun i => recordFrom i now) <$> ParseIncoming info.

Lemma load_lookup now (l : list (Key * Info)) m k :
  NoDup l.*1 -> Forall (fun p => readable p.1 p.2) l ->
  (forall info, (k, info) ∈ l -> foldl (load_one now) m l.*2 !! k = restore now info) /\
  (k ∉ l.*1 -> foldl (load_one now) m l.*2 !! k = m !! k).
Proof.
  revert m. induction l as [|[k0 info0] l IH]; intros m Hnd Hall; [split; [by intros ? ?%not_elem_of_nil | done] |].
  rewrite fmap_cons, NoDup_cons in Hnd. destruct Hnd as [Hk0 Hnd]. apply Forall_cons_1 in Hall as [Hr Hall].
  rewrite !fmap_cons. cbn [foldl fst snd] in *. destruct (IH (load_one now m info0) Hnd Hall) as [IH1 IH2].
  destruct Hr as (i & Hp & Hk & Ht). assert (load_one now m info0 = <[k0 := recordFrom i now]> m) as Hl.
  { unfold load_one. rewrite Hp. cbn. by rewrite Ht, Hk. }
  split.
  - intros info [[= -> ->] | Hin]%elem_of_cons; [| by apply IH1].
    rewrite IH2, Hl, lookup_insert_eq by done. unfold restore. by rewrite Hp.
  - intros [Hne Hni]%not_elem_of_cons. by rewrite IH2, Hl, lookup_insert_ne by done.
Qed.

Lemma size_hist s : (size (hist s) <= length (terminals (s_records s)))%nat.
Proof.
  rewrite <- size_dom, <- (length_fmap fst (terminals _)).
  rewrite <- (size_list_to_set (C := gset Key)) by (apply NoDup_fst_bfilter, NoDup_fst_range).
  apply subseteq_size. intros k. rewrite elem_of_dom, hist_lookup, elem_of_list_to_set, list_elem_of_fmap.
  intros [info Hk]. destruct (s_records s !! k) as [r|] eqn:Er; [| done]. cbn in Hk.
  exists (k, r). split; [done |]. apply elem_of_terminals. split; [done |].
  unfold durable, persistable in Hk. by destruct (r_Terminal r).
Qed.

(** What the files hold for a clean store. *)
Definition reads (d : disk) (infos : list Info) : Prop :=
  d !! 0%nat = Some (Some infos) \/ d = ∅ /\ infos = [].

Definition configured (path : string) (s : Store) : Prop :=
  s_path s = path /\ s_rotations s = DefaultRotations /\ s_historyCap s = DefaultHistoryCap /\
  s_maxAgeMs s = DefaultHistoryMaxAge / millisecond.

Definition in_sync (path : string) (sd : Store * disk) : Prop :=
  configured path sd.1 /\ all_faithful sd.1 /\
  (s_dirty sd.1 = false ->
     Z.of_nat (size (hist sd.1)) <= DefaultHistoryCap /\
     exists infos, reads sd.2 infos /\ infos ≡ₚ (map_to_list (hist sd.1)).*2).

Lemma prune_faithful s now : all_faithful s -> all_faithful (pruneLocked s now).
Proof.
  intros Hs k r. rewrite prune_facts. case_decide; [done |]. rewrite keep_unexpired_lookup. intros [? _]. by apply Hs.
Qed.

(** A write of the pruned history brings the files in sync. *)
Lemma saved_in_sync path s d now :
  configured path s -> all_faithful s ->
  let s1 := pruneLocked s (t_unix now) in
  in_sync path (set_records s1 (s_records s1) false, <[0%nat := Some (historyInfosLocked s1)]> d).
Proof.
  intros Hc Hf s1. split; [done |]. split; [exact (prune_faithful s (t_unix now) Hf) |]. intros _. split.
  - change (hist _) with (hist s1). cbn [fst]. pose proof (size_hist s1) as Hs.
    destruct Hc as (_ & _ & Hcap & _). pose proof (prune_count s (t_unix now)) as Hp. rewrite Hcap in Hp.
    fold s1 in Hp. specialize (Hp ltac:(done)). lia.
  - eexists. split; [left; apply lookup_insert_eq |]. exact (historyInfos_hist s1).
Qed.

Lemma Flush_in_sync path s d now io_ok :
  path <> "" -> in_sync path (s, d) ->
  let '(s', d', ok) := Flush s d now io_ok in
  in_sync path (s', d') /\ (io_ok = true -> ok = true /\ s_dirty s' = false).
Proof.
  intros Hpath Hin. pose proof Hin as (Hc & Hf & _). pose proof Hc as (Hp & _). cbn [fst] in *. unfold Flush.
  rewrite Hp, bool_decide_false by done. destruct (s_dirty s) eqn:Ed; cbn [negb].
  2: by split.
  unfold writeSnapshotFile. destruct io_ok; cbn [negb].
  - split; [by apply saved_in_sync | done].
  - split; [| done]. split; [done |]. split; [exact (prune_faithful s (t_unix now) Hf) | done].
Qed.

Lemma event_in_sync path s d ev now :
  from_wire (OEvent ev) -> in_sync path (s, d) -> in_sync path ((step s ev now).1, d).
Proof.
  intros Hw (Hc & Hf & Hd). cbn [fst snd] in *.
  assert (configured path (step s ev now).1 /\ all_faithful (step s ev now).1 /\
    (s_dirty (step s ev now).1 = false -> s_dirty s = false /\ hist (step s ev now).1 = hist s)) as (Hc' & Hf' & Hd').
  2: { split; [done |]. split; [done |]. cbn [fst snd]. intros (Hs & ->)%Hd'. by apply Hd. }
  assert (forall i b, ParseIncoming (in_Info i) = Some i ->
    configured path (applyLocked s i b now).1 /\ all_faithful (applyLocked s i b now).1 /\
    (s_dirty (applyLocked s i b now).1 = false ->
       s_dirty s = false /\ hist (applyLocked s i b now).1 = hist s)) as Happly.
  { intros i b Hi. split_and!; [| by apply applyLocked_faithful | apply applyLocked_hist].
    pose proof (applyLocked_facts s i b now) as Ha. destruct (applyLocked s i b now) as [s' ok].
    destruct Ha as (_ & _ & _ & Hcfg & Hcfg2 & Hcfg3 & Hcfg4). unfold configured. cbn [fst].
    by rewrite Hcfg, Hcfg2, Hcfg3, Hcfg4. }
  destruct ev as [i | i | i seenAt | o id]; cbn [step from_wire] in *.
  - by apply Happly.
  - by apply Happly.
  - unfold ApplyInferredUnchangedSince. destruct (s_records s !! keyOf i) as [cur|]; [| done].
    destruct (negb (r_LastSeen cur =? seenAt)); [done |]. by apply Happly.
  - split; [done |]. split; [| apply Remove_hist]. intros k r. unfold Remove. cbn [fst s_records set_records].
    rewrite map_lookup_filter_Some. intros [? _]. by apply Hf.
Qed.

Lemma run_ops_in_sync path ops :
  path <> "" -> Forall (fun o => from_wire o.1) ops ->
  in_sync path (run_ops (WithPersistence New path, ∅) ops).
Proof.
  intros Hpath. induction ops as [|[o now] ops IH] using rev_ind; intros Hw.
  { split; [done |]. split; [intros k r; cbn; by rewrite lookup_empty |]. intros _.
    assert (hist (run_ops (WithPersistence New path, ∅) []).1 = ∅) as -> by apply omap_empty.
    split; [done |]. exists []. split; [by right |]. by rewrite map_to_list_empty. }
  apply Forall_app in Hw as [Hws Hw]. apply Forall_cons_1 in Hw as [Hw _]. specialize (IH Hws).
  unfold run_ops. rewrite foldl_snoc. fold (run_ops (WithPersistence New path, ∅) ops). cbn [fst snd] in *.
  destruct (run_ops (WithPersistence New path, ∅) ops) as [s d]. destruct o as [ev | io_ok |]; cbn [step_op fst snd].
  - by apply event_in_sync.
  - pose proof (Flush_in_sync path s d now io_ok Hpath IH) as Hf. destruct (Flush s d now io_ok) as [[s' d'] ok].
    by destruct Hf.
  - destruct IH as (Hc & Hf & _). cbn [fst] in *. unfold Checkpoint.
    rewrite bool_decide_false by (by destruct Hc as (-> & _)). by apply saved_in_sync.
Qed.

(** What [Load] makes of a record it reads back. *)
Definition reload (now : reading) (r : Store_Record) : Store_Record :=
  mkRecord (r_Origin r) (r_ID r) (r_State r) (r_CreatedAt r) (r_CompletedAt r) (r_ScheduledOn r)
    true false (r_Info r) (t_unix now) (t_mono now).

Lemma hist_readable s k info : all_faithful s -> hist s !! k = Some info -> readable k info.
Proof.
  intros Hf. rewrite hist_lookup, bind_Some. intros (r & Hr & Hd). unfold durable in Hd.
  destruct (persistable r) eqn:Ep; [| done]. injection Hd as <-. destruct (Hf k r Hr) as (i & Hp & Hk & Hri).
  exists i. split_and!; [done | done |]. unfold persistable in Ep. rewrite Hri in Ep. cbn in Ep.
  by destruct (IsTerminal (in_State i)).
Qed.

Lemma restore_reload now k r : faithful k r -> persistable r = true -> restore now (r_Info r) = Some (reload now r).
Proof.
  intros (i & Hp & _ & Hr) Hper. unfold restore. rewrite Hp. cbn. unfold recordFrom, reload, persistable in *.
  rewrite Hr in *. cbn in *. destruct (IsTerminal (in_State i)); done.
Qed.

(** The map [Load] builds from a clean store's files, before its own prune. *)
Lemma loaded_lookup s infos now k :
  all_faithful s -> infos ≡ₚ (map_to_list (hist s)).*2 ->
  foldl (load_one now) ∅ infos !! k = hist s !! k ≫= restore now.
Proof.
  intros Hf Hp. apply Permutation_map_inv in Hp as (l & -> & Hl).
  pose proof (load_lookup now l ∅ k) as H1.
  assert (NoDup l.*1) as Hnd by (rewrite <- Hl; apply NoDup_fst_map_to_list).
  assert (Forall (fun p => readable p.1 p.2) l) as Hall.
  { rewrite <- Hl. apply Forall_forall. intros [k' info] Hin%elem_of_map_to_list. by apply hist_readable with s. }
  destruct (H1 Hnd Hall) as [Hin Hout]. destruct (hist s !! k) as [info|] eqn:Ek; cbn [mbind option_bind].
  - apply Hin. rewrite <- Hl. by apply elem_of_map_to_list.
  - etrans; [apply Hout | apply lookup_empty]. rewrite <- Hl. intros ([k' info] & -> & Hin')%list_elem_of_fmap.
    apply elem_of_map_to_list in Hin'. cbn in Ek. congruence.
Qed.

Lemma length_terminals_le m n :
  (size m <= n)%nat -> (length (terminals m) <= n)%nat.
Proof.
  intros Hm. etrans; [| exact Hm]. rewrite <- length_range. unfold terminals.
  induction (range m) as [|[k r] l IH]; cbn; [lia |]. destruct (r_Terminal r); cbn; lia.
Qed.

Lemma Load_clean s d path now :
  path <> "" -> in_sync path (s, d) -> s_dirty s = false ->
  let '(s2, ok) := Load (WithPersistence New path) d now in
  ok = true /\ s_dirty s2 = false /\
  forall k, s_records s2 !! k =
    match s_records s !! k with
    | Some r => if persistable r && negb (expired s2 (t_unix now) (reload now r)) then Some (reload now r) else None
    | None => None
    end.
Proof.
  intros Hpath (_ & Hf & Hs) Hd. destruct (Hs Hd) as (Hsize & infos & Hreads & Hperm). clear Hs. cbn [fst snd] in *.
  assert (readWithFallback d DefaultRotations = inl infos \/
          readWithFallback d DefaultRotations = inr false /\ infos = []) as Hread.
  { destruct Hreads as [Hr | [-> ->]]; [left | by right]. unfold readWithFallback. cbn. by rewrite Hr. }
  unfold Load. cbn [WithPersistence s_path s_rotations]. rewrite bool_decide_false by done.
  set (s1 := set_records (WithPersistence New path) (foldl (load_one now) ∅ infos) false).
  assert (Hgoal : forall k, s_records (pruneLocked s1 (t_unix now)) !! k =
    match s_records s !! k with
    | Some r => if persistable r && negb (expired s1 (t_unix now) (reload now r)) then Some (reload now r) else None
    | None => None
    end).
  { intros k. rewrite prune_facts. match goal with |- context [decide (k ∈ ?g.*1)] => set (gone := g) end.
    assert (gone = []) as ->.
    { unfold gone. cbn [s_historyCap s1 set_records WithPersistence]. cbn [Z.ltb Z.compare DefaultHistoryCap].
      set (n := Z.to_nat _). assert (n = 0%nat) as ->; [| done]. unfold n.
      assert (length (terminals (keep_unexpired s1 (t_unix now))) <= size (hist s))%nat; [| lia].
      apply length_terminals_le. rewrite <- !size_dom. apply subseteq_size. intros k'. rewrite !elem_of_dom.
      intros [r Hr]. apply keep_unexpired_lookup in Hr as [Hr _]. cbn [s1 s_records set_records] in Hr.
      rewrite (loaded_lookup s) in Hr by done. apply bind_Some in Hr as (info & -> & _). done. }
    rewrite decide_False by apply not_elem_of_nil. apply option_eq. intros r'. rewrite keep_unexpired_lookup.
    cbn [s1 s_records set_records]. rewrite (loaded_lookup s) by done. rewrite hist_lookup.
    destruct (s_records s !! k) as [r|] eqn:Er; cbn [mbind option_bind]; [| naive_solver].
    unfold durable. destruct (persistable r) eqn:Ep; cbn [mbind option_bind andb]; [| naive_solver].
    rewrite (restore_reload now k) by auto. split.
    - intros [[= <-] He]. by rewrite He.
    - destruct (expired s1 (t_unix now) (reload now r)) eqn:He; [done |]. intros [= <-]. done. }
  destruct Hread as [-> | [-> ->]]; (split; [done |]; split; [done |]; exact Hgoal).
Qed.

(** C34. Durability.  Start from an empty directory, merge any sequence of lifecycle
    events with any flushes (writes may fail and are retried) and successful rotating
    checkpoints in between; then a flush whose write succeeds leaves the store clean,
    and a restart that loads the files recovers, key by key, exactly the authoritative
    terminal workloads with all their fields, less those that expired meanwhile - no
    active or inferred record, and nothing else. *)
Theorem history_survives_restart (path : string) (ops : list (op * reading)) (now now' : reading) :
  path <> "" -> Forall (fun o => from_wire o.1) ops ->
  let '(s, d) := run_ops (WithPersistence New path, ∅) ops in
  let '(s1, d1, ok) := Flush s d now true in
  let '(s2, ok2) := Load (WithPersistence New path) d1 now' in
  ok = true /\ ok2 = true /\ s_dirty s1 = false /\ s_dirty s2 = false /\
  forall k, s_records s2 !! k =
    match s_records s1 !! k with
    | Some r => if persistable r && negb (expired s2 (t_unix now') (reload now' r)) then Some (reload now' r) else None
    | None => None
    end.
Proof.
  intros Hpath Hw. pose proof (run_ops_in_sync path ops Hpath Hw) as Hin.
  destruct (run_ops (WithPersistence New path, ∅) ops) as [s d].
  pose proof (Flush_in_sync path s d now true Hpath Hin) as Hf. destruct (Flush s d now true) as [[s1 d1] ok].
  destruct Hf as [Hin1 Hok]. destruct (Hok eq_refl) as [-> Hd].
  pose proof (Load_clean s1 d1 path now' Hpath Hin1 Hd) as Hl.
  destruct (Load (WithPersistence New path) d1 now') as [s2 ok2]. by destruct Hl as (-> & ? & ?).
Qed.

(** A checkpoint whose write fails.  It has already moved the primary to its
    first rotation and declared the store clean, and unlike a failed flush it does
    not undo that: every later flush is a no-op until the history changes again, so
    the terminals accepted since the last write reach no file. *)
Theorem failed_checkpoint (s : Store) (d : disk) (now now' : reading) (io_ok : bool) :
  s_path s <> "" -> (0 < s_rotations s)%nat ->
  let '(s1, d1, ok) := Checkpoint s d now false in
  ok = false /\ s_dirty s1 = false /\ d1 !! 0%nat = None /\ Flush s1 d1 now' io_ok = (s1, d1, true).
Proof.
  intros Hp Hr. unfold Checkpoint. rewrite bool_decide_false by done. cbn [writeSnapshotFile].
  split; [done |]. split; [done |]. split.
  - unfold rotate. destruct (s_rotations s) as [|n]; [lia |]. unfold rename.
    destruct (shift_up (delete (S n) d) n !! 0%nat) eqn:E; [| done].
    etrans; [by apply lookup_insert_ne | apply lookup_delete_eq].
  - unfold Flush. cbn [s_path pruneLocked set_records s_dirty negb]. by rewrite bool_decide_false.
Qed.
End Durability.

(** * Witnesses *)

(** A payload as the proxies write it. *)
Definition ex_info (state : string) : Info :=
  JObj [("id", JStr "7"); ("engine", JStr "o"); ("runId", JStr "1"); ("state", JStr state); ("originatedFrom", JStr "a");
        ("scheduledOn", JStr "b"); ("createdAt", JInt 100); ("completedAt", if IsTerminal state then JInt 190 else JNull)].

Definition ex_in (state : string) : Incoming :=
  mkIncoming "a" "o" "1" "7" state 100 (if IsTerminal state then 190 else 0) "b" (ex_info state).

Definition ex_ops : list (op * reading) :=
  [(OEvent (EApply (ex_in "running")), mkReading 120 120); (OFlush true, mkReading 130 130);
   (OEvent (EApply (ex_in "completed")), mkReading 200 200); (OFlush false, mkReading 210 210);
   (OEvent (EInferred (ex_in "failed")), mkReading 220 220)].

Lemma history_survives_restart_witness :
  let _ := ascending_range in
  let '(s, d) := run_ops (WithPersistence New "/w", ∅) ex_ops in
  let '(s1, d1, ok) := Flush s d (mkReading 300 300) true in
  let '(s2, ok2) := Load (WithPersistence New "/w") d1 (mkReading 0 400) in
  s_dirty s = true /\ ok2 = true /\ map_to_list (s_records s2) =
    [(mkKey "a" "o" "1" "7", mkRecord "a" "7" "completed" 100 190 "b" true false (ex_info "completed") 400 0)] /\
  forall k, s_records s2 !! k =
    match s_records s1 !! k with
    | Some r => if persistable r && negb (expired s2 400 (reload (mkReading 0 400) r))
                then Some (reload (mkReading 0 400) r) else None
    | None => None
    end.
Proof.
  intros mr.
  pose proof (history_survives_restart "/w" ex_ops (mkReading 300 300) (mkReading 0 400)
                ltac:(discriminate) ltac:(repeat constructor)) as H.
  destruct (run_ops (WithPersistence New "/w", ∅) ex_ops) as [s d] eqn:E0.
  destruct (Flush s d (mkReading 300 300) true) as [[s1 d1] ok] eqn:E1.
  destruct (Load (WithPersistence New "/w") d1 (mkReading 0 400)) as [s2 ok2] eqn:E2.
  destruct H as (_ & -> & _ & _ & H). split_and!; [| done | | exact H].
  - vm_compute in E0. by injection E0 as <- <-.
  - vm_compute in E0. injection E0 as <- <-. vm_compute in E1. injection E1 as <- <- <-. vm_compute in E2.
    injection E2 as <-. vm_compute. reflexivity.
Defined.

(** The terminal accepted before the failed checkpoint is in no file the store
    reads back after its final flush. *)
Lemma failed_checkpoint_witness :
  let _ := ascending_range in
  let '(s, d) := run_ops (WithPersistence New "/w", ∅) [(OEvent (EApply (ex_in "completed")), mkReading 200 200)] in
  let '(s1, d1, ok) := Checkpoint s d (mkReading 300 300) false in
  s_dirty s = true /\ s_dirty s1 = false /\ d1 !! 0%nat = None /\
  Flush s1 d1 (mkReading 310 310) true = (s1, d1, true) /\
  s_records (Load (WithPersistence New "/w") d1 (mkReading 0 400)).1 = ∅.
Proof.
  intros mr.
  set (sd := run_ops (WithPersistence New "/w", ∅) [(OEvent (EApply (ex_in "completed")), mkReading 200 200)]).
  pose proof (failed_checkpoint sd.1 sd.2 (mkReading 300 300) (mkReading 310 310) true
                ltac:(vm_compute; discriminate) ltac:(vm_compute; lia)) as H.
  destruct sd as [s d] eqn:E0. cbn [fst snd] in H.
  destruct (Checkpoint s d (mkReading 300 300) false) as [[s1 d1] ok] eqn:E1.
  destruct H as (_ & H1 & H2 & H3). split_and!; try done.
  - vm_compute in E0. by injection E0 as <- <-.
  - vm_compute in E0. injection E0 as <- <-. vm_compute in E1. injection E1 as <- <- <-. vm_compute. reflexivity.
Defined.
