(* ===== verification/GoList.v ===== *)
(** Go's [container/list] as the LRU structures of the repository use it: a list of
    elements with identity, front first, paired with a map from keys to elements. *)
From S2P Require Import Prelude.

Open Scope list_scope.
Open Scope nat_scope.

(** An element pointer is a number; [next_elt] is the next one to allocate. *)
Record glist (A : Type) : Type := mkGlist { next_elt : nat; elems : list (nat * A) }.
Arguments mkGlist {A} _ _.
Arguments next_elt {A} _.
Arguments elems {A} _.

Section Glist.
Context {A : Type}.
Implicit Types (l : glist A).

Definition empty_list : glist A := mkGlist 0 [].

Definition Value l (e : nat) : option A := snd <$> List.find (fun p => Nat.eqb p.1 e) (elems l).

Definition others (e : nat) (xs : list (nat * A)) : list (nat * A) :=
  List.filter (fun p => negb (Nat.eqb p.1 e)) xs.

Definition PushFront l (a : A) : glist A * nat :=
  (mkGlist (S (next_elt l)) ((next_elt l, a) :: elems l), next_elt l).

Definition RemoveElt l (e : nat) : glist A := mkGlist (next_elt l) (others e (elems l)).

Definition MoveToFront l (e : nat) : glist A :=
  match Value l e with
  | Some a => mkGlist (next_elt l) ((e, a) :: others e (elems l))
  | None => l
  end.

Definition Back l : option nat := fst <$> last (elems l).

(** A store through the element's pointer. *)
Definition SetValue l (e : nat) (a : A) : glist A :=
  mkGlist (next_elt l) ((fun p => if Nat.eqb p.1 e then (e, a) else p) <$> elems l).

Definition ListLen l : nat := length (elems l).

(** Every element has its own identity, allocated before the next one. *)
Definition glist_ok l : Prop := NoDup (elems l).*1 /\ Forall (fun e => e < next_elt l) (elems l).*1.

Lemma others_elem e xs p : p ∈ others e xs <-> p ∈ xs /\ p.1 <> e.
Proof. unfold others. rewrite elem_of_bfilter, negb_true_iff, Nat.eqb_neq. done. Qed.

Lemma others_fresh e xs : e ∉ xs.*1 -> others e xs = xs.
Proof.
  induction xs as [|[e' a] xs IH]; [done |]. rewrite fmap_cons. intros [? ?]%not_elem_of_cons. cbn in *.
  rewrite (proj2 (Nat.eqb_neq _ _)) by done. f_equal. by apply IH.
Qed.

Lemma NoDup_others e xs : NoDup xs.*1 -> NoDup (others e xs).*1.
Proof.
  induction xs as [|[e' a] xs IH]; [done |]. rewrite fmap_cons, NoDup_cons. cbn. intros [Hn Hx].
  destruct (e' =? e); cbn; [by apply IH |]. rewrite NoDup_cons. split; [| by apply IH].
  rewrite list_elem_of_fmap. intros ([x b] & -> & [Hin _]%others_elem). apply Hn.
  by apply (list_elem_of_fmap_2 fst _ (x, b)).
Qed.

(** Around one element of a well-formed list. *)
Lemma others_split e a xs1 xs2 :
  NoDup (xs1 ++ (e, a) :: xs2).*1 -> others e (xs1 ++ (e, a) :: xs2) = xs1 ++ xs2.
Proof.
  intros Hn. rewrite fmap_app, fmap_cons in Hn. apply NoDup_app in Hn as (_ & Hd & Hn).
  cbn in *. apply NoDup_cons in Hn as [Hn _]. unfold others. rewrite List.filter_app. cbn.
  rewrite Nat.eqb_refl. cbn. fold (others e xs1) (others e xs2). rewrite !others_fresh; [done | done |].
  intros Hin. apply (Hd e Hin). constructor.
Qed.

Lemma Value_elem l e a : glist_ok l -> Value l e = Some a <-> (e, a) ∈ elems l.
Proof.
  intros [Hn _]. unfold Value. induction (elems l) as [|[e' a'] xs IH]; cbn.
  { split; [done | by intros ?%not_elem_of_nil]. }
  rewrite fmap_cons, NoDup_cons in Hn. destruct Hn as [Hn Hx]. cbn in *. destruct (Nat.eqb_spec e' e) as [-> | Hne].
  - cbn. rewrite elem_of_cons. split; [intros [= ->]; by left |]. intros [[= ->] | Hin]; [done |].
    destruct Hn. by apply (list_elem_of_fmap_2 fst _ (e, a)).
  - rewrite IH by done. rewrite elem_of_cons. split; [by right |]. intros [[= -> ->] | ?]; done.
Qed.

Lemma RemoveElt_ok l e : glist_ok l -> glist_ok (RemoveElt l e).
Proof.
  intros [Hn Hb]. split; [by apply NoDup_others |]. rewrite Forall_forall in *. cbn.
  intros x ([x' a] & -> & [Hin _]%others_elem)%list_elem_of_fmap. apply Hb.
  by apply (list_elem_of_fmap_2 fst _ (x', a)).
Qed.

Lemma MoveToFront_ok l e : glist_ok l -> glist_ok (MoveToFront l e).
Proof.
  intros Hl. pose proof (RemoveElt_ok l e Hl) as [Hn Hb]. unfold MoveToFront.
  destruct (Value l e) as [a|] eqn:Ev; [| done]. apply Value_elem in Ev; [| done]. split; cbn in *.
  - constructor; [| done]. rewrite list_elem_of_fmap. by intros ([x b] & -> & [_ ?]%others_elem).
  - constructor; [| done]. destruct Hl as [_ Hl]. rewrite Forall_forall in Hl. apply Hl.
    by apply (list_elem_of_fmap_2 fst _ (e, a)).
Qed.

Lemma PushFront_ok l a : glist_ok l -> glist_ok (PushFront l a).1.
Proof.
  intros [Hn Hb]. split; cbn.
  - constructor; [| done]. intros Hin. rewrite Forall_forall in Hb. specialize (Hb _ Hin). lia.
  - constructor; [lia |]. eapply Forall_impl; [exact Hb |]. cbn. lia.
Qed.

Lemma SetValue_keys l e a : (elems (SetValue l e a)).*1 = (elems l).*1.
Proof.
  unfold SetValue. cbn. rewrite <- list_fmap_compose. apply list_fmap_ext. intros i [e' b] _. cbn.
  destruct (Nat.eqb_spec e' e) as [-> |]; done.
Qed.

Lemma SetValue_ok l e a : glist_ok l -> glist_ok (SetValue l e a).
Proof. unfold glist_ok. by rewrite SetValue_keys. Qed.
End Glist.

#[export] Hint Resolve RemoveElt_ok MoveToFront_ok PushFront_ok SetValue_ok : pair.

Lemma bfilter_all {A} (f : A -> bool) (l : list A) : Forall (fun x => f x = true) l -> List.filter f l = l.
Proof. induction 1 as [|x l Hx _ IH]; cbn; [done |]. by rewrite Hx, IH. Qed.

Lemma length_bfilter {A} (f : A -> bool) (l : list A) : length (List.filter f l) <= length l.
Proof. induction l as [|a l IH]; cbn; [lia |]. destruct (f a); cbn; lia. Qed.

(** * A map from keys to the elements of a list *)

Section Keyed.
Context {A K : Type} `{Countable K} (key : A -> K).
Implicit Types (m : gmap K nat) (l : glist A).

(** The map and the list hold the same elements, one per key. *)
Definition linked m l : Prop :=
  glist_ok l /\ forall k e, m !! k = Some e <-> exists v, (e, v) ∈ elems l /\ key v = k.

Definition values l : list A := (elems l).*2.
Definition other_key (k : K) (v : A) : bool := negb (bool_decide (key v = k)).
Definition with_key (k : K) (v : A) : bool := bool_decide (key v = k).

Lemma element_key m l e v k : linked m l -> m !! k = Some e -> (e, v) ∈ elems l -> key v = k.
Proof.
  intros [Hg Hl] Hk Hin. apply Hl in Hk as (v' & Hin' & <-).
  apply (Value_elem _ _ _ Hg) in Hin, Hin'. congruence.
Qed.

(** An element is the one a key maps to exactly when it carries that key. *)
Lemma element_unique m l e k :
  linked m l -> m !! k = Some e -> forall e' v, (e', v) ∈ elems l -> e' = e <-> key v = k.
Proof.
  intros Hl Hk e' v Hin. split.
  - intros ->. by eapply element_key.
  - intros Hv. destruct Hl as [_ Hl]. assert (m !! k = Some e') by (apply Hl; eauto). congruence.
Qed.

Lemma entries_Value m l k e :
  linked m l -> m !! k = Some e -> exists v, Value l e = Some v /\ (e, v) ∈ elems l /\ key v = k.
Proof. intros [Hg Hl] Hk. apply Hl in Hk as (v & Hin & Hv). exists v. by rewrite Value_elem. Qed.

Lemma others_values e k (xs : list (nat * A)) :
  (forall e' v, (e', v) ∈ xs -> e' = e <-> key v = k) -> (others e xs).*2 = List.filter (other_key k) xs.*2.
Proof.
  induction xs as [|[e' v] xs IH]; [done |]. intros Hk. rewrite fmap_cons. cbn [others List.filter fst snd].
  unfold other_key at 1. specialize (IH ltac:(intros; apply Hk; by right)).
  pose proof (Hk e' v ltac:(constructor)) as Hv. destruct (Nat.eqb_spec e' e) as [He | He]; cbn [negb].
  - rewrite bool_decide_true by tauto. cbn [negb]. exact IH.
  - rewrite bool_decide_false by tauto. cbn [negb]. rewrite fmap_cons. cbn [snd]. by f_equal.
Qed.

Lemma find_values m l k e v :
  linked m l -> m !! k = Some e -> (e, v) ∈ elems l -> List.find (with_key k) (values l) = Some v.
Proof.
  intros Hl Hm Hin. pose proof (element_unique m l e k Hl Hm) as Hu. destruct Hl as [[Hn _] _].
  unfold values. induction (elems l) as [|[e' v'] xs IH]; [by apply not_elem_of_nil in Hin |].
  rewrite !fmap_cons in *. cbn [fst snd List.find] in *. apply NoDup_cons in Hn as [Hn Hx].
  pose proof (Hu e' v' ltac:(constructor)) as Hv. unfold with_key at 1. destruct (decide (e' = e)) as [-> | Hne].
  - rewrite bool_decide_true by tauto. apply elem_of_cons in Hin as [[= <-] | Hin]; [done |].
    destruct Hn. by apply (list_elem_of_fmap_2 fst _ (e, v)).
  - rewrite bool_decide_false by tauto. apply IH; [done | | intros; apply Hu; by right].
    apply elem_of_cons in Hin as [[= -> ->] | Hin]; done.
Qed.

Lemma find_values_none m l k : linked m l -> m !! k = None -> List.find (with_key k) (values l) = None.
Proof.
  intros [_ Hl] Hk. destruct (List.find (with_key k) (values l)) as [v|] eqn:Ef; [| done].
  apply find_some in Ef as [Hin Hv]. unfold with_key in Hv. unbool. rewrite <- list_elem_of_In in Hin.
  apply list_elem_of_fmap in Hin as ([e v'] & -> & Hin). cbn in Hv.
  assert (m !! k = Some e) by (apply Hl; eauto). congruence.
Qed.

Lemma find_filter_lt k v s :
  List.find (with_key k) s = Some v -> length (List.filter (other_key k) s) < length s.
Proof.
  induction s as [|a s IH]; [done |]. cbn. unfold with_key at 1, other_key at 1.
  destruct (bool_decide (key a = k)); cbn.
  - intros _. pose proof (length_bfilter (other_key k) s). lia.
  - intros Hf. specialize (IH Hf). lia.
Qed.

Lemma filter_other_absent k s : List.find (with_key k) s = None -> List.filter (other_key k) s = s.
Proof.
  intros Hf. apply bfilter_all, Forall_forall. intros x Hx. rewrite list_elem_of_In in Hx.
  pose proof (find_none _ _ Hf x Hx) as Hw. unfold with_key, other_key in *. by rewrite Hw.
Qed.

Lemma linked_empty : linked ∅ empty_list.
Proof.
  split; [split; constructor |]. intros k e. rewrite lookup_empty. split; [done |].
  by intros (v & ?%not_elem_of_nil & _).
Qed.

(** Removing the element of a key. *)
Lemma linked_remove m l e v :
  linked m l -> Value l e = Some v ->
  linked (delete (key v) m) (RemoveElt l e) /\ m !! key v = Some e /\
  values (RemoveElt l e) = List.filter (other_key (key v)) (values l).
Proof.
  intros Hl Ev. pose proof Hl as [Hg Hm]. apply Value_elem in Ev; [| done].
  assert (m !! key v = Some e) as Hke by (apply Hm; eauto).
  split; [| split; [done |]].
  2: { unfold values. cbn. apply others_values. by eapply element_unique. }
  split; [auto with pair |]. intros k e'. cbn. setoid_rewrite others_elem. rewrite lookup_delete_Some, Hm. split.
  - intros (Hk & v' & Hin & Hv'). exists v'. split; [split; [done |] | done]. cbn. intros ->.
    pose proof (element_key m l e v' _ Hl Hke Hin). congruence.
  - intros (v' & [Hin Hne] & Hv'). cbn in Hne. split; [| eauto]. intros Hk. apply Hne.
    eapply (element_unique m l e (key v) Hl Hke e' v' Hin). congruence.
Qed.

(** Writing through the element of a key and moving it to the front. *)
Definition touched l (e : nat) (v : A) : glist A := mkGlist (next_elt l) ((e, v) :: others e (elems l)).

Lemma touch_SetValue m l k e v :
  linked m l -> m !! k = Some e -> MoveToFront (SetValue l e v) e = touched l e v.
Proof.
  intros Hl Hk. destruct (entries_Value m l k e Hl Hk) as (v0 & _ & Hin & _). destruct Hl as [Hg _]. unfold MoveToFront.
  assert (Value (SetValue l e v) e = Some v) as ->.
  { apply Value_elem; [auto with pair |]. unfold SetValue. cbn. apply list_elem_of_fmap. exists (e, v0).
    cbn. by rewrite Nat.eqb_refl. }
  unfold touched. cbn. do 2 f_equal. unfold others. clear. induction (elems l) as [|[e' a] xs IH]; [done |]. cbn.
  destruct (Nat.eqb_spec e' e) as [-> | Hne]; cbn.
  - by rewrite Nat.eqb_refl.
  - rewrite (proj2 (Nat.eqb_neq _ _)) by done. cbn. by rewrite IH.
Qed.

Lemma touch_move m l k e v :
  linked m l -> m !! k = Some e -> (e, v) ∈ elems l -> MoveToFront l e = touched l e v.
Proof. intros [Hg _] _ Hin. unfold MoveToFront. by rewrite (proj2 (Value_elem l e v Hg) Hin). Qed.

Lemma linked_touch m l k e v :
  linked m l -> m !! k = Some e -> key v = k ->
  linked m (touched l e v) /\ values (touched l e v) = v :: List.filter (other_key k) (values l).
Proof.
  intros Hl Hk Hv. destruct (entries_Value m l k e Hl Hk) as (v0 & Hv0 & Hin & Hkv0). split.
  - pose proof Hl as [Hg Hm]. split.
    { pose proof (MoveToFront_ok l e Hg) as Hg'. unfold MoveToFront in Hg'. rewrite Hv0 in Hg'. exact Hg'. }
    intros k' e'. rewrite Hm. cbn. setoid_rewrite elem_of_cons. setoid_rewrite others_elem. split.
    + intros (v' & Hin' & Hk'). destruct (decide (e' = e)) as [-> | Hne].
      * exists v. split; [by left |]. rewrite Hv. symmetry. rewrite <- Hk'. by eapply element_key.
      * exists v'. split; [right; split; done | done].
    + intros (v' & [[= -> ->] | [Hin' _]] & Hk'); [| eauto]. exists v0. split; [done | congruence].
  - unfold values, touched. cbn. f_equal. apply others_values. by eapply element_unique.
Qed.

(** Writing through the element of a key in place. *)
Lemma linked_set m l k e v :
  linked m l -> m !! k = Some e -> key v = k ->
  linked m (SetValue l e v) /\
  values (SetValue l e v) = (fun x => if bool_decide (key x = k) then v else x) <$> values l.
Proof.
  intros Hl Hk Hv. pose proof (element_unique m l e k Hl Hk) as Hu. destruct (entries_Value m l k e Hl Hk) as (v0 & _ & Hin & Hv0).
  destruct Hl as [Hg Hm]. split.
  - split; [auto with pair |]. intros k' e'. rewrite Hm. cbn. setoid_rewrite list_elem_of_fmap. split.
    + intros (v' & Hin' & Hk'). destruct (decide (e' = e)) as [-> | Hne].
      * exists v. split; [| rewrite Hv; symmetry; rewrite <- Hk'; by apply (Hu e v')].
        exists (e, v0). cbn. by rewrite Nat.eqb_refl.
      * exists v'. split; [| done]. exists (e', v'). cbn. by rewrite (proj2 (Nat.eqb_neq _ _)).
    + intros (v' & ([e2 v2] & Heq & Hin') & Hk'). cbn in Heq. destruct (Nat.eqb_spec e2 e) as [-> | Hne].
      * injection Heq as -> ->. exists v0. split; [done | congruence].
      * injection Heq as -> ->. eauto.
  - unfold values, SetValue. cbn. rewrite <- !list_fmap_compose. apply list_fmap_ext. intros j [e' v'] Hj. cbn.
    apply list_elem_of_lookup_2 in Hj. specialize (Hu e' v' Hj).
    destruct (Nat.eqb_spec e' e) as [He | He]; [by rewrite bool_decide_true by tauto |].
    by rewrite bool_decide_false by tauto.
Qed.

(** Inserting a key the map does not hold. *)
Lemma linked_push m l k v :
  linked m l -> m !! k = None -> key v = k -> linked (<[k := (PushFront l v).2]> m) (PushFront l v).1.
Proof.
  intros [Hg Hl] Hk Hv. split; [exact (PushFront_ok _ v Hg) |]. unfold PushFront. cbn. intros k' e.
  set (n := next_elt l).
  assert (forall v', (n, v') ∉ elems l) as Hfresh.
  { intros v' Hin. destruct Hg as [_ Hb]. rewrite Forall_forall in Hb.
    assert (n < next_elt l); [| subst n; lia]. apply Hb. by apply (list_elem_of_fmap_2 fst _ (n, v')). }
  rewrite lookup_insert_Some, Hl. setoid_rewrite elem_of_cons. split.
  - intros [[<- <-] | (Hne & v' & Hin & Hv')]; [exists v; auto | exists v'; auto].
  - intros (v' & [[= -> ->] | Hin] & Hv'); [left; split; congruence |]. right. split; [| eauto].
    intros Hkk. assert (m !! k' = Some e) by (apply Hl; eauto). congruence.
Qed.

Lemma keys_NoDup m l : linked m l -> NoDup (key <$> values l).
Proof.
  intros Hl. unfold values. rewrite <- list_fmap_compose.
  apply (NoDup_fmap_on fst); [apply Hl |]. intros [e v] [e' v'] Hin Hin' Hk. cbn in *.
  destruct Hl as [_ Hl]. assert (m !! key v = Some e) as H1 by (apply Hl; eauto).
  assert (m !! key v = Some e') as H2 by (apply Hl; eauto). congruence.
Qed.

Lemma entries_dom m l k : linked m l -> is_Some (m !! k) <-> k ∈ key <$> values l.
Proof.
  intros [_ Hl]. unfold values. rewrite <- list_fmap_compose, list_elem_of_fmap. split.
  - intros [e (v & Hin & <-)%Hl]. by exists (e, v).
  - intros ([e v] & -> & Hin). exists e. apply Hl. by exists v.
Qed.

Lemma entries_size m l : linked m l -> size m = length (values l).
Proof.
  intros Hl. rewrite <- size_dom, <- (length_fmap key). rewrite <- (size_list_to_set (C := gset K)).
  - f_equal. apply set_eq. intros k. by rewrite elem_of_dom, (entries_dom m l), elem_of_list_to_set.
  - by eapply keys_NoDup.
Qed.

(** The back of the list is its last value; removing it leaves the others. *)
Lemma back_value m l xs v :
  linked m l -> values l = xs ++ [v] ->
  exists e, Back l = Some e /\ Value l e = Some v /\ values (RemoveElt l e) = xs.
Proof.
  intros Hl Hr. unfold values in Hr. apply fmap_app_inv in Hr as (exs & es & -> & Hes & He).
  destruct es as [|[e v0] [|]]; try done. cbn in Hes. injection Hes as Ev. subst v0.
  assert ((e, v) ∈ elems l) as Hin by (rewrite He; set_solver).
  assert (Value l e = Some v) as Hv by (by apply Value_elem; [apply Hl |]).
  exists e. unfold Back. rewrite He, last_snoc. split_and!; [done | done |].
  unfold values. cbn. rewrite He, others_split; [by rewrite app_nil_r |]. rewrite <- He. apply Hl.
Qed.
End Keyed.
