(* ===== verification/PrefixTable.v ===== *)
(** The prefix routing table (services/shared/prefixhash/table.go): an LRU map with an
    idle lifetime that remembers which node served a prompt prefix, as the linked list
    and element map the code keeps. *)
From S2P Require Import Prelude.
From S2P Require Import GoList.

Open Scope string_scope.
Open Scope list_scope.
Open Scope Z_scope.

(** * Data *)

(** SHA-256 digests: 32 bytes, [Digest{}] is all zeroes. *)
Definition Digest : Type := list Byte.byte.
Definition zero_digest : Digest := repeat Byte.x00 32.

#[export] Instance Byte_eq_dec : EqDecision Byte.byte.
Proof. intros x y. destruct (Byte.byte_eq_dec x y); [by left | by right]. Defined.

#[export] Instance Byte_countable : Countable Byte.byte.
Proof.
  refine (inj_countable Byte.to_N Byte.of_N _). intros b. apply Byte.of_to_N.
Defined.

Record RouteRecord : Type := mkRoute { rt_NodeID : string; rt_Engine : string; rt_LastUsedAt : Z }.

Definition used_at (r : RouteRecord) (now : Z) : RouteRecord := mkRoute (rt_NodeID r) (rt_Engine r) now.

Record routeKey : Type := mkRouteKey { rk_model : string; rk_digest : Digest }.

#[export] Instance routeKey_eq_dec : EqDecision routeKey.
Proof. solve_decision. Defined.

#[export] Instance routeKey_countable : Countable routeKey.
Proof.
  refine (inj_countable' (fun k => (rk_model k, rk_digest k)) (fun '(m, d) => mkRouteKey m d) _).
  by intros [].
Defined.

Record entry : Type := mkEntry { e_key : routeKey; e_record : RouteRecord }.

Record PrefixRoutingTable : Type := mkTable {
  pt_entries : gmap routeKey nat;
  pt_recent : glist entry;
  pt_capacity : Z;
  pt_ttl : Z
}.

(** * Operations *)

Definition NewPrefixRoutingTable (capacity ttl : Z) : PrefixRoutingTable :=
  mkTable ∅ empty_list (if capacity <=? 0 then 10000 else capacity) (if ttl <=? 0 then 5 * 60 * second else ttl).

Definition with_lists (t : PrefixRoutingTable) (m : gmap routeKey nat) (l : glist entry) : PrefixRoutingTable :=
  mkTable m l (pt_capacity t) (pt_ttl t).

Definition remove (t : PrefixRoutingTable) (element : nat) : PrefixRoutingTable :=
  match Value (pt_recent t) element with
  | None => t
  | Some v => with_lists t (delete (e_key v) (pt_entries t)) (RemoveElt (pt_recent t) element)
  end.

Definition Lookup (t : PrefixRoutingTable) (model : string) (digest : Digest) (now : Z)
    : PrefixRoutingTable * option RouteRecord :=
  match pt_entries t !! mkRouteKey model digest with
  | None => (t, None)
  | Some element =>
      match Value (pt_recent t) element with
      | None => (t, None)
      | Some value =>
          if pt_ttl t <=? time_sub now (rt_LastUsedAt (e_record value)) then (remove t element, None)
          else
            let rec := used_at (e_record value) now in
            (with_lists t (pt_entries t)
               (MoveToFront (SetValue (pt_recent t) element (mkEntry (e_key value) rec)) element), Some rec)
      end
  end.

(** The expiry loop of [Put]; the number of elements is enough fuel. *)
Fixpoint expire (fuel : nat) (t : PrefixRoutingTable) (now : Z) : PrefixRoutingTable :=
  match fuel with
  | O => t
  | S fuel =>
      match Back (pt_recent t) with
      | None => t
      | Some oldest =>
          match Value (pt_recent t) oldest with
          | None => t
          | Some v =>
              if time_sub now (rt_LastUsedAt (e_record v)) <? pt_ttl t then t
              else expire fuel (remove t oldest) now
          end
      end
  end.

Definition Put (t : PrefixRoutingTable) (model : string) (digest : Digest) (record : RouteRecord) (now : Z)
    : PrefixRoutingTable :=
  if bool_decide (model = "") || bool_decide (digest = zero_digest) || bool_decide (rt_NodeID record = "") then t
  else
    let t := expire (ListLen (pt_recent t)) t now in
    let record := used_at record now in
    let key := mkRouteKey model digest in
    match pt_entries t !! key with
    | Some element =>
        with_lists t (pt_entries t) (MoveToFront (SetValue (pt_recent t) element (mkEntry key record)) element)
    | None =>
        let t := if pt_capacity t <=? Z.of_nat (size (pt_entries t))
                 then match Back (pt_recent t) with Some oldest => remove t oldest | None => t end
                 else t in
        let '(l, e) := PushFront (pt_recent t) (mkEntry key record) in
        with_lists t (<[key := e]> (pt_entries t)) l
    end.

(** * Reference: a recency list *)

(** What the table promises: the entries, most recently used first. *)
Definition recency (t : PrefixRoutingTable) : list entry := values (pt_recent t).

Definition fresh (ttl now : Z) (e : entry) : bool := time_sub now (rt_LastUsedAt (e_record e)) <? ttl.

Definition spec_lookup (ttl : Z) (s : list entry) (k : routeKey) (now : Z) : list entry * option RouteRecord :=
  match List.find (with_key e_key k) s with
  | None => (s, None)
  | Some e =>
      let rest := List.filter (other_key e_key k) s in
      if fresh ttl now e then (mkEntry k (used_at (e_record e) now) :: rest, Some (used_at (e_record e) now))
      else (rest, None)
  end.

Definition spec_put (cap ttl : Z) (s : list entry) (k : routeKey) (r : RouteRecord) (now : Z) : list entry :=
  let live := List.filter (fresh ttl now) s in
  let others := List.filter (other_key e_key k) live in
  mkEntry k (used_at r now) ::
    (if existsb (with_key e_key k) live then others else take (Z.to_nat (cap - 1)) others).

(** * Facts: the list and the map agree *)

Definition newest_first (s : list entry) : Prop :=
  StronglySorted (fun a b => rt_LastUsedAt (e_record b) <= rt_LastUsedAt (e_record a)) s.

Definition not_ahead (now : Z) (s : list entry) : Prop :=
  Forall (fun e => rt_LastUsedAt (e_record e) <= now) s.

Definition in_step (t : PrefixRoutingTable) : Prop := linked e_key (pt_entries t) (pt_recent t).

Definition table_ok (t : PrefixRoutingTable) (now : Z) : Prop :=
  in_step t /\ 0 < pt_capacity t /\ 0 < pt_ttl t /\
  Z.of_nat (length (recency t)) <= pt_capacity t /\
  newest_first (recency t) /\ not_ahead now (recency t).

Lemma remove_in_step t e v :
  in_step t -> Value (pt_recent t) e = Some v ->
  in_step (remove t e) /\ recency (remove t e) = List.filter (other_key e_key (e_key v)) (recency t) /\
  pt_entries (remove t e) = delete (e_key v) (pt_entries t).
Proof.
  intros Hl Hv. destruct (linked_remove e_key _ _ e v Hl Hv) as (Hl' & _ & Hr). unfold remove. rewrite Hv.
  split; [exact Hl' |]. split; [exact Hr | done].
Qed.

(** Writing through an element and moving it to the front. *)
Definition touch (t : PrefixRoutingTable) (e : nat) (v : entry) : PrefixRoutingTable :=
  with_lists t (pt_entries t) (MoveToFront (SetValue (pt_recent t) e v) e).

Lemma touch_in_step t e v k :
  in_step t -> pt_entries t !! k = Some e -> e_key v = k ->
  in_step (touch t e v) /\ recency (touch t e v) = v :: List.filter (other_key e_key k) (recency t).
Proof.
  intros Hl Hk Hv. unfold touch, in_step, recency. cbn.
  rewrite (touch_SetValue e_key (pt_entries t) (pt_recent t) k e v Hl Hk). by apply linked_touch.
Qed.

Lemma back_recency t xs v :
  in_step t -> recency t = xs ++ [v] ->
  exists e, Back (pt_recent t) = Some e /\ Value (pt_recent t) e = Some v /\
    in_step (remove t e) /\ recency (remove t e) = xs /\ pt_entries (remove t e) = delete (e_key v) (pt_entries t).
Proof.
  intros Hl Hr. destruct (back_value e_key _ _ xs v Hl Hr) as (e & Hb & Hv & Hrm). exists e.
  destruct (remove_in_step t e v Hl Hv) as (Hl' & _ & He). split_and!; try done.
  unfold remove, recency. rewrite Hv. exact Hrm.
Qed.

Lemma remove_params t e : pt_capacity (remove t e) = pt_capacity t /\ pt_ttl (remove t e) = pt_ttl t.
Proof. unfold remove. by destruct (Value _ _). Qed.

Lemma newest_first_filter f s : newest_first s -> newest_first (List.filter f s).
Proof.
  unfold newest_first. induction 1 as [|a l Hl IH Ha]; cbn; [constructor |]. destruct (f a); [| done].
  constructor; [done |]. rewrite Forall_forall in *. intros x [Hx _]%elem_of_bfilter. by apply Ha.
Qed.

Lemma not_ahead_filter f now s : not_ahead now s -> not_ahead now (List.filter f s).
Proof. unfold not_ahead. rewrite !Forall_forall. intros H x [Hx _]%elem_of_bfilter. by apply H. Qed.

Lemma fresh_mono ttl now a b :
  rt_LastUsedAt (e_record b) <= rt_LastUsedAt (e_record a) -> fresh ttl now b = true -> fresh ttl now a = true.
Proof. unfold fresh, time_sub. intros ? ?. unbool. apply Z.ltb_lt. lia. Qed.

(** The expiry loop removes exactly the stale entries. *)
Lemma expire_spec fuel t now :
  in_step t -> newest_first (recency t) -> (length (recency t) <= fuel)%nat ->
  let t' := expire fuel t now in
  in_step t' /\ pt_capacity t' = pt_capacity t /\ pt_ttl t' = pt_ttl t /\
  recency t' = List.filter (fresh (pt_ttl t) now) (recency t).
Proof.
  revert t. induction fuel as [|fuel IH]; intros t Hl Hs Hf.
  { cbn. destruct (recency t); [done | cbn in Hf; lia]. }
  assert (recency t = [] \/ exists xs v, recency t = xs ++ [v]) as [Hr | (xs & v & Hr)].
  { destruct (recency t) as [|v xs _] using rev_ind; [by left | right; eauto]. }
  { pose proof Hr as He. apply fmap_nil_inv in He. cbn. unfold Back. rewrite He. cbn. split_and!; try done.
    by rewrite Hr. }
  destruct (back_recency t xs v Hl Hr) as (e & Hb & Hv & Hl' & Hrm & _). cbn [expire]. rewrite Hb, Hv.
  fold (fresh (pt_ttl t) now v). destruct (fresh (pt_ttl t) now v) eqn:Ef.
  - split_and!; try done. symmetry. apply bfilter_all, Forall_forall. intros a Ha.
    rewrite Hr in Ha. apply elem_of_app in Ha as [Ha | ->%list_elem_of_singleton]; [| done].
    eapply fresh_mono; [| exact Ef]. unfold newest_first in Hs. rewrite Hr in Hs.
    eapply (StronglySorted_app_1_elem_of _ _ _ _ _ Hs Ha). set_solver.
  - destruct (remove_params t e) as [Hc Ht].
    destruct (IH (remove t e)) as (? & ? & ? & Hrec).
    + done.
    + rewrite Hrm. unfold newest_first in *. rewrite Hr in Hs. by eapply StronglySorted_app_1_l.
    + rewrite Hrm. rewrite Hr, length_app in Hf. cbn in Hf. lia.
    + split_and!; [done | congruence | congruence |]. rewrite Hrec, Hrm, Ht, Hr, List.filter_app. cbn.
      by rewrite Ef, app_nil_r.
Qed.

(** * Facts: the operations implement the recency list *)

Lemma newest_first_cons k r now s :
  newest_first s -> not_ahead now s ->
  newest_first (mkEntry k (used_at r now) :: s) /\ not_ahead now (mkEntry k (used_at r now) :: s).
Proof.
  intros Hs Hn. split.
  - constructor; [done |]. rewrite Forall_forall. intros x Hx. cbn. unfold not_ahead in Hn.
    rewrite Forall_forall in Hn. by apply Hn.
  - constructor; [cbn; lia | done].
Qed.

Lemma not_ahead_mono now now' s : now <= now' -> not_ahead now s -> not_ahead now' s.
Proof. intros H Hs. eapply Forall_impl; [exact Hs |]. cbn. lia. Qed.

Lemma Lookup_refines t now0 model digest now :
  table_ok t now0 -> now0 <= now ->
  let '(t', r) := Lookup t model digest now in
  table_ok t' now /\ pt_capacity t' = pt_capacity t /\ pt_ttl t' = pt_ttl t /\
  (recency t', r) = spec_lookup (pt_ttl t) (recency t) (mkRouteKey model digest) now.
Proof.
  intros (Hl & Hc & Ht & Hlen & Hs & Hn) Hnow. unfold Lookup, spec_lookup.
  apply (not_ahead_mono _ _ _ Hnow) in Hn.
  destruct (pt_entries t !! mkRouteKey model digest) as [e|] eqn:Ek.
  2: { unfold recency. by rewrite (find_values_none e_key _ _ _ Hl Ek). }
  destruct (entries_Value e_key _ _ _ e Hl Ek) as (v & Hv & Hin & Hkv). rewrite Hv.
  assert (List.find (with_key e_key (mkRouteKey model digest)) (recency t) = Some v) as Hfind.
  { by eapply find_values. }
  rewrite Hfind, Z.leb_antisym. fold (fresh (pt_ttl t) now v).
  pose proof (find_filter_lt e_key _ _ _ Hfind) as Hlt.
  destruct (fresh (pt_ttl t) now v); cbn [negb].
  - rewrite Hkv. fold (touch t e (mkEntry (mkRouteKey model digest) (used_at (e_record v) now))).
    destruct (touch_in_step t e (mkEntry (mkRouteKey model digest) (used_at (e_record v) now)) _ Hl Ek eq_refl)
      as [Hl' Hr]. rewrite <- Hr. split_and!; try done. split; [done |]. rewrite Hr. split_and!; try done.
    + cbn [length]. cbn. lia.
    + apply newest_first_cons; [by apply newest_first_filter | by apply not_ahead_filter].
    + apply newest_first_cons; [by apply newest_first_filter | by apply not_ahead_filter].
  - destruct (remove_params t e) as [Hc' Ht']. destruct (remove_in_step t e v Hl Hv) as (Hl' & Hr & _).
    rewrite Hkv in Hr. rewrite <- Hr. split_and!; try done. unfold table_ok. rewrite Hc', Ht', Hr. split_and!; try done.
    + lia.
    + by apply newest_first_filter.
    + by apply not_ahead_filter.
Qed.

Lemma existsb_find k s : existsb (with_key e_key k) s = bool_decide (is_Some (List.find (with_key e_key k) s)).
Proof.
  induction s as [|a s IH]; cbn; [done |].
  by destruct (with_key e_key k a).
Qed.

Definition put_valid (model : string) (digest : Digest) (r : RouteRecord) : Prop :=
  model <> "" /\ digest <> zero_digest /\ rt_NodeID r <> "".

Lemma take_all_but_last (xs : list entry) v n : Z.of_nat (length (xs ++ [v])) = n -> take (Z.to_nat (n - 1)) (xs ++ [v]) = xs.
Proof.
  rewrite length_app. cbn. intros <-. assert (Z.to_nat (Z.of_nat (length xs + 1) - 1) = length xs) as -> by lia.
  apply take_app_length.
Qed.

Lemma Put_refines t now0 model digest record now :
  table_ok t now0 -> now0 <= now -> put_valid model digest record ->
  let t' := Put t model digest record now in
  table_ok t' now /\ pt_capacity t' = pt_capacity t /\ pt_ttl t' = pt_ttl t /\
  recency t' = spec_put (pt_capacity t) (pt_ttl t) (recency t) (mkRouteKey model digest) record now.
Proof.
  intros (Hl & Hc & Ht & Hlen & Hs & Hn) Hnow (Hm & Hd & Hid). cbv zeta. unfold Put.
  rewrite !bool_decide_false by done. cbn [orb]. apply (not_ahead_mono _ _ _ Hnow) in Hn.
  destruct (expire_spec (ListLen (pt_recent t)) t now Hl Hs) as (Hl1 & Hc1 & Ht1 & Hr1).
  { unfold ListLen, recency, values. by rewrite length_fmap. }
  set (t1 := expire _ t now) in *. set (k := mkRouteKey model digest).
  assert (newest_first (recency t1)) as Hs1 by (rewrite Hr1; by apply newest_first_filter).
  assert (not_ahead now (recency t1)) as Hn1 by (rewrite Hr1; by apply not_ahead_filter).
  assert (Z.of_nat (length (recency t1)) <= pt_capacity t) as Hlen1.
  { rewrite Hr1. pose proof (length_bfilter (fresh (pt_ttl t) now) (recency t)). lia. }
  unfold spec_put. rewrite <- Hr1, existsb_find. rewrite <- Hc1, <- Ht1. rewrite <- Hc1 in Hlen1, Hc.
  rewrite <- Ht1 in Ht. clearbody t1. clear Hr1 Hc1 Ht1 Hl Hlen Hs Hn.
  destruct (pt_entries t1 !! k) as [e|] eqn:Ek.
  - destruct (entries_Value e_key _ _ k e Hl1 Ek) as (v & Hv & Hin & Hkv).
    assert (List.find (with_key e_key k) (recency t1) = Some v) as Hfind.
    { by eapply find_values. }
    rewrite Hfind, bool_decide_true by eauto. fold (touch t1 e (mkEntry k (used_at record now))).
    destruct (touch_in_step t1 e (mkEntry k (used_at record now)) k Hl1 Ek eq_refl) as [Hl' Hr].
    rewrite Hr. split_and!; try done. split; [done |]. rewrite Hr. split_and!; try done.
    + pose proof (find_filter_lt e_key _ _ _ Hfind). cbn. lia.
    + apply newest_first_cons; [by apply newest_first_filter | by apply not_ahead_filter].
    + apply newest_first_cons; [by apply newest_first_filter | by apply not_ahead_filter].
  - pose proof (find_values_none e_key _ _ k Hl1 Ek) as Hfind. fold (recency t1) in Hfind.
    rewrite Hfind, bool_decide_false by apply is_Some_None. rewrite filter_other_absent by done.
    rewrite (entries_size e_key _ _ Hl1). fold (recency t1).
    match goal with |- context [if ?b then ?x else t1] => set (t2 := if b then x else t1) end.
    assert (in_step t2 /\ pt_entries t2 !! k = None /\ pt_capacity t2 = pt_capacity t1 /\ pt_ttl t2 = pt_ttl t1 /\
      recency t2 = take (Z.to_nat (pt_capacity t1 - 1)) (recency t1)) as (Hl2 & Hk2 & Hc2 & Ht2 & Hr2).
    { subst t2. destruct (Z.leb_spec (pt_capacity t1) (Z.of_nat (length (recency t1)))).
      2: { split_and!; try done. rewrite take_ge; [done | lia]. }
      assert (exists xs v, recency t1 = xs ++ [v]) as (xs & v & Hxv).
      { destruct (recency t1) as [|v xs _] using rev_ind; [cbn in *; lia | eauto]. }
      destruct (back_recency t1 xs v Hl1 Hxv) as (e & -> & Hv & Hlr & Hrm & ->). destruct (remove_params t1 e) as [-> ->].
      split_and!; try done.
      - by apply lookup_delete_None; right.
      - rewrite Hrm, Hxv. symmetry. apply take_all_but_last. rewrite <- Hxv. lia. }
    clearbody t2. pose proof (linked_push e_key _ _ k (mkEntry k (used_at record now)) Hl2 Hk2 eq_refl) as Hl3.
    unfold PushFront in *. cbn [fst snd] in Hl3.
    set (t3 := with_lists t2 _ _) in *.
    assert (recency t3 = mkEntry k (used_at record now) :: take (Z.to_nat (pt_capacity t1 - 1)) (recency t1)) as Hr3.
    { unfold t3, recency. cbn. f_equal. exact Hr2. }
    rewrite Hr3. split_and!; try done. split; [done |]. rewrite Hr3.
    assert (newest_first (take (Z.to_nat (pt_capacity t1 - 1)) (recency t1)) /\
            not_ahead now (take (Z.to_nat (pt_capacity t1 - 1)) (recency t1))) as [Ha Hb].
    { rewrite <- (take_drop (Z.to_nat (pt_capacity t1 - 1)) (recency t1)) in Hs1, Hn1.
      split; [by eapply StronglySorted_app_1_l | by apply Forall_app in Hn1 as [? _]]. }
    unfold t3, with_lists. cbn [pt_capacity pt_ttl]. rewrite Hc2, Ht2.
    split_and!; try done; [| by apply newest_first_cons | by apply newest_first_cons].
    cbn [length]. rewrite length_take. lia.
Qed.

(** * Histories *)

Inductive op : Type :=
| OLookup (model : string) (digest : Digest)
| OPut (model : string) (digest : Digest) (record : RouteRecord).

Definition apply_op (t : PrefixRoutingTable) (o : op) (now : Z) : PrefixRoutingTable * option RouteRecord :=
  match o with
  | OLookup model digest => Lookup t model digest now
  | OPut model digest record => (Put t model digest record now, None)
  end.

Definition valid_put (o : op) : option (routeKey * RouteRecord) :=
  match o with
  | OPut model digest r =>
      if bool_decide (model = "") || bool_decide (digest = zero_digest) || bool_decide (rt_NodeID r = "") then None
      else Some (mkRouteKey model digest, r)
  | OLookup _ _ => None
  end.

Definition spec_op (cap ttl : Z) (s : list entry) (o : op) (now : Z) : list entry * option RouteRecord :=
  match o with
  | OLookup model digest => spec_lookup ttl s (mkRouteKey model digest) now
  | OPut _ _ _ => match valid_put o with
                  | Some (k, r) => (spec_put cap ttl s k r now, None)
                  | None => (s, None)
                  end
  end.

Section Runs.
Context {S : Type} (f : S -> op -> Z -> S * option RouteRecord).

Fixpoint run (s : S) (ops : list (op * Z)) : S * list (option RouteRecord) :=
  match ops with
  | [] => (s, [])
  | (o, now) :: ops =>
      let '(s1, r) := f s o now in
      let '(s2, rs) := run s1 ops in
      (s2, r :: rs)
  end.
End Runs.

(** The clock does not go back. *)
Fixpoint clock_ok (t0 : Z) (ops : list (op * Z)) : Prop :=
  match ops with
  | [] => True
  | (_, t) :: ops => t0 <= t /\ clock_ok t ops
  end.

Lemma op_refines t now0 o now :
  table_ok t now0 -> now0 <= now ->
  let '(t', r) := apply_op t o now in
  table_ok t' now /\ pt_capacity t' = pt_capacity t /\ pt_ttl t' = pt_ttl t /\
  (recency t', r) = spec_op (pt_capacity t) (pt_ttl t) (recency t) o now.
Proof.
  intros Hok Hnow. destruct o as [m d | m d r]; cbn [apply_op spec_op].
  - by apply (Lookup_refines t now0).
  - unfold valid_put. destruct (bool_decide (m = "") || _ || _) eqn:Ev.
    + unfold Put. rewrite Ev. split_and!; try done. destruct Hok as (? & ? & ? & ? & ? & Hn).
      split_and!; try done. by eapply not_ahead_mono.
    + unbool. destruct (Put_refines t now0 m d r now Hok Hnow) as (? & ? & ? & Hr); [by split_and! |].
      split_and!; try done. by rewrite Hr.
Qed.

Lemma new_table_ok capacity ttl now : table_ok (NewPrefixRoutingTable capacity ttl) now.
Proof.
  split; [| split; [| split; [| split; [| split]]]].
  - apply linked_empty.
  - cbn. destruct (Z.leb_spec capacity 0); lia.
  - cbn. unfold second. destruct (Z.leb_spec ttl 0); lia.
  - cbn. destruct (Z.leb_spec capacity 0); lia.
  - constructor.
  - constructor.
Qed.

Lemma run_refines t now0 ops :
  table_ok t now0 -> clock_ok now0 ops ->
  let '(t', rs) := run apply_op t ops in
  run (spec_op (pt_capacity t) (pt_ttl t)) (recency t) ops = (recency t', rs) /\
  pt_capacity t' = pt_capacity t /\ pt_ttl t' = pt_ttl t /\
  exists now1, now0 <= now1 /\ table_ok t' now1 /\ (forall now, clock_ok now0 (ops ++ [(OLookup "" [], now)]) -> now1 <= now).
Proof.
  revert t now0. induction ops as [|[o now] ops IH]; intros t now0 Hok Hc; cbn [run].
  { split_and!; try done. exists now0. split_and!; [lia | done |]. cbn. tauto. }
  destruct Hc as [Hnow Hc]. pose proof (op_refines t now0 o now Hok Hnow) as Hop.
  destruct (apply_op t o now) as [t1 r]. destruct Hop as (Hok1 & Hc1 & Ht1 & Hr). rewrite <- Hr.
  specialize (IH t1 now Hok1 Hc). destruct (run apply_op t1 ops) as [t2 rs].
  destruct IH as (IH & Hc2 & Ht2 & now1 & Hn1 & Hok2 & Hlast). rewrite <- Hc1, <- Ht1, IH.
  split_and!; [done | congruence | congruence |]. exists now1. split_and!; [lia | done |].
  intros n. cbn. intros [_ H]. by apply Hlast.
Qed.

(** C40. The table implements its reference.  From an empty table, any sequence of
    lookups and puts under a clock that does not go back answers exactly as the
    recency list that drops stale entries, moves every hit and put to the front and
    cuts at the capacity; the map and the linked list stay in step, the table never
    exceeds its capacity, and the list is ordered by last use. *)
Theorem table_refines (capacity ttl t0 : Z) (ops : list (op * Z)) :
  clock_ok t0 ops ->
  let t := NewPrefixRoutingTable capacity ttl in
  let '(t', rs) := run apply_op t ops in
  run (spec_op (pt_capacity t) (pt_ttl t)) [] ops = (recency t', rs) /\
  size (pt_entries t') = length (recency t') /\ Z.of_nat (length (recency t')) <= pt_capacity t /\
  newest_first (recency t').
Proof.
  intros Hc t. pose proof (run_refines t t0 ops (new_table_ok _ _ _) Hc) as H.
  destruct (run apply_op t ops) as [t' rs]. destruct H as (Hr & Hcap & _ & _ & _ & (Hl & _ & _ & Hlen & Hs & _) & _).
  split; [exact Hr |]. split; [by apply (entries_size e_key) |]. rewrite Hcap in Hlen. by split.
Qed.

(** The record of the last valid put for a key. *)
Definition last_put (k : routeKey) (ops : list (op * Z)) : option RouteRecord :=
  foldl (fun acc o => match valid_put o.1 with
                      | Some (k', r) => if bool_decide (k' = k) then Some r else acc
                      | None => acc
                      end) None ops.

Lemma last_put_snoc k ops o now :
  last_put k (ops ++ [(o, now)]) =
  match valid_put o with Some (k', r) => if bool_decide (k' = k) then Some r else last_put k ops | None => last_put k ops end.
Proof. unfold last_put. by rewrite foldl_snoc. Qed.

Definition truthful (ops : list (op * Z)) (s : list entry) : Prop :=
  Forall (fun e => exists r, last_put (e_key e) ops = Some r /\ e_record e = used_at r (rt_LastUsedAt (e_record e))) s.

Lemma truthful_sub ops s s' : (forall e, e ∈ s' -> e ∈ s) -> truthful ops s -> truthful ops s'.
Proof. unfold truthful. rewrite !Forall_forall. auto. Qed.

Lemma find_with_key k s e : List.find (with_key e_key k) s = Some e -> e ∈ s /\ e_key e = k.
Proof. intros [Hin Hk]%find_some. unfold with_key in Hk. unbool. by rewrite list_elem_of_In. Qed.

Lemma step_truthful cap ttl ops s o now :
  truthful ops s -> truthful (ops ++ [(o, now)]) (spec_op cap ttl s o now).1.
Proof.
  intros Hs. destruct o as [m d | m d r0]; cbn [spec_op].
  - assert (truthful (ops ++ [(OLookup m d, now)]) s) as Hs'.
    { eapply Forall_impl; [exact Hs |]. intros e. cbn. by rewrite last_put_snoc. }
    unfold spec_lookup. destruct (List.find _ s) as [e|] eqn:Ef; [| done].
    apply find_with_key in Ef as [Hin Hk].
    assert (truthful (ops ++ [(OLookup m d, now)]) (List.filter (other_key e_key (mkRouteKey m d)) s)).
    { eapply truthful_sub; [| exact Hs']. by intros x [? _]%elem_of_bfilter. }
    destruct (fresh ttl now e); cbn [fst]; [| done]. constructor; [| done]. cbn.
    unfold truthful in Hs'. rewrite Forall_forall in Hs'. destruct (Hs' e Hin) as (r & Hr & He).
    rewrite Hk in Hr. exists r. split; [done |]. by rewrite He.
  - destruct (valid_put (OPut m d r0)) as [[k r]|] eqn:Ev; cbn [fst].
    2: { eapply Forall_impl; [exact Hs |]. intros e. cbn beta. by rewrite last_put_snoc, Ev. }
    unfold spec_put. constructor.
    { cbn. exists r. rewrite last_put_snoc, Ev, bool_decide_true by done. done. }
    assert (truthful (ops ++ [(OPut m d r0, now)]) (List.filter (other_key e_key k) (List.filter (fresh ttl now) s))) as Ho.
    { apply Forall_forall. intros e [[Hin _]%elem_of_bfilter Hk]%elem_of_bfilter. unfold other_key in Hk. unbool.
      unfold truthful in Hs. rewrite Forall_forall in Hs. rewrite last_put_snoc, Ev, bool_decide_false by congruence.
      by apply Hs. }
    destruct (existsb _ _); [exact Ho |]. eapply truthful_sub; [| exact Ho].
    intros e He. by eapply subseteq_take in He.
Qed.

Lemma table_run_snoc {S} (f : S -> op -> Z -> S * option RouteRecord) s ops o now :
  (run f s (ops ++ [(o, now)])).1 = (f (run f s ops).1 o now).1.
Proof.
  revert s. induction ops as [|[o' n'] ops IH]; intros s; cbn.
  - by destruct (f s o now).
  - destruct (f s o' n') as [s1 r]. specialize (IH s1). destruct (run f s1 (ops ++ _)), (run f s1 ops). done.
Qed.

Lemma run_truthful cap ttl ops : truthful ops (run (spec_op cap ttl) [] ops).1.
Proof.
  induction ops as [|[o now] ops IH] using rev_ind; [constructor |]. rewrite table_run_snoc. by apply step_truthful.
Qed.

(** A hint is never wrong about the past.  Whatever was looked up, replaced,
    expired or evicted before, a lookup that hits returns the node and engine of the
    last valid put for that very model and digest. *)
Theorem hint_truthful (capacity ttl t0 now : Z) (ops : list (op * Z)) (model : string) (digest : Digest) (r : RouteRecord) :
  clock_ok t0 (ops ++ [(OLookup model digest, now)]) ->
  (Lookup (run apply_op (NewPrefixRoutingTable capacity ttl) ops).1 model digest now).2 = Some r ->
  exists r0, last_put (mkRouteKey model digest) ops = Some r0 /\ r = used_at r0 now.
Proof.
  intros Hc Hr. set (t := NewPrefixRoutingTable capacity ttl) in *.
  assert (clock_ok t0 ops) as Hc0.
  { clear Hr. revert t0 Hc. induction ops as [|[o n] ops IH]; intros t0; cbn; [done |]. intros [? ?]. eauto. }
  pose proof (run_refines t t0 ops (new_table_ok _ _ _) Hc0) as H.
  pose proof (run_truthful (pt_capacity t) (pt_ttl t) ops) as Ht. destruct (run apply_op t ops) as [t' rs].
  destruct H as (Hspec & _ & Httl & now1 & _ & Hok & Hlast).
  change (recency t) with (@nil entry) in Hspec. rewrite Hspec in Ht. cbn [fst] in *.
  assert (now1 <= now) as Hn.
  { apply Hlast. clear - Hc. revert t0 Hc. induction ops as [|[o n] ops IH]; intros t0; cbn; [done |].
    intros [? ?]. split; [done | eauto]. }
  pose proof (Lookup_refines t' now1 model digest now Hok Hn) as Hl.
  destruct (Lookup t' model digest now) as [t'' r']. cbn in Hr. subst r'. destruct Hl as (_ & _ & _ & Hl).
  unfold spec_lookup in Hl. destruct (List.find _ (recency t')) as [e|] eqn:Ef; [| done].
  apply find_with_key in Ef as [Hin Hk]. destruct (fresh _ now e); [| done]. injection Hl as _ ->.
  unfold truthful in Ht. rewrite Forall_forall in Ht. destruct (Ht e Hin) as (r0 & Hr0 & He). rewrite Hk in Hr0.
  exists r0. split; [done |]. by rewrite He.
Qed.

(** The entry of key [k]: used at [t0] or later, behind at most [n] others. *)
Definition within (k : routeKey) (t0 : Z) (n : nat) (s : list entry) : Prop :=
  exists xs e ys, s = xs ++ e :: ys /\ e_key e = k /\ Forall (fun x => e_key x <> k) xs /\
    (length xs <= n)%nat /\ t0 <= rt_LastUsedAt (e_record e).

Lemma within_filter k t0 n s f :
  within k t0 n s -> (forall e, e_key e = k -> t0 <= rt_LastUsedAt (e_record e) -> f e = true) ->
  within k t0 n (List.filter f s).
Proof.
  intros (xs & e & ys & -> & Hk & Hx & Hn & Ht) Hf. exists (List.filter f xs), e, (List.filter f ys).
  split_and!; try done.
  - rewrite List.filter_app. cbn. by rewrite Hf.
  - rewrite Forall_forall in *. intros x [Hin _]%elem_of_bfilter. by apply Hx.
  - pose proof (length_bfilter f xs). lia.
Qed.

Lemma within_cons k t0 n s e : e_key e <> k -> within k t0 n s -> within k t0 (S n) (e :: s).
Proof.
  intros He (xs & e' & ys & -> & ? & ? & ? & ?). exists (e :: xs), e', ys. split_and!; try done; [by constructor |].
  cbn. lia.
Qed.

Lemma within_head k t0 n s r now : t0 <= now -> within k t0 n (mkEntry k (used_at r now) :: s).
Proof. intros. exists [], (mkEntry k (used_at r now)), s. split_and!; try done; cbn; try constructor; lia. Qed.

Lemma within_take k t0 n s m : (n < m)%nat -> within k t0 n s -> within k t0 n (take m s).
Proof.
  intros Hm (xs & e & ys & -> & ? & ? & ? & ?). exists xs, e, (take (m - S (length xs)) ys). split_and!; try done.
  rewrite take_app_ge by lia. f_equal. destruct (m - length xs)%nat as [|j] eqn:Ej; [lia |]. cbn. do 2 f_equal. lia.
Qed.

Lemma within_weaken k t0 n n' s : (n <= n')%nat -> within k t0 n s -> within k t0 n' s.
Proof. intros Hn (xs & e & ys & -> & ? & ? & ? & ?). exists xs, e, ys. split_and!; try done. lia. Qed.

Lemma within_find k t0 n s :
  within k t0 n s -> exists e, List.find (with_key e_key k) s = Some e /\ t0 <= rt_LastUsedAt (e_record e).
Proof.
  intros (xs & e & ys & -> & Hk & Hx & _ & Ht). exists e. split; [| done]. induction Hx as [|x xs Hx _ IH]; cbn.
  - unfold with_key at 1. by rewrite bool_decide_true.
  - unfold with_key at 1. by rewrite bool_decide_false.
Qed.

Lemma fresh_since ttl t0 now e :
  0 < ttl -> now - t0 < ttl -> t0 <= rt_LastUsedAt (e_record e) -> fresh ttl now e = true.
Proof. unfold fresh, time_sub. intros. apply Z.ltb_lt. lia. Qed.

Lemma step_within cap ttl k t0 n s o now :
  0 < ttl -> t0 <= now -> now - t0 < ttl -> Z.of_nat n + 1 < cap ->
  within k t0 n s -> within k t0 (S n) (spec_op cap ttl s o now).1.
Proof.
  intros Httl Hle Hnow Hn Hw. assert (within k t0 (S n) s) as Hw' by (eapply within_weaken; [| exact Hw]; lia).
  assert (forall k' l, within k t0 n l -> k' <> k -> within k t0 n (List.filter (other_key e_key k') l)) as Hother.
  { intros k' l Hl Hk. apply within_filter; [done |]. intros e He _. unfold other_key.
    by rewrite bool_decide_false by congruence. }
  destruct o as [m d | m d r0]; cbn [spec_op].
  - unfold spec_lookup. set (k' := mkRouteKey m d). destruct (decide (k' = k)) as [-> | Hk].
    + destruct (within_find k t0 n s Hw) as (e & -> & Ht). rewrite (fresh_since ttl t0) by done.
      by apply within_head.
    + destruct (List.find (with_key e_key k') s) as [e|]; [| done].
      destruct (fresh ttl now e); cbn [fst]; [by apply within_cons; auto |].
      eapply within_weaken; [| by apply Hother]. lia.
  - destruct (valid_put (OPut m d r0)) as [[k' r]|]; cbn [fst]; [| done]. unfold spec_put.
    destruct (decide (k' = k)) as [-> | Hk]; [by apply within_head |]. apply within_cons; [done |].
    assert (within k t0 n (List.filter (other_key e_key k') (List.filter (fresh ttl now) s))) as Hl.
    { apply Hother; [| done]. apply within_filter; [done |]. intros e _ He. by eapply fresh_since. }
    destruct (existsb _ _); [done |]. apply within_take; [lia | done].
Qed.

Lemma clock_sorted t0 ops : clock_ok t0 ops <-> StronglySorted Z.le (t0 :: ops.*2).
Proof.
  revert t0. induction ops as [|[o n] ops IH]; intros t0; cbn [clock_ok].
  { split; [intros _; repeat constructor | done]. }
  rewrite IH, fmap_cons. cbn [snd]. rewrite !StronglySorted_cons, Forall_cons. split.
  - intros [Hn [Hs Hx]]. split_and!; try done. eapply Forall_impl; [exact Hs |]. cbn. lia.
  - tauto.
Qed.

Lemma clock_prefix t0 xs ys : clock_ok t0 (xs ++ ys) -> clock_ok t0 xs.
Proof. rewrite !clock_sorted, fmap_app, app_comm_cons. apply StronglySorted_app_1_l. Qed.

Lemma run_within cap ttl k t1 now s ops :
  0 < ttl -> now - t1 < ttl -> Forall (fun o => t1 <= o.2 <= now) ops -> Z.of_nat (length ops) < cap ->
  within k t1 0 s -> within k t1 (length ops) (run (spec_op cap ttl) s ops).1.
Proof.
  intros Httl Hnow. induction ops as [|[o n] ops IH] using rev_ind; intros Ht Hlen Hw; [done |].
  apply Forall_app in Ht as [Hts Ht]. apply Forall_cons_1 in Ht as [Ht _]. cbn in Ht.
  rewrite length_app in *. cbn in *. rewrite table_run_snoc, Nat.add_1_r. apply step_within; try lia.
  apply IH; [done | lia | done].
Qed.

Lemma run_app {S} (f : S -> op -> Z -> S * option RouteRecord) s xs ys :
  (run f s (xs ++ ys)).1 = (run f (run f s xs).1 ys).1.
Proof.
  revert s. induction xs as [|[o n] xs IH]; intros s; cbn; [done |].
  destruct (f s o n) as [s1 r]. specialize (IH s1). destruct (run f s1 (xs ++ ys)), (run f s1 xs). done.
Qed.

(** A hint stays available.  After a valid put, fewer than capacity operations of
    any kind and less than the idle lifetime later, the lookup still hits. *)
Theorem hint_available (capacity ttl t0 t1 now : Z) (before after : list (op * Z)) (model : string)
    (digest : Digest) (r : RouteRecord) :
  put_valid model digest r ->
  clock_ok t0 (before ++ (OPut model digest r, t1) :: after ++ [(OLookup model digest, now)]) ->
  let t := NewPrefixRoutingTable capacity ttl in
  Z.of_nat (length after) < pt_capacity t -> now - t1 < pt_ttl t ->
  exists r', (Lookup (run apply_op t (before ++ (OPut model digest r, t1) :: after)).1 model digest now).2 = Some r'.
Proof.
  intros Hv Hc t Hcap Httl. set (k := mkRouteKey model digest). set (ops := before ++ _ :: after).
  assert (clock_ok t0 (ops ++ [(OLookup model digest, now)])) as Hc1 by (unfold ops; by rewrite <- app_assoc).
  assert (Forall (fun o => t1 <= o.2 <= now) after /\ t1 <= now) as [Hts Hle].
  { rewrite clock_sorted, fmap_app, app_comm_cons in Hc. apply StronglySorted_app_1_r in Hc.
    rewrite fmap_cons, fmap_app in Hc. cbn in Hc. apply StronglySorted_cons in Hc as [Ha Hc].
    rewrite Forall_app in Ha. destruct Ha as [Ha Hn]. apply Forall_cons_1 in Hn as [Hn _]. split; [| done].
    rewrite Forall_forall in Ha. apply Forall_forall. intros o Ho. assert (o.2 ∈ after.*2) as Ho2 by (by apply list_elem_of_fmap_2).
    split; [by apply Ha |]. apply (StronglySorted_app_1_elem_of _ _ _ _ _ Hc Ho2). constructor. }
  pose proof (run_refines t t0 ops (new_table_ok _ _ _) (clock_prefix _ _ _ Hc1)) as H.
  destruct (run apply_op t ops) as [t' rs]. destruct H as (Hspec & _ & Ht & now1 & _ & Hok & Hlast).
  assert (now1 <= now) as Hn.
  { apply Hlast. rewrite clock_sorted in *. by rewrite fmap_app in *. }
  pose proof (Lookup_refines t' now1 model digest now Hok Hn) as Hl. cbn [fst].
  destruct (Lookup t' model digest now) as [t'' r']. destruct Hl as (_ & _ & _ & Hl). unfold spec_lookup in Hl.
  assert (0 < pt_ttl t) as Hpos by (destruct Hok as (_ & _ & ? & _); lia).
  assert (within k t1 (length after) (recency t')) as Hw.
  { change (recency t') with ((recency t', rs).1). rewrite <- Hspec. unfold ops.
    rewrite cons_middle, app_assoc, run_app. apply run_within with now; try done.
    rewrite table_run_snoc. cbn [spec_op]. destruct Hv as (Hm & Hd & Hid). unfold valid_put.
    rewrite !bool_decide_false by done. cbn [orb fst]. by apply within_head. }
  destruct (within_find _ _ _ _ Hw) as (e & He & Hte). unfold k in He. rewrite He, Ht in Hl.
  rewrite (fresh_since _ t1) in Hl by done. injection Hl as _ ->. eauto.
Qed.

(** * Witnesses *)

Definition ex_digest : Digest := Byte.x01 :: repeat Byte.x00 31.
Definition ex_digest2 : Digest := Byte.x02 :: repeat Byte.x00 31.
Definition ex_ops : list (op * Z) :=
  [(OPut "m" ex_digest (mkRoute "a" "ollama" 0), 10); (OLookup "m" ex_digest, 20);
   (OPut "m" ex_digest2 (mkRoute "b" "ollama" 0), 30); (OLookup "m" ex_digest, 200)].

Lemma table_refines_witness :
  let t := NewPrefixRoutingTable 2 100 in
  let '(t', rs) := run apply_op t ex_ops in
  rs = [None; Some (mkRoute "a" "ollama" 20); None; None] /\
  run (spec_op 2 100) [] ex_ops = (recency t', rs) /\ Z.of_nat (length (recency t')) <= 2.
Proof.
  intros t. pose proof (table_refines 2 100 0 ex_ops ltac:(cbn; lia)) as H. cbv zeta in H. fold t in H.
  assert ((run apply_op t ex_ops).2 = [None; Some (mkRoute "a" "ollama" 20); None; None]) as E
    by (vm_compute; reflexivity).
  destruct (run apply_op t ex_ops) as [t' rs]. destruct H as (H1 & _ & H2 & _). by split_and!.
Defined.

Lemma hint_truthful_witness :
  let t := (run apply_op (NewPrefixRoutingTable 2 100) (take 3 ex_ops)).1 in
  exists r r0, (Lookup t "m" ex_digest 40).2 = Some r /\ last_put (mkRouteKey "m" ex_digest) (take 3 ex_ops) = Some r0 /\
    r = used_at r0 40.
Proof.
  intros t. assert ((Lookup t "m" ex_digest 40).2 = Some (mkRoute "a" "ollama" 40)) as E by (vm_compute; reflexivity).
  destruct (hint_truthful 2 100 0 40 (take 3 ex_ops) "m" ex_digest (mkRoute "a" "ollama" 40) ltac:(cbn; lia) E)
    as (r0 & H0 & Hr). exists (mkRoute "a" "ollama" 40), r0. by split_and!.
Defined.

Lemma hint_available_witness :
  exists r', (Lookup (run apply_op (NewPrefixRoutingTable 2 100)
     ([] ++ (OPut "m" ex_digest (mkRoute "a" "ollama" 0), 10) :: [(OPut "m" ex_digest2 (mkRoute "b" "ollama" 0), 30)])).1
     "m" ex_digest 100).2 = Some r'.
Proof.
  apply (hint_available 2 100 0 10 100 [] [(OPut "m" ex_digest2 (mkRoute "b" "ollama" 0), 30)] "m" ex_digest
           (mkRoute "a" "ollama" 0)).
  - split_and!; discriminate.
  - cbn. lia.
  - cbn. lia.
  - cbn. lia.
Defined.
