(* ===== verification/Affinity.v ===== *)
(** Prompt affinity: the request digests (services/shared/prefixhash/prefixhash.go), the
    warm-node lookup and the reader that decides whether a response completed
    (services/ollama-proxy/affinity.go), over the table of PrefixTable.v. *)
From S2P Require Import Prelude.
From S2P Require Import GoStd.
From S2P Require Import Json.
From S2P Require Import GoList.
From S2P Require Import PrefixTable.

Open Scope string_scope.
Open Scope list_scope.
Open Scope Z_scope.

(** * Request digests (prefixhash.go) *)

Record Context_ : Type := mkContext { cx_Model : string; cx_Prefixes : list Digest; cx_Full : Digest }.
Definition no_context : Context_ := mkContext "" [] zero_digest.

Record promptEnvelope : Type := mkEnvelope {
  pe_Format : string;
  pe_Options : gmap string string;
  pe_Prompt : string;
  pe_Tokens : list Z
}.

(** The fields that do not change what the engine caches. *)
Definition ignored_fields : list string :=
  ["model"; "messages"; "prompt"; "context"; "stream"; "stream_options"; "max_tokens"; "max_completion_tokens";
   "temperature"; "top_p"; "top_k"; "min_p"; "seed"; "stop"; "n"; "frequency_penalty"; "presence_penalty";
   "repetition_penalty"; "logprobs"; "top_logprobs"; "logit_bias"; "user"; "metadata"; "store"; "keep_alive"].

(** Unmarshalling into a map keeps the last of repeated members. *)
Definition fields_of (body : option json) : option (gmap string json) :=
  match body with
  | Some (JObj l) => Some (foldl (fun m p => <[p.1 := p.2]> m) ∅ l)
  | _ => None
  end.

(** [json.Unmarshal] into a string: an absent field is empty input, an error. *)
Definition unmarshal_string (raw : option json) : option string :=
  match raw with
  | Some (JStr s) => Some s
  | Some JNull => Some ""
  | _ => None
  end.

(** Unmarshalling into [struct { Role string }]: names match without regard to case. *)
Fixpoint role_of (l : list (string * json)) (role : string) : option string :=
  match l with
  | [] => Some role
  | (k, v) :: l =>
      if EqualFold_ascii k "role" then
        match v with
        | JStr s => role_of l s
        | JNull => role_of l role
        | _ => None
        end
      else role_of l role
  end.

Definition unmarshal_role (v : json) : option string :=
  match v with JObj l => role_of l "" | JNull => Some "" | _ => None end.

Definition unmarshal_int64s (l : list json) : option (list Z) :=
  mapM (fun v => match v with
                 | JInt z => if bool_decide (- 2 ^ 63 <= z < 2 ^ 63) then Some z else None
                 | JNull => Some 0
                 | _ => None
                 end) l.

(** [binary.BigEndian.PutUint64]. *)
Definition byte_at (n i : Z) : ascii := ascii_of_N (Z.to_N (Z.shiftr n (8 * i) mod 256)).
Definition be64 (n : Z) : string := String.string_of_list_ascii (byte_at n <$> [7; 6; 5; 4; 3; 2; 1; 0]).

Definition len (s : string) : Z := Z.of_nat (String.length s).

Definition frame (m : string) : string := be64 (wrapU64 (len m)) +:+ m.
Fixpoint frames (ms : list string) : string :=
  match ms with [] => "" | m :: ms => frame m +:+ frames ms end.

Definition digest_string (d : Digest) : string := String.string_of_list_byte d.

Definition known_path (path : string) : bool :=
  bool_decide (path ∈ ["/v1/chat/completions"; "/api/chat"; "/v1/completions"; "/api/generate"]).
Definition chat_path (path : string) : bool := bool_decide (path ∈ ["/v1/chat/completions"; "/api/chat"]).

Section Extract.
(** [canonicalJSON] re-encodes a decoded value, [marshal] encodes the envelope;
    a [nil] result of [marshal] hashes to the zero digest. *)
Context (canonicalJSON : json -> string) (marshal : promptEnvelope -> option string) (sha256 : string -> Digest).

Definition hashEnvelope (e : promptEnvelope) : Digest :=
  match marshal e with Some text => sha256 text | None => zero_digest end.

Definition options_of (fields : gmap string json) : gmap string string :=
  canonicalJSON <$> filter (fun '(k, _) => k ∉ ignored_fields) fields.

(** The running hash over the options digest and the framed messages so far;
    a digest at every message boundary. *)
Fixpoint boundaries (written : string) (ms : list string) : list Digest :=
  match ms with
  | [] => []
  | m :: ms => let written := written +:+ frame m in sha256 written :: boundaries written ms
  end.

Definition chat_context (model : string) (envelope : promptEnvelope) (messages : option json) : Context_ :=
  match messages with
  | Some (JArr (m0 :: ms)) =>
      let msgs := m0 :: ms in
      if forallb (fun m => match unmarshal_role m with
                           | Some r => negb (bool_decide (r = "")) | None => false end) msgs
      then
        let ds := boundaries (digest_string (hashEnvelope envelope)) (canonicalJSON <$> msgs) in
        mkContext model (rev (removelast ds)) (List.last ds zero_digest)
      else no_context
  | _ => no_context
  end.

Definition bucket (model : string) (e : promptEnvelope) : Context_ :=
  let full := hashEnvelope e in mkContext model [full] full.

Definition prompt_context (model : string) (envelope : promptEnvelope) (prompt : option json) : Context_ :=
  match unmarshal_string prompt with
  | Some p => if len p <? 1024 then no_context
              else bucket model (mkEnvelope (pe_Format envelope) (pe_Options envelope) (String.substring 0 1024 p) [])
  | None => no_context
  end.

Definition Extract (method path : string) (body : option json) : Context_ :=
  let path := match cut "?" path with Some (a, _) => a | None => path end in
  if negb (bool_decide (method = "POST")) || negb (known_path path) then no_context
  else
    match fields_of body with
    | None => no_context
    | Some fields =>
        match unmarshal_string (fields !! "model") with
        | None => no_context
        | Some model =>
            if bool_decide (TrimSpace model = "") then no_context
            else
              let envelope := mkEnvelope path (options_of fields) "" [] in
              if chat_path path then chat_context model envelope (fields !! "messages")
              else
                match (if bool_decide (path = "/api/generate") then fields !! "context" else None) with
                | None => prompt_context model envelope (fields !! "prompt")
                | Some (JArr l) =>
                    match unmarshal_int64s l with
                    | None => no_context
                    | Some tokens =>
                        if existsb (fun t => t <? 0) tokens then no_context
                        else if bool_decide (tokens = []) then prompt_context model envelope (fields !! "prompt")
                        else bucket model (mkEnvelope path (options_of fields) "" tokens)
                    end
                | Some JNull => prompt_context model envelope (fields !! "prompt")
                | Some _ => no_context
                end
        end
    end.
End Extract.

(** * The warm node (affinity.go) *)

Definition workloadEngine : string := "ollama".

(** [affinityNode]; [tick i] is the clock at the [i]-th lookup. *)
Fixpoint affinity_walk (t : PrefixRoutingTable) (model : string) (ds : list Digest) (tick : nat -> Z) (i : nat)
    : PrefixRoutingTable * string :=
  match ds with
  | [] => (t, "")
  | d :: ds =>
      match Lookup t model d (tick i) with
      | (t, Some record) =>
          if bool_decide (rt_Engine record = workloadEngine) then (t, rt_NodeID record)
          else affinity_walk t model ds tick (S i)
      | (t, None) => affinity_walk t model ds tick (S i)
      end
  end.

Definition affinityNode (t : PrefixRoutingTable) (context : Context_) (tick : nat -> Z) : PrefixRoutingTable * string :=
  affinity_walk t (cx_Model context) (cx_Prefixes context) tick 0.

(** How a forwarded request ended: the conditions [handleHTTP] tests before it
    remembers the destination. *)
Record outcome : Type := mkOutcome {
  o_status : Z;
  o_proxyErr : string;
  o_cancelled : bool;
  o_committed : bool;
  o_wroteErr : bool;
  o_complete : bool;
  o_servedNodeID : string
}.

Definition remember (t : PrefixRoutingTable) (model : string) (full : Digest) (o : outcome) (now : Z)
    : PrefixRoutingTable :=
  if negb (bool_decide (full = zero_digest)) && (o_status o =? 200) && bool_decide (o_proxyErr o = "")
     && negb (o_cancelled o) && o_committed o && negb (o_wroteErr o) && o_complete o
  then Put t model full (mkRoute (o_servedNodeID o) workloadEngine 0) now
  else t.

(** * The completion reader (affinity.go) *)

Inductive completionFormat : Type := completionOnEOF | completionSSE | completionOllamaJSON.

#[export] Instance completionFormat_eq_dec : EqDecision completionFormat.
Proof. solve_decision. Defined.

Definition maxCompletionLineBytes : Z := Z.shiftl 64 10.

Record affinityBodyReader : Type := mkReader {
  rd_complete : bool;
  rd_format : completionFormat;
  rd_done : bool;
  rd_invalid : bool;
  rd_line : string
}.

Definition newAffinityBodyReader (contentType path : string) : affinityBodyReader :=
  let ct := ToLower contentType in
  let format :=
    if has_prefix "text/event-stream" ct then completionSSE
    else if (bool_decide (path = "/api/chat") || bool_decide (path = "/api/generate"))
            && (has_prefix "application/x-ndjson" ct || has_prefix "application/json" ct) then completionOllamaJSON
    else completionOnEOF in
  mkReader false format false false "".

Definition nl : ascii := "010".

Section Reader.
(** [event_done line]: the line decodes to an object whose [done] is true. *)
Context (event_done : string -> bool).

Definition is_done (f : completionFormat) (line : string) : bool :=
  match f with
  | completionOnEOF => false
  | completionSSE => bool_decide (line = "data: [DONE]")
  | completionOllamaJSON => event_done line
  end.

Definition inspectLine (r : affinityBodyReader) (line : string) : affinityBodyReader :=
  let line := TrimSpace line in
  if bool_decide (line = "") then r
  else if rd_done r then mkReader (rd_complete r) (rd_format r) (rd_done r) true (rd_line r)
  else mkReader (rd_complete r) (rd_format r) (is_done (rd_format r) line) (rd_invalid r) (rd_line r).

Definition set_line (r : affinityBodyReader) (line : string) : affinityBodyReader :=
  mkReader (rd_complete r) (rd_format r) (rd_done r) (rd_invalid r) line.

(** The loop of [observe]; each turn consumes a newline, so the length is fuel enough. *)
Fixpoint observe_loop (fuel : nat) (r : affinityBodyReader) : affinityBodyReader :=
  match fuel with
  | O => r
  | S fuel =>
      match cut nl (rd_line r) with
      | None =>
          if maxCompletionLineBytes <? len (rd_line r)
          then mkReader (rd_complete r) (rd_format r) (rd_done r) (rd_invalid r || rd_done r) ""
          else r
      | Some (line, rest) => observe_loop fuel (set_line (inspectLine r line) rest)
      end
  end.

Definition observe (r : affinityBodyReader) (chunk : string) : affinityBodyReader :=
  let line := rd_line r +:+ chunk in
  observe_loop (S (String.length line)) (set_line r line).

(** One [Read] of the body: the bytes it returned and whether it reported EOF. *)
Definition Read (r : affinityBodyReader) (chunk : string) (eof : bool) : affinityBodyReader :=
  let r := if negb (bool_decide (chunk = "")) && negb (bool_decide (rd_format r = completionOnEOF))
           then observe r chunk else r in
  if eof then
    let r := if bool_decide (rd_format r = completionOnEOF) then r else inspectLine r (rd_line r) in
    mkReader (bool_decide (rd_format r = completionOnEOF) || (rd_done r && negb (rd_invalid r)))
      (rd_format r) (rd_done r) (rd_invalid r) (rd_line r)
  else r.
End Reader.

(** * Facts: the digests *)

Lemma be64_length n : String.length (be64 n) = 8%nat.
Proof. reflexivity. Qed.

Lemma fmap_agree {A B} (f g : A -> B) (l : list A) : f <$> l = g <$> l -> Forall (fun x => f x = g x) l.
Proof. induction l as [|x l IH]; [constructor |]. rewrite !fmap_cons. intros [= ? ?]. constructor; auto. Qed.

Lemma byte_at_inj a b i : byte_at a i = byte_at b i -> Z.shiftr a (8 * i) mod 256 = Z.shiftr b (8 * i) mod 256.
Proof.
  unfold byte_at. generalize (Z.shiftr a (8 * i)) (Z.shiftr b (8 * i)). intros x y H.
  pose proof (Z.mod_pos_bound x 256 ltac:(lia)). pose proof (Z.mod_pos_bound y 256 ltac:(lia)).
  apply (f_equal N_of_ascii) in H. rewrite !N_ascii_embedding in H by lia. lia.
Qed.

Lemma be64_inj a b : 0 <= a < 2 ^ 64 -> 0 <= b < 2 ^ 64 -> be64 a = be64 b -> a = b.
Proof.
  intros Ha Hb H. apply (f_equal String.list_ascii_of_string) in H. unfold be64 in H.
  rewrite !String.list_ascii_of_string_of_list_ascii in H. apply fmap_agree in H. rewrite Forall_forall in H.
  assert (forall i, 0 <= i < 8 -> Z.shiftr a (8 * i) mod 256 = Z.shiftr b (8 * i) mod 256) as Hi.
  { intros i Hi. apply byte_at_inj, H. assert (i = 0 \/ i = 1 \/ i = 2 \/ i = 3 \/ i = 4 \/ i = 5 \/ i = 6 \/ i = 7) by lia.
    rewrite !elem_of_cons. lia. }
  apply Z.bits_inj'. intros n Hn. destruct (Z.lt_ge_cases n 64) as [Hlt | Hge].
  - assert (n = 8 * (n / 8) + n mod 8) as -> by (apply Z.div_mod; lia).
    assert (0 <= n mod 8 < 8) by (apply Z.mod_pos_bound; lia).
    specialize (Hi (n / 8) ltac:(split; [apply Z.div_pos; lia | apply Z.div_lt_upper_bound; lia])).
    apply (f_equal (fun z => Z.testbit z (n mod 8))) in Hi.
    change 256 with (2 ^ 8) in Hi. rewrite !Z.mod_pow2_bits_low in Hi by lia.
    rewrite !Z.shiftr_spec in Hi by lia. by rewrite (Z.add_comm (8 * (n / 8))).
  - assert (forall z, 0 <= z < 2 ^ 64 -> Z.testbit z n = false) as Hz; [| by rewrite !Hz].
    intros z Hz. destruct (Z.eq_dec z 0) as [-> | ?]; [apply Z.testbit_0_l |].
    apply Z.bits_above_log2; [lia |]. apply Z.log2_lt_pow2; [lia |].
    eapply Z.lt_le_trans; [apply Hz |]. by apply Z.pow_le_mono_r.
Qed.

Definition sized (m : string) : Prop := len m < 2 ^ 64.

Lemma frames_inj ms ms' : Forall sized ms -> Forall sized ms' -> frames ms = frames ms' -> ms = ms'.
Proof.
  intros Hm. revert ms'. induction Hm as [|m ms Hm _ IH]; intros [|m' ms'] Hms'; cbn [frames].
  - done.
  - intros H. apply (f_equal String.length) in H. unfold frame in H. rewrite !string_length_app in H.
    rewrite be64_length in H. cbn in H. lia.
  - intros H. apply (f_equal String.length) in H. unfold frame in H. rewrite !string_length_app in H.
    rewrite be64_length in H. cbn in H. lia.
  - apply Forall_cons in Hms' as [Hm' Hms']. unfold frame. rewrite !string_app_assoc. intros H.
    apply string_app_inj_len in H as [Hb H]; [| by rewrite !be64_length]. unfold sized, len in *.
    rewrite !wrapU64_id in Hb by lia. apply be64_inj in Hb; [| lia | lia].
    apply string_app_inj_len in H as [-> H]; [| lia]. f_equal. by apply IH.
Qed.

Section Digests.
Context (canonicalJSON : json -> string) (marshal : promptEnvelope -> option string) (sha256 : string -> Digest).

(** The text hashed at a message boundary. *)
Definition transcript (options : Digest) (ms : list string) : string := digest_string options +:+ frames ms.

Lemma frames_app ms ms' : frames (ms ++ ms') = frames ms +:+ frames ms'.
Proof. induction ms as [|m ms IH]; [done |]. cbn. by rewrite IH, string_app_assoc. Qed.

Lemma boundaries_app w ms ms' :
  boundaries sha256 w (ms ++ ms') = boundaries sha256 w ms ++ boundaries sha256 (w +:+ frames ms) ms'.
Proof.
  revert w. induction ms as [|m ms IH]; intros w; cbn.
  - by rewrite string_app_nil_r.
  - by rewrite IH, string_app_assoc.
Qed.

Lemma length_boundaries w ms : length (boundaries sha256 w ms) = length ms.
Proof. revert w. induction ms as [|m ms IH]; intros w; cbn; [done |]. by rewrite IH. Qed.

Lemma boundaries_lookup w ms k :
  (k < length ms)%nat -> boundaries sha256 w ms !! k = Some (sha256 (w +:+ frames (take (S k) ms))).
Proof.
  revert w k. induction ms as [|m ms IH]; intros w k Hk; cbn in *; [lia |]. destruct k as [|k]; cbn.
  - by rewrite take_0, string_app_nil_r.
  - rewrite IH by lia. by rewrite string_app_assoc.
Qed.

Lemma digest_string_inj d d' : digest_string d = digest_string d' -> d = d'.
Proof.
  intros H. apply (f_equal String.list_byte_of_string) in H. unfold digest_string in H.
  by rewrite !String.list_byte_of_string_of_list_byte in H.
Qed.

Lemma digest_string_length d : String.length (digest_string d) = length d.
Proof. unfold digest_string. induction d as [|b d IH]; cbn; [done |]. by f_equal. Qed.

(** The framing is unambiguous.  Two prompts hash the same text only when their
    options digests agree and their canonical messages agree one by one: no message
    boundary can be forged from the content of a message. *)
Theorem transcript_injective (d d' : Digest) (ms ms' : list string) :
  length d = length d' -> Forall sized ms -> Forall sized ms' ->
  transcript d ms = transcript d' ms' -> d = d' /\ ms = ms'.
Proof.
  intros Hd Hms Hms' H. unfold transcript in H. apply string_app_inj_len in H as [H1 H2].
  - split; [by apply digest_string_inj | by apply frames_inj].
  - by rewrite !digest_string_length.
Qed.

Definition valid_message (m : json) : Prop := exists r, unmarshal_role m = Some r /\ r <> "".

Lemma valid_messages ms :
  Forall valid_message ms ->
  forallb (fun m => match unmarshal_role m with Some r => negb (bool_decide (r = "")) | None => false end) ms = true.
Proof.
  intros H. apply forallb_forall. intros m Hm. rewrite Forall_forall in H. rewrite <- list_elem_of_In in Hm.
  destruct (H m Hm) as (r & -> & Hr). by rewrite bool_decide_false.
Qed.

(** A well-formed chat request. *)
Definition chat_request (path : string) (fields : gmap string json) (model : string) (ms : list json) : Prop :=
  path ∈ ["/v1/chat/completions"; "/api/chat"] /\ fields !! "model" = Some (JStr model) /\ TrimSpace model <> "" /\
  fields !! "messages" = Some (JArr ms) /\ ms <> [] /\ Forall valid_message ms.

Lemma Extract_chat path body fields model ms :
  fields_of body = Some fields -> chat_request path fields model ms ->
  let ds := boundaries sha256 (digest_string (hashEnvelope marshal sha256 (mkEnvelope path (options_of canonicalJSON fields) "" [])))
              (canonicalJSON <$> ms) in
  Extract canonicalJSON marshal sha256 "POST" path body = mkContext model (rev (removelast ds)) (List.last ds zero_digest).
Proof.
  intros Hb (Hp & Hm & Hmod & Hms & Hne & Hv) ds. unfold Extract.
  assert (cut "?" path = None) as ->.
  { apply elem_of_cons in Hp as [-> | ->%list_elem_of_singleton]; reflexivity. }
  rewrite bool_decide_true by done. cbn [negb orb]. assert (known_path path = true) as ->.
  { unfold known_path. apply bool_decide_eq_true_2.
    apply elem_of_cons in Hp as [-> | ->%list_elem_of_singleton]; repeat constructor. }
  cbn [negb]. rewrite Hb, Hm. cbn [unmarshal_string]. rewrite bool_decide_false by done.
  unfold chat_path. rewrite bool_decide_true by done. unfold chat_context. rewrite Hms.
  destruct ms as [|m ms]; [done |]. rewrite valid_messages by done. done.
Qed.

Lemma removelast_app_ne {A} (xs ys : list A) : ys <> [] -> removelast (xs ++ ys) = xs ++ removelast ys.
Proof. apply removelast_app. Qed.

(** A follow-up carries the whole past conversation as its prefixes.  When a chat
    request repeats an earlier one's messages and adds some - whatever it changes among
    the sampling and transport fields - its candidate prefixes are the digests of the
    added boundaries, longest first, then the earlier request's full digest, then that
    request's own prefixes. *)
Theorem follow_up_prefixes (path : string) (body body' : option json) (f f' : gmap string json) (model : string)
    (ms more : list json) :
  fields_of body = Some f -> fields_of body' = Some f' ->
  chat_request path f model ms -> chat_request path f' model (ms ++ more) -> more <> [] ->
  (forall k, k ∉ ignored_fields -> f !! k = f' !! k) ->
  let c := Extract canonicalJSON marshal sha256 "POST" path body in
  let c' := Extract canonicalJSON marshal sha256 "POST" path body' in
  exists longer, cx_Prefixes c' = longer ++ cx_Full c :: cx_Prefixes c /\
    S (length longer) = length more /\ cx_Model c' = cx_Model c.
Proof.
  intros Hb Hb' Hr Hr' Hmore Hf c c'.
  assert (options_of canonicalJSON f = options_of canonicalJSON f') as Ho.
  { unfold options_of. f_equal. apply map_eq. intros k. apply option_eq. intros v. rewrite !map_lookup_filter_Some.
    split; intros [Hk Hn]; (split; [| exact Hn]); [by rewrite <- Hf | by rewrite Hf]. }
  unfold c, c'. rewrite (Extract_chat path body f model ms Hb Hr), (Extract_chat path body' f' model _ Hb' Hr').
  rewrite <- Ho. set (od := hashEnvelope _ _ _). cbn [cx_Prefixes cx_Full cx_Model].
  rewrite fmap_app, boundaries_app. set (A := boundaries _ _ (canonicalJSON <$> ms)).
  set (B := boundaries _ _ (canonicalJSON <$> more)).
  assert (length A = length ms) as HA by (unfold A; by rewrite length_boundaries, length_fmap).
  assert (length B = length more) as HB by (unfold B; by rewrite length_boundaries, length_fmap).
  assert (B <> []) as HBne by (destruct B; [destruct more; done | done]).
  assert (A <> []) as HAne by (destruct Hr as (_ & _ & _ & _ & Hne & _); destruct A; [destruct ms; done | done]).
  rewrite removelast_app by done. rewrite rev_app_distr. exists (rev (removelast B)). split_and!; [| | done].
  - f_equal. rewrite (app_removelast_last zero_digest HAne) at 1. by rewrite rev_app_distr.
  - rewrite length_rev. rewrite (app_removelast_last zero_digest HBne), length_app in HB. cbn in HB. lia.
Qed.
End Digests.

(** * Facts: the warm node *)

Lemma Lookup_miss t now0 model d now :
  table_ok t now0 -> now0 <= now -> mkRouteKey model d ∉ e_key <$> recency t -> Lookup t model d now = (t, None).
Proof.
  intros (Hl & _) _ Hk. unfold Lookup. destruct (pt_entries t !! mkRouteKey model d) as [e|] eqn:E; [| done].
  destruct Hk. apply (entries_dom e_key _ _ _ Hl). by rewrite E.
Qed.

Lemma walk_misses t now0 model longer ds tick i :
  table_ok t now0 -> (forall j, now0 <= tick j) -> Forall (fun d => mkRouteKey model d ∉ e_key <$> recency t) longer ->
  affinity_walk t model (longer ++ ds) tick i = affinity_walk t model ds tick (i + length longer).
Proof.
  intros Hok Ht Hl. revert i. induction Hl as [|d longer Hd _ IH]; intros i; cbn.
  - by rewrite Nat.add_0_r.
  - rewrite (Lookup_miss t now0) by auto. rewrite IH. f_equal. lia.
Qed.

(** A response that warrants a hint. *)
Definition clean (o : outcome) : Prop :=
  o_status o = 200 /\ o_proxyErr o = "" /\ o_cancelled o = false /\ o_committed o = true /\ o_wroteErr o = false /\
  o_complete o = true /\ o_servedNodeID o <> "".

(** The next turn goes to the warm node.  After a response completed cleanly, a
    request whose prefixes contain that request's digest - none of the longer ones being
    recorded - finds the node that served it, as long as the hint is younger than the
    idle lifetime; a response that did not complete records nothing. *)
Theorem warm_follow_up (t : PrefixRoutingTable) (now0 t1 : Z) (o : outcome) (c c' : Context_)
    (longer rest : list Digest) (tick : nat -> Z) :
  table_ok t now0 -> now0 <= t1 -> cx_Model c <> "" -> cx_Full c <> zero_digest ->
  cx_Model c' = cx_Model c -> cx_Prefixes c' = longer ++ cx_Full c :: rest ->
  Forall (fun d => d <> cx_Full c /\ mkRouteKey (cx_Model c) d ∉ e_key <$> recency t) longer ->
  (forall i, t1 <= tick i /\ tick i - t1 < pt_ttl t) ->
  let t' := remember t (cx_Model c) (cx_Full c) o t1 in
  (clean o -> (affinityNode t' c' tick).2 = o_servedNodeID o) /\
  (o_status o <> 200 \/ o_complete o = false -> t' = t).
Proof.
  intros Hok Hnow Hm Hfull Hmod Hpre Hlong Htick t'. split.
  2: { intros H. unfold t', remember. rewrite bool_decide_false by done. cbn [negb andb].
    destruct H as [H | ->]; [rewrite (proj2 (Z.eqb_neq _ _)) by done; done |]. by rewrite andb_false_r. }
  intros (H1 & H2 & H3 & H4 & H5 & H6 & H7). assert (t' = Put t (cx_Model c) (cx_Full c)
    (mkRoute (o_servedNodeID o) workloadEngine 0) t1) as ->.
  { unfold t', remember. by rewrite bool_decide_false, H1, H2, H3, H4, H5, H6 by done. }
  destruct (Put_refines t now0 (cx_Model c) (cx_Full c) (mkRoute (o_servedNodeID o) workloadEngine 0) t1 Hok Hnow
              ltac:(by split_and!)) as (Hok' & _ & Httl & Hrec).
  set (t2 := Put _ _ _ _ _) in *. unfold affinityNode. rewrite Hmod, Hpre.
  rewrite (walk_misses t2 t1); [| done | intros j; apply Htick |].
  - cbn [affinity_walk]. set (now := tick _).
    destruct (Htick (0 + length longer)%nat) as [Hge Hlt]. fold now in Hge, Hlt.
    pose proof (Lookup_refines t2 t1 (cx_Model c) (cx_Full c) now Hok' Hge) as Hl.
    destruct (Lookup t2 (cx_Model c) (cx_Full c) now) as [t3 r]. destruct Hl as (_ & _ & _ & Hl).
    rewrite Hrec in Hl. unfold spec_put, spec_lookup in Hl. cbn [List.find] in Hl. unfold with_key at 1 in Hl.
    rewrite bool_decide_true in Hl by done. rewrite (fresh_since _ t1) in Hl.
    + injection Hl as _ ->. done.
    + destruct Hok as (_ & _ & ? & _). lia.
    + lia.
    + cbn. lia.
  - apply Forall_forall. intros d Hd. rewrite Forall_forall in Hlong. destruct (Hlong d Hd) as [Hne Hout].
    rewrite Hrec. unfold spec_put. rewrite fmap_cons. cbn [e_key]. rewrite not_elem_of_cons. split; [congruence |].
    intros Hin. apply Hout. apply list_elem_of_fmap in Hin as (e & -> & Hin). apply list_elem_of_fmap_2.
    assert (e ∈ List.filter (other_key e_key (mkRouteKey (cx_Model c) (cx_Full c))) (List.filter (fresh (pt_ttl t) t1) (recency t)))
      as [[? _]%elem_of_bfilter _]%elem_of_bfilter; [| done].
    destruct (existsb _ _); [done |]. by eapply subseteq_take in Hin.
Qed.

(** * Facts: the completion reader *)

Section ReaderFacts.
Context (event_done : string -> bool).

(** The verdict on a body, line by line. *)
Definition verdict (r : affinityBodyReader) (lines : list string) : affinityBodyReader :=
  foldl (inspectLine event_done) r lines.

Definition small (line : string) : Prop := len line <= maxCompletionLineBytes.

Lemma inspect_fields r line :
  rd_format (inspectLine event_done r line) = rd_format r /\ rd_line (inspectLine event_done r line) = rd_line r /\
  rd_complete (inspectLine event_done r line) = rd_complete r.
Proof. unfold inspectLine. destruct (bool_decide _); [done |]. by destruct (rd_done r). Qed.

Lemma inspect_set_line r line l :
  inspectLine event_done (set_line r l) line = set_line (inspectLine event_done r line) l.
Proof. unfold inspectLine, set_line. cbn. destruct (bool_decide _); [done |]. by destruct (rd_done r). Qed.

Lemma set_line_id r : set_line r (rd_line r) = r.
Proof. by destruct r. Qed.

Lemma verdict_set_line r lines l : verdict (set_line r l) lines = set_line (verdict r lines) l.
Proof.
  revert r. induction lines as [|x lines IH]; intros r; [done |]. cbn.
  rewrite inspect_set_line. apply IH.
Qed.

Lemma last_app_ne {A} (xs ys : list A) d : ys <> [] -> List.last (xs ++ ys) d = List.last ys d.
Proof.
  intros Hy. induction xs as [|x xs IH]; [done |]. cbn [app]. rewrite <- IH.
  destruct (xs ++ ys) eqn:E; [| done]. by apply app_nil in E as [_ ->].
Qed.

Lemma last_in {A} (l : list A) d : l <> [] -> List.last l d ∈ l.
Proof.
  intros Hl. rewrite (app_removelast_last d Hl) at 2. apply elem_of_app. right. constructor.
Qed.

Lemma concat_cons a l : String.concat "" (a :: l) = a +:+ String.concat "" l.
Proof. destruct l; [by rewrite string_app_nil_r | done]. Qed.

(** One [observe] on small lines inspects every complete line and keeps the rest. *)
Lemma observe_loop_split fuel r :
  (String.length (rd_line r) < fuel)%nat -> Forall small (split nl (rd_line r)) ->
  observe_loop event_done fuel r =
    set_line (verdict r (removelast (split nl (rd_line r)))) (List.last (split nl (rd_line r)) "").
Proof.
  revert r. induction fuel as [|fuel IH]; intros r Hf Hs; [lia |]. cbn [observe_loop].
  destruct (cut nl (rd_line r)) as [[a b]|] eqn:Ec.
  - apply cut_sound in Ec as [Hr Ha]. rewrite Hr in Hs |- *. rewrite split_app in Hs |- * by done.
    apply Forall_cons in Hs as [_ Hs]. rewrite Hr, string_length_app in Hf. cbn in Hf.
    rewrite IH; cbn [set_line rd_line]; [| lia | done].
    destruct (split nl b) as [|x xs] eqn:Eb; [by apply split_nonempty in Eb |].
    change (removelast (a :: x :: xs)) with (a :: removelast (x :: xs)).
    change (List.last (a :: x :: xs) "") with (List.last (x :: xs) ""). cbn [verdict foldl].
    fold (verdict (inspectLine event_done r a)). by rewrite verdict_set_line.
  - apply cut_none_inv in Ec. rewrite split_none in Hs |- * by done. apply Forall_cons_1 in Hs as [Hs _].
    unfold small in Hs. rewrite (proj2 (Z.ltb_ge _ _)) by done. cbn. by rewrite set_line_id.
Qed.

Lemma small_prefix x y : Forall small (split nl (x +:+ y)) -> Forall small (split nl x).
Proof.
  rewrite split_append. intros [Hr Hl]%Forall_app.
  destruct (split nl x) as [|p l] eqn:E; [by apply split_nonempty in E |].
  rewrite (app_removelast_last "" (l := p :: l)) by done. apply Forall_app. split; [done |]. constructor; [| done].
  rewrite split_prefix in Hl.
  - destruct (split nl y) as [|h t] eqn:Ey; [by apply split_nonempty in Ey |]. apply Forall_cons in Hl as [Hl _].
    unfold small, len in *. rewrite string_length_app in Hl. lia.
  - pose proof (split_pieces nl x) as Hp. rewrite E, Forall_forall in Hp. by apply Hp, last_in.
Qed.

(** The reader after part of a body: the complete lines are inspected, the rest kept. *)
Definition read_so_far (r0 : affinityBodyReader) (body : string) : affinityBodyReader :=
  set_line (verdict r0 (removelast (split nl body))) (List.last (split nl body) "").

Lemma verdict_format r lines : rd_format (verdict r lines) = rd_format r.
Proof.
  revert r. induction lines as [|l lines IH]; intros r; [done |]. cbn. fold (verdict (inspectLine event_done r l)).
  rewrite IH. by apply inspect_fields.
Qed.

Lemma observe_so_far r0 body chunk :
  Forall small (split nl (body +:+ chunk)) ->
  observe event_done (read_so_far r0 body) chunk = read_so_far r0 (body +:+ chunk).
Proof.
  intros Hs. unfold observe, read_so_far. cbn [set_line rd_line]. pose proof Hs as Hs'. rewrite split_append in Hs'.
  apply Forall_app in Hs' as [_ Hs'].
  rewrite observe_loop_split; cbn [set_line rd_line]; [| lia | done].
  rewrite (split_append nl body chunk). set (xs := removelast (split nl body)). set (z := List.last (split nl body) "" +:+ chunk).
  rewrite removelast_app by apply split_nonempty. rewrite (last_app_ne xs) by apply split_nonempty.
  rewrite !verdict_set_line. unfold verdict. by rewrite foldl_app.
Qed.

Definition feed (r : affinityBodyReader) (chunks : list string) : affinityBodyReader :=
  foldl (fun r ch => Read event_done r ch false) r chunks.

Definition new_reader (f : completionFormat) : affinityBodyReader := mkReader false f false false "".

Lemma Read_so_far r0 body chunk :
  rd_format r0 <> completionOnEOF -> Forall small (split nl (body +:+ chunk)) ->
  Read event_done (read_so_far r0 body) chunk false = read_so_far r0 (body +:+ chunk).
Proof.
  intros Hf Hs. unfold Read. assert (rd_format (read_so_far r0 body) = rd_format r0) as ->.
  { unfold read_so_far. cbn. apply verdict_format. }
  rewrite (bool_decide_false (rd_format r0 = _)) by done. destruct (decide (chunk = "")) as [-> | Hne].
  - rewrite bool_decide_true by done. cbn. by rewrite string_app_nil_r.
  - rewrite bool_decide_false by done. cbn [negb andb]. by apply observe_so_far.
Qed.

Lemma feed_so_far f chunks body :
  f <> completionOnEOF -> Forall small (split nl (body +:+ String.concat "" chunks)) ->
  feed (read_so_far (new_reader f) body) chunks = read_so_far (new_reader f) (body +:+ String.concat "" chunks).
Proof.
  intros Hf. revert body. induction chunks as [|ch chunks IH]; intros body Hs.
  { cbn. by rewrite string_app_nil_r. }
  rewrite concat_cons in Hs |- *. rewrite <- string_app_assoc in Hs |- *. cbn [feed foldl].
  rewrite Read_so_far; [by apply IH | done | by eapply small_prefix].
Qed.

Lemma Read_eof r ch :
  let r1 := Read event_done r ch false in
  rd_format r1 <> completionOnEOF ->
  rd_complete (Read event_done r ch true) =
    rd_done (inspectLine event_done r1 (rd_line r1)) && negb (rd_invalid (inspectLine event_done r1 (rd_line r1))).
Proof.
  intros r1 Hf. change (Read event_done r ch true) with
    (let r2 := if bool_decide (rd_format r1 = completionOnEOF) then r1 else inspectLine event_done r1 (rd_line r1) in
     mkReader (bool_decide (rd_format r2 = completionOnEOF) || (rd_done r2 && negb (rd_invalid r2)))
       (rd_format r2) (rd_done r2) (rd_invalid r2) (rd_line r2)).
  rewrite (bool_decide_eq_false_2 _ Hf). cbn zeta. destruct (inspect_fields r1 (rd_line r1)) as (Hfmt & _).
  cbn [rd_complete]. rewrite Hfmt, (bool_decide_eq_false_2 _ Hf). done.
Qed.

Definition non_blank (l : string) : bool := negb (bool_decide (l = "")).

(** Inspecting lines that are trimmed and not blank. *)
Definition settle (f : completionFormat) (st : bool * bool) (l : string) : bool * bool :=
  if st.1 then (true, true) else (is_done event_done f l, st.2).

Lemma verdict_settle r lines :
  let v := verdict r lines in
  (rd_done v, rd_invalid v) =
    foldl (settle (rd_format r)) (rd_done r, rd_invalid r) (List.filter non_blank (TrimSpace <$> lines)).
Proof.
  revert r. induction lines as [|l lines IH]; intros r; [done |]. cbn [verdict foldl fmap list_fmap List.filter].
  fold (verdict (inspectLine event_done r l)). cbv zeta in IH. rewrite IH.
  destruct (inspect_fields r l) as (-> & _ & _). unfold non_blank at 2, inspectLine.
  destruct (bool_decide (TrimSpace l = "")); [done |]. cbn [negb foldl]. unfold settle at 3. cbn [fst snd].
  by destruct (rd_done r).
Qed.

Lemma settle_invalid f ls : foldl (settle f) (true, true) ls = (true, true).
Proof. induction ls as [|l ls IH]; [done | exact IH]. Qed.

Lemma settle_spec f ls :
  let st := foldl (settle f) (false, false) ls in
  st.1 && negb st.2 = true <->
  exists xs l, ls = xs ++ [l] /\ is_done event_done f l = true /\ Forall (fun x => is_done event_done f x = false) xs.
Proof.
  induction ls as [|a ls IH]; cbn [foldl].
  { split; [done |]. by intros ([|? ?] & ? & ? & _). }
  unfold settle at 2 4. cbn [fst snd]. destruct (is_done event_done f a) eqn:Ea.
  - destruct ls as [|b ls]; cbn [foldl].
    + split; [| done]. intros _. exists [], a. by split_and!.
    + unfold settle at 2 4. cbn [fst snd]. rewrite settle_invalid. split; [done |].
      intros ([|x xs] & l & Hl & _ & Hx); [done |]. injection Hl as <- _. apply Forall_cons in Hx as [Hx _]. congruence.
  - cbv zeta in IH. rewrite IH. split.
    + intros (xs & l & -> & Hl & Hx). exists (a :: xs), l. split_and!; [done | done | by constructor].
    + intros ([|x xs] & l & Hl & Hd & Hx).
      * injection Hl as -> ->. congruence.
      * injection Hl as <- ->. apply Forall_cons in Hx as [_ Hx]. eauto.
Qed.

(** Completion does not depend on how the stream is cut.  Reading a body of lines
    of at most 64 KiB in any pieces up to EOF, the reader reports it complete exactly
    when its last non-blank line is the terminator and no earlier line was; a format
    without a terminator is complete at EOF. *)
Theorem completion_spec (f : completionFormat) (chunks : list string) (last_chunk : string) :
  let body := String.concat "" chunks +:+ last_chunk in
  Forall small (split nl body) ->
  rd_complete (Read event_done (feed (new_reader f) chunks) last_chunk true) = true <->
  f = completionOnEOF \/
  exists xs l, List.filter non_blank (TrimSpace <$> split nl body) = xs ++ [l] /\ is_done event_done f l = true /\
    Forall (fun x => is_done event_done f x = false) xs.
Proof.
  intros body Hs. destruct (decide (f = completionOnEOF)) as [-> | Hf].
  { split; [by left |]. intros _. assert (forall r ch, rd_format r = completionOnEOF ->
      rd_format (Read event_done r ch false) = completionOnEOF) as Hr.
    { intros [c fmt d iv l] ch Hr. cbn in Hr. subst fmt. unfold Read. cbn. by destruct (bool_decide (ch = "")). }
    assert (rd_format (feed (new_reader completionOnEOF) chunks) = completionOnEOF) as Hfeed.
    { assert (forall chs r, rd_format r = completionOnEOF -> rd_format (feed r chs) = completionOnEOF) as Hall.
      { induction chs as [|ch chs IH]; [done |]. intros r Hr0. cbn. by apply IH, Hr. }
      by apply Hall. }
    revert Hfeed. generalize (feed (new_reader completionOnEOF) chunks). intros [c fmt d iv l] Hfmt. cbn in Hfmt.
    subst fmt. unfold Read. cbn. by destruct (bool_decide (last_chunk = "")). }
  pose proof (feed_so_far f chunks "" Hf) as Hfeed. change ("" +:+ String.concat "" chunks) with (String.concat "" chunks) in Hfeed.
  specialize (Hfeed (small_prefix _ _ Hs)). change (read_so_far (new_reader f) "") with (new_reader f) in Hfeed.
  rewrite Hfeed. pose proof (Read_so_far (new_reader f) _ last_chunk Hf Hs) as Hlast. fold body in Hlast.
  assert (rd_format (read_so_far (new_reader f) body) = f) as Hfmt by (unfold read_so_far; cbn; by rewrite verdict_format).
  rewrite Read_eof by (rewrite Hlast; congruence). rewrite Hlast. clear Hlast Hfeed Hfmt.
  assert (rd_line (read_so_far (new_reader f) body) = List.last (split nl body) "") as -> by done.
  unfold read_so_far. rewrite inspect_set_line. cbn [set_line rd_done rd_invalid].
  set (xs := removelast (split nl body)). set (z := List.last (split nl body) "").
  assert (inspectLine event_done (verdict (new_reader f) xs) z = verdict (new_reader f) (split nl body)) as ->.
  { rewrite (app_removelast_last "" (split_nonempty nl body)). unfold verdict. rewrite foldl_app. done. }
  pose proof (verdict_settle (new_reader f) (split nl body)) as Hv. cbv zeta in Hv. cbn [new_reader rd_done rd_invalid rd_format] in Hv.
  pose proof (settle_spec f (List.filter non_blank (TrimSpace <$> split nl body))) as Hsp. cbv zeta in Hsp.
  change (mkReader false f false false "") with (new_reader f) in Hv. rewrite <- Hv in Hsp. cbn [fst snd] in Hsp.
  rewrite Hsp. split; [by right |]. intros [? | ?]; done.
Qed.
End ReaderFacts.

(** * Witnesses *)

Lemma transcript_injective_witness :
  transcript (repeat Byte.x00 32) ["hi"; "yo"] = transcript (repeat Byte.x00 32) ["hi"; "yo"] /\
  repeat Byte.x00 32 = repeat Byte.x00 32 /\ ["hi"; "yo"] = ["hi"; "yo"].
Proof.
  split; [done |].
  apply (transcript_injective (repeat Byte.x00 32) (repeat Byte.x00 32) ["hi"; "yo"] ["hi"; "yo"]); try done.
  all: repeat constructor.
Defined.

(** Stand-ins for the encoder and the hash. *)
Definition ex_canonical (v : json) : string :=
  match v with JObj (("role", JStr r) :: ("content", JStr c) :: _) => r +:+ ":" +:+ c | _ => "" end.
Definition ex_hash (s : string) : Digest := Byte.x01 :: String.list_byte_of_string s.
Definition ex_message (role text : string) : json := JObj [("role", JStr role); ("content", JStr text)].
Definition ex_body (temperature : Z) (ms : list json) : option json :=
  Some (JObj [("model", JStr "m"); ("messages", JArr ms); ("temperature", JInt temperature)]).
Definition ex_first : list json := [ex_message "user" "q"].
Definition ex_more : list json := [ex_message "assistant" "a"; ex_message "user" "r"].
Definition ex_fields (temperature : Z) (ms : list json) : gmap string json :=
  default ∅ (fields_of (ex_body temperature ms)).

Lemma ex_chat_request temperature ms :
  ms <> [] -> Forall valid_message ms -> chat_request "/api/chat" (ex_fields temperature ms) "m" ms.
Proof.
  intros Hne Hv. unfold chat_request, ex_fields, ex_body. cbn [fields_of default foldl fst snd].
  split_and!; try done. repeat constructor.
Qed.

Lemma follow_up_prefixes_witness :
  let c := Extract ex_canonical (fun _ => None) ex_hash "POST" "/api/chat" (ex_body 0 ex_first) in
  let c' := Extract ex_canonical (fun _ => None) ex_hash "POST" "/api/chat" (ex_body 1 (ex_first ++ ex_more)) in
  exists longer, cx_Prefixes c' = longer ++ cx_Full c :: cx_Prefixes c /\
    S (length longer) = 2%nat /\ cx_Model c' = cx_Model c.
Proof.
  apply (follow_up_prefixes ex_canonical (fun _ => None) ex_hash "/api/chat" (ex_body 0 ex_first)
           (ex_body 1 (ex_first ++ ex_more)) (ex_fields 0 ex_first) (ex_fields 1 (ex_first ++ ex_more)) "m" ex_first ex_more).
  - reflexivity.
  - reflexivity.
  - apply ex_chat_request; [discriminate |]. repeat constructor; by eexists.
  - apply ex_chat_request; [discriminate |]. repeat constructor; by eexists.
  - discriminate.
  - intros k Hk. unfold ex_fields, ex_body. cbn [fields_of default foldl fst snd].
    assert (k <> "model" /\ k <> "messages" /\ k <> "temperature") as (? & ? & ?).
    { split_and!; intros ->; apply Hk; unfold ignored_fields; repeat constructor. }
    unfold id. by rewrite !lookup_insert_ne by congruence.
Defined.

Lemma warm_follow_up_witness :
  let c := mkContext "m" [] ex_digest in
  let c' := mkContext "m" [ex_digest2; ex_digest] (repeat Byte.x03 32) in
  let o := mkOutcome 200 "" false true false true "node-a" in
  let t := NewPrefixRoutingTable 2 100 in
  (affinityNode (remember t "m" ex_digest o 10) c' (fun i => 20 + Z.of_nat (i `mod` 2))).2 = "node-a".
Proof.
  intros c c' o t.
  assert (Forall (fun d => d <> cx_Full c /\ mkRouteKey (cx_Model c) d ∉ e_key <$> recency t) [ex_digest2]) as Hl.
  { constructor; [| done]. split; [discriminate | apply not_elem_of_nil]. }
  assert (forall i, 10 <= 20 + Z.of_nat (i `mod` 2) /\ 20 + Z.of_nat (i `mod` 2) - 10 < pt_ttl t) as Ht.
  { intros i. pose proof (Nat.mod_upper_bound i 2). change (pt_ttl t) with 100. lia. }
  destruct (warm_follow_up t 0 10 o c c' [ex_digest2] [] (fun i => 20 + Z.of_nat (i `mod` 2)) (new_table_ok 2 100 0)
              ltac:(lia) ltac:(discriminate) ltac:(discriminate) eq_refl eq_refl Hl Ht) as [H _].
  apply H. by split_and!.
Defined.

Lemma completion_spec_witness :
  let body := ("data: x" +:+ String nl "") +:+ "data: [DONE]" in
  rd_complete (Read (fun _ => false) (feed (fun _ => false) (new_reader completionSSE) ["data: x" +:+ String nl ""])
                 "data: [DONE]" true) = true.
Proof.
  intros body. apply (completion_spec (fun _ => false) completionSSE ["data: x" +:+ String nl ""] "data: [DONE]").
  - repeat constructor; discriminate.
  - right. exists ["data: x"], "data: [DONE]". split_and!; [reflexivity | reflexivity | by repeat constructor].
Defined.
