(* ===== verification/Dedup.v ===== *)
(** The workload manager's dedup index (services/nvpair-workload-manager/dedup.go): the
    bounded LRU of successfully emitted keys and the protocol by which concurrent
    requests for one key wait for the request that is emitting it. *)
From S2P Require Import Prelude.
From S2P Require Import GoStd.
From S2P Require Import GoList.

Open Scope string_scope.
Open Scope list_scope.
Open Scope Z_scope.

(** * Data *)

Definition defaultDedupCapacity : Z := 10000.

(** A channel is a number; [dx_next] is the next one, [dx_closed] the closed ones. *)
Record dedupIndex : Type := mkDedup {
  dx_capacity : Z;
  dx_ll : glist string;
  dx_items : gmap string nat;
  dx_inFlight : gmap string nat;
  dx_next : nat;
  dx_closed : gset nat
}.

Definition newDedupIndex (capacity : Z) : dedupIndex :=
  mkDedup (if capacity <=? 0 then defaultDedupCapacity else capacity) empty_list ∅ ∅ 0 ∅.

Definition set_ll (d : dedupIndex) (l : glist string) (m : gmap string nat) : dedupIndex :=
  mkDedup (dx_capacity d) l m (dx_inFlight d) (dx_next d) (dx_closed d).

(** [addLocked] *)
Definition addLocked (d : dedupIndex) (key : string) : dedupIndex :=
  let '(l, el) := PushFront (dx_ll d) key in
  let m := <[key := el]> (dx_items d) in
  if dx_capacity d <? Z.of_nat (ListLen l) then
    match Back l with
    | None => set_ll d l m
    | Some oldest =>
        match Value l oldest with
        | None => set_ll d l m
        | Some k => set_ll d (RemoveElt l oldest) (delete k m)
        end
    end
  else set_ll d l m.

(** The first critical section of [emitOnce]: a duplicate, a channel to wait on, or
    the right to emit with a fresh channel. *)
Inductive entry_ : Type := EDuplicate | EWait (done : nat) | EEmit (done : nat).

Definition enter (d : dedupIndex) (key : string) : dedupIndex * entry_ :=
  match dx_items d !! key with
  | Some el => (set_ll d (MoveToFront (dx_ll d) el) (dx_items d), EDuplicate)
  | None =>
      match dx_inFlight d !! key with
      | Some done => (d, EWait done)
      | None =>
          let done := dx_next d in
          (mkDedup (dx_capacity d) (dx_ll d) (dx_items d) (<[key := done]> (dx_inFlight d)) (S done) (dx_closed d),
           EEmit done)
      end
  end.

(** How the broker emit ended. *)
Inductive emit_result : Type := EmitOK | EmitError | EmitPanic.

(** The deferred critical section after the emit. *)
Definition leave (d : dedupIndex) (key : string) (done : nat) (r : emit_result) : dedupIndex :=
  let d := match r with EmitOK => addLocked d key | _ => d end in
  mkDedup (dx_capacity d) (dx_ll d) (dx_items d) (delete key (dx_inFlight d)) (dx_next d) ({[ done ]} ∪ dx_closed d).

(** * Requests *)

Inductive phase : Type :=
| PStart
| PWaiting (done : nat)
| PEmitting (done : nat)
| PDone (duplicate : bool) (r : emit_result).

(** The history of a key: recorded after its successful emit, or seen again. *)
Inductive access : Type := ARecorded (key : string) | ADuplicate (key : string).
Definition akey (a : access) : string := match a with ARecorded k | ADuplicate k => k end.

Record sys : Type := mkSys {
  sy_index : dedupIndex;
  sy_threads : gmap nat (string * phase);
  sy_trace : list access
}.

(** One request takes one critical section at a time; the broker emit itself lies
    between [step_enter] and [step_leave]. *)
Inductive step : sys -> sys -> Prop :=
| step_arrive t key s :
    sy_threads s !! t = None ->
    step s (mkSys (sy_index s) (<[t := (key, PStart)]> (sy_threads s)) (sy_trace s))
| step_enter t key s d e :
    sy_threads s !! t = Some (key, PStart) -> enter (sy_index s) key = (d, e) ->
    step s (mkSys d (<[t := (key, match e with
                                  | EDuplicate => PDone true EmitOK
                                  | EWait done => PWaiting done
                                  | EEmit done => PEmitting done
                                  end)]> (sy_threads s))
              (match e with EDuplicate => sy_trace s ++ [ADuplicate key] | _ => sy_trace s end))
| step_wake t key done s :
    sy_threads s !! t = Some (key, PWaiting done) -> done ∈ dx_closed (sy_index s) ->
    step s (mkSys (sy_index s) (<[t := (key, PStart)]> (sy_threads s)) (sy_trace s))
| step_leave t key done r s :
    sy_threads s !! t = Some (key, PEmitting done) ->
    step s (mkSys (leave (sy_index s) key done r) (<[t := (key, PDone false r)]> (sy_threads s))
              (match r with EmitOK => sy_trace s ++ [ARecorded key] | _ => sy_trace s end)).

Definition start (capacity : Z) : sys := mkSys (newDedupIndex capacity) ∅ [].

Inductive reachable (capacity : Z) : sys -> Prop :=
| reach_start : reachable capacity (start capacity)
| reach_step s s' : reachable capacity s -> step s s' -> reachable capacity s'.

(** * Dedup keys *)

Definition nul : ascii := "000".

Definition keyLifecycle (origin engine runID id state : string) : string :=
  join nul ["wl"; origin; engine; runID; id; state].

Definition keyRemove (nodeID workloadID : string) : string := join nul ["rm"; nodeID; workloadID].

(** * Facts: the index *)

Definition index_keys (d : dedupIndex) : list string := values (dx_ll d).
Definition same_key (k : string) : string := k.

Record index_ok (d : dedupIndex) : Prop := {
  ix_linked : linked same_key (dx_items d) (dx_ll d);
  ix_cap : 0 < dx_capacity d;
  ix_len : Z.of_nat (length (index_keys d)) <= dx_capacity d
}.

Lemma index_items d k : index_ok d -> is_Some (dx_items d !! k) <-> k ∈ index_keys d.
Proof. intros Hd. rewrite (entries_dom same_key _ _ k (ix_linked d Hd)). unfold same_key. by rewrite list_fmap_id. Qed.

Lemma index_NoDup d : index_ok d -> NoDup (index_keys d).
Proof. intros Hd. pose proof (keys_NoDup same_key _ _ (ix_linked d Hd)) as H. by rewrite list_fmap_id in H. Qed.

Lemma new_index_ok capacity : index_ok (newDedupIndex capacity).
Proof.
  split; cbn.
  - apply linked_empty.
  - unfold defaultDedupCapacity. destruct (Z.leb_spec capacity 0); lia.
  - unfold defaultDedupCapacity. destruct (Z.leb_spec capacity 0); lia.
Qed.

(** A duplicate moves its key to the front. *)
Lemma touch_index d k el :
  index_ok d -> dx_items d !! k = Some el ->
  let d' := set_ll d (MoveToFront (dx_ll d) el) (dx_items d) in
  index_ok d' /\ index_keys d' = k :: List.filter (fun x => negb (bool_decide (x = k))) (index_keys d).
Proof.
  intros Hd Hk d'. destruct (entries_Value same_key _ _ k el (ix_linked d Hd) Hk) as (v & Hv & Hin & Hvk).
  unfold same_key in Hvk. subst v.
  destruct (linked_touch same_key _ _ k el k (ix_linked d Hd) Hk eq_refl) as [Hl Hr].
  rewrite <- (touch_move same_key _ _ k el k (ix_linked d Hd) Hk Hin) in Hl, Hr.
  split; [| exact Hr]. split; [exact Hl | apply Hd |]. unfold index_keys. cbn. rewrite Hr. cbn [length].
  pose proof (find_values same_key _ _ k el k (ix_linked d Hd) Hk Hin) as Hf.
  pose proof (find_filter_lt same_key k k _ Hf). pose proof (ix_len d Hd). unfold index_keys in *.
  change (List.filter (other_key same_key k) (values (dx_ll d))) with
    (List.filter (fun x => negb (bool_decide (x = k))) (values (dx_ll d))) in *. lia.
Qed.

(** Recording a new key drops the least recently seen one past capacity. *)
Lemma addLocked_index d k :
  index_ok d -> dx_items d !! k = None ->
  let d' := addLocked d k in
  index_ok d' /\ index_keys d' = take (Z.to_nat (dx_capacity d)) (k :: index_keys d) /\
  dx_capacity d' = dx_capacity d /\ dx_inFlight d' = dx_inFlight d /\ dx_next d' = dx_next d /\
  dx_closed d' = dx_closed d.
Proof.
  intros Hd Hk. pose proof (linked_push same_key _ _ k k (ix_linked d Hd) Hk eq_refl) as Hl.
  pose proof (ix_cap d Hd) as Hc. pose proof (ix_len d Hd) as Hlen. unfold addLocked.
  assert (values (PushFront (dx_ll d) k).1 = k :: index_keys d) as Hv by done.
  destruct (PushFront (dx_ll d) k) as [l el]. cbn [fst snd] in *.
  assert (ListLen l = S (length (index_keys d))) as Hll.
  { unfold ListLen. transitivity (length (values l)); [unfold values; by rewrite length_fmap | by rewrite Hv]. }
  rewrite Hll. destruct (Z.ltb_spec (dx_capacity d) (Z.of_nat (S (length (index_keys d))))).
  - assert (exists xs v, values l = xs ++ [v]) as (xs & v & Hxv).
    { rewrite Hv. destruct (k :: index_keys d) as [|v xs _] eqn:E using rev_ind; [done | eauto]. }
    destruct (back_value same_key _ _ xs v Hl Hxv) as (e & -> & Hval & Hrm). rewrite Hval.
    destruct (linked_remove same_key _ _ e v Hl Hval) as (Hl' & _ & _).
    assert (index_keys (set_ll d (RemoveElt l e) (delete v (<[k := el]> (dx_items d)))) =
            take (Z.to_nat (dx_capacity d)) (k :: index_keys d)) as Hkeys.
    { unfold index_keys at 1. cbn [set_ll dx_ll]. rewrite Hrm. rewrite <- Hv, Hxv.
      assert (Z.to_nat (dx_capacity d) = length xs) as ->; [| by rewrite take_app_length].
      assert (length (values l) = S (length (index_keys d))) as E by (by rewrite Hv).
      rewrite Hxv, length_app in E. cbn in E. lia. }
    split; [| done]. split; [exact Hl' | done |]. rewrite Hkeys, length_take. cbn [set_ll dx_capacity length]. lia.
  - assert (index_keys (set_ll d l (<[k := el]> (dx_items d))) = take (Z.to_nat (dx_capacity d)) (k :: index_keys d)) as Hkeys.
    { unfold index_keys at 1. cbn [set_ll dx_ll]. rewrite Hv, take_ge; [done | cbn; lia]. }
    split; [| done]. split; [exact Hl | done |]. rewrite Hkeys, length_take. cbn [set_ll dx_capacity length]. lia.
Qed.

(** * Facts: the requests *)

Definition trace_keys (tr : list access) : gset string := list_to_set (akey <$> tr).

(** Since its last access, a key is still held behind keys accessed later, or a full
    capacity of other keys was accessed. *)
Definition recent (d : dedupIndex) (tr : list access) : Prop :=
  forall tr1 a tr2, tr = tr1 ++ a :: tr2 -> akey a ∉ akey <$> tr2 ->
    (exists xs ys, index_keys d = xs ++ akey a :: ys /\ forall x, x ∈ xs -> x ∈ akey <$> tr2) \/
    dx_capacity d <= Z.of_nat (size (trace_keys tr2)).

Lemma size_trace_snoc tr a : (size (trace_keys tr) <= size (trace_keys (tr ++ [a])))%nat.
Proof. apply subseteq_size. unfold trace_keys. rewrite fmap_app, list_to_set_app. set_solver. Qed.

Lemma recent_duplicate d d' tr k :
  index_keys d' = k :: List.filter (fun x => negb (bool_decide (x = k))) (index_keys d) ->
  dx_capacity d' = dx_capacity d -> recent d tr -> recent d' (tr ++ [ADuplicate k]).
Proof.
  intros Hk Hc Hr tr1 a tr2 Htr Ha. destruct tr2 as [|y tr2 _] using rev_ind.
  { apply app_inj_tail in Htr as [_ <-]. left. rewrite Hk. exists [], (List.filter (fun x => negb (bool_decide (x = k))) (index_keys d)).
    split; [done |]. by intros x ?%not_elem_of_nil. }
  rewrite app_comm_cons, app_assoc in Htr. apply app_inj_tail in Htr as [-> <-].
  rewrite fmap_app in Ha. apply not_elem_of_app in Ha as [Ha Hne]. cbn in Hne. apply not_elem_of_cons in Hne as [Hne _].
  destruct (Hr tr1 a tr2 eq_refl Ha) as [(xs & ys & Hxs & Hin) | Hsize].
  - left. rewrite Hk, Hxs, List.filter_app. cbn. rewrite (bool_decide_false (akey a = k)) by done. cbn [negb].
    eexists (k :: _), _. split; [reflexivity |]. intros x. rewrite fmap_app, elem_of_app.
    intros [-> | [Hx _]%elem_of_bfilter]%elem_of_cons; [right; constructor | left; by apply Hin].
  - right. rewrite Hc. pose proof (size_trace_snoc tr2 (ADuplicate k)). lia.
Qed.

Lemma recent_record d d' tr k :
  NoDup (index_keys d) -> k ∉ index_keys d -> 0 < dx_capacity d ->
  index_keys d' = take (Z.to_nat (dx_capacity d)) (k :: index_keys d) ->
  dx_capacity d' = dx_capacity d -> recent d tr -> recent d' (tr ++ [ARecorded k]).
Proof.
  intros Hnd Hni Hpos Hk Hc Hr tr1 a tr2 Htr Ha.
  assert (exists n, Z.to_nat (dx_capacity d) = S n) as [n Hn] by (exists (Z.to_nat (dx_capacity d - 1)); lia).
  rewrite Hn in Hk. cbn [take] in Hk. destruct tr2 as [|y tr2 _] using rev_ind.
  { apply app_inj_tail in Htr as [_ <-]. left. rewrite Hk. exists [], (take n (index_keys d)).
    split; [done |]. by intros x ?%not_elem_of_nil. }
  rewrite app_comm_cons, app_assoc in Htr. apply app_inj_tail in Htr as [-> <-].
  rewrite fmap_app in Ha. apply not_elem_of_app in Ha as [Ha Hne]. cbn in Hne. apply not_elem_of_cons in Hne as [Hne _].
  destruct (Hr tr1 a tr2 eq_refl Ha) as [(xs & ys & Hxs & Hin) | Hsize].
  2: { right. rewrite Hc. pose proof (size_trace_snoc tr2 (ARecorded k)). lia. }
  assert (forall x, x ∈ k :: xs -> x ∈ akey <$> tr2 ++ [ARecorded k]) as Hin'.
  { intros x. rewrite fmap_app, elem_of_app. intros [-> | Hx]%elem_of_cons; [right; constructor | left; by apply Hin]. }
  destruct (Nat.lt_ge_cases (length xs) n) as [Hlt | Hge].
  - left. exists (k :: xs), (take (n - S (length xs)) ys). split; [| done]. rewrite Hk, Hxs, take_app_ge by lia.
    cbn [app]. do 2 f_equal. destruct (n - length xs)%nat as [|j] eqn:Ej; [lia |]. cbn. f_equal. f_equal. lia.
  - right. rewrite Hc. assert (length (k :: xs) <= size (trace_keys (tr2 ++ [ARecorded k])))%nat; [| cbn in *; lia].
    assert (NoDup (k :: xs)) as Hnd'.
    { rewrite Hxs in Hnd, Hni. constructor; [set_solver |]. by apply NoDup_app in Hnd as [? _]. }
    rewrite <- (size_list_to_set (C := gset string)) by done. apply subseteq_size. intros x.
    unfold trace_keys. rewrite !elem_of_list_to_set. apply Hin'.
Qed.

Record sys_ok (capacity : Z) (s : sys) : Prop := {
  ok_index : index_ok (sy_index s);
  ok_cap : dx_capacity (sy_index s) = dx_capacity (newDedupIndex capacity);
  ok_owner : forall k c, dx_inFlight (sy_index s) !! k = Some c <-> exists t, sy_threads s !! t = Some (k, PEmitting c);
  ok_single : forall t t' k c c', sy_threads s !! t = Some (k, PEmitting c) ->
    sy_threads s !! t' = Some (k, PEmitting c') -> t = t';
  ok_absent : forall k c, dx_inFlight (sy_index s) !! k = Some c -> dx_items (sy_index s) !! k = None;
  ok_chan : forall k c, dx_inFlight (sy_index s) !! k = Some c -> (c < dx_next (sy_index s))%nat /\ c ∉ dx_closed (sy_index s);
  ok_closed : forall c, c ∈ dx_closed (sy_index s) -> (c < dx_next (sy_index s))%nat;
  ok_distinct : forall k k' c, dx_inFlight (sy_index s) !! k = Some c -> dx_inFlight (sy_index s) !! k' = Some c -> k = k';
  ok_wait : forall t k c, sy_threads s !! t = Some (k, PWaiting c) ->
    c ∈ dx_closed (sy_index s) \/ dx_inFlight (sy_index s) !! k = Some c;
  ok_recent : recent (sy_index s) (sy_trace s)
}.

(** A thread that changes phase without emitting leaves the owners alone. *)
Lemma owners_other (m : gmap nat (string * phase)) t k p p0 k' c :
  m !! t = p0 -> (forall c, p0 <> Some (k', PEmitting c)) -> (forall c, p <> PEmitting c) ->
  (exists t', <[t := (k, p)]> m !! t' = Some (k', PEmitting c)) <-> (exists t', m !! t' = Some (k', PEmitting c)).
Proof.
  intros Ht Hp0 Hp. split; intros [t' H]; exists t'.
  - apply lookup_insert_Some in H as [[_ H] | [_ H]]; [| done]. injection H as _ H. by destruct (Hp c).
  - rewrite lookup_insert_ne; [done |]. intros <-. rewrite H in Ht. by destruct (Hp0 c).
Qed.

Lemma ok_phase capacity s t key p :
  sys_ok capacity s -> (forall k c, sy_threads s !! t <> Some (k, PEmitting c)) -> (forall c, p <> PEmitting c) ->
  (forall c, p = PWaiting c -> c ∈ dx_closed (sy_index s) \/ dx_inFlight (sy_index s) !! key = Some c) ->
  sys_ok capacity (mkSys (sy_index s) (<[t := (key, p)]> (sy_threads s)) (sy_trace s)).
Proof.
  intros Hok Hnot Hp Hw. split; cbn [sy_index sy_threads sy_trace]; try apply Hok.
  - intros k c. rewrite (ok_owner _ _ Hok). symmetry. eapply owners_other; [done | intros c'; apply Hnot | done].
  - intros t1 t2 k c c' H1 H2. apply lookup_insert_Some in H1 as [[_ H1] | [_ H1]]; [by injection H1 as _ H1; destruct (Hp c) |].
    apply lookup_insert_Some in H2 as [[_ H2] | [_ H2]]; [by injection H2 as _ H2; destruct (Hp c') |].
    by eapply (ok_single _ _ Hok).
  - intros t1 k c H1. apply lookup_insert_Some in H1 as [[_ H1] | [_ H1]]; [injection H1 as -> ->; by apply Hw |].
    by eapply (ok_wait _ _ Hok).
Qed.

Lemma ok_duplicate capacity s k el :
  sys_ok capacity s -> dx_items (sy_index s) !! k = Some el ->
  sys_ok capacity (mkSys (set_ll (sy_index s) (MoveToFront (dx_ll (sy_index s)) el) (dx_items (sy_index s)))
                     (sy_threads s) (sy_trace s ++ [ADuplicate k])).
Proof.
  intros Hok Hk. destruct (touch_index _ k el (ok_index _ _ Hok) Hk) as [Hi Hkeys].
  split; cbn [sy_index sy_threads sy_trace]; try apply Hok; [done |].
  eapply recent_duplicate; [exact Hkeys | done | apply Hok].
Qed.

Lemma ok_claim capacity s t k :
  sys_ok capacity s -> (forall k c, sy_threads s !! t <> Some (k, PEmitting c)) ->
  dx_items (sy_index s) !! k = None -> dx_inFlight (sy_index s) !! k = None ->
  let d := sy_index s in
  let d' := mkDedup (dx_capacity d) (dx_ll d) (dx_items d) (<[k := dx_next d]> (dx_inFlight d)) (S (dx_next d)) (dx_closed d) in
  sys_ok capacity (mkSys d' (<[t := (k, PEmitting (dx_next d))]> (sy_threads s)) (sy_trace s)).
Proof.
  intros Hok Hnot Hi Hf. cbv zeta.
  assert (forall t' k' c, sy_threads s !! t' = Some (k', PEmitting c) -> k' <> k) as Hne.
  { intros t' k' c H ->. assert (dx_inFlight (sy_index s) !! k = Some c) by (apply (ok_owner _ _ Hok); eauto). congruence. }
  split; cbn [sy_index sy_threads sy_trace dx_inFlight dx_items dx_next dx_closed dx_capacity]; try apply Hok.
  - destruct (ok_index _ _ Hok) as [H1 H2 H3]. by split.
  - intros k' c. rewrite lookup_insert_Some, (ok_owner _ _ Hok). split.
    + intros [[<- <-] | [Hk [t' Ht']]]; [exists t; apply lookup_insert_eq |]. exists t'.
      rewrite lookup_insert_ne; [done |]. intros <-. by destruct (Hnot k' c).
    + intros [t' Ht']. apply lookup_insert_Some in Ht' as [[_ [= <- <-]] | [Hn Ht']]; [by left |]. right.
      split; [| eauto]. symmetry. by eapply Hne.
  - intros t1 t2 k' c c' H1 H2. apply lookup_insert_Some in H1 as [[<- [= <- <-]] | [Hn H1]].
    + apply lookup_insert_Some in H2 as [[<- _] | [_ H2]]; [done |]. by destruct (Hne _ _ _ H2).
    + apply lookup_insert_Some in H2 as [[<- [= <- <-]] | [_ H2]]; [by destruct (Hne _ _ _ H1) |].
      by eapply (ok_single _ _ Hok).
  - intros k' c [[<- <-] | [_ H]]%lookup_insert_Some; [done | by eapply (ok_absent _ _ Hok)].
  - intros k' c [[<- <-] | [_ H]]%lookup_insert_Some.
    + split; [lia |]. intros Hc%(ok_closed _ _ Hok).  lia.
    + destruct (ok_chan _ _ Hok _ _ H) as [? ?].  split; [lia | done].
  - intros c Hc%(ok_closed _ _ Hok).  lia.
  - intros k1 k2 c [[<- <-] | [_ H1]]%lookup_insert_Some [[<- H2'] | [_ H2]]%lookup_insert_Some.
    + done.
    + destruct (ok_chan _ _ Hok _ _ H2).  lia.
    + subst c. destruct (ok_chan _ _ Hok _ _ H1).  lia.
    + by eapply (ok_distinct _ _ Hok).
  - intros t' k' c H. apply lookup_insert_Some in H as [[_ H] | [Hn H]]; [done |].
    destruct (ok_wait _ _ Hok _ _ _ H) as [Hc | Hc]; [by left | right].
    rewrite lookup_insert_ne; [done |]. intros <-. congruence.
Qed.

Lemma leave_fields d k c r :
  dx_inFlight d !! k = Some c -> index_ok d -> dx_items d !! k = None ->
  index_ok (leave d k c r) /\ dx_capacity (leave d k c r) = dx_capacity d /\
  dx_inFlight (leave d k c r) = delete k (dx_inFlight d) /\ dx_next (leave d k c r) = dx_next d /\
  dx_closed (leave d k c r) = {[ c ]} ∪ dx_closed d /\
  index_keys (leave d k c r) =
    match r with EmitOK => take (Z.to_nat (dx_capacity d)) (k :: index_keys d) | _ => index_keys d end.
Proof.
  intros Hf Hi Hk. destruct (addLocked_index d k Hi Hk) as (Hi' & Hkeys & Hcap & Hfl & Hn & Hc).
  destruct r; unfold leave; cbn [dx_capacity dx_inFlight dx_next dx_closed dx_ll dx_items].
  - rewrite Hcap, Hfl, Hn, Hc. split_and!; try done. destruct Hi' as [H1 H2 H3]. rewrite Hcap in H2, H3. by split.
  - split_and!; try done. destruct Hi as [H1 H2 H3]. by split.
  - split_and!; try done. destruct Hi as [H1 H2 H3]. by split.
Qed.

Lemma leave_items d k c r k' :
  index_ok d -> dx_inFlight d !! k = Some c -> dx_items d !! k = None -> k' <> k ->
  dx_items d !! k' = None -> dx_items (leave d k c r) !! k' = None.
Proof.
  intros Hi Hf Hk Hne Hk'. destruct (leave_fields d k c r Hf Hi Hk) as (Hi' & _ & _ & _ & _ & Hkeys).
  apply eq_None_not_Some. intros Hs%(index_items _ _ Hi'). rewrite Hkeys in Hs.
  assert (k' ∉ index_keys d) as Hn by (intros Hin%(index_items _ _ Hi); rewrite Hk' in Hin; by destruct Hin).
  destruct r; [| done | done]. eapply subseteq_take in Hs. apply elem_of_cons in Hs as [? | ?]; done.
Qed.

Lemma ok_leave capacity s t k c r :
  sys_ok capacity s -> sy_threads s !! t = Some (k, PEmitting c) ->
  sys_ok capacity (mkSys (leave (sy_index s) k c r) (<[t := (k, PDone false r)]> (sy_threads s))
                     (match r with EmitOK => sy_trace s ++ [ARecorded k] | _ => sy_trace s end)).
Proof.
  intros Hok Ht. assert (dx_inFlight (sy_index s) !! k = Some c) as Hf by (apply (ok_owner _ _ Hok); eauto).
  pose proof (ok_absent _ _ Hok _ _ Hf) as Hk. pose proof (ok_index _ _ Hok) as Hi.
  destruct (leave_fields (sy_index s) k c r Hf Hi Hk) as (Hi' & Hcap & Hfl & Hnx & Hcl & Hkeys).
  split; cbn [sy_index sy_threads sy_trace]; rewrite ?Hfl, ?Hnx, ?Hcl, ?Hcap; try done; try apply Hok.
  - intros k' c'. rewrite lookup_delete_Some, (ok_owner _ _ Hok). split.
    + intros [Hne [t' Ht']]. exists t'. rewrite lookup_insert_ne; [done |]. intros <-. congruence.
    + intros [t' Ht']. apply lookup_insert_Some in Ht' as [[_ H] | [Hn Ht']]; [done |]. split; [| eauto].
      intros <-. by eapply Hn, (ok_single _ _ Hok).
  - intros t1 t2 k' c1 c2 H1 H2. apply lookup_insert_Some in H1 as [[_ H1] | [_ H1]]; [done |].
    apply lookup_insert_Some in H2 as [[_ H2] | [_ H2]]; [done |]. by eapply (ok_single _ _ Hok).
  - intros k' c' [Hne H]%lookup_delete_Some. apply leave_items; try done. by eapply (ok_absent _ _ Hok).
  - intros k' c' [Hne H]%lookup_delete_Some. destruct (ok_chan _ _ Hok _ _ H) as [? Hn]. split; [done |].
    rewrite elem_of_union, elem_of_singleton. intros [-> | ?]; [| done]. by eapply Hne, (ok_distinct _ _ Hok).
  - intros c' [->%elem_of_singleton | H]%elem_of_union; [by apply (ok_chan _ _ Hok k) | by apply (ok_closed _ _ Hok)].
  - intros k1 k2 c' [_ H1]%lookup_delete_Some [_ H2]%lookup_delete_Some. by eapply (ok_distinct _ _ Hok).
  - intros t' k' c' H. apply lookup_insert_Some in H as [[_ H] | [Hn H]]; [done |].
    rewrite elem_of_union, elem_of_singleton, lookup_delete_Some.
    destruct (ok_wait _ _ Hok _ _ _ H) as [Hc | Hc]; [by left; right |].
    destruct (decide (k = k')) as [<- | Hne]; [left; left; congruence | by right].
  - destruct r; [| intros tr1 a tr2; rewrite Hkeys, Hcap; apply (ok_recent _ _ Hok)
                 | intros tr1 a tr2; rewrite Hkeys, Hcap; apply (ok_recent _ _ Hok)].
    apply (recent_record (sy_index s)); try done; [by apply index_NoDup | | apply Hi | apply Hok].
    intros Hin%(index_items _ _ Hi). rewrite Hk in Hin. by destruct Hin.
Qed.

Lemma reachable_ok capacity s : reachable capacity s -> sys_ok capacity s.
Proof.
  induction 1 as [| s s' _ IH Hstep].
  - split; cbn; try done.
    + apply new_index_ok.
    + intros k c. rewrite lookup_empty. split; [done |]. intros [t Ht]. by rewrite lookup_empty in Ht.
    + intros tr1 a tr2 E. by destruct tr1.
  - destruct Hstep as [t key s Ht | t key s d e Ht He | t key c s Ht Hc | t key c r s Ht].
    + apply ok_phase; try done. intros k c. by rewrite Ht.
    + assert (forall k c, sy_threads s !! t <> Some (k, PEmitting c)) as Hnot by (intros k c; by rewrite Ht).
      unfold enter in He. destruct (dx_items (sy_index s) !! key) as [el|] eqn:Ei.
      { injection He as <- <-. pose proof (ok_duplicate _ _ key el IH Ei) as Hd. by apply (ok_phase _ _ t key _ Hd). }
      destruct (dx_inFlight (sy_index s) !! key) as [c|] eqn:Ef; injection He as <- <-.
      * apply ok_phase; try done. intros c' [= ->]. by right.
      * by apply ok_claim.
    + apply ok_phase; try done. intros k c'. by rewrite Ht.
    + by apply ok_leave.
Qed.

(** The last access of a key in a history. *)
Lemma last_access k tr :
  k ∈ akey <$> tr -> exists tr1 a tr2, tr = tr1 ++ a :: tr2 /\ akey a = k /\ k ∉ akey <$> tr2.
Proof.
  induction tr as [|x tr IH] using rev_ind; [by intros ?%not_elem_of_nil |]. rewrite fmap_app, elem_of_app. intros Hk.
  destruct (decide (akey x = k)) as [Hx | Hx].
  - exists tr, x, []. split_and!; [done | done | apply not_elem_of_nil].
  - destruct Hk as [Hk | ->%list_elem_of_singleton]; [| done]. destruct (IH Hk) as (tr1 & a & tr2 & -> & Ha & Hn).
    exists tr1, a, (tr2 ++ [x]). split_and!; [by rewrite <- app_assoc | done |]. rewrite fmap_app, not_elem_of_app.
    split; [done |]. cbn. intros ->%list_elem_of_singleton. done.
Qed.

Lemma recorded_again capacity s tr1 k tr2 tr3 :
  reachable capacity s -> sy_trace s = tr1 ++ ARecorded k :: tr2 ++ ARecorded k :: tr3 ->
  dx_capacity (newDedupIndex capacity) <= Z.of_nat (size (trace_keys tr2 ∖ {[ k ]})).
Proof.
  intros Hr. revert tr3. induction Hr as [| s s' Hr IH Hstep]; intros tr3 Htr; [by destruct tr1 |].
  pose proof (reachable_ok _ _ Hr) as Hok.
  destruct Hstep as [t key s Ht | t key s d e Ht He | t key c s Ht Hc | t key c r s Ht]; cbn [sy_trace] in Htr;
    [by eapply IH | | by eapply IH |].
  - destruct e; [| by eapply IH | by eapply IH].
    destruct tr3 as [|y tr3 _] using rev_ind.
    { rewrite app_comm_cons, app_assoc in Htr. by apply app_inj_tail in Htr as [_ ?]. }
    apply (IH tr3). apply (app_inj_tail (sy_trace s) _ (ADuplicate key) y).
    rewrite Htr. by list_simplifier.
  - destruct r; [| by eapply IH | by eapply IH].
    destruct tr3 as [|y tr3 _] using rev_ind.
    2: { apply (IH tr3). apply (app_inj_tail (sy_trace s) _ (ARecorded key) y).
      rewrite Htr. by list_simplifier. }
    rewrite app_comm_cons, app_assoc in Htr. apply app_inj_tail in Htr as [Htr [= ->]].
    destruct (last_access k (ARecorded k :: tr2)) as (u1 & a & u2 & Hu & Ha & Hn); [left |].
    assert (sy_trace s = (tr1 ++ u1) ++ a :: u2) as Hs by (by rewrite Htr, <- app_assoc, Hu).
    assert (dx_inFlight (sy_index s) !! k = Some c) as Hf by (apply (ok_owner _ _ Hok); eauto).
    pose proof (ok_absent _ _ Hok _ _ Hf) as Habs. rewrite <- Ha in Hn.
    destruct (ok_recent _ _ Hok _ _ _ Hs Hn) as [(xs & ys & Hxs & _) | Hsize].
    + exfalso. assert (is_Some (dx_items (sy_index s) !! k)) as [? ?]; [| congruence].
      apply index_items; [apply Hok |]. rewrite Hxs, Ha. set_solver.
    + rewrite (ok_cap _ _ Hok) in Hsize. etrans; [exact Hsize |]. apply inj_le, subseteq_size. intros x.
      unfold trace_keys. rewrite elem_of_difference, !elem_of_list_to_set, elem_of_singleton. intros Hx. split.
      * assert (x ∈ akey <$> u1 ++ a :: u2 /\ x <> k) as [Hin Hne].
        { split; [rewrite fmap_app, fmap_cons; set_solver |]. intros ->. by rewrite Ha in Hn. }
        rewrite <- Hu, fmap_cons in Hin. by apply elem_of_cons in Hin as [? | ?].
      * intros ->. by rewrite Ha in Hn.
Qed.

(** C35. An event reaches the broker once.  Whatever requests run concurrently, two
    successful emits of one key are separated by accesses to at least a full capacity of
    other keys: only eviction from the bounded index lets a key through again. *)
Theorem emitted_once (capacity : Z) (s : sys) (tr1 tr2 tr3 : list access) (k : string) :
  reachable capacity s -> sy_trace s = tr1 ++ ARecorded k :: tr2 ++ ARecorded k :: tr3 ->
  dx_capacity (newDedupIndex capacity) <= Z.of_nat (size (trace_keys tr2 ∖ {[ k ]})).
Proof. apply recorded_again. Qed.

Definition unfinished (p : phase) : Prop := match p with PDone _ _ => False | _ => True end.

(** No request is stuck, and a failed emit is retried.  At any moment one request
    at most is emitting a key; every unfinished request can take its next step, or waits
    for the one request that is emitting its key and can; when that emit ends its waiters
    are released, and the next request for the key is a duplicate if it succeeded and
    emits again if it failed or panicked. *)
Theorem requests_progress (capacity : Z) (s : sys) :
  reachable capacity s ->
  (forall t t' k c c', sy_threads s !! t = Some (k, PEmitting c) -> sy_threads s !! t' = Some (k, PEmitting c') -> t = t') /\
  (forall t k p, sy_threads s !! t = Some (k, p) -> unfinished p ->
     exists t' p' s', step s s' /\ sy_threads s !! t' = Some (k, p') /\ sy_threads s' !! t' <> Some (k, p') /\
       (t' = t \/ exists c, p = PWaiting c /\ p' = PEmitting c)) /\
  (forall t k c r, sy_threads s !! t = Some (k, PEmitting c) ->
     let d := leave (sy_index s) k c r in
     c ∈ dx_closed d /\
     match r with
     | EmitOK => (enter d k).2 = EDuplicate
     | _ => exists c', (enter d k).2 = EEmit c'
     end).
Proof.
  intros Hr. pose proof (reachable_ok _ _ Hr) as Hok. split; [apply Hok |]. split.
  - intros t k p Ht Hp. destruct p as [| c | c | dup r]; [| | | done].
    + destruct (enter (sy_index s) k) as [d e] eqn:He. exists t, PStart. eexists.
      split; [by eapply step_enter |]. cbn. rewrite lookup_insert_eq. split_and!; [done | | by left]. by destruct e.
    + destruct (ok_wait _ _ Hok _ _ _ Ht) as [Hc | Hf].
      * exists t, (PWaiting c). eexists. split; [by eapply step_wake |]. cbn. rewrite lookup_insert_eq.
        split_and!; [done | done | by left].
      * apply (ok_owner _ _ Hok) in Hf as [t' Ht']. exists t', (PEmitting c). eexists.
        split; [by eapply (step_leave t' k c EmitOK) |]. cbn. rewrite lookup_insert_eq.
        split_and!; [done | done | right; eauto].
    + exists t, (PEmitting c). eexists. split; [by eapply (step_leave t k c EmitOK) |]. cbn. rewrite lookup_insert_eq.
      split_and!; [done | done | by left].
  - intros t k c r Ht d. assert (dx_inFlight (sy_index s) !! k = Some c) as Hf by (apply (ok_owner _ _ Hok); eauto).
    pose proof (ok_absent _ _ Hok _ _ Hf) as Hk. pose proof (ok_index _ _ Hok) as Hi.
    destruct (leave_fields (sy_index s) k c r Hf Hi Hk) as (Hi' & Hcap & Hfl & _ & Hcl & Hkeys). fold d in Hi', Hfl, Hcl, Hkeys.
    split; [rewrite Hcl; set_solver |].
    assert (dx_items d !! k = None -> exists c', (enter d k).2 = EEmit c') as Hemit.
    { intros Hd. unfold enter. rewrite Hd, Hfl, lookup_delete_eq. cbn. eauto. }
    assert (k ∉ index_keys (sy_index s)) as Hnk.
    { intros Hin%(index_items _ _ Hi). rewrite Hk in Hin. by destruct Hin. }
    destruct r.
    + assert (is_Some (dx_items d !! k)) as [el Hel]; [| unfold enter; by rewrite Hel].
      apply (index_items _ _ Hi'). rewrite Hkeys. pose proof (ix_cap _ Hi).
      destruct (Z.to_nat (dx_capacity (sy_index s))) eqn:E; [lia |]. cbn. constructor.
    + apply Hemit, eq_None_not_Some. intros Hs%(index_items _ _ Hi'). by rewrite Hkeys in Hs.
    + apply Hemit, eq_None_not_Some. intros Hs%(index_items _ _ Hi'). by rewrite Hkeys in Hs.
Qed.

Lemma nul_free_join_inj l l' :
  l <> [] -> l' <> [] -> Forall (fun p => has_char nul p = false) l -> Forall (fun p => has_char nul p = false) l' ->
  join nul l = join nul l' -> l = l'.
Proof. intros H1 H2 H3 H4 H. rewrite <- (split_join nul l), <- (split_join nul l') by done. by rewrite H. Qed.

(** The dedup keys separate what they must: lifecycle keys are equal only for the
    same origin, engine, run, id and state, removal keys only for the same node and id,
    and no lifecycle key is a removal key - for identifiers without a NUL byte, which
    separates the parts. *)
Theorem dedup_keys_separate (o e r i st o' e' r' i' st' : string) :
  Forall (fun p => has_char nul p = false) [o; e; r; i; st; o'; e'; r'; i'; st'] ->
  (keyLifecycle o e r i st = keyLifecycle o' e' r' i' st' -> o = o' /\ e = e' /\ r = r' /\ i = i' /\ st = st') /\
  (keyRemove o i = keyRemove o' i' -> o = o' /\ i = i') /\
  keyLifecycle o e r i st <> keyRemove o' i'.
Proof.
  intros H. rewrite !Forall_cons in H. destruct H as (H1 & H2 & H3 & H4 & H5 & H6 & H7 & H8 & H9 & H10 & _).
  unfold keyLifecycle, keyRemove. split_and!.
  - intros H%nul_free_join_inj; try done; [by injection H as -> -> -> -> -> | by repeat constructor | by repeat constructor].
  - intros H%nul_free_join_inj; try done; [by injection H as -> -> | by repeat constructor | by repeat constructor].
  - intros H%nul_free_join_inj; try done; by repeat constructor.
Qed.

(** * Witnesses *)

(** One request that arrives, claims its key and finishes without interleaving. *)
Definition serve (s : sys) (t : nat) (key : string) (r : emit_result) : sys :=
  let d := (enter (sy_index s) key).1 in
  mkSys (leave d key (dx_next (sy_index s)) r) (<[t := (key, PDone false r)]> (sy_threads s))
    (match r with EmitOK => sy_trace s ++ [ARecorded key] | _ => sy_trace s end).

Lemma serve_reachable capacity s t key r :
  reachable capacity s -> sy_threads s !! t = None -> (enter (sy_index s) key).2 = EEmit (dx_next (sy_index s)) ->
  reachable capacity (serve s t key r).
Proof.
  intros Hr Ht He. pose proof (step_arrive t key s Ht) as H1.
  destruct (enter (sy_index s) key) as [d e] eqn:Hd. cbn in He. subst e.
  pose proof (step_enter t key (mkSys (sy_index s) (<[t := (key, PStart)]> (sy_threads s)) (sy_trace s)) d
                (EEmit (dx_next (sy_index s))) (lookup_insert_eq _ _ _) Hd) as H2.
  pose proof (step_leave t key (dx_next (sy_index s)) r _ (lookup_insert_eq _ _ _ :
    sy_threads (mkSys d (<[t := (key, PEmitting (dx_next (sy_index s)))]> (<[t := (key, PStart)]> (sy_threads s)))
                  (sy_trace s)) !! t = Some (key, PEmitting (dx_next (sy_index s))))) as H3.
  pose proof (reach_step capacity _ _ (reach_step capacity _ _ (reach_step capacity _ _ Hr H1) H2) H3) as H.
  cbn [sy_index sy_threads sy_trace] in H. rewrite !insert_insert_eq in H. unfold serve. by rewrite Hd.
Qed.

Definition ex_served : sys := serve (serve (serve (start 1) 0 "a" EmitOK) 1 "b" EmitOK) 2 "a" EmitOK.

Lemma ex_served_reachable : reachable 1 ex_served.
Proof.
  apply serve_reachable; [apply serve_reachable; [apply serve_reachable; [apply reach_start | |] | |] | |];
    vm_compute; reflexivity.
Qed.

Lemma emitted_once_witness :
  sy_trace ex_served = [] ++ ARecorded "a" :: [ARecorded "b"] ++ ARecorded "a" :: [] /\
  1 <= Z.of_nat (size (trace_keys [ARecorded "b"] ∖ {[ "a" ]})).
Proof.
  split; [vm_compute; reflexivity |].
  apply (emitted_once 1 ex_served [] [ARecorded "b"] [] "a" ex_served_reachable). vm_compute. reflexivity.
Defined.

(** A request for ["a"] is emitting and a second one waits for it. *)
Definition ex_busy : sys :=
  mkSys (enter (newDedupIndex 1) "a").1 (<[1%nat := ("a", PWaiting 0)]> (<[0%nat := ("a", PEmitting 0)]> ∅)) [].

Lemma ex_busy_reachable : reachable 1 ex_busy.
Proof.
  pose proof (reach_step 1 _ _ (reach_start 1) (step_arrive 0 "a" (start 1) (lookup_empty _))) as H1.
  pose proof (reach_step 1 _ _ H1 (step_enter 0 "a" _ _ _ (lookup_insert_eq _ _ _) (surjective_pairing _))) as H2.
  unshelve epose proof (reach_step 1 _ _ H2 (step_arrive 1 "a" _ _)) as H3; [by vm_compute |].
  pose proof (reach_step 1 _ _ H3 (step_enter 1 "a" _ _ _ (lookup_insert_eq _ _ _) (surjective_pairing _))) as H4.
  exact H4.
Qed.

Lemma requests_progress_witness :
  exists t' p' s', step ex_busy s' /\ sy_threads ex_busy !! t' = Some ("a", p') /\
    sy_threads s' !! t' <> Some ("a", p') /\ (t' = 1%nat \/ exists c, PWaiting 0 = PWaiting c /\ p' = PEmitting c).
Proof.
  destruct (requests_progress 1 ex_busy ex_busy_reachable) as (_ & H & _).
  exact (H 1%nat "a" (PWaiting 0) (lookup_insert_eq _ _ _) I).
Defined.

Lemma dedup_keys_separate_witness :
  keyLifecycle "n" "e" "r" "1" "queued" <> keyRemove "n" "1" /\
  (keyRemove "n" "1" = keyRemove "n" "1" -> "n" = "n" /\ "1" = "1").
Proof.
  destruct (dedup_keys_separate "n" "e" "r" "1" "queued" "n" "e" "r" "1" "queued" ltac:(repeat constructor)) as (_ & H1 & H2).
  by split.
Defined.
