(* ===== verification/FloatRange.v ===== *)
(** Magnitudes of binary64 results: where a conversion from an integer and a division
    stay finite.  Nothing here models code of its own; it serves the components whose
    code divides. *)
From S2P Require Import Prelude.
From Stdlib Require Import SpecFloat.

Open Scope Z_scope.

(** A number that JSON can write: neither infinite nor NaN. *)
Definition is_finite (f : spec_float) : Prop :=
  match f with S754_zero _ | S754_finite _ _ _ => True | _ => False end.

(** [f] is a non-zero number of [lo] to [hi] binary digits before the point. *)
Definition near (lo hi : Z) (f : spec_float) : Prop :=
  exists s m e, f = S754_finite s m e /\ lo <= Zdigits2 (Zpos m) + e <= hi.

Lemma near_finite lo hi f : near lo hi f -> is_finite f.
Proof. by intros (s & m & e & -> & _). Qed.

Lemma digits_log2 m : 0 < m -> Zdigits2 m = Z.log2 m + 1.
Proof.
  destruct m as [| p |]; [done | intros _ | done]. cbn [Zdigits2]. induction p as [p IH | p IH |]; [| | done]; cbn [digits2_pos];
    rewrite Pos2Z.inj_succ, IH, <- Z.add_1_r; f_equal.
  - change (Zpos p~1) with (2 * Zpos p + 1). by rewrite Z.log2_succ_double by done.
  - change (Zpos p~0) with (2 * Zpos p). by rewrite Z.log2_double by done.
Qed.

Lemma iter_pos_nat {A} (f : A -> A) p x : iter_pos f p x = Nat.iter (Pos.to_nat p) f x.
Proof.
  revert x. induction p as [p IH | p IH |]; intros x; cbn [iter_pos]; [| | done]; rewrite !IH.
  - rewrite Pos2Nat.inj_xI, Nat.iter_succ_r, <- Nat.iter_add. f_equal. lia.
  - rewrite <- Nat.iter_add. f_equal. lia.
Qed.

Lemma shr_1_half r : 0 <= shr_m r -> shr_m (shr_1 r) = shr_m r / 2.
Proof.
  destruct r as [[| [p | p |] |] r s]; cbn [shr_m shr_1]; intros H; try done.
  - change (Zpos p~1) with (2 * Zpos p + 1). rewrite Z.mul_comm, Z.div_add_l by done. done.
  - change (Zpos p~0) with (2 * Zpos p). by rewrite Z.mul_comm, Z.div_mul.
Qed.

Lemma shr_iter n r : 0 <= shr_m r -> shr_m (Nat.iter n shr_1 r) = shr_m r / 2 ^ Z.of_nat n.
Proof.
  intros H. induction n as [|n IH]; [by rewrite Z.div_1_r |].
  change (Nat.iter (S n) shr_1 r) with (shr_1 (Nat.iter n shr_1 r)).
  assert (0 <= shr_m (Nat.iter n shr_1 r)) as H' by (rewrite IH; apply Z.div_pos; lia).
  rewrite shr_1_half by done. rewrite IH, Z.div_div by lia. f_equal.
  rewrite Nat2Z.inj_succ, Z.pow_succ_r by lia. lia.
Qed.

(** Shifting a mantissa right keeps its magnitude while a digit is left. *)
Lemma shr_magnitude r e n r' e' :
  0 < shr_m r -> n <= Z.log2 (shr_m r) -> shr r e n = (r', e') ->
  0 < shr_m r' /\ Z.log2 (shr_m r') + e' = Z.log2 (shr_m r) + e /\ e <= e'.
Proof.
  intros Hm Hn Hr. destruct n as [| p | p]; cbn [shr] in Hr; [by injection Hr as <- <-; lia | | by injection Hr as <- <-; lia].
  injection Hr as <- <-. rewrite iter_pos_nat, shr_iter by lia. rewrite positive_nat_Z.
  rewrite <- Z.shiftr_div_pow2 by lia.
  assert (Z.log2 (Z.shiftr (shr_m r) (Zpos p)) = Z.log2 (shr_m r) - Zpos p) as ->
    by (rewrite Z.log2_shiftr by lia; lia).
  split; [| lia]. rewrite Z.shiftr_div_pow2 by lia. apply Z.div_str_pos. split; [lia |].
  apply Z.log2_le_pow2; lia.
Qed.

Lemma round_up_one m l : round_nearest_even m l = m \/ round_nearest_even m l = m + 1.
Proof. destruct l as [| []]; cbn; [by left | | by left | by right]. destruct (Z.even m); auto. Qed.

Lemma log2_up_one m : 0 < m -> Z.log2 m <= Z.log2 (m + 1) <= Z.log2 m + 1.
Proof. intros H. pose proof (Z.log2_succ_le m). pose proof (Z.log2_le_mono m (m + 1) ltac:(lia)). unfold Z.succ in *. lia. Qed.

Lemma fexp_normal d : -1000 <= d -> fexp F64.prec F64.emax d = d - 53.
Proof. unfold fexp, emin, F64.prec, F64.emax. lia. Qed.

(** Rounding a mantissa with a digit keeps the magnitude or adds one digit. *)
Lemma round_near s m e l :
  0 < m -> -900 <= Z.log2 m + 1 + e <= 900 ->
  near (Z.log2 m + 1 + e) (Z.log2 m + 2 + e) (binary_round_aux F64.prec F64.emax s m e l).
Proof.
  intros Hm Hd. unfold binary_round_aux, shr_fexp. rewrite (digits_log2 m) by done. rewrite fexp_normal by lia.
  assert (shr_m (shr_record_of_loc m l) = m) as Hrec by (by destruct l as [| []]).
  destruct (shr (shr_record_of_loc m l) e _) as [r1 e1] eqn:E1.
  apply shr_magnitude in E1 as (Hr1 & Hmag1 & Hge); rewrite ?Hrec in *; [| done | lia].
  set (m2 := round_nearest_even (shr_m r1) (loc_of_shr_record r1)).
  assert (0 < m2 /\ Z.log2 (shr_m r1) <= Z.log2 m2 <= Z.log2 (shr_m r1) + 1) as [Hm2 Hlog].
  { pose proof (log2_up_one (shr_m r1) Hr1). subst m2. destruct (round_up_one (shr_m r1) (loc_of_shr_record r1)) as [-> | ->]; lia. }
  rewrite (digits_log2 m2) by done. rewrite fexp_normal by lia.
  destruct (shr (shr_record_of_loc m2 loc_Exact) e1 _) as [r2 e2] eqn:E2.
  apply shr_magnitude in E2 as (Hr2 & Hmag2 & _); cbn [shr_record_of_loc shr_m] in *; [| done | lia].
  destruct (shr_m r2) as [| p |] eqn:Ep; [done | | done].
  pose proof (Z.log2_nonneg (Zpos p)). destruct (Z.leb_spec e2 (F64.emax - F64.prec)) as [He | He].
  - exists s, p, e2. split; [done |]. rewrite digits_log2 by done. lia.
  - unfold F64.emax, F64.prec in He. lia.
Qed.

Lemma iter_xO m d : Zpos (Pos.iter xO m d) = Zpos m * 2 ^ Zpos d.
Proof.
  induction d as [| d IH] using Pos.peano_ind; [cbn [Pos.iter]; lia |].
  rewrite Pos.iter_succ, Pos2Z.inj_succ, Z.pow_succ_r by lia. rewrite Pos2Z.inj_xO, IH. lia.
Qed.

(** A conversion of an integer of at most 64 digits. *)
Lemma of_Z_near z : z <> 0 -> in_int64 z -> near 1 65 (F64.of_Z z).
Proof.
  intros Hz Hr. unfold in_int64 in Hr.
  assert (forall s m, Zpos m <= 2 ^ 63 -> near 1 65 (binary_round F64.prec F64.emax s m 0)) as H.
  { intros s m Hm. pose proof (Z.log2_nonneg (Zpos m)) as Hlo.
    assert (Z.log2 (Zpos m) <= 63) as Hhi by (etrans; [by apply Z.log2_le_mono | done]).
    unfold binary_round. change (Zpos (digits2_pos m)) with (Zdigits2 (Zpos m)).
    rewrite digits_log2, fexp_normal by lia. unfold shl_align.
    destruct (Z.log2 (Zpos m) + 1 + 0 - 53 - 0) as [| d | d] eqn:Ed.
    3: assert (Z.log2 (Zpos (Pos.iter xO m d)) = Z.log2 (Zpos m) + Zpos d) as El
         by (rewrite iter_xO, Z.log2_mul_pow2; lia).
    all: destruct (round_near s (Zpos m) 0 loc_Exact) as (s1 & m1 & e1 & E1 & Hm1); [lia | lia |].
    1, 2: rewrite E1; exists s1, m1, e1; split; [done | lia].
    destruct (round_near s (Zpos (Pos.iter xO m d)) (Z.log2 (Zpos m) + 1 + 0 - 53) loc_Exact)
      as (s2 & m2 & e2 & E2 & Hm2); [lia | lia |]. rewrite E2. exists s2, m2, e2. split; [done | lia]. }
  unfold F64.of_Z, binary_normalize. destruct z as [| p | p]; [done | |]; apply H; lia.
Qed.

(** A quotient of numbers whose magnitudes are far from the ends of the format. *)
Lemma div_near a b c d x y :
  near a b x -> near c d y -> -800 <= a - d -> b - c <= 800 -> near (a - d) (b - c + 2) (F64.div x y).
Proof.
  intros (s1 & m1 & e1 & -> & H1) (s2 & m2 & e2 & -> & H2) Hlo Hhi. unfold F64.div, SFdiv, SFdiv_core_binary.
  rewrite !digits_log2 in * by done.
  set (l1 := Z.log2 (Zpos m1)) in *. set (l2 := Z.log2 (Zpos m2)) in *.
  assert (0 <= l1 /\ 0 <= l2) as [Hl1 Hl2] by (split; apply Z.log2_nonneg).
  rewrite fexp_normal by lia. set (e' := Z.min _ _). set (k := e1 - e2 - e').
  assert (0 <= k /\ l2 - l1 + 53 <= k) as [Hk Hk'] by lia.
  assert (match k with 0 => Zpos m1 | Zpos _ => Z.shiftl (Zpos m1) k | Zneg _ => 0 end = Zpos m1 * 2 ^ k) as ->.
  { destruct k; [lia | by rewrite Z.shiftl_mul_pow2 | lia]. }
  pose proof (Z.div_eucl_eq (Zpos m1 * 2 ^ k) (Zpos m2) ltac:(done)) as Heq.
  pose proof (Z_div_mod (Zpos m1 * 2 ^ k) (Zpos m2) ltac:(done)) as Hmod.
  destruct (Z.div_eucl (Zpos m1 * 2 ^ k) (Zpos m2)) as [q r]. destruct Hmod as [_ Hrem].
  assert (Z.log2 (Zpos m1 * 2 ^ k) = l1 + k) as Hlog by (rewrite Z.log2_mul_pow2; subst l1; lia).
  pose proof (Z.log2_spec (Zpos m1 * 2 ^ k) ltac:(lia)) as [Hp1 Hp2]. rewrite Hlog in Hp1, Hp2.
  pose proof (Z.log2_spec (Zpos m2) ltac:(lia)) as [Hq1 Hq2]. fold l2 in Hq1, Hq2.
  assert (2 ^ (l1 + k - l2 - 1) <= q < 2 ^ (l1 + k - l2 + 1)) as [Hqlo Hqhi].
  { replace (l1 + k) with ((l1 + k - l2 - 1) + Z.succ l2) in Hp1 by lia.
    replace (Z.succ (l1 + k)) with ((l1 + k - l2 + 1) + l2) in Hp2 by lia.
    rewrite Z.pow_add_r in Hp1, Hp2 by lia. nia. }
  assert (0 < q) as Hq by (eapply Z.lt_le_trans; [apply (Z.pow_pos_nonneg 2 (l1 + k - l2 - 1)); lia | done]).
  assert (l1 + k - l2 - 1 <= Z.log2 q) by (apply Z.log2_le_pow2; lia).
  assert (Z.log2 q < l1 + k - l2 + 1) by (apply Z.log2_lt_pow2; lia).
  destruct (round_near (xorb s1 s2) q e' (new_location (Zpos m2) r)) as (s3 & m3 & e3 & E3 & H3); [done | lia |].
  rewrite E3. exists s3, m3, e3. split; [done | lia].
Qed.

Lemma zero_div_finite b c d y : near c d y -> is_finite (F64.div (S754_zero b) y).
Proof. by intros (s & m & e & -> & _). Qed.

(** Any two integers, the divisor not zero. *)
Lemma int_div_finite z y lo hi : in_int64 z -> near lo hi y -> -700 <= lo -> hi <= 700 -> is_finite (F64.div (F64.of_Z z) y).
Proof.
  intros Hz Hy Hlo Hhi. destruct (decide (z = 0)) as [-> | Hne]; [by apply (zero_div_finite false lo hi) |].
  eapply near_finite, (div_near 1 65 lo hi); [by apply of_Z_near | done | lia | lia].
Qed.
