(* ===== verification/NodeMetrics.v ===== *)
(** The broker's per-node inference metrics (services/nvpair-ui-broker/nodemetrics/store.go,
    services/shared/inferencemetrics): totals since the broker started and token rates over
    a rolling window of completions. *)
From S2P Require Import Prelude.
From S2P Require Import FloatRange.
From Stdlib Require Import SpecFloat.

Open Scope string_scope.
Open Scope list_scope.
Open Scope Z_scope.

(** * Data *)

(** A nil pointer is [None]: "not reported" is not zero. *)
Record Measurement : Type := mkMeasurement {
  m_PrefillTokens : option Z;
  m_DecodeTokens : option Z;
  m_CachedTokens : option Z;
  m_PrefillMs : option Z;
  m_DecodeMs : option Z;
  m_TtftMs : option Z;
  m_TotalMs : option Z
}.

Record Totals : Type := mkTotals {
  Requests : Z;
  PrefillTokens : Z;
  DecodeTokens : Z;
  CachedTokens : Z;
  PrefillMs : Z;
  DecodeMs : Z;
  TtftMs : Z;
  TtftRequests : Z;
  TokenRequests : Z;
  PrefillRequests : Z;
  DecodeRequests : Z
}.

Definition zero_totals : Totals := mkTotals 0 0 0 0 0 0 0 0 0 0 0.

Record Rates : Type := mkRates {
  PrefillTokensPerSecond : spec_float;
  DecodeTokensPerSecond : spec_float;
  MeanTtftMs : spec_float
}.

Record ModelTotals : Type := mkModelTotals { mt_Model : string; mt_Totals : Totals }.

Record NodeSnapshot : Type := mkNodeSnapshot {
  ns_NodeId : string;
  ns_Totals : Totals;
  ns_Rates : Rates;
  ns_Models : list ModelTotals
}.

Record sample : Type := mkSample {
  at_ : Z;
  sm_prefillTokens : Z;
  sm_decodeTokens : Z;
  sm_prefillMs : Z;
  sm_decodeMs : Z;
  sm_ttftMs : Z;
  sm_hasTtft : bool
}.

Record nodeState : Type := mkNodeState {
  totals : Totals;
  models : gmap string Totals;
  samples : list sample
}.

(** The store's clock is the reading each operation takes. *)
Record Store : Type := mkStore { window : Z; nodes : gmap string nodeState }.

Definition NewStore (w : Z) : Store := mkStore w ∅.

(** * Operations *)

(** [valueOf] and [valueOf64]. *)
Definition valueOf (v : option Z) : Z := default 0 v.
Definition reported (v : option Z) : Z := match v with Some _ => 1 | None => 0 end.

Definition accumulate (t : Totals) (m : Measurement) : Totals :=
  mkTotals
    (wrap64 (Requests t + 1))
    (wrap64 (PrefillTokens t + valueOf (m_PrefillTokens m)))
    (wrap64 (DecodeTokens t + valueOf (m_DecodeTokens m)))
    (wrap64 (CachedTokens t + valueOf (m_CachedTokens m)))
    (wrap64 (PrefillMs t + valueOf (m_PrefillMs m)))
    (wrap64 (DecodeMs t + valueOf (m_DecodeMs m)))
    (match m_TtftMs m with Some v => wrap64 (TtftMs t + v) | None => TtftMs t end)
    (match m_TtftMs m with Some _ => wrap64 (TtftRequests t + 1) | None => TtftRequests t end)
    (match m_PrefillTokens m, m_DecodeTokens m, m_CachedTokens m with
     | None, None, None => TokenRequests t
     | _, _, _ => wrap64 (TokenRequests t + 1)
     end)
    (match m_PrefillMs m with Some _ => wrap64 (PrefillRequests t + 1) | None => PrefillRequests t end)
    (match m_DecodeMs m with Some _ => wrap64 (DecodeRequests t + 1) | None => DecodeRequests t end).

(** [inWindow]; its age result is used by no caller.  The negation of an age wraps. *)
Definition inWindow (w : Z) (end_ at' : Z) : bool :=
  if w <=? 0 then false
  else
    let age := time_sub end_ at' in
    if age <? 0 then negb (w <? wrap64 (- age)) else negb (w <? age).

Definition pruneLocked (w : Z) (n : nodeState) (now : Z) : nodeState :=
  mkNodeState (totals n) (models n) (List.filter (fun sm => inWindow w now (at_ sm)) (samples n)).

Definition sample_of (m : Measurement) (stamp : Z) : sample :=
  mkSample stamp (valueOf (m_PrefillTokens m)) (valueOf (m_DecodeTokens m)) (valueOf (m_PrefillMs m))
    (valueOf (m_DecodeMs m)) (valueOf (m_TtftMs m)) (match m_TtftMs m with Some _ => true | None => false end).

(** [Record], with the caller's instant [now] and the store's reading [clock]. *)
Definition Record_ (s : Store) (nodeID model : string) (m : Measurement) (now clock : Z) : Store :=
  let n := default (mkNodeState zero_totals ∅ []) (nodes s !! nodeID) in
  let mt := default zero_totals (models n !! model) in
  let stamp := if clock <? now then now else clock in
  let n := mkNodeState (accumulate (totals n) m) (<[model := accumulate mt m]> (models n))
             (samples n ++ [sample_of m stamp]) in
  mkStore (window s) (<[nodeID := pruneLocked (window s) n stamp]> (nodes s)).

Definition tokensPerSecond (tokens ms : Z) : spec_float :=
  if ms <=? 0 then F64.of_Z 0
  else F64.div (F64.of_Z tokens) (F64.div (F64.of_Z ms) (F64.of_Z 1000)).

(** The six accumulators of the loop of [ratesFor]. *)
Record sums : Type := mkSums {
  su_prefillTokens : Z; su_decodeTokens : Z; su_prefillMs : Z; su_decodeMs : Z; su_ttftMs : Z; su_ttftRequests : Z
}.

Definition add_sample (a : sums) (sm : sample) : sums :=
  mkSums (wrap64 (su_prefillTokens a + sm_prefillTokens sm)) (wrap64 (su_decodeTokens a + sm_decodeTokens sm))
    (wrap64 (su_prefillMs a + sm_prefillMs sm)) (wrap64 (su_decodeMs a + sm_decodeMs sm))
    (if sm_hasTtft sm then wrap64 (su_ttftMs a + sm_ttftMs sm) else su_ttftMs a)
    (if sm_hasTtft sm then wrap64 (su_ttftRequests a + 1) else su_ttftRequests a).

Definition rates_of (a : sums) : Rates :=
  mkRates (tokensPerSecond (su_prefillTokens a) (su_prefillMs a))
    (tokensPerSecond (su_decodeTokens a) (su_decodeMs a))
    (if 0 <? su_ttftRequests a then F64.div (F64.of_Z (su_ttftMs a)) (F64.of_Z (su_ttftRequests a)) else F64.of_Z 0).

Definition ratesFor (w : Z) (n : nodeState) (end_ : Z) : Rates :=
  rates_of (foldl (fun a sm => if inWindow w end_ (at_ sm) then add_sample a sm else a)
              (mkSums 0 0 0 0 0 0) (samples n)).

Section Snapshots.
Context `{!MapRange}.

Definition modelsFor (n : nodeState) : list ModelTotals :=
  omap (fun name => mkModelTotals name <$> models n !! name) (sort_by str_ltb (range (models n)).*1).

Definition nodeIDsLocked (s : Store) : list string := sort_by str_ltb (range (nodes s)).*1.

Definition Snapshot (s : Store) (now : Z) : list NodeSnapshot :=
  omap (fun id => (fun n => mkNodeSnapshot id (totals n) (ratesFor (window s) n now) (modelsFor n)) <$> nodes s !! id)
    (nodeIDsLocked s).
End Snapshots.

(** * Histories *)

(** One completed inference, as a call of [Record]. *)
Record completion : Type := mkCompletion {
  c_node : string;
  c_model : string;
  c_m : Measurement;
  c_now : Z;
  c_clock : Z
}.

Definition recorded (s : Store) (e : completion) : Store :=
  Record_ s (c_node e) (c_model e) (c_m e) (c_now e) (c_clock e).

Definition run (w : Z) (evs : list completion) : Store := foldl recorded (NewStore w) evs.

Definition of_node (id : string) (evs : list completion) : list completion :=
  List.filter (fun e => bool_decide (c_node e = id)) evs.
Definition of_model (model : string) (evs : list completion) : list completion :=
  List.filter (fun e => bool_decide (c_model e = model)) evs.

(** ** The reference: totals as sums *)

Definition sum (f : Measurement -> Z) (evs : list completion) : Z :=
  foldr Z.add 0 ((fun e => f (c_m e)) <$> evs).

Definition any_tokens (m : Measurement) : Z :=
  match m_PrefillTokens m, m_DecodeTokens m, m_CachedTokens m with None, None, None => 0 | _, _, _ => 1 end.

Definition totals_of (evs : list completion) : Totals :=
  let S f := wrap64 (sum f evs) in
  mkTotals (S (fun _ => 1)) (S (fun m => valueOf (m_PrefillTokens m))) (S (fun m => valueOf (m_DecodeTokens m)))
    (S (fun m => valueOf (m_CachedTokens m))) (S (fun m => valueOf (m_PrefillMs m)))
    (S (fun m => valueOf (m_DecodeMs m))) (S (fun m => valueOf (m_TtftMs m))) (S (fun m => reported (m_TtftMs m)))
    (S any_tokens) (S (fun m => reported (m_PrefillMs m))) (S (fun m => reported (m_DecodeMs m))).

(** The rates over a set of completions: summed tokens over summed seconds. *)
Definition sums_of (evs : list completion) : sums :=
  let S f := wrap64 (sum f evs) in
  mkSums (S (fun m => valueOf (m_PrefillTokens m))) (S (fun m => valueOf (m_DecodeTokens m)))
    (S (fun m => valueOf (m_PrefillMs m))) (S (fun m => valueOf (m_DecodeMs m)))
    (S (fun m => valueOf (m_TtftMs m))) (S (fun m => reported (m_TtftMs m))).

(** * Facts: totals *)

Lemma sum_app f l l' : sum f (l ++ l') = sum f l + sum f l'.
Proof. unfold sum. rewrite fmap_app. induction (_ <$> l) as [|x xs IH]; cbn; [done | lia]. Qed.

Lemma sum_snoc f l e : sum f (l ++ [e]) = sum f l + f (c_m e).
Proof. rewrite sum_app. unfold sum. cbn. lia. Qed.

Lemma sum_perm f l l' : l ≡ₚ l' -> sum f l = sum f l'.
Proof. unfold sum. induction 1; cbn in *; lia. Qed.

Lemma wrap_sum_snoc f l e : wrap64 (wrap64 (sum f l) + f (c_m e)) = wrap64 (sum f (l ++ [e])).
Proof. by rewrite wrap64_add_l, sum_snoc. Qed.

Lemma wrap_wrap z : wrap64 (wrap64 z) = wrap64 z.
Proof. apply wrap64_id, wrap64_range. Qed.

(** Adding nothing to a wrapped sum. *)
Lemma wrap_sum_zero f l e : f (c_m e) = 0 -> wrap64 (sum f l) = wrap64 (sum f (l ++ [e])).
Proof. intros H. by rewrite sum_snoc, H, Z.add_0_r. Qed.

Lemma accumulate_snoc evs e : accumulate (totals_of evs) (c_m e) = totals_of (evs ++ [e]).
Proof.
  assert (forall f z, f (c_m e) = z -> wrap64 (wrap64 (sum f evs) + z) = wrap64 (sum f (evs ++ [e]))) as Hadd.
  { intros f z <-. apply wrap_sum_snoc. }
  unfold accumulate, totals_of. destruct (c_m e) as [pt dt ct pm dm tt' ?] eqn:E.
  f_equal; cbn [TtftMs TtftRequests TokenRequests PrefillRequests DecodeRequests m_PrefillTokens m_DecodeTokens
    m_CachedTokens m_PrefillMs m_DecodeMs m_TtftMs]; repeat case_match; first [apply Hadd | apply wrap_sum_zero];
    by rewrite ?E.
Qed.

Lemma of_node_snoc id evs e : of_node id (evs ++ [e]) = of_node id evs ++ (if bool_decide (c_node e = id) then [e] else []).
Proof. unfold of_node. rewrite List.filter_app. cbn. by case_bool. Qed.

Lemma of_model_snoc id evs e : of_model id (evs ++ [e]) = of_model id evs ++ (if bool_decide (c_model e = id) then [e] else []).
Proof. unfold of_model. rewrite List.filter_app. cbn. by case_bool. Qed.

(** The accumulator of a set of completions: absent when there is none. *)
Definition totals_opt (evs : list completion) : option Totals :=
  match evs with [] => None | _ => Some (totals_of evs) end.

Lemma totals_opt_snoc evs e : Some (accumulate (default zero_totals (totals_opt evs)) (c_m e)) = totals_opt (evs ++ [e]).
Proof.
  assert (default zero_totals (totals_opt evs) = totals_of evs) as -> by (by destruct evs).
  rewrite accumulate_snoc. by destruct evs.
Qed.

(** What a node holds: its totals, and the same per model. *)
Definition holds (n : nodeState) (evs : list completion) : Prop :=
  totals n = totals_of evs /\ forall model, models n !! model = totals_opt (of_model model evs).

Definition counted (s : Store) (evs : list completion) : Prop :=
  forall id, match nodes s !! id with
             | None => of_node id evs = []
             | Some n => of_node id evs <> [] /\ holds n (of_node id evs)
             end.

Lemma recorded_counted s evs e : counted s evs -> counted (recorded s e) (evs ++ [e]).
Proof.
  intros Hs id. unfold recorded, Record_. cbn [nodes]. rewrite of_node_snoc. specialize (Hs id).
  destruct (decide (c_node e = id)) as [<- | Hne].
  2: { rewrite lookup_insert_ne, bool_decide_false, app_nil_r by done. done. }
  rewrite lookup_insert_eq, bool_decide_true by done. split; [by destruct (of_node _ evs) |].
  assert (holds (default (mkNodeState zero_totals ∅ []) (nodes s !! c_node e)) (of_node (c_node e) evs)) as [Ht Hm].
  { destruct (nodes s !! c_node e) as [n|]; [by apply Hs |]. rewrite Hs. split; [done |]. intros model. apply lookup_empty. }
  split; cbn [pruneLocked totals models].
  - by rewrite Ht, accumulate_snoc.
  - intros model. rewrite of_model_snoc. destruct (decide (c_model e = model)) as [<- | Hne].
    + rewrite lookup_insert_eq, bool_decide_true by done. rewrite Hm. apply totals_opt_snoc.
    + by rewrite lookup_insert_ne, bool_decide_false, app_nil_r by done.
Qed.

Lemma run_counted_from s evs0 evs : counted s evs0 -> counted (foldl recorded s evs) (evs0 ++ evs).
Proof.
  revert s evs0. induction evs as [|e evs IH]; intros s evs0 Hs; cbn [foldl]; [by rewrite app_nil_r |].
  replace (evs0 ++ e :: evs) with ((evs0 ++ [e]) ++ evs) by (by rewrite <- app_assoc).
  by apply IH, recorded_counted.
Qed.

Lemma run_counted w evs : counted (run w evs) evs.
Proof. apply (run_counted_from _ []). intros id. cbn. by rewrite lookup_empty. Qed.

(** * Facts: snapshots *)

Lemma totals_of_perm evs evs' : evs ≡ₚ evs' -> totals_of evs = totals_of evs'.
Proof. intros Hp. unfold totals_of. f_equal; f_equal; by apply sum_perm. Qed.

Lemma totals_opt_perm evs evs' : evs ≡ₚ evs' -> totals_opt evs = totals_opt evs'.
Proof.
  intros Hp. destruct evs, evs'; [done | by apply Permutation_nil_l in Hp | by symmetry in Hp; apply Permutation_nil_l in Hp |].
  cbn [totals_opt]. f_equal. by apply totals_of_perm.
Qed.

(** An attribute keeps or drops a completion by its name. *)
Lemma filter_nonempty (f : completion -> string) k evs :
  List.filter (fun e => bool_decide (f e = k)) evs <> [] <-> k ∈ f <$> evs.
Proof.
  split.
  - intros H. destruct (List.filter _ evs) as [|e l] eqn:E; [done |].
    assert (e ∈ List.filter (fun e => bool_decide (f e = k)) evs) as [He Hk]%elem_of_bfilter by (rewrite E; left).
    apply bool_decide_eq_true in Hk as <-. by apply list_elem_of_fmap_2.
  - intros (e & -> & He)%list_elem_of_fmap E. assert (e ∈ List.filter (fun e' => bool_decide (f e' = f e)) evs) as H.
    { apply elem_of_bfilter. by rewrite bool_decide_true. }
    rewrite E in H. by apply not_elem_of_nil in H.
Qed.

Lemma totals_opt_some evs : evs <> [] -> totals_opt evs = Some (totals_of evs).
Proof. by destruct evs. Qed.

Lemma modelsFor_exact `{!MapRange} n evs :
  holds n evs -> modelsFor n = (fun model => mkModelTotals model (totals_of (of_model model evs))) <$> names_of c_model evs.
Proof.
  intros [_ Hm]. unfold modelsFor. rewrite (sorted_keys_names _ c_model evs).
  - apply omap_all. intros model Hk%elem_of_names%filter_nonempty. by rewrite Hm, totals_opt_some.
  - intros k. rewrite Hm, <- filter_nonempty. fold (of_model k evs). unfold totals_opt.
    destruct (of_model k evs); [| done]. split; [by intros [??] | done].
Qed.

Lemma nodeIDs_exact `{!MapRange} s evs : counted s evs -> nodeIDsLocked s = names_of c_node evs.
Proof.
  intros Hs. apply sorted_keys_names. intros k. rewrite <- filter_nonempty. fold (of_node k evs).
  specialize (Hs k). destruct (nodes s !! k); [by destruct Hs |]. rewrite Hs. split; [by intros [??] | done].
Qed.

Lemma Snapshot_counted `{!MapRange} s evs now :
  counted s evs ->
  Snapshot s now = omap (fun id => (fun n => mkNodeSnapshot id (totals_of (of_node id evs)) (ratesFor (window s) n now)
      ((fun model => mkModelTotals model (totals_of (of_model model (of_node id evs)))) <$> names_of c_model (of_node id evs)))
      <$> nodes s !! id) (names_of c_node evs).
Proof.
  intros Hs. unfold Snapshot. rewrite (nodeIDs_exact s evs Hs). generalize (names_of c_node evs) as l.
  induction l as [|id l IH]; [done |]. cbn. rewrite IH. specialize (Hs id).
  destruct (nodes s !! id) as [n|]; [| done]. cbn. destruct Hs as [_ Hh]. by rewrite (modelsFor_exact _ _ Hh), (proj1 Hh).
Qed.

(** * Facts: the window *)

(** Clocks that run forwards: readings in order, each caller at or behind its store. *)
Definition steady (evs : list completion) : Prop :=
  StronglySorted Z.le (c_clock <$> evs) /\ Forall (fun e => 0 <= c_clock e < 2 ^ 62 /\ c_now e <= c_clock e) evs.

Definition in_window (w end_ : Z) (e : completion) : bool := (0 <? w) && (end_ - c_clock e <=? w).

Lemma inWindow_behind w end_ at' :
  in_int64 (end_ - at') -> at' <= end_ -> inWindow w end_ at' = ((0 <? w) && (end_ - at' <=? w))%bool.
Proof.
  intros Hi Hle. unfold inWindow. rewrite time_sub_exact by done.
  destruct (Z.leb_spec w 0), (Z.ltb_spec 0 w); try done; try lia. cbn [andb].
  destruct (Z.ltb_spec (end_ - at') 0); [lia |]. by destruct (Z.ltb_spec w (end_ - at')), (Z.leb_spec (end_ - at') w); try lia.
Qed.

Definition stamped (e : completion) : sample := sample_of (c_m e) (c_clock e).

Definition last_clock (evs : list completion) : Z := default 0 (last (c_clock <$> evs)).

Definition within_window (s : Store) (evs : list completion) : Prop :=
  forall id n, nodes s !! id = Some n ->
    (forall sm, sm ∈ samples n -> exists e, e ∈ evs /\ sm = stamped e) /\
    forall end_, Forall (fun e => 0 <= c_clock e <= end_) evs -> end_ < 2 ^ 62 ->
      List.filter (fun sm => inWindow (window s) end_ (at_ sm)) (samples n) =
      stamped <$> List.filter (in_window (window s) end_) (of_node id evs).

Lemma inWindow_stamped w end_ e :
  0 <= c_clock e <= end_ -> end_ < 2 ^ 62 -> inWindow w end_ (at_ (stamped e)) = in_window w end_ e.
Proof. intros H He. apply inWindow_behind; unfold in_int64; cbn; lia. Qed.

(** What the end of a later window keeps, an earlier pruning kept. *)
Lemma in_window_earlier w c end_ e : c <= end_ -> in_window w end_ e = true -> in_window w c e = true.
Proof. unfold in_window. intros. unbool. apply andb_true_intro. split; [lia | apply Z.leb_le; lia]. Qed.

Lemma bfilter_bfilter {A} (f g : A -> bool) l :
  (forall x, x ∈ l -> g x = true -> f x = true) -> List.filter g (List.filter f l) = List.filter g l.
Proof.
  induction l as [|x l IH]; intros H; [done |]. cbn. pose proof (H x ltac:(left)) as Hx.
  rewrite <- IH by (intros; apply H; [by right | done]).
  destruct (f x) eqn:E; cbn; [done |]. destruct (g x); [| done]. discriminate (Hx eq_refl).
Qed.

Lemma recorded_window s evs e :
  counted s evs -> within_window s evs -> c_now e <= c_clock e -> 0 <= c_clock e < 2 ^ 62 ->
  Forall (fun e' => 0 <= c_clock e' <= c_clock e) evs -> within_window (recorded s e) (evs ++ [e]).
Proof.
  intros Hc Hs Hnow Hclk Hle id n Hn. unfold recorded, Record_ in Hn. cbn [nodes] in Hn.
  rewrite of_node_snoc. change (window (recorded s e)) with (window s).
  destruct (decide (c_node e = id)) as [<- | Hne].
  2: { rewrite lookup_insert_ne in Hn by done. rewrite bool_decide_false, app_nil_r by done.
    destruct (Hs id n Hn) as [H1 H2]. split; [set_solver |]. intros end_ [He _]%Forall_app Hend. by apply H2. }
  rewrite lookup_insert_eq in Hn. injection Hn as <-. rewrite bool_decide_true by done.
  replace (if c_clock e <? c_now e then c_now e else c_clock e) with (c_clock e) by (destruct (Z.ltb_spec (c_clock e) (c_now e)); lia).
  cbn [pruneLocked samples]. change (sample_of (c_m e) (c_clock e)) with (stamped e).
  set (n0 := default (mkNodeState zero_totals ∅ []) (nodes s !! c_node e)).
  assert ((forall sm, sm ∈ samples n0 -> exists e', e' ∈ evs /\ sm = stamped e') /\
    forall end_, Forall (fun e => 0 <= c_clock e <= end_) evs -> end_ < 2 ^ 62 ->
      List.filter (fun sm => inWindow (window s) end_ (at_ sm)) (samples n0) =
      stamped <$> List.filter (in_window (window s) end_) (of_node (c_node e) evs)) as [H1 H2].
  { subst n0. destruct (nodes s !! c_node e) as [n|] eqn:E; [by apply Hs |]. cbn [default samples].
    specialize (Hc (c_node e)). rewrite E in Hc. rewrite Hc. split; [by intros ? ?%not_elem_of_nil | done]. }
  assert (forall sm, sm ∈ samples n0 ++ [stamped e] -> exists e', e' ∈ evs ++ [e] /\ sm = stamped e') as H3.
  { intros sm [(e' & ? & ?)%H1 | ->%list_elem_of_singleton]%elem_of_app; [exists e' | exists e]; set_solver. }
  split.
  - intros sm [Hsm _]%elem_of_bfilter. by apply H3.
  - intros end_ Hall Hend. rewrite bfilter_bfilter.
    + apply Forall_app in Hall as [Hall He]. rewrite Forall_singleton in He.
      rewrite !List.filter_app, fmap_app, H2 by done. f_equal. cbn [List.filter].
      rewrite inWindow_stamped by done. by destruct (in_window (window s) end_ e).
    + intros sm (e' & He' & ->)%H3. rewrite Forall_forall in Hall. pose proof (Hall e' He').
      assert (0 <= c_clock e' <= c_clock e) by (rewrite Forall_forall in Hle; set_solver).
      assert (c_clock e <= end_) by (apply Hall; set_solver).
      rewrite !inWindow_stamped by lia. by apply in_window_earlier.
Qed.

Lemma steady_snoc evs e :
  steady (evs ++ [e]) -> steady evs /\ c_now e <= c_clock e /\ 0 <= c_clock e < 2 ^ 62 /\
    Forall (fun e' => 0 <= c_clock e' <= c_clock e) evs.
Proof.
  intros [Hs Hf]. rewrite fmap_app in Hs. apply StronglySorted_app in Hs as (Hx & Hs & _).
  apply Forall_app in Hf as [Hf He]. rewrite Forall_singleton in He.
  split; [by split |]. split; [lia |]. split; [lia |].
  rewrite Forall_forall in Hf. apply Forall_forall. intros e' He'. specialize (Hf e' He').
  assert (c_clock e' <= c_clock e); [| lia]. apply Hx; [by apply list_elem_of_fmap_2 | cbn; by left].
Qed.

Lemma run_window w evs : steady evs -> within_window (run w evs) evs /\ window (run w evs) = w.
Proof.
  induction evs as [|e evs IH] using rev_ind; intros Hs.
  { split; [| done]. intros id n. cbn. by rewrite lookup_empty. }
  apply steady_snoc in Hs as (Hs & Hnow & Hclk & Hle). destruct (IH Hs) as [Hw Hwin].
  unfold run. rewrite foldl_app. split; [| exact Hwin].
  apply recorded_window; [apply run_counted | done | done | done | done].
Qed.

Lemma add_sample_sums evs e : add_sample (sums_of evs) (stamped e) = sums_of (evs ++ [e]).
Proof.
  assert (forall f z, f (c_m e) = z -> wrap64 (wrap64 (sum f evs) + z) = wrap64 (sum f (evs ++ [e]))) as Hadd.
  { intros f z <-. apply wrap_sum_snoc. }
  unfold add_sample, sums_of, stamped, sample_of. cbn [sm_prefillTokens sm_decodeTokens sm_prefillMs sm_decodeMs sm_ttftMs
    sm_hasTtft su_prefillTokens su_decodeTokens su_prefillMs su_decodeMs su_ttftMs su_ttftRequests].
  destruct (m_TtftMs (c_m e)) eqn:E; f_equal; first [apply Hadd | apply wrap_sum_zero]; by rewrite ?E.
Qed.

Lemma fold_samples evs : foldl add_sample (mkSums 0 0 0 0 0 0) (stamped <$> evs) = sums_of evs.
Proof.
  induction evs as [|e evs IH] using rev_ind; [done |]. by rewrite fmap_app, foldl_app, IH, <- add_sample_sums.
Qed.

Lemma foldl_filtered {A B} (f : A -> bool) (g : B -> A -> B) l b :
  foldl (fun b x => if f x then g b x else b) b l = foldl g b (List.filter f l).
Proof. revert b. induction l as [|x l IH]; intros b; cbn; [done |]. by destruct (f x); cbn; rewrite IH. Qed.

Lemma ratesFor_exact w evs id n end_ :
  steady evs -> Forall (fun e => c_clock e <= end_) evs -> end_ < 2 ^ 62 -> nodes (run w evs) !! id = Some n ->
  ratesFor w n end_ = rates_of (sums_of (List.filter (in_window w end_) (of_node id evs))).
Proof.
  intros Hs Hend Hlt Hn. destruct (run_window w evs Hs) as [Hw Hwin]. destruct (Hw id n Hn) as [_ H2]. rewrite Hwin in H2.
  unfold ratesFor. rewrite foldl_filtered, H2, fold_samples; [done | | done].
  destruct Hs as [_ Hf]. rewrite Forall_forall in *. intros e He. specialize (Hf e He). specialize (Hend e He). lia.
Qed.

(** ** Contents *)

(** A completion without its instants, and an entry without its rates. *)
Definition content (e : completion) : string * string * Measurement := (c_node e, c_model e, c_m e).
Definition without_rates (x : NodeSnapshot) : string * Totals * list ModelTotals := (ns_NodeId x, ns_Totals x, ns_Models x).

Lemma sum_content f l l' : content <$> l ≡ₚ content <$> l' -> sum f l = sum f l'.
Proof.
  intros Hp. assert (forall l, sum f l = foldr Z.add 0 ((fun x => f x.2) <$> (content <$> l))) as E.
  { intros k. unfold sum. by rewrite <- list_fmap_compose. }
  rewrite !E. clear E. induction Hp; cbn in *; lia.
Qed.

Lemma totals_of_content l l' : content <$> l ≡ₚ content <$> l' -> totals_of l = totals_of l'.
Proof. intros Hp. unfold totals_of. f_equal; f_equal; by apply sum_content. Qed.

Lemma filter_content (g : completion -> bool) (h : string * string * Measurement -> bool) l l' :
  (forall e, g e = h (content e)) -> content <$> l ≡ₚ content <$> l' ->
  content <$> List.filter g l ≡ₚ content <$> List.filter g l'.
Proof.
  intros Hg. assert (forall l, content <$> List.filter g l = List.filter h (content <$> l)) as E.
  { intros k. induction k as [|x k IH]; [done |]. cbn. rewrite <- IH, <- Hg. by destruct (g x). }
  intros Hp. rewrite !E. by apply lfilter_perm.
Qed.

Lemma content_names l l' (h : string * string * Measurement -> string) :
  content <$> l ≡ₚ content <$> l' -> names_of (fun e => h (content e)) l = names_of (fun e => h (content e)) l'.
Proof. intros Hp. apply names_of_perm. rewrite !(list_fmap_compose content h). by apply fmap_Permutation. Qed.

Lemma Snapshot_totals `{!MapRange} w evs now :
  without_rates <$> Snapshot (run w evs) now =
  (fun id => (id, totals_of (of_node id evs),
              (fun model => mkModelTotals model (totals_of (of_model model (of_node id evs)))) <$> names_of c_model (of_node id evs)))
  <$> names_of c_node evs.
Proof.
  pose proof (run_counted w evs) as Hc. rewrite (Snapshot_counted _ evs now Hc).
  assert (forall id, id ∈ names_of c_node evs -> is_Some (nodes (run w evs) !! id)) as Hall.
  { intros id Hid%elem_of_names%filter_nonempty. specialize (Hc id). destruct (nodes (run w evs) !! id); [eauto | done]. }
  revert Hall. generalize (names_of c_node evs) as l. induction l as [|id l IH]; intros Hall; [done |].
  destruct (Hall id ltac:(left)) as [n Hn]. cbn. rewrite Hn. cbn. f_equal. apply IH. intros k Hk. apply Hall. by right.
Qed.

(** ** Rates *)

Definition finite_rates (r : Rates) : Prop :=
  is_finite (PrefillTokensPerSecond r) /\ is_finite (DecodeTokensPerSecond r) /\ is_finite (MeanTtftMs r).

Lemma tokensPerSecond_finite tokens ms : in_int64 tokens -> in_int64 ms -> is_finite (tokensPerSecond tokens ms).
Proof.
  intros Ht Hm. unfold tokensPerSecond. destruct (Z.leb_spec ms 0); [done |].
  assert (near 1 65 (F64.of_Z 1000)) as Hk by (apply of_Z_near; [done | unfold in_int64; lia]).
  eapply int_div_finite; [done | apply (div_near 1 65 1 65); [apply of_Z_near; [lia | done] | done | lia | lia] | lia | lia].
Qed.

Lemma mean_finite total count : in_int64 total -> in_int64 count -> 0 < count -> is_finite (F64.div (F64.of_Z total) (F64.of_Z count)).
Proof. intros Ht Hc Hpos. eapply int_div_finite; [done | apply of_Z_near; [lia | done] | lia | lia]. Qed.

Definition in_range (a : sums) : Prop :=
  in_int64 (su_prefillTokens a) /\ in_int64 (su_decodeTokens a) /\ in_int64 (su_prefillMs a) /\
  in_int64 (su_decodeMs a) /\ in_int64 (su_ttftMs a) /\ in_int64 (su_ttftRequests a).

Lemma add_sample_range a sm : in_range a -> in_range (add_sample a sm).
Proof. intros (? & ? & ? & ? & ? & ?). unfold in_range, add_sample. cbn. destruct (sm_hasTtft sm); eauto 10 with pair. Qed.

Lemma rates_of_finite a : in_range a -> finite_rates (rates_of a).
Proof.
  intros (? & ? & ? & ? & ? & ?). split; [| split]; cbn; try by apply tokensPerSecond_finite.
  destruct (Z.ltb_spec 0 (su_ttftRequests a)); [by apply mean_finite | done].
Qed.

Lemma ratesFor_finite w n end_ : finite_rates (ratesFor w n end_).
Proof.
  apply rates_of_finite. rewrite foldl_filtered.
  assert (in_range (mkSums 0 0 0 0 0 0)) as H by (unfold in_range, in_int64; cbn; lia). revert H.
  generalize (mkSums 0 0 0 0 0 0) as a. induction (List.filter _ (samples n)) as [|sm l IH]; intros a Ha; [done |].
  by apply IH, add_sample_range.
Qed.

(** * Properties *)

(** C32. The snapshot is what its definition promises: one entry for every node that
    recorded a completion, in order, with the sums of all its measurements, the same sums
    per model, and rates that are summed tokens over summed seconds of exactly the node's
    completions inside the window - although the store forgets samples as it goes. *)
Theorem snapshot_exact `{!MapRange} (w now : Z) (evs : list completion) :
  steady evs -> Forall (fun e => c_clock e <= now) evs -> now < 2 ^ 62 ->
  Snapshot (run w evs) now =
  (fun id =>
     let mine := of_node id evs in
     mkNodeSnapshot id (totals_of mine) (rates_of (sums_of (List.filter (in_window w now) mine)))
       ((fun model => mkModelTotals model (totals_of (of_model model mine))) <$> names_of c_model mine))
  <$> names_of c_node evs.
Proof.
  intros Hs Hnow Hlt. pose proof (run_counted w evs) as Hc. rewrite (Snapshot_counted _ evs now Hc).
  apply omap_all. intros id Hid%elem_of_names%filter_nonempty. specialize (Hc id).
  destruct (nodes (run w evs) !! id) as [n|] eqn:E; [| by destruct Hid]. cbn.
  by rewrite (proj2 (run_window w evs Hs)), (ratesFor_exact w evs id n now).
Qed.

(** Members agree on totals.  Two brokers that saw the same completions - in
    different orders, at different times, on clocks that need not even run forwards, with
    different windows - list the same nodes with the same totals and the same models. *)
Theorem members_agree (R R' : MapRange) (w w' now now' : Z) (evs evs' : list completion) :
  content <$> evs ≡ₚ content <$> evs' ->
  without_rates <$> @Snapshot R (run w evs) now = without_rates <$> @Snapshot R' (run w' evs') now'.
Proof.
  intros Hp. rewrite !Snapshot_totals.
  assert (names_of c_node evs = names_of c_node evs') as <- by apply (content_names evs evs' (fun x => x.1.1) Hp).
  apply list_fmap_ext. intros _ id _.
  assert (content <$> of_node id evs ≡ₚ content <$> of_node id evs') as Hid
    by (by apply (filter_content _ (fun x => bool_decide (x.1.1 = id)))).
  rewrite (totals_of_content _ _ Hid). f_equal.
  assert (names_of c_model (of_node id evs) = names_of c_model (of_node id evs')) as <-
    by apply (content_names _ _ (fun x => x.1.2) Hid).
  apply list_fmap_ext. intros _ model _. f_equal. apply totals_of_content.
  by apply (filter_content _ (fun x => bool_decide (x.1.2 = model))).
Qed.

(** A rate is always a number: whatever was recorded, reported or missing, on
    whatever clock, with totals that may have wrapped around, no rate of a snapshot is NaN
    or infinite. *)
Theorem rates_finite `{!MapRange} (s : Store) (now : Z) :
  Forall (fun x => finite_rates (ns_Rates x)) (Snapshot s now).
Proof.
  apply Forall_forall. intros x (id & _ & Hx)%list_elem_of_omap.
  destruct (nodes s !! id) as [n|]; [| done]. injection Hx as <-. apply ratesFor_finite.
Qed.

(** * Witnesses *)

Definition ex_measured (tokens ms : Z) : Measurement :=
  mkMeasurement (Some 10) (Some tokens) None (Some 20) (Some ms) (Some 30) None.

Definition ex_completions : list completion :=
  [mkCompletion "b" "m" (ex_measured 100 500) 1000 1000; mkCompletion "a" "m" (ex_measured 4 8) 2000 2500;
   mkCompletion "b" "n" (mkMeasurement None None None None None None None) 3000 3000].

Lemma snapshot_exact_witness :
  (fun x => (ns_NodeId x, Requests (ns_Totals x), DecodeTokens (ns_Totals x), length (ns_Models x)))
    <$> @Snapshot ascending_range (run 1500 ex_completions) 3200 = [("a", 1, 4, 1%nat); ("b", 2, 100, 2%nat)].
Proof.
  rewrite (@snapshot_exact ascending_range 1500 3200 ex_completions).
  - vm_compute. reflexivity.
  - split; [repeat constructor; cbn; lia | repeat constructor; cbn; lia].
  - repeat constructor; cbn; lia.
  - lia.
Defined.

Lemma members_agree_witness :
  without_rates <$> @Snapshot ascending_range (run 1500 ex_completions) 3200 =
  without_rates <$> @Snapshot descending_range (run 60 (rev ex_completions)) 0.
Proof. apply (members_agree ascending_range descending_range). apply fmap_Permutation, Permutation_rev. Defined.
