(* ===== verification/LiveProgress.v ===== *)
(** The broker's live job views (services/nvpair-ui-broker/liveprogress.go,
    services/shared/inferencemetrics/progress.go): partial progress frames merged per job,
    a bounded LRU of views and the memory of retired jobs that keeps them dark. *)
From S2P Require Import Prelude.
From S2P Require Import GoList.
From Stdlib Require Import SpecFloat.

Open Scope string_scope.
Open Scope list_scope.
Open Scope Z_scope.

(** * Data *)

Record EngineProgress : Type := mkEngineProgress {
  ep_RequestID : string;
  ep_Phase : string;
  ep_GeneratedTokens : option Z;
  ep_TokensPerSecond : option spec_float;
  ep_PrefillProgress : option spec_float;
  ep_QueuePosition : option Z
}.

Record ProgressFrame : Type := mkFrame {
  pf_JobID : string;
  pf_NodeID : string;
  pf_OriginatedFrom : string;
  pf_Engine : string;
  pf_RunID : string;
  pf_ElapsedMs : option Z;
  pf_Chunks : option Z;
  pf_Bytes : option Z;
  pf_TTFBMs : option Z;
  pf_EngineProgress : option EngineProgress
}.

Record liveJobKey : Type := mkLiveKey { lk_origin : string; lk_engine : string; lk_jobID : string }.

#[export] Instance liveJobKey_eq_dec : EqDecision liveJobKey.
Proof. solve_decision. Defined.
#[export] Instance liveJobKey_countable : Countable liveJobKey.
Proof.
  refine (inj_countable' (fun k => (lk_origin k, lk_engine k, lk_jobID k)) (fun x => mkLiveKey x.1.1 x.1.2 x.2) _).
  by intros [].
Defined.

Record liveJob : Type := mkLiveJob { lj_key : liveJobKey; lj_frame : ProgressFrame }.

Record retiredRule : Type := mkRule { rr_origin : string; rr_engine : string; rr_runID : string; rr_jobID : string }.

Record retiredEntry : Type := mkRetired { re_jobID : string; re_rules : list retiredRule }.

Definition liveProgressCapacity : Z := 512.
Definition retiredProgressCapacity : Z := 4096.

(** A retired entry is kept in its list element, which the map names. *)
Record liveProgressIndex : Type := mkIndex {
  capacity : Z;
  order : glist liveJob;
  entries : gmap liveJobKey nat;
  retiredCapacity : Z;
  retiredOrder : glist retiredEntry;
  retired : gmap string nat
}.

Definition newLiveProgressIndex (cap : Z) : liveProgressIndex :=
  mkIndex (if cap <=? 0 then liveProgressCapacity else cap) empty_list ∅ retiredProgressCapacity empty_list ∅.

Definition set_views (i : liveProgressIndex) (l : glist liveJob) (m : gmap liveJobKey nat) : liveProgressIndex :=
  mkIndex (capacity i) l m (retiredCapacity i) (retiredOrder i) (retired i).
Definition set_retired (i : liveProgressIndex) (l : glist retiredEntry) (m : gmap string nat) : liveProgressIndex :=
  mkIndex (capacity i) (order i) (entries i) (retiredCapacity i) l m.

(** * Operations *)

Definition stampProgressOrigin (frame : ProgressFrame) (nodeID : string) : ProgressFrame :=
  if bool_decide (pf_OriginatedFrom frame = "") then
    mkFrame (pf_JobID frame) (pf_NodeID frame) nodeID (pf_Engine frame) (pf_RunID frame) (pf_ElapsedMs frame)
      (pf_Chunks frame) (pf_Bytes frame) (pf_TTFBMs frame) (pf_EngineProgress frame)
  else frame.

(** [retiredRule.matches] *)
Definition matches (r : retiredRule) (key : liveJobKey) (runID : string) : bool :=
  if negb (bool_decide (rr_jobID r = lk_jobID key)) then false
  else if negb (bool_decide (rr_origin r = "")) && negb (bool_decide (rr_origin r = lk_origin key)) then false
  else if negb (bool_decide (rr_engine r = "")) && negb (bool_decide (rr_engine r = lk_engine key)) then false
  else if negb (bool_decide (rr_runID r = "")) && negb (bool_decide (runID = "")) &&
          negb (bool_decide (rr_runID r = runID)) then false
  else true.

Definition carried (incoming stored : string) : string := if bool_decide (incoming = "") then stored else incoming.
Definition reported {A} (incoming stored : option A) : option A := match incoming with Some _ => incoming | None => stored end.

Definition mergeProgress (stored incoming : ProgressFrame) : ProgressFrame :=
  mkFrame (pf_JobID stored)
    (carried (pf_NodeID incoming) (pf_NodeID stored))
    (carried (pf_OriginatedFrom incoming) (pf_OriginatedFrom stored))
    (carried (pf_Engine incoming) (pf_Engine stored))
    (carried (pf_RunID incoming) (pf_RunID stored))
    (reported (pf_ElapsedMs incoming) (pf_ElapsedMs stored))
    (reported (pf_Chunks incoming) (pf_Chunks stored))
    (reported (pf_Bytes incoming) (pf_Bytes stored))
    (reported (pf_TTFBMs incoming) (pf_TTFBMs stored))
    (reported (pf_EngineProgress incoming) (pf_EngineProgress stored)).

(** The loop that drops the back of a list until it is within its bound, for the views
    and for the retired jobs; each round removes an element, so the list's length bounds
    the rounds. *)
Fixpoint drop_back {A K} `{Countable K} (key : A -> K) (fuel : nat) (cap : Z) (l : glist A) (m : gmap K nat) :
    glist A * gmap K nat :=
  match fuel with
  | O => (l, m)
  | S fuel =>
      if cap <? Z.of_nat (ListLen l) then
        match Back l with
        | None => (l, m)
        | Some oldest =>
            drop_back key fuel cap (RemoveElt l oldest)
              (match Value l oldest with Some v => delete (key v) m | None => m end)
        end
      else (l, m)
  end.

Definition evictLocked (i : liveProgressIndex) : liveProgressIndex :=
  let '(l, m) := drop_back lj_key (ListLen (order i)) (capacity i) (order i) (entries i) in set_views i l m.

Definition isRetiredLocked (i : liveProgressIndex) (key : liveJobKey) (runID : string) : bool :=
  match retired i !! lk_jobID key with
  | None => false
  | Some el =>
      match Value (retiredOrder i) el with
      | None => false
      | Some entry => existsb (fun rule => matches rule key runID) (re_rules entry)
      end
  end.

Definition bare_frame (key : liveJobKey) (runID : string) : ProgressFrame :=
  mkFrame (lk_jobID key) "" (lk_origin key) (lk_engine key) runID None None None None None.

Definition frame_key (frame : ProgressFrame) : liveJobKey :=
  mkLiveKey (pf_OriginatedFrom frame) (pf_Engine frame) (pf_JobID frame).

(** A frame of another run replaces the view of a recycled job id. *)
Definition merged (key : liveJobKey) (stored frame : ProgressFrame) : ProgressFrame :=
  mergeProgress
    (if negb (bool_decide (pf_RunID stored = "")) && negb (bool_decide (pf_RunID frame = "")) &&
        negb (bool_decide (pf_RunID stored = pf_RunID frame))
     then bare_frame key (pf_RunID frame) else stored) frame.

Definition merge (i : liveProgressIndex) (frame : ProgressFrame) : liveProgressIndex * option ProgressFrame :=
  if bool_decide (pf_JobID frame = "") || bool_decide (pf_Engine frame = "") then (i, None)
  else
    let key := frame_key frame in
    if isRetiredLocked i key (pf_RunID frame) then (i, None)
    else
      match entries i !! key with
      | None =>
          let job := mkLiveJob key (bare_frame key "") in
          let '(l, el) := PushFront (order i) job in
          let i := evictLocked (set_views i l (<[key := el]> (entries i))) in
          let view := merged key (lj_frame job) frame in
          (set_views i (SetValue (order i) el (mkLiveJob key view)) (entries i), Some view)
      | Some el =>
          let l := MoveToFront (order i) el in
          match Value l el with
          | None => (i, None)
          | Some job =>
              let view := merged key (lj_frame job) frame in
              (set_views i (SetValue l el (mkLiveJob (lj_key job) view)) (entries i), Some view)
          end
      end.

Definition markRetiredLocked (i : liveProgressIndex) (rule : retiredRule) : liveProgressIndex :=
  let '(l, m, el, entry) :=
    match retired i !! rr_jobID rule with
    | None =>
        let entry := mkRetired (rr_jobID rule) [] in
        let '(l, el) := PushFront (retiredOrder i) entry in
        (l, <[rr_jobID rule := el]> (retired i), el, entry)
    | Some el =>
        (MoveToFront (retiredOrder i) el, retired i, el,
         default (mkRetired (rr_jobID rule) []) (Value (retiredOrder i) el))
    end in
  let l := SetValue l el (mkRetired (re_jobID entry) (re_rules entry ++ [rule])) in
  let '(l, m) := drop_back re_jobID (ListLen l) (retiredCapacity i) l m in
  set_retired i l m.

Definition drop_covered (rule : retiredRule) (lm : glist liveJob * gmap liveJobKey nat) (p : nat * liveJob) :
    glist liveJob * gmap liveJobKey nat :=
  if matches rule (lj_key p.2) (pf_RunID (lj_frame p.2)) then
    (RemoveElt lm.1 p.1, delete (lj_key p.2) lm.2)
  else lm.

Definition retire (i : liveProgressIndex) (rule : retiredRule) : liveProgressIndex :=
  if bool_decide (rr_jobID rule = "") then i
  else
    let '(l, m) := foldl (drop_covered rule) (order i, entries i) (elems (order i)) in
    markRetiredLocked (set_views i l m) rule.

Definition get (i : liveProgressIndex) (origin engine jobID : string) : option ProgressFrame :=
  match entries i !! mkLiveKey origin engine jobID with
  | None => None
  | Some el => lj_frame <$> Value (order i) el
  end.

Definition len (i : liveProgressIndex) : nat := size (entries i).

(** * The abstract index *)

(** The views, most recently updated first, and the retired jobs, most recently first. *)
Record spec : Type := mkSpec { sp_views : list liveJob; sp_retired : list retiredEntry }.

Definition of_job (key : liveJobKey) (j : liveJob) : bool := bool_decide (lj_key j = key).
Definition not_job (key : liveJobKey) (j : liveJob) : bool := negb (of_job key j).
Definition rules_of (s : spec) (jobID : string) : list retiredRule :=
  match List.find (fun r => bool_decide (re_jobID r = jobID)) (sp_retired s) with Some r => re_rules r | None => [] end.
Definition is_retired (s : spec) (key : liveJobKey) (runID : string) : bool :=
  existsb (fun rule => matches rule key runID) (rules_of s (lk_jobID key)).

Definition spec_merge (cap : nat) (s : spec) (frame : ProgressFrame) : spec * option ProgressFrame :=
  let key := frame_key frame in
  if bool_decide (pf_JobID frame = "") || bool_decide (pf_Engine frame = "") || is_retired s key (pf_RunID frame)
  then (s, None)
  else
    let stored := match List.find (of_job key) (sp_views s) with Some j => lj_frame j | None => bare_frame key "" end in
    let view := merged key stored frame in
    (mkSpec (take cap (mkLiveJob key view :: List.filter (not_job key) (sp_views s))) (sp_retired s), Some view).

Definition covered (rule : retiredRule) (j : liveJob) : bool := matches rule (lj_key j) (pf_RunID (lj_frame j)).

Definition spec_retire (rcap : nat) (s : spec) (rule : retiredRule) : spec :=
  if bool_decide (rr_jobID rule = "") then s
  else
    mkSpec (List.filter (fun j => negb (covered rule j)) (sp_views s))
      (take rcap (mkRetired (rr_jobID rule) (rules_of s (rr_jobID rule) ++ [rule]) ::
                  List.filter (fun r => negb (bool_decide (re_jobID r = rr_jobID rule))) (sp_retired s))).

Definition spec_get (s : spec) (key : liveJobKey) : option ProgressFrame :=
  lj_frame <$> List.find (of_job key) (sp_views s).

(** * Facts: the index implements the abstract one *)

Lemma drop_back_spec {A K} `{Countable K} (key : A -> K) fuel cap (l : glist A) m :
  linked key m l -> 0 <= cap -> (ListLen l <= fuel)%nat ->
  let '(l', m') := drop_back key fuel cap l m in
  linked key m' l' /\ values l' = take (Z.to_nat cap) (values l) /\ m' ⊆ m.
Proof.
  intros Hl Hcap. revert l m Hl. induction fuel as [|fuel IH]; intros l m Hl Hf; cbn [drop_back].
  all: assert (ListLen l = length (values l)) as Hlen by (unfold ListLen, values; by rewrite length_fmap).
  { split_and!; [done | | done]. by rewrite take_ge by lia. }
  destruct (Z.ltb_spec cap (Z.of_nat (ListLen l))) as [Hlt | Hge].
  2: { split_and!; [done | | done]. by rewrite take_ge by lia. }
  destruct (values l) as [|v xs _] eqn:Ev using rev_ind; [cbn in Hlen; lia |].
  destruct (back_value key m l xs v Hl Ev) as (e & -> & Hv & Hrm). rewrite Hv.
  destruct (linked_remove key m l e v Hl Hv) as (Hl' & _ & _). rewrite length_app in Hlen. cbn in Hlen.
  assert (ListLen (RemoveElt l e) = length xs) as Hlen' by (rewrite <- Hrm; unfold ListLen, values; by rewrite length_fmap).
  specialize (IH _ _ Hl' ltac:(lia)). destruct (drop_back key fuel cap _ _) as [l' m'].
  destruct IH as (IH1 & IH2 & IH3). split_and!; [done | | etrans; [done | apply delete_subseteq]].
  rewrite IH2, Hrm, take_app_le by lia. done.
Qed.

Record index_ok (i : liveProgressIndex) : Prop := {
  iv_views : linked lj_key (entries i) (order i);
  iv_retired : linked re_jobID (retired i) (retiredOrder i);
  iv_cap : 0 < capacity i;
  iv_rcap : 0 < retiredCapacity i;
  iv_len : (length (values (order i)) <= Z.to_nat (capacity i))%nat;
  iv_rlen : (length (values (retiredOrder i)) <= Z.to_nat (retiredCapacity i))%nat
}.

Definition abstract (i : liveProgressIndex) : spec := mkSpec (values (order i)) (values (retiredOrder i)).

(** A step keeps the bounds; the shape of the index is its own and its abstraction the specification's. *)
Definition implements (i i' : liveProgressIndex) (s' : spec) : Prop :=
  index_ok i' /\ abstract i' = s' /\ capacity i' = capacity i /\ retiredCapacity i' = retiredCapacity i.

Lemma isRetired_abstract i key runID : index_ok i -> isRetiredLocked i key runID = is_retired (abstract i) key runID.
Proof.
  intros Hi. unfold isRetiredLocked, is_retired, rules_of, abstract. cbn [sp_retired].
  change (List.find _ (values (retiredOrder i))) with
    (List.find (with_key re_jobID (lk_jobID key)) (values (retiredOrder i))).
  destruct (retired i !! lk_jobID key) as [el|] eqn:E.
  - destruct (entries_Value _ _ _ _ _ (iv_retired i Hi) E) as (r & -> & Hin & _).
    by rewrite (find_values _ _ _ _ _ _ (iv_retired i Hi) E Hin).
  - by rewrite (find_values_none _ _ _ _ (iv_retired i Hi) E).
Qed.

(** Rewriting the value of the front element, whose key is nowhere else. *)
Lemma set_front {A K} `{Countable K} (key : A -> K) k (v0 v : A) l :
  key v0 = k -> k ∉ key <$> l -> (fun x => if bool_decide (key x = k) then v else x) <$> v0 :: l = v :: l.
Proof.
  intros Hv Hl. rewrite fmap_cons, bool_decide_true by done. f_equal.
  induction l as [|x l IH]; [done |]. rewrite fmap_cons in *. apply not_elem_of_cons in Hl as [Hx Hl].
  rewrite bool_decide_false by done. by rewrite IH.
Qed.

Lemma not_in_others {A K} `{Countable K} (key : A -> K) k l : k ∉ key <$> List.filter (other_key key k) l.
Proof. intros (v & -> & [_ Hv]%elem_of_bfilter)%list_elem_of_fmap. unfold other_key in Hv. by rewrite bool_decide_true in Hv. Qed.

Lemma merge_implements i frame :
  index_ok i ->
  implements i (merge i frame).1 (spec_merge (Z.to_nat (capacity i)) (abstract i) frame).1 /\
  (merge i frame).2 = (spec_merge (Z.to_nat (capacity i)) (abstract i) frame).2.
Proof.
  intros Hi. unfold merge, spec_merge. rewrite <- isRetired_abstract by done.
  destruct (bool_decide (pf_JobID frame = "") || bool_decide (pf_Engine frame = "")); cbn [orb]; [done |].
  destruct (isRetiredLocked i _ _); [done |]. set (key := frame_key frame). unfold abstract. cbn [sp_views sp_retired].
  change (List.find (of_job key) (values (order i))) with (List.find (with_key lj_key key) (values (order i))).
  change (List.filter (not_job key) (values (order i))) with (List.filter (other_key lj_key key) (values (order i))).
  pose proof (iv_views i Hi) as Hl. pose proof (iv_cap i Hi) as Hcap. destruct (entries i !! key) as [el|] eqn:Ek.
  - destruct (entries_Value _ _ _ _ _ Hl Ek) as (j & _ & Hin & Hj). rewrite (find_values _ _ _ _ _ _ Hl Ek Hin).
    rewrite (touch_move _ _ _ _ _ _ Hl Ek Hin). destruct (linked_touch _ _ _ _ _ _ Hl Ek Hj) as [Hl' Hr'].
    assert (Value (touched (order i) el j) el = Some j) as ->.
    { apply Value_elem; [apply Hl' |]. left. }
    cbn [fst snd]. rewrite Hj. split; [| done].
    destruct (linked_set lj_key _ _ key el (mkLiveJob key (merged key (lj_frame j) frame)) Hl' Ek eq_refl) as [Hs Hv].
    assert (values (SetValue (touched (order i) el j) el (mkLiveJob key (merged key (lj_frame j) frame))) =
      mkLiveJob key (merged key (lj_frame j) frame) :: List.filter (other_key lj_key key) (values (order i))) as Hvals
      by (by rewrite Hv, Hr', set_front by (done || apply not_in_others)).
    pose proof (find_filter_lt _ _ _ _ (find_values _ _ _ _ _ _ Hl Ek Hin)). pose proof (iv_len i Hi).
    split; [split; try apply Hi; [exact Hs | cbn [set_views order capacity]; rewrite Hvals; cbn; lia] |]. split; [| done].
    unfold abstract. cbn [set_views order retiredOrder]. rewrite Hvals. f_equal. symmetry. apply take_ge. cbn. lia.
  - rewrite (find_values_none _ _ _ _ Hl Ek). cbn [lj_frame].
    rewrite (filter_other_absent _ _ _ (find_values_none _ _ _ _ Hl Ek)).
    set (job := mkLiveJob key (bare_frame key "")).
    pose proof (linked_push lj_key _ _ key job Hl Ek eq_refl) as Hpush.
    assert (values (PushFront (order i) job).1 = job :: values (order i)) as Hpv by done.
    destruct (PushFront (order i) job) as [l el] eqn:Ep. cbn [fst snd] in *.
    unfold evictLocked. cbn [set_views order entries capacity].
    pose proof (drop_back_spec lj_key (ListLen l) (capacity i) l _ Hpush ltac:(lia) ltac:(lia)) as Hdrop.
    destruct (drop_back lj_key (ListLen l) (capacity i) l _) as [l' m']. destruct Hdrop as (Hl' & Hv' & Hsub).
    assert (exists rest, values l' = job :: rest /\ rest = take (pred (Z.to_nat (capacity i))) (values (order i))) as (rest & Hrest & Erest).
    { rewrite Hv', Hpv. destruct (Z.to_nat (capacity i)) eqn:E; [lia |]. cbn. eauto. }
    assert (m' !! key = Some el) as Hel.
    { destruct (proj2 (entries_dom lj_key _ _ key Hl')) as [e' He']; [rewrite Hrest; left |].
      pose proof (lookup_weaken _ _ _ _ He' Hsub) as Hw. rewrite lookup_insert_eq in Hw. by injection Hw as ->. }
    destruct (linked_set lj_key _ _ key el (mkLiveJob key (merged key (bare_frame key "") frame)) Hl' Hel eq_refl) as [Hs Hv].
    assert (key ∉ lj_key <$> rest) as Hnot.
    { intros Hin. assert (key ∈ lj_key <$> values (order i)) as H2.
      { rewrite Erest in Hin. apply list_elem_of_fmap in Hin as (y & -> & Hy). apply list_elem_of_fmap_2.
        by eapply subseteq_take. }
      apply (entries_dom lj_key _ _ key Hl) in H2. rewrite Ek in H2. by destruct H2. }
    assert (values (SetValue l' el (mkLiveJob key (merged key (bare_frame key "") frame))) =
            take (Z.to_nat (capacity i)) (mkLiveJob key (merged key (bare_frame key "") frame) :: values (order i))) as Hvals.
    { rewrite Hv, Hrest, set_front by done. destruct (Z.to_nat (capacity i)) eqn:E; [lia |]. cbn. by rewrite Erest. }
    cbn [fst snd set_views order entries capacity retiredCapacity retiredOrder retired]. split; [| done].
    split; [split; try apply Hi; [exact Hs | cbn [set_views order capacity]; rewrite Hvals, length_take; lia] |].
    split; [| done]. unfold abstract. cbn [set_views order retiredOrder]. by rewrite Hvals.
Qed.

(** Dropping the covered views of a suffix keeps the uncovered ones of what was passed. *)
Lemma drop_covered_spec rule xs pre l m :
  linked lj_key m l -> elems l = List.filter (fun p => negb (covered rule p.2)) pre ++ xs ->
  let '(l', m') := foldl (drop_covered rule) (l, m) xs in
  linked lj_key m' l' /\ elems l' = List.filter (fun p => negb (covered rule p.2)) (pre ++ xs).
Proof.
  revert pre l m. induction xs as [|[e j] xs IH]; intros pre l m Hl He; cbn [foldl].
  { by rewrite app_nil_r in *. }
  unfold drop_covered at 2. cbn [fst snd]. fold (covered rule j).
  replace (pre ++ (e, j) :: xs) with ((pre ++ [(e, j)]) ++ xs) by (by rewrite <- app_assoc).
  destruct (covered rule j) eqn:Ec.
  - assert (Value l e = Some j) as Hv by (apply Value_elem; [apply Hl | rewrite He; set_solver]).
    apply (IH (pre ++ [(e, j)])); [by apply linked_remove |].
    cbn [RemoveElt elems]. rewrite He, others_split by (rewrite <- He; apply Hl).
    rewrite List.filter_app. cbn. rewrite Ec. cbn. by rewrite app_nil_r.
  - apply IH; [done |]. rewrite He, List.filter_app. cbn. rewrite Ec. cbn. by rewrite <- app_assoc.
Qed.

Lemma values_filter {A} (f : A -> bool) (xs : list (nat * A)) :
  (List.filter (fun p => f p.2) xs).*2 = List.filter f xs.*2.
Proof. induction xs as [|[e a] xs IH]; [done |]. cbn. destruct (f a); cbn; by rewrite IH. Qed.

Lemma mark_implements i rule :
  index_ok i ->
  implements i (markRetiredLocked i rule)
    (mkSpec (values (order i))
       (take (Z.to_nat (retiredCapacity i))
          (mkRetired (rr_jobID rule) (rules_of (abstract i) (rr_jobID rule) ++ [rule]) ::
           List.filter (other_key re_jobID (rr_jobID rule)) (values (retiredOrder i))))).
Proof.
  intros Hi. pose proof (iv_retired i Hi) as Hl. pose proof (iv_rcap i Hi) as Hcap.
  unfold markRetiredLocked, rules_of. cbn [abstract sp_retired].
  change (List.find _ (values (retiredOrder i))) with (List.find (with_key re_jobID (rr_jobID rule)) (values (retiredOrder i))).
  set (new := mkRetired (rr_jobID rule) (_ ++ [rule])).
  assert (exists l m, (let '(l, m, el, entry) :=
      match retired i !! rr_jobID rule with
      | None => let entry := mkRetired (rr_jobID rule) [] in let '(l, el) := PushFront (retiredOrder i) entry in
          (l, <[rr_jobID rule := el]> (retired i), el, entry)
      | Some el => (MoveToFront (retiredOrder i) el, retired i, el,
          default (mkRetired (rr_jobID rule) []) (Value (retiredOrder i) el))
      end in (SetValue l el (mkRetired (re_jobID entry) (re_rules entry ++ [rule])), m)) = (l, m) /\
      linked re_jobID m l /\
      values l = new :: List.filter (other_key re_jobID (rr_jobID rule)) (values (retiredOrder i))) as (l & m & E & Hlm & Hv).
  { destruct (retired i !! rr_jobID rule) as [el|] eqn:Ek.
    - destruct (entries_Value _ _ _ _ _ Hl Ek) as (r & Hr & Hin & Hj). do 2 eexists. split; [reflexivity |].
      rewrite (touch_move _ _ _ _ _ _ Hl Ek Hin), Hr. destruct (linked_touch _ _ _ _ _ _ Hl Ek Hj) as [Hl' Hr'].
      destruct (linked_set re_jobID _ _ _ el new Hl' Ek eq_refl) as [Hs Hv]. subst new.
      rewrite (find_values _ _ _ _ _ _ Hl Ek Hin) in *. cbn [default id]. rewrite Hj in *. split; [exact Hs |].
      by rewrite Hv, Hr', set_front by (done || apply not_in_others).
    - do 2 eexists. split; [reflexivity |].
      pose proof (linked_push re_jobID _ _ _ (mkRetired (rr_jobID rule) []) Hl Ek eq_refl) as Hp.
      destruct (linked_set re_jobID _ _ (rr_jobID rule) (next_elt (retiredOrder i)) new Hp (lookup_insert_eq _ _ _) eq_refl) as [Hs Hv].
      subst new. rewrite (find_values_none _ _ _ _ Hl Ek) in *. split; [exact Hs |].
      etrans; [exact Hv |]. rewrite (filter_other_absent _ _ _ (find_values_none _ _ _ _ Hl Ek)). apply set_front; [done |].
      intros Hin%(entries_dom re_jobID _ _ _ Hl). rewrite Ek in Hin. by destruct Hin. }
  destruct (match retired i !! rr_jobID rule with Some _ => _ | None => _ end) as [[[l0 m0] el] entry].
  injection E as E1 E2. rewrite E1, E2.
  pose proof (drop_back_spec re_jobID (ListLen l) (retiredCapacity i) l m Hlm ltac:(lia) ltac:(lia)) as Hdrop.
  destruct (drop_back re_jobID (ListLen l) (retiredCapacity i) l m) as [l' m']. destruct Hdrop as (Hl' & Hv' & _).
  rewrite Hv in Hv'. split; [| split; [| done]].
  - split; try apply Hi; [exact Hl' |]. cbn [set_retired retiredOrder retiredCapacity]. rewrite Hv', length_take. lia.
  - unfold abstract. cbn [set_retired order retiredOrder]. by rewrite Hv'.
Qed.

Lemma retire_implements i rule :
  index_ok i -> implements i (retire i rule) (spec_retire (Z.to_nat (retiredCapacity i)) (abstract i) rule).
Proof.
  intros Hi. unfold retire, spec_retire. destruct (bool_decide (rr_jobID rule = "")); [done |].
  pose proof (drop_covered_spec rule (elems (order i)) [] (order i) (entries i) (iv_views i Hi) eq_refl) as Hd.
  destruct (foldl (drop_covered rule) (order i, entries i) (elems (order i))) as [l m]. destruct Hd as [Hl He].
  assert (values l = List.filter (fun j => negb (covered rule j)) (values (order i))) as Hv
    by (unfold values; by rewrite He, (values_filter (fun j => negb (covered rule j)))).
  assert (index_ok (set_views i l m)) as Hi'.
  { split; try apply Hi; [exact Hl |]. cbn [set_views order capacity]. rewrite Hv. pose proof (iv_len i Hi).
    pose proof (length_bfilter (fun j => negb (covered rule j)) (values (order i))). lia. }
  destruct (mark_implements (set_views i l m) rule Hi') as (H1 & H2 & H3). split; [exact H1 |]. split; [| exact H3].
  rewrite H2. cbn [set_views order abstract sp_views]. by rewrite Hv.
Qed.

(** * Histories *)

Inductive op : Type := OMerge (frame : ProgressFrame) | ORetire (rule : retiredRule).

Definition apply_op (i : liveProgressIndex) (o : op) : liveProgressIndex * option ProgressFrame :=
  match o with OMerge f => merge i f | ORetire r => (retire i r, None) end.
Definition run_ops (i : liveProgressIndex) (ops : list op) : liveProgressIndex := foldl (fun i o => (apply_op i o).1) i ops.
Fixpoint outputs (i : liveProgressIndex) (ops : list op) : list (option ProgressFrame) :=
  match ops with [] => [] | o :: ops => (apply_op i o).2 :: outputs (apply_op i o).1 ops end.

Definition spec_op (cap rcap : nat) (s : spec) (o : op) : spec * option ProgressFrame :=
  match o with OMerge f => spec_merge cap s f | ORetire r => (spec_retire rcap s r, None) end.
Definition spec_run (cap rcap : nat) (s : spec) (ops : list op) : spec := foldl (fun s o => (spec_op cap rcap s o).1) s ops.
Fixpoint spec_outputs (cap rcap : nat) (s : spec) (ops : list op) : list (option ProgressFrame) :=
  match ops with [] => [] | o :: ops => (spec_op cap rcap s o).2 :: spec_outputs cap rcap (spec_op cap rcap s o).1 ops end.

Lemma op_implements i o :
  index_ok i ->
  let s := spec_op (Z.to_nat (capacity i)) (Z.to_nat (retiredCapacity i)) (abstract i) o in
  implements i (apply_op i o).1 s.1 /\ (apply_op i o).2 = s.2.
Proof. intros Hi. destruct o as [f | r]; [by apply merge_implements |]. split; [by apply retire_implements | done]. Qed.

Lemma new_ok cap : index_ok (newLiveProgressIndex cap).
Proof.
  split; cbn; try apply linked_empty; unfold retiredProgressCapacity, liveProgressCapacity; try lia;
    destruct (Z.leb_spec cap 0); lia.
Qed.

Lemma run_implements i ops :
  index_ok i -> implements i (run_ops i ops) (spec_run (Z.to_nat (capacity i)) (Z.to_nat (retiredCapacity i)) (abstract i) ops).
Proof.
  revert i. induction ops as [|o ops IH]; intros i Hi; [done |]. cbn.
  destruct (op_implements i o Hi) as [(H1 & H2 & H3 & H4) _]. destruct (IH _ H1) as (J1 & J2 & J3 & J4).
  rewrite H2, H3, H4 in J2. split; [exact J1 |]. split; [exact J2 |]. unfold run_ops in *. split; congruence.
Qed.

Lemma outputs_implement i ops :
  index_ok i ->
  outputs i ops = spec_outputs (Z.to_nat (capacity i)) (Z.to_nat (retiredCapacity i)) (abstract i) ops.
Proof.
  revert i. induction ops as [|o ops IH]; intros i Hi; [done |]. cbn [outputs spec_outputs].
  destruct (op_implements i o Hi) as [(H1 & H2 & H3 & H4) H5]. by rewrite (IH _ H1), H2, H3, H4, H5.
Qed.

Lemma get_abstract i origin engine jobID : index_ok i -> get i origin engine jobID = spec_get (abstract i) (mkLiveKey origin engine jobID).
Proof.
  intros Hi. unfold get, spec_get, abstract. cbn [sp_views].
  change (List.find (of_job ?k) ?l) with (List.find (with_key lj_key k) l).
  destruct (entries i !! _) as [el|] eqn:E.
  - destruct (entries_Value _ _ _ _ _ (iv_views i Hi) E) as (j & -> & Hin & _).
    by rewrite (find_values _ _ _ _ _ _ (iv_views i Hi) E Hin).
  - by rewrite (find_values_none _ _ _ _ (iv_views i Hi) E).
Qed.

(** C39. The index is a bounded store of merged views.  Whatever frames and retirements
    arrive, it answers exactly as the specification does - a list of views, most recently
    updated first, cut at the capacity, and a list of retired jobs, cut at its own - and
    both stay within their bounds. *)
Theorem live_refines (cap : Z) (ops : list op) :
  let i := newLiveProgressIndex cap in
  let n := Z.to_nat (capacity i) in
  let rn := Z.to_nat retiredProgressCapacity in
  let s := spec_run n rn (mkSpec [] []) ops in
  let i' := run_ops i ops in
  outputs i ops = spec_outputs n rn (mkSpec [] []) ops /\
  (forall origin engine jobID, get i' origin engine jobID = spec_get s (mkLiveKey origin engine jobID)) /\
  Z.of_nat (len i') = Z.of_nat (length (sp_views s)) /\ Z.of_nat (len i') <= capacity i /\
  Z.of_nat (size (retired i')) <= retiredProgressCapacity.
Proof.
  intros i n rn s i'. pose proof (new_ok cap) as Hi. fold i in Hi.
  destruct (run_implements i ops Hi) as (H1 & H2 & H3 & H4). fold i' in H1, H2, H3, H4.
  assert (abstract i' = s) as Hs by exact H2. pose proof (outputs_implement i ops Hi) as Ho.
  split; [exact Ho |]. split; [intros; rewrite <- Hs; by apply get_abstract |].
  unfold len. rewrite (entries_size _ _ _ (iv_views i' H1)), (entries_size _ _ _ (iv_retired i' H1)).
  pose proof (iv_len i' H1). pose proof (iv_rlen i' H1). pose proof (iv_cap i Hi). pose proof (iv_rcap i Hi).
  rewrite <- Hs. cbn [abstract sp_views]. change retiredProgressCapacity with (retiredCapacity i). split; [done |]. split; lia.
Qed.

(** * Facts: finished jobs stay dark *)

(** No remembered rule covers a live view. *)
Definition views_live (s : spec) : Prop :=
  forall j, j ∈ sp_views s -> is_retired s (lj_key j) (pf_RunID (lj_frame j)) = false.

(** A rule is remembered behind the retirements of at most the jobs of [ids]. *)
Definition remembered (s : spec) (rule : retiredRule) (ids : gset string) : Prop :=
  exists xs e ys, sp_retired s = xs ++ e :: ys /\ re_jobID e = rr_jobID rule /\ rule ∈ re_rules e /\
    NoDup (re_jobID <$> xs) /\ forall r, r ∈ xs -> re_jobID r ∈ ids /\ re_jobID r <> rr_jobID rule.

Lemma remembered_rules s rule ids : remembered s rule ids -> rule ∈ rules_of s (rr_jobID rule).
Proof.
  intros (xs & e & ys & Hs & He & Hr & _ & Hxs). unfold rules_of. rewrite Hs.
  assert (List.find (fun r => bool_decide (re_jobID r = rr_jobID rule)) (xs ++ e :: ys) = Some e) as ->; [| done].
  clear Hs. induction xs as [|x xs IH]; cbn.
  - by rewrite bool_decide_true.
  - rewrite bool_decide_false by (by apply Hxs; left). apply IH. intros r Hin. apply Hxs. by right.
Qed.

Lemma remembered_retires s rule ids key runID :
  remembered s rule ids -> matches rule key runID = true -> is_retired s key runID = true.
Proof.
  intros Hr%remembered_rules Hm. unfold is_retired. apply existsb_exists. exists rule. split; [| done].
  apply list_elem_of_In. assert (rr_jobID rule = lk_jobID key) as <-; [| done].
  unfold matches in Hm. destruct (decide (rr_jobID rule = lk_jobID key)); [done |]. by rewrite bool_decide_false in Hm.
Qed.

(** A run id that a frame names, or the stored one, is what the view is then read by. *)
Lemma merged_run key stored frame :
  pf_RunID (merged key stored frame) = pf_RunID frame \/
  (pf_RunID frame = "" /\ pf_RunID (merged key stored frame) = pf_RunID stored).
Proof.
  unfold merged, mergeProgress, carried. cbn [pf_RunID]. destruct (decide (pf_RunID frame = "")) as [-> | Hf].
  - right. split; [done |]. by rewrite !(bool_decide_true ("" = "")), andb_false_r by done.
  - left. by rewrite (bool_decide_false (pf_RunID frame = "")).
Qed.

Lemma rules_of_merge cap s frame jobID : rules_of (spec_merge cap s frame).1 jobID = rules_of s jobID.
Proof. unfold spec_merge. by case_bool. Qed.

Lemma merge_views_live cap s frame : views_live s -> views_live (spec_merge cap s frame).1.
Proof.
  intros Hs j. unfold is_retired. rewrite rules_of_merge. fold (is_retired s (lj_key j) (pf_RunID (lj_frame j))).
  unfold spec_merge. destruct (is_retired s (frame_key frame) (pf_RunID frame)) eqn:Er.
  { rewrite orb_true_r. apply Hs. }
  destruct (_ || _ || false); [apply Hs |]. cbn [fst sp_views]. intros Hj%subseteq_take.
  apply elem_of_cons in Hj as [-> | [Hj _]%elem_of_bfilter]; [cbn [lj_key lj_frame] | by apply Hs].
  destruct (merged_run (frame_key frame)
    (match List.find (of_job (frame_key frame)) (sp_views s) with Some j => lj_frame j | None => bare_frame (frame_key frame) "" end)
    frame) as [-> | [Hrun ->]]; [done |].
  destruct (List.find (of_job (frame_key frame)) (sp_views s)) as [j|] eqn:Ef.
  - apply find_some in Ef as [Hin Hj]. unfold of_job in Hj. unbool. rewrite <- Hj. apply Hs. by apply list_elem_of_In.
  - cbn [bare_frame pf_RunID]. by rewrite Hrun in Er.
Qed.

(** A retirement adds its rule to its own job and forgets others. *)
Lemma rules_of_retire rcap s rule jobID r :
  r ∈ rules_of (spec_retire rcap s rule) jobID -> r ∈ rules_of s jobID \/ r = rule.
Proof.
  unfold spec_retire. destruct (bool_decide (rr_jobID rule = "")); [by left |]. unfold rules_of at 1. cbn [sp_retired].
  assert (forall n (l : list retiredEntry) (f : retiredEntry -> bool) e, List.find f (take n l) = Some e -> List.find f l = Some e) as Htake.
  { intros n l f. revert n. induction l as [|x l IH]; intros [|n] e; cbn; try done. destruct (f x); [done | apply IH]. }
  destruct (List.find _ (take rcap _)) as [e|] eqn:Ef; [| by intros ?%not_elem_of_nil]. apply Htake in Ef.
  cbn [List.find re_jobID] in Ef. case_bool_decide as Hj.
  - injection Ef as <-. cbn [re_rules]. rewrite elem_of_app, list_elem_of_singleton, <- Hj. tauto.
  - intros Hr. left. unfold rules_of. assert (List.find (fun r => bool_decide (re_jobID r = jobID)) (sp_retired s) = Some e) as ->; [| done].
    revert Ef. induction (sp_retired s) as [|x l IH]; [done |]. cbn [List.filter List.find].
    destruct (decide (re_jobID x = jobID)) as [Hx | Hx].
    + rewrite (bool_decide_false (re_jobID x = rr_jobID rule)) by congruence. cbn [negb List.find].
      by rewrite !(bool_decide_true (re_jobID x = jobID)).
    + rewrite (bool_decide_false (re_jobID x = jobID)) by done.
      destruct (negb (bool_decide (re_jobID x = rr_jobID rule))); cbn [List.find];
        [rewrite (bool_decide_false (re_jobID x = jobID)) by done |]; apply IH.
Qed.

Lemma retire_views_live rcap s rule : views_live s -> views_live (spec_retire rcap s rule).
Proof.
  intros Hs j Hj. destruct (decide (rr_jobID rule = "")) as [E | E].
  { unfold spec_retire in *. rewrite bool_decide_true in * by done. by apply Hs. }
  assert (j ∈ sp_views s /\ covered rule j = false) as [Hin Hc].
  { unfold spec_retire in Hj. rewrite bool_decide_false in Hj by done. cbn [sp_views] in Hj.
    by rewrite elem_of_bfilter, negb_true_iff in Hj. }
  unfold is_retired. apply not_true_iff_false. intros (r & Hr & Hm)%existsb_exists.
  apply list_elem_of_In, rules_of_retire in Hr as [Hr | ->].
  - specialize (Hs j Hin). unfold is_retired in Hs. apply not_true_iff_false in Hs. apply Hs.
    apply existsb_exists. exists r. by rewrite <- list_elem_of_In.
  - unfold covered in Hc. congruence.
Qed.

Lemma run_views_live cap rcap s ops : views_live s -> views_live (spec_run cap rcap s ops).
Proof.
  revert s. induction ops as [|[f | r] ops IH]; intros s Hs; [done | |]; apply IH.
  - by apply merge_views_live. - by apply retire_views_live.
Qed.

Definition retired_ids (ops : list op) : gset string :=
  list_to_set (omap (fun o => match o with ORetire r => Some (rr_jobID r) | OMerge _ => None end) ops).

Lemma retire_remembers rcap s rule ids :
  (0 < rcap)%nat -> rr_jobID rule <> "" -> remembered (spec_retire rcap s rule) rule ids.
Proof.
  intros Hr Hid. unfold spec_retire. rewrite bool_decide_false by done. destruct rcap as [|n]; [lia |].
  cbn [take]. eexists [], _, _. split; [reflexivity |]. cbn [re_jobID re_rules]. split; [done |].
  split; [set_solver |]. split; [constructor | by intros ? ?%not_elem_of_nil].
Qed.

Lemma retire_keeps rcap s rule ids r :
  remembered s rule ids -> (size ((ids ∪ {[ rr_jobID r ]}) ∖ {[ rr_jobID rule ]}) < rcap)%nat ->
  remembered (spec_retire rcap s r) rule (ids ∪ {[ rr_jobID r ]}).
Proof.
  intros (xs & e & ys & Hs & He & Hr & Hnd & Hxs) Hsize. unfold spec_retire. destruct (decide (rr_jobID r = "")) as [E | E].
  { rewrite bool_decide_true by done. exists xs, e, ys. split_and!; try done. intros x Hx. set_solver. }
  rewrite bool_decide_false by done. cbn [sp_retired]. set (keep := fun x => negb (bool_decide (re_jobID x = rr_jobID r))).
  destruct (decide (rr_jobID r = rr_jobID rule)) as [Er | Er].
  - assert (rule ∈ rules_of s (rr_jobID r)) as Hin by (rewrite Er; eapply remembered_rules; by exists xs, e, ys).
    destruct rcap as [|n]; [lia |]. cbn [take]. eexists [], _, _. split; [reflexivity |]. cbn [re_jobID re_rules].
    split; [done |]. split; [set_solver |]. split; [constructor | by intros ? ?%not_elem_of_nil].
  - set (new := mkRetired (rr_jobID r) (rules_of s (rr_jobID r) ++ [r])).
    assert (new :: List.filter keep (sp_retired s) = (new :: List.filter keep xs) ++ e :: List.filter keep ys) as ->.
    { rewrite Hs, List.filter_app. cbn. unfold keep at 2. rewrite bool_decide_false by congruence. done. }
    assert (forall x, x ∈ new :: List.filter keep xs -> re_jobID x ∈ ids ∪ {[ rr_jobID r ]} /\ re_jobID x <> rr_jobID rule) as Hall.
    { intros x [-> | [Hx _]%elem_of_bfilter]%elem_of_cons; [cbn; set_solver |]. destruct (Hxs x Hx). set_solver. }
    assert (NoDup (re_jobID <$> new :: List.filter keep xs)) as Hnd'.
    { rewrite fmap_cons. constructor.
      - intros (x & Hx & [_ Hk]%elem_of_bfilter)%list_elem_of_fmap. unfold keep in Hk. cbn in Hx.
        by rewrite bool_decide_true in Hk.
      - clear -Hnd. induction xs as [|x xs IH]; [constructor |]. rewrite fmap_cons in Hnd. apply NoDup_cons in Hnd as [Hx Hnd].
        cbn. destruct (keep x); [| by apply IH]. rewrite fmap_cons. constructor; [| by apply IH].
        intros (y & Hy & [Hin _]%elem_of_bfilter)%list_elem_of_fmap. apply Hx. rewrite Hy. by apply list_elem_of_fmap_2. }
    assert (length (new :: List.filter keep xs) < rcap)%nat as Hlen.
    { eapply Nat.le_lt_trans; [| exact Hsize]. rewrite <- (length_fmap re_jobID).
      rewrite <- (size_list_to_set (C := gset string)) by done. apply subseteq_size. intros k.
      rewrite elem_of_list_to_set. intros (x & -> & Hx)%list_elem_of_fmap. apply Hall in Hx. set_solver. }
    exists (new :: List.filter keep xs), e, (take (rcap - S (length (new :: List.filter keep xs))) (List.filter keep ys)).
    split; [| by split_and!]. cbn [sp_retired]. rewrite take_app_ge by lia. f_equal.
    destruct (rcap - length (new :: List.filter keep xs))%nat eqn:Ed; [lia |]. cbn [take]. f_equal. f_equal. lia.
Qed.

Lemma remembered_weaken s rule ids ids' : ids ⊆ ids' -> remembered s rule ids -> remembered s rule ids'.
Proof. intros Hsub (xs & e & ys & ? & ? & ? & ? & Hxs). exists xs, e, ys. split_and!; try done. set_solver. Qed.

Lemma run_keeps cap rcap s rule ids ops :
  remembered s rule ids -> (size ((ids ∪ retired_ids ops) ∖ {[ rr_jobID rule ]}) < rcap)%nat ->
  remembered (spec_run cap rcap s ops) rule (ids ∪ retired_ids ops).
Proof.
  revert s ids. induction ops as [|o ops IH]; intros s ids Hs Hsize.
  { eapply remembered_weaken; [| done]. set_solver. }
  destruct o as [f | r]; cbn [spec_run foldl spec_op fst].
  - apply IH; [| done]. unfold remembered in *. cbn. unfold spec_merge. by case_bool.
  - assert (ids ∪ retired_ids (ORetire r :: ops) = (ids ∪ {[ rr_jobID r ]}) ∪ retired_ids ops) as E.
    { unfold retired_ids. cbn. set_solver. }
    rewrite E in *. apply IH; [| done]. apply retire_keeps; [done |].
    eapply Nat.le_lt_trans; [| exact Hsize]. apply subseteq_size. set_solver.
Qed.

Lemma spec_run_app cap rcap s ops ops' : spec_run cap rcap s (ops ++ ops') = spec_run cap rcap (spec_run cap rcap s ops) ops'.
Proof. unfold spec_run. by rewrite foldl_app. Qed.

(** A remembered rule was retired before. *)
Lemma run_rules cap rcap s ops jobID r :
  r ∈ rules_of (spec_run cap rcap s ops) jobID -> r ∈ rules_of s jobID \/ ORetire r ∈ ops.
Proof.
  revert s. induction ops as [|[f | r'] ops IH]; intros s Hr; [by left | |].
  - apply IH in Hr as [Hr | ?]; [| right; by right]. cbn in Hr. rewrite rules_of_merge in Hr. by left.
  - apply IH in Hr as [Hr | ?]; [| right; by right]. cbn in Hr. apply rules_of_retire in Hr as [? | ->]; [by left | right; left].
Qed.

(** A finished job stays dark, and only a finished one.  Once a job is retired no
    later frame of it is accepted and no view of it is shown, whatever else happens, until
    4096 other jobs were retired; and a frame that names a job and an engine and that no
    retirement ever covered is always accepted and then shown. *)
Theorem finished_jobs_stay_dark (cap : Z) (ops1 ops2 : list op) (rule : retiredRule) (frame : ProgressFrame) :
  rr_jobID rule <> "" ->
  Z.of_nat (size (retired_ids ops2 ∖ {[ rr_jobID rule ]})) < retiredProgressCapacity ->
  let i := run_ops (newLiveProgressIndex cap) (ops1 ++ ORetire rule :: ops2) in
  (matches rule (frame_key frame) (pf_RunID frame) = true -> merge i frame = (i, None)) /\
  (forall origin engine view, get i origin engine (rr_jobID rule) = Some view ->
     matches rule (mkLiveKey origin engine (rr_jobID rule)) (pf_RunID view) = false) /\
  (pf_JobID frame <> "" -> pf_Engine frame <> "" ->
   (forall r, ORetire r ∈ ops1 ++ ORetire rule :: ops2 -> matches r (frame_key frame) (pf_RunID frame) = false) ->
   exists view, (merge i frame).2 = Some view /\
     get (merge i frame).1 (pf_OriginatedFrom frame) (pf_Engine frame) (pf_JobID frame) = Some view).
Proof.
  intros Hid Hsize i. pose proof (new_ok cap) as Hnew. set (ops := ops1 ++ ORetire rule :: ops2) in *.
  destruct (run_implements _ ops Hnew) as (Hi & Hs & Hcap & _). fold i in Hi, Hs, Hcap.
  change (abstract (newLiveProgressIndex cap)) with (mkSpec [] []) in Hs.
  change (retiredCapacity (newLiveProgressIndex cap)) with retiredProgressCapacity in Hs.
  set (n := Z.to_nat (capacity (newLiveProgressIndex cap))) in *. set (rn := Z.to_nat retiredProgressCapacity) in *.
  assert (remembered (abstract i) rule (∅ ∪ retired_ids ops2)) as Hrem.
  { rewrite Hs. unfold ops. rewrite spec_run_app. cbn [spec_run foldl spec_op fst].
    apply run_keeps; [| rewrite union_empty_l_L; unfold rn; lia].
    apply retire_remembers; [unfold rn, retiredProgressCapacity; lia | done]. }
  split; [| split].
  - intros Hm. unfold merge. destruct (_ || _); [done |].
    by rewrite isRetired_abstract, (remembered_retires _ _ _ _ _ Hrem Hm).
  - intros origin engine view Hget. rewrite get_abstract in Hget by done. unfold spec_get in Hget.
    apply fmap_Some in Hget as (j & Hj & ->). apply find_some in Hj as [Hin Hj]. unfold of_job in Hj. unbool.
    assert (views_live (abstract i)) as Hlive by (rewrite Hs; apply run_views_live; intros x; by intros ?%not_elem_of_nil).
    apply list_elem_of_In in Hin. specialize (Hlive j Hin). rewrite Hj in Hlive. apply not_true_iff_false. intros Hm.
    rewrite (remembered_retires _ _ _ _ _ Hrem Hm) in Hlive. done.
  - intros Hj He Hnone. destruct (merge_implements i frame Hi) as [(H1 & H2 & _) H3].
    rewrite get_abstract, H2, H3 by done. unfold spec_merge.
    rewrite (bool_decide_false (pf_JobID frame = "")), (bool_decide_false (pf_Engine frame = "")) by done.
    assert (is_retired (abstract i) (frame_key frame) (pf_RunID frame) = false) as ->.
    { apply not_true_iff_false. intros (r & Hr & Hm)%existsb_exists. apply list_elem_of_In in Hr. rewrite Hs in Hr.
      apply run_rules in Hr as [Hr | Hr]; [by apply not_elem_of_nil in Hr |]. rewrite Hnone in Hm by done. done. }
    cbn [orb fst snd]. eexists. split; [done |]. unfold spec_get, frame_key. cbn [sp_views].
    pose proof (iv_cap i Hi). destruct (Z.to_nat (capacity i)) eqn:E; [lia |]. cbn. unfold of_job. cbn. by rewrite bool_decide_true.
Qed.

(** * Facts: two publishers of one job *)

Inductive interleave {A} : list A -> list A -> list A -> Prop :=
| il_nil : interleave [] [] []
| il_left x p q l : interleave p q l -> interleave (x :: p) q (x :: l)
| il_right x p q l : interleave p q l -> interleave p (x :: q) (x :: l).

(** A field that both frames carry has one value. *)
Definition agree_string (a b : string) : Prop := a = "" \/ b = "" \/ a = b.
Definition agree_field {A} (a b : option A) : Prop := a = None \/ b = None \/ a = b.

Definition compatible (f g : ProgressFrame) : Prop :=
  agree_string (pf_NodeID f) (pf_NodeID g) /\ agree_field (pf_ElapsedMs f) (pf_ElapsedMs g) /\
  agree_field (pf_Chunks f) (pf_Chunks g) /\ agree_field (pf_Bytes f) (pf_Bytes g) /\
  agree_field (pf_TTFBMs f) (pf_TTFBMs g) /\ agree_field (pf_EngineProgress f) (pf_EngineProgress g).

(** A frame of the job [key] in the run [r], which it may leave out. *)
Definition frame_of (key : liveJobKey) (r : string) (f : ProgressFrame) : Prop :=
  frame_key f = key /\ (pf_RunID f = "" \/ pf_RunID f = r).

Lemma carried_swap a b s : agree_string a b -> carried a (carried b s) = carried b (carried a s).
Proof. unfold carried. intros [-> | [-> | ->]]; repeat case_bool; by unbool. Qed.

Lemma reported_swap {A} (a b s : option A) : agree_field a b -> reported a (reported b s) = reported b (reported a s).
Proof. unfold reported. intros [-> | [-> | ->]]; [done | by destruct a | by destruct b]. Qed.

Definition in_run (r : string) (o : option ProgressFrame) : Prop :=
  match o with None => True | Some v => pf_RunID v = "" \/ pf_RunID v = r end.

(** What a frame makes of a view. *)
Definition view_step (s : spec) (key : liveJobKey) (o : option ProgressFrame) (f : ProgressFrame) : option ProgressFrame :=
  if bool_decide (pf_JobID f = "") || bool_decide (pf_Engine f = "") || is_retired s key (pf_RunID f) then o
  else Some (merged key (default (bare_frame key "") o) f).

Lemma merged_in_run key r stored f :
  pf_RunID stored = "" \/ pf_RunID stored = r -> frame_of key r f -> merged key stored f = mergeProgress stored f.
Proof. unfold merged. intros Hs [_ Hf]. case_bool; [| done]. unbool. destruct Hs, Hf; congruence. Qed.

Lemma merge_in_run r stored f : pf_RunID stored = "" \/ pf_RunID stored = r -> pf_RunID f = "" \/ pf_RunID f = r ->
  pf_RunID (mergeProgress stored f) = "" \/ pf_RunID (mergeProgress stored f) = r.
Proof. unfold mergeProgress, carried. cbn. intros ? ?. by case_bool_decide. Qed.

Lemma step_in_run s key r o f : in_run r o -> frame_of key r f -> in_run r (view_step s key o f).
Proof.
  intros Ho Hf. unfold view_step. case_bool; [done |]. cbn [in_run].
  assert (pf_RunID (default (bare_frame key "") o) = "" \/ pf_RunID (default (bare_frame key "") o) = r) as Hd
    by (destruct o; [exact Ho | by left]).
  rewrite (merged_in_run key r) by done. apply merge_in_run; [done | apply Hf].
Qed.

Lemma mergeProgress_swap key r s f g :
  frame_of key r f -> frame_of key r g -> compatible f g ->
  mergeProgress (mergeProgress s f) g = mergeProgress (mergeProgress s g) f.
Proof.
  intros [Kf Rf] [Kg Rg] (H1 & H2 & H3 & H4 & H5 & H6). unfold frame_key in *.
  assert (pf_OriginatedFrom f = pf_OriginatedFrom g /\ pf_Engine f = pf_Engine g) as [Eo Ee] by (rewrite <- Kf in Kg; by injection Kg).
  assert (agree_string (pf_RunID f) (pf_RunID g)) as Hrun.
  { unfold agree_string. destruct Rf as [-> | ->]; [by left |]. destruct Rg as [-> | ->]; tauto. }
  unfold mergeProgress. cbn. rewrite Eo, Ee. f_equal; symmetry; first [by apply reported_swap | by apply carried_swap | done].
Qed.

Lemma step_swap s key r o f g :
  in_run r o -> frame_of key r f -> frame_of key r g -> compatible f g ->
  view_step s key (view_step s key o f) g = view_step s key (view_step s key o g) f.
Proof.
  intros Ho Hf Hg Hc. pose proof (step_in_run s key r o f Ho Hf) as H1. pose proof (step_in_run s key r o g Ho Hg) as H2.
  unfold view_step in *. repeat (case_bool; try done). cbn [default id in_run] in *.
  assert (pf_RunID (default (bare_frame key "") o) = "" \/ pf_RunID (default (bare_frame key "") o) = r) as Hd
    by (destruct o; [exact Ho | by left]).
  rewrite (merged_in_run key r _ g H1 Hg), (merged_in_run key r _ f H2 Hf), !(merged_in_run key r) by done.
  f_equal. by eapply mergeProgress_swap.
Qed.

Lemma interleave_perm {A} (p q l : list A) : interleave p q l -> l ≡ₚ p ++ q.
Proof. induction 1 as [| x p q l _ IH | x p q l _ IH]; cbn; [done | by rewrite IH |]. by rewrite IH, <- Permutation_middle. Qed.

Lemma interleave_fold s key r p q l o :
  interleave p q l -> Forall (frame_of key r) p -> Forall (frame_of key r) q ->
  (forall f g, f ∈ p -> g ∈ q -> compatible f g) -> in_run r o ->
  foldl (view_step s key) o l = foldl (view_step s key) o (p ++ q).
Proof.
  intros Hil. revert o. induction Hil as [| x p q l Hil IH | x p q l Hil IH]; intros o Hp Hq Hc Ho; [done | |]; cbn [foldl app].
  - inversion Hp; subst. apply IH; [done | done | | by eapply step_in_run]. intros f g Hf Hg. apply Hc; [by right | done].
  - inversion Hq as [| ? ? Hx Hq']; subst.
    rewrite IH; [| done | done | intros f g Hf Hg; apply Hc; [done | by right] | by eapply step_in_run].
    rewrite !foldl_app. cbn [foldl]. f_equal.
    assert (forall f, f ∈ p -> compatible f x) as Hpx by (intros f Hf; apply Hc; [done | left]).
    clear -Hp Hpx Hx Ho. revert o Ho. induction p as [|f p IH]; intros o Ho; [done |]. inversion Hp; subst. cbn [foldl].
    rewrite <- (step_swap s key r o f x Ho) by (done || apply Hpx; left).
    apply IH; [done | intros; apply Hpx; by right | by eapply step_in_run].
Qed.

Lemma get_merge cap s f :
  (0 < cap)%nat -> spec_get (spec_merge cap s f).1 (frame_key f) = view_step s (frame_key f) (spec_get s (frame_key f)) f.
Proof.
  intros Hcap. unfold spec_merge, view_step. case_bool; [done |]. unfold spec_get at 1. cbn [fst sp_views].
  destruct cap; [lia |]. cbn [take List.find]. unfold of_job at 1. cbn [lj_key]. rewrite bool_decide_true by done.
  cbn. unfold spec_get. by destruct (List.find (of_job (frame_key f)) (sp_views s)).
Qed.

Lemma get_merges cap rcap s key r l :
  (0 < cap)%nat -> Forall (frame_of key r) l ->
  spec_get (spec_run cap rcap s (OMerge <$> l)) key = foldl (view_step s key) (spec_get s key) l.
Proof.
  intros Hcap. revert s. induction l as [|f l IH]; intros s Hl; [done |]. inversion Hl as [| ? ? [Hk _] Hl']; subst.
  change (spec_run cap rcap s (OMerge <$> f :: l)) with (spec_run cap rcap (spec_merge cap s f).1 (OMerge <$> l)).
  rewrite (IH _ Hl'), get_merge by done. cbn [foldl]. generalize (view_step s (frame_key f) (spec_get s (frame_key f)) f).
  clear. induction l as [|g l IH]; intros o; [done |]. cbn. rewrite IH. f_equal. unfold view_step, is_retired.
  by rewrite rules_of_merge.
Qed.

(** Publishers converge.  The origin's proxy and the serving node publish partial
    frames of one job; if they do not contradict each other - each field is carried by one
    of them, or with one value - then every interleaving of their frames leaves every
    member of the cluster the same view. *)
Theorem publishers_converge (cap : Z) (ops : list op) (key : liveJobKey) (r : string) (p q l l' : list ProgressFrame) :
  let i := run_ops (newLiveProgressIndex cap) ops in
  let view l := get (run_ops i (OMerge <$> l)) (lk_origin key) (lk_engine key) (lk_jobID key) in
  Forall (frame_of key r) p -> Forall (frame_of key r) q -> (forall f g, f ∈ p -> g ∈ q -> compatible f g) ->
  in_run r (get i (lk_origin key) (lk_engine key) (lk_jobID key)) ->
  interleave p q l -> interleave p q l' -> view l = view l'.
Proof.
  intros i view Hp Hq Hc Hrun Hl Hl'. destruct (run_implements _ ops (new_ok cap)) as (Hi & _). fold i in Hi.
  assert (forall l, interleave p q l -> view l = foldl (view_step (abstract i) key) (spec_get (abstract i) key) (p ++ q)) as H.
  { intros k Hk. unfold view. destruct (run_implements i (OMerge <$> k) Hi) as (H1 & H2 & _).
    rewrite get_abstract by done. destruct key as [o e j]. rewrite H2. rewrite get_abstract in Hrun by done. pose proof (iv_cap i Hi).
    rewrite (get_merges _ _ _ _ r); [by eapply interleave_fold | lia |].
    rewrite (interleave_perm _ _ _ Hk). by apply Forall_app. }
  by rewrite (H l Hl), (H l' Hl').
Qed.

(** * Witnesses *)

Definition ex_frame (run : string) (chunks : option Z) (phase : string) : ProgressFrame :=
  mkFrame "1" "" "n" "e" run None chunks None None
    (if bool_decide (phase = "") then None else Some (mkEngineProgress "x" phase None None None None)).
Definition ex_rule : retiredRule := mkRule "n" "e" "r" "1".

Lemma finished_jobs_stay_dark_witness :
  let i := run_ops (newLiveProgressIndex 2) ([OMerge (ex_frame "r" (Some 3) "")] ++ ORetire ex_rule :: [ORetire (mkRule "" "" "" "2")]) in
  merge i (ex_frame "" (Some 4) "") = (i, None) /\
  get (merge i (ex_frame "s" (Some 5) "")).1 "n" "e" "1" = (merge i (ex_frame "s" (Some 5) "")).2.
Proof.
  intros i. split.
  - apply (finished_jobs_stay_dark 2 _ _ ex_rule (ex_frame "" (Some 4) "")); [done | vm_compute; reflexivity | vm_compute; reflexivity].
  - destruct (finished_jobs_stay_dark 2 [OMerge (ex_frame "r" (Some 3) "")] [ORetire (mkRule "" "" "" "2")] ex_rule (ex_frame "s" (Some 5) ""))
      as (_ & _ & H); [done | vm_compute; reflexivity |].
    destruct H as (view & Hm & Hg); [done | done | | by etrans; [exact Hg | symmetry; exact Hm]].
    intros r Hr. cbn in Hr. rewrite !elem_of_cons, elem_of_nil in Hr. by destruct Hr as [? | [[= ->] | [[= ->] | ?]]].
Defined.

Lemma publishers_converge_witness :
  let view l := get (run_ops (run_ops (newLiveProgressIndex 2) []) (OMerge <$> l)) "n" "e" "1" in
  view [ex_frame "r" (Some 1) ""; ex_frame "" None "prefill"; ex_frame "r" (Some 2) ""] =
  view [ex_frame "" None "prefill"; ex_frame "r" (Some 1) ""; ex_frame "r" (Some 2) ""].
Proof.
  apply (publishers_converge 2 [] (mkLiveKey "n" "e" "1") "r" [ex_frame "r" (Some 1) ""; ex_frame "r" (Some 2) ""]
    [ex_frame "" None "prefill"]).
  - repeat constructor; by right.
  - repeat constructor.
  - intros f g Hf Hg. rewrite !elem_of_cons, elem_of_nil in Hf. rewrite elem_of_cons, elem_of_nil in Hg.
    destruct Hg as [-> | []]. destruct Hf as [-> | [-> | []]]; repeat split; cbn; unfold agree_string, agree_field; auto.
  - done.
  - repeat constructor.
  - repeat constructor.
Defined.

(** The bound on retired jobs counts job ids, not rules: a job id retired again and again
    keeps every rule. *)
Theorem retired_rules_accumulate (cap : Z) (rule : retiredRule) (n : nat) :
  rr_jobID rule <> "" ->
  length (rules_of (abstract (run_ops (newLiveProgressIndex cap) (repeat (ORetire rule) n))) (rr_jobID rule)) = n.
Proof.
  intros Hid. destruct (run_implements _ (repeat (ORetire rule) n) (new_ok cap)) as (_ & Hs & _).
  rewrite Hs. change (abstract (newLiveProgressIndex cap)) with (mkSpec [] []).
  change (retiredCapacity (newLiveProgressIndex cap)) with retiredProgressCapacity.
  set (c := Z.to_nat (capacity (newLiveProgressIndex cap))). set (rn := Z.to_nat retiredProgressCapacity).
  assert (forall s, length (rules_of (spec_run c rn s (repeat (ORetire rule) n)) (rr_jobID rule)) =
                    (n + length (rules_of s (rr_jobID rule)))%nat) as H; [| by rewrite H, Nat.add_0_r].
  clear Hs.
  induction n as [|n IH]; intros s; [done |]. cbn [repeat spec_run foldl spec_op fst].
  change (foldl _ ?s ?l) with (spec_run c rn s l). rewrite IH.
  assert (rules_of (spec_retire rn s rule) (rr_jobID rule) = rules_of s (rr_jobID rule) ++ [rule]) as ->.
  { unfold spec_retire. rewrite bool_decide_false by done. unfold rn, retiredProgressCapacity.
    destruct (Z.to_nat 4096) eqn:E; [lia |]. unfold rules_of at 1. cbn. by rewrite bool_decide_true. }
  rewrite length_app. cbn. lia.
Qed.
