(* ===== verification/BrokerWorkloads.v ===== *)
(** The broker's workload pipeline (services/nvpair-ui-broker/broker.go, node_metrics.go,
    peer_inventory.go): how a workload event is checked against the inventory, merged
    into the index, counted, made to retire a live view, and passed on to the scheduler
    and the clients; the two sweeps that fail workloads of silent nodes; and the local
    proxies' events.  Composes WorkloadStore, NodeMetrics and LiveProgress. *)
From S2P Require Import Prelude.
From S2P Require Import GoStd.
From S2P Require Import GoList.
From S2P Require Import Json.
From S2P Require Import Noderec.
From S2P Require WorkloadStore.
From S2P Require WorkloadHistory.
From S2P Require NodeMetrics.
From S2P Require LiveProgress.
Import WorkloadStore (Info, Incoming, reading, Key, ParseIncoming, IsTerminal, keyOf).
Import LiveProgress (ProgressFrame, liveProgressIndex, mkRule).
#[local] Existing Instances WorkloadStore.Key_eq_dec WorkloadStore.Key_countable.

Open Scope string_scope.
Open Scope list_scope.
Open Scope Z_scope.

(** * State *)

(** The identity fields of an inventory record, of the scanner or of manual nodes. *)
Record EnrichedNode : Type := mkEnriched {
  en_HostUUID : string;
  en_PeerRecordID : string;
  en_IdentityVerification : string;
  en_ClusterUUID : string;
  en_ManualEngine : bool;
  en_Trusted : bool
}.

Record storedNode : Type := mkStored { sn_scanner : option EnrichedNode; sn_manual : option EnrichedNode }.

(** What the broker sends, in order. *)
Inductive effect : Type :=
| ToClient (method : string) (params : json)
| ToScheduler (method : string) (params : json)
| ToManager (method : string) (params : json)
| ClientProgress (frame : ProgressFrame)
| ClientMetrics (nodes : list NodeMetrics.NodeSnapshot)
| Demand (active : bool)
| SchedulingDemand (active : bool).

(** [b_mesh] is the cluster mesh's [PeerRecordID], [None] without a mesh; the boolean
    fields say which workers run and which streams the client subscribed to. *)
Record Broker : Type := mkBroker {
  b_nodeID : string;
  b_mesh : option (string -> string);
  b_nodes : gmap string storedNode;
  b_workloads : WorkloadStore.Store;
  b_metrics : NodeMetrics.Store;
  b_live : liveProgressIndex;
  b_metricsDirty : bool;
  b_metricsSubscribed : bool;
  b_workloadsSubscribed : bool;
  b_localDemand : bool;
  b_schedulingDemand : bool;
  b_scheduler : bool;
  b_manager : bool;
  b_sent : list effect
}.

Definition with_store (b : Broker) (s : WorkloadStore.Store) : Broker :=
  mkBroker (b_nodeID b) (b_mesh b) (b_nodes b) s (b_metrics b) (b_live b) (b_metricsDirty b) (b_metricsSubscribed b)
    (b_workloadsSubscribed b) (b_localDemand b) (b_schedulingDemand b) (b_scheduler b) (b_manager b) (b_sent b).
Definition with_metrics (b : Broker) (m : NodeMetrics.Store) (dirty : bool) : Broker :=
  mkBroker (b_nodeID b) (b_mesh b) (b_nodes b) (b_workloads b) m (b_live b) dirty (b_metricsSubscribed b)
    (b_workloadsSubscribed b) (b_localDemand b) (b_schedulingDemand b) (b_scheduler b) (b_manager b) (b_sent b).
Definition with_live (b : Broker) (i : liveProgressIndex) : Broker :=
  mkBroker (b_nodeID b) (b_mesh b) (b_nodes b) (b_workloads b) (b_metrics b) i (b_metricsDirty b) (b_metricsSubscribed b)
    (b_workloadsSubscribed b) (b_localDemand b) (b_schedulingDemand b) (b_scheduler b) (b_manager b) (b_sent b).
Definition with_demand (b : Broker) (loc sched : bool) : Broker :=
  mkBroker (b_nodeID b) (b_mesh b) (b_nodes b) (b_workloads b) (b_metrics b) (b_live b) (b_metricsDirty b)
    (b_metricsSubscribed b) (b_workloadsSubscribed b) loc sched (b_scheduler b) (b_manager b) (b_sent b).
Definition send (b : Broker) (e : effect) : Broker :=
  mkBroker (b_nodeID b) (b_mesh b) (b_nodes b) (b_workloads b) (b_metrics b) (b_live b) (b_metricsDirty b)
    (b_metricsSubscribed b) (b_workloadsSubscribed b) (b_localDemand b) (b_schedulingDemand b) (b_scheduler b)
    (b_manager b) (b_sent b ++ [e]).

(** * The inventory gate (peer_inventory.go) *)

Definition storeKey (n : EnrichedNode) : string :=
  RecordKey (bare_node (en_HostUUID n) "" "" [] "" false (en_PeerRecordID n) (en_IdentityVerification n) ∅).

Definition currentPeerProof (b : Broker) (principal recordID : string) : bool :=
  match b_mesh b with
  | None => false
  | Some proof => if bool_decide (recordID = "") then false else bool_decide (proof principal = recordID)
  end.

Definition decisionInventory (b : Broker) (n : EnrichedNode) : bool :=
  if bool_decide (en_IdentityVerification n = "local")
  then negb (bool_decide (en_HostUUID n = "")) && bool_decide (en_HostUUID n = b_nodeID b)
  else if en_ManualEngine n then true
  else bool_decide (en_IdentityVerification n = "verified") && en_Trusted n &&
       bool_decide (en_HostUUID n = en_ClusterUUID n) && currentPeerProof b (en_ClusterUUID n) (en_PeerRecordID n).

Definition claims_of (sn : storedNode) : list EnrichedNode := omap (fun o => o) [sn_scanner sn; sn_manual sn].
Definition names_participant (id : string) (n : EnrichedNode) : bool :=
  bool_decide (en_HostUUID n = id) || bool_decide (storeKey n = id).

Section Pipeline.
Context `{!MapRange}.

Definition onlyUnprovenWorkloadInventory (b : Broker) (id : string) : bool :=
  if bool_decide (id = "") || bool_decide (id = b_nodeID b) then false
  else
    let candidates := List.filter (names_participant id) ((range (b_nodes b)).*2 ≫= claims_of) in
    if existsb (decisionInventory b) candidates then false else negb (bool_decide (candidates = [])).

(** * Node metrics (node_metrics.go) *)

Definition nodeMetricsWindow : Z := 60 * second.

Record nodeMetricsWorkload : Type := mkMetricsWorkload {
  nm_Model : string;
  nm_State : string;
  nm_OriginatedFrom : string;
  nm_ScheduledOn : string;
  nm_Measurement : NodeMetrics.Measurement
}.

Definition unmarshal_measurement (l : members) (m : NodeMetrics.Measurement) : option NodeMetrics.Measurement :=
  let num name a := field (dec_ptr dec_int64 0) name l a in
  match num "prefillTokens" (NodeMetrics.m_PrefillTokens m), num "decodeTokens" (NodeMetrics.m_DecodeTokens m),
        num "cachedTokens" (NodeMetrics.m_CachedTokens m), num "prefillMs" (NodeMetrics.m_PrefillMs m),
        num "decodeMs" (NodeMetrics.m_DecodeMs m), num "ttftMs" (NodeMetrics.m_TtftMs m),
        num "totalMs" (NodeMetrics.m_TotalMs m) with
  | Some pt, Some dt, Some ct, Some pm, Some dm, Some ttft, Some total =>
      Some (NodeMetrics.mkMeasurement pt dt ct pm dm ttft total)
  | _, _, _, _, _, _, _ => None
  end.

Definition no_measurement : NodeMetrics.Measurement := NodeMetrics.mkMeasurement None None None None None None None.

Definition unmarshal_metrics (v : json) : option nodeMetricsWorkload :=
  let step l (w : nodeMetricsWorkload) :=
    match field dec_string "model" l (nm_Model w), field dec_string "state" l (nm_State w),
          field dec_string "originatedFrom" l (nm_OriginatedFrom w), field dec_string "scheduledOn" l (nm_ScheduledOn w),
          unmarshal_measurement l (nm_Measurement w) with
    | Some model, Some state, Some origin, Some scheduledOn, Some m => Some (mkMetricsWorkload model state origin scheduledOn m)
    | _, _, _, _, _ => None
    end in
  dec_struct step (mkMetricsWorkload "" "" "" "" no_measurement) v.

(** What a terminal workload is counted as: its node, its model and its measurement. *)
Definition completion_of (info : Info) : option (string * string * NodeMetrics.Measurement) :=
  match unmarshal_metrics info with
  | None => None
  | Some wl =>
      if negb (IsTerminal (nm_State wl)) then None
      else
        let node := if bool_decide (nm_ScheduledOn wl = "") then nm_OriginatedFrom wl else nm_ScheduledOn wl in
        if bool_decide (node = "") then None else Some (node, nm_Model wl, nm_Measurement wl)
  end.

(** The clock readings of one event: the index's, the broker's and the metrics store's. *)
Record instants : Type := mkInstants { i_store : reading; i_now : Z; i_metrics : Z }.

Definition recordNodeMetrics (b : Broker) (info : Info) (t : instants) : Broker :=
  match completion_of info with
  | None => b
  | Some (node, model, m) => with_metrics b (NodeMetrics.Record_ (b_metrics b) node model m (i_now t) (i_metrics t)) true
  end.

Definition getNodeMetrics (b : Broker) (now : Z) : list NodeMetrics.NodeSnapshot := NodeMetrics.Snapshot (b_metrics b) now.

Definition flushNodeMetrics (b : Broker) (now : Z) : Broker :=
  if negb (b_metricsDirty b) || negb (b_metricsSubscribed b) then b
  else
    let b := with_metrics b (b_metrics b) false in
    send b (ClientMetrics (getNodeMetrics b now)).

(** * Applying an event (broker.go) *)

Inductive workloadProvenance : Type := workloadRemote | workloadLocalProxy | workloadInferred.

Definition workloadInfo_of (params : json) : option Info :=
  match dec_struct (fun l a => field dec_raw "workloadInfo" l a) None params with Some raw => raw | None => None end.

Definition removal_of (params : json) : option (string * string) :=
  match dec_struct (fun l (a : string * string) =>
          match field dec_string "workloadId" l a.1, field dec_string "originatedFrom" l a.2 with
          | Some id, Some origin => Some (id, origin) | _, _ => None end) ("", "") params with
  | Some (id, origin) => if bool_decide (id = "") then None else Some (id, origin)
  | None => None
  end.

(** The remote claims the inventory refuses. *)
Definition refused (b : Broker) (source : workloadProvenance) (i : Incoming) : bool :=
  match source with
  | workloadRemote =>
      negb (IsTerminal (WorkloadStore.in_State i)) &&
      (onlyUnprovenWorkloadInventory b (WorkloadStore.in_Origin i) ||
       onlyUnprovenWorkloadInventory b (WorkloadStore.in_ScheduledOn i))
  | _ => false
  end.

(** [applyWorkloadEvent]; [None] for [unchangedSince] is the zero time. *)
Definition applyWorkloadEvent (b : Broker) (method : string) (params : json) (source : workloadProvenance)
    (unchangedSince : option Z) (t : instants) : Broker * bool :=
  if bool_decide (method = "workloads:upsert") then
    match workloadInfo_of params with
    | None => (b, false)
    | Some info =>
        match ParseIncoming info with
        | None => (b, false)
        | Some i =>
            if refused b source i then (b, false)
            else
              match source with
              | workloadInferred =>
                  let '(s, ok) := match unchangedSince with
                                  | Some seen => WorkloadStore.ApplyInferredUnchangedSince (b_workloads b) i seen (i_store t)
                                  | None => WorkloadStore.ApplyInferred (b_workloads b) i (i_store t)
                                  end in
                  (with_store b s, ok)
              | _ =>
                  let '(s, ok) := WorkloadStore.Apply (b_workloads b) i (i_store t) in
                  let b := with_store b s in
                  if negb ok then (b, false)
                  else
                    let b := recordNodeMetrics b info t in
                    if IsTerminal (WorkloadStore.in_State i) then
                      (with_live b (LiveProgress.retire (b_live b)
                         (mkRule (WorkloadStore.in_Origin i) (WorkloadStore.in_Engine i) (WorkloadStore.in_RunID i)
                            (WorkloadStore.in_ID i))), true)
                    else (b, true)
              end
        end
    end
  else if bool_decide (method = "workloads:remove") then
    match removal_of params with
    | None => (b, false)
    | Some (id, origin) =>
        let b := with_store b (WorkloadStore.Remove (b_workloads b) origin id).1 in
        (with_live b (LiveProgress.retire (b_live b) (mkRule origin "" "" id)), true)
    end
  else (b, false).

(** [recomputeDemand] and [recomputeSchedulingDemand]. *)
Definition recomputeDemand (b : Broker) : Broker :=
  let active := Nat.ltb 0 (WorkloadStore.ActiveScheduledOn (b_workloads b) (b_nodeID b)) in
  let b' := with_demand b active (b_schedulingDemand b) in
  if Bool.eqb (b_localDemand b) active then b' else send b' (Demand active).

Definition recomputeSchedulingDemand (b : Broker) : Broker :=
  let active := WorkloadStore.HasActive (b_workloads b) in
  let b' := with_demand b (b_localDemand b) active in
  if Bool.eqb (b_schedulingDemand b) active then b' else send b' (SchedulingDemand active).

Definition fanWorkloadToScheduler (b : Broker) (method : string) (params : json) : Broker :=
  if b_scheduler b then send b (ToScheduler method params) else b.

Definition emitWorkloadEventProvenance (b : Broker) (method : string) (params : json) (source : workloadProvenance)
    (unchangedSince : option Z) (t : instants) : Broker :=
  let '(b, ok) := applyWorkloadEvent b method params source unchangedSince t in
  if negb ok then b
  else
    let b := recomputeSchedulingDemand (recomputeDemand b) in
    let b := fanWorkloadToScheduler b method params in
    if b_workloadsSubscribed b then send b (ToClient method params) else b.

Definition emitWorkloadEvent (b : Broker) (method : string) (params : json) (t : instants) : Broker :=
  emitWorkloadEventProvenance b method params workloadRemote None t.
Definition emitWorkloadEventInferred (b : Broker) (method : string) (params : json) (t : instants) : Broker :=
  emitWorkloadEventProvenance b method params workloadInferred None t.
Definition emitWorkloadEventStale (b : Broker) (method : string) (params : json) (seenAt : Z) (t : instants) : Broker :=
  emitWorkloadEventProvenance b method params workloadInferred (Some seenAt) t.

(** * Progress frames *)

(** [stampProgressOrigin] and the merge; the merged view goes to a subscribed client. *)
Definition ingestProgress (b : Broker) (frame : ProgressFrame) : Broker :=
  let '(i, merged) := LiveProgress.merge (b_live b) frame in
  let b := with_live b i in
  match merged with
  | None => b
  | Some view => if b_workloadsSubscribed b then send b (ClientProgress view) else b
  end.

(** [forwardWorkloadManagerNotification]; [decoded] is the frame [json.Unmarshal] reads
    from the parameters, [None] when it fails. *)
Definition forwardWorkloadManagerNotification (b : Broker) (method : string) (params : json)
    (decoded : option ProgressFrame) (t : instants) : Broker :=
  if bool_decide (method = "workloads:upsert") || bool_decide (method = "workloads:remove")
  then emitWorkloadEvent b method params t
  else if bool_decide (method = "workloads:progress") then
    match decoded with
    | None => b
    | Some frame =>
        if bool_decide (LiveProgress.pf_JobID frame = "") then b
        else ingestProgress b (LiveProgress.stampProgressOrigin frame (b_nodeID b))
    end
  else b.

(** [routeProxyProgress]; [encode] is [json.Marshal] of the stamped frame. *)
Definition routeProxyProgress (b : Broker) (decoded : option ProgressFrame) (encode : ProgressFrame -> json) : Broker :=
  match decoded with
  | None => b
  | Some frame =>
      if bool_decide (LiveProgress.pf_JobID frame = "") then b
      else if bool_decide (LiveProgress.pf_Engine frame = "") then b
      else
        let frame := LiveProgress.stampProgressOrigin frame (b_nodeID b) in
        let b := ingestProgress b frame in
        if b_manager b then send b (ToManager "workload:progress" (encode frame)) else b
  end.

(** * Local proxies *)

(** [setNodeIDIfEmpty]: the new map, when it changed. *)
Definition setNodeIDIfEmpty (m : gmap string json) (key nodeID : string) : option (gmap string json) :=
  match m !! key with
  | Some cur =>
      match dec_string "" cur with
      | Some s => if bool_decide (s = "") then Some (<[key := JStr nodeID]> m) else None
      | None => Some (<[key := JStr nodeID]> m)
      end
  | None => Some (<[key := JStr nodeID]> m)
  end.

(** [stampNodeID].  [null] unmarshals into a nil map, whose assignment panics: [None]. *)
Definition stampNodeID (params : json) (nodeID : string) : option json :=
  match params with
  | JObj l =>
      let envelope := object_map l in
      match envelope !! "workloadInfo" with
      | Some (JObj wl) =>
          match setNodeIDIfEmpty (object_map wl) "originatedFrom" nodeID with
          | Some wi => Some (marshal_map (<["workloadInfo" := marshal_map wi]> envelope))
          | None => Some params
          end
      | Some JNull => None
      | Some _ => Some params
      | None =>
          match setNodeIDIfEmpty envelope "originatedFrom" nodeID with
          | Some e => Some (marshal_map e)
          | None => Some params
          end
      end
  | JNull => None
  | _ => Some params
  end.

Definition proxyWorkloadMethods : list string :=
  ["workload:submitted"; "workload:started"; "workload:completed"; "workload:errored"; "workloads:remove"].

Definition routeProxyWorkload (b : Broker) (method : string) (params : json) (t : instants) : option Broker :=
  match stampNodeID params (b_nodeID b) with
  | None => None
  | Some stamped =>
      let target := if bool_decide (method = "workloads:remove") then "workloads:remove" else "workloads:upsert" in
      let b := emitWorkloadEventProvenance b target stamped workloadLocalProxy None t in
      Some (if b_manager b then send b (ToManager method stamped) else b)
  end.

(** * The sweeps *)

(** [markWorkloadFailed].  A stored payload is an object: [null] would panic. *)
Definition markWorkloadFailed (info : Info) (completedAt : Z) (errMsg : string) : option json :=
  match info with
  | JObj l =>
      let wi := <["error" := JStr errMsg]> (<["completedAt" := JInt completedAt]> (<["state" := JStr "failed"]> (object_map l))) in
      Some (marshal_map {[ "workloadInfo" := marshal_map wi ]})
  | _ => None
  end.

(** One clock reading stamps the sweep, each emit has its own. *)
Definition failWorkloadsForNode (b : Broker) (nodeUUID nodeName : string) (now : reading) (t : nat -> instants) : Broker :=
  if bool_decide (nodeUUID = "") then b
  else
    let display := if bool_decide (nodeName = "") then nodeUUID else nodeName in
    let failed := omap (fun r => markWorkloadFailed (WorkloadStore.r_Info r) (WorkloadStore.t_unix now)
                                   ("node " +:+ display +:+ " went offline"))
                    (WorkloadStore.ActiveForNode (b_workloads b) nodeUUID) in
    (foldl (fun '(b, n) params => (emitWorkloadEventInferred b "workloads:upsert" params (t n), S n)) (b, O) failed).1.

Definition workloadOriginSilenceTimeout : Z := 5 * 60 * second.

(** [nodeDisplayNames] over the (hostUuid, name) pairs of the directory snapshot; a later
    pair wins. *)
Definition nodeDisplayNames (snapshot : list (string * string)) : gmap string string :=
  foldl (fun m p => if bool_decide (p.1 = "") || bool_decide (p.2 = "") then m else <[p.1 := p.2]> m) ∅ snapshot.

Definition failStaleForeignWorkloads (b : Broker) (staleAfter : Z) (snapshot : list (string * string)) (start now : reading)
    (t : nat -> instants) : Broker :=
  let stale := WorkloadStore.StaleForeign (b_workloads b) (b_nodeID b) staleAfter start in
  let names := nodeDisplayNames snapshot in
  (foldl (fun '(b, n) r =>
     let display := default (WorkloadStore.r_Origin r) (names !! WorkloadStore.r_Origin r) in
     match markWorkloadFailed (WorkloadStore.r_Info r) (WorkloadStore.t_unix now)
             ("node " +:+ display +:+ " stopped reporting this workload") with
     | None => (b, S n)
     | Some params => (emitWorkloadEventStale b "workloads:upsert" params (WorkloadStore.r_LastSeen r) (t n), S n)
     end) (b, O) stale).1.

(** A new scheduler is seeded with the active workloads. *)
Definition replayActiveWorkloadsToScheduler (b : Broker) : Broker :=
  foldl (fun b info => send b (ToScheduler "workloads:upsert" (marshal_map {[ "workloadInfo" := info ]}))) b
    (WorkloadStore.ActiveSnapshot (b_workloads b)).
End Pipeline.

(** * The broker's events *)

Inductive wevent : Type :=
| WManager (method : string) (params : json) (decoded : option ProgressFrame) (t : instants)
| WProxy (method : string) (params : json) (t : instants)
| WProgress (decoded : option ProgressFrame) (encode : ProgressFrame -> json)
| WNodeLost (nodeUUID nodeName : string) (now : reading) (t : nat -> instants)
| WSweep (snapshot : list (string * string)) (start now : reading) (t : nat -> instants)
| WFlush (now : Z).

(** [None]: the process panicked. *)
Definition step `{!MapRange} (b : Broker) (e : wevent) : option Broker :=
  match e with
  | WManager method params decoded t => Some (forwardWorkloadManagerNotification b method params decoded t)
  | WProxy method params t =>
      if bool_decide (method ∈ proxyWorkloadMethods) then routeProxyWorkload b method params t else Some b
  | WProgress decoded encode => Some (routeProxyProgress b decoded encode)
  | WNodeLost nodeUUID nodeName now t => Some (failWorkloadsForNode b nodeUUID nodeName now t)
  | WSweep snapshot start now t => Some (failStaleForeignWorkloads b workloadOriginSilenceTimeout snapshot start now t)
  | WFlush now => Some (flushNodeMetrics b now)
  end.

Fixpoint run `{!MapRange} (b : Broker) (evs : list wevent) : option Broker :=
  match evs with [] => Some b | e :: evs => match step b e with Some b => run b evs | None => None end end.

(** * Facts: what subscribers see *)

Definition view (s : WorkloadStore.Store) : gmap Key Info := WorkloadStore.r_Info <$> WorkloadStore.s_records s.

Definition same_pair (origin id : string) (k : Key) : bool :=
  bool_decide (WorkloadStore.k_Origin k = origin) && bool_decide (WorkloadStore.k_ID k = id).

(** What the notifications of one channel tell of the index, read off in order: an upsert
    that its identity now has this payload, a removal that its (origin, id) pair is gone.
    What the job scheduler does with them is SchedulerFeed.v. *)
Definition told (c : gmap Key Info) (method : string) (params : json) : gmap Key Info :=
  if bool_decide (method = "workloads:upsert") then
    match workloadInfo_of params with
    | Some info => match ParseIncoming info with Some i => <[keyOf i := info]> c | None => c end
    | None => c
    end
  else if bool_decide (method = "workloads:remove") then
    match removal_of params with
    | Some (id, origin) => filter (fun '(k, _) => same_pair origin id k = false) c
    | None => c
    end
  else c.

Definition client_told (c : gmap Key Info) (e : effect) : gmap Key Info :=
  match e with ToClient method params => told c method params | _ => c end.
Definition scheduler_told (c : gmap Key Info) (e : effect) : gmap Key Info :=
  match e with ToScheduler method params => told c method params | _ => c end.

(** The scheduler is only sent events the index accepted: upserts whose payload parses,
    removals that name a workload. *)
Definition well_sent (e : effect) : Prop :=
  match e with
  | ToScheduler method params =>
      (method = "workloads:upsert" /\ exists info i, workloadInfo_of params = Some info /\ ParseIncoming info = Some i) \/
      (method = "workloads:remove" /\ is_Some (removal_of params))
  | _ => True
  end.

(** A record is filed under its own identity. *)
Definition filed (s : WorkloadStore.Store) : Prop :=
  forall k r, WorkloadStore.s_records s !! k = Some r ->
    WorkloadStore.r_Origin r = WorkloadStore.k_Origin k /\ WorkloadStore.r_ID r = WorkloadStore.k_ID k.

Lemma parsed_valid info i : ParseIncoming info = Some i -> WorkloadStore.valid i /\ WorkloadStore.in_Info i = info.
Proof.
  unfold ParseIncoming. destruct (WorkloadStore.unmarshal_header info) as [h|]; [| done].
  destruct (_ || _) eqn:E; [done |]. unbool. intros [= <-]. by split.
Qed.

Lemma applied_view s i inferred now :
  WorkloadStore.valid i -> filed s ->
  let '(s', ok) := WorkloadStore.applyLocked s i inferred now in
  filed s' /\ view s' = if ok then <[keyOf i := WorkloadStore.in_Info i]> (view s) else view s.
Proof.
  intros Hv Hf. pose proof (WorkloadStore.applyLocked_facts s i inferred now) as H.
  destruct (WorkloadStore.applyLocked s i inferred now) as [s' ok]. destruct H as (Hother & _ & H & _). specialize (H Hv).
  assert (exists r, WorkloadStore.s_records s' !! keyOf i = Some r /\
            WorkloadStore.r_Origin r = WorkloadStore.in_Origin i /\ WorkloadStore.r_ID r = WorkloadStore.in_ID i /\
            (if ok then WorkloadStore.r_Info r = WorkloadStore.in_Info i
             else view s !! keyOf i = Some (WorkloadStore.r_Info r))) as (r & Hr & Ho & Hid & Hinfo).
  { destruct (WorkloadStore.s_records s !! keyOf i) as [cur|] eqn:Ec.
    - destruct (Hf _ _ Ec) as [Ho Hid]. destruct H as [_ H]. destruct ok; destruct H as (seen & -> & _).
      + eexists. split; [done |]. done.
      + eexists. split; [done |]. split; [done |]. split; [done |]. unfold view. by rewrite lookup_fmap, Ec.
    - destruct H as [-> ->]. eexists. split; [done |]. done. }
  split.
  - intros k r' Hk. destruct (decide (k = keyOf i)) as [-> | Hne]; [| rewrite Hother in Hk by done; by apply Hf].
    rewrite Hr in Hk. injection Hk as <-. by rewrite Ho, Hid.
  - apply map_eq. intros k. unfold view at 1. rewrite lookup_fmap.
    destruct (decide (k = keyOf i)) as [-> | Hne].
    + rewrite Hr. cbn. destruct ok; [by rewrite lookup_insert_eq, Hinfo | done].
    + rewrite Hother by done. destruct ok; [rewrite lookup_insert_ne by done |]; unfold view; by rewrite lookup_fmap.
Qed.

Lemma removed_view s origin id :
  filed s ->
  filed (WorkloadStore.Remove s origin id).1 /\
  view (WorkloadStore.Remove s origin id).1 = filter (fun '(k, _) => same_pair origin id k = false) (view s).
Proof.
  intros Hf. split.
  - intros k r. unfold WorkloadStore.Remove. cbn [fst WorkloadStore.s_records WorkloadStore.set_records].
    intros [H _]%map_lookup_filter_Some. by apply Hf.
  - apply map_eq. intros k. unfold view, WorkloadStore.Remove. cbn [fst WorkloadStore.s_records WorkloadStore.set_records].
    rewrite lookup_fmap. apply option_eq. intros info. rewrite fmap_Some, map_lookup_filter_Some, lookup_fmap, fmap_Some.
    setoid_rewrite map_lookup_filter_Some. split.
    + intros (r & [Hr Hm] & ->). split; [eauto |]. destruct (Hf k r Hr) as [Ho Hi].
      unfold same_pair. unfold WorkloadStore.matches_pair in Hm. by rewrite <- Ho, <- Hi.
    + intros [(r & Hr & ->) Hm]. exists r. split; [| done]. split; [done |]. destruct (Hf k r Hr) as [Ho Hi].
      unfold same_pair in Hm. unfold WorkloadStore.matches_pair. by rewrite Ho, Hi.
Qed.

Section Subscribers.
Context `{!MapRange}.

(** The parts of the state that applying an event does not touch. *)
Definition frame_same (b b' : Broker) : Prop :=
  b_sent b' = b_sent b /\ b_workloadsSubscribed b' = b_workloadsSubscribed b /\ b_scheduler b' = b_scheduler b /\
  b_manager b' = b_manager b /\ b_nodeID b' = b_nodeID b /\ b_mesh b' = b_mesh b /\ b_nodes b' = b_nodes b /\
  b_metricsSubscribed b' = b_metricsSubscribed b.

Lemma record_metrics_same b info t : frame_same b (recordNodeMetrics b info t) /\
  b_workloads (recordNodeMetrics b info t) = b_workloads b /\ b_live (recordNodeMetrics b info t) = b_live b.
Proof. unfold recordNodeMetrics. destruct (completion_of info) as [[[node model] m]|]; done. Qed.

Lemma apply_view b method params source since t :
  filed (b_workloads b) ->
  let '(b', ok) := applyWorkloadEvent b method params source since t in
  frame_same b b' /\ filed (b_workloads b') /\
  view (b_workloads b') = if ok then told (view (b_workloads b)) method params else view (b_workloads b).
Proof.
  intros Hf. unfold applyWorkloadEvent, told. destruct (bool_decide (method = "workloads:upsert")).
  - destruct (workloadInfo_of params) as [info|]; [| done]. destruct (ParseIncoming info) as [i|] eqn:Ep; [| done].
    destruct (parsed_valid info i Ep) as [Hv Hinfo]. destruct (refused b source i); [done |].
    pose proof (applied_view (b_workloads b) i false (i_store t) Hv Hf) as Hauth.
    pose proof (applied_view (b_workloads b) i true (i_store t) Hv Hf) as Hinf.
    assert (let '(b', ok) := let '(s, ok) := WorkloadStore.Apply (b_workloads b) i (i_store t) in
         let b := with_store b s in
         if negb ok then (b, false) else
         let b := recordNodeMetrics b info t in
         if IsTerminal (WorkloadStore.in_State i) then
           (with_live b (LiveProgress.retire (b_live b)
              (mkRule (WorkloadStore.in_Origin i) (WorkloadStore.in_Engine i) (WorkloadStore.in_RunID i) (WorkloadStore.in_ID i))), true)
         else (b, true) in
       frame_same b b' /\ filed (b_workloads b') /\
       view (b_workloads b') = if ok then <[keyOf i := info]> (view (b_workloads b)) else view (b_workloads b)) as Happly.
    { unfold WorkloadStore.Apply. destruct (WorkloadStore.applyLocked (b_workloads b) i false (i_store t)) as [s ok].
      rewrite Hinfo in Hauth. destruct ok; cbn [negb]; [| done].
      destruct (record_metrics_same (with_store b s) info t) as (H1 & H2 & _).
      destruct (IsTerminal _); cbn [b_workloads with_live]; rewrite ?H2; (split; [exact H1 | exact Hauth]). }
    destruct source; [exact Happly | exact Happly | clear Hauth Happly].
    assert (forall s (ok : bool), (filed s /\ view s = if ok then <[keyOf i := WorkloadStore.in_Info i]> (view (b_workloads b)) else view (b_workloads b)) ->
      frame_same b (with_store b s) /\ filed s /\ view s = if ok then <[keyOf i := info]> (view (b_workloads b)) else view (b_workloads b)) as Hs.
    { intros s ok [? Hview]. rewrite Hinfo in Hview. done. }
    destruct since as [seen|].
    + unfold WorkloadStore.ApplyInferredUnchangedSince. destruct (WorkloadStore.s_records (b_workloads b) !! keyOf i); [| done].
      destruct (negb _); [done |]. destruct (WorkloadStore.applyLocked _ _ _ _) as [s1 ok1]. by apply Hs.
    + unfold WorkloadStore.ApplyInferred. destruct (WorkloadStore.applyLocked _ _ _ _) as [s1 ok1]. by apply Hs.
  - destruct (bool_decide (method = "workloads:remove")); [| done].
    destruct (removal_of params) as [[id origin]|]; [| done].
    destruct (removed_view (b_workloads b) origin id Hf) as [H1 H2]. split; [done |]. by split.
Qed.

(** What one step may do: it appends effects that tell each channel how the index changed. *)
Definition follows (b b' : Broker) : Prop :=
  b_workloadsSubscribed b' = b_workloadsSubscribed b /\ b_scheduler b' = b_scheduler b /\ b_nodeID b' = b_nodeID b /\
  b_mesh b' = b_mesh b /\ b_nodes b' = b_nodes b /\ (filed (b_workloads b) -> filed (b_workloads b')) /\
  exists out, b_sent b' = b_sent b ++ out /\ Forall well_sent out /\
    (filed (b_workloads b) -> b_workloadsSubscribed b = true -> foldl client_told (view (b_workloads b)) out = view (b_workloads b')) /\
    (filed (b_workloads b) -> b_scheduler b = true -> foldl scheduler_told (view (b_workloads b)) out = view (b_workloads b')).

Lemma follows_refl b : follows b b.
Proof. repeat (split; [done |]). exists []. split; [by rewrite app_nil_r | by split]. Qed.

Lemma follows_trans b1 b2 b3 : follows b1 b2 -> follows b2 b3 -> follows b1 b3.
Proof.
  intros (A1 & A2 & A3 & A4 & A5 & A6 & o1 & A7 & Aw & A8 & A9) (B1 & B2 & B3 & B4 & B5 & B6 & o2 & B7 & Bw & B8 & B9).
  split; [congruence |]. split; [congruence |]. split; [congruence |]. split; [congruence |]. split; [congruence |].
  split; [auto |]. exists (o1 ++ o2). split; [by rewrite B7, A7, app_assoc |]. split; [by apply Forall_app |]. split; intros Hf Hs.
  - rewrite foldl_app, A8 by done. apply B8; [auto | congruence].
  - rewrite foldl_app, A9 by done. apply B9; [auto | congruence].
Qed.

(** A step that leaves the index alone and sends no workload notification. *)
Lemma follows_silent b b' out :
  b_workloadsSubscribed b' = b_workloadsSubscribed b -> b_scheduler b' = b_scheduler b -> b_nodeID b' = b_nodeID b ->
  b_mesh b' = b_mesh b -> b_nodes b' = b_nodes b -> b_workloads b' = b_workloads b -> b_sent b' = b_sent b ++ out ->
  Forall (fun e => match e with ToClient _ _ | ToScheduler _ _ => False | _ => True end) out -> follows b b'.
Proof.
  intros H1 H2 H3 H4 H5 H6 H7 Hout. split; [done |]. split; [done |]. split; [done |]. split; [done |]. split; [done |].
  rewrite H6. split; [done |]. exists out. split; [done |]. split; [eapply Forall_impl; [exact Hout |]; by intros [] |].
  split; intros _ _; clear -Hout; generalize (view (b_workloads b)); induction Hout as [|e out He _ IH]; intros c; try done;
    destruct e; done || apply IH.
Qed.

Lemma demand_silent b :
  let b' := recomputeSchedulingDemand (recomputeDemand b) in
  b_workloadsSubscribed b' = b_workloadsSubscribed b /\ b_scheduler b' = b_scheduler b /\ b_nodeID b' = b_nodeID b /\
  b_mesh b' = b_mesh b /\ b_nodes b' = b_nodes b /\ b_workloads b' = b_workloads b /\
  exists out, b_sent b' = b_sent b ++ out /\
    Forall (fun e => match e with ToClient _ _ | ToScheduler _ _ => False | _ => True end) out.
Proof.
  unfold recomputeSchedulingDemand, recomputeDemand. repeat case_bool; cbn; (repeat (split; [done |]));
    first [ exists []; split; [by rewrite app_nil_r | constructor]
          | eexists [_]; split; [done | by repeat constructor]
          | eexists [_; _]; split; [by rewrite <- app_assoc | by repeat constructor] ].
Qed.

Lemma apply_frame b method params source since t :
  frame_same b (applyWorkloadEvent b method params source since t).1.
Proof.
  unfold applyWorkloadEvent. destruct (bool_decide (method = "workloads:upsert")).
  - destruct (workloadInfo_of params) as [info|]; [| done]. destruct (ParseIncoming info) as [i|]; [| done].
    destruct (refused b source i); [done |].
    assert (forall s, frame_same b (recordNodeMetrics (with_store b s) info t)) as Hrec.
    { intros s. destruct (record_metrics_same (with_store b s) info t) as (H1 & _). exact H1. }
    destruct source, since; cbn [fst]; repeat (case_match; cbn [fst]; try done); apply Hrec.
  - repeat (case_match; cbn [fst]; try done).
Qed.

Lemma apply_accepted b method params source since t :
  (applyWorkloadEvent b method params source since t).2 = true -> well_sent (ToScheduler method params).
Proof.
  unfold applyWorkloadEvent. destruct (bool_decide (method = "workloads:upsert")) eqn:Eu.
  - destruct (workloadInfo_of params) as [info|] eqn:Ew; [| done]. destruct (ParseIncoming info) as [i|] eqn:Ep; [| done].
    intros _. left. unbool. eauto.
  - destruct (bool_decide (method = "workloads:remove")) eqn:Er; [| done].
    destruct (removal_of params) as [p|] eqn:Ep; [| done]. intros _. right. unbool. cbn. split; [done | by eexists].
Qed.

Lemma emit_follows b method params source since t : follows b (emitWorkloadEventProvenance b method params source since t).
Proof.
  unfold emitWorkloadEventProvenance. pose proof (apply_view b method params source since t) as Hv.
  pose proof (apply_frame b method params source since t) as Hf.
  pose proof (apply_accepted b method params source since t) as Hw.
  destruct (applyWorkloadEvent b method params source since t) as [b1 ok]. cbn [fst snd] in Hf, Hw.
  destruct Hf as (F1 & F2 & F3 & F4 & F5 & F6 & F7 & F8). destruct ok; cbn [negb].
  - pose proof (demand_silent b1) as (D1 & D2 & D3 & D4 & D5 & D6 & out & D7 & D8).
    set (b2 := recomputeSchedulingDemand (recomputeDemand b1)) in *.
    set (b3 := fanWorkloadToScheduler b2 method params).
    set (fan := if b_scheduler b then [ToScheduler method params] else []).
    set (note := if b_workloadsSubscribed b then [ToClient method params] else []).
    assert (b_workloads b3 = b_workloads b1 /\ b_workloadsSubscribed b3 = b_workloadsSubscribed b /\ b_scheduler b3 = b_scheduler b /\
      b_nodeID b3 = b_nodeID b /\ b_mesh b3 = b_mesh b /\ b_nodes b3 = b_nodes b /\ b_sent b3 = b_sent b ++ out ++ fan)
      as (E1 & E2 & E3 & E4 & E5 & E6 & E7).
    { unfold b3, fanWorkloadToScheduler, fan. rewrite D2, F3. destruct (b_scheduler b); cbn [send b_workloads b_workloadsSubscribed
        b_scheduler b_nodeID b_mesh b_nodes b_sent]; rewrite ?D7, ?F1, ?app_nil_r, ?app_assoc; (split_and!; congruence). }
    assert (forall (f : gmap Key Info -> effect -> gmap Key Info), (forall c, Forall (fun e => f c e = c) out) -> forall c, foldl f c out = c) as Hskip.
    { intros f Hf c. clear -Hf. revert c. induction out as [|e out IH]; intros c; [done |]. cbn.
      pose proof (Hf c) as Hc. inversion Hc as [| ? ? He _]; subst. rewrite He. apply IH. intros c'.
      pose proof (Hf c') as Hc'. by inversion Hc'. }
    assert ((if b_workloadsSubscribed b3 then send b3 (ToClient method params) else b3) =
            mkBroker (b_nodeID b3) (b_mesh b3) (b_nodes b3) (b_workloads b3) (b_metrics b3) (b_live b3) (b_metricsDirty b3)
              (b_metricsSubscribed b3) (b_workloadsSubscribed b3) (b_localDemand b3) (b_schedulingDemand b3) (b_scheduler b3)
              (b_manager b3) (b_sent b3 ++ note)) as ->.
    { unfold note. rewrite <- E2. clearbody b3. clear. destruct b3. cbn. case_bool; [done |]. by rewrite app_nil_r. }
    unfold follows. cbn [b_workloadsSubscribed b_scheduler b_nodeID b_mesh b_nodes b_workloads b_sent]. rewrite E1.
    repeat (split; [done |]). split; [intros Hfl; by apply Hv |]. exists (out ++ fan ++ note).
    split; [by rewrite E7, <- !app_assoc |]. split.
    { apply Forall_app. split; [eapply Forall_impl; [exact D8 |]; by intros [] |]. specialize (Hw eq_refl).
      unfold fan, note. apply Forall_app.
      split; [destruct (b_scheduler b) | destruct (b_workloadsSubscribed b)]; rewrite ?Forall_singleton; done || constructor. }
    split; intros Hfl Hs; destruct (Hv Hfl) as (_ & _ & Hview); rewrite foldl_app, Hskip.
    + unfold fan, note. rewrite Hs. rewrite Hview. by destruct (b_scheduler b).
    + intros c. eapply Forall_impl; [exact D8 |]. by intros [].
    + unfold fan, note. rewrite Hs. rewrite Hview. by destruct (b_workloadsSubscribed b).
    + intros c. eapply Forall_impl; [exact D8 |]. by intros [].
  - split; [done |]. split; [done |]. split; [done |]. split; [done |]. split; [done |]. split; [intros Hfl; by apply Hv |].
    exists []. rewrite app_nil_r. split; [done |]. split; [done |]. split; intros Hfl _; cbn; symmetry; by apply Hv.
Qed.

Lemma ingest_follows b frame : follows b (ingestProgress b frame).
Proof.
  unfold ingestProgress. destruct (LiveProgress.merge (b_live b) frame) as [i [merged|]].
  - cbn [with_live b_workloadsSubscribed]. destruct (b_workloadsSubscribed b) eqn:E.
    + eapply (follows_silent _ _ [_]); try done. by repeat constructor.
    + eapply (follows_silent _ _ []); try done. by rewrite app_nil_r.
  - eapply (follows_silent _ _ []); try done. by rewrite app_nil_r.
Qed.

Lemma manager_follows b method params : follows b (send b (ToManager method params)).
Proof. eapply (follows_silent _ _ [_]); try done. by repeat constructor. Qed.

Lemma fold_follows {A} (f : Broker * nat -> A -> Broker * nat) (l : list A) b n :
  (forall b n x, follows b (f (b, n) x).1) -> follows b (foldl f (b, n) l).1.
Proof.
  intros Hf. revert b n. induction l as [|x l IH]; intros b n; [apply follows_refl |]. cbn.
  pose proof (Hf b n x) as H1. destruct (f (b, n) x) as [b1 n1]. eapply follows_trans; [exact H1 | apply IH].
Qed.

Lemma step_follows b e b' : step b e = Some b' -> follows b b'.
Proof.
  destruct e as [method params decoded t | method params t | decoded encode | uuid name now t | snapshot start now t | now]; cbn [step].
  - intros [= <-]. unfold forwardWorkloadManagerNotification. case_bool; [apply emit_follows |].
    case_bool; [| apply follows_refl]. destruct decoded; [| apply follows_refl]. case_bool; [apply follows_refl | apply ingest_follows].
  - case_bool; [| intros [= <-]; apply follows_refl]. unfold routeProxyWorkload.
    destruct (stampNodeID params (b_nodeID b)) as [stamped|]; [| done]. intros [= <-].
    eapply follows_trans; [apply emit_follows |]. case_bool; [apply manager_follows | apply follows_refl].
  - intros [= <-]. unfold routeProxyProgress. destruct decoded as [frame|]; [| apply follows_refl].
    case_bool; [apply follows_refl |]. case_bool; [apply follows_refl |]. eapply follows_trans; [apply ingest_follows |].
    case_bool; [apply manager_follows | apply follows_refl].
  - intros [= <-]. unfold failWorkloadsForNode. case_bool; [apply follows_refl |]. apply fold_follows. intros. apply emit_follows.
  - intros [= <-]. unfold failStaleForeignWorkloads. apply fold_follows. intros b0 n r.
    destruct (markWorkloadFailed _ _ _); [apply emit_follows | apply follows_refl].
  - intros [= <-]. unfold flushNodeMetrics. case_bool; [apply follows_refl |].
    eapply (follows_silent _ _ [_]); try done. by repeat constructor.
Qed.

Lemma run_follows b evs b' : run b evs = Some b' -> follows b b'.
Proof.
  revert b. induction evs as [|e evs IH]; intros b; cbn [run]; [intros [= <-]; apply follows_refl |].
  destruct (step b e) as [b1|] eqn:E; [| done]. intros Hr. eapply follows_trans; [exact (step_follows _ _ _ E) | by apply IH].
Qed.

End Subscribers.

(** * Facts: a workload marked failed *)

Definition marked_names : list string := ["state"; "completedAt"; "error"].

(** A payload whose names stay apart, and that spells the three rewritten names as the
    wire format does. *)
Definition well_named (info : Info) : Prop :=
  exists l, info = JObj l /\ distinct_names l /\
    forall k n, k ∈ l.*1 -> n ∈ marked_names -> EqualFold_ascii k n = true -> k = n.

Definition failed_of (i : Incoming) (now : Z) (info : Info) : Incoming :=
  WorkloadStore.mkIncoming (WorkloadStore.in_Origin i) (WorkloadStore.in_Engine i) (WorkloadStore.in_RunID i)
    (WorkloadStore.in_ID i) "failed" (WorkloadStore.in_CreatedAt i) now (WorkloadStore.in_ScheduledOn i) info.

Definition marked (l : members) (now : Z) (msg : string) : gmap string json :=
  <["error" := JStr msg]> (<["completedAt" := JInt now]> (<["state" := JStr "failed"]> (object_map l))).

Lemma marked_lookup l now msg k v :
  NoDup l.*1 -> k ∉ marked_names -> marked l now msg !! k = Some v <-> (k, v) ∈ l.
Proof.
  intros Hn Hk. unfold marked_names in Hk. rewrite !not_elem_of_cons in Hk. destruct Hk as (H1 & H2 & H3 & _).
  unfold marked. rewrite !lookup_insert_ne by done. by apply object_map_lookup.
Qed.

Lemma marked_distinct l now msg :
  distinct_names l -> (forall k n, k ∈ l.*1 -> n ∈ marked_names -> EqualFold_ascii k n = true -> k = n) ->
  distinct_names (marshalled (marked l now msg)).
Proof.
  intros Hd Hw. assert (forall (m : gmap string json) n k, n ∈ marked_names -> (forall x, is_Some (m !! x) -> x ∈ l.*1 \/ x ∈ marked_names) ->
    is_Some (m !! k) -> fold_case k = fold_case n -> k = n) as Hk.
  { intros m n k Hn Hm Hk Hf. destruct (Hm k Hk) as [Hin | Hin].
    - apply Hw; [done | done | by apply EqualFold_fold].
    - unfold marked_names in *. rewrite !elem_of_cons, elem_of_nil in Hin, Hn.
      destruct Hin as [-> | [-> | [-> | []]]], Hn as [-> | [-> | [-> | []]]]; done. }
  assert (forall x, is_Some (object_map l !! x) -> x ∈ l.*1 \/ x ∈ marked_names) as H0.
  { intros x [v Hv]. left. apply object_map_lookup in Hv; [| by apply distinct_keys]. by apply (list_elem_of_fmap_2 fst _ (x, v)). }
  assert (forall (m : gmap string json) n v, n ∈ marked_names -> (forall x, is_Some (m !! x) -> x ∈ l.*1 \/ x ∈ marked_names) ->
    forall x, is_Some (<[n := v]> m !! x) -> x ∈ l.*1 \/ x ∈ marked_names) as Hins.
  { intros m n v Hn Hm x [<- | [_ Hx]]%lookup_insert_is_Some; [by right | by apply Hm]. }
  assert ("state" ∈ marked_names /\ "completedAt" ∈ marked_names /\ "error" ∈ marked_names) as (N1 & N2 & N3)
    by (unfold marked_names; set_solver).
  pose proof (Hins _ "state" (JStr "failed") N1 H0) as H1. pose proof (Hins _ "completedAt" (JInt now) N2 H1) as H2.
  apply marshalled_distinct. unfold marked.
  apply names_apart_insert; [| intros k Hki; exact (Hk _ _ k N3 H2 Hki)].
  apply names_apart_insert; [| intros k Hki; exact (Hk _ _ k N2 H1 Hki)].
  apply names_apart_insert; [by apply names_apart_object | intros k Hki; exact (Hk _ _ k N1 H0 Hki)].
Qed.

Lemma marked_state l now msg : ("state", JStr "failed") ∈ marshalled (marked l now msg).
Proof. apply elem_of_marshalled. unfold marked. by rewrite !lookup_insert_ne, lookup_insert_eq by done. Qed.

Lemma marked_completed l now msg : ("completedAt", JInt now) ∈ marshalled (marked l now msg).
Proof. apply elem_of_marshalled. unfold marked. by rewrite lookup_insert_ne, lookup_insert_eq by done. Qed.

(** The rewritten fields read back; every other field reads as before. *)
Lemma marked_field {A} (dec : A -> json -> option A) name l now msg a :
  distinct_names l -> (forall k n, k ∈ l.*1 -> n ∈ marked_names -> EqualFold_ascii k n = true -> k = n) ->
  Forall (fun n => EqualFold_ascii n name = false) marked_names ->
  field dec name (marshalled (marked l now msg)) a = field dec name l a.
Proof.
  intros Hd Hw Hn. symmetry. apply field_same; [done | by apply marked_distinct |]. intros k v Hk.
  rewrite elem_of_marshalled, marked_lookup; [done | by apply distinct_keys |]. intros Hin.
  rewrite Forall_forall in Hn. by rewrite (Hn k Hin) in Hk.
Qed.

Lemma mark_parse info i now msg :
  ParseIncoming info = Some i -> well_named info -> in_int64 now ->
  exists env info', markWorkloadFailed info now msg = Some env /\ workloadInfo_of env = Some info' /\
    ParseIncoming info' = Some (failed_of i now info') /\ well_named info'.
Proof.
  intros Hp (l & -> & Hd & Hw) Hnow. exists (marshal_map {[ "workloadInfo" := marshal_map (marked l now msg) ]}),
    (marshal_map (marked l now msg)). split; [done |]. split.
  { unfold marshal_map at 1. rewrite map_to_list_singleton. done. }
  assert (distinct_names (marshalled (marked l now msg))) as Hd' by (by apply marked_distinct).
  change (marshal_map (marked l now msg)) with (JObj (marshalled (marked l now msg))). split.
  - unfold ParseIncoming, WorkloadStore.unmarshal_header in *. cbn [dec_struct] in *.
    cbn [WorkloadStore.h_ID WorkloadStore.h_Engine WorkloadStore.h_RunID WorkloadStore.h_State WorkloadStore.h_OriginatedFrom
      WorkloadStore.h_ScheduledOn WorkloadStore.h_CreatedAt WorkloadStore.h_CompletedAt] in *.
    rewrite (marked_field dec_string "id"), (marked_field dec_string "engine"), (marked_field dec_string "runId"),
      (marked_field dec_string "originatedFrom"), (marked_field dec_string "scheduledOn") by (done || by repeat constructor).
    rewrite (marked_field dec_int64) by (done || by repeat constructor).
    rewrite (field_unique dec_string "state" _ "state" (JStr "failed")) by (done || apply marked_state).
    rewrite (field_unique (dec_ptr dec_int64 0) "completedAt" _ "completedAt" (JInt now)) by (done || apply marked_completed).
    cbn [dec_string dec_ptr default]. unfold dec_int64 at 2. rewrite bool_decide_true by exact Hnow.
    destruct (field dec_string "id" l _); [| done]. destruct (field dec_string "engine" l _); [| done].
    destruct (field dec_string "runId" l _); [| done]. destruct (field dec_string "state" l _); [| done].
    destruct (field dec_string "originatedFrom" l _); [| done]. destruct (field dec_string "scheduledOn" l _); [| done].
    destruct (field dec_int64 "createdAt" l _); [| done]. destruct (field (dec_ptr dec_int64 0) "completedAt" l _); [| done].
    cbn [WorkloadStore.h_ID WorkloadStore.h_Engine WorkloadStore.h_RunID WorkloadStore.h_State WorkloadStore.h_OriginatedFrom
      WorkloadStore.h_ScheduledOn WorkloadStore.h_CreatedAt WorkloadStore.h_CompletedAt] in *.
    change (Some <$> Some now) with (Some (Some now)). cbn in *. destruct (_ || _); [done |]. by injection Hp as <-.
  - eexists. split; [done |]. split; [done |]. intros k n Hk Hn Hf.
    apply list_elem_of_fmap in Hk as ([k0 v] & -> & Hk%elem_of_marshalled). cbn in *.
    destruct (decide (k0 ∈ marked_names)) as [Hm | Hm].
    + unfold marked_names in *. rewrite !elem_of_cons, elem_of_nil in Hm, Hn.
      destruct Hm as [-> | [-> | [-> | []]]], Hn as [-> | [-> | [-> | []]]]; done.
    + apply Hw; [| done | done]. apply marked_lookup in Hk; [| by apply distinct_keys | done].
      by apply (list_elem_of_fmap_2 fst _ (k0, v)).
Qed.

(** * Facts: what is counted *)

Definition ident (i : Incoming) : Key * Z := (keyOf i, WorkloadStore.in_CreatedAt i).

Definition parsed (params : json) : option Incoming :=
  match workloadInfo_of params with Some info => ParseIncoming info | None => None end.

(** The origin's own report an event carries. *)
Definition report (nodeID : string) (e : wevent) : option Incoming :=
  match e with
  | WManager method params _ _ => if bool_decide (method = "workloads:upsert") then parsed params else None
  | WProxy method params _ =>
      if bool_decide (method ∈ proxyWorkloadMethods) && negb (bool_decide (method = "workloads:remove"))
      then match stampNodeID params nodeID with Some stamped => parsed stamped | None => None end else None
  | _ => None
  end.

Definition removes (e : wevent) : bool :=
  match e with
  | WManager method _ _ _ | WProxy method _ _ => bool_decide (method = "workloads:remove")
  | _ => false
  end.

Definition timely (e : wevent) : Prop :=
  match e with WNodeLost _ _ now _ | WSweep _ _ now _ => in_int64 (WorkloadStore.t_unix now) | _ => True end.

(** The completion a counted report adds to the metrics. *)
Definition counted (p : Incoming * instants) : option NodeMetrics.completion :=
  match completion_of (WorkloadStore.in_Info p.1) with
  | Some (node, model, m) => Some (NodeMetrics.mkCompletion node model m (i_now p.2) (i_metrics p.2))
  | None => None
  end.

(** The record is the origin's own terminal. *)
Definition finished (r : WorkloadStore.Store_Record) : Prop :=
  WorkloadStore.r_Terminal r = true /\ WorkloadStore.r_Inferred r = false.

Record counts_ok (w : Z) (b : Broker) (rs : list Incoming) (log : list (Incoming * instants)) : Prop := {
  co_faithful : WorkloadHistory.all_faithful (b_workloads b);
  co_named : forall k r, WorkloadStore.s_records (b_workloads b) !! k = Some r -> well_named (WorkloadStore.r_Info r);
  co_metrics : b_metrics b = NodeMetrics.run w (omap counted log);
  co_nodup : NoDup (ident <$> log.*1);
  co_sub : forall i, i ∈ log.*1 -> i ∈ rs /\ IsTerminal (WorkloadStore.in_State i) = true;
  co_held : forall i, i ∈ log.*1 -> exists r, WorkloadStore.s_records (b_workloads b) !! keyOf i = Some r /\
    (WorkloadStore.in_CreatedAt i < WorkloadStore.r_CreatedAt r \/
     WorkloadStore.r_CreatedAt r = WorkloadStore.in_CreatedAt i /\ finished r /\
     WorkloadStore.r_ScheduledOn r = WorkloadStore.in_ScheduledOn i);
  co_source : forall k r, WorkloadStore.s_records (b_workloads b) !! k = Some r ->
    exists j, j ∈ rs /\ ident j = (k, WorkloadStore.r_CreatedAt r);
  co_finished : forall k r, WorkloadStore.s_records (b_workloads b) !! k = Some r -> finished r ->
    (k, WorkloadStore.r_CreatedAt r) ∈ ident <$> log.*1;
  co_done : forall i, i ∈ rs -> IsTerminal (WorkloadStore.in_State i) = true ->
    ident i ∈ ident <$> log.*1 \/
    exists r, WorkloadStore.s_records (b_workloads b) !! keyOf i = Some r /\ WorkloadStore.in_CreatedAt i < WorkloadStore.r_CreatedAt r
}.

(** A write to one key that does not go back, logged exactly when it is a terminal of the origin. *)
Lemma counts_put w b b' rs rs' log extra k r' :
  counts_ok w b rs log ->
  (forall k', k' <> k -> WorkloadStore.s_records (b_workloads b') !! k' = WorkloadStore.s_records (b_workloads b) !! k') ->
  WorkloadStore.s_records (b_workloads b') !! k = Some r' ->
  b_metrics b' = NodeMetrics.run w (omap counted (log ++ extra)) ->
  WorkloadHistory.faithful k r' -> well_named (WorkloadStore.r_Info r') ->
  (forall i, i ∈ rs -> i ∈ rs') -> (exists j, j ∈ rs' /\ ident j = (k, WorkloadStore.r_CreatedAt r')) ->
  (forall old, WorkloadStore.s_records (b_workloads b) !! k = Some old ->
     WorkloadStore.r_CreatedAt old < WorkloadStore.r_CreatedAt r' \/
     WorkloadStore.r_CreatedAt old = WorkloadStore.r_CreatedAt r' /\ ~ finished old) ->
  (extra = [] /\ ~ finished r' \/
   exists i t, extra = [(i, t)] /\ i ∈ rs' /\ IsTerminal (WorkloadStore.in_State i) = true /\
     ident i = (k, WorkloadStore.r_CreatedAt r') /\ finished r' /\ WorkloadStore.r_ScheduledOn r' = WorkloadStore.in_ScheduledOn i) ->
  (forall i, i ∈ rs' -> i ∈ rs \/ (IsTerminal (WorkloadStore.in_State i) = true -> ident i ∈ ident <$> (log ++ extra).*1)) ->
  counts_ok w b' rs' (log ++ extra).
Proof.
  intros Hok Hother Hk Hm Hf Hn Hsub Hsrc Hold Hextra Hnew.
  assert (forall i, i ∈ log.*1 -> keyOf i = k -> WorkloadStore.in_CreatedAt i < WorkloadStore.r_CreatedAt r') as Hlog.
  { intros i Hi Hik. destruct (co_held _ _ _ _ Hok i Hi) as (r & Hr & Hcase). rewrite Hik in Hr.
    destruct (Hold r Hr) as [Hlt | [Heq Hnf]], Hcase as [? | (? & ? & _)]; try lia. done. }
  assert (forall x, x ∈ ident <$> log.*1 -> x ∈ ident <$> (log ++ extra).*1) as Hkeep
    by (intros x Hx; rewrite !fmap_app, elem_of_app; by left).
  split.
  - intros k' r Hr. destruct (decide (k' = k)) as [-> | Hne].
    + rewrite Hk in Hr. by injection Hr as <-.
    + rewrite Hother in Hr by done. by apply (co_faithful _ _ _ _ Hok).
  - intros k' r Hr. destruct (decide (k' = k)) as [-> | Hne].
    + rewrite Hk in Hr. by injection Hr as <-.
    + rewrite Hother in Hr by done. by apply (co_named _ _ _ _ Hok k').
  - exact Hm.
  - destruct Hextra as [[-> _] | (i & t & -> & _ & _ & Hid & _)]; [by rewrite app_nil_r; apply Hok |].
    rewrite !fmap_app. apply NoDup_app. split; [apply Hok |]. split; [| by apply NoDup_singleton].
    intros x (j & -> & Hj)%list_elem_of_fmap Hx. apply list_elem_of_singleton in Hx. cbn [fst] in Hx. rewrite Hid in Hx.
    injection Hx as Hjk Hjg. specialize (Hlog j Hj Hjk). lia.
  - intros i. rewrite fmap_app, elem_of_app. intros [Hi | Hi].
    + destruct (co_sub _ _ _ _ Hok i Hi). auto.
    + destruct Hextra as [[-> _] | (j & t & -> & ? & ? & _)]; [by apply not_elem_of_nil in Hi |].
      apply list_elem_of_singleton in Hi. by subst i.
  - intros i. rewrite fmap_app, elem_of_app. intros [Hi | Hi].
    + destruct (decide (keyOf i = k)) as [Hik | Hik].
      * exists r'. rewrite Hik. split; [done |]. left. by apply Hlog.
      * rewrite Hother by done. by apply (co_held _ _ _ _ Hok).
    + destruct Hextra as [[-> _] | (j & t & -> & _ & _ & Hid & Hfin & Hsched)]; [by apply not_elem_of_nil in Hi |].
      apply list_elem_of_singleton in Hi. cbn [fst] in Hi. subst i. injection Hid as -> Hg. exists r'. auto.
  - intros k' r Hr. destruct (decide (k' = k)) as [-> | Hne].
    + rewrite Hk in Hr. by injection Hr as <-.
    + rewrite Hother in Hr by done. destruct (co_source _ _ _ _ Hok k' r Hr) as (j & Hj & ?). eauto.
  - intros k' r Hr Hfin. destruct (decide (k' = k)) as [-> | Hne].
    + rewrite Hk in Hr. injection Hr as <-. destruct Hextra as [[_ ?] | (j & t & -> & _ & _ & Hid & _)]; [done |].
      rewrite !fmap_app, elem_of_app. right. rewrite <- Hid. left.
    + rewrite Hother in Hr by done. apply Hkeep. by apply (co_finished _ _ _ _ Hok).
  - intros i Hi Ht. destruct (Hnew i Hi) as [Hi' | Hid]; [| left; auto].
    destruct (co_done _ _ _ _ Hok i Hi' Ht) as [? | (r & Hr & Hlt)]; [left; auto |].
    right. destruct (decide (keyOf i = k)) as [Hik | Hik].
    + exists r'. rewrite Hik in *. split; [done |]. destruct (Hold r Hr) as [? | [? _]]; lia.
    + rewrite Hother by done. eauto.
Qed.

(** A step that only refreshes sightings. *)
Lemma counts_seen w b b' rs rs' log :
  counts_ok w b rs log ->
  (forall k, exists seen, WorkloadStore.s_records (b_workloads b') !! k =
     (fun r => WorkloadStore.with_provenance r (WorkloadStore.r_Inferred r) (seen r)) <$> WorkloadStore.s_records (b_workloads b) !! k) ->
  b_metrics b' = b_metrics b -> (forall i, i ∈ rs -> i ∈ rs') ->
  (forall i, i ∈ rs' -> i ∈ rs \/ (IsTerminal (WorkloadStore.in_State i) = true -> ident i ∈ ident <$> log.*1 \/
     exists r, WorkloadStore.s_records (b_workloads b) !! keyOf i = Some r /\ WorkloadStore.in_CreatedAt i < WorkloadStore.r_CreatedAt r)) ->
  counts_ok w b' rs' log.
Proof.
  intros Hok Hseen Hm Hsub Hnew.
  assert (forall k r', WorkloadStore.s_records (b_workloads b') !! k = Some r' -> exists r seen,
    WorkloadStore.s_records (b_workloads b) !! k = Some r /\ r' = WorkloadStore.with_provenance r (WorkloadStore.r_Inferred r) seen) as Hback.
  { intros k r' Hr'. destruct (Hseen k) as [seen Hk]. rewrite Hk in Hr'. apply fmap_Some in Hr' as (r & Hr & ->). eauto. }
  assert (forall k r, WorkloadStore.s_records (b_workloads b) !! k = Some r -> exists seen,
    WorkloadStore.s_records (b_workloads b') !! k = Some (WorkloadStore.with_provenance r (WorkloadStore.r_Inferred r) seen)) as Hfwd.
  { intros k r Hr. destruct (Hseen k) as [seen Hk]. rewrite Hk, Hr. eexists. reflexivity. }
  split.
  - intros k r' Hr'. destruct (Hback k r' Hr') as (r & seen & Hr & ->). apply WorkloadHistory.reseen_faithful.
    by apply (co_faithful _ _ _ _ Hok).
  - intros k r' Hr'. destruct (Hback k r' Hr') as (r & seen & Hr & ->). exact (co_named _ _ _ _ Hok k r Hr).
  - rewrite Hm. apply Hok.
  - apply Hok.
  - intros i Hi. destruct (co_sub _ _ _ _ Hok i Hi). auto.
  - intros i Hi. destruct (co_held _ _ _ _ Hok i Hi) as (r & Hr & Hc). destruct (Hfwd _ r Hr) as [seen Hr']. eauto.
  - intros k r' Hr'. destruct (Hback k r' Hr') as (r & seen & Hr & ->).
    destruct (co_source _ _ _ _ Hok k r Hr) as (j & Hj & ?). eauto.
  - intros k r' Hr' Hfin. destruct (Hback k r' Hr') as (r & seen & Hr & ->). exact (co_finished _ _ _ _ Hok k r Hr Hfin).
  - intros i Hi Ht. destruct (Hnew i Hi) as [Hi' | Hid].
    + destruct (co_done _ _ _ _ Hok i Hi' Ht) as [? | (r & Hr & Hlt)]; [by left |]. right.
      destruct (Hfwd _ r Hr) as [seen Hr']. eauto.
    + destruct (Hid Ht) as [? | (r & Hr & Hlt)]; [by left |]. right. destruct (Hfwd _ r Hr) as [seen Hr']. eauto.
Qed.

Section Counting.
Context `{!MapRange}.

Lemma emit_core b method params source since t :
  let b' := emitWorkloadEventProvenance b method params source since t in
  let b1 := (applyWorkloadEvent b method params source since t).1 in
  b_workloads b' = b_workloads b1 /\ b_metrics b' = b_metrics b1 /\ b_live b' = b_live b1 /\ b_nodeID b' = b_nodeID b1.
Proof.
  cbn. unfold emitWorkloadEventProvenance, fanWorkloadToScheduler, recomputeSchedulingDemand, recomputeDemand.
  destruct (applyWorkloadEvent b method params source since t) as [b1 ok]. destruct ok; [| done]. cbn [negb fst].
  repeat case_bool; done.
Qed.

(** Only a terminal payload is a completion. *)
Lemma completion_terminal info i c : ParseIncoming info = Some i -> completion_of info = Some c -> IsTerminal (WorkloadStore.in_State i) = true.
Proof.
  unfold ParseIncoming, completion_of. destruct info as [| | | | | | l]; cbn; try done.
  unfold unmarshal_metrics. cbn [dec_struct nm_State nm_Model nm_OriginatedFrom nm_ScheduledOn].
  destruct (field dec_string "id" l "") as [id|]; [| done]. destruct (field dec_string "engine" l ""); [| done].
  destruct (field dec_string "runId" l ""); [| done]. destruct (field dec_string "state" l "") as [st|]; [| done].
  destruct (field dec_string "originatedFrom" l ""); [| done]. destruct (field dec_string "scheduledOn" l ""); [| done].
  destruct (field dec_int64 "createdAt" l 0); [| done]. destruct (field (dec_ptr dec_int64 0) "completedAt" l None); [| done].
  cbn. case_bool; [done |]. intros [= <-]. cbn [WorkloadStore.in_State].
  destruct (field dec_string "model" l ""); [| done]. destruct (unmarshal_measurement l no_measurement); [| done].
  cbn. destruct (IsTerminal st); [done |]. done.
Qed.

Lemma metrics_run_app w l l' : NodeMetrics.run w (l ++ l') = foldl NodeMetrics.recorded (NodeMetrics.run w l) l'.
Proof. unfold NodeMetrics.run. by rewrite foldl_app. Qed.

Lemma with_provenance_self r : WorkloadStore.with_provenance r (WorkloadStore.r_Inferred r) (WorkloadStore.r_LastSeen r) = r.
Proof. by destruct r. Qed.

Lemma counts_same w b rs rs' log b' :
  counts_ok w b rs log -> b_workloads b' = b_workloads b -> b_metrics b' = b_metrics b ->
  (forall i, i ∈ rs -> i ∈ rs') -> (forall i, i ∈ rs' -> i ∈ rs \/ IsTerminal (WorkloadStore.in_State i) = false) ->
  counts_ok w b' rs' log.
Proof.
  intros Hok Hw Hm Hsub Hnew. apply (counts_seen w b b' rs rs' log Hok); [| done | done |].
  - intros k. exists WorkloadStore.r_LastSeen. rewrite Hw. destruct (_ !! k) as [r|]; [| done]. cbn. by rewrite with_provenance_self.
  - intros i Hi. destruct (Hnew i Hi) as [? | Ht]; [by left |]. right. by rewrite Ht.
Qed.

(** A record filed under a key by the index is what the event says. *)
Lemma written_finished i inferred now seen :
  finished (WorkloadStore.written i inferred now seen) <-> IsTerminal (WorkloadStore.in_State i) = true /\ inferred = false.
Proof. done. Qed.

Lemma faithful_terminal k r : WorkloadHistory.faithful k r -> WorkloadStore.r_Terminal r = IsTerminal (WorkloadStore.r_State r).
Proof. intros (i & _ & _ & ->). done. Qed.

Lemma snoc_sub {A} (rs : list A) i : forall x, x ∈ rs -> x ∈ rs ++ [i].
Proof. set_solver. Qed.

(** An origin's report that the gate lets through: the index applies it, the metrics
    count it when it was accepted. *)
Lemma emit_report b params source t info i :
  source <> workloadInferred -> workloadInfo_of params = Some info -> ParseIncoming info = Some i -> refused b source i = false ->
  let b' := emitWorkloadEventProvenance b "workloads:upsert" params source None t in
  b_workloads b' = (WorkloadStore.Apply (b_workloads b) i (i_store t)).1 /\
  b_metrics b' = if (WorkloadStore.Apply (b_workloads b) i (i_store t)).2
                 then b_metrics (recordNodeMetrics b info t) else b_metrics b.
Proof.
  intros Hsrc Hinfo Hp Er b'. destruct (emit_core b "workloads:upsert" params source None t) as (Hw & Hm & _). fold b' in Hw, Hm.
  unfold applyWorkloadEvent in Hw, Hm. rewrite bool_decide_true, Hinfo, Hp, Er in Hw, Hm by done.
  assert (forall s, b_metrics (recordNodeMetrics (with_store b s) info t) = b_metrics (recordNodeMetrics b info t)) as Hr.
  { intros s. unfold recordNodeMetrics. by destruct (completion_of info) as [[[? ?] ?]|]. }
  destruct source; [| | done]; destruct (WorkloadStore.Apply (b_workloads b) i (i_store t)) as [s ok]; cbn [fst snd];
    destruct ok; cbn [negb fst] in *; try (by rewrite Hw, Hm); destruct (IsTerminal (WorkloadStore.in_State i));
    cbn [fst with_live b_workloads b_metrics] in *;
    rewrite Hw, Hm, Hr; (split; [| done]); apply (record_metrics_same (with_store b s) info t).
Qed.

(** An origin's report. *)
Lemma counts_report w b rs log params source t info i :
  source <> workloadInferred -> workloadInfo_of params = Some info -> ParseIncoming info = Some i -> well_named info ->
  (forall j, j ∈ rs -> IsTerminal (WorkloadStore.in_State j) = true -> IsTerminal (WorkloadStore.in_State i) = true ->
     ident j = ident i -> WorkloadStore.in_ScheduledOn j = WorkloadStore.in_ScheduledOn i) ->
  counts_ok w b rs log ->
  exists extra, counts_ok w (emitWorkloadEventProvenance b "workloads:upsert" params source None t) (rs ++ [i]) (log ++ extra).
Proof.
  intros Hsrc Hinfo Hp Hn Hsched Hok. destruct (emit_core b "workloads:upsert" params source None t) as (Hw & Hm & _).
  set (b' := emitWorkloadEventProvenance b "workloads:upsert" params source None t) in *.
  destruct (parsed_valid info i Hp) as [Hv Hii].
  unfold applyWorkloadEvent in Hw, Hm. rewrite bool_decide_true, Hinfo, Hp in Hw, Hm by done.
  destruct (refused b source i) eqn:Er.
  { exists []. rewrite app_nil_r. apply (counts_same w b rs _ log b' Hok Hw Hm (snoc_sub rs i)).
    intros j [Hj | ->%list_elem_of_singleton]%elem_of_app; [by left | right]. unfold refused in Er.
    destruct source; [| done | done]. unbool. done. }
  destruct (emit_report b params source t info i Hsrc Hinfo Hp Er) as [Hw' Hm']. fold b' in Hw', Hm'.
  clear Hw Hm. rewrite <- Hii in Hp. unfold WorkloadStore.Apply in *.
  pose proof (WorkloadStore.applyLocked_facts (b_workloads b) i false (i_store t)) as Ha.
  destruct (WorkloadStore.applyLocked (b_workloads b) i false (i_store t)) as [s ok]. cbn [fst snd] in *.
  destruct Ha as (Hother & _ & Ha & _). specialize (Ha Hv). rewrite <- Hw' in Hother, Ha.
  set (extra := if IsTerminal (WorkloadStore.in_State i) then [(i, t)] else []).
  assert (b_metrics (recordNodeMetrics b info t) = NodeMetrics.run w (omap counted (log ++ extra))) as Hrec.
  { rewrite omap_app, metrics_run_app, <- (co_metrics _ _ _ _ Hok). unfold recordNodeMetrics, extra.
    destruct (completion_of info) as [[[node model] m]|] eqn:Ec.
    - rewrite (completion_terminal info i _ (eq_trans (f_equal ParseIncoming (eq_sym Hii)) Hp) Ec). cbn. unfold counted. cbn.
      by rewrite Hii, Ec.
    - destruct (IsTerminal (WorkloadStore.in_State i)); [| done]. cbn. unfold counted. cbn. by rewrite Hii, Ec. }
  assert (forall seen,
    (forall old, WorkloadStore.s_records (b_workloads b) !! keyOf i = Some old ->
       WorkloadStore.r_CreatedAt old < WorkloadStore.in_CreatedAt i \/
       WorkloadStore.r_CreatedAt old = WorkloadStore.in_CreatedAt i /\ ~ finished old) ->
    WorkloadStore.s_records (b_workloads b') !! keyOf i = Some (WorkloadStore.written i false (i_store t) seen) ->
    b_metrics b' = b_metrics (recordNodeMetrics b info t) -> exists extra, counts_ok w b' (rs ++ [i]) (log ++ extra)) as Hput.
  { intros seen Hold Hk Hmm. exists extra.
    apply (counts_put w b b' rs (rs ++ [i]) log extra (keyOf i) _ Hok Hother Hk);
      [by rewrite Hmm | by apply WorkloadHistory.written_faithful | by rewrite <- Hii in Hn | apply snoc_sub | | exact Hold | |].
    - exists i. split; [set_solver | done].
    - unfold extra. destruct (IsTerminal (WorkloadStore.in_State i)) eqn:Et; [right | left; split; [done |]].
      + exists i, t. split_and!; try done. set_solver.
      + intros [Hf _]. cbn in Hf. congruence.
    - intros j [Hj | ->%list_elem_of_singleton]%elem_of_app; [by left | right]. intros Ht. unfold extra. rewrite Ht.
      rewrite !fmap_app, elem_of_app. right. left. }
  destruct (WorkloadStore.s_records (b_workloads b) !! keyOf i) as [cur|] eqn:Ec.
  2: { destruct Ha as [-> Ha]. by apply (Hput _ ltac:(done) Ha). }
  pose proof (co_faithful _ _ _ _ Hok _ _ Ec) as Hfc. pose proof (faithful_terminal _ _ Hfc) as Htc.
  destruct Ha as [Hacc Ha]. unfold WorkloadStore.accepts in Hacc. destruct ok; destruct Ha as (seen & Ha & Hseen).
  - apply (Hput seen); [| done | done]. intros old [= <-].
    destruct (Z.ltb_spec (WorkloadStore.r_CreatedAt cur) (WorkloadStore.in_CreatedAt i)) as [? | Hge]; [by left | right].
    destruct (Z.ltb_spec (WorkloadStore.in_CreatedAt i) (WorkloadStore.r_CreatedAt cur)) as [? | Hle]; [done |].
    split; [lia |]. intros [Ht Hi]. rewrite Hi in Hacc. cbn [Bool.eqb] in Hacc.
    rewrite Htc, <- WorkloadStore.rank_terminal in Ht. pose proof (WorkloadStore.rank_range (WorkloadStore.in_State i)) as Hrange.
    symmetry in Hacc. apply orb_true_iff in Hacc as [Hlt | [Heq Hs]%andb_true_iff]; [unbool; lia |]. unbool.
    assert (IsTerminal (WorkloadStore.in_State i) = true) as Hti by (apply WorkloadStore.rank_terminal; lia).
    assert (finished cur) as Hfin by (split; [rewrite Htc; by apply WorkloadStore.rank_terminal | done]).
    pose proof (co_finished _ _ _ _ Hok _ _ Ec Hfin) as (j & Hj & Hjl)%list_elem_of_fmap.
    destruct (co_held _ _ _ _ Hok j Hjl) as (r & Hr & Hcase). pose proof (f_equal fst Hj) as Hjk. pose proof (f_equal snd Hj) as Hjg.
    cbn [ident fst snd] in Hjk, Hjg. rewrite <- Hjk, Ec in Hr. injection Hr as <-.
    destruct Hcase as [? | (_ & _ & Hsc)]; [lia |]. destruct (co_sub _ _ _ _ Hok j Hjl) as [Hjr Hjt].
    apply Hs. rewrite Hsc. symmetry. apply Hsched; [done | done | done |]. unfold ident. rewrite <- Hjk. f_equal. lia.
  - exists []. rewrite app_nil_r. apply (counts_seen w b b' rs _ log Hok); [| done | apply snoc_sub |].
    + intros k. exists (fun r => if decide (k = keyOf i) then seen else WorkloadStore.r_LastSeen r).
      destruct (decide (k = keyOf i)) as [-> | Hne]; [by rewrite Ha, Ec |]. rewrite Hother by done.
      destruct (_ !! k); [| done]. cbn. by rewrite with_provenance_self.
    + intros j [Hj | ->%list_elem_of_singleton]%elem_of_app; [by left | right]. intros Hti.
      destruct (Z.ltb_spec (WorkloadStore.r_CreatedAt cur) (WorkloadStore.in_CreatedAt i)) as [? | Hge]; [done |].
      destruct (Z.ltb_spec (WorkloadStore.in_CreatedAt i) (WorkloadStore.r_CreatedAt cur)) as [Hgt | Hle]; [right; eauto | left].
      destruct (WorkloadStore.r_Inferred cur) eqn:Hi; cbn [Bool.eqb] in Hacc; [done |].
      symmetry in Hacc. apply orb_false_iff in Hacc as [Hlt _]. unbool.
      apply WorkloadStore.rank_terminal in Hti. pose proof (WorkloadStore.rank_range (WorkloadStore.r_State cur)).
      assert (finished cur) as Hfin by (split; [rewrite Htc; apply WorkloadStore.rank_terminal; lia | done]).
      pose proof (co_finished _ _ _ _ Hok _ _ Ec Hfin) as Hin. unfold ident at 1. by replace (WorkloadStore.in_CreatedAt i)
        with (WorkloadStore.r_CreatedAt cur) by lia.
Qed.
(** A sweep's verdict: nothing is counted. *)
Lemma counts_inferred w b rs log params since t info i :
  workloadInfo_of params = Some info -> ParseIncoming info = Some i -> well_named info ->
  (exists j, j ∈ rs /\ ident j = ident i) ->
  counts_ok w b rs log -> counts_ok w (emitWorkloadEventProvenance b "workloads:upsert" params workloadInferred since t) rs log.
Proof.
  intros Hinfo Hp Hn Hsrc Hok. destruct (emit_core b "workloads:upsert" params workloadInferred since t) as (Hw & Hm & _).
  set (b' := emitWorkloadEventProvenance b "workloads:upsert" params workloadInferred since t) in *.
  destruct (parsed_valid info i Hp) as [Hv Hii].
  unfold applyWorkloadEvent in Hw, Hm. rewrite bool_decide_true, Hinfo, Hp in Hw, Hm by done. cbn [refused] in Hw, Hm.
  assert (b_metrics b' = b_metrics b /\ (b_workloads b' = b_workloads b \/
    b_workloads b' = (WorkloadStore.applyLocked (b_workloads b) i true (i_store t)).1)) as [Hm' Hw'].
  { destruct since as [seen|].
    - unfold WorkloadStore.ApplyInferredUnchangedSince in *. destruct (_ !! keyOf i) as [cur|]; [| by auto].
      destruct (negb _); [by auto |]. destruct (WorkloadStore.applyLocked _ _ _ _); by auto.
    - unfold WorkloadStore.ApplyInferred in *. destruct (WorkloadStore.applyLocked _ _ _ _); by auto. }
  clear Hw Hm. destruct Hw' as [Hw' | Hw']; [apply (counts_same w b rs rs log b' Hok Hw' Hm'); auto |].
  rewrite <- Hii in Hp. pose proof (WorkloadStore.applyLocked_facts (b_workloads b) i true (i_store t)) as Ha.
  destruct (WorkloadStore.applyLocked (b_workloads b) i true (i_store t)) as [s ok]. cbn [fst] in Hw'.
  destruct Ha as (Hother & _ & Ha & _). specialize (Ha Hv). rewrite <- Hw' in Hother, Ha.
  assert (forall seen,
    (forall old, WorkloadStore.s_records (b_workloads b) !! keyOf i = Some old ->
       WorkloadStore.r_CreatedAt old < WorkloadStore.in_CreatedAt i \/
       WorkloadStore.r_CreatedAt old = WorkloadStore.in_CreatedAt i /\ ~ finished old) ->
    WorkloadStore.s_records (b_workloads b') !! keyOf i = Some (WorkloadStore.written i true (i_store t) seen) ->
    counts_ok w b' rs log) as Hput.
  { intros seen Hold Hk. rewrite <- (app_nil_r log).
    apply (counts_put w b b' rs rs log [] (keyOf i) _ Hok Hother Hk);
      [by rewrite app_nil_r, Hm'; apply Hok | by apply WorkloadHistory.written_faithful | by rewrite <- Hii in Hn | done
      | exact Hsrc | exact Hold | left | by auto].
    split; [done |]. by intros [_ ?]. }
  destruct (WorkloadStore.s_records (b_workloads b) !! keyOf i) as [cur|] eqn:Ec.
  2: { destruct Ha as [_ Ha]. by apply (Hput _ ltac:(done) Ha). }
  destruct Ha as [Hacc Ha]. unfold WorkloadStore.accepts in Hacc. destruct ok; destruct Ha as (seen & Ha & Hseen).
  - apply (Hput seen); [| done]. intros old [= <-].
    destruct (Z.ltb_spec (WorkloadStore.r_CreatedAt cur) (WorkloadStore.in_CreatedAt i)) as [? | Hge]; [by left | right].
    destruct (Z.ltb_spec (WorkloadStore.in_CreatedAt i) (WorkloadStore.r_CreatedAt cur)) as [? | Hle]; [done |].
    split; [lia |]. intros [Ht Hi]. rewrite Hi, Ht in Hacc. done.
  - apply (counts_seen w b b' rs rs log Hok); [| done | done | by auto].
    intros k. exists WorkloadStore.r_LastSeen. destruct (decide (k = keyOf i)) as [-> | Hne].
    + rewrite Ha, Ec, Hseen. done.
    + rewrite Hother by done. destruct (_ !! k); [| done]. cbn. by rewrite with_provenance_self.
Qed.
(** A failed copy of a record the index holds. *)
Definition verdict_on (rs : list Incoming) (params : json) : Prop :=
  exists info i, workloadInfo_of params = Some info /\ ParseIncoming info = Some i /\ well_named info /\
    exists j, j ∈ rs /\ ident j = ident i.

Lemma mark_known w b rs log k r now msg :
  counts_ok w b rs log -> WorkloadStore.s_records (b_workloads b) !! k = Some r -> in_int64 now ->
  exists env, markWorkloadFailed (WorkloadStore.r_Info r) now msg = Some env /\ verdict_on rs env.
Proof.
  intros Hok Hr Hnow. destruct (co_faithful _ _ _ _ Hok k r Hr) as (i & Hp & Hk & Hri).
  destruct (mark_parse _ i now msg Hp (co_named _ _ _ _ Hok k r Hr) Hnow) as (env & info' & H1 & H2 & H3 & H4).
  exists env. split; [done |]. exists info', (failed_of i now info'). split_and!; try done.
  destruct (co_source _ _ _ _ Hok k r Hr) as (j & Hj & Hid). exists j. split; [done |].
  rewrite Hid, <- Hk, Hri. done.
Qed.

Lemma fold_keeps {A} (P : Broker -> Prop) (f : Broker * nat -> A -> Broker * nat) l b n :
  (forall b n x, x ∈ l -> P b -> P (f (b, n) x).1) -> P b -> P (foldl f (b, n) l).1.
Proof.
  revert b n. induction l as [|x l IH]; intros b n Hf Hb; [done |]. cbn.
  pose proof (Hf b n x ltac:(left) Hb) as H1. destruct (f (b, n) x) as [b1 n1]. apply IH; [| done].
  intros. apply Hf; [by right | done].
Qed.

Lemma counts_verdict w b rs log params since t :
  verdict_on rs params -> counts_ok w b rs log ->
  counts_ok w (emitWorkloadEventProvenance b "workloads:upsert" params workloadInferred since t) rs log.
Proof. intros (info & i & ? & ? & ? & ?). by eapply counts_inferred. Qed.

Lemma held_records s (f : WorkloadStore.Store_Record -> bool) r :
  r ∈ List.filter f (WorkloadStore.all_records s) -> exists k, WorkloadStore.s_records s !! k = Some r.
Proof.
  intros [Hr _]%list_elem_of_In%filter_In. apply list_elem_of_In in Hr. unfold WorkloadStore.all_records in Hr.
  apply list_elem_of_fmap in Hr as ([k r'] & -> & Hr). rewrite range_perm in Hr. apply elem_of_map_to_list in Hr. eauto.
Qed.

Lemma counts_node_loss w b rs log uuid name now t :
  in_int64 (WorkloadStore.t_unix now) -> counts_ok w b rs log -> counts_ok w (failWorkloadsForNode b uuid name now t) rs log.
Proof.
  intros Hnow Hok. unfold failWorkloadsForNode. case_bool; [done |].
  apply (fold_keeps (fun b => counts_ok w b rs log)); [| done]. intros b1 n params Hin Hok1.
  apply counts_verdict; [| done]. apply list_elem_of_omap in Hin as (r & Hr & Hmark).
  apply held_records in Hr as [k Hr].
  match type of Hmark with markWorkloadFailed _ _ ?msg = _ =>
    destruct (mark_known w b rs log k r _ msg Hok Hr Hnow) as (env & Henv & Hv) end.
  rewrite Henv in Hmark. by injection Hmark as <-.
Qed.

Lemma counts_sweep w b rs log stale snapshot start now t :
  in_int64 (WorkloadStore.t_unix now) -> counts_ok w b rs log ->
  counts_ok w (failStaleForeignWorkloads b stale snapshot start now t) rs log.
Proof.
  intros Hnow Hok. unfold failStaleForeignWorkloads.
  apply (fold_keeps (fun b => counts_ok w b rs log)); [| done]. intros b1 n r Hr Hok1.
  apply held_records in Hr as [k Hr].
  destruct (mark_known w b rs log k r (WorkloadStore.t_unix now) ("node " +:+ default (WorkloadStore.r_Origin r)
    (nodeDisplayNames snapshot !! WorkloadStore.r_Origin r) +:+ " stopped reporting this workload") Hok Hr Hnow) as (env & -> & Hv).
  by apply counts_verdict.
Qed.
(** The terminal reports of one generation name one node. *)
Definition agreeing (rs : list Incoming) : Prop :=
  forall i j, i ∈ rs -> j ∈ rs -> IsTerminal (WorkloadStore.in_State i) = true -> IsTerminal (WorkloadStore.in_State j) = true ->
    ident i = ident j -> WorkloadStore.in_ScheduledOn i = WorkloadStore.in_ScheduledOn j.

Definition well_formed (rs : list Incoming) : Prop := agreeing rs /\ forall i, i ∈ rs -> well_named (WorkloadStore.in_Info i).

Lemma well_formed_sub rs rs' : rs ⊆ rs' -> well_formed rs' -> well_formed rs.
Proof. intros Hsub [Ha Hw]. split; [intros i j Hi Hj; by apply Ha; apply Hsub | intros i Hi; by apply Hw, Hsub]. Qed.

Lemma counts_emit w b rs log params source t :
  source <> workloadInferred -> well_formed (rs ++ option_list (parsed params)) -> counts_ok w b rs log ->
  exists extra, counts_ok w (emitWorkloadEventProvenance b "workloads:upsert" params source None t)
    (rs ++ option_list (parsed params)) (log ++ extra).
Proof.
  intros Hsrc [Ha Hw] Hok. destruct (parsed params) as [i|] eqn:Ep; cbn [option_list] in *.
  - unfold parsed in Ep. destruct (workloadInfo_of params) as [info|] eqn:Einfo; [| done].
    destruct (parsed_valid info i Ep) as [_ Hinfo]. rewrite <- Hinfo in Ep.
    apply (counts_report w b rs log params source t info i); [done | done | congruence | rewrite <- Hinfo; apply Hw; set_solver | | done].
    intros j Hj ? ? ?. apply Ha; set_solver.
  - exists []. rewrite !app_nil_r. destruct (emit_core b "workloads:upsert" params source None t) as (H1 & H2 & _).
    unfold applyWorkloadEvent in H1, H2. rewrite bool_decide_true in H1, H2 by done. unfold parsed in Ep.
    apply (counts_same w b rs rs log _ Hok); [| | done | by auto].
    + rewrite H1. destruct (workloadInfo_of params) as [info|]; [| done]. by rewrite Ep.
    + rewrite H2. destruct (workloadInfo_of params) as [info|]; [| done]. by rewrite Ep.
Qed.

Lemma counts_ingest w b rs log frame : counts_ok w b rs log -> counts_ok w (ingestProgress b frame) rs log.
Proof.
  intros Hok. apply (counts_same w b rs rs log _ Hok); [| | done | by auto]; unfold ingestProgress;
    destruct (LiveProgress.merge (b_live b) frame) as [i [v|]]; repeat case_bool; done.
Qed.

Lemma counts_step w b rs log e b' :
  step b e = Some b' -> removes e = false -> timely e ->
  well_formed (rs ++ option_list (report (b_nodeID b) e)) -> counts_ok w b rs log ->
  exists extra, counts_ok w b' (rs ++ option_list (report (b_nodeID b) e)) (log ++ extra).
Proof.
  intros Hs Hr Ht Hwf Hok.
  assert (forall b', counts_ok w b' rs log -> exists extra, counts_ok w b' (rs ++ []) (log ++ extra)) as Hquiet.
  { intros b0 ?. exists []. by rewrite !app_nil_r. }
  destruct e as [method params decoded t | method params t | decoded encode | uuid name now t | snapshot start now t | now];
    cbn [step removes timely report] in *; try (injection Hs as <-).
  - unfold forwardWorkloadManagerNotification. rewrite Hr, orb_false_r. case_bool; unbool.
    + subst method. by apply counts_emit.
    + apply Hquiet. case_bool; [| done]. destruct decoded; [| done]. case_bool; [done | by apply counts_ingest].
  - cbn [negb] in *. rewrite Hr in Hwf |- *. cbn [negb] in *. rewrite andb_true_r in Hwf |- *. case_bool; [| injection Hs as <-; by apply Hquiet]. unfold routeProxyWorkload in Hs.
    rewrite Hr in Hs. destruct (stampNodeID params (b_nodeID b)) as [stamped|]; [| done]. injection Hs as <-.
    destruct (counts_emit w b rs log stamped workloadLocalProxy t ltac:(done) Hwf Hok) as [extra Hc]. exists extra.
    case_bool; [| done]. by apply (counts_same w _ _ _ _ _ Hc); auto.
  - apply Hquiet. unfold routeProxyProgress. destruct decoded as [frame|]; [| done]. case_bool; [done |]. case_bool; [done |].
    apply (counts_ingest _ _ _ _ (LiveProgress.stampProgressOrigin frame (b_nodeID b))) in Hok.
    case_bool; [| done]. by apply (counts_same w _ _ _ _ _ Hok); auto.
  - by apply Hquiet, counts_node_loss.
  - by apply Hquiet, counts_sweep.
  - apply Hquiet. unfold flushNodeMetrics. case_bool; [done |]. by apply (counts_same w _ _ _ _ _ Hok); auto.
Qed.

Lemma counts_run w b rs log evs b' :
  run b evs = Some b' -> Forall (fun e => removes e = false /\ timely e) evs ->
  well_formed (rs ++ omap (report (b_nodeID b)) evs) -> counts_ok w b rs log ->
  exists extra, counts_ok w b' (rs ++ omap (report (b_nodeID b)) evs) (log ++ extra).
Proof.
  revert b rs log. induction evs as [|e evs IH]; intros b rs log; cbn [run].
  { intros [= <-] _ _ Hok. exists []. by rewrite !app_nil_r. }
  destruct (step b e) as [b1|] eqn:Es; [| done]. intros Hr [[He Ht] Hevs]%Forall_cons Hwf Hok.
  destruct (step_follows b e b1 Es) as (_ & _ & Hid & _).
  assert (omap (report (b_nodeID b)) (e :: evs) = option_list (report (b_nodeID b) e) ++ omap (report (b_nodeID b1)) evs) as Homap
    by (rewrite Hid; cbn; by destruct (report (b_nodeID b) e)).
  rewrite Homap, app_assoc in Hwf |- *.
  destruct (counts_step w b rs log e b1 Es He Ht) as [ex1 H1]; [eapply well_formed_sub; [| exact Hwf]; set_solver | done |].
  destruct (IH b1 _ _ Hr Hevs Hwf H1) as [ex2 H2]. exists (ex1 ++ ex2). by rewrite app_assoc.
Qed.

(** C7. Every finished job is counted exactly once.  Start from an empty index and run
    anything that removes no workload: duplicated, reordered and replayed reports, reports
    relayed by the mesh and by the local proxies, node-loss sweeps that guess a failure and
    origins that later contradict them.  Assume what the code's own comment on
    recordNodeMetrics says its exactly-once property rests on, that all terminal reports of
    one workload generation name the same scheduledOn (the index takes another node for
    news and the completion would be counted again), and that in each report no two member
    names differ in case only and the names the sweeps rewrite are spelled as on the wire;
    clock readings fit an int64.
    Then the metrics store is the one obtained by recording one terminal report per workload
    generation, each an origin's own; only a terminal report superseded by a newer
    generation of its key may be left out. *)
Theorem counted_exactly_once (w : Z) (b b' : Broker) (evs : list wevent) :
  WorkloadStore.s_records (b_workloads b) = ∅ -> b_metrics b = NodeMetrics.NewStore w ->
  run b evs = Some b' -> Forall (fun e => removes e = false /\ timely e) evs ->
  let reports := omap (report (b_nodeID b)) evs in
  well_formed reports ->
  exists log, b_metrics b' = NodeMetrics.run w (omap counted log) /\ NoDup (ident <$> log.*1) /\
    (forall i, i ∈ log.*1 -> i ∈ reports /\ IsTerminal (WorkloadStore.in_State i) = true) /\
    forall i, i ∈ reports -> IsTerminal (WorkloadStore.in_State i) = true ->
      ident i ∈ ident <$> log.*1 \/
      exists j, j ∈ reports /\ keyOf j = keyOf i /\ WorkloadStore.in_CreatedAt i < WorkloadStore.in_CreatedAt j.
Proof.
  intros He Hm Hr Hevs reports Hwf.
  assert (counts_ok w b [] []) as Hok.
  { split; try (intros ? ?; rewrite He, lookup_empty; done); try (intros ? ?%elem_of_nil; done); [exact Hm | constructor]. }
  destruct (counts_run w b [] [] evs b' Hr Hevs Hwf Hok) as [log Hlog]. cbn [app] in Hlog. fold reports in Hlog.
  exists log. split; [apply Hlog |]. split; [apply Hlog |]. split; [apply Hlog |]. intros i Hi Ht.
  destruct (co_done _ _ _ _ Hlog i Hi Ht) as [? | (r & Hr' & Hlt)]; [by left | right].
  destruct (co_source _ _ _ _ Hlog _ _ Hr') as (j & Hj & Hid). exists j. split; [done |].
  pose proof (f_equal fst Hid) as H1. pose proof (f_equal snd Hid) as H2. cbn [ident fst snd] in H1, H2.
  split; [done |]. by rewrite H2.
Qed.
End Counting.

(** * Facts: a node's loss *)

Section NodeLoss.
Context `{!MapRange}.

(** The guess the sweep files in place of a live record. *)
Definition guessed (r : WorkloadStore.Store_Record) (now : Z) (r' : WorkloadStore.Store_Record) : Prop :=
  exists info' updated, ParseIncoming info' <> None /\
    r' = WorkloadStore.mkRecord (WorkloadStore.r_Origin r) (WorkloadStore.r_ID r) "failed" (WorkloadStore.r_CreatedAt r) now
           (WorkloadStore.r_ScheduledOn r) true true info' updated (WorkloadStore.r_LastSeen r).

Definition pinned (uuid : string) (r : WorkloadStore.Store_Record) : bool :=
  WorkloadStore.live r && (bool_decide (WorkloadStore.r_Origin r = uuid) || bool_decide (WorkloadStore.r_ScheduledOn r = uuid)).

Lemma guess_one b k r now msg t :
  WorkloadStore.s_records (b_workloads b) !! k = Some r -> WorkloadHistory.faithful k r -> well_named (WorkloadStore.r_Info r) ->
  WorkloadStore.live r = true -> in_int64 now ->
  exists env, markWorkloadFailed (WorkloadStore.r_Info r) now msg = Some env /\
    let b' := emitWorkloadEventInferred b "workloads:upsert" env t in
    b_metrics b' = b_metrics b /\
    (forall k', k' <> k -> WorkloadStore.s_records (b_workloads b') !! k' = WorkloadStore.s_records (b_workloads b) !! k') /\
    exists r', WorkloadStore.s_records (b_workloads b') !! k = Some r' /\ guessed r now r'.
Proof.
  intros Hr (i & Hp & Hk & Hri) Hn Hlive Hnow.
  destruct (mark_parse _ i now msg Hp Hn Hnow) as (env & info' & He & Hinfo & Hp' & _).
  exists env. split; [done |]. cbn zeta. unfold emitWorkloadEventInferred.
  destruct (emit_core b "workloads:upsert" env workloadInferred None t) as (Hw & Hm & _). rewrite Hw, Hm. clear Hw Hm.
  unfold applyWorkloadEvent. rewrite bool_decide_true, Hinfo, Hp' by done. cbn [refused]. unfold WorkloadStore.ApplyInferred.
  pose proof (WorkloadStore.applyLocked_facts (b_workloads b) (failed_of i now info') true (i_store t)) as Ha.
  destruct (WorkloadStore.applyLocked _ _ _ _) as [s ok]. destruct Ha as (Hother & _ & Ha & _).
  specialize (Ha (proj1 (parsed_valid _ _ Hp'))). change (keyOf (failed_of i now info')) with (keyOf i) in *.
  rewrite Hk in *. rewrite Hr in Ha. destruct Ha as [Hok Ha]. cbn [fst with_store b_metrics b_workloads].
  split; [done |]. split; [exact Hother |].
  unfold WorkloadStore.live in Hlive. unbool. unfold WorkloadStore.accepts in Hok. rewrite Hlive in Hok.
  assert (WorkloadStore.r_CreatedAt r = WorkloadStore.in_CreatedAt i) as Hc by (by rewrite Hri).
  assert (WorkloadStore.rank (WorkloadStore.r_State r) < 3) as Hrank.
  { pose proof (WorkloadStore.rank_range (WorkloadStore.r_State r)).
    destruct (Z.eq_dec (WorkloadStore.rank (WorkloadStore.r_State r)) 3) as [E%WorkloadStore.rank_terminal |]; [| lia].
    rewrite Hri in Hlive, E. cbn in Hlive, E. congruence. }
  assert (ok = true) as ->.
  { rewrite Hok, Hc. cbn [failed_of WorkloadStore.in_CreatedAt WorkloadStore.in_State]. rewrite Z.ltb_irrefl.
    change (WorkloadStore.rank "failed") with 3. rewrite (proj2 (Z.ltb_lt _ _) Hrank).
    by destruct (WorkloadStore.r_Inferred r). }
  destruct Ha as (seen & Ha & ->). eexists. split; [exact Ha |]. exists info', (WorkloadStore.t_unix (i_store t)).
  split; [by rewrite Hp' |]. rewrite Hri. done.
Qed.

Lemma guess_all now (msg : string) (t : nat -> instants) l b n :
  NoDup l.*1 -> in_int64 now ->
  (forall k r, (k, r) ∈ l -> WorkloadStore.s_records (b_workloads b) !! k = Some r /\ WorkloadHistory.faithful k r /\
     well_named (WorkloadStore.r_Info r) /\ WorkloadStore.live r = true) ->
  let b' := (foldl (fun '(b, n) params => (emitWorkloadEventInferred b "workloads:upsert" params (t n), S n)) (b, n)
               (omap (fun r => markWorkloadFailed (WorkloadStore.r_Info r) now msg) l.*2)).1 in
  b_metrics b' = b_metrics b /\
  (forall k, k ∉ l.*1 -> WorkloadStore.s_records (b_workloads b') !! k = WorkloadStore.s_records (b_workloads b) !! k) /\
  forall k r, (k, r) ∈ l -> exists r', WorkloadStore.s_records (b_workloads b') !! k = Some r' /\ guessed r now r'.
Proof.
  intros Hnd Hnow. revert b n Hnd. induction l as [|[k r] l IH]; intros b n Hnd Hl.
  { split; [done |]. split; [done |]. by intros ? ? ?%not_elem_of_nil. }
  cbn [fmap list_fmap fst] in Hnd. apply NoDup_cons in Hnd as [Hk Hnd].
  destruct (Hl k r ltac:(left)) as (Hr & Hf & Hn & Hlive).
  destruct (guess_one b k r now msg (t n) Hr Hf Hn Hlive Hnow) as (env & He & Hm & Hother & Hput).
  change ((k, r) :: l).*2 with (r :: l.*2). cbn [omap list_omap]. rewrite He. cbn [foldl].
  set (b1 := emitWorkloadEventInferred b "workloads:upsert" env (t n)) in *.
  destruct (IH b1 (S n) Hnd) as (Hm' & Hother' & Hput').
  { intros k' r' Hin. rewrite Hother; [apply Hl; by right |]. intros ->.
    apply Hk. by apply (list_elem_of_fmap_2 fst _ (k, r')). }
  split; [by rewrite Hm' |]. split.
  - intros k' Hk'. change ((k, r) :: l).*1 with (k :: l.*1) in Hk'. apply not_elem_of_cons in Hk' as [? ?].
    rewrite Hother' by done. by apply Hother.
  - intros k' r' [E | Hin]%elem_of_cons; [| by apply Hput']. injection E as -> ->. rewrite Hother' by done. exact Hput.
Qed.

(** C28. A lost node takes its live jobs with it, and nothing else.  Every live record
    that originates on the node or is scheduled on it becomes an inferred failure of
    the same generation, completed at the sweep's clock, with its origin's last
    sighting kept; every other record, and the metrics, are untouched; no live record
    of the node is left; and the guess yields to the origin's next event of that
    generation, whatever it says. *)
Theorem node_loss (b : Broker) (nodeUUID nodeName : string) (now : reading) (t : nat -> instants) :
  WorkloadHistory.all_faithful (b_workloads b) ->
  (forall k r, WorkloadStore.s_records (b_workloads b) !! k = Some r -> well_named (WorkloadStore.r_Info r)) ->
  in_int64 (WorkloadStore.t_unix now) -> nodeUUID <> "" ->
  let b' := failWorkloadsForNode b nodeUUID nodeName now t in
  WorkloadStore.ActiveForNode (b_workloads b') nodeUUID = [] /\ b_metrics b' = b_metrics b /\
  forall k, match WorkloadStore.s_records (b_workloads b) !! k with
    | None => WorkloadStore.s_records (b_workloads b') !! k = None
    | Some r =>
        if pinned nodeUUID r then
          exists r', WorkloadStore.s_records (b_workloads b') !! k = Some r' /\ guessed r (WorkloadStore.t_unix now) r' /\
            forall i u, WorkloadStore.valid i -> keyOf i = k -> WorkloadStore.in_CreatedAt i = WorkloadStore.r_CreatedAt r ->
              (WorkloadStore.Apply (b_workloads b') i u).2 = true
        else WorkloadStore.s_records (b_workloads b') !! k = Some r
    end.
Proof.
  intros Hf Hn Hnow Hid b'. pose proof (eq_refl b') as Hb. unfold b' at 2, failWorkloadsForNode in Hb.
  rewrite (bool_decide_false (nodeUUID = "")) in Hb by done. clearbody b'.
  set (l := List.filter (fun p => pinned nodeUUID p.2) (range (WorkloadStore.s_records (b_workloads b)))).
  assert (WorkloadStore.ActiveForNode (b_workloads b) nodeUUID = l.*2) as Hl.
  { symmetry. exact (bfilter_snd (pinned nodeUUID) (range (WorkloadStore.s_records (b_workloads b)))). }
  assert (forall k r, (k, r) ∈ l <-> WorkloadStore.s_records (b_workloads b) !! k = Some r /\ pinned nodeUUID r = true) as Hin
    by (intros k r; unfold l; by rewrite elem_of_bfilter, elem_of_range).
  destruct (guess_all (WorkloadStore.t_unix now) ("node " +:+ (if bool_decide (nodeName = "") then nodeUUID else nodeName)
    +:+ " went offline") t l b O) as (Hm & Hother & Hput); [| done | |].
  { apply NoDup_fst_bfilter, NoDup_fst_range. }
  { intros k r [Hr Hp]%Hin. split_and!; [done | by apply Hf | by eapply Hn |]. unfold pinned in Hp. by unbool. }
  rewrite <- Hl in Hm, Hother, Hput. rewrite <- Hb in Hm, Hother, Hput.
  assert (forall k r, (k, r) ∉ l -> WorkloadStore.s_records (b_workloads b) !! k = Some r ->
    WorkloadStore.s_records (b_workloads b') !! k = Some r) as Hkeep.
  { intros k r Hk Hr. rewrite Hother; [done |]. intros ([k' r'] & -> & Hkr)%list_elem_of_fmap. cbn [fst] in Hr.
    pose proof Hkr as [Hr' _]%Hin. rewrite Hr in Hr'. injection Hr' as ->. done. }
  assert (forall k, WorkloadStore.s_records (b_workloads b) !! k = None -> WorkloadStore.s_records (b_workloads b') !! k = None) as Hnone.
  { intros k Hk. rewrite Hother; [done |]. intros ([k' r'] & -> & [Hr' _]%Hin)%list_elem_of_fmap. cbn [fst] in Hk. congruence. }
  split; [| split; [done |]].
  - destruct (WorkloadStore.ActiveForNode (b_workloads b') nodeUUID) as [|r' rest] eqn:E; [done | exfalso].
    assert (r' ∈ WorkloadStore.ActiveForNode (b_workloads b') nodeUUID) as Hr' by (rewrite E; left).
    pose proof (held_records _ _ _ Hr') as [k Hk]. apply elem_of_bfilter in Hr' as [_ Hp].
    destruct (WorkloadStore.s_records (b_workloads b) !! k) as [r|] eqn:Er; [| rewrite (Hnone k Er) in Hk; done].
    destruct (pinned nodeUUID r) eqn:Epin.
    + destruct (Hput k r) as (r'' & Hk' & info' & u & _ & ->); [by apply Hin |]. rewrite Hk in Hk'. injection Hk' as ->. done.
    + rewrite (Hkeep k r) in Hk; [| intros [_ ?]%Hin; congruence | done]. injection Hk as ->. unfold pinned in Epin. congruence.
  - intros k. destruct (WorkloadStore.s_records (b_workloads b) !! k) as [r|] eqn:Er; [| by apply Hnone].
    destruct (pinned nodeUUID r) eqn:Ep; [| apply Hkeep; [| done]; intros [_ ?]%Hin; congruence].
    destruct (Hput k r) as (r' & Hk & Hg); [by apply Hin |]. exists r'. split; [done |]. split; [done |].
    intros i u Hv Hki Hc. unfold WorkloadStore.Apply. pose proof (WorkloadStore.applyLocked_facts (b_workloads b') i false u) as Ha.
    destruct (WorkloadStore.applyLocked _ _ _ _) as [s ok]. destruct Ha as (_ & _ & Ha & _). specialize (Ha Hv).
    rewrite Hki, Hk in Ha. destruct Ha as [-> _]. destruct Hg as (info' & up & _ & ->). unfold WorkloadStore.accepts.
    cbn [WorkloadStore.r_CreatedAt WorkloadStore.r_Inferred snd Bool.eqb]. by rewrite Hc, Z.ltb_irrefl.
Qed.
End NodeLoss.

(** * Facts: attributing a local event *)

Lemma object_map_marshalled m : object_map (marshalled m) = m.
Proof.
  apply map_eq. intros k. apply option_eq. intros v. rewrite object_map_lookup by apply marshalled_NoDup. apply elem_of_marshalled.
Qed.

Lemma setNodeID_settled m key id m' : id <> "" -> setNodeIDIfEmpty m key id = Some m' -> setNodeIDIfEmpty m' key id = None.
Proof.
  intros Hid Hm. assert (m' = <[key := JStr id]> m) as -> by (unfold setNodeIDIfEmpty in Hm; repeat case_match; congruence).
  unfold setNodeIDIfEmpty. rewrite lookup_insert_eq. cbn [dec_string]. by rewrite bool_decide_false.
Qed.

(** Attribution settles, or the process dies.  Stamping a local event yields
    parameters that stamping leaves alone, so an event is attributed to one node once
    for all; the only parameters without a result are a [null] and an object whose
    [workloadInfo] is [null], where the code writes into a nil map. *)
Theorem stamp_settles (params : json) (nodeID : string) :
  nodeID <> "" ->
  match stampNodeID params nodeID with
  | Some stamped => stampNodeID stamped nodeID = Some stamped
  | None => params = JNull \/ exists l, params = JObj l /\ object_map l !! "workloadInfo" = Some JNull
  end.
Proof.
  intros Hid. destruct params as [| bo | z | q | str | a | l] eqn:Eparams; try done; [by left |]. cbn [stampNodeID].
  destruct (object_map l !! "workloadInfo") as [wi|] eqn:Ewi.
  - destruct wi as [| bo | z | q | str | a | wl] eqn:Ewl; try (cbn [stampNodeID]; by rewrite Ewi); [right; eauto |].
    destruct (setNodeIDIfEmpty (object_map wl) "originatedFrom" nodeID) as [wi'|] eqn:Es; [| cbn [stampNodeID]; by rewrite Ewi, Es].
    change (marshal_map (<["workloadInfo":=marshal_map wi']> (object_map l)))
      with (JObj (marshalled (<["workloadInfo":=JObj (marshalled wi')]> (object_map l)))). cbn [stampNodeID].
    rewrite object_map_marshalled, lookup_insert_eq, object_map_marshalled. by rewrite (setNodeID_settled _ _ _ _ Hid Es).
  - destruct (setNodeIDIfEmpty (object_map l) "originatedFrom" nodeID) as [e|] eqn:Es; [| cbn [stampNodeID]; by rewrite Ewi, Es].
    change (marshal_map e) with (JObj (marshalled e)). cbn [stampNodeID]. rewrite object_map_marshalled.
    assert (e !! "workloadInfo" = None) as ->; [| by rewrite (setNodeID_settled _ _ _ _ Hid Es)].
    assert (e = <["originatedFrom" := JStr nodeID]> (object_map l)) as -> by (unfold setNodeIDIfEmpty in Es; repeat case_match; congruence).
    by rewrite lookup_insert_ne.
Qed.

(** * Witnesses *)

Ltac eval_list H :=
  match type of H with ?x ∈ ?l => let l' := eval vm_compute in l in change (x ∈ l') in H end.

Definition ex_at (n : Z) : instants := mkInstants (WorkloadStore.mkReading n n) n n.
Definition ex_info (origin state : string) (tokens : Z) : json :=
  JObj [("id", JStr "7"); ("engine", JStr "ollama"); ("runId", JStr "r"); ("model", JStr "m"); ("state", JStr state);
        ("originatedFrom", JStr origin); ("scheduledOn", JStr "peer"); ("createdAt", JInt 100); ("decodeTokens", JInt tokens)].
Definition ex_params (origin state : string) (tokens : Z) : json := JObj [("workloadInfo", ex_info origin state tokens)].

Definition ex_empty : Broker :=
  mkBroker "self" None ∅ WorkloadStore.New (NodeMetrics.NewStore nodeMetricsWindow) (LiveProgress.newLiveProgressIndex LiveProgress.liveProgressCapacity)
    false true true false false true true [].

(** The local proxy's job starts, its node is declared lost, and it completes; the mesh
    echoes the completion. *)
Definition ex_events : list wevent :=
  [WProxy "workload:started" (ex_params "" "running" 0) (ex_at 110);
   WNodeLost "peer" "Peer" (WorkloadStore.mkReading 120 120) (fun _ => ex_at 120);
   WProxy "workload:completed" (ex_params "" "completed" 42) (ex_at 130);
   WManager "workloads:upsert" (ex_params "self" "completed" 42) None (ex_at 140)].

Definition ex_run (evs : list wevent) : Broker := default ex_empty (@run ascending_range ex_empty evs).
Definition ex_running : Broker := ex_run [WProxy "workload:started" (ex_params "" "running" 0) (ex_at 110)].

Lemma well_named_bool info :
  match info with
  | JObj l => bool_decide (NoDup (fold_case <$> l.*1)) &&
      forallb (fun k => forallb (fun n => implb (EqualFold_ascii k n) (bool_decide (k = n))) marked_names) l.*1
  | _ => false
  end = true -> well_named info.
Proof.
  destruct info as [| | | | | | l]; try done. intros [Hd Hw]%andb_true_iff. exists l. unbool. split; [done |]. split; [done |].
  intros k n Hk Hn Hf. rewrite forallb_forall in Hw. specialize (Hw k (proj1 (list_elem_of_In _ _) Hk)).
  rewrite forallb_forall in Hw. specialize (Hw n (proj1 (list_elem_of_In _ _) Hn)). rewrite Hf in Hw. cbn in Hw. by unbool.
Qed.

Lemma counted_exactly_once_witness :
  exists log, b_metrics (ex_run ex_events) = NodeMetrics.run nodeMetricsWindow (omap counted log) /\ NoDup (ident <$> log.*1) /\
    length (omap (report "self") ex_events) = 3%nat.
Proof.
  destruct (@counted_exactly_once ascending_range nodeMetricsWindow ex_empty (ex_run ex_events) ex_events) as (log & H1 & H2 & _).
  - reflexivity.
  - reflexivity.
  - vm_compute; reflexivity.
  - repeat constructor; vm_compute; congruence.
  - split.
    + intros i j Hi Hj. eval_list Hi. eval_list Hj. rewrite !elem_of_cons, elem_of_nil in Hi, Hj.
      destruct Hi as [-> | [-> | [-> | []]]], Hj as [-> | [-> | [-> | []]]]; intros; reflexivity.
    + intros i Hi. eval_list Hi. rewrite !elem_of_cons, elem_of_nil in Hi.
      destruct Hi as [-> | [-> | [-> | []]]]; apply well_named_bool; vm_compute; reflexivity.
  - exists log. split; [exact H1 |]. split; [exact H2 | vm_compute; reflexivity].
Defined.

Lemma ex_running_key k r :
  WorkloadStore.s_records (b_workloads ex_running) !! k = Some r ->
  WorkloadHistory.faithful k r /\ well_named (WorkloadStore.r_Info r).
Proof.
  intros Hr. assert ((k, r) ∈ map_to_list (WorkloadStore.s_records (b_workloads ex_running))) as Hin by (by apply elem_of_map_to_list).
  eval_list Hin. apply list_elem_of_singleton in Hin. injection Hin as -> ->. split.
  - eexists. split; [vm_compute; reflexivity |]. split; vm_compute; reflexivity.
  - apply well_named_bool. vm_compute. reflexivity.
Qed.

Lemma node_loss_witness :
  @WorkloadStore.HasActive ascending_range (b_workloads ex_running) = true /\
  @WorkloadStore.ActiveForNode ascending_range
    (b_workloads (@failWorkloadsForNode ascending_range ex_running "peer" "" (WorkloadStore.mkReading 120 120) (fun _ => ex_at 120))) "peer" = [].
Proof.
  split; [vm_compute; reflexivity |].
  refine (proj1 (@node_loss ascending_range ex_running "peer" "" (WorkloadStore.mkReading 120 120) (fun _ => ex_at 120) _ _ _ _)).
  - intros k r Hr. apply (ex_running_key k r Hr).
  - intros k r Hr. apply (ex_running_key k r Hr).
  - vm_compute. split; congruence.
  - discriminate.
Defined.

Lemma stamp_settles_witness :
  "self" <> "" /\
  match stampNodeID (ex_params "" "running" 0) "self" with
  | Some stamped => stampNodeID stamped "self" = Some stamped
  | None => ex_params "" "running" 0 = JNull \/ exists l, ex_params "" "running" 0 = JObj l /\ object_map l !! "workloadInfo" = Some JNull
  end.
Proof. split; [discriminate | exact (stamp_settles (ex_params "" "running" 0) "self" ltac:(discriminate))]. Defined.
