(* ===== verification/SchedulerFeed.v ===== *)
(** The scheduler's feed: the broker's workload notifications (nvpair-ui-broker,
    BrokerWorkloads.v) as the job scheduler decodes and applies them
    (nvpair-job-scheduler/state.go, Scheduler.v) - the replay that seeds a new scheduler
    and the live notifications after it. *)
From S2P Require Import Prelude.
From S2P Require Import GoStd.
From S2P Require Import Json.
From S2P Require Import Scheduler.
From S2P Require WorkloadStore.
From S2P Require WorkloadHistory.
From S2P Require NodeMetrics.
From S2P Require LiveProgress.
From S2P Require Import BrokerWorkloads.
Import WorkloadStore (Info, Incoming, Key, ParseIncoming, IsTerminal, keyOf).
#[local] Existing Instances WorkloadStore.Key_eq_dec WorkloadStore.Key_countable.

Open Scope string_scope.
Open Scope list_scope.
Open Scope Z_scope.

(** * Decoding (state.go) *)

(** [workload] as [json.Unmarshal] fills it. *)
Definition unmarshal_workload (w : workload) (v : json) : option workload :=
  let step l (w : workload) :=
    match field dec_string "id" l (w_ID w), field dec_string "engine" l (w_Engine w), field dec_string "runId" l (w_RunID w),
          field dec_string "state" l (w_State w), field dec_string "originatedFrom" l (w_OriginatedFrom w),
          field dec_string "scheduledOn" l (w_ScheduledOn w) with
    | Some id, Some engine, Some runID, Some state, Some origin, Some scheduledOn =>
        Some (mkWorkload id engine runID state origin scheduledOn)
    | _, _, _, _, _, _ => None
    end in
  dec_struct step w v.

Definition workloadParams_of (params : json) : option workload :=
  dec_struct (fun l w => field unmarshal_workload "workloadInfo" l w) zero_workload params.

Definition removeParams_of (params : json) : option (string * string) :=
  dec_struct (fun l (p : string * string) =>
    match field dec_string "workloadId" l p.1, field dec_string "originatedFrom" l p.2 with
    | Some id, Some origin => Some (id, origin) | _, _ => None end) ("", "") params.

(** The [switch] of [handleMessage] on the two workload notifications. *)
Definition message_of (method : string) (params : json) : message :=
  if bool_decide (method = "workloads:upsert") then Upsert (workloadParams_of params)
  else if bool_decide (method = "workloads:remove") then Scheduler.Remove (removeParams_of params)
  else OtherNotification method.

Section Feed.
Context `{!MapRange}.

(** The scheduler handles, in the order sent, what the broker sends it; [now] is its
    clock at each message. *)
Definition feed (m : Manager) (e : effect * Z) : Manager :=
  match e.1 with ToScheduler method params => (handleMessage m (message_of method params) e.2).1 | _ => m end.

(** * Facts: one notification *)

Definition wl_key (k : Key) : wlKey :=
  mkWlKey (WorkloadStore.k_Origin k) (WorkloadStore.k_Engine k) (WorkloadStore.k_RunID k) (WorkloadStore.k_ID k).

(** What the scheduler should hold of a payload of the index: its identity, state and
    placement as the broker parsed them, while it is queued or running. *)
Definition scheduled (i : Incoming) : workload :=
  mkWorkload (WorkloadStore.in_ID i) (WorkloadStore.in_Engine i) (WorkloadStore.in_RunID i) (WorkloadStore.in_State i)
    (WorkloadStore.in_Origin i) (WorkloadStore.in_ScheduledOn i).
Definition pending_of (info : Info) : option workload :=
  i ← ParseIncoming info;
  if bool_decide (WorkloadStore.in_State i = "queued") || bool_decide (WorkloadStore.in_State i = "running")
  then Some (scheduled i) else None.

(** The catalogue is the pending part of what the notifications told. *)
Definition in_step (m : Manager) (c : gmap Key Info) : Prop :=
  forall k, m_catalog m !! wl_key k = c !! k ≫= pending_of.

(** No member name of the parameters is spelled twice. *)
Definition plain (e : effect) : Prop :=
  match e with ToScheduler _ (JObj l) => distinct_names l | _ => True end.

#[export] Instance plain_dec e : Decision (plain e).
Proof. destruct e as [| method [] | | | | |]; cbn; apply _ || by left. Defined.

Lemma wl_key_inj k k' : wl_key k = wl_key k' -> k = k'.
Proof. destruct k, k'. by intros [= -> -> -> ->]. Qed.

(** The scheduler reads the payload as the broker parsed it. *)
Lemma unmarshal_parsed info i :
  ParseIncoming info = Some i -> WorkloadStore.in_ID i <> "" /\ unmarshal_workload zero_workload info = Some (scheduled i).
Proof.
  unfold ParseIncoming. destruct (WorkloadStore.unmarshal_header info) as [h|] eqn:Eh; [| done].
  destruct (_ || _) eqn:E; [done |]. unbool. intros [= <-].
  destruct info as [| | | | | | l]; try done; [by injection Eh as <- |].
  unfold WorkloadStore.unmarshal_header, unmarshal_workload in *. cbn -[field] in *.
  repeat (case_match; [| done]). by injection Eh as <-.
Qed.

Lemma workloadParams_plain l info w :
  distinct_names l -> workloadInfo_of (JObj l) = Some info -> unmarshal_workload zero_workload info = Some w ->
  workloadParams_of (JObj l) = Some w.
Proof.
  unfold workloadInfo_of, workloadParams_of. cbn -[field]. intros Hd Hi Hw.
  destruct (existsb (fun p => EqualFold_ascii p.1 "workloadInfo") l) eqn:E.
  - apply existsb_exists in E as ([k v] & Hin%list_elem_of_In & Hk). cbn in Hk.
    rewrite (field_unique dec_raw _ l k v) in Hi by done. rewrite (field_unique unmarshal_workload _ l k v) by done. cbn in Hi. by injection Hi as ->.
  - rewrite field_absent in Hi; [done |]. intros k v Hin. apply not_true_iff_false. intros Hk.
    apply not_true_iff_false in E. apply E, existsb_exists. exists (k, v). by rewrite <- list_elem_of_In.
Qed.

Lemma handle_catalog m msg now :
  match msg with Upsert _ | Scheduler.Remove _ => True | _ => False end ->
  m_catalog (handleMessage m msg now).1 = m_catalog (applyNotification m msg now).1.
Proof.
  intros Hm. destruct msg; try done; unfold handleMessage; destruct (applyNotification _ _ _) as [m' []]; try done;
    pose proof (recomputeAll_spec m' false now) as Hr; destruct (recomputeAll m' false now); by destruct Hr as ((_ & Hc & _) & _).
Qed.

Lemma message_upsert params : message_of "workloads:upsert" params = Upsert (workloadParams_of params).
Proof. reflexivity. Qed.
Lemma message_remove params : message_of "workloads:remove" params = Scheduler.Remove (removeParams_of params).
Proof. reflexivity. Qed.
Lemma told_upsert c params : told c "workloads:upsert" params =
  match workloadInfo_of params with
  | Some info => match ParseIncoming info with Some i => <[keyOf i := info]> c | None => c end
  | None => c
  end.
Proof. reflexivity. Qed.
Lemma told_remove c params : told c "workloads:remove" params =
  match removal_of params with
  | Some (id, origin) => filter (fun '(k, _) => same_pair origin id k = false) c
  | None => c
  end.
Proof. reflexivity. Qed.

(** One notification keeps the scheduler in step with what it tells. *)
Lemma feed_in_step m c e now :
  well_sent e -> plain e -> in_step m c -> in_step (feed m (e, now)) (scheduler_told c e).
Proof.
  intros Hw Hp Hs. destruct e as [| method params | | | | |]; try exact Hs. unfold feed, scheduler_told. cbn [fst snd].
  destruct Hw as [(-> & info & i & Hi & Hparse) | (-> & [[id origin] Hr])].
  - destruct (unmarshal_parsed info i Hparse) as [Hid Hu]. destruct params as [| | | | | | l]; try done.
    rewrite message_upsert, told_upsert, Hi, Hparse, (workloadParams_plain l info _ Hp Hi Hu). intros k. rewrite handle_catalog by done. cbn [applyNotification].
    unfold applyUpsert. rewrite (bool_decide_eq_false_2 (w_ID (scheduled i) = "")) by done.
    change (key_of (scheduled i)) with (wl_key (keyOf i)). destruct (decide (k = keyOf i)) as [-> | Hne].
    + rewrite lookup_insert_eq. cbn. unfold pending_of. rewrite Hparse. cbn.
      change (bool_decide (WorkloadStore.in_State i = "queued") || _) with (isPending (scheduled i)).
      destruct (isPending (scheduled i)); cbn; [by rewrite lookup_insert_eq | by rewrite lookup_delete_eq].
    + rewrite (lookup_insert_ne c) by done. rewrite <- Hs. assert (wl_key (keyOf i) <> wl_key k) by (by intros ?%wl_key_inj).
      destruct (isPending (scheduled i)); cbn; [by rewrite lookup_insert_ne | by rewrite lookup_delete_ne].
  - assert (removeParams_of params = Some (id, origin)) as Hrm.
    { unfold removal_of in Hr. unfold removeParams_of. destruct (dec_struct _ _ _) as [[id' o']|]; [| done]. by case_bool. }
    rewrite message_remove, told_remove, Hr, Hrm. intros k. rewrite handle_catalog by done. cbn.
    apply option_eq. intros w. rewrite map_lookup_filter_Some, Hs. destruct (c !! k) as [x|] eqn:Ec.
    + destruct (same_pair origin id k) eqn:E.
      * rewrite (proj2 (map_lookup_filter_None _ _ _)); [| right; intros ? _; by rewrite E]. cbn. split; [| done].
        intros [_ Hm]. unfold same_pair in E. unfold removal_matches in Hm. cbn in Hm. by rewrite E in Hm.
      * rewrite (proj2 (map_lookup_filter_Some _ _ _ x)) by done. cbn. split; [by intros [? _] |]. intros ?. split; [done | exact E].
    + rewrite (proj2 (map_lookup_filter_None _ _ _)) by (by left). cbn. by split; [intros [? _] |].
Qed.

Lemma feed_all m c es :
  Forall well_sent es.*1 -> Forall plain es.*1 -> in_step m c -> in_step (foldl feed m es) (foldl scheduler_told c es.*1).
Proof.
  revert m c. induction es as [|[e now] es IH]; intros m c Hw Hp Hs; [exact Hs |]. cbn in *.
  apply Forall_cons in Hw as [? ?], Hp as [? ?]. apply IH; [done | done |]. by apply feed_in_step.
Qed.
(** * Facts: the seeds *)

Definition seed (info : Info) : effect := ToScheduler "workloads:upsert" (marshal_map {[ "workloadInfo" := info ]}).

Lemma replay_seeds b :
  b_sent (replayActiveWorkloadsToScheduler b) = b_sent b ++ (seed <$> WorkloadStore.ActiveSnapshot (b_workloads b)).
Proof.
  unfold replayActiveWorkloadsToScheduler. generalize (WorkloadStore.ActiveSnapshot (b_workloads b)). intros l.
  revert b. induction l as [|info l IH]; intros b; cbn; [by rewrite app_nil_r |]. rewrite IH. cbn. by rewrite <- app_assoc.
Qed.

Lemma seed_object info : marshal_map {[ "workloadInfo" := info ]} = JObj [("workloadInfo", info)].
Proof. unfold marshal_map. by rewrite map_to_list_singleton. Qed.

Lemma seed_fine info : is_Some (ParseIncoming info) -> well_sent (seed info) /\ plain (seed info).
Proof.
  intros [i Hi]. unfold seed. rewrite seed_object. split; [| apply NoDup_singleton].
  left. split; [done |]. by exists info, i.
Qed.

Lemma told_seed c info i : ParseIncoming info = Some i -> scheduler_told c (seed info) = <[keyOf i := info]> c.
Proof.
  intros Hi. unfold seed, scheduler_told. rewrite seed_object, told_upsert.
  change (workloadInfo_of _) with (Some info). cbn -[ParseIncoming]. by rewrite Hi.
Qed.

(** Payloads that all say what [c] says of their identity. *)
Lemma told_seeds (v : gmap Key Info) infos c :
  (forall info, info ∈ infos -> exists i, ParseIncoming info = Some i /\ v !! keyOf i = Some info) ->
  (forall k x, c !! k = Some x -> v !! k = Some x) ->
  let c' := foldl scheduler_told c (seed <$> infos) in
  (forall k x, c' !! k = Some x -> v !! k = Some x) /\
  (forall x i, ParseIncoming x = Some i -> v !! keyOf i = Some x -> c !! keyOf i = Some x \/ x ∈ infos -> c' !! keyOf i = Some x).
Proof.
  revert c. induction infos as [|info infos IH]; intros c Hin Hc; cbn [fmap list_fmap foldl].
  { split; [exact Hc |]. intros x i _ _ [? | []%not_elem_of_nil]. done. }
  destruct (Hin info) as (i & Hi & Hv); [left |]. rewrite (told_seed c info i Hi).
  destruct (IH (<[keyOf i := info]> c)) as [H1 H2].
  - intros x Hx. apply Hin. by right.
  - intros k x. rewrite lookup_insert_Some. intros [[<- <-] | [_ ?]]; [done | by apply Hc].
  - split; [exact H1 |]. intros x j Hj Hk Hx. apply H2; [done | done |]. destruct (decide (keyOf j = keyOf i)) as [E | Hne].
    + left. rewrite E in *. rewrite lookup_insert_eq. congruence.
    + rewrite lookup_insert_ne by done. destruct Hx as [Hx | [-> | Hx]%elem_of_cons]; [by left | congruence | by right].
Qed.

(** A scheduler seeded from the index holds its pending workloads. *)
Lemma seeded b interval es :
  WorkloadHistory.all_faithful (b_workloads b) ->
  es.*1 = seed <$> WorkloadStore.ActiveSnapshot (b_workloads b) ->
  in_step (foldl feed (NewManager interval) es) (view (b_workloads b)).
Proof.
  intros Hf He. set (infos := WorkloadStore.ActiveSnapshot (b_workloads b)) in *.
  assert (forall info, info ∈ infos <-> exists k r, WorkloadStore.s_records (b_workloads b) !! k = Some r /\
            WorkloadStore.live r = true /\ WorkloadStore.r_Info r = info) as Hmem.
  { intros info. unfold infos, WorkloadStore.ActiveSnapshot, WorkloadStore.snapshotRecords. rewrite list_elem_of_fmap.
    setoid_rewrite elem_of_sort_by. setoid_rewrite list_elem_of_In. setoid_rewrite filter_In. setoid_rewrite <- list_elem_of_In.
    unfold WorkloadStore.all_records. setoid_rewrite list_elem_of_fmap. split.
    - intros (r & -> & ([k r'] & -> & Hin) & Hl). apply elem_of_range in Hin. by exists k, r'.
    - intros (k & r & Hr & Hl & <-). exists r. split; [done |]. split; [| done]. exists (k, r). split; [done |]. by apply elem_of_range. }
  destruct (told_seeds (view (b_workloads b)) infos ∅) as [H1 H2].
  { intros info (k & r & Hr & _ & <-)%Hmem. destruct (Hf k r Hr) as (i & Hi & <- & _). exists i. split; [done |].
    unfold view. by rewrite lookup_fmap, Hr. }
  { by intros k x ?%lookup_empty_Some. }
  assert (forall e, e ∈ seed <$> infos -> well_sent e /\ plain e) as Hfine.
  { intros e (info & -> & (k & r & Hr & _ & <-)%Hmem)%list_elem_of_fmap. apply seed_fine.
    destruct (Hf k r Hr) as (i & Hi & _). by eexists. }
  pose proof (feed_all (NewManager interval) ∅ es) as Hfeed. rewrite He in Hfeed. intros k. rewrite Hfeed.
  - destruct (view (b_workloads b) !! k) as [x|] eqn:Ev.
    + destruct (foldl _ _ _ !! k) as [y|] eqn:Ec; [apply H1 in Ec; congruence |]. cbn. symmetry.
      unfold view in Ev. rewrite lookup_fmap in Ev. apply fmap_Some in Ev as (r & Hr & ->). destruct (Hf k r Hr) as (i & Hi & Hk & Er).
      unfold pending_of. rewrite Hi. cbn. destruct (WorkloadStore.live r) eqn:El.
      * subst k. rewrite (H2 _ i Hi) in Ec; [done | | right; apply Hmem; eauto]. unfold view. by rewrite lookup_fmap, Hr.
      * rewrite Er in El. unfold WorkloadStore.live, IsTerminal in El. cbn in El. apply negb_false_iff, orb_true_iff in El.
        destruct El as [El | El]; unbool; by rewrite El.
    + destruct (foldl _ _ _ !! k) as [y|] eqn:Ec; [apply H1 in Ec; congruence | done].
  - apply Forall_forall. intros e Hes. by apply Hfine.
  - apply Forall_forall. intros e Hes. by apply Hfine.
  - intros k'. cbn. by rewrite !lookup_empty.
Qed.

Lemma faithful_filed s : WorkloadHistory.all_faithful s -> filed s.
Proof. intros Hf k r Hr. destruct (Hf k r Hr) as (i & _ & <- & ->). done. Qed.

(** C8. The subscribers of the workload events stay in step with the index, through
    relayed and local events, stale and duplicate ones, removals, refused claims and both
    sweeps.  The notifications sent to the client tell every change and nothing else:
    read off in order from the baseline they give the index, payload by payload.  And the
    job scheduler, seeded by the broker's replay of the active workloads and then handling
    the notifications in order, at any clock readings, holds at the end exactly the
    queued and running workloads of the index, each with the identity, state and placement
    the index has for it - provided no notification spells the name of a parameter twice,
    in which case the two programs may read different payloads. *)
Theorem subscribers_follow (b b' : Broker) (evs : list wevent) :
  WorkloadHistory.all_faithful (b_workloads b) -> BrokerWorkloads.run b evs = Some b' ->
  exists seeds out,
    b_sent (replayActiveWorkloadsToScheduler b) = b_sent b ++ seeds /\ b_sent b' = b_sent b ++ out /\
    (b_workloadsSubscribed b = true -> foldl client_told (view (b_workloads b)) out = view (b_workloads b')) /\
    (b_scheduler b = true -> Forall plain out ->
       forall interval es, es.*1 = seeds ++ out ->
       forall k, m_catalog (foldl feed (NewManager interval) es) !! wl_key k = view (b_workloads b') !! k ≫= pending_of).
Proof.
  intros Hf Hr. destruct (run_follows b evs b' Hr) as (_ & _ & _ & _ & _ & _ & out & H1 & Hw & H2 & H3).
  pose proof (faithful_filed _ Hf) as Hfiled.
  exists (seed <$> WorkloadStore.ActiveSnapshot (b_workloads b)), out.
  split; [apply replay_seeds |]. split; [done |]. split; [by apply H2 |]. intros Hs Hp interval es He.
  apply fmap_app_inv in He as (es1 & es2 & He1 & He2 & ->). rewrite foldl_app, <- (H3 Hfiled Hs).
  rewrite He2 in Hw, Hp |- *.
  apply feed_all; [done | done | by apply seeded].
Qed.
End Feed.

(** * A concrete run *)

(** A running job and one already finished; the job ends, another is queued and the
    first is removed. *)
Definition fd_info (id state : string) : json :=
  JObj [("id", JStr id); ("engine", JStr "ollama"); ("runId", JStr "r"); ("state", JStr state);
        ("originatedFrom", JStr "peer"); ("scheduledOn", JStr "self"); ("createdAt", JInt 100)].
Definition fd_event (id state : string) (n : Z) : wevent :=
  WManager "workloads:upsert" (JObj [("workloadInfo", fd_info id state)]) None (ex_at n).
Definition fd_run (b : Broker) (evs : list wevent) : Broker := default b (@BrokerWorkloads.run ascending_range b evs).
Definition fd_start : Broker := fd_run ex_empty [fd_event "1" "running" 110; fd_event "2" "completed" 111; fd_event "3" "queued" 112].
Definition fd_events : list wevent :=
  [fd_event "1" "completed" 120; fd_event "4" "running" 121; fd_event "1" "running" 122;
   WManager "workloads:remove" (JObj [("workloadId", JStr "3"); ("originatedFrom", JStr "peer")]) None (ex_at 123)].
Definition fd_end : Broker := fd_run fd_start fd_events.

Definition notified (b b' : Broker) : list effect := drop (length (b_sent b)) (b_sent b').

(** The scheduler ends with the one job that runs, out of the four it was told of. *)
Lemma subscribers_follow_witness :
  WorkloadHistory.all_faithful (b_workloads fd_start) /\
  size (WorkloadStore.s_records (b_workloads fd_start)) = 3%nat /\
  @BrokerWorkloads.run ascending_range fd_start fd_events = Some fd_end /\
  exists seeds out, length seeds = 2%nat /\
    forall k, m_catalog (foldl (@feed ascending_range) (NewManager second) ((fun e => (e, 5)) <$> seeds ++ out)) !! wl_key k
      = view (b_workloads fd_end) !! k ≫= pending_of.
Proof.
  assert (WorkloadHistory.all_faithful (b_workloads fd_start)) as Hf.
  { intros k r Hr. assert ((k, r) ∈ map_to_list (WorkloadStore.s_records (b_workloads fd_start))) as Hin by (by apply elem_of_map_to_list).
    eval_list Hin. rewrite !elem_of_cons, elem_of_nil in Hin.
    destruct Hin as [[= -> ->] | [[= -> ->] | [[= -> ->] | []]]]; eexists; (split; [vm_compute; reflexivity |]); split; vm_compute; reflexivity. }
  assert (@BrokerWorkloads.run ascending_range fd_start fd_events = Some fd_end) as Hr by (vm_compute; reflexivity).
  split; [exact Hf |]. split; [vm_compute; reflexivity |]. split; [exact Hr |].
  destruct (@subscribers_follow ascending_range _ _ _ Hf Hr) as (seeds & out & Hseeds & Hout & _ & Hcat).
  exists seeds, out.
  assert (seeds = notified fd_start (@replayActiveWorkloadsToScheduler ascending_range fd_start)) as Es
    by (unfold notified; by rewrite Hseeds, drop_app_length).
  assert (out = notified fd_start fd_end) as Eo by (unfold notified; by rewrite Hout, drop_app_length).
  split; [rewrite Es; vm_compute; reflexivity |]. apply Hcat.
  - vm_compute. reflexivity.
  - rewrite Eo. apply (proj1 (bool_decide_eq_true _)). vm_compute. reflexivity.
  - rewrite <- list_fmap_compose. apply list_fmap_id.
Defined.
