(* ===== verification/Broadcast.v ===== *)
(** The workload manager's peers (services/nvpair-workload-manager: relaysource.go,
    peers.go, broadcast.go): the peer set projected from the discovery relay's
    snapshots, the broadcast targets derived from it, and the bounded delivery of one
    frame to one target. *)
From S2P Require Import Prelude.
From S2P Require Import GoStd.
From S2P Require Import Noderec.
From S2P Require Netpick.

Open Scope string_scope.
Open Scope list_scope.
Open Scope Z_scope.

(** * Peers *)

Record PeerNode : Type := mkPeerNode {
  pn_ID : string;
  pn_Host : string;
  pn_Addresses : list string;
  pn_Port : Z;
  pn_TXT : list string
}.

(** [PeerNode.addresses] *)
Definition peer_addresses (n : PeerNode) : list string :=
  match Netpick.Candidates (pn_TXT n) (pn_Addresses n) with
  | [] => if bool_decide (pn_Host n = "") then [] else [pn_Host n]
  | hosts => hosts
  end.

Definition ClusterUUIDTXTKey : string := "cluster-uuid".

Fixpoint ClusterUUIDFromTXT (txt : list string) : string :=
  match txt with
  | [] => ""
  | kv :: txt => match cut_prefix (ClusterUUIDTXTKey +:+ "=") kv with Some v => TrimSpace v | None => ClusterUUIDFromTXT txt end
  end.

Record peerEntry : Type := mkPeerEntry { pe_candidates : list string; pe_uuid : string }.
Record target : Type := mkTarget { tg_id : string; tg_candidates : list string; tg_uuid : string }.

(** * The relay source (relaysource.go) *)

Record relayPeerSource : Type := mkRelay { rs_selfUUID : string; rs_peers : gmap string PeerNode }.

Definition newRelayPeerSource (selfUUID : string) : relayPeerSource := mkRelay selfUUID ∅.

Definition isSelf (r : relayPeerSource) (n : DirectoryNode) : bool := bool_decide (dn_HostUUID n = rs_selfUUID r).

Definition directoryToPeerNode (n : DirectoryNode) : option PeerNode :=
  match dn_Services n !! ServiceWorkload with
  | None => None
  | Some svc =>
      match CandidateIPs n with
      | [] => None
      | addresses =>
          let txt := AddressTXT n ++ (if bool_decide (dn_ClusterUUID n = "") then []
                                      else [ClusterUUIDTXTKey +:+ "=" +:+ dn_ClusterUUID n]) in
          Some (mkPeerNode (dn_HostUUID n) (dn_Name n) addresses (ss_Port svc) txt)
      end
  end.

(** [set] *)
Definition relay_set (r : relayPeerSource) (nodes : list DirectoryNode) : relayPeerSource :=
  mkRelay (rs_selfUUID r)
    (foldl (fun m node => if isSelf r node then m
                          else match directoryToPeerNode node with
                               | None => m
                               | Some pn => <[dn_HostUUID node := pn]> m
                               end) ∅ nodes).

(** * The target set (peers.go) *)

Record peerSet : Type := mkPeerSet { ps_defaultPort : Z; ps_peers : gmap string peerEntry }.

Definition newPeerSet (defaultPort : Z) : peerSet := mkPeerSet defaultPort ∅.

(** One iteration of the loop of [Replace]. *)
Definition add_peer (defaultPort : Z) (next : gmap string peerEntry) (n : PeerNode) : gmap string peerEntry :=
  match peer_addresses n with
  | [] => next
  | a :: rest =>
      let port := if pn_Port n =? 0 then defaultPort else pn_Port n in
      let id := if bool_decide (pn_ID n = "") then a else pn_ID n in
      <[id := mkPeerEntry ((fun a => JoinHostPort a (Itoa port)) <$> a :: rest) (ClusterUUIDFromTXT (pn_TXT n))]> next
  end.

Section Peers.
Context `{!MapRange}.

(** [relayPeerSource.Nodes] *)
Definition relay_Nodes (r : relayPeerSource) : list PeerNode := (range (rs_peers r)).*2.

Definition Replace (p : peerSet) (nodes : list PeerNode) : peerSet * (list string * list string) :=
  let next := foldl (add_peer (ps_defaultPort p)) ∅ nodes in
  (mkPeerSet (ps_defaultPort p) next,
   (List.filter (fun id => negb (bool_decide (is_Some (ps_peers p !! id)))) (range next).*1,
    List.filter (fun id => negb (bool_decide (is_Some (next !! id)))) (range (ps_peers p)).*1)).

Definition targets (p : peerSet) : list target :=
  (fun x => mkTarget x.1 (pe_candidates x.2) (pe_uuid x.2)) <$> range (ps_peers p).
End Peers.

Definition count (p : peerSet) : nat := size (ps_peers p).

(** * Delivery (broadcast.go) *)

Definition maxBroadcastAttempts : Z := 3.
Definition retryBaseDelay : Z := 200 * (second / 1000).

(** How one POST ended. *)
Inductive post_result : Type := PostOK | PostStatus (code : Z) | PostTransport.

(** What one attempt meets: cancellation before it, whether the peer is pinned, the
    address the chooser answers, the POST's outcome, cancellation during the wait. *)
Record attempt_env : Type := mkAttempt {
  at_cancelled : bool;
  at_pinned : bool;
  at_hostport : string;
  at_post : post_result;
  at_wait_cancelled : bool
}.

Inductive action : Type :=
| APost (hostport : string) (r : post_result)
| AForget (id : string)
| AWait (delay : Z).

(** The loop of [deliver] with fuel; [None] when it is still running. *)
Fixpoint deliver_loop (fuel : nat) (t : target) (env : Z -> attempt_env) (attempt delay : Z) : option (list action) :=
  match fuel with
  | O => None
  | S fuel =>
      if maxBroadcastAttempts <? attempt then Some []
      else
        let e := env attempt in
        if at_cancelled e then Some []
        else if negb (at_pinned e) then Some []
        else
          let post := APost (at_hostport e) (at_post e) in
          match at_post e with
          | PostOK => Some [post]
          | r =>
              let forget := match r with PostStatus _ => [] | _ => [AForget (tg_id t)] end in
              if attempt =? maxBroadcastAttempts then Some (post :: forget)
              else if at_wait_cancelled e then Some (post :: forget)
              else (fun rest => post :: forget ++ AWait delay :: rest) <$> deliver_loop fuel t env (attempt + 1) (wrap64 (delay * 2))
          end
  end.

Definition deliver_fuel : nat := 3.
Definition deliver (t : target) (env : Z -> attempt_env) : list action :=
  default [] (deliver_loop deliver_fuel t env 1 retryBaseDelay).

(** [Broadcast]: without a membership, or without peers, nothing; otherwise every
    target on its own. *)
Definition Broadcast `{!MapRange} (clustered : bool) (p : peerSet) (env : string -> Z -> attempt_env) : list (target * list action) :=
  if negb clustered then []
  else (fun t => (t, deliver t (env (tg_id t)))) <$> targets p.

(** * Facts: delivery *)

Definition posts (acts : list action) : list (string * post_result) :=
  omap (fun a => match a with APost hp r => Some (hp, r) | _ => None end) acts.
Definition waited (acts : list action) : Z :=
  foldr (fun a n => match a with AWait d => d + n | _ => n end) 0 acts.
Definition forgets (acts : list action) : nat :=
  length (List.filter (fun a => match a with AForget _ => true | _ => false end) acts).
Definition transport_failures (acts : list action) : nat :=
  length (List.filter (fun a => match a with APost _ PostTransport => true | _ => false end) acts).

(** An attempt that may post. *)
Definition allowed (e : attempt_env) : bool := negb (at_cancelled e) && at_pinned e.
Definition delivered (e : attempt_env) : bool := match at_post e with PostOK => true | _ => false end.

Lemma deliver_loop_more fuel t env attempt delay acts :
  deliver_loop fuel t env attempt delay = Some acts -> deliver_loop (S fuel) t env attempt delay = Some acts.
Proof.
  revert attempt delay acts. induction fuel as [|fuel IH]; intros attempt delay acts; [done |].
  remember (S fuel) as fuel1 eqn:Ef. rewrite Ef at 1. cbn [deliver_loop].
  repeat case_match; try done; intros (rest & E & ->)%fmap_Some; by rewrite (IH _ _ _ E).
Qed.

(** The three attempts, written out. *)
Definition verdict (id : string) (e : attempt_env) (last : bool) (delay : Z) (rest : list action) : list action :=
  if negb (allowed e) then []
  else APost (at_hostport e) (at_post e) ::
       match at_post e with
       | PostOK => []
       | r => (match r with PostStatus _ => [] | _ => [AForget id] end) ++
              (if last || at_wait_cancelled e then [] else AWait delay :: rest)
       end.

Definition three_attempts (t : target) (env : Z -> attempt_env) : list action :=
  let id := tg_id t in
  verdict id (env 1) false retryBaseDelay
    (verdict id (env 2) false (2 * retryBaseDelay) (verdict id (env 3) true (4 * retryBaseDelay) [])).

Lemma loop_verdict fuel t env attempt delay rest :
  attempt <= maxBroadcastAttempts ->
  (attempt <> maxBroadcastAttempts -> deliver_loop fuel t env (attempt + 1) (wrap64 (delay * 2)) = Some rest) ->
  deliver_loop (S fuel) t env attempt delay = Some (verdict (tg_id t) (env attempt) (attempt =? maxBroadcastAttempts) delay rest).
Proof.
  intros Ha Hrest. cbn [deliver_loop]. unfold verdict, allowed. rewrite (proj2 (Z.ltb_ge _ _) Ha).
  destruct (at_cancelled (env attempt)); [done |]. destruct (at_pinned (env attempt)); [| done]. cbn [negb andb].
  destruct (at_post (env attempt)); [done | |];
    (destruct (Z.eqb_spec attempt maxBroadcastAttempts); cbn [orb app]; [done |];
     destruct (at_wait_cancelled (env attempt)); [done |]; by rewrite Hrest).
Qed.

Lemma deliver_three t env : deliver_loop deliver_fuel t env 1 retryBaseDelay = Some (three_attempts t env).
Proof.
  apply (loop_verdict 2 t env 1); [done |]. intros _. apply (loop_verdict 1 t env 2 (2 * retryBaseDelay)); [done |].
  intros _. by apply (loop_verdict 0 t env 3 (4 * retryBaseDelay) []).
Qed.

(** What the attempts from [k] on did: [n] posts. *)
Record spent (env : Z -> attempt_env) (k n : Z) (acts : list action) : Prop := {
  sp_range : 0 <= n <= maxBroadcastAttempts + 1 - k;
  sp_posts : posts acts = (fun j => (at_hostport (env j), at_post (env j))) <$> seqZ k n;
  sp_allowed : forall j, k <= j < k + n -> allowed (env j) = true;
  sp_failed : forall j, k <= j < k + n - 1 -> delivered (env j) = false;
  sp_forgets : forgets acts = transport_failures acts;
  sp_stop : n < maxBroadcastAttempts + 1 - k ->
    (0 < n /\ (delivered (env (k + n - 1)) = true \/ at_wait_cancelled (env (k + n - 1)) = true)) \/ allowed (env (k + n)) = false
}.

Lemma posts_app a b : posts (a ++ b) = posts a ++ posts b.
Proof. apply omap_app. Qed.

Lemma spent_nothing env k : k <= maxBroadcastAttempts -> allowed (env k) = false -> spent env k 0 [].
Proof. intros Hk Ha. split; try done; try lia. intros _. right. by rewrite Z.add_0_r. Qed.

Lemma spent_one env k acts :
  k <= maxBroadcastAttempts -> allowed (env k) = true -> posts acts = [(at_hostport (env k), at_post (env k))] ->
  forgets acts = transport_failures acts ->
  (k < maxBroadcastAttempts -> delivered (env k) = true \/ at_wait_cancelled (env k) = true) -> spent env k 1 acts.
Proof.
  intros Hk Ha Hp Hf Hs. split; [lia | by rewrite Hp | | lia | done |].
  - intros j Hj. by replace j with k by lia.
  - intros Hlt. left. replace (k + 1 - 1) with k by lia. split; [lia | apply Hs; lia].
Qed.

Lemma verdict_spent env k n id delay rest :
  k <= maxBroadcastAttempts -> (k < maxBroadcastAttempts -> spent env (k + 1) n rest) ->
  exists n', spent env k n' (verdict id (env k) (k =? maxBroadcastAttempts) delay rest).
Proof.
  intros Hk Hrest. unfold verdict. destruct (allowed (env k)) eqn:Ha; cbn [negb]; [| exists 0; by apply spent_nothing].
  destruct (at_post (env k)) eqn:Ep; [exists 1; apply spent_one; try done; [by rewrite Ep | left; unfold delivered; by rewrite Ep] | |];
    (destruct (Z.eqb_spec k maxBroadcastAttempts) as [-> | Hne]; cbn [orb];
     [exists 1; apply spent_one; try done; by rewrite Ep |];
     destruct (at_wait_cancelled (env k)) eqn:Ew;
     [exists 1; apply spent_one; try done; [by rewrite Ep | by right] |]);
    (exists (n + 1); destruct (Hrest ltac:(lia)) as [Hr Hp Hal Hfa Hfo Hst]; split;
     [lia | | | | unfold forgets, transport_failures in *; cbn; by rewrite Hfo |]).
  all: try (intros j Hj; destruct (decide (j = k)) as [-> | ?]; [done | apply Hal; lia]).
  all: try (intros j Hj; destruct (decide (j = k)) as [-> | ?]; [unfold delivered; by rewrite Ep | apply Hfa; lia]).
  all: try (intros Hlt; replace (k + (n + 1) - 1) with (k + 1 + n - 1) by lia; replace (k + (n + 1)) with (k + 1 + n) by lia;
    destruct Hst as [[? ?] | ?]; [lia | left; split; [lia | done] | by right]).
  all: rewrite Z.add_1_r, seqZ_cons by lia; rewrite Z.pred_succ; cbn; rewrite Ep; f_equal; rewrite <- Z.add_1_r; by rewrite <- Hp.
Qed.

Lemma verdict_waited id e last delay rest :
  0 <= delay -> 0 <= waited rest -> 0 <= waited (verdict id e last delay rest) <= (if last then 0 else delay + waited rest).
Proof.
  intros Hd Hr. unfold verdict. destruct (negb (allowed e)); [destruct last; cbn; lia |].
  destruct (at_post e); [destruct last; cbn; lia | |];
    (destruct last; [cbn; lia |]; cbn [orb]; destruct (at_wait_cancelled e); cbn -[waited]; unfold waited in *; cbn; lia).
Qed.

(** Delivery always ends, within its budget.  Whatever the peer, the pins and the
    chooser do, the retry loop finishes; it posts at most three times, only in an
    attempt that is neither cancelled nor unpinned, to the address of that attempt and
    never again after a success; it waits at most 600 ms in all; it forgets the
    address once per transport failure and never for an HTTP answer; and it gives up
    early only when cancelled, unpinned or delivered. *)
Theorem delivery_ends (t : target) (env : Z -> attempt_env) (fuel : nat) :
  (deliver_fuel <= fuel)%nat ->
  deliver_loop fuel t env 1 retryBaseDelay = Some (deliver t env) /\ waited (deliver t env) <= 3 * retryBaseDelay /\
  exists n, spent env 1 n (deliver t env).
Proof.
  intros Hfuel. assert (deliver t env = three_attempts t env) as -> by (unfold deliver; by rewrite deliver_three). split.
  { induction Hfuel as [|fuel _ IH]; [apply deliver_three | by apply deliver_loop_more]. }
  unfold three_attempts. split.
  - set (r3 := verdict _ (env 3) _ _ _). set (r2 := verdict _ (env 2) _ _ _).
    pose proof (verdict_waited (tg_id t) (env 3) true (4 * retryBaseDelay) [] ltac:(done) ltac:(done)) as H3. fold r3 in H3.
    pose proof (verdict_waited (tg_id t) (env 2) false (2 * retryBaseDelay) r3 ltac:(done) ltac:(lia)) as H2. fold r2 in H2.
    pose proof (verdict_waited (tg_id t) (env 1) false retryBaseDelay r2 ltac:(done) ltac:(lia)) as H1. lia.
  - destruct (verdict_spent env 3 0 (tg_id t) (4 * retryBaseDelay) []) as [n3 H3]; [done | done |].
    destruct (verdict_spent env 2 n3 (tg_id t) (2 * retryBaseDelay) _ ltac:(done) (fun _ => H3)) as [n2 H2].
    exact (verdict_spent env 1 n2 (tg_id t) retryBaseDelay _ ltac:(done) (fun _ => H2)).
Qed.

(** * Facts: the target set *)

Lemma cluster_uuid_txt n extra :
  ClusterUUIDFromTXT (AddressTXT n ++ extra) = ClusterUUIDFromTXT extra.
Proof. unfold AddressTXT. destruct (CandidateIPs n) as [|ip [|ip' rest]]; done. Qed.

Lemma cut_prefix_self p s : cut_prefix p (p +:+ s) = Some s.
Proof. induction p as [|c p IH]; [done |]. change (String c p +:+ s) with (String c (p +:+ s)). unfold cut_prefix. fold cut_prefix. by rewrite bool_decide_true. Qed.

(** A map built from a list of bindings with distinct keys, some of them skipped. *)
Section Built.
Context {A B : Type} (key : A -> string) (val : A -> option B).

Definition put_some (m : gmap string B) (a : A) : gmap string B :=
  match val a with Some b => <[key a := b]> m | None => m end.

Lemma built_lookup l :
  NoDup (key <$> l) ->
  (forall a, a ∈ l -> foldl put_some ∅ l !! key a = val a) /\ (forall k, k ∉ key <$> l -> foldl put_some ∅ l !! k = None).
Proof.
  induction l as [|a l IH] using rev_ind; intros Hnd; [split; [by intros ? ?%not_elem_of_nil | done] |].
  rewrite fmap_app in Hnd. apply NoDup_app in Hnd as (Hnd & Ha & _). destruct (IH Hnd) as [IH1 IH2].
  assert (key a ∉ key <$> l) as Hal by (intros Hk; apply (Ha (key a) Hk); left).
  rewrite foldl_app. cbn. unfold put_some at 1 3. split.
  - intros x [Hx | ->%list_elem_of_singleton]%elem_of_app.
    + assert (key x <> key a) as Hne by (intros E; apply Hal; rewrite <- E; by apply list_elem_of_fmap_2).
      destruct (val a); [rewrite lookup_insert_ne by done |]; by apply IH1.
    + destruct (val a); [by rewrite lookup_insert_eq | by apply IH2].
  - intros k Hk. rewrite fmap_app, elem_of_app in Hk.
    assert (k <> key a) as Hne by (intros ->; apply Hk; right; left).
    destruct (val a); [rewrite lookup_insert_ne by done |]; apply IH2; tauto.
Qed.
End Built.

(** The destination a directory node gets, if any. *)
Definition destination (defaultPort : Z) (n : DirectoryNode) : option peerEntry :=
  match directoryToPeerNode n with
  | None => None
  | Some pn =>
      match peer_addresses pn with
      | [] => None
      | hosts => Some (mkPeerEntry ((fun a => JoinHostPort a (Itoa (if pn_Port pn =? 0 then defaultPort else pn_Port pn))) <$> hosts)
                         (TrimSpace (dn_ClusterUUID n)))
      end
  end.

Definition entry_of (defaultPort : Z) (n : PeerNode) : option peerEntry :=
  match peer_addresses n with
  | [] => None
  | hosts => Some (mkPeerEntry ((fun a => JoinHostPort a (Itoa (if pn_Port n =? 0 then defaultPort else pn_Port n))) <$> hosts)
                     (ClusterUUIDFromTXT (pn_TXT n)))
  end.

Lemma projected n pn :
  directoryToPeerNode n = Some pn -> pn_ID pn = dn_HostUUID n /\ ClusterUUIDFromTXT (pn_TXT pn) = TrimSpace (dn_ClusterUUID n).
Proof.
  unfold directoryToPeerNode. destruct (_ !! _); [| done]. destruct (CandidateIPs n); [done |]. intros [= <-].
  split; [done |]. cbn [pn_TXT]. rewrite cluster_uuid_txt. case_bool; unbool; [by rewrite Heqb |].
  cbn [ClusterUUIDFromTXT]. 
  change (ClusterUUIDTXTKey +:+ "=" +:+ dn_ClusterUUID n) with ((ClusterUUIDTXTKey +:+ "=") +:+ dn_ClusterUUID n).
  by rewrite cut_prefix_self.
Qed.

Section Targets.
Context `{!MapRange}.

Lemma fold_add_peer port l :
  Forall (fun n => pn_ID n <> "") l -> foldl (add_peer port) ∅ l = foldl (put_some pn_ID (entry_of port)) ∅ l.
Proof.
  intros Hl. induction l as [|n l IH] using rev_ind; [done |]. apply Forall_app in Hl as [Hl [Hn _]%Forall_cons].
  rewrite !foldl_app. cbn. rewrite IH by done. unfold add_peer, put_some, entry_of.
  destruct (peer_addresses n); [done |]. by rewrite (bool_decide_false (pn_ID n = "")).
Qed.

Lemma fold_relay r nodes :
  rs_peers (relay_set r nodes) =
  foldl (put_some dn_HostUUID (fun n => if isSelf r n then None else directoryToPeerNode n)) ∅ nodes.
Proof.
  unfold relay_set. cbn [rs_peers]. generalize (∅ : gmap string PeerNode).
  induction nodes as [|n nodes IH]; intros m; [done |]. cbn. rewrite <- IH. f_equal. unfold put_some.
  destruct (isSelf r n); [done |]. by destruct (directoryToPeerNode n).
Qed.

(** Every serving peer is a target of its own, and this node never is.  After a
    discovery snapshot and a refresh, each directory node that advertises the workload
    service with an address has exactly its own destination - every dialable address
    on its port and its cluster principal, whatever its hostname - no other id has
    one, this node's own id least of all; and the reported additions and removals are
    the exact difference of the two sets. *)
Theorem targets_exact (self : string) (p : peerSet) (nodes : list DirectoryNode) :
  NoDup (dn_HostUUID <$> nodes) -> "" ∉ dn_HostUUID <$> nodes ->
  let '(p', (added, removed)) := Replace p (relay_Nodes (relay_set (newRelayPeerSource self) nodes)) in
  (forall n, n ∈ nodes ->
     ps_peers p' !! dn_HostUUID n = if bool_decide (dn_HostUUID n = self) then None else destination (ps_defaultPort p) n) /\
  (forall id, id ∉ dn_HostUUID <$> nodes -> ps_peers p' !! id = None) /\
  (forall id, id ∈ added <-> is_Some (ps_peers p' !! id) /\ ps_peers p !! id = None) /\
  (forall id, id ∈ removed <-> is_Some (ps_peers p !! id) /\ ps_peers p' !! id = None) /\
  tg_id <$> targets p' ≡ₚ elements (dom (ps_peers p')).
Proof.
  intros Hnd Hne. unfold Replace. set (src := relay_set (newRelayPeerSource self) nodes). cbn [ps_peers].
  set (next := foldl (add_peer (ps_defaultPort p)) ∅ (relay_Nodes src)).
  destruct (built_lookup dn_HostUUID (fun n => if isSelf (newRelayPeerSource self) n then None else directoryToPeerNode n) nodes Hnd)
    as [Hin Hout]. rewrite <- (fold_relay (newRelayPeerSource self) nodes) in Hin, Hout. fold src in Hin, Hout.
  assert (forall id pn, rs_peers src !! id = Some pn -> pn_ID pn = id /\ id ∈ dn_HostUUID <$> nodes) as Hid.
  { intros id pn Hpn. destruct (decide (id ∈ dn_HostUUID <$> nodes)) as [Hi | Hi]; [| by rewrite Hout in Hpn].
    split; [| done]. apply list_elem_of_fmap in Hi as (n & -> & Hn). rewrite Hin in Hpn by done.
    destruct (isSelf _ n); [done |]. by apply projected in Hpn as [? _]. }
  assert (forall pn, pn ∈ relay_Nodes src <-> rs_peers src !! pn_ID pn = Some pn) as Hnodes.
  { intros pn. unfold relay_Nodes. rewrite list_elem_of_fmap. split.
    - intros ([id pn'] & -> & Hr). apply elem_of_range in Hr. cbn [snd]. by destruct (Hid _ _ Hr) as [-> _].
    - intros Hr. exists (pn_ID pn, pn). by rewrite elem_of_range. }
  assert (NoDup (pn_ID <$> relay_Nodes src)) as Hnd'.
  { unfold relay_Nodes. rewrite <- list_fmap_compose. erewrite list_fmap_ext; [apply (NoDup_fst_range (rs_peers src)) |].
    intros i [id pn] Hi. apply list_elem_of_lookup_2, elem_of_range in Hi. cbn. by destruct (Hid _ _ Hi). }
  assert (next = foldl (put_some pn_ID (entry_of (ps_defaultPort p))) ∅ (relay_Nodes src)) as Hnext.
  { apply fold_add_peer, Forall_forall. intros pn Hpn%Hnodes. intros E. destruct (Hid _ _ Hpn) as [_ Hi]. by rewrite E in Hi. }
  destruct (built_lookup pn_ID (entry_of (ps_defaultPort p)) (relay_Nodes src) Hnd') as [Hin' Hout'].
  rewrite <- Hnext in Hin', Hout'.
  assert (forall id, rs_peers src !! id = None -> next !! id = None) as Hnone.
  { intros id Hi. apply Hout'. intros (pn & -> & Hpn%Hnodes)%list_elem_of_fmap. congruence. }
  split_and!.
  - intros n Hn. specialize (Hin n Hn). unfold isSelf in Hin. cbn [rs_selfUUID newRelayPeerSource] in Hin.
    case_bool; [by apply Hnone |]. unfold destination. destruct (directoryToPeerNode n) as [pn|] eqn:E; [| by apply Hnone].
    destruct (projected n pn E) as [Hp Hc]. rewrite <- Hp in Hin |- *. rewrite Hin' by (by apply Hnodes).
    unfold entry_of. by rewrite Hc.
  - intros id Hi. by apply Hnone, Hout.
  - intros id. rewrite elem_of_bfilter, elem_of_fst_range. rewrite negb_true_iff, bool_decide_eq_false.
    by rewrite <- eq_None_not_Some.
  - intros id. rewrite elem_of_bfilter, elem_of_fst_range. rewrite negb_true_iff, bool_decide_eq_false.
    by rewrite <- eq_None_not_Some.
  - unfold targets. rewrite <- list_fmap_compose. cbn [ps_peers].
    change (tg_id ∘ (fun x : string * peerEntry => mkTarget x.1 (pe_candidates x.2) (pe_uuid x.2))) with (@fst string peerEntry).
    apply NoDup_Permutation; [apply NoDup_fst_range | apply NoDup_elements |].
    intros id. by rewrite elem_of_fst_range, elem_of_elements, elem_of_dom.
Qed.
End Targets.

(** * Witnesses *)

Definition ex_node (uuid name : string) : DirectoryNode :=
  bare_node uuid name "192.168.1.7" ["192.168.1.7"] "c1" true "" "verified" {[ "wl" := mkServiceStatus 9100 "ok" ]}.

Lemma targets_exact_witness :
  let '(p', _) := @Replace ascending_range (newPeerSet 9000)
    (@relay_Nodes ascending_range (relay_set (newRelayPeerSource "me") [ex_node "me" "host"; ex_node "peer" "host"])) in
  ps_peers p' !! "me" = None /\ ps_peers p' !! "peer" = Some (mkPeerEntry ["192.168.1.7:9100"] "c1").
Proof.
  pose proof (@targets_exact ascending_range "me" (newPeerSet 9000) [ex_node "me" "host"; ex_node "peer" "host"]
    ltac:(apply (bool_decide_eq_true_1 _); vm_compute; reflexivity) ltac:(cbn; set_solver)) as H.
  destruct (Replace (newPeerSet 9000) _) as [p' [added removed]]. destruct H as (H & _).
  split; [exact (H (ex_node "me" "host") ltac:(left)) | exact (H (ex_node "peer" "host") ltac:(right; left))].
Defined.

(** A peer whose first address is dead and whose second answers. *)
Definition ex_env (k : Z) : attempt_env :=
  mkAttempt false true (if k =? 1 then "10.0.0.9:9100" else "192.168.1.7:9100") (if k =? 1 then PostTransport else PostOK) false.

Lemma delivery_ends_witness :
  exists n, spent ex_env 1 n (deliver (mkTarget "peer" [] "c1") ex_env) /\
    deliver (mkTarget "peer" [] "c1") ex_env =
      [APost "10.0.0.9:9100" PostTransport; AForget "peer"; AWait 200000000; APost "192.168.1.7:9100" PostOK].
Proof.
  destruct (delivery_ends (mkTarget "peer" [] "c1") ex_env 3 ltac:(unfold deliver_fuel; lia)) as (_ & _ & n & H).
  exists n. split; [exact H | vm_compute; reflexivity].
Defined.
