(* ===== verification/WorkloadManager.v ===== *)
(** The workload manager (services/nvpair-workload-manager: workload.go, manager.go,
    server.go): this node's re-sync set and ordered broadcast queue, the frames it puts
    on the inter-node wire, and the server that validates, deduplicates and relays a
    peer's frames to the local broker. *)
From S2P Require Import Prelude.
From S2P Require Import GoStd.
From S2P Require Import Json.
From S2P Require Import Noderec.
From S2P Require NodeMetrics.
From S2P Require WorkloadStore.
From S2P Require LiveProgress.
From S2P Require BrokerWorkloads.
From S2P Require Import Dedup.
From S2P Require Broadcast.
From Stdlib Require Import SpecFloat.
Import WorkloadStore (Key, mkKey).
#[local] Existing Instances WorkloadStore.Key_eq_dec WorkloadStore.Key_countable.

Open Scope string_scope.
Open Scope list_scope.
Open Scope Z_scope.

(** * The wire (workload.go) *)

Definition StateInitializing : string := "initializing".
Definition StateQueued : string := "queued".
Definition StateRunning : string := "running".
Definition StateCompleted : string := "completed".
Definition StateFailed : string := "failed".

Definition MethodSubmitted : string := "workload:submitted".
Definition MethodStarted : string := "workload:started".
Definition MethodCompleted : string := "workload:completed".
Definition MethodErrored : string := "workload:errored".
Definition MethodRemove : string := "workloads:remove".
Definition MethodUpsert : string := "workloads:upsert".
Definition MethodProgress : string := "workload:progress".
Definition MethodProgressRelay : string := "workloads:progress".

Definition lifecycleMethods : gmap string string :=
  list_to_map [(MethodSubmitted, StateQueued); (MethodStarted, StateRunning);
               (MethodCompleted, StateCompleted); (MethodErrored, StateFailed)].
Definition isLifecycleMethod (method : string) : bool := bool_decide (is_Some (lifecycleMethods !! method)).

Record Workload : Type := mkWorkload {
  w_ID : string;
  w_Model : string;
  w_Engine : string;
  w_RunID : string;
  w_State : string;
  w_OriginatedFrom : string;
  w_ScheduledOn : string;
  w_CreatedAt : Z;
  w_StartedAt : option Z;
  w_CompletedAt : option Z;
  w_Error : option string;
  w_RequesterID : option string;
  w_Measurement : NodeMetrics.Measurement
}.

Definition zero_workload : Workload :=
  mkWorkload "" "" "" "" "" "" "" 0 None None None None BrokerWorkloads.no_measurement.

Definition unmarshal_workload (l : members) (w : Workload) : option Workload :=
  match field dec_string "id" l (w_ID w), field dec_string "model" l (w_Model w), field dec_string "engine" l (w_Engine w),
        field dec_string "runId" l (w_RunID w), field dec_string "state" l (w_State w),
        field dec_string "originatedFrom" l (w_OriginatedFrom w), field dec_string "scheduledOn" l (w_ScheduledOn w),
        field dec_int64 "createdAt" l (w_CreatedAt w), field (dec_ptr dec_int64 0) "startedAt" l (w_StartedAt w),
        field (dec_ptr dec_int64 0) "completedAt" l (w_CompletedAt w), field (dec_ptr dec_string "") "error" l (w_Error w),
        field (dec_ptr dec_string "") "requesterId" l (w_RequesterID w),
        BrokerWorkloads.unmarshal_measurement l (w_Measurement w) with
  | Some id, Some model, Some engine, Some run, Some state, Some origin, Some sched, Some created, Some started,
    Some completed, Some err, Some requester, Some m =>
      Some (mkWorkload id model engine run state origin sched created started completed err requester m)
  | _, _, _, _, _, _, _, _, _, _, _, _, _ => None
  end.

(** [json.Marshal] of a [Workload], the embedded measurement inline. *)
Definition workload_members (w : Workload) : list (string * option json) :=
  let m := w_Measurement w in
  [("id", Some (JStr (w_ID w))); ("model", Some (JStr (w_Model w))); ("engine", Some (JStr (w_Engine w)));
   ("runId", opt_string (w_RunID w)); ("state", Some (JStr (w_State w)));
   ("originatedFrom", Some (JStr (w_OriginatedFrom w))); ("scheduledOn", opt_string (w_ScheduledOn w));
   ("createdAt", Some (JInt (w_CreatedAt w))); ("startedAt", Some (ptr (JInt <$> w_StartedAt w)));
   ("completedAt", Some (ptr (JInt <$> w_CompletedAt w))); ("error", Some (ptr (JStr <$> w_Error w)));
   ("requesterId", Some (ptr (JStr <$> w_RequesterID w)));
   ("prefillTokens", JInt <$> NodeMetrics.m_PrefillTokens m); ("decodeTokens", JInt <$> NodeMetrics.m_DecodeTokens m);
   ("cachedTokens", JInt <$> NodeMetrics.m_CachedTokens m); ("prefillMs", JInt <$> NodeMetrics.m_PrefillMs m);
   ("decodeMs", JInt <$> NodeMetrics.m_DecodeMs m); ("ttftMs", JInt <$> NodeMetrics.m_TtftMs m);
   ("totalMs", JInt <$> NodeMetrics.m_TotalMs m)].
Definition marshal_workload (w : Workload) : json := JObj (encode (workload_members w)).

(** [lifecycleParams] and [removeParams] on the way out. *)
Definition lifecycle_params (w : Workload) : json := JObj [("workloadInfo", marshal_workload w)].
Definition remove_params (workloadID nodeID : string) : json :=
  JObj (encode [("workloadId", Some (JStr workloadID)); ("originatedFrom", opt_string nodeID)]).

Inductive parse_error : Type := EInvalidParams | EMissing (field : string) | ERequired (field : string).

Definition parseLifecycle (params : json) : Workload + parse_error :=
  match dec_struct (fun l a => field (dec_ptr (dec_struct unmarshal_workload) zero_workload) "workloadInfo" l a) None params with
  | None => inr EInvalidParams
  | Some None => inr (EMissing "params.workloadInfo")
  | Some (Some w) =>
      if bool_decide (w_ID w = "") then inr (ERequired "id")
      else if bool_decide (w_Model w = "") then inr (ERequired "model")
      else if bool_decide (w_Engine w = "") then inr (ERequired "engine")
      else if bool_decide (w_State w = "") then inr (ERequired "state")
      else if bool_decide (w_OriginatedFrom w = "") then inr (ERequired "originatedFrom")
      else inl w
  end.

Definition parseRemove (params : json) : (string * string) + parse_error :=
  match dec_struct (fun l (a : string * string) =>
          match field dec_string "workloadId" l a.1, field dec_string "originatedFrom" l a.2 with
          | Some id, Some origin => Some (id, origin) | _, _ => None end) ("", "") params with
  | None => inr EInvalidParams
  | Some (id, origin) => if bool_decide (id = "") then inr (EMissing "params.workloadId") else inl (id, origin)
  end.

(** ** Progress frames; [ParseFloat] converts the text of a literal that is no integer. *)

Section Frames.
Context (ParseFloat : string -> option spec_float).

Definition dec_float64 (a : spec_float) (v : json) : option spec_float :=
  match v with
  | JNull => Some a
  | JInt z => match F64.of_Z z with S754_infinity _ => None | x => Some x end
  | JNum lit => ParseFloat lit
  | _ => None
  end.

Definition unmarshal_engine_progress (l : members) (e : LiveProgress.EngineProgress) : option LiveProgress.EngineProgress :=
  match field dec_string "requestId" l (LiveProgress.ep_RequestID e), field dec_string "phase" l (LiveProgress.ep_Phase e),
        field (dec_ptr dec_int64 0) "generatedTokens" l (LiveProgress.ep_GeneratedTokens e),
        field (dec_ptr dec_float64 (F64.of_Z 0)) "tokensPerSecond" l (LiveProgress.ep_TokensPerSecond e),
        field (dec_ptr dec_float64 (F64.of_Z 0)) "prefillProgress" l (LiveProgress.ep_PrefillProgress e),
        field (dec_ptr dec_int64 0) "queuePosition" l (LiveProgress.ep_QueuePosition e) with
  | Some id, Some phase, Some gen, Some tps, Some pre, Some pos => Some (LiveProgress.mkEngineProgress id phase gen tps pre pos)
  | _, _, _, _, _, _ => None
  end.

Definition unmarshal_frame (l : members) (f : LiveProgress.ProgressFrame) : option LiveProgress.ProgressFrame :=
  match field dec_string "jobId" l (LiveProgress.pf_JobID f), field dec_string "nodeId" l (LiveProgress.pf_NodeID f),
        field dec_string "originatedFrom" l (LiveProgress.pf_OriginatedFrom f),
        field dec_string "engine" l (LiveProgress.pf_Engine f), field dec_string "runId" l (LiveProgress.pf_RunID f),
        field (dec_ptr dec_int64 0) "elapsedMs" l (LiveProgress.pf_ElapsedMs f),
        field (dec_ptr dec_int64 0) "chunks" l (LiveProgress.pf_Chunks f),
        field (dec_ptr dec_int64 0) "bytes" l (LiveProgress.pf_Bytes f),
        field (dec_ptr dec_int64 0) "ttfbMs" l (LiveProgress.pf_TTFBMs f),
        field (dec_ptr (dec_struct unmarshal_engine_progress) (LiveProgress.mkEngineProgress "" "" None None None None))
          "engineProgress" l (LiveProgress.pf_EngineProgress f) with
  | Some job, Some node, Some origin, Some engine, Some run, Some elapsed, Some chunks, Some bytes, Some ttfb, Some ep =>
      Some (LiveProgress.mkFrame job node origin engine run elapsed chunks bytes ttfb ep)
  | _, _, _, _, _, _, _, _, _, _ => None
  end.

Definition parseProgress (params : json) : LiveProgress.ProgressFrame + parse_error :=
  match dec_struct unmarshal_frame (LiveProgress.mkFrame "" "" "" "" "" None None None None None) params with
  | None => inr EInvalidParams
  | Some f => if bool_decide (LiveProgress.pf_JobID f = "") then inr (EMissing "params.jobId") else inl f
  end.
End Frames.

Definition isResyncFrame (params : json) : bool :=
  match dec_struct (fun l a => field dec_bool "resync" l a) false params with Some b => b | None => false end.

(** * The manager (manager.go) *)

Definition resyncInterval : Z := 30 * second.
Definition terminalRetention : Z := 2 * resyncInterval.
Definition broadcastQueueDepth : nat := 1024.

Definition workloadKey : Type := Key.

Record workloadEvent : Type := mkEvent {
  we_method : string;
  we_params : json;
  we_terminal : bool;
  we_expiresAt : option Z
}.

(** A JSON-RPC frame; an absent member is [None]. *)
Record Message : Type := mkMessage {
  msg_JSONRPC : string;
  msg_ID : option json;
  msg_Method : string;
  msg_Params : option json
}.

Definition IsRequest (m : Message) : bool := bool_decide (msg_ID m <> None) && negb (bool_decide (msg_Method m = "")).
Definition IsResponse (m : Message) : bool := bool_decide (msg_ID m <> None) && bool_decide (msg_Method m = "").

(** A frame of the broadcast queue, before it is marshalled. *)
Record frame : Type := mkFrame { fr_method : string; fr_params : json }.

Inductive reply : Type := Respond (id : option json) (result : json) | RespondError (id : option json) (code : Z).

(** [m_sent] is the history of the broadcast worker: the frames it has taken. *)
Record Manager : Type := mkManager {
  m_active : gmap workloadKey workloadEvent;
  m_queue : list frame;
  m_sent : list frame;
  m_relay : Broadcast.relayPeerSource;
  m_peers : Broadcast.peerSet;
  m_level : string;
  m_replies : list reply;
  m_stopped : bool
}.

Definition NewManager (port : Z) (selfUUID : string) : Manager :=
  mkManager ∅ [] [] (Broadcast.newRelayPeerSource selfUUID) (Broadcast.newPeerSet port) "info" [] false.

Definition with_active (m : Manager) (a : gmap workloadKey workloadEvent) : Manager :=
  mkManager a (m_queue m) (m_sent m) (m_relay m) (m_peers m) (m_level m) (m_replies m) (m_stopped m).
Definition with_queue (m : Manager) (q sent : list frame) : Manager :=
  mkManager (m_active m) q sent (m_relay m) (m_peers m) (m_level m) (m_replies m) (m_stopped m).
Definition with_peers (m : Manager) (r : Broadcast.relayPeerSource) (p : Broadcast.peerSet) : Manager :=
  mkManager (m_active m) (m_queue m) (m_sent m) r p (m_level m) (m_replies m) (m_stopped m).
Definition answer (m : Manager) (r : reply) : Manager :=
  mkManager (m_active m) (m_queue m) (m_sent m) (m_relay m) (m_peers m) (m_level m) (m_replies m ++ [r]) (m_stopped m).
Definition set_level (m : Manager) (level : string) : Manager :=
  mkManager (m_active m) (m_queue m) (m_sent m) (m_relay m) (m_peers m) level (m_replies m) (m_stopped m).
Definition stop (m : Manager) : Manager :=
  mkManager (m_active m) (m_queue m) (m_sent m) (m_relay m) (m_peers m) (m_level m) (m_replies m) true.

(** [trackActive]: a terminal that is held is not replaced by a non-terminal event. *)
Definition trackActive (m : Manager) (key : workloadKey) (method : string) (params : json) (state : string) (now : Z) : Manager :=
  let terminal := bool_decide (state = StateCompleted) || bool_decide (state = StateFailed) in
  let stale := match m_active m !! key with Some cur => we_terminal cur && negb terminal | None => false end in
  if stale then m
  else if terminal then with_active m (<[key := mkEvent method params true (Some (now + terminalRetention))]> (m_active m))
  else with_active m (<[key := mkEvent method params false None]> (m_active m)).

Definition untrackActive (m : Manager) (origin id : string) : Manager :=
  with_active m (filter (fun '(k, _) => negb (bool_decide (WorkloadStore.k_Origin k = origin) &&
                                              bool_decide (WorkloadStore.k_ID k = id)) = true) (m_active m)).

(** [broadcastFrame]: a full queue drops the frame. *)
Definition broadcastFrame (m : Manager) (method : string) (params : json) : Manager :=
  if Nat.ltb (length (m_queue m)) broadcastQueueDepth
  then with_queue m (m_queue m ++ [mkFrame method params]) (m_sent m)
  else m.

(** The parameters of a re-assertion.  [null] would unmarshal into a nil map: [None]. *)
Definition resync_params (params : json) : option json :=
  match params with
  | JObj l => Some (marshal_map (<["resync" := JBool true]> (object_map l)))
  | JNull => None
  | _ => Some params
  end.

Definition broadcastResync (m : Manager) (method : string) (params : json) : option Manager :=
  match resync_params params with Some reframed => Some (broadcastFrame m method reframed) | None => None end.

Definition expired (now : Z) (ev : workloadEvent) : bool :=
  we_terminal ev && match we_expiresAt ev with Some t => t <? now | None => false end.

Section Manager.
Context `{!MapRange} (ParseFloat : string -> option spec_float) (decode_nodes : json -> option (list DirectoryNode)).

(** [activeSnapshot]: the expired terminals go, the rest is returned in iteration order. *)
Definition activeSnapshot (m : Manager) (now : Z) : Manager * list workloadEvent :=
  (with_active m (filter (fun '(_, ev) => expired now ev = false) (m_active m)),
   List.filter (fun ev => negb (expired now ev)) (range (m_active m)).*2).

Definition broadcastSnapshot (m : Manager) (now : Z) : option Manager :=
  let '(m, snapshot) := activeSnapshot m now in
  foldl (fun acc ev => match acc with Some m => broadcastResync m (we_method ev) (we_params ev) | None => None end)
    (Some m) snapshot.

(** A parser applied to parameters that may be absent. *)
Definition parse_with {A} (parse : json -> A + parse_error) (params : option json) : A + parse_error :=
  match params with Some v => parse v | None => inr EInvalidParams end.

Definition key_of (w : Workload) : workloadKey := mkKey (w_OriginatedFrom w) (w_Engine w) (w_RunID w) (w_ID w).

Definition handleLocalLifecycle (m : Manager) (msg : Message) (now : Z) : Manager :=
  match msg_Params msg with
  | None => m
  | Some params =>
      match parseLifecycle params with
      | inr _ => m
      | inl wl => broadcastFrame (trackActive m (key_of wl) (msg_Method msg) params (w_State wl) now) (msg_Method msg) params
      end
  end.

Definition handleLocalProgress (m : Manager) (msg : Message) : Manager :=
  match msg_Params msg with
  | None => m
  | Some params =>
      match parseProgress ParseFloat params with inr _ => m | inl _ => broadcastFrame m (msg_Method msg) params end
  end.

Definition handleLocalRemove (m : Manager) (msg : Message) : Manager :=
  match msg_Params msg with
  | None => m
  | Some params =>
      match parseRemove params with
      | inr _ => m
      | inl (workloadID, nodeID) => broadcastFrame (untrackActive m nodeID workloadID) (msg_Method msg) params
      end
  end.

Definition applyDiscovery (m : Manager) (msg : Message) : Manager :=
  match msg_Params msg ≫= decode_nodes with
  | None => m
  | Some nodes => with_peers m (Broadcast.relay_set (m_relay m) nodes) (m_peers m)
  end.

(** [applog.HandleSetLevelParams] *)
Definition ParseLevel (s : string) : option string :=
  let s := ToLower (TrimSpace s) in
  if bool_decide (s = "debug") then Some "debug"
  else if bool_decide (s = "") || bool_decide (s = "info") then Some "info"
  else if bool_decide (s = "warn") || bool_decide (s = "warning") then Some "warn"
  else if bool_decide (s = "error") || bool_decide (s = "err") then Some "error"
  else None.

Definition HandleSetLevelParams (params : option json) : option string :=
  match params with
  | None => ParseLevel ""
  | Some v => match dec_struct (fun l a => field dec_string "level" l a) "" v with Some s => ParseLevel s | None => None end
  end.

Definition handleMessage (m : Manager) (msg : Message) (now : Z) : Manager :=
  if IsResponse msg then m
  else if bool_decide (msg_Method msg = "log/set-level") then
    match HandleSetLevelParams (msg_Params msg) with
    | None => if IsRequest msg then answer m (RespondError (msg_ID msg) (-32602)) else m
    | Some level =>
        let m := set_level m level in
        if IsRequest msg then answer m (Respond (msg_ID msg) (JObj [("level", JStr level)])) else m
    end
  else if bool_decide (msg_Method msg = "worker/health") then
    if IsRequest msg then answer m (Respond (msg_ID msg) (JObj [("ok", JBool true)])) else m
  else if bool_decide (msg_Method msg = "discovery:nodes") then applyDiscovery m msg
  else if isLifecycleMethod (msg_Method msg) then handleLocalLifecycle m msg now
  else if bool_decide (msg_Method msg = MethodProgress) then handleLocalProgress m msg
  else if bool_decide (msg_Method msg = MethodRemove) then handleLocalRemove m msg
  else if bool_decide (msg_Method msg = "shutdown") then
    stop (if IsRequest msg then answer m (Respond (msg_ID msg) JNull) else m)
  else if IsRequest msg then answer m (RespondError (msg_ID msg) (-32601)) else m.

(** [refreshPeers]: a new peer is backfilled. *)
Definition refreshPeers (m : Manager) (now : Z) : option Manager :=
  let '(p, (added, removed)) := Broadcast.Replace (m_peers m) (Broadcast.relay_Nodes (m_relay m)) in
  let m := with_peers m (m_relay m) p in
  if bool_decide (added = []) then Some m else broadcastSnapshot m now.

(** [broadcastLoop] takes the next frame. *)
Definition take_frame (m : Manager) : Manager :=
  match m_queue m with [] => m | f :: q => with_queue m q (m_sent m ++ [f]) end.

(** The manager's goroutines: a message of the broker, the heartbeat, the discovery
    tick, a change of membership, the broadcast worker. *)
Inductive mevent : Type :=
| MMessage (msg : Message) (now : Z)
| MHeartbeat (now : Z)
| MDiscovery (now : Z)
| MMembership (now : Z)
| MTake.

Definition mstep (m : Manager) (e : mevent) : option Manager :=
  match e with
  | MMessage msg now => Some (handleMessage m msg now)
  | MHeartbeat now | MMembership now => broadcastSnapshot m now
  | MDiscovery now => refreshPeers m now
  | MTake => Some (take_frame m)
  end.

Fixpoint mrun (m : Manager) (evs : list mevent) : option Manager :=
  match evs with [] => Some m | e :: evs => match mstep m e with Some m => mrun m evs | None => None end end.
End Manager.

(** * The inter-node server (server.go) *)

(** [json.Unmarshal] into a [Message]; the members the server does not read must still
    have their type. *)
Definition unmarshal_message (v : json) : option Message :=
  let rpc_error l (a : Z * string) :=
    match field dec_int64 "code" l a.1, field dec_string "message" l a.2, field dec_raw "data" l None with
    | Some code, Some text, Some _ => Some (code, text) | _, _, _ => None
    end in
  let step l (m : Message) :=
    match field dec_string "jsonrpc" l (msg_JSONRPC m), field (dec_ptr (fun _ v => Some v) JNull) "id" l (msg_ID m),
          field dec_string "method" l (msg_Method m), field dec_raw "params" l (msg_Params m), field dec_raw "result" l None,
          field (dec_ptr (dec_struct rpc_error) (0, "")) "error" l None, field (dec_ptr dec_string "") "epoch" l None,
          field (dec_ptr dec_uint64 0) "seq" l None with
    | Some jsonrpc, Some id, Some method, Some params, Some _, Some _, Some _, Some _ => Some (mkMessage jsonrpc id method params)
    | _, _, _, _, _, _, _, _ => None
    end in
  dec_struct step (mkMessage "" None "" None) v.

(** A POST: whether the caller proved a pinned certificate, the HTTP method, and the body
    up to its limit, [None] when it cannot be read or is no JSON. *)
Record request : Type := mkRequest { rq_pinned : bool; rq_method : string; rq_body : option json }.

Record notification : Type := mkNotification { n_method : string; n_params : json }.

(** The index afterwards, the status (none when the handler panicked) and what was
    written to the broker. *)
Record response : Type := mkResponse { rp_dedup : dedupIndex; rp_status : option Z; rp_emitted : list notification }.

Definition refuse (d : dedupIndex) (status : Z) : response := mkResponse d (Some status) [].

Definition status_of (r : emit_result) : option Z :=
  match r with EmitOK => Some 200 | EmitError => Some 500 | EmitPanic => None end.
Definition written (r : emit_result) (n : notification) : list notification := match r with EmitOK => [n] | _ => [] end.

Definition emitUpsert (w : Workload) : notification := mkNotification MethodUpsert (lifecycle_params w).
Definition emitRemove (workloadID nodeID : string) : notification := mkNotification MethodRemove (remove_params workloadID nodeID).
Definition emitProgress (params : json) : notification := mkNotification MethodProgressRelay params.

(** [emitOnce] run to its end; [None] while another request holds the key. *)
Definition emit_once (d : dedupIndex) (key : string) (n : notification) (r : emit_result) : option response :=
  let '(d, e) := enter d key in
  match e with
  | EDuplicate => Some (mkResponse d (Some 200) [])
  | EWait _ => None
  | EEmit done => Some (mkResponse (leave d key done r) (status_of r) (written r n))
  end.

Section Server.
Context (ParseFloat : string -> option spec_float).

(** [r] is how the write to the broker ends, if there is one. *)
Definition handleLifecycle (d : dedupIndex) (msg : Message) (r : emit_result) : option response :=
  match msg_Params msg with
  | None => Some (refuse d 400)
  | Some params =>
      match parseLifecycle params with
      | inr _ => Some (refuse d 400)
      | inl w =>
          if isResyncFrame params then Some (mkResponse d (status_of r) (written r (emitUpsert w)))
          else emit_once d (keyLifecycle (w_OriginatedFrom w) (w_Engine w) (w_RunID w) (w_ID w) (w_State w)) (emitUpsert w) r
      end
  end.

Definition handleProgress (d : dedupIndex) (msg : Message) (r : emit_result) : response :=
  match msg_Params msg with
  | None => refuse d 400
  | Some params =>
      match parseProgress ParseFloat params with
      | inr _ => refuse d 400
      | inl _ => mkResponse d (status_of r) (written r (emitProgress params))
      end
  end.

Definition handleRemove (d : dedupIndex) (msg : Message) (r : emit_result) : option response :=
  match msg_Params msg with
  | None => Some (refuse d 400)
  | Some params =>
      match parseRemove params with
      | inr _ => Some (refuse d 400)
      | inl (workloadID, nodeID) => emit_once d (keyRemove nodeID workloadID) (emitRemove workloadID nodeID) r
      end
  end.

Definition handleEvents (d : dedupIndex) (rq : request) (r : emit_result) : option response :=
  if negb (rq_pinned rq) then Some (refuse d 403)
  else if negb (bool_decide (rq_method rq = "POST")) then Some (refuse d 405)
  else
    match rq_body rq ≫= unmarshal_message with
    | None => Some (refuse d 400)
    | Some msg =>
        if negb (bool_decide (msg_JSONRPC msg = "2.0")) then Some (refuse d 400)
        else if isLifecycleMethod (msg_Method msg) then handleLifecycle d msg r
        else if bool_decide (msg_Method msg = MethodRemove) then handleRemove d msg r
        else if bool_decide (msg_Method msg = MethodProgress) then Some (handleProgress d msg r)
        else Some (refuse d 400)
    end.
End Server.

(** The POST a frame of the queue becomes. *)
Definition frame_body (f : frame) : json :=
  JObj [("jsonrpc", JStr "2.0"); ("method", JStr (fr_method f)); ("params", fr_params f)].
Definition post_of (f : frame) : request := mkRequest true "POST" (Some (frame_body f)).

(** * Facts: the wire *)

Definition int64_opt (o : option Z) : Prop := match o with Some z => in_int64 z | None => True end.
Definition measurement_ok (m : NodeMetrics.Measurement) : Prop :=
  int64_opt (NodeMetrics.m_PrefillTokens m) /\ int64_opt (NodeMetrics.m_DecodeTokens m) /\
  int64_opt (NodeMetrics.m_CachedTokens m) /\ int64_opt (NodeMetrics.m_PrefillMs m) /\
  int64_opt (NodeMetrics.m_DecodeMs m) /\ int64_opt (NodeMetrics.m_TtftMs m) /\ int64_opt (NodeMetrics.m_TotalMs m).
Definition workload_ok (w : Workload) : Prop :=
  in_int64 (w_CreatedAt w) /\ int64_opt (w_StartedAt w) /\ int64_opt (w_CompletedAt w) /\ measurement_ok (w_Measurement w).

Lemma dec_opt_string s : match opt_string s with Some v => dec_string "" v | None => Some "" end = Some s.
Proof. unfold opt_string. case_bool; by unbool; subst. Qed.

Lemma dec_ptr_int o : int64_opt o -> dec_ptr dec_int64 0 None (ptr (JInt <$> o)) = Some o.
Proof. destruct o as [z|]; [| done]. intros Hz. cbn. unfold dec_int64. by rewrite bool_decide_true. Qed.

Lemma dec_ptr_str o : dec_ptr dec_string "" None (ptr (JStr <$> o)) = Some o.
Proof. by destruct o. Qed.

Lemma dec_opt_int o :
  int64_opt o -> match JInt <$> o with Some v => dec_ptr dec_int64 0 None v | None => Some None end = Some o.
Proof. destruct o as [z|]; [| done]. intros Hz. cbn. unfold dec_int64. by rewrite bool_decide_true. Qed.

Ltac find_member := first [ left | right; find_member ].

Lemma workload_names w : NoDup (fold_case <$> (workload_members w).*1).
Proof. apply (bool_decide_eq_true_1 _). vm_compute. reflexivity. Qed.

(** Reads every field of a written workload. *)
Ltac read_workload :=
  repeat match goal with |- context [field ?dec ?name (encode (workload_members ?w)) ?a] =>
    rewrite (encode_field dec name (workload_members w) _ a (workload_names w)) by (unfold workload_members; find_member) end.

Lemma workload_reads w :
  workload_ok w -> unmarshal_workload (encode (workload_members w)) zero_workload = Some w.
Proof.
  intros (Hc & Hs & Hd & H1 & H2 & H3 & H4 & H5 & H6 & H7).
  unfold unmarshal_workload, BrokerWorkloads.unmarshal_measurement. read_workload.
  cbn [dec_string w_RunID w_ScheduledOn zero_workload w_ID w_Model w_Engine w_State w_OriginatedFrom w_CreatedAt w_StartedAt
    w_CompletedAt w_Error w_RequesterID w_Measurement BrokerWorkloads.no_measurement NodeMetrics.m_PrefillTokens
    NodeMetrics.m_DecodeTokens NodeMetrics.m_CachedTokens NodeMetrics.m_PrefillMs NodeMetrics.m_DecodeMs NodeMetrics.m_TtftMs
    NodeMetrics.m_TotalMs].
  rewrite !dec_opt_string, !dec_ptr_int, !dec_ptr_str, !dec_opt_int by done.
  unfold dec_int64. rewrite bool_decide_true by done. by destruct w as [? ? ? ? ? ? ? ? ? ? ? ? []].
Qed.

Definition complete (w : Workload) : Prop :=
  w_ID w <> "" /\ w_Model w <> "" /\ w_Engine w <> "" /\ w_State w <> "" /\ w_OriginatedFrom w <> "".

(** A relayed workload reads back as itself. *)
Lemma lifecycle_reads w : workload_ok w -> complete w -> parseLifecycle (lifecycle_params w) = inl w.
Proof.
  intros Hok (H1 & H2 & H3 & H4 & H5). unfold parseLifecycle, lifecycle_params.
  change (dec_struct _ None _) with (dec_ptr (dec_struct unmarshal_workload) zero_workload None (marshal_workload w)).
  unfold marshal_workload. cbn [dec_ptr dec_struct default]. rewrite workload_reads by done. cbn [fmap option_fmap option_map].
  by rewrite !bool_decide_false by done.
Qed.

Lemma dec_int64_range z v z' : in_int64 z -> dec_int64 z v = Some z' -> in_int64 z'.
Proof. unfold dec_int64. intros Hz. destruct v; try done; [by intros [= <-] |]. case_bool; [| done]. intros [= <-]. by unbool. Qed.

(** A field keeps what its decoder keeps. *)
Lemma field_keeps {A} (P : A -> Prop) (dec : A -> json -> option A) name l a b :
  (forall x v y, P x -> dec x v = Some y -> P y) -> P a -> field dec name l a = Some b -> P b.
Proof.
  intros Hdec. revert a. induction l as [|p l IH]; intros a Ha; [by intros [= <-] |].
  change (p :: l) with ([p] ++ l). rewrite field_app. unfold field at 1. cbn. case_bool.
  - destruct (dec a p.2) as [x|] eqn:E; [| done]. apply IH. by eapply Hdec.
  - by apply IH.
Qed.

Lemma field_int_range name l a b : in_int64 a -> field dec_int64 name l a = Some b -> in_int64 b.
Proof. apply field_keeps, dec_int64_range. Qed.

Lemma field_opt_range name l a b : int64_opt a -> field (dec_ptr dec_int64 0) name l a = Some b -> int64_opt b.
Proof.
  apply field_keeps. intros x v y Hx. assert (in_int64 (default 0 x)) as Hd by (destruct x; [done | split; done]).
  unfold dec_ptr. destruct v; try (intros [= <-]; done);
    (destruct (dec_int64 (default 0 x) _) as [z0|] eqn:E; [| done]; cbn; intros [= <-]; cbn; by eapply dec_int64_range).
Qed.

Lemma unmarshal_workload_ok l w w' : workload_ok w -> unmarshal_workload l w = Some w' -> workload_ok w'.
Proof.
  intros (Hc & Hs & Hd & H1 & H2 & H3 & H4 & H5 & H6 & H7).
  unfold unmarshal_workload, BrokerWorkloads.unmarshal_measurement.
  repeat match goal with |- context [field ?dec ?name l ?a] =>
    let E := fresh "E" in destruct (field dec name l a) eqn:E; [| try done] end.
  intros [= <-]. unfold workload_ok, measurement_ok. cbn.
  repeat match goal with |- _ /\ _ => split end;
    first [by eapply field_int_range; [| eassumption] | by eapply field_opt_range; [| eassumption]].
Qed.

(** What validation accepts is complete and within range. *)
Lemma parseLifecycle_ok params w : parseLifecycle params = inl w -> workload_ok w /\ complete w.
Proof.
  unfold parseLifecycle.
  destruct (dec_struct _ None params) as [[w0|]|] eqn:E; [| done | done]. repeat case_bool; try done. intros [= ->].
  unbool. split; [| by split_and!]. destruct params; try done. cbn [dec_struct] in E.
  assert (forall o o' v, match o with Some x => workload_ok x | None => True end ->
    dec_ptr (dec_struct unmarshal_workload) zero_workload o v = Some o' -> match o' with Some x => workload_ok x | None => True end) as Hdec.
  { intros o o' v Ho. assert (workload_ok (default zero_workload o)) as Hz.
    { destruct o; [done |]. repeat split; done. }
    destruct v; cbn; try (intros [= <-]; done).
    destruct (unmarshal_workload l0 (default zero_workload o)) as [x|] eqn:Eu; [| done]. cbn. intros [= <-].
    by eapply unmarshal_workload_ok. }
  exact (field_keeps (fun o => match o with Some x => workload_ok x | None => True end) _ _ _ None _
    (fun x v y Hx Hy => Hdec x y v Hx Hy) I E).
Qed.

(** The index event a relayed workload becomes at a broker. *)
Definition incoming_of (w : Workload) (info : json) : WorkloadStore.Incoming :=
  WorkloadStore.mkIncoming (w_OriginatedFrom w) (w_Engine w) (w_RunID w) (w_ID w) (w_State w) (w_CreatedAt w)
    (default 0 (w_CompletedAt w)) (w_ScheduledOn w) info.

Lemma relayed_incoming w :
  workload_ok w -> complete w -> BrokerWorkloads.parsed (lifecycle_params w) = Some (incoming_of w (marshal_workload w)).
Proof.
  intros (Hc & Hs & Hd & _) (H1 & _ & _ & _ & H5).
  unfold BrokerWorkloads.parsed, lifecycle_params. 
  change (BrokerWorkloads.workloadInfo_of (JObj [("workloadInfo", marshal_workload w)])) with (Some (marshal_workload w)).
  unfold WorkloadStore.ParseIncoming, WorkloadStore.unmarshal_header, marshal_workload. cbn [dec_struct].
  cbn [WorkloadStore.h_ID WorkloadStore.h_Engine WorkloadStore.h_RunID WorkloadStore.h_State WorkloadStore.h_OriginatedFrom
    WorkloadStore.h_ScheduledOn WorkloadStore.h_CreatedAt WorkloadStore.h_CompletedAt]. read_workload. cbn [dec_string].
  rewrite !dec_opt_string, dec_ptr_int by done. unfold dec_int64. rewrite bool_decide_true by done.
  cbn [WorkloadStore.h_ID WorkloadStore.h_OriginatedFrom]. rewrite !bool_decide_false by done. done.
Qed.

(** The same event read by the origin's own broker. *)
Lemma origin_incoming l w :
  distinct_names l -> parseLifecycle (JObj l) = inl w ->
  exists info, BrokerWorkloads.workloadInfo_of (JObj l) = Some info /\
    WorkloadStore.ParseIncoming info = Some (incoming_of w info).
Proof.
  intros Hd H. pose proof (parseLifecycle_ok _ _ H) as [_ (Hid & _ & _ & _ & Horigin)].
  unfold parseLifecycle in H. cbn [dec_struct] in H.
  destruct (existsb (fun p => EqualFold_ascii p.1 "workloadInfo") l) eqn:E.
  - apply existsb_exists in E as ([k v] & Hin%list_elem_of_In & Hk). cbn in Hk. exists v.
    rewrite (field_unique _ "workloadInfo" l k v) in H by done. split.
    { unfold BrokerWorkloads.workloadInfo_of. cbn [dec_struct]. by rewrite (field_unique dec_raw "workloadInfo" l k v) by done. }
    destruct v as [| | | | | | wl]; try done. cbn [dec_ptr default dec_struct] in H.
    destruct (unmarshal_workload wl zero_workload) as [w0|] eqn:Eu; cbn in H; [| done].
    assert (w0 = w) as -> by (repeat case_bool; congruence).
    unfold WorkloadStore.ParseIncoming, WorkloadStore.unmarshal_header. cbn [dec_struct].
    unfold unmarshal_workload in Eu.
    cbn [zero_workload w_ID w_Model w_Engine w_RunID w_State w_OriginatedFrom w_ScheduledOn w_CreatedAt w_StartedAt w_CompletedAt
      w_Error w_RequesterID w_Measurement WorkloadStore.h_ID WorkloadStore.h_Engine WorkloadStore.h_RunID WorkloadStore.h_State
      WorkloadStore.h_OriginatedFrom WorkloadStore.h_ScheduledOn WorkloadStore.h_CreatedAt WorkloadStore.h_CompletedAt] in *.
    repeat match type of Eu with context [field ?dec ?name ?l ?a] =>
      let F := fresh "F" in destruct (field dec name l a) eqn:F; [| done] end.
    destruct (BrokerWorkloads.unmarshal_measurement _ _); [| done]. injection Eu as <-. cbn in Hid, Horigin.
    cbn [WorkloadStore.h_ID WorkloadStore.h_OriginatedFrom]. by rewrite !bool_decide_false by done.
  - rewrite field_absent in H; [done |]. intros k v Hin. apply not_true_iff_false. intros Hk. apply not_true_iff_false in E.
    apply E, existsb_exists. exists (k, v). by rewrite <- list_elem_of_In.
Qed.

(** What the origin's broker counts for a workload, every peer's broker counts. *)
Lemma relayed_completion l w info :
  distinct_names l -> parseLifecycle (JObj l) = inl w -> BrokerWorkloads.workloadInfo_of (JObj l) = Some info ->
  BrokerWorkloads.completion_of (marshal_workload w) = BrokerWorkloads.completion_of info.
Proof.
  intros Hd H Hinfo. pose proof (parseLifecycle_ok _ _ H) as [Hok _].
  unfold parseLifecycle in H. cbn [dec_struct] in H. unfold BrokerWorkloads.workloadInfo_of in Hinfo. cbn [dec_struct] in Hinfo.
  destruct (existsb (fun p => EqualFold_ascii p.1 "workloadInfo") l) eqn:E.
  2: { rewrite field_absent in H; [done |]. intros k v Hin. apply not_true_iff_false. intros Hk. apply not_true_iff_false in E.
       apply E, existsb_exists. exists (k, v). by rewrite <- list_elem_of_In. }
  apply existsb_exists in E as ([k v] & Hin%list_elem_of_In & Hk). cbn in Hk.
  rewrite (field_unique _ "workloadInfo" l k v) in H by done.
  rewrite (field_unique dec_raw "workloadInfo" l k v) in Hinfo by done. injection Hinfo as ->.
  destruct info as [| | | | | | wl]; try done. cbn [dec_ptr default dec_struct] in H.
  destruct (unmarshal_workload wl zero_workload) as [w0|] eqn:Eu; cbn in H; [| done].
  assert (w0 = w) as -> by (repeat case_bool; congruence). clear H.
  assert (BrokerWorkloads.unmarshal_metrics (marshal_workload w) = BrokerWorkloads.unmarshal_metrics (JObj wl)) as Hm;
    [| unfold BrokerWorkloads.completion_of; by rewrite Hm].
  pose proof (workload_reads w Hok) as Hr. revert Eu Hr. unfold unmarshal_workload, marshal_workload, BrokerWorkloads.unmarshal_metrics.
  cbn [dec_struct zero_workload w_ID w_Model w_Engine w_RunID w_State w_OriginatedFrom w_ScheduledOn w_CreatedAt w_StartedAt
    w_CompletedAt w_Error w_RequesterID w_Measurement BrokerWorkloads.nm_Model BrokerWorkloads.nm_State
    BrokerWorkloads.nm_OriginatedFrom BrokerWorkloads.nm_ScheduledOn BrokerWorkloads.nm_Measurement].
  repeat match goal with |- context [field ?dec ?name wl ?a] =>
    let F := fresh "F" in destruct (field dec name wl a) eqn:F; [| done] end.
  destruct (BrokerWorkloads.unmarshal_measurement wl _); [| done]. intros [= <-].
  repeat match goal with |- context [field ?dec ?name (encode ?e) ?a] =>
    let F := fresh "F" in destruct (field dec name (encode e) a) eqn:F; [| done] end.
  destruct (BrokerWorkloads.unmarshal_measurement (encode _) _); [| done]. intros [= -> -> -> -> -> -> -> -> -> -> -> -> ->]. done.
Qed.

(** A relayed event means the same everywhere.  The event a peer's broker reads
    from the relayed workload has the identity, generation, state, node and completion
    time that the origin's own broker read from the original parameters, and it counts
    as the same completion; only the payload is rewritten to the known fields. *)
Theorem relay_faithful (l : members) (w : Workload) :
  distinct_names l -> parseLifecycle (JObj l) = inl w ->
  exists info, BrokerWorkloads.workloadInfo_of (JObj l) = Some info /\
    BrokerWorkloads.parsed (JObj l) = Some (incoming_of w info) /\
    BrokerWorkloads.parsed (lifecycle_params w) = Some (incoming_of w (marshal_workload w)) /\
    BrokerWorkloads.completion_of (marshal_workload w) = BrokerWorkloads.completion_of info /\
    parseLifecycle (lifecycle_params w) = inl w.
Proof.
  intros Hd H. destruct (origin_incoming l w Hd H) as (info & Hinfo & Hp). destruct (parseLifecycle_ok _ _ H) as [Hok Hc].
  exists info. split; [done |]. split; [by unfold BrokerWorkloads.parsed; rewrite Hinfo |].
  split; [by apply relayed_incoming |]. split; [by apply (relayed_completion l) |]. by apply lifecycle_reads.
Qed.

(** * Facts: the re-sync set *)

(** Parameters whose names stay apart, [resync] included. *)
Definition plain (params : json) : Prop :=
  exists l, params = JObj l /\ distinct_names l /\ forall k, k ∈ l.*1 -> fold_case k = fold_case "resync" -> k = "resync".

Lemma resync_reads params :
  plain params -> exists l', resync_params params = Some (JObj l') /\ parseLifecycle (JObj l') = parseLifecycle params /\
    isResyncFrame (JObj l') = true.
Proof.
  intros (l & -> & Hd & Hn). exists (marshalled (<["resync" := JBool true]> (object_map l))). split; [done |]. split.
  - unfold parseLifecycle. cbn [dec_struct]. by rewrite (overlay_other l "resync" (JBool true) Hd Hn) by (vm_compute; congruence).
  - unfold isResyncFrame. cbn [dec_struct]. by rewrite (overlay_read l "resync" (JBool true) Hd Hn).
Qed.

(** An entry of the re-sync set is a valid event of its key. *)
Definition tracked (k : workloadKey) (ev : workloadEvent) : Prop :=
  exists w, parseLifecycle (we_params ev) = inl w /\ key_of w = k /\ plain (we_params ev) /\ isLifecycleMethod (we_method ev) = true.

Definition all_tracked (m : Manager) : Prop := forall k ev, m_active m !! k = Some ev -> tracked k ev.

(** A lifecycle message has plain parameters. *)
Definition msg_plain (msg : Message) : Prop :=
  match msg_Params msg with Some params => isLifecycleMethod (msg_Method msg) = true -> plain params | None => True end.
Definition event_plain (e : mevent) : Prop := match e with MMessage msg _ => msg_plain msg | _ => True end.

(** Everything ever put on the queue and kept. *)
Definition log (m : Manager) : list frame := m_sent m ++ m_queue m.

Definition concerns (origin id : string) (k : workloadKey) : Prop :=
  WorkloadStore.k_Origin k = origin /\ WorkloadStore.k_ID k = id.

(** The frame is an event of a workload in [P]. *)
Definition frame_of (P : workloadKey -> Prop) (f : frame) : Prop :=
  isLifecycleMethod (fr_method f) = true /\ exists w, parseLifecycle (fr_params f) = inl w /\ P (key_of w).

Lemma log_broadcast m method params :
  exists new, log (broadcastFrame m method params) = log m ++ new /\ (new = [] \/ new = [mkFrame method params]) /\
    m_active (broadcastFrame m method params) = m_active m.
Proof.
  unfold broadcastFrame. destruct (Nat.ltb _ _).
  - exists [mkFrame method params]. unfold log. cbn. rewrite app_assoc. auto.
  - exists []. rewrite app_nil_r. auto.
Qed.

Lemma tracked_fold evs m :
  Forall (fun ev => exists k, tracked k ev) evs ->
  exists m' new, foldl (fun acc ev => match acc with Some m => broadcastResync m (we_method ev) (we_params ev) | None => None end)
      (Some m) evs = Some m' /\ m_active m' = m_active m /\ m_sent m' = m_sent m /\ m_queue m' = m_queue m ++ new /\
    sublist new (omap (fun ev => mkFrame (we_method ev) <$> resync_params (we_params ev)) evs) /\
    ((length (m_queue m) + length evs <= broadcastQueueDepth)%nat ->
     new = omap (fun ev => mkFrame (we_method ev) <$> resync_params (we_params ev)) evs).
Proof.
  revert m. induction evs as [|ev evs IH]; intros m Hevs.
  { exists m, []. rewrite app_nil_r. done. }
  apply Forall_cons in Hevs as [(k & w & Hp & Hk & Hpl & Hm) Hevs]. cbn [foldl].
  destruct (resync_reads _ Hpl) as (l' & Hl & _). unfold broadcastResync at 2. rewrite Hl.
  destruct (IH (broadcastFrame m (we_method ev) (JObj l')) Hevs) as (m' & new & Hf & Ha & Hs & Hq & Hsub & Hroom).
  exists m'. cbn [omap list_omap]. rewrite Hl. cbn [fmap option_fmap option_map].
  unfold broadcastFrame in *. destruct (Nat.ltb_spec (length (m_queue m)) broadcastQueueDepth) as [Hlt | Hge].
  - exists (mkFrame (we_method ev) (JObj l') :: new). split; [exact Hf |]. split; [done |]. split; [done |].
    split; [rewrite Hq; cbn; by rewrite <- app_assoc |]. split; [by apply sublist_skip |].
    cbn [length] in *. intros Hr. f_equal. apply Hroom. cbn. rewrite length_app. cbn. lia.
  - exists new. split; [exact Hf |]. split; [done |]. split; [done |]. split; [done |]. split; [by apply sublist_cons |].
    cbn [length]. lia.
Qed.

Section ManagerFacts.
Context `{!MapRange} (ParseFloat : string -> option spec_float) (decode_nodes : json -> option (list DirectoryNode)).
Abbreviation one_step := (mstep ParseFloat decode_nodes).
Abbreviation run_from := (mrun ParseFloat decode_nodes).

(** The frames of one snapshot. *)
Definition resync_frames (m : Manager) (now : Z) : list frame :=
  omap (fun ev => mkFrame (we_method ev) <$> resync_params (we_params ev)) (activeSnapshot m now).2.

Lemma snapshot_elem m now ev :
  ev ∈ (activeSnapshot m now).2 <-> expired now ev = false /\ exists k, m_active m !! k = Some ev.
Proof.
  unfold activeSnapshot. cbn [snd]. rewrite elem_of_bfilter, negb_true_iff, list_elem_of_fmap. split.
  - intros [([k ev'] & -> & Hin%elem_of_range) He]. eauto.
  - intros [He [k Hk]]. split; [| done]. exists (k, ev). by rewrite elem_of_range.
Qed.

Lemma snapshot_length m now : (length (activeSnapshot m now).2 <= size (m_active m))%nat.
Proof.
  unfold activeSnapshot. cbn [snd]. rewrite <- length_range. etransitivity; [| rewrite <- (length_fmap snd); reflexivity].
  generalize (range (m_active m)).*2. intros l. induction l as [|x l IH]; [done |]. cbn. destruct (negb _); cbn; lia.
Qed.

Lemma snapshot_runs m now :
  all_tracked m ->
  exists m' new, broadcastSnapshot m now = Some m' /\
    m_active m' = filter (fun '(_, ev) => expired now ev = false) (m_active m) /\ m_sent m' = m_sent m /\
    m_queue m' = m_queue m ++ new /\ sublist new (resync_frames m now) /\
    ((length (m_queue m) + size (m_active m) <= broadcastQueueDepth)%nat -> new = resync_frames m now).
Proof.
  intros Ht. unfold broadcastSnapshot. pose proof (snapshot_length m now) as Hlen.
  assert (Forall (fun ev => exists k, tracked k ev) (activeSnapshot m now).2) as Hall.
  { apply Forall_forall. intros ev [_ [k Hk]]%snapshot_elem. exists k. by apply Ht. }
  unfold resync_frames. destruct (activeSnapshot m now) as [m0 snap] eqn:E.
  assert (m0 = with_active m (filter (fun '(_, ev) => expired now ev = false) (m_active m))) as -> by (by injection E as <- _).
  cbn [snd] in *.
  destruct (tracked_fold snap (with_active m (filter (fun '(_, ev) => expired now ev = false) (m_active m))) Hall)
    as (m' & new & Hf & Ha & Hs & Hq & Hsub & Hroom).
  exists m', new. split; [exact Hf |]. split; [exact Ha |]. split; [exact Hs |]. split; [exact Hq |]. split; [exact Hsub |].
  intros Hr. apply Hroom. cbn. lia.
Qed.

(** A snapshot frame is an event of an active key. *)
Lemma resync_frame_of m now f :
  all_tracked m -> f ∈ resync_frames m now ->
  exists k ev w, m_active m !! k = Some ev /\ key_of w = k /\ fr_method f = we_method ev /\
    parseLifecycle (we_params ev) = inl w /\ parseLifecycle (fr_params f) = inl w /\ isResyncFrame (fr_params f) = true /\
    isLifecycleMethod (fr_method f) = true.
Proof.
  intros Ht (ev & Hin & Hf)%list_elem_of_omap. apply snapshot_elem in Hin as [_ [k Hk]].
  destruct (Ht _ _ Hk) as (w & Hp & Hkw & Hpl & Hm). destruct (resync_reads _ Hpl) as (l' & Hl & Hp' & Hr).
  rewrite Hl in Hf. injection Hf as <-. exists k, ev, w. cbn. by rewrite Hp'.
Qed.

(** The invariant of one operation: entries stay valid, those outside [P] stay outside,
    and nothing of [P] is put on the queue. *)
Definition avoids (P : workloadKey -> Prop) (m : Manager) : Prop := forall k, is_Some (m_active m !! k) -> ~ P k.

Definition event_avoids (P : workloadKey -> Prop) (e : mevent) : Prop :=
  match e with
  | MMessage msg _ => forall params w, msg_Params msg = Some params -> isLifecycleMethod (msg_Method msg) = true ->
      parseLifecycle params = inl w -> ~ P (key_of w)
  | _ => True
  end.

Definition advances (P : workloadKey -> Prop) (m m' : Manager) : Prop :=
  all_tracked m' /\ avoids P m' /\ exists new, log m' = log m ++ new /\ Forall (fun f => ~ frame_of P f) new.

Lemma advances_same P m m' :
  all_tracked m -> avoids P m -> m_active m' = m_active m -> log m' = log m -> advances P m m'.
Proof.
  intros Ht Ha Heq Hl. unfold advances, all_tracked, avoids. rewrite Heq. split; [done |]. split; [done |].
  exists []. by rewrite app_nil_r.
Qed.

Lemma advances_snapshot P m now m' :
  all_tracked m -> avoids P m -> broadcastSnapshot m now = Some m' -> advances P m m'.
Proof.
  intros Ht Ha Hs. destruct (snapshot_runs m now Ht) as (m1 & new & Hs' & Hact & Hsent & Hq & Hsub & _).
  rewrite Hs in Hs'. injection Hs' as <-. split; [| split].
  - intros k ev Hk. rewrite Hact in Hk. apply map_lookup_filter_Some in Hk as [Hk _]. by apply Ht.
  - intros k [ev Hk]. rewrite Hact in Hk. apply map_lookup_filter_Some in Hk as [Hk _]. apply Ha. eauto.
  - exists new. split; [unfold log; rewrite Hsent, Hq; by rewrite app_assoc |]. apply Forall_forall. intros f Hf [_ (w & Hp & HP)].
    destruct (resync_frame_of m now f Ht) as (k & ev & w' & Hk & Hkw & _ & _ & Hp' & _).
    { by apply (elem_of_sublist new). }
    rewrite Hp in Hp'. injection Hp' as <-. apply (Ha k); [by exists ev | by rewrite <- Hkw].
Qed.

Lemma advances_frame P m m1 method params :
  all_tracked m1 -> avoids P m1 -> log m1 = log m -> ~ frame_of P (mkFrame method params) ->
  advances P m (broadcastFrame m1 method params).
Proof.
  intros Ht Ha Hl Hf. destruct (log_broadcast m1 method params) as (new & Hlog & Hnew & Hact).
  unfold advances, all_tracked, avoids. rewrite Hact. split; [done |]. split; [done |]. exists new.
  split; [by rewrite Hlog, Hl |]. destruct Hnew as [-> | ->]; [done | by repeat constructor].
Qed.

Lemma remove_not_lifecycle : isLifecycleMethod MethodRemove = false /\ isLifecycleMethod MethodProgress = false.
Proof. split; vm_compute; reflexivity. Qed.

Lemma advances_message P m msg now :
  all_tracked m -> avoids P m -> msg_plain msg -> event_avoids P (MMessage msg now) ->
  advances P m (handleMessage ParseFloat decode_nodes m msg now).
Proof.
  intros Ht Ha Hpl Hev. destruct remove_not_lifecycle as [Hrm Hpg].
  unfold handleMessage. case_bool; [by apply advances_same |].
  case_bool; [destruct (HandleSetLevelParams _); case_bool; by apply advances_same |].
  case_bool; [case_bool; by apply advances_same |].
  case_bool; [unfold applyDiscovery; destruct (_ ≫= _); by apply advances_same |].
  destruct (isLifecycleMethod (msg_Method msg)) eqn:El.
  { unfold handleLocalLifecycle. destruct (msg_Params msg) as [params|] eqn:Ep; [| by apply advances_same].
    destruct (parseLifecycle params) as [wl | err] eqn:Ew; [| by apply advances_same].
    pose proof (Hev params wl Ep El Ew) as Hnot. unfold msg_plain in Hpl. rewrite Ep in Hpl. specialize (Hpl El).
    assert (forall ev, we_method ev = msg_Method msg -> we_params ev = params -> tracked (key_of wl) ev) as Hnew.
    { intros ev Hm Hp. exists wl. rewrite Hm, Hp. done. }
    assert (forall ev, we_method ev = msg_Method msg -> we_params ev = params ->
      all_tracked (with_active m (<[key_of wl := ev]> (m_active m))) /\ avoids P (with_active m (<[key_of wl := ev]> (m_active m)))) as Hins.
    { intros ev Hm Hp. split.
      - intros k ev' Hk. cbn [m_active with_active] in Hk.
        apply lookup_insert_Some in Hk as [[<- <-] | [_ Hk]]; [by apply Hnew | by apply Ht].
      - intros k [ev' Hk]. cbn [m_active with_active] in Hk. apply lookup_insert_Some in Hk as [[<- <-] | [_ Hk]]; [done | apply Ha; eauto]. }
    assert (let m1 := trackActive m (key_of wl) (msg_Method msg) params (w_State wl) now in
      all_tracked m1 /\ avoids P m1 /\ log m1 = log m) as (H1 & H2 & H3).
    { cbn zeta. unfold trackActive. case_bool; [done |].
      destruct (bool_decide (w_State wl = StateCompleted) || bool_decide (w_State wl = StateFailed));
        match goal with |- context [<[_ := ?ev]>] => destruct (Hins ev eq_refl eq_refl) end; done. }
    apply advances_frame; [done | done | done |]. intros [_ (w & Hp & HP)]. cbn in Hp. rewrite Ew in Hp. injection Hp as <-. done. }
  case_bool.
  { unbool. unfold handleLocalProgress. destruct (msg_Params msg) as [params|]; [| by apply advances_same].
    destruct (parseProgress ParseFloat params); [| by apply advances_same]. apply advances_frame; try done.
    intros [Hl _]. cbn in Hl. congruence. }
  case_bool.
  { unbool. unfold handleLocalRemove. destruct (msg_Params msg) as [params|]; [| by apply advances_same].
    destruct (parseRemove params) as [[id origin]|]; [| by apply advances_same]. apply advances_frame; [| | done |].
    - intros k ev Hk. cbn [untrackActive with_active m_active] in Hk. apply map_lookup_filter_Some in Hk as [Hk _]. by apply Ht.
    - intros k [ev Hk]. cbn [untrackActive with_active m_active] in Hk. apply map_lookup_filter_Some in Hk as [Hk _]. apply Ha. eauto.
    - intros [Hl _]. cbn in Hl. congruence. }
  case_bool; case_bool; by apply advances_same.
Qed.

Lemma advances_step P m e :
  all_tracked m -> avoids P m -> event_plain e -> event_avoids P e -> exists m', one_step m e = Some m' /\ advances P m m'.
Proof.
  intros Ht Ha Hpl Hev.
  assert (forall now m0, m_active m0 = m_active m -> log m0 = log m -> exists m', broadcastSnapshot m0 now = Some m' /\ advances P m m') as Hsnap.
  { intros now m0 Hact Hl. assert (all_tracked m0 /\ avoids P m0) as [Ht0 Ha0] by (unfold all_tracked, avoids; by rewrite Hact).
    destruct (snapshot_runs m0 now Ht0) as (m' & _ & Hs & _).
    exists m'. split; [done |]. destruct (advances_snapshot P m0 now m' Ht0 Ha0 Hs) as (H1 & H2 & H3). rewrite Hl in H3. by split. }
  destruct e as [msg now | now | now | now |]; cbn [mstep].
  - eexists. split; [done |]. by apply advances_message.
  - by apply Hsnap.
  - unfold refreshPeers. destruct (Broadcast.Replace _ _) as [p [added removed]]. case_bool; [| by apply Hsnap].
    eexists. split; [done |]. by apply advances_same.
  - by apply Hsnap.
  - eexists. split; [done |]. unfold take_frame. destruct (m_queue m) as [|f q] eqn:Eq; [by apply advances_same |].
    apply advances_same; try done. unfold log. cbn. by rewrite Eq, <- app_assoc.
Qed.

Lemma advances_run P evs m :
  all_tracked m -> avoids P m -> Forall event_plain evs -> Forall (event_avoids P) evs ->
  exists m', run_from m evs = Some m' /\ advances P m m'.
Proof.
  revert m. induction evs as [|e evs IH]; intros m Ht Ha Hpl Hev.
  { exists m. split; [done | by apply advances_same]. }
  apply Forall_cons in Hpl as [He Hpl], Hev as [He' Hev]. destruct (advances_step P m e Ht Ha He He') as (m1 & Hs & H1 & H2 & new & Hl & Hn).
  destruct (IH m1 H1 H2 Hpl Hev) as (m' & Hr & H3 & H4 & new' & Hl' & Hn'). exists m'. cbn [mrun]. rewrite Hs.
  split; [done |]. split; [done |]. split; [done |]. exists (new ++ new'). rewrite Hl', Hl, app_assoc. split; [done |]. by apply Forall_app.
Qed.

(** A manager that has run from its start. *)
Lemma started port self evs :
  Forall event_plain evs -> exists m, run_from (NewManager port self) evs = Some m /\ all_tracked m.
Proof.
  intros Hpl. destruct (advances_run (fun _ => False) evs (NewManager port self)) as (m & Hr & Ht & _); [| | done | | by exists m].
  - by intros k ev.
  - intros k _ [].
  - apply Forall_forall. intros [msg now | | | |] _; cbn; auto.
Qed.

(** C25. A removal is final.  Once the manager has handled a removal, no frame about a
    workload of that (origin, id) pair is put on the wire again - by the heartbeat, by a
    backfill, by a change of membership - until the broker reports such a workload
    anew; the frames of the removal and before keep their order and their place ahead
    of everything later, and no event makes the manager panic. *)
Theorem removal_is_final (port : Z) (self : string) (before after : list mevent) (m : Manager) (msg : Message) (now : Z)
    (params : json) (workloadID nodeID : string) :
  Forall event_plain before -> run_from (NewManager port self) before = Some m ->
  msg_ID msg = None -> msg_Method msg = MethodRemove -> msg_Params msg = Some params -> parseRemove params = inl (workloadID, nodeID) ->
  Forall event_plain after -> Forall (event_avoids (concerns nodeID workloadID)) after ->
  let m1 := handleMessage ParseFloat decode_nodes m msg now in
  exists m' new, run_from m1 after = Some m' /\ log m' = log m1 ++ new /\
    Forall (fun f => ~ frame_of (concerns nodeID workloadID) f) new /\
    ((length (m_queue m) < broadcastQueueDepth)%nat -> log m1 = log m ++ [mkFrame MethodRemove params]).
Proof.
  intros Hb Hm Hid Hmeth Hpar Hp Ha Hav m1.
  destruct (started port self before Hb) as (m0 & Hm0 & Ht). rewrite Hm in Hm0. injection Hm0 as <-.
  assert (m1 = broadcastFrame (untrackActive m nodeID workloadID) MethodRemove params) as Hm1.
  { unfold m1, handleMessage, IsResponse, IsRequest. rewrite Hid, Hmeth. cbn [bool_decide andb].
    change (isLifecycleMethod MethodRemove) with false. unfold handleLocalRemove. rewrite Hpar, Hp, Hmeth. done. }
  destruct (log_broadcast (untrackActive m nodeID workloadID) MethodRemove params) as (frm & Hlog & Hfrm & Hact). rewrite <- Hm1 in Hlog, Hact.
  assert (all_tracked m1) as Ht1.
  { intros k ev Hk. rewrite Hact in Hk. apply map_lookup_filter_Some in Hk as [Hk _]. by apply Ht. }
  assert (avoids (concerns nodeID workloadID) m1) as Ha1.
  { intros k [ev Hk] [Ho Hi]. rewrite Hact in Hk. apply map_lookup_filter_Some in Hk as [_ Hk].
    by rewrite Ho, Hi, !bool_decide_true in Hk by done. }
  destruct (advances_run _ after m1 Ht1 Ha1 Ha Hav) as (m' & Hr & _ & _ & new & Hl & Hn).
  exists m', new. split; [done |]. split; [done |]. split; [done |]. intros Hroom.
  rewrite Hm1. unfold broadcastFrame. cbn [untrackActive with_active m_queue]. rewrite (proj2 (Nat.ltb_lt _ _) Hroom).
  unfold log. cbn. by rewrite app_assoc.
Qed.
End ManagerFacts.

(** * Facts: the server *)

Lemma message_reads f : unmarshal_message (frame_body f) = Some (mkMessage "2.0" None (fr_method f) (Some (fr_params f))).
Proof. reflexivity. Qed.









(** * Facts: a heartbeat reaches a peer *)

Section Heartbeat.
Context `{!MapRange} (ParseFloat : string -> option spec_float) (decode_nodes : json -> option (list DirectoryNode)).

(** A peer's server and broker take the frames in order, each delivered and written. *)
Definition relay_one (acc : option (dedupIndex * BrokerWorkloads.Broker)) (ft : frame * BrokerWorkloads.instants)
    : option (dedupIndex * BrokerWorkloads.Broker) :=
  match acc with
  | None => None
  | Some (d, b) =>
      match handleEvents ParseFloat d (post_of ft.1) EmitOK with
      | None => None
      | Some rp =>
          Some (rp_dedup rp,
                foldl (fun b n => BrokerWorkloads.forwardWorkloadManagerNotification b (n_method n) (n_params n)
                                    (match parseProgress ParseFloat (n_params n) with inl f => Some f | inr _ => None end) ft.2)
                  b (rp_emitted rp))
      end
  end.

Definition relay (d : dedupIndex) (b : BrokerWorkloads.Broker) (fts : list (frame * BrokerWorkloads.instants)) :=
  foldl relay_one (Some (d, b)) fts.

(** The peer's record of a workload is the origin's own and no older. *)
Definition caught_up (b : BrokerWorkloads.Broker) (w : Workload) : Prop :=
  exists r, WorkloadStore.s_records (BrokerWorkloads.b_workloads b) !! key_of w = Some r /\
    (w_CreatedAt w < WorkloadStore.r_CreatedAt r \/
     WorkloadStore.r_CreatedAt r = w_CreatedAt w /\ WorkloadStore.r_Inferred r = false /\
     (WorkloadStore.rank (w_State w) < WorkloadStore.rank (WorkloadStore.r_State r) \/
      WorkloadStore.rank (w_State w) = WorkloadStore.rank (WorkloadStore.r_State r) /\ WorkloadStore.r_ScheduledOn r = w_ScheduledOn w)).

(** The peer's inventory vouches for every participant it knows. *)
Definition gate_open (b : BrokerWorkloads.Broker) : Prop := forall id, BrokerWorkloads.onlyUnprovenWorkloadInventory b id = false.

Lemma apply_caught_up s i now :
  WorkloadStore.valid i ->
  exists r, WorkloadStore.s_records (WorkloadStore.Apply s i now).1 !! WorkloadStore.keyOf i = Some r /\
    (WorkloadStore.in_CreatedAt i < WorkloadStore.r_CreatedAt r \/
     WorkloadStore.r_CreatedAt r = WorkloadStore.in_CreatedAt i /\ WorkloadStore.r_Inferred r = false /\
     (WorkloadStore.rank (WorkloadStore.in_State i) < WorkloadStore.rank (WorkloadStore.r_State r) \/
      WorkloadStore.rank (WorkloadStore.in_State i) = WorkloadStore.rank (WorkloadStore.r_State r) /\
      WorkloadStore.r_ScheduledOn r = WorkloadStore.in_ScheduledOn i)).
Proof.
  intros Hv. pose proof (WorkloadStore.applyLocked_facts s i false now) as Ha. unfold WorkloadStore.Apply.
  destruct (WorkloadStore.applyLocked s i false now) as [s' ok]. destruct Ha as (_ & _ & Ha & _). specialize (Ha Hv). cbn [fst].
  assert (forall seen, WorkloadStore.s_records s' !! WorkloadStore.keyOf i = Some (WorkloadStore.written i false now seen) ->
    exists r, WorkloadStore.s_records s' !! WorkloadStore.keyOf i = Some r /\
    (WorkloadStore.in_CreatedAt i < WorkloadStore.r_CreatedAt r \/
     WorkloadStore.r_CreatedAt r = WorkloadStore.in_CreatedAt i /\ WorkloadStore.r_Inferred r = false /\
     (WorkloadStore.rank (WorkloadStore.in_State i) < WorkloadStore.rank (WorkloadStore.r_State r) \/
      WorkloadStore.rank (WorkloadStore.in_State i) = WorkloadStore.rank (WorkloadStore.r_State r) /\
      WorkloadStore.r_ScheduledOn r = WorkloadStore.in_ScheduledOn i))) as Hput.
  { intros seen Hs. eexists. split; [exact Hs |]. right. split; [done |]. split; [done |]. by right. }
  destruct (WorkloadStore.s_records s !! WorkloadStore.keyOf i) as [cur|]; [| by eapply Hput, Ha].
  destruct Ha as [Hacc Ha]. destruct ok; destruct Ha as (seen & Ha & _); [by eapply Hput |].
  eexists. split; [exact Ha |].
  cbn [WorkloadStore.with_provenance WorkloadStore.r_CreatedAt WorkloadStore.r_Inferred WorkloadStore.r_State WorkloadStore.r_ScheduledOn].
  unfold WorkloadStore.accepts in Hacc.
  destruct (Z.ltb_spec (WorkloadStore.r_CreatedAt cur) (WorkloadStore.in_CreatedAt i)); [done |].
  destruct (Z.ltb_spec (WorkloadStore.in_CreatedAt i) (WorkloadStore.r_CreatedAt cur)); [by left | right]. split; [lia |].
  destruct (WorkloadStore.r_Inferred cur); cbn [Bool.eqb] in Hacc; [done |]. split; [done |].
  symmetry in Hacc. apply orb_false_iff in Hacc as [Hlt Hs]. unbool. destruct (Z.eqb_spec (WorkloadStore.rank (WorkloadStore.r_State cur))
    (WorkloadStore.rank (WorkloadStore.in_State i))) as [He |]; [right | left; lia].
  cbn in Hs. unbool. by split.
Qed.

Lemma relay_step d b f t w :
  isLifecycleMethod (fr_method f) = true -> parseLifecycle (fr_params f) = inl w -> isResyncFrame (fr_params f) = true -> gate_open b ->
  exists b', relay_one (Some (d, b)) (f, t) = Some (d, b') /\ gate_open b' /\ caught_up b' w /\
    forall k, k <> key_of w -> WorkloadStore.s_records (BrokerWorkloads.b_workloads b') !! k =
      WorkloadStore.s_records (BrokerWorkloads.b_workloads b) !! k.
Proof.
  intros Hm Hp Hr Hg. destruct (parseLifecycle_ok _ _ Hp) as [Hok Hc].
  exists (BrokerWorkloads.emitWorkloadEvent b MethodUpsert (lifecycle_params w) t). split.
  { unfold relay_one, handleEvents, post_of. cbn [fst snd rq_pinned rq_method rq_body negb mbind option_bind].
    rewrite message_reads. cbn [msg_JSONRPC msg_Method msg_Params]. rewrite !bool_decide_true by done. cbn [negb].
    rewrite Hm. unfold handleLifecycle. cbn [msg_Params]. rewrite Hp, Hr. done. }
  pose proof (BrokerWorkloads.emit_follows b MethodUpsert (lifecycle_params w) BrokerWorkloads.workloadRemote None t) as (_ & _ & F1 & F2 & F3 & _).
  pose proof (relayed_incoming w Hok Hc) as Hi. unfold BrokerWorkloads.parsed in Hi.
  destruct (BrokerWorkloads.workloadInfo_of (lifecycle_params w)) as [info|] eqn:Einfo; [| done].
  set (i := incoming_of w (marshal_workload w)) in *.
  assert (BrokerWorkloads.refused b BrokerWorkloads.workloadRemote i = false) as Href.
  { unfold BrokerWorkloads.refused. rewrite !Hg. by rewrite andb_false_r. }
  destruct (BrokerWorkloads.emit_report b (lifecycle_params w) BrokerWorkloads.workloadRemote t info i ltac:(done) Einfo Hi Href) as [Hw _].
  unfold BrokerWorkloads.emitWorkloadEvent. change MethodUpsert with "workloads:upsert" in *.
  set (b' := BrokerWorkloads.emitWorkloadEventProvenance b "workloads:upsert" (lifecycle_params w) BrokerWorkloads.workloadRemote None t) in *.
  split; [| split].
  - intros id. unfold BrokerWorkloads.onlyUnprovenWorkloadInventory, BrokerWorkloads.decisionInventory, BrokerWorkloads.currentPeerProof.
    rewrite F1, F2, F3. apply Hg.
  - unfold caught_up. rewrite Hw. destruct (BrokerWorkloads.parsed_valid _ _ Hi) as [Hv _].
    exact (apply_caught_up (BrokerWorkloads.b_workloads b) i (BrokerWorkloads.i_store t) Hv).
  - intros k Hk. rewrite Hw. pose proof (WorkloadStore.applyLocked_facts (BrokerWorkloads.b_workloads b) i false (BrokerWorkloads.i_store t)) as Ha.
    unfold WorkloadStore.Apply. destruct (WorkloadStore.applyLocked _ _ _ _) as [s ok]. by apply Ha.
Qed.

Lemma relay_entries l ts d b :
  NoDup l.*1 -> Forall (fun p => tracked p.1 p.2) l -> length ts = length l -> gate_open b ->
  exists b', relay d b (zip (omap (fun ev => mkFrame (we_method ev) <$> resync_params (we_params ev)) l.*2) ts) = Some (d, b') /\
    (forall k, k ∉ l.*1 -> WorkloadStore.s_records (BrokerWorkloads.b_workloads b') !! k =
       WorkloadStore.s_records (BrokerWorkloads.b_workloads b) !! k) /\
    forall k ev w, (k, ev) ∈ l -> parseLifecycle (we_params ev) = inl w -> caught_up b' w.
Proof.
  revert ts b. induction l as [|[k ev] l IH]; intros ts b Hnd Ht Hlen Hg.
  { exists b. split; [done |]. split; [done |]. by intros ? ? ? ?%not_elem_of_nil. }
  destruct ts as [|t ts]; [done |]. cbn [fmap list_fmap fst] in Hnd. apply NoDup_cons in Hnd as [Hk Hnd].
  apply Forall_cons in Ht as [(w & Hp & Hkw & Hpl & Hm) Ht]. cbn [fst snd] in *.
  destruct (resync_reads _ Hpl) as (l' & Hl' & Hp' & Hr). change ((k, ev) :: l).*2 with (ev :: l.*2). cbn [omap list_omap].
  rewrite Hl'. cbn [fmap option_fmap option_map zip zip_with].
  destruct (relay_step d b (mkFrame (we_method ev) (JObj l')) t w) as (b1 & H1 & Hg1 & Hc1 & Ho1); [done | exact (eq_trans Hp' Hp) | done | done |].
  destruct (IH ts b1 Hnd Ht ltac:(cbn in Hlen; lia) Hg1) as (b' & Hb' & Ho & Hc). exists b'.
  unfold relay in *. cbn [foldl]. rewrite H1. split; [exact Hb' |]. change ((k, ev) :: l).*1 with (k :: l.*1). split.
  - intros k' [Hne Hk']%not_elem_of_cons. rewrite Ho by done. apply Ho1. by rewrite Hkw.
  - intros k' ev' w' [E | Hin]%elem_of_cons Hw'; [| by eapply Hc]. injection E as -> ->.
    assert (w' = w) as -> by congruence. destruct Hc1 as (r & Hr1 & Hcase). exists r. split; [| done].
    rewrite Ho; [done |]. by rewrite Hkw.
Qed.

(** C10. A heartbeat reconciles a peer.  After any history of the manager, with room in
    the queue, the snapshot's frames - in whatever order the map gives them - bring any
    peer whose inventory vouches for the participants up to date, whatever its index
    and its dedup index hold: for every live workload and every terminal still
    retained, the peer's record is the origin's own and at least as advanced.  A lost
    event, a duplicate, a reordered one and a wrong node-loss guess are all repaired,
    and none of the frames is swallowed by the dedup index. *)
Theorem heartbeat_reconciles (port : Z) (self : string) (before : list mevent) (m : Manager) (now : Z)
    (d : dedupIndex) (b : BrokerWorkloads.Broker) :
  Forall event_plain before -> mrun ParseFloat decode_nodes (NewManager port self) before = Some m ->
  (length (m_queue m) + size (m_active m) <= broadcastQueueDepth)%nat -> gate_open b ->
  exists m' frames, mstep ParseFloat decode_nodes m (MHeartbeat now) = Some m' /\ m_queue m' = m_queue m ++ frames /\
    forall ts, length ts = length frames ->
      exists b', relay d b (zip frames ts) = Some (d, b') /\
        forall k ev w, m_active m !! k = Some ev -> expired now ev = false -> parseLifecycle (we_params ev) = inl w ->
          caught_up b' w.
Proof.
  intros Hb Hm Hroom Hg. destruct (started ParseFloat decode_nodes port self before Hb) as (m0 & Hm0 & Ht).
  rewrite Hm in Hm0. injection Hm0 as <-. destruct (snapshot_runs m now Ht) as (m' & new & Hs & _ & _ & Hq & _ & Hnew).
  rewrite (Hnew Hroom) in Hq. exists m', (resync_frames m now). split; [exact Hs |]. split; [exact Hq |].
  set (l := List.filter (fun p => negb (expired now p.2)) (range (m_active m))).
  assert (List.filter (fun ev => negb (expired now ev)) (range (m_active m)).*2 = l.*2) as Hl.
  { symmetry. exact (bfilter_snd (fun ev => negb (expired now ev)) (range (m_active m))). }
  assert (forall k ev, (k, ev) ∈ l <-> m_active m !! k = Some ev /\ expired now ev = false) as Hin
    by (intros k ev; unfold l; by rewrite elem_of_bfilter, elem_of_range, negb_true_iff).
  assert (Forall (fun p => tracked p.1 p.2) l) as Htr by (apply Forall_forall; intros [k ev] [Hk _]%Hin; by apply Ht).
  assert (NoDup l.*1) as Hnd
    by (apply NoDup_fst_bfilter, NoDup_fst_range).
  assert (length (resync_frames m now) = length l) as Hlen.
  { unfold resync_frames, activeSnapshot. cbn [snd]. rewrite Hl. clear -Htr. induction Htr as [|[k ev] l (w & _ & _ & Hpl & _) _ IH]; [done |].
    destruct (resync_reads _ Hpl) as (l' & Hl' & _). change ((k, ev) :: l).*2 with (ev :: l.*2). cbn [omap list_omap].
    cbn [snd] in Hl'. rewrite Hl'. cbn. by rewrite IH. }
  intros ts Hts. destruct (relay_entries l ts d b Hnd Htr ltac:(lia) Hg) as (b' & Hb' & _ & Hc).
  exists b'. unfold resync_frames, activeSnapshot. cbn [snd]. rewrite Hl. split; [exact Hb' |].
  intros k ev w Hk He Hw. apply (Hc k ev w); [by apply Hin | done].
Qed.
End Heartbeat.

(** * Witnesses *)

Definition ex_members (state : string) : members :=
  [("workloadInfo", JObj [("id", JStr "7"); ("model", JStr "m"); ("engine", JStr "ollama"); ("runId", JStr "r");
     ("state", JStr state); ("originatedFrom", JStr "self"); ("createdAt", JInt 100)])].
Definition ex_started : Message := mkMessage "2.0" None MethodStarted (Some (JObj (ex_members "running"))).
Definition ex_remove : Message :=
  mkMessage "2.0" None MethodRemove (Some (JObj [("workloadId", JStr "7"); ("originatedFrom", JStr "self")])).
Definition ex_workload : Workload :=
  mkWorkload "7" "m" "ollama" "r" "running" "self" "" 100 None None None None BrokerWorkloads.no_measurement.
Definition no_floats (_ : string) : option spec_float := None.
Definition no_nodes (_ : json) : option (list DirectoryNode) := None.

Definition ex_manager : Manager :=
  default (NewManager 9000 "self") (@mrun ascending_range no_floats no_nodes (NewManager 9000 "self") [MMessage ex_started 110]).

Lemma ex_plain : event_plain (MMessage ex_started 110).
Proof.
  intros _. eexists. split; [reflexivity |]. split; [apply (bool_decide_eq_true_1 _); vm_compute; reflexivity |].
  intros k Hk. cbn in Hk. apply list_elem_of_singleton in Hk as ->. vm_compute. congruence.
Qed.

Lemma relay_faithful_witness :
  distinct_names (ex_members "running") /\ parseLifecycle (JObj (ex_members "running")) = inl ex_workload /\
  parseLifecycle (lifecycle_params ex_workload) = inl ex_workload.
Proof.
  assert (distinct_names (ex_members "running")) as Hd by (apply (bool_decide_eq_true_1 _); vm_compute; reflexivity).
  assert (parseLifecycle (JObj (ex_members "running")) = inl ex_workload) as Hp by (vm_compute; reflexivity).
  split; [exact Hd |]. split; [exact Hp |]. by destruct (relay_faithful _ _ Hd Hp) as (info & _ & _ & _ & _ & H).
Defined.

Lemma removal_is_final_witness :
  exists m' new, @mrun ascending_range no_floats no_nodes
      (handleMessage no_floats no_nodes ex_manager ex_remove 120) [MHeartbeat 130; MTake; MTake] = Some m' /\
    log m' = log (handleMessage no_floats no_nodes ex_manager ex_remove 120) ++ new /\
    Forall (fun f => ~ frame_of (concerns "self" "7") f) new.
Proof.
  destruct (@removal_is_final ascending_range no_floats no_nodes 9000 "self" [MMessage ex_started 110] [MHeartbeat 130; MTake; MTake]
    ex_manager ex_remove 120 (JObj [("workloadId", JStr "7"); ("originatedFrom", JStr "self")]) "7" "self") as (m' & new & H1 & H2 & H3 & _).
  - constructor; [apply ex_plain | constructor].
  - vm_compute. reflexivity.
  - reflexivity.
  - reflexivity.
  - reflexivity.
  - vm_compute. reflexivity.
  - repeat constructor.
  - repeat constructor.
  - exists m', new. split; [exact H1 |]. split; [exact H2 | exact H3].
Defined.


Lemma ex_gate : @gate_open ascending_range BrokerWorkloads.ex_empty.
Proof. intros id. unfold BrokerWorkloads.onlyUnprovenWorkloadInventory. case_bool; reflexivity. Qed.

Lemma heartbeat_reconciles_witness :
  exists m' frames, @mstep ascending_range no_floats no_nodes ex_manager (MHeartbeat 130) = Some m' /\
    m_queue m' = m_queue ex_manager ++ frames /\ length frames = 1%nat /\
    exists b', @relay ascending_range no_floats (newDedupIndex 10) BrokerWorkloads.ex_empty (zip frames [BrokerWorkloads.ex_at 140]) = Some (newDedupIndex 10, b') /\
      caught_up b' ex_workload.
Proof.
  destruct (@heartbeat_reconciles ascending_range no_floats no_nodes 9000 "self" [MMessage ex_started 110] ex_manager 130 (newDedupIndex 10)
    BrokerWorkloads.ex_empty) as (m' & frames & H1 & H2 & H3).
  - constructor; [apply ex_plain | constructor].
  - vm_compute. reflexivity.
  - apply Nat.leb_le. vm_compute. reflexivity.
  - apply ex_gate.
  - exists m', frames. split; [exact H1 |]. split; [exact H2 |].
    assert (length frames = 1%nat) as Hl.
    { assert (m_queue m' = m_queue m') as Hc by reflexivity. revert Hc. rewrite H2 at 1. intros Hc.
      apply (f_equal length) in Hc. rewrite length_app in Hc.
      assert (option_map (fun m => length (m_queue m)) (@mstep ascending_range no_floats no_nodes ex_manager (MHeartbeat 130)) = Some 2%nat)
        as Hn by (vm_compute; reflexivity).
      rewrite H1 in Hn. injection Hn as Hn. rewrite Hn in Hc. change (length (m_queue ex_manager)) with 1%nat in Hc. lia. }
    split; [exact Hl |]. destruct (H3 [BrokerWorkloads.ex_at 140] (eq_sym Hl)) as (b' & Hb & Hc). exists b'. split; [exact Hb |].
    apply (Hc (key_of ex_workload) (mkEvent MethodStarted (JObj (ex_members "running")) false None)); vm_compute; reflexivity.
Defined.
