(* ===== verification/EapWire.v ===== *)
(** The messages of EAP-NOOB (services/eap-noob: messages.go, errors.go, eapnoob.go,
    helpers.go, mac.go): the wire format, byte for byte, and the arrays that the
    fingerprint and the authentication codes are computed over. *)
From S2P Require Import Prelude.
From S2P Require Import GoStd.
From S2P Require Import GoBytes.
From S2P Require Import Json.
From S2P Require Import JsonText.

Open Scope string_scope.
Open Scope list_scope.
Open Scope Z_scope.

(** * Constants *)

Definition ErrInvalidMessageStructure : Z := 1002.
Definition ErrInvalidData : Z := 1003.
Definition ErrUnexpectedMessageType : Z := 1004.
Definition ErrUnexpectedPeerIdentier : Z := 2001.
Definition ErrUnrecognizedOOBMsgID : Z := 2003.
Definition ErrStateMismatch : Z := 2002.
Definition ErrUnsupportedVersion : Z := 3001.
Definition ErrUnsupportedCryptosuite : Z := 3002.
Definition ErrNoMutuallySupportedOOB : Z := 3003.
Definition ErrHMACVerificationFailed : Z := 4001.

Definition typeError : Z := 0.
Definition typeDiscovery : Z := 1.
Definition typeNegotiation : Z := 2.
Definition typeKeyExchange : Z := 3.
Definition typeWaiting : Z := 4.
Definition typeNoobID : Z := 5.
Definition typeCompletion : Z := 6.

Definition defaultNAI : string := "noob@eap-noob.arpa".
Definition eapSuccess : string := "success".
Definition eapFailure : string := "failure".

(** * Messages (messages.go) *)

(** A pointer field is an option; a raw field is its text, empty when absent. *)
Record wireMessage : Type := mkWire {
  wm_Type : option Z; wm_PeerState : option Z; wm_PeerId : string; wm_NAI : string;
  wm_NewNAI : string; wm_Vers : string; wm_Verp : string; wm_Cryptosuites : string;
  wm_Cryptosuitep : string; wm_Dirs : string; wm_Dirp : string; wm_ServerInfo : string;
  wm_PeerInfo : string; wm_PKs : string; wm_PKp : string; wm_Ns : string; wm_Np : string;
  wm_SleepTime : option Z; wm_NoobId : string; wm_MACs : string; wm_MACp : string;
  wm_ErrorCode : option Z; wm_ErrorInfo : string; wm_EAP : string
}.

Definition wire0 : wireMessage := mkWire None None "" "" "" "" "" "" "" "" "" "" "" "" "" "" "" None "" "" "" None "" "".

(** A message of a type, to be given its fields. *)
Definition message (type : Z) : wireMessage :=
  mkWire (Some type) None "" "" "" "" "" "" "" "" "" "" "" "" "" "" "" None "" "" "" None "" "".

Module Wire.
Definition set_PeerState (v : option Z) (m : wireMessage) : wireMessage :=
  mkWire (wm_Type m) v (wm_PeerId m) (wm_NAI m) (wm_NewNAI m) (wm_Vers m) (wm_Verp m)
  (wm_Cryptosuites m) (wm_Cryptosuitep m) (wm_Dirs m) (wm_Dirp m) (wm_ServerInfo m)
  (wm_PeerInfo m) (wm_PKs m) (wm_PKp m) (wm_Ns m) (wm_Np m) (wm_SleepTime m) (wm_NoobId m)
  (wm_MACs m) (wm_MACp m) (wm_ErrorCode m) (wm_ErrorInfo m) (wm_EAP m).
Definition set_PeerId (v : string) (m : wireMessage) : wireMessage :=
  mkWire (wm_Type m) (wm_PeerState m) v (wm_NAI m) (wm_NewNAI m) (wm_Vers m) (wm_Verp m)
  (wm_Cryptosuites m) (wm_Cryptosuitep m) (wm_Dirs m) (wm_Dirp m) (wm_ServerInfo m)
  (wm_PeerInfo m) (wm_PKs m) (wm_PKp m) (wm_Ns m) (wm_Np m) (wm_SleepTime m) (wm_NoobId m)
  (wm_MACs m) (wm_MACp m) (wm_ErrorCode m) (wm_ErrorInfo m) (wm_EAP m).
Definition set_NAI (v : string) (m : wireMessage) : wireMessage :=
  mkWire (wm_Type m) (wm_PeerState m) (wm_PeerId m) v (wm_NewNAI m) (wm_Vers m) (wm_Verp m)
  (wm_Cryptosuites m) (wm_Cryptosuitep m) (wm_Dirs m) (wm_Dirp m) (wm_ServerInfo m)
  (wm_PeerInfo m) (wm_PKs m) (wm_PKp m) (wm_Ns m) (wm_Np m) (wm_SleepTime m) (wm_NoobId m)
  (wm_MACs m) (wm_MACp m) (wm_ErrorCode m) (wm_ErrorInfo m) (wm_EAP m).
Definition set_NewNAI (v : string) (m : wireMessage) : wireMessage :=
  mkWire (wm_Type m) (wm_PeerState m) (wm_PeerId m) (wm_NAI m) v (wm_Vers m) (wm_Verp m)
  (wm_Cryptosuites m) (wm_Cryptosuitep m) (wm_Dirs m) (wm_Dirp m) (wm_ServerInfo m)
  (wm_PeerInfo m) (wm_PKs m) (wm_PKp m) (wm_Ns m) (wm_Np m) (wm_SleepTime m) (wm_NoobId m)
  (wm_MACs m) (wm_MACp m) (wm_ErrorCode m) (wm_ErrorInfo m) (wm_EAP m).
Definition set_Vers (v : string) (m : wireMessage) : wireMessage :=
  mkWire (wm_Type m) (wm_PeerState m) (wm_PeerId m) (wm_NAI m) (wm_NewNAI m) v (wm_Verp m)
  (wm_Cryptosuites m) (wm_Cryptosuitep m) (wm_Dirs m) (wm_Dirp m) (wm_ServerInfo m)
  (wm_PeerInfo m) (wm_PKs m) (wm_PKp m) (wm_Ns m) (wm_Np m) (wm_SleepTime m) (wm_NoobId m)
  (wm_MACs m) (wm_MACp m) (wm_ErrorCode m) (wm_ErrorInfo m) (wm_EAP m).
Definition set_Verp (v : string) (m : wireMessage) : wireMessage :=
  mkWire (wm_Type m) (wm_PeerState m) (wm_PeerId m) (wm_NAI m) (wm_NewNAI m) (wm_Vers m) v
  (wm_Cryptosuites m) (wm_Cryptosuitep m) (wm_Dirs m) (wm_Dirp m) (wm_ServerInfo m)
  (wm_PeerInfo m) (wm_PKs m) (wm_PKp m) (wm_Ns m) (wm_Np m) (wm_SleepTime m) (wm_NoobId m)
  (wm_MACs m) (wm_MACp m) (wm_ErrorCode m) (wm_ErrorInfo m) (wm_EAP m).
Definition set_Cryptosuites (v : string) (m : wireMessage) : wireMessage :=
  mkWire (wm_Type m) (wm_PeerState m) (wm_PeerId m) (wm_NAI m) (wm_NewNAI m) (wm_Vers m)
  (wm_Verp m) v (wm_Cryptosuitep m) (wm_Dirs m) (wm_Dirp m) (wm_ServerInfo m)
  (wm_PeerInfo m) (wm_PKs m) (wm_PKp m) (wm_Ns m) (wm_Np m) (wm_SleepTime m) (wm_NoobId m)
  (wm_MACs m) (wm_MACp m) (wm_ErrorCode m) (wm_ErrorInfo m) (wm_EAP m).
Definition set_Cryptosuitep (v : string) (m : wireMessage) : wireMessage :=
  mkWire (wm_Type m) (wm_PeerState m) (wm_PeerId m) (wm_NAI m) (wm_NewNAI m) (wm_Vers m)
  (wm_Verp m) (wm_Cryptosuites m) v (wm_Dirs m) (wm_Dirp m) (wm_ServerInfo m)
  (wm_PeerInfo m) (wm_PKs m) (wm_PKp m) (wm_Ns m) (wm_Np m) (wm_SleepTime m) (wm_NoobId m)
  (wm_MACs m) (wm_MACp m) (wm_ErrorCode m) (wm_ErrorInfo m) (wm_EAP m).
Definition set_Dirs (v : string) (m : wireMessage) : wireMessage :=
  mkWire (wm_Type m) (wm_PeerState m) (wm_PeerId m) (wm_NAI m) (wm_NewNAI m) (wm_Vers m)
  (wm_Verp m) (wm_Cryptosuites m) (wm_Cryptosuitep m) v (wm_Dirp m) (wm_ServerInfo m)
  (wm_PeerInfo m) (wm_PKs m) (wm_PKp m) (wm_Ns m) (wm_Np m) (wm_SleepTime m) (wm_NoobId m)
  (wm_MACs m) (wm_MACp m) (wm_ErrorCode m) (wm_ErrorInfo m) (wm_EAP m).
Definition set_Dirp (v : string) (m : wireMessage) : wireMessage :=
  mkWire (wm_Type m) (wm_PeerState m) (wm_PeerId m) (wm_NAI m) (wm_NewNAI m) (wm_Vers m)
  (wm_Verp m) (wm_Cryptosuites m) (wm_Cryptosuitep m) (wm_Dirs m) v (wm_ServerInfo m)
  (wm_PeerInfo m) (wm_PKs m) (wm_PKp m) (wm_Ns m) (wm_Np m) (wm_SleepTime m) (wm_NoobId m)
  (wm_MACs m) (wm_MACp m) (wm_ErrorCode m) (wm_ErrorInfo m) (wm_EAP m).
Definition set_ServerInfo (v : string) (m : wireMessage) : wireMessage :=
  mkWire (wm_Type m) (wm_PeerState m) (wm_PeerId m) (wm_NAI m) (wm_NewNAI m) (wm_Vers m)
  (wm_Verp m) (wm_Cryptosuites m) (wm_Cryptosuitep m) (wm_Dirs m) (wm_Dirp m) v
  (wm_PeerInfo m) (wm_PKs m) (wm_PKp m) (wm_Ns m) (wm_Np m) (wm_SleepTime m) (wm_NoobId m)
  (wm_MACs m) (wm_MACp m) (wm_ErrorCode m) (wm_ErrorInfo m) (wm_EAP m).
Definition set_PeerInfo (v : string) (m : wireMessage) : wireMessage :=
  mkWire (wm_Type m) (wm_PeerState m) (wm_PeerId m) (wm_NAI m) (wm_NewNAI m) (wm_Vers m)
  (wm_Verp m) (wm_Cryptosuites m) (wm_Cryptosuitep m) (wm_Dirs m) (wm_Dirp m)
  (wm_ServerInfo m) v (wm_PKs m) (wm_PKp m) (wm_Ns m) (wm_Np m) (wm_SleepTime m)
  (wm_NoobId m) (wm_MACs m) (wm_MACp m) (wm_ErrorCode m) (wm_ErrorInfo m) (wm_EAP m).
Definition set_PKs (v : string) (m : wireMessage) : wireMessage :=
  mkWire (wm_Type m) (wm_PeerState m) (wm_PeerId m) (wm_NAI m) (wm_NewNAI m) (wm_Vers m)
  (wm_Verp m) (wm_Cryptosuites m) (wm_Cryptosuitep m) (wm_Dirs m) (wm_Dirp m)
  (wm_ServerInfo m) (wm_PeerInfo m) v (wm_PKp m) (wm_Ns m) (wm_Np m) (wm_SleepTime m)
  (wm_NoobId m) (wm_MACs m) (wm_MACp m) (wm_ErrorCode m) (wm_ErrorInfo m) (wm_EAP m).
Definition set_PKp (v : string) (m : wireMessage) : wireMessage :=
  mkWire (wm_Type m) (wm_PeerState m) (wm_PeerId m) (wm_NAI m) (wm_NewNAI m) (wm_Vers m)
  (wm_Verp m) (wm_Cryptosuites m) (wm_Cryptosuitep m) (wm_Dirs m) (wm_Dirp m)
  (wm_ServerInfo m) (wm_PeerInfo m) (wm_PKs m) v (wm_Ns m) (wm_Np m) (wm_SleepTime m)
  (wm_NoobId m) (wm_MACs m) (wm_MACp m) (wm_ErrorCode m) (wm_ErrorInfo m) (wm_EAP m).
Definition set_Ns (v : string) (m : wireMessage) : wireMessage :=
  mkWire (wm_Type m) (wm_PeerState m) (wm_PeerId m) (wm_NAI m) (wm_NewNAI m) (wm_Vers m)
  (wm_Verp m) (wm_Cryptosuites m) (wm_Cryptosuitep m) (wm_Dirs m) (wm_Dirp m)
  (wm_ServerInfo m) (wm_PeerInfo m) (wm_PKs m) (wm_PKp m) v (wm_Np m) (wm_SleepTime m)
  (wm_NoobId m) (wm_MACs m) (wm_MACp m) (wm_ErrorCode m) (wm_ErrorInfo m) (wm_EAP m).
Definition set_Np (v : string) (m : wireMessage) : wireMessage :=
  mkWire (wm_Type m) (wm_PeerState m) (wm_PeerId m) (wm_NAI m) (wm_NewNAI m) (wm_Vers m)
  (wm_Verp m) (wm_Cryptosuites m) (wm_Cryptosuitep m) (wm_Dirs m) (wm_Dirp m)
  (wm_ServerInfo m) (wm_PeerInfo m) (wm_PKs m) (wm_PKp m) (wm_Ns m) v (wm_SleepTime m)
  (wm_NoobId m) (wm_MACs m) (wm_MACp m) (wm_ErrorCode m) (wm_ErrorInfo m) (wm_EAP m).
Definition set_SleepTime (v : option Z) (m : wireMessage) : wireMessage :=
  mkWire (wm_Type m) (wm_PeerState m) (wm_PeerId m) (wm_NAI m) (wm_NewNAI m) (wm_Vers m)
  (wm_Verp m) (wm_Cryptosuites m) (wm_Cryptosuitep m) (wm_Dirs m) (wm_Dirp m)
  (wm_ServerInfo m) (wm_PeerInfo m) (wm_PKs m) (wm_PKp m) (wm_Ns m) (wm_Np m) v
  (wm_NoobId m) (wm_MACs m) (wm_MACp m) (wm_ErrorCode m) (wm_ErrorInfo m) (wm_EAP m).
Definition set_NoobId (v : string) (m : wireMessage) : wireMessage :=
  mkWire (wm_Type m) (wm_PeerState m) (wm_PeerId m) (wm_NAI m) (wm_NewNAI m) (wm_Vers m)
  (wm_Verp m) (wm_Cryptosuites m) (wm_Cryptosuitep m) (wm_Dirs m) (wm_Dirp m)
  (wm_ServerInfo m) (wm_PeerInfo m) (wm_PKs m) (wm_PKp m) (wm_Ns m) (wm_Np m)
  (wm_SleepTime m) v (wm_MACs m) (wm_MACp m) (wm_ErrorCode m) (wm_ErrorInfo m) (wm_EAP m).
Definition set_MACs (v : string) (m : wireMessage) : wireMessage :=
  mkWire (wm_Type m) (wm_PeerState m) (wm_PeerId m) (wm_NAI m) (wm_NewNAI m) (wm_Vers m)
  (wm_Verp m) (wm_Cryptosuites m) (wm_Cryptosuitep m) (wm_Dirs m) (wm_Dirp m)
  (wm_ServerInfo m) (wm_PeerInfo m) (wm_PKs m) (wm_PKp m) (wm_Ns m) (wm_Np m)
  (wm_SleepTime m) (wm_NoobId m) v (wm_MACp m) (wm_ErrorCode m) (wm_ErrorInfo m) (wm_EAP m).
Definition set_MACp (v : string) (m : wireMessage) : wireMessage :=
  mkWire (wm_Type m) (wm_PeerState m) (wm_PeerId m) (wm_NAI m) (wm_NewNAI m) (wm_Vers m)
  (wm_Verp m) (wm_Cryptosuites m) (wm_Cryptosuitep m) (wm_Dirs m) (wm_Dirp m)
  (wm_ServerInfo m) (wm_PeerInfo m) (wm_PKs m) (wm_PKp m) (wm_Ns m) (wm_Np m)
  (wm_SleepTime m) (wm_NoobId m) (wm_MACs m) v (wm_ErrorCode m) (wm_ErrorInfo m) (wm_EAP m).
End Wire.
Import Wire.

(** ** Writing *)

(** [None] is a field that [omitempty] leaves out; the outer [None] an encoding error. *)
Definition int_member (o : option Z) : option (option string) := Some (Itoa <$> o).
Definition string_member (s : string) : option (option string) := Some (if bool_decide (s = "") then None else Some (quote s)).
Definition raw_member (x : string) : option (option string) := if bool_decide (x = "") then Some None else Some <$> compact x.

Definition wire_fields (m : wireMessage) : list (string * option (option string)) :=
  [("Type", int_member (wm_Type m)); ("PeerState", int_member (wm_PeerState m));
   ("PeerId", raw_member (wm_PeerId m)); ("NAI", raw_member (wm_NAI m));
   ("NewNAI", raw_member (wm_NewNAI m)); ("Vers", raw_member (wm_Vers m));
   ("Verp", raw_member (wm_Verp m)); ("Cryptosuites", raw_member (wm_Cryptosuites m));
   ("Cryptosuitep", raw_member (wm_Cryptosuitep m)); ("Dirs", raw_member (wm_Dirs m));
   ("Dirp", raw_member (wm_Dirp m)); ("ServerInfo", raw_member (wm_ServerInfo m));
   ("PeerInfo", raw_member (wm_PeerInfo m)); ("PKs", raw_member (wm_PKs m));
   ("PKp", raw_member (wm_PKp m)); ("Ns", raw_member (wm_Ns m));
   ("Np", raw_member (wm_Np m)); ("SleepTime", int_member (wm_SleepTime m));
   ("NoobId", raw_member (wm_NoobId m)); ("MACs", raw_member (wm_MACs m));
   ("MACp", raw_member (wm_MACp m)); ("ErrorCode", int_member (wm_ErrorCode m));
   ("ErrorInfo", string_member (wm_ErrorInfo m)); ("eap", string_member (wm_EAP m))].

Definition marshal (m : wireMessage) : option string :=
  l ← mapM (fun p => (fun o => (p.1, o)) <$> p.2) (wire_fields m);
  Some (write_object (encode l)).

(** ** Reading *)

(** Values for the fields that are decoded, texts for the raw ones. *)
Definition typed (l : list (string * string * json)) : Json.members := (fun m => (m.1.1, m.2)) <$> l.
Definition texts (l : list (string * string * json)) : list (string * string) := (fun m => m.1) <$> l.
Definition raw_field (name : string) (l : list (string * string)) : string := default "" (field (fun _ x => Some x) name l "").

Definition decode (b : string) : option wireMessage :=
  match parse_object b with
  | None => None
  | Some l =>
    let t := typed l in
    let r name := raw_field name (texts l) in
    wm_Type ← field (dec_ptr dec_int64 0) "Type" t None;
    wm_PeerState ← field (dec_ptr dec_int64 0) "PeerState" t None;
    wm_SleepTime ← field (dec_ptr dec_int64 0) "SleepTime" t None;
    wm_ErrorCode ← field (dec_ptr dec_int64 0) "ErrorCode" t None;
    wm_ErrorInfo ← field dec_string "ErrorInfo" t "";
    wm_EAP ← field dec_string "eap" t "";
    Some (mkWire wm_Type wm_PeerState (r "PeerId") (r "NAI") (r "NewNAI") (r "Vers") (r "Verp")
      (r "Cryptosuites") (r "Cryptosuitep") (r "Dirs") (r "Dirp") (r "ServerInfo")
      (r "PeerInfo") (r "PKs") (r "PKp") (r "Ns") (r "Np") wm_SleepTime (r "NoobId")
      (r "MACs") (r "MACp") wm_ErrorCode wm_ErrorInfo wm_EAP)
  end.

Definition encode_wire (m : wireMessage) : option (string * wireMessage) :=
  b ← marshal m; parsed ← decode b; Some (b, parsed).

(** [json.Marshal] of a string, an int and a slice of ints. *)
Definition rawString (s : string) : string := quote s.
Definition rawInt (i : Z) : string := Itoa i.
Definition rawIntSlice (v : list Z) : string := write_int_array v.

Definition resultBytes (kind : string) : string := write_object [("eap", quote kind)].

(** ** Values of raw fields (eapnoob.go) *)

Definition rawToInt (r : string) : option Z := v ← parse r; dec_int64 0 v.
(** A [null] element leaves zero. *)
Definition rawToIntSlice (r : string) : option (list Z) :=
  v ← parse r;
  match v with JNull => Some [] | JArr l => mapM (dec_int64 0) l | _ => None end.
Definition rawToString (r : string) : option string := v ← parse r; dec_string "" v.

Record JWK : Type := mkJWK { jwk_Kty : string; jwk_Crv : string; jwk_X : string; jwk_Y : string }.

Definition rawToJWK (r : string) : option JWK :=
  v ← parse r;
  dec_struct (fun l j =>
    kty ← field dec_string "kty" l (jwk_Kty j); crv ← field dec_string "crv" l (jwk_Crv j);
    x ← field dec_string "x" l (jwk_X j); y ← field dec_string "y" l (jwk_Y j);
    Some (mkJWK kty crv x y)) (mkJWK "" "" "" "") v.

(** [y] is omitted when empty. *)
Definition jwkRaw (j : JWK) : string :=
  write_object ([("kty", quote (jwk_Kty j)); ("crv", quote (jwk_Crv j)); ("x", quote (jwk_X j))] ++
                if bool_decide (jwk_Y j = "") then [] else [("y", quote (jwk_Y j))]).

(** * Helpers (helpers.go) *)

Definition containsInt (s : list Z) (v : Z) : bool := existsb (Z.eqb v) s.

(** The configured object is nil or what [json.Marshal] makes of it, which may fail. *)
Definition marshalInfo (m : option (option string)) : string :=
  match m with
  | None => "{}"
  | Some None => "{}"
  | Some (Some b) => if bool_decide (b = "") then "{}" else b
  end.

Definition ensureRaw (r : string) : string := if bool_decide (r = "") then "{}" else r.

Definition decode_sized (n : nat) (r : string) : option string :=
  s ← rawToString r; b ← b64Decode s;
  if bool_decide (slen b = n) then Some b else None.
Definition decodeNoobID : string -> option string := decode_sized 16.
Definition decodeMAC : string -> option string := decode_sized 32.

(** * Errors (errors.go) *)

Record ProtocolError : Type := mkProtocolError { pe_Code : Z; pe_Info : string }.

Definition errorMessage (code : Z) (info : string) : option string :=
  fst <$> encode_wire (mkWire (Some typeError) None "" "" "" "" "" "" "" "" "" "" "" "" "" "" "" None "" "" "" (Some code) info "").

(** * The authenticated arrays (mac.go) *)

Record macInputs : Type := mkMacInputs {
  in_Vers : string; in_Verp : string; in_PeerId : string; in_Cryptosuites : string; in_Dirs : string;
  in_ServerInfo : string; in_Cryptosuitep : string; in_Dirp : string; in_NAI : string;
  in_PeerInfo : string; in_PKs : string; in_Ns : string; in_PKp : string; in_Np : string; in_Noob : string
}.

Definition macInputs0 : macInputs := mkMacInputs "" "" "" "" "" "" "" "" "" "" "" "" "" "" "".

(** An absent element is written as an empty JSON string. *)
Definition element (e : string) : string := if bool_decide (e = "") then String dq (String dq "") else e.

Fixpoint array_tail (l : list string) : string :=
  match l with
  | [] => "]"
  | e :: l' => String "," (element e +:+ array_tail l')
  end.

Definition jsonArray (elems : list string) : string :=
  match elems with
  | [] => "[]"
  | e :: l => String "[" (element e +:+ array_tail l)
  end.

Definition noobArray (lead : string) (i : macInputs) : string :=
  jsonArray [lead; in_Vers i; in_Verp i; in_PeerId i; in_Cryptosuites i; in_Dirs i; in_ServerInfo i;
             in_Cryptosuitep i; in_Dirp i; in_NAI i; in_PeerInfo i; rawInt 0; in_PKs i; in_Ns i;
             in_PKp i; in_Np i; in_Noob i].

Section Digests.
Context {sha : Sha256}.

(** The direction of the array decides between fingerprint and codes. *)
Definition computeHoob (dir : Z) (i : macInputs) : string := str_take 16 (sha256 (noobArray (rawInt dir) i)).
Definition computeNoobID (noobB64 : string) : string := str_take 16 (sha256 (jsonArray [rawString "NoobId"; noobB64])).
Definition computeMAC (key : string) (lead : Z) (i : macInputs) : string := str_take 32 (hmac key (noobArray (rawInt lead) i)).
End Digests.

(** * Facts: texts that travel unchanged *)

(** A compact text within the nesting limit of a message. *)
Definition text_ok (x : string) : Prop := compact x = Some x /\ exists f v, reads f (maxNestingDepth - 1) v x.

(** The value of a text. *)
Definition val (x : string) : json := default JNull (parse x).

Lemma val_reads f d v x : reads f d v x -> d <= maxNestingDepth -> val x = v.
Proof. intros H Hd. unfold val. by rewrite (parse_text f d v x). Qed.

Lemma compact_solid f d v x : reads f d v x -> d <= maxNestingDepth -> plain x = true -> solid x -> compact x = Some x.
Proof.
  intros H Hd Hp Hs. unfold compact. rewrite (parse_text f d v x), html_escape_plain by done.
  specialize (Hs ""). rewrite app_nil_str in Hs. cbn in Hs. by rewrite Hs, app_nil_str.
Qed.

Lemma text_ok_intro f v x : reads f (maxNestingDepth - 1) v x -> plain x = true -> solid x -> text_ok x.
Proof. intros H Hp Hs. split; [by eapply compact_solid | by eexists _, _]. Qed.

Lemma text_ok_nonempty x : text_ok x -> x <> "".
Proof. intros (_ & f & v & (c & p & -> & _) & _). done. Qed.

Lemma text_ok_quote s : ascii_text s -> text_ok (quote s).
Proof. intros Hs. eapply (text_ok_intro 1); [apply reads_ascii; [lia | done] | by apply plain_quote | by apply solid_quote]. Qed.

(** Integers are made of digits and a sign. *)
Definition int_char (c : ascii) : bool := is_digit c || (c =?c "-").
Fixpoint all_chars (P : ascii -> bool) (s : string) : bool :=
  match s with "" => true | String c s => P c && all_chars P s end.

Lemma all_chars_app P a b : all_chars P (a +:+ b) = all_chars P a && all_chars P b.
Proof. induction a as [|c a IH]; [done |]. rewrite local_cons. cbn. by rewrite IH, andb_assoc. Qed.

Lemma int_char_quiet c : int_char c = true ->
  is_ws c = false /\ (c =?c dq) = false /\ (byte c <? 128) && negb ((c =?c "<") || (c =?c ">") || (c =?c "&")) = true.
Proof. destruct c as [[] [] [] [] [] [] [] []]; vm_compute; try done; discriminate. Qed.

Lemma int_chars_quiet s : all_chars int_char s = true -> plain s = true /\ solid s.
Proof.
  induction s as [|c s IH]; [by split |]. cbn [all_chars]. intros [Hc Hs]%andb_prop.
  destruct (int_char_quiet c Hc) as (H1 & H2 & H3), (IH Hs) as [Hp Hso]. split; [cbn [plain]; by rewrite H3 | by apply solid_cons].
Qed.

Lemma Itoa_chars z : all_chars int_char (Itoa z) = true.
Proof.
  destruct (Itoa_uint z) as (d & _ & _ & _ & ->). rewrite all_chars_app.
  assert (forall d, all_chars int_char (DecimalString.NilEmpty.string_of_uint d) = true) as Hd by (clear; intros d; by induction d).
  destruct (z <? 0); cbn; destruct d; try done; apply (Hd _).
Qed.

Lemma text_ok_Itoa z : text_ok (Itoa z).
Proof. destruct (int_chars_quiet _ (Itoa_chars z)). eapply (text_ok_intro 1); [apply reads_Itoa; lia | done | done]. Qed.

Lemma text_ok_ints l : text_ok (write_int_array l).
Proof.
  destruct (reads_int_array l) as [f Hf].
  assert (plain (write_ints l) = true /\ solid (write_ints l)) as [Hp Hs].
  { clear Hf. induction l as [|z l [IHp IHs]]; [split; [done | by apply solid_char] |]. destruct (int_chars_quiet _ (Itoa_chars z)) as [Hz Hzs].
    destruct l as [|z' l].
    - cbn [write_ints]. rewrite plain_app, Hz. split; [done |]. apply solid_app; [done | by apply solid_char].
    - change (write_ints (z :: z' :: l)) with (Itoa z +:+ String "," (write_ints (z' :: l))). rewrite plain_app, Hz. cbn [plain]. rewrite IHp.
      split; [done |]. apply solid_app; [done |]. by apply solid_cons. }
  eapply (text_ok_intro f); [by apply Hf | exact Hp |]. unfold write_int_array. by apply solid_cons.
Qed.

(** * Facts: the round trip of a message *)

Definition raw_ok (x : string) : Prop := x = "" \/ text_ok x.
Definition int_ok (o : option Z) : Prop := forall z, o = Some z -> in_int64 z.

Record wire_ok (m : wireMessage) : Prop := mkWireOk {
  ok_raws : Forall raw_ok [wm_PeerId m; wm_NAI m; wm_NewNAI m; wm_Vers m; wm_Verp m; wm_Cryptosuites m; wm_Cryptosuitep m;
    wm_Dirs m; wm_Dirp m; wm_ServerInfo m; wm_PeerInfo m; wm_PKs m; wm_PKp m; wm_Ns m; wm_Np m; wm_NoobId m; wm_MACs m; wm_MACp m];
  ok_ints : Forall int_ok [wm_Type m; wm_PeerState m; wm_SleepTime m; wm_ErrorCode m];
  ok_strings : Forall ascii_text [wm_ErrorInfo m; wm_EAP m]
}.

(** The texts of the members of a well-formed message. *)
Definition opt_text (x : string) : option string := if bool_decide (x = "") then None else Some x.
Definition opt_quote (s : string) : option string := if bool_decide (s = "") then None else Some (quote s).

Lemma raw_member_ok x : raw_ok x -> raw_member x = Some (opt_text x).
Proof. unfold raw_member, opt_text. intros [-> | [Hc _]]; [done |]. case_bool_decide; [done |]. by rewrite Hc. Qed.

(** Members whose values are those of their texts. *)
Definition valued (l : list (string * string)) : list (string * string * json) := (fun p => (p.1, p.2, val p.2)) <$> l.

(** The entries with the values of their texts. *)
Definition values (l : list (string * option string)) : list (string * option json) :=
  (fun p : string * option string => (p.1, val <$> p.2)) <$> l.

Lemma typed_valued (l : list (string * option string)) :
  typed (valued (encode l)) = encode (values l).
Proof. unfold typed, valued, encode. induction l as [|[k [x|]] l IH]; cbn; [done | | done]. f_equal. exact IH. Qed.

Lemma texts_valued l : texts (valued l) = l.
Proof. unfold texts, valued. induction l as [|[k x] l IH]; cbn; [done |]. f_equal. exact IH. Qed.

Section Readback.
Context (es : list (string * option string)).
Hypothesis (Hnames : NoDup (fold_case <$> es.*1)).

Lemma readback_raw name x : (name, opt_text x) ∈ es -> raw_field name (encode es) = x.
Proof.
  intros Hin. unfold raw_field. rewrite (encode_field _ name es _ _ Hnames Hin). unfold opt_text. by case_bool_decide; subst.
Qed.

Lemma typed_names : NoDup (fold_case <$> (values es).*1).
Proof. assert ((values es).*1 = es.*1) as ->; [| done]. unfold values. by rewrite <- (list_fmap_compose _ fst). Qed.

Lemma readback_int name o : int_ok o -> (name, Itoa <$> o) ∈ es ->
  field (dec_ptr dec_int64 0) name (encode (values es)) None = Some o.
Proof.
  intros Ho Hin. apply (list_elem_of_fmap_2 (fun p : string * option string => (p.1, val <$> p.2))) in Hin. fold (values es) in Hin. cbn in Hin.
  rewrite (encode_field _ name _ _ _ typed_names Hin). destruct o as [z|]; [| done]. cbn.
  rewrite (val_reads 1 0 (JInt z)); [| apply reads_Itoa; lia | done]. cbn. rewrite bool_decide_true; [done |]. by apply Ho.
Qed.

Lemma readback_string name s : ascii_text s -> (name, opt_quote s) ∈ es ->
  field dec_string name (encode (values es)) "" = Some s.
Proof.
  intros Hs Hin. apply (list_elem_of_fmap_2 (fun p : string * option string => (p.1, val <$> p.2))) in Hin. fold (values es) in Hin. cbn in Hin.
  rewrite (encode_field _ name _ _ _ typed_names Hin). unfold opt_quote. case_bool_decide as E; cbn; [by rewrite E |].
  by rewrite (val_reads 1 0 (JStr s)); [| apply reads_ascii; [lia | done] | done].
Qed.
End Readback.

Lemma ascii_check s : all_chars (fun c => byte c <? 128) s = true -> ascii_text s.
Proof.
  induction s as [|c s IH]; [by intros _ i d |]. cbn [all_chars]. intros [Hc Hs]%andb_prop. apply ascii_text_cons.
  split; [by apply Z.ltb_lt | by apply IH].
Qed.

(** What a well-formed message is written as. *)
Definition wire_texts (m : wireMessage) : list (string * option string) :=
  [("Type", Itoa <$> wm_Type m); ("PeerState", Itoa <$> wm_PeerState m);
   ("PeerId", opt_text (wm_PeerId m)); ("NAI", opt_text (wm_NAI m));
   ("NewNAI", opt_text (wm_NewNAI m)); ("Vers", opt_text (wm_Vers m));
   ("Verp", opt_text (wm_Verp m)); ("Cryptosuites", opt_text (wm_Cryptosuites m));
   ("Cryptosuitep", opt_text (wm_Cryptosuitep m)); ("Dirs", opt_text (wm_Dirs m));
   ("Dirp", opt_text (wm_Dirp m)); ("ServerInfo", opt_text (wm_ServerInfo m));
   ("PeerInfo", opt_text (wm_PeerInfo m)); ("PKs", opt_text (wm_PKs m));
   ("PKp", opt_text (wm_PKp m)); ("Ns", opt_text (wm_Ns m)); ("Np", opt_text (wm_Np m));
   ("SleepTime", Itoa <$> wm_SleepTime m); ("NoobId", opt_text (wm_NoobId m));
   ("MACs", opt_text (wm_MACs m)); ("MACp", opt_text (wm_MACp m));
   ("ErrorCode", Itoa <$> wm_ErrorCode m); ("ErrorInfo", opt_quote (wm_ErrorInfo m));
   ("eap", opt_quote (wm_EAP m))].

Lemma wire_fields_texts m : wire_ok m ->
  mapM (fun p => (fun o => (p.1, o)) <$> p.2) (wire_fields m) = Some (wire_texts m).
Proof.
  intros [Hr _ _]. apply mapM_Some. unfold wire_fields, wire_texts.
  repeat match goal with H : Forall _ (_ :: _) |- _ => apply Forall_cons in H as [? H] end.
  repeat (apply Forall2_cons; split; [cbn; rewrite ?raw_member_ok by done; reflexivity |]). constructor.
Qed.

(** Every text of a well-formed message reads. *)
Lemma wire_texts_read m : wire_ok m ->
  Forall (fun p => ascii_text p.1 /\ forall x, p.2 = Some x -> exists f, reads f (maxNestingDepth - 1) (val x) x) (wire_texts m).
Proof.
  intros [Hr Hi Hs].
  assert (forall o x, Itoa <$> o = Some x -> exists f, reads f (maxNestingDepth - 1) (val x) x) as Hint.
  { intros [z|] x; [| done]. intros [= <-]. exists 1%nat. rewrite (val_reads 1 0 (JInt z)); [apply reads_Itoa; lia | apply reads_Itoa; lia | done]. }
  assert (forall y, raw_ok y -> forall x, opt_text y = Some x -> exists f, reads f (maxNestingDepth - 1) (val x) x) as Hraw.
  { intros y [-> | (_ & f & v & Hv)] x; [done |]. unfold opt_text. case_bool_decide; [done |]. intros [= <-].
    exists f. by rewrite (val_reads _ _ _ _ Hv). }
  assert (forall s, ascii_text s -> forall x, opt_quote s = Some x -> exists f, reads f (maxNestingDepth - 1) (val x) x) as Hstr.
  { intros s Ha x. unfold opt_quote. case_bool_decide; [done |]. intros [= <-]. exists 1%nat.
    rewrite (val_reads 1 0 (JStr s)); [apply reads_ascii; [lia | done] | apply reads_ascii; [lia | done] | done]. }
  repeat match goal with H : Forall _ (_ :: _) |- _ => apply Forall_cons in H as [? H] end.
  unfold wire_texts. repeat (apply Forall_cons; split; [split; [by apply ascii_check | cbn; eauto] |]). constructor.
Qed.

Lemma parse_written (es : list (string * option string)) :
  Forall (fun p => ascii_text p.1 /\ forall x, p.2 = Some x -> exists f, reads f (maxNestingDepth - 1) (val x) x) es ->
  parse_object (write_object (encode es)) = Some (valued (encode es)).
Proof.
  intros Hr. rewrite Forall_forall in Hr. generalize (texts_valued (encode es)). unfold texts. intros Hl.
  rewrite <- Hl at 1. apply parse_object_write. unfold valued. apply Forall_fmap, Forall_forall. intros [k x] Hin.
  unfold encode in Hin. apply list_elem_of_omap in Hin as ([k' [x'|]] & Hin & E); [| done]. cbn in E. injection E as <- <-.
  destruct (Hr _ Hin) as [Hk Hx]. split; [exact Hk | exact (Hx _ eq_refl)].
Qed.

Definition wire_keys : list string :=
  ["Type"; "PeerState"; "PeerId"; "NAI"; "NewNAI"; "Vers"; "Verp"; "Cryptosuites"; "Cryptosuitep"; "Dirs"; "Dirp"; "ServerInfo"; "PeerInfo";
   "PKs"; "PKp"; "Ns"; "Np"; "SleepTime"; "NoobId"; "MACs"; "MACp"; "ErrorCode"; "ErrorInfo"; "eap"].

(** No two field names differ in case only. *)
Lemma wire_names m : NoDup (fold_case <$> (wire_texts m).*1).
Proof.
  change ((wire_texts m).*1) with wire_keys. apply (bool_decide_eq_true_1 _). vm_compute. reflexivity.
Qed.

(** Reading what was written gives the message back, field by field and byte by byte. *)
Lemma decode_marshal m : wire_ok m -> exists b, marshal m = Some b /\ decode b = Some m.
Proof.
  intros Hm. exists (write_object (encode (wire_texts m))). split; [unfold marshal; by rewrite wire_fields_texts |].
  assert (at_index : forall i p, wire_texts m !! i = Some p -> p ∈ wire_texts m) by (intros i p; apply list_elem_of_lookup_2).
  unfold decode. rewrite parse_written, typed_valued, texts_valued by (by apply wire_texts_read). pose proof (wire_names m) as Hn.
  destruct Hm as [Hr Hi Hs]. repeat match goal with H : Forall _ (_ :: _) |- _ => apply Forall_cons in H as [? H] end.
  rewrite (readback_int _ Hn "Type" (wm_Type m)) by (assumption || exact (at_index 0%nat _ eq_refl)).
  rewrite (readback_int _ Hn "PeerState" (wm_PeerState m)) by (assumption || exact (at_index 1%nat _ eq_refl)).
  rewrite (readback_int _ Hn "SleepTime" (wm_SleepTime m)) by (assumption || exact (at_index 17%nat _ eq_refl)).
  rewrite (readback_int _ Hn "ErrorCode" (wm_ErrorCode m)) by (assumption || exact (at_index 21%nat _ eq_refl)).
  rewrite (readback_string _ Hn "ErrorInfo" (wm_ErrorInfo m)) by (assumption || exact (at_index 22%nat _ eq_refl)).
  rewrite (readback_string _ Hn "eap" (wm_EAP m)) by (assumption || exact (at_index 23%nat _ eq_refl)).
  rewrite (readback_raw _ Hn "PeerId" (wm_PeerId m)) by (assumption || exact (at_index 2%nat _ eq_refl)).
  rewrite (readback_raw _ Hn "NAI" (wm_NAI m)) by (assumption || exact (at_index 3%nat _ eq_refl)).
  rewrite (readback_raw _ Hn "NewNAI" (wm_NewNAI m)) by (assumption || exact (at_index 4%nat _ eq_refl)).
  rewrite (readback_raw _ Hn "Vers" (wm_Vers m)) by (assumption || exact (at_index 5%nat _ eq_refl)).
  rewrite (readback_raw _ Hn "Verp" (wm_Verp m)) by (assumption || exact (at_index 6%nat _ eq_refl)).
  rewrite (readback_raw _ Hn "Cryptosuites" (wm_Cryptosuites m)) by (assumption || exact (at_index 7%nat _ eq_refl)).
  rewrite (readback_raw _ Hn "Cryptosuitep" (wm_Cryptosuitep m)) by (assumption || exact (at_index 8%nat _ eq_refl)).
  rewrite (readback_raw _ Hn "Dirs" (wm_Dirs m)) by (assumption || exact (at_index 9%nat _ eq_refl)).
  rewrite (readback_raw _ Hn "Dirp" (wm_Dirp m)) by (assumption || exact (at_index 10%nat _ eq_refl)).
  rewrite (readback_raw _ Hn "ServerInfo" (wm_ServerInfo m)) by (assumption || exact (at_index 11%nat _ eq_refl)).
  rewrite (readback_raw _ Hn "PeerInfo" (wm_PeerInfo m)) by (assumption || exact (at_index 12%nat _ eq_refl)).
  rewrite (readback_raw _ Hn "PKs" (wm_PKs m)) by (assumption || exact (at_index 13%nat _ eq_refl)).
  rewrite (readback_raw _ Hn "PKp" (wm_PKp m)) by (assumption || exact (at_index 14%nat _ eq_refl)).
  rewrite (readback_raw _ Hn "Ns" (wm_Ns m)) by (assumption || exact (at_index 15%nat _ eq_refl)).
  rewrite (readback_raw _ Hn "Np" (wm_Np m)) by (assumption || exact (at_index 16%nat _ eq_refl)).
  rewrite (readback_raw _ Hn "NoobId" (wm_NoobId m)) by (assumption || exact (at_index 18%nat _ eq_refl)).
  rewrite (readback_raw _ Hn "MACs" (wm_MACs m)) by (assumption || exact (at_index 19%nat _ eq_refl)).
  rewrite (readback_raw _ Hn "MACp" (wm_MACp m)) by (assumption || exact (at_index 20%nat _ eq_refl)).
  by destruct m.
Qed.

(** ** Values *)

Lemma rawToString_quote s : ascii_text s -> rawToString (quote s) = Some s.
Proof. intros Hs. unfold rawToString. by rewrite (parse_text 1 0 (JStr s)) by first [done | apply reads_ascii; [lia | done]]. Qed.

Lemma rawToInt_Itoa z : in_int64 z -> rawToInt (Itoa z) = Some z.
Proof.
  intros Hz. unfold rawToInt. rewrite (parse_text 1 0 (JInt z)) by first [done | apply reads_Itoa; lia]. cbn.
  by rewrite bool_decide_true.
Qed.

Lemma rawToIntSlice_ints l : Forall in_int64 l -> rawToIntSlice (write_int_array l) = Some l.
Proof.
  intros Hl. unfold rawToIntSlice. destruct (reads_int_array l) as [f Hf]. rewrite (parse_text f 1 (JArr (JInt <$> l))) by first [done | by apply Hf].
  cbn [mbind option_bind]. apply mapM_Some, Forall2_fmap_l, Forall_Forall2_diag.
  eapply Forall_impl; [exact Hl |]. intros z Hz. cbn. by rewrite bool_decide_true.
Qed.

Lemma reads_object d l : 0 < d -> l <> [] -> Forall (readable (d - 1)) l ->
  exists f, reads f d (JObj ((fun m => (m.1.1, m.2)) <$> l)) (write_object l.*1).
Proof.
  intros Hd Hne Hl.
  assert (exists f, forall t, members f (d - 1) (write_members l.*1 +:+ t) = Some (l, t)) as [f Hf].
  { destruct (members_write (d - 1) l "" Hne Hl) as [f Hf]. exists f. intros t. rewrite app_nil_str in Hf.
    destruct (local_all f) as (_ & _ & Hm). destruct (Hm _ _ _ _ Hf) as (x & Hx & Ht & _). rewrite app_nil_str in Hx. rewrite Hx. apply Ht. }
  exists (S f). split; [by eexists _, _ |]. intros t _. unfold write_object. rewrite local_cons. cbn [value].
  change ("{" =?c "{") with true. cbv iota. rewrite (proj2 (Z.leb_gt d 0)) by done.
  destruct (members_first _ _ _ _ _ (Hf t)) as (c & y & -> & ->). by rewrite Hf.
Qed.

Definition jwk_ascii (j : JWK) : Prop := Forall ascii_text [jwk_Kty j; jwk_Crv j; jwk_X j; jwk_Y j].

Definition jwk_members (j : JWK) : list (string * string * json) :=
  [("kty", quote (jwk_Kty j), JStr (jwk_Kty j)); ("crv", quote (jwk_Crv j), JStr (jwk_Crv j)); ("x", quote (jwk_X j), JStr (jwk_X j))] ++
  if bool_decide (jwk_Y j = "") then [] else [("y", quote (jwk_Y j), JStr (jwk_Y j))].

Lemma jwkRaw_members j : jwkRaw j = write_object (jwk_members j).*1.
Proof. unfold jwkRaw, jwk_members. by case_bool_decide. Qed.

Lemma reads_jwk j : jwk_ascii j -> exists f, reads f (maxNestingDepth - 1) (JObj ((fun m => (m.1.1, m.2)) <$> jwk_members j)) (jwkRaw j).
Proof.
  intros Hj. rewrite jwkRaw_members. apply reads_object; [done | done |]. unfold jwk_ascii in Hj.
  repeat match goal with H : Forall _ (_ :: _) |- _ => apply Forall_cons in H as [? H] end.
  unfold jwk_members. apply Forall_app. split; [| case_bool_decide; [constructor |]];
    repeat (apply Forall_cons; split; [split; [by apply ascii_check | exists 1%nat; by apply reads_ascii; [lia |]] |]); constructor.
Qed.

Lemma rawToJWK_jwkRaw j : jwk_ascii j -> rawToJWK (jwkRaw j) = Some j.
Proof.
  intros Hj. destruct (reads_jwk j Hj) as [f Hf]. unfold rawToJWK. rewrite (parse_text _ _ _ _ Hf) by done.
  destruct j as [kty crv x y]. cbn -[jwk_members]. unfold jwk_members. cbn [jwk_Kty jwk_Crv jwk_X jwk_Y].
  by case_bool_decide; subst.
Qed.

Lemma write_members_quiet l : Forall (fun p => ascii_text p.1 /\ plain p.2 = true /\ solid p.2) l ->
  plain (write_members l) = true /\ solid (write_members l).
Proof.
  induction 1 as [|[k x] l (Hk & Hp & Hs) _ [IHp IHs]]; [split; [done | by apply solid_char] |]. cbn in Hk, Hp, Hs.
  rewrite write_members_cons.
  assert (plain (match l with [] => "}" | _ => String "," (write_members l) end) = true /\
          solid (match l with [] => "}" | _ => String "," (write_members l) end)) as [Htp Hts].
  { destruct l; [split; [done | by apply solid_char] |]. split; [exact IHp | by apply solid_cons]. }
  rewrite plain_app, (plain_quote k) by done. cbn [plain]. rewrite plain_app, Hp, Htp. split; [done |].
  apply solid_app; [by apply solid_quote |]. apply solid_cons; [done | done |]. by apply solid_app.
Qed.

Lemma text_ok_jwk j : jwk_ascii j -> text_ok (jwkRaw j).
Proof.
  intros Hj. destruct (reads_jwk j Hj) as [f Hf].
  assert (plain (jwkRaw j) = true /\ solid (jwkRaw j)) as [Hp Hs]; [| by eapply text_ok_intro].
  unfold jwkRaw, write_object. match goal with |- context [write_members ?l] => destruct (write_members_quiet l) as [Hp Hs] end.
  - unfold jwk_ascii in Hj. repeat match goal with H : Forall _ (_ :: _) |- _ => apply Forall_cons in H as [? H] end.
    apply Forall_app. split; [| case_bool_decide; [constructor |]];
      repeat (apply Forall_cons; split; [split_and!; [by apply ascii_check | by apply plain_quote | by apply solid_quote] |]); constructor.
  - split; [exact Hp | by apply solid_cons].
Qed.

(** Base64 is plain text. *)
Lemma b64_digit_ascii z : 0 <= z < 64 -> byte (b64_digit z) < 128.
Proof.
  intros H. assert (forallb (fun z => byte (b64_digit z) <? 128) (seqZ 0 64) = true) as Hall by (vm_compute; reflexivity).
  rewrite forallb_forall in Hall. apply Z.ltb_lt, Hall, list_elem_of_In, elem_of_seqZ. lia.
Qed.

Lemma b64Encode_ascii s : ascii_text (b64Encode s).
Proof.
  induction s as [|a|a b|a b c s IH] using string_ind3; [by intros i d | ..]; cbn [b64Encode];
    repeat (apply ascii_text_cons; split; [apply b64_digit_ascii; byte_arith |]); try done; by intros i d.
Qed.

Lemma b64Encode_nonempty s : s <> "" -> b64Encode s <> "".
Proof. intros H E. apply H, b64Encode_inj. by rewrite E. Qed.

(** * Facts: the authenticated arrays *)

(** A complete text, or none. *)
Definition closed (x : string) : Prop := x = "" \/ exists v, text_of v x.

Lemma closed_text_ok x : text_ok x -> closed x.
Proof. intros (_ & f & v & H). right. by exists v, f, (maxNestingDepth - 1). Qed.

Lemma closed_quote s : closed (quote s).
Proof. right. eexists _, 1%nat, 0. by apply reads_quote; lia. Qed.

Lemma closed_Itoa z : closed (Itoa z).
Proof. right. eexists _, 1%nat, 0. by apply reads_Itoa; lia. Qed.

Lemma element_text x : closed x -> exists v, text_of v (element x).
Proof.
  unfold element. intros [-> | [v Hv]].
  - exists (JStr ""), 1%nat, 0. by apply (reads_ascii 1 0 ""); [lia | intros i c].
  - case_bool_decide as E; [| by exists v]. destruct Hv as (f & d & (c & p & -> & _) & _). done.
Qed.

Lemma array_tail_stops l : stops (array_tail l) = true.
Proof. by destruct l. Qed.

Lemma array_tail_inj l l' : Forall closed l -> Forall closed l' -> array_tail l = array_tail l' -> element <$> l = element <$> l'.
Proof.
  intros Hl. revert l'. induction Hl as [|x l Hx Hl IH]; intros [|x' l'] Hl'; cbn [array_tail]; try done.
  apply Forall_cons in Hl' as [Hx' Hl']. intros E. injection E as E.
  destruct (element_text x Hx) as [v Hv], (element_text x' Hx') as [v' Hv'].
  destruct (text_front _ _ _ _ _ _ Hv Hv' (array_tail_stops l) (array_tail_stops l') E) as (_ & He & Ht).
  rewrite !fmap_cons. f_equal; [done |]. by apply IH.
Qed.

(** An array determines its elements: none can be forged from the text of another. *)
Lemma jsonArray_inj l l' : l <> [] -> l' <> [] -> Forall closed l -> Forall closed l' -> jsonArray l = jsonArray l' ->
  element <$> l = element <$> l'.
Proof.
  destruct l as [|x l], l' as [|x' l']; try done. intros _ _ [Hx Hl]%Forall_cons [Hx' Hl']%Forall_cons E. injection E as E.
  destruct (element_text x Hx) as [v Hv], (element_text x' Hx') as [v' Hv'].
  destruct (text_front _ _ _ _ _ _ Hv Hv' (array_tail_stops l) (array_tail_stops l') E) as (_ & He & Ht).
  rewrite !fmap_cons. f_equal; [done |]. by apply array_tail_inj.
Qed.

(** The fields of the arrays, as they are written. *)
Definition mac_fields (i : macInputs) : list string :=
  [in_Vers i; in_Verp i; in_PeerId i; in_Cryptosuites i; in_Dirs i; in_ServerInfo i; in_Cryptosuitep i; in_Dirp i;
   in_NAI i; in_PeerInfo i; in_PKs i; in_Ns i; in_PKp i; in_Np i; in_Noob i].

Definition same_inputs (i i' : macInputs) : Prop := element <$> mac_fields i = element <$> mac_fields i'.

Lemma noobArray_inj lead lead' i i' : closed lead -> closed lead' -> Forall closed (mac_fields i) -> Forall closed (mac_fields i') ->
  noobArray lead i = noobArray lead' i' -> element lead = element lead' /\ same_inputs i i'.
Proof.
  intros Hl Hl' Hi Hi' E. unfold mac_fields in Hi, Hi'. unfold noobArray in E. apply jsonArray_inj in E; [| done | done | |].
  - cbn in E. injection E. intros. subst. split; [done |]. unfold same_inputs, mac_fields. cbn. congruence.
  - repeat match goal with H : Forall _ (_ :: _) |- _ => apply Forall_cons in H as [? H] end.
    repeat (apply Forall_cons; split; [first [done | apply closed_Itoa] |]). constructor.
  - repeat match goal with H : Forall _ (_ :: _) |- _ => apply Forall_cons in H as [? H] end.
    repeat (apply Forall_cons; split; [first [done | apply closed_Itoa] |]). constructor.
Qed.

(** C36. Nothing is lost on the wire.  A message whose raw fields are compact JSON texts is
    written as one object, and reading the bytes gives the message back, every field and
    every raw text of it unchanged: both sides authenticate the same bytes. *)
Theorem wire_round_trip m : wire_ok m -> exists b, encode_wire m = Some (b, m) /\ decode b = Some m.
Proof.
  intros Hm. destruct (decode_marshal m Hm) as (b & Hb & Hd). exists b. split; [| exact Hd].
  unfold encode_wire. rewrite Hb. cbn [mbind option_bind]. by rewrite Hd.
Qed.

Lemma wire_round_trip_witness :
  let m := set_PeerId (rawString "device-7") (set_Vers (rawIntSlice [1; 2]) (set_Dirs (rawInt 3) (set_SleepTime (Some 30) (message typeNegotiation)))) in
  exists b, encode_wire m = Some (b, m) /\ decode b = Some m.
Proof.
  cbv zeta. apply wire_round_trip. constructor; cbn -[quote write_int_array Itoa].
  - repeat (apply Forall_cons; split; [first [by left | right; first [apply text_ok_quote; by apply ascii_check | apply text_ok_ints | apply text_ok_Itoa]] |]).
    apply Forall_nil_2.
  - repeat (apply Forall_cons; split; [intros z [= <-]; done |]). apply Forall_nil_2.
  - repeat (apply Forall_cons; split; [by apply ascii_check |]). apply Forall_nil_2.
Defined.
