(* ===== verification/EapKeys.v ===== *)
(** The keys of EAP-NOOB (services/eap-noob: crypto.go, kdf.go, association.go, export.go):
    cryptosuites and public keys on the wire, the key derivation of the Completion
    Exchange, the association it creates and the secrets exported from it. *)
From S2P Require Import Prelude.
From S2P Require Import GoStd.
From S2P Require Import GoBytes.
From S2P Require Import Json.
From S2P Require Import JsonText.
From S2P Require Import EapWire.

Open Scope string_scope.
Open Scope list_scope.
Open Scope Z_scope.

(** * Cryptosuites (crypto.go) *)

Inductive curve : Type := X25519 | P256.
#[export] Instance curve_eq : EqDecision curve.
Proof. solve_decision. Defined.

(** [crypto/ecdh]: keys of a curve, their encodings, which encodings are accepted, and
    the shared secret, which is refused when it is all zeroes. *)
Class Ecdh : Type := {
  scalar : Type;
  PublicBytes : curve -> scalar -> string;
  NewPublicKey : curve -> string -> bool;
  SharedSecret : curve -> scalar -> string -> option string
}.

(** What the package documents. *)
Class EcdhLaws `{!Ecdh} : Prop := {
  public_valid : forall c k, NewPublicKey c (PublicBytes c k) = true;
  public_x25519 : forall k, slen (PublicBytes X25519 k) = 32%nat;
  public_p256 : forall k, slen (PublicBytes P256 k) = 65%nat /\ String.get 0 (PublicBytes P256 k) = Some (chr 4);
  shared_agrees : forall c a b, SharedSecret c a (PublicBytes c b) = SharedSecret c b (PublicBytes c a);
  shared_honest : forall c a b, is_Some (SharedSecret c a (PublicBytes c b))
}.

Record cryptosuite : Type := mkSuite { cs_id : Z; cs_curve : curve; cs_kty : string; cs_crv : string; cs_ec : bool }.

Definition suiteByID (id : Z) : option cryptosuite :=
  if id =? 1 then Some (mkSuite 1 X25519 "OKP" "X25519" false)
  else if id =? 2 then Some (mkSuite 2 P256 "EC" "P-256" true)
  else None.

Definition supportedCryptosuites : list Z := [2; 1].
Definition isSupportedCryptosuite (id : Z) : bool := (id =? 1) || (id =? 2).

Section Keys.
Context {EC : Ecdh}.

(** An [ecdh.PrivateKey] knows its curve. *)
Record PrivateKey : Type := mkPrivate { pk_curve : curve; pk_scalar : scalar }.

Definition encodeJWK (cs : cryptosuite) (raw : string) : option JWK :=
  if cs_ec cs then
    if negb (slen raw =? 65)%nat || negb (bool_decide (String.get 0 raw = Some (chr 4))) then None
    else Some (mkJWK (cs_kty cs) (cs_crv cs) (b64Encode (slice 1 33 raw)) (b64Encode (slice 33 65 raw)))
  else Some (mkJWK (cs_kty cs) (cs_crv cs) (b64Encode raw) "").

(** The key the generator yields; [None] is its failure. *)
Definition generateKeypair (cs : cryptosuite) (k : option scalar) : option (PrivateKey * JWK) :=
  k ← k;
  let priv := mkPrivate (cs_curve cs) k in
  jwk ← encodeJWK cs (PublicBytes (cs_curve cs) k);
  Some (priv, jwk).

Definition decodeJWK (cs : cryptosuite) (jwk : JWK) : option string :=
  if negb (bool_decide (jwk_Kty jwk = cs_kty cs)) || negb (bool_decide (jwk_Crv jwk = cs_crv cs)) then None else
  x ← b64Decode (jwk_X jwk);
  if cs_ec cs then
    y ← b64Decode (jwk_Y jwk);
    if negb (slen x =? 32)%nat || negb (slen y =? 32)%nat then None else
    let point := String (chr 4) (x +:+ y) in
    if NewPublicKey (cs_curve cs) point then Some point else None
  else if NewPublicKey (cs_curve cs) x then Some x else None.

Definition computeZ (cs : cryptosuite) (priv : PrivateKey) (peer : JWK) : option string :=
  pub ← decodeJWK cs peer;
  if bool_decide (pk_curve priv = cs_curve cs) then SharedSecret (cs_curve cs) (pk_scalar priv) pub else None.
End Keys.

(** * Key derivation (kdf.go) *)

Definition algorithmID : string := "EAP-NOOB".

Record keyMaterial : Type := mkKeys {
  km_MSK : string; km_EMSK : string; km_AMSK : string; km_MethodID : string; km_Kms : string; km_Kmp : string; km_Kz : string
}.

Definition keyMaterial0 : keyMaterial := mkKeys "" "" "" "" "" "" "".

Section Kdf.
Context {sha : Sha256}.

(** The counter is a [uint32]. *)
Fixpoint kdf_loop (fuel : nat) (counter : Z) (z fixedInfo out : string) (outLen : nat) : string :=
  match fuel with
  | O => out
  | S fuel =>
      if (slen out <? outLen)%nat
      then kdf_loop fuel ((counter + 1) mod 2 ^ 32) z fixedInfo (out +:+ sha256 (be32 counter +:+ (z +:+ fixedInfo))) outLen
      else out
  end.

Definition oneStepKDF (z fixedInfo : string) (outLen : nat) : string :=
  str_take outLen (kdf_loop outLen 1 z fixedInfo "" outLen).

Definition completionFixedInfo (np ns noob : string) : string :=
  algorithmID +:+ (np +:+ (ns +:+ String (chr (Z.of_nat (slen noob))) noob)).

Definition deriveCompletion (z np ns noob : string) : keyMaterial :=
  let out := oneStepKDF z (completionFixedInfo np ns noob) 320 in
  mkKeys (slice 0 64 out) (slice 64 128 out) (slice 128 192 out) (slice 192 224 out)
         (slice 224 256 out) (slice 256 288 out) (slice 288 320 out).
End Kdf.

(** * Associations (association.go) *)

Record Association : Type := mkAssociation { as_PeerId : string; as_NAI : string; as_Cryptosuitep : Z; as_Kz : string }.

(** [MemoryStore]: copies go in and out, so nothing is shared with the caller. *)
Definition MemoryStore : Type := gmap string Association.
Definition store_Load (m : MemoryStore) (peerId : string) : option Association := m !! peerId.
Definition store_Save (m : MemoryStore) (a : Association) : MemoryStore := <[as_PeerId a := a]> m.
Definition store_Delete (m : MemoryStore) (peerId : string) : MemoryStore := delete peerId m.

(** * Exported secrets (export.go) *)

Inductive export_error : Type := ErrNotRegistered | ErrNegativeLength | ErrTooLong.

Section Exporter.
Context {sha : Sha256}.

(** The loop of HKDF-Expand from block [i]. *)
Fixpoint expand (fuel : nat) (i : Z) (prk info prev out : string) (length : nat) : string :=
  match fuel with
  | O => out
  | S fuel =>
      if (slen out <? length)%nat
      then let t := hmac prk (prev +:+ (info +:+ String (chr i) "")) in expand fuel (i + 1) prk info t (out +:+ t) length
      else out
  end.

(** The salt is nil: as many zeroes as the hash has bytes. *)
Definition hkdf (ikm info : string) (length : Z) : export_error + string :=
  if 255 * 32 <? length then inl ErrTooLong else
  let prk := hmac (str_repeat zero 32) ikm in
  let n := Z.to_nat length in
  inr (str_take n (expand n 1 prk info "" "" n)).

Definition export_info (label context : string) : string :=
  let n := Z.of_nat (slen label) in
  String (chr (Z.shiftr n 8)) (String (chr n) (label +:+ context)).

Definition Export (a : option Association) (label context : string) (length : Z) : export_error + string :=
  match a with
  | None => inl ErrNotRegistered
  | Some a =>
      if (slen (as_Kz a) =? 0)%nat then inl ErrNotRegistered
      else if length <? 0 then inl ErrNegativeLength
      else hkdf (as_Kz a) (export_info label context) length
  end.
End Exporter.

(** * Facts: public keys *)

Lemma str_get_0 c s : String.get 0 s = Some c -> exists p, s = String c p.
Proof. destruct s as [|d s]; [done |]. intros [= ->]. by eexists. Qed.

Lemma str_drop_drop a b s : str_drop a (str_drop b s) = str_drop (b + a) s.
Proof. revert s. induction b as [|b IH]; intros [|c s]; cbn; [done | done | by destruct a | apply IH]. Qed.

(** Consecutive slices make up the string. *)
Lemma slice_join i j k s : (i <= j <= k)%nat -> slice i j s +:+ slice j k s = slice i k s.
Proof.
  intros H. unfold slice.
  assert (str_drop j s = str_drop (j - i) (str_drop i s)) as -> by (rewrite str_drop_drop; f_equal; lia).
  generalize (str_drop i s). clear s. intros s. replace (k - i)%nat with ((j - i) + (k - j))%nat by lia.
  generalize (j - i)%nat (k - j)%nat. clear. intros a b. revert s. induction a as [|a IH]; intros [|c s]; cbn [str_take str_drop Nat.add].
  - by destruct b.
  - done.
  - by destruct b.
  - by rewrite local_cons, IH.
Qed.

Section KeyFacts.
Context {EC : Ecdh} {EL : EcdhLaws}.

Lemma suiteByID_spec id cs : suiteByID id = Some cs -> id = cs_id cs /\
  (cs = mkSuite 1 X25519 "OKP" "X25519" false \/ cs = mkSuite 2 P256 "EC" "P-256" true).
Proof. unfold suiteByID. intros Hs. branches; naive_solver. Qed.

(** The key on the wire is the key. *)
Lemma decode_encode_key id cs k : suiteByID id = Some cs ->
  exists j, encodeJWK cs (PublicBytes (cs_curve cs) k) = Some j /\ jwk_ascii j /\
    decodeJWK cs j = Some (PublicBytes (cs_curve cs) k).
Proof.
  intros [_ [-> | ->]]%suiteByID_spec; unfold encodeJWK, decodeJWK; cbn [cs_ec cs_curve cs_kty cs_crv].
  - eexists. split; [reflexivity |]. split.
    { repeat (apply Forall_cons; split); [by apply ascii_check | by apply ascii_check | apply b64Encode_ascii | by apply ascii_check | constructor]. }
    cbn [jwk_Kty jwk_Crv jwk_X]. rewrite !bool_decide_true by done. cbn [negb orb]. rewrite b64Decode_Encode. cbn. by rewrite public_valid.
  - destruct (public_p256 k) as [Hl Hg]. rewrite Hl, bool_decide_true by done. cbn [negb orb]. eexists. split; [reflexivity |]. split.
    { repeat (apply Forall_cons; split); [by apply ascii_check | by apply ascii_check | apply b64Encode_ascii .. | constructor]. }
    cbn [jwk_Kty jwk_Crv jwk_X jwk_Y]. rewrite !bool_decide_true by done. cbn [negb orb]. rewrite !b64Decode_Encode. cbn -[slice].
    rewrite !length_slice by lia. change (negb (33 - 1 =? 32)%nat || negb (65 - 33 =? 32)%nat) with false. cbv iota.
    rewrite slice_join by lia. assert (String (chr 4) (slice 1 65 (PublicBytes P256 k)) = PublicBytes P256 k) as Hp.
    { destruct (str_get_0 _ _ Hg) as [p E]. rewrite E in Hl |- *. cbn in Hl. unfold slice. cbn [str_drop]. f_equal. by rewrite str_take_all by lia. }
    by rewrite Hp, public_valid.
Qed.
End KeyFacts.

(** * Facts: key derivation *)

Section KdfFacts.
Context {sha : Sha256}.

(** The reference: the hashes of the counters from one on, one after the other. *)
Definition kdf_block (z fixedInfo : string) (i : Z) : string := sha256 (be32 i +:+ (z +:+ fixedInfo)).
Fixpoint kdf_blocks (k : nat) (i : Z) (z fixedInfo : string) : string :=
  match k with O => "" | S k => kdf_block z fixedInfo i +:+ kdf_blocks k (i + 1) z fixedInfo end.

Lemma length_kdf_blocks k i z fi : slen (kdf_blocks k i z fi) = (32 * k)%nat.
Proof.
  revert i. induction k as [|k IH]; intros i; cbn [kdf_blocks]; [done |].
  rewrite string_length_app, IH. unfold kdf_block. rewrite sha256_length. lia.
Qed.

Lemma kdf_loop_blocks fuel : forall k c z fi out n,
  (k <= fuel)%nat -> (n <= slen out + 32 * k)%nat -> (k = 0 \/ slen out + 32 * (k - 1) < n)%nat -> 0 <= c -> c + Z.of_nat k <= 2 ^ 32 ->
  kdf_loop fuel c z fi out n = out +:+ kdf_blocks k c z fi.
Proof.
  induction fuel as [|fuel IH]; intros k c z fi out n Hk Hn Hlast Hc Hw.
  { assert (k = 0)%nat as -> by lia. cbn. by rewrite app_nil_str. }
  cbn [kdf_loop]. destruct (slen out <? n)%nat eqn:E.
  - apply Nat.ltb_lt in E. destruct k as [|k]; [lia |]. cbn [kdf_blocks]. destruct (decide (k = 0%nat)) as [-> | Hk0].
    + cbn [kdf_blocks]. rewrite app_nil_str. destruct fuel; [done |]. cbn [kdf_loop].
      rewrite string_length_app, sha256_length. by rewrite (proj2 (Nat.ltb_ge _ _)) by lia.
    + rewrite Z.mod_small by lia. rewrite (IH k) by (rewrite ?string_length_app, ?sha256_length; lia).
      by rewrite string_app_assoc.
  - apply Nat.ltb_ge in E. destruct k as [|k]; [by rewrite app_nil_str |]. lia.
Qed.

Lemma oneStepKDF_blocks z fi n : Z.of_nat n <= 32 * (2 ^ 32 - 1) ->
  oneStepKDF z fi n = str_take n (kdf_blocks ((n + 31) / 32) 1 z fi).
Proof.
  intros Hn. unfold oneStepKDF. pose proof (Nat.div_mod (n + 31) 32 ltac:(lia)). pose proof (Nat.mod_upper_bound (n + 31) 32 ltac:(lia)).
  revert H H0. generalize ((n + 31) / 32)%nat ((n + 31) mod 32)%nat. intros q r Hq Hr.
  rewrite (kdf_loop_blocks _ q); [done | cbn [slen]; lia ..].
Qed.

(** Block [k] of the derivation. *)
Lemma slice_block k z fi : forall m i, (k < m)%nat ->
  slice (32 * k) (32 * k + 32) (kdf_blocks m i z fi) = kdf_block z fi (i + Z.of_nat k).
Proof.
  induction k as [|k IH]; intros [|m] i Hk; try lia; cbn [kdf_blocks].
  - unfold slice. cbn [Nat.mul str_drop]. rewrite Z.add_0_r. apply str_take_app. apply sha256_length.
  - assert (forall a b s t, slen s = 32%nat -> slice (32 + a) (32 + b) (s +:+ t) = slice a b t) as Hs.
    { clear. intros a b s t Hs. unfold slice. replace (32 + b - (32 + a))%nat with (b - a)%nat by lia. rewrite <- (str_drop_drop a 32).
      f_equal. f_equal. revert s Hs. generalize 32%nat. induction n as [|n IH]; intros [|c s]; try discriminate; [done |].
      intros [= Hs]. rewrite local_cons. cbn. by apply IH. }
    replace (32 * S k)%nat with (32 + 32 * k)%nat by lia. rewrite <- Nat.add_assoc, Hs by apply sha256_length.
    rewrite IH by lia. f_equal. lia.
Qed.

(** What the derivation hashes: the secret and the nonces, in one string. *)
Definition kdf_secret (z np ns noob : string) : string := z +:+ completionFixedInfo np ns noob.

Lemma derived_keys z np ns noob : let k := deriveCompletion z np ns noob in let h i := sha256 (be32 i +:+ kdf_secret z np ns noob) in
  km_Kms k = h 8 /\ km_Kmp k = h 9 /\ km_Kz k = h 10.
Proof.
  cbn zeta. unfold deriveCompletion. rewrite oneStepKDF_blocks by lia. change ((320 + 31) / 32)%nat with 10%nat.
  rewrite str_take_all by (rewrite length_kdf_blocks; lia). cbn [km_Kms km_Kmp km_Kz].
  split_and!; [exact (slice_block 7 _ _ 10 1 ltac:(lia)) | exact (slice_block 8 _ _ 10 1 ltac:(lia)) | exact (slice_block 9 _ _ 10 1 ltac:(lia))].
Qed.

(** Equal keys of the peer come from one secret, or exhibit a collision. *)
Lemma Kmp_agree z np ns noob z' np' ns' noob' :
  km_Kmp (deriveCompletion z np ns noob) = km_Kmp (deriveCompletion z' np' ns' noob') ->
  kdf_secret z np ns noob = kdf_secret z' np' ns' noob' \/
  collides (be32 9 +:+ kdf_secret z np ns noob) (be32 9 +:+ kdf_secret z' np' ns' noob').
Proof.
  destruct (derived_keys z np ns noob) as (_ & -> & _), (derived_keys z' np' ns' noob') as (_ & -> & _).
  intros [E | E]%sha256_agree; [left; by apply str_app_inv_l in E | by right].
Qed.

Lemma Kms_agree z np ns noob z' np' ns' noob' :
  km_Kms (deriveCompletion z np ns noob) = km_Kms (deriveCompletion z' np' ns' noob') ->
  kdf_secret z np ns noob = kdf_secret z' np' ns' noob' \/
  collides (be32 8 +:+ kdf_secret z np ns noob) (be32 8 +:+ kdf_secret z' np' ns' noob').
Proof.
  destruct (derived_keys z np ns noob) as (-> & _ & _), (derived_keys z' np' ns' noob') as (-> & _ & _).
  intros [E | E]%sha256_agree; [left; by apply str_app_inv_l in E | by right].
Qed.

Lemma secret_Kz z np ns noob z' np' ns' noob' : kdf_secret z np ns noob = kdf_secret z' np' ns' noob' ->
  deriveCompletion z np ns noob = deriveCompletion z' np' ns' noob'.
Proof.
  intros E. unfold deriveCompletion. assert (forall i, kdf_block z (completionFixedInfo np ns noob) i = kdf_block z' (completionFixedInfo np' ns' noob') i) as Hb
    by (intros i; unfold kdf_block; unfold kdf_secret in E; by rewrite E).
  assert (forall k i, kdf_blocks k i z (completionFixedInfo np ns noob) = kdf_blocks k i z' (completionFixedInfo np' ns' noob')) as Hbs
    by (intros k; induction k as [|k IH]; intros i; [done |]; cbn [kdf_blocks]; by rewrite Hb, IH).
  rewrite !oneStepKDF_blocks by lia. by rewrite Hbs.
Qed.
End KdfFacts.

(** * Facts: exported secrets *)

Section ExportFacts.
Context {sha : Sha256}.

(** RFC 5869: every block is the code of the previous one, the info and its number. *)
Fixpoint hkdf_blocks (k : nat) (i : Z) (prk info prev : string) : string :=
  match k with
  | O => ""
  | S k => let t := hmac prk (prev +:+ (info +:+ String (chr i) "")) in t +:+ hkdf_blocks k (i + 1) prk info t
  end.

Lemma length_hkdf_blocks k i prk info prev : slen (hkdf_blocks k i prk info prev) = (32 * k)%nat.
Proof.
  revert i prev. induction k as [|k IH]; intros i prev; cbn [hkdf_blocks]; [done |].
  rewrite string_length_app, IH, length_hmac. lia.
Qed.

Lemma expand_blocks fuel : forall k i prk info prev out n,
  (k <= fuel)%nat -> (n <= slen out + 32 * k)%nat -> (k = 0 \/ slen out + 32 * (k - 1) < n)%nat ->
  expand fuel i prk info prev out n = out +:+ hkdf_blocks k i prk info prev.
Proof.
  induction fuel as [|fuel IH]; intros k i prk info prev out n Hk Hn Hlast.
  { assert (k = 0)%nat as -> by lia. cbn. by rewrite app_nil_str. }
  cbn [expand]. destruct (slen out <? n)%nat eqn:E.
  - apply Nat.ltb_lt in E. destruct k as [|k]; [lia |]. cbn [hkdf_blocks]. cbv zeta. destruct (decide (k = 0%nat)) as [-> | Hk0].
    + cbn [hkdf_blocks]. rewrite app_nil_str. destruct fuel; [done |]. cbn [expand].
      rewrite string_length_app, length_hmac. by rewrite (proj2 (Nat.ltb_ge _ _)) by lia.
    + rewrite (IH k) by (rewrite ?string_length_app, ?length_hmac; lia). by rewrite string_app_assoc.
  - apply Nat.ltb_ge in E. destruct k as [|k]; [by rewrite app_nil_str |]. lia.
Qed.

(** A longer output starts with a shorter one. *)
Lemma hkdf_blocks_prefix k k' n i prk info prev : (k <= k')%nat -> (n <= 32 * k)%nat ->
  str_take n (hkdf_blocks k' i prk info prev) = str_take n (hkdf_blocks k i prk info prev).
Proof.
  revert k' n i prev. induction k as [|k IH]; intros k' n i prev Hk Hn.
  { assert (n = 0)%nat as -> by lia. by destruct (hkdf_blocks k' i prk info prev). }
  destruct k' as [|k']; [lia |]. cbn [hkdf_blocks]. cbv zeta. set (t := hmac _ _).
  assert (slen t = 32%nat) as Ht by apply length_hmac.
  assert (forall m s u, str_take m (s +:+ u) = str_take m s +:+ str_take (m - slen s) u) as Htake.
  { clear. intros m s u. revert m. induction s as [|c s IH]; intros m; [by rewrite Nat.sub_0_r; destruct m |].
    destruct m; [done |]. rewrite !local_cons. cbn. by rewrite local_cons, IH. }
  rewrite !Htake, Ht, (IH k') by lia. done.
Qed.

Definition okm (ikm info : string) (n : nat) : string :=
  str_take n (hkdf_blocks ((n + 31) / 32) 1 (hmac (str_repeat zero 32) ikm) info "").

Lemma hkdf_okm ikm info length : 0 <= length <= 255 * 32 -> hkdf ikm info length = inr (okm ikm info (Z.to_nat length)).
Proof.
  intros Hl. unfold hkdf. rewrite (proj2 (Z.ltb_ge _ _)) by lia. cbv zeta. unfold okm. generalize (Z.to_nat length). intros n.
  pose proof (Nat.div_mod (n + 31) 32 ltac:(lia)). pose proof (Nat.mod_upper_bound (n + 31) 32 ltac:(lia)).
  revert H H0. generalize ((n + 31) / 32)%nat ((n + 31) mod 32)%nat. intros q r Hq Hr.
  rewrite (expand_blocks _ q); [done | cbn [slen]; lia ..].
Qed.

Lemma okm_length ikm info n : slen (okm ikm info n) = n.
Proof.
  unfold okm. rewrite length_str_take, length_hkdf_blocks.
  pose proof (Nat.div_mod (n + 31) 32 ltac:(lia)). pose proof (Nat.mod_upper_bound (n + 31) 32 ltac:(lia)). lia.
Qed.

Lemma okm_prefix ikm info n m : (n <= m)%nat -> str_take n (okm ikm info m) = okm ikm info n.
Proof.
  intros H. unfold okm. pose proof (Nat.div_mod (n + 31) 32 ltac:(lia)). pose proof (Nat.mod_upper_bound (n + 31) 32 ltac:(lia)).
  rewrite <- (hkdf_blocks_prefix ((n + 31) / 32) ((m + 31) / 32)); [| by apply Nat.Div0.div_le_mono; lia | lia].
  generalize (hkdf_blocks ((m + 31) / 32) 1 (hmac (str_repeat zero 32) ikm) info ""). clear -H. intros s.
  revert m s H. induction n as [|n IH]; intros m s H; [done |]. destruct m as [|m]; [lia |]. destruct s as [|c s]; [done |].
  cbn. by rewrite IH by lia.
Qed.

(** Exported secrets.  An association that holds a key exports exactly the requested
    number of bytes, up to 8160: the output of HKDF (RFC 5869) on the key and the framed
    label and context; a longer secret extends a shorter one.  Longer and negative
    requests are refused, and so is every export before registration. *)
Theorem export_spec (a : Association) (label context : string) (length : Z) :
  (as_Kz a <> "" -> 0 <= length <= 8160 ->
    exists out, Export (Some a) label context length = inr out /\ slen out = Z.to_nat length /\
      out = okm (as_Kz a) (export_info label context) (Z.to_nat length) /\
      forall m, 0 <= m <= length -> Export (Some a) label context m = inr (str_take (Z.to_nat m) out)) /\
  (as_Kz a <> "" -> 8160 < length -> Export (Some a) label context length = inl ErrTooLong) /\
  (as_Kz a <> "" -> length < 0 -> Export (Some a) label context length = inl ErrNegativeLength) /\
  (as_Kz a = "" -> Export (Some a) label context length = inl ErrNotRegistered) /\
  Export None label context length = inl ErrNotRegistered.
Proof.
  assert (as_Kz a <> "" -> forall n, Export (Some a) label context n =
    if n <? 0 then inl ErrNegativeLength else hkdf (as_Kz a) (export_info label context) n) as Hex.
  { intros Hk n. unfold Export. by destruct (as_Kz a). }
  split_and!.
  - intros Hk Hl. eexists. rewrite (Hex Hk), (proj2 (Z.ltb_ge _ _)), hkdf_okm by lia. split; [done |].
    split; [apply okm_length |]. split; [done |]. intros m Hm.
    rewrite (Hex Hk), (proj2 (Z.ltb_ge _ _)), hkdf_okm, okm_prefix by lia. done.
  - intros Hk Hl. rewrite (Hex Hk), (proj2 (Z.ltb_ge _ _)) by lia. unfold hkdf. by rewrite (proj2 (Z.ltb_lt _ _)) by lia.
  - intros Hk Hl. by rewrite (Hex Hk), (proj2 (Z.ltb_lt _ _)) by lia.
  - intros Hk. unfold Export. by rewrite Hk.
  - done.
Qed.

(** The framing separates labels from contexts: below 64 KiB, different labels or
    contexts make different inputs of the derivation. *)
Theorem export_info_injective (l c l' c' : string) :
  Z.of_nat (slen l) < 2 ^ 16 -> Z.of_nat (slen l') < 2 ^ 16 -> export_info l c = export_info l' c' -> l = l' /\ c = c'.
Proof.
  intros Hl Hl' E. unfold export_info in E. injection E as E1 E2 E.
  apply (f_equal byte) in E1, E2. rewrite !byte_chr, !Z.shiftr_div_pow2 in * by lia.
  assert (slen l = slen l') as Hs.
  { revert E1 E2 Hl Hl'. generalize (slen l) (slen l'). intros n m. change (2 ^ 8) with 256. change (2 ^ 16) with 65536.
    Z.to_euclidean_division_equations. lia. }
  by apply str_app_inv in E.
Qed.

Lemma export_info_injective_witness :
  export_info "app" "ctx1" = export_info "app" "ctx1" /\ "app" = "app" /\ "ctx1" = "ctx1".
Proof. split; [reflexivity |]. apply (export_info_injective "app" "ctx1" "app" "ctx1"); [vm_compute; reflexivity .. | reflexivity]. Defined.

(** The length is written modulo 64 KiB: a label of exactly that size is the same as no
    label before a longer context. *)
Lemma export_label_wraps (a : option Association) (label context : string) (length : Z) :
  slen label = Z.to_nat 65536 -> Export a label context length = Export a "" (label +:+ context) length.
Proof.
  intros Hl. unfold Export. assert (export_info label context = export_info "" (label +:+ context)) as ->; [| done].
  unfold export_info. rewrite Hl. rewrite Z2Nat.id by lia. done.
Qed.
End ExportFacts.
