(* ===== verification/EapNoob.v ===== *)
(** The two roles of EAP-NOOB (services/eap-noob: eapnoob.go, helpers.go, server.go,
    peer.go): the state of an association, every message handler and the out-of-band
    operations.  What a handler draws from the random source, and whether the store takes
    the association, are arguments of the step. *)
From S2P Require Import Prelude.
From S2P Require Import GoStd.
From S2P Require Import GoBytes.
From S2P Require Import Json.
From S2P Require Import JsonText.
From S2P Require Import EapWire.
From S2P Require Import EapKeys.
Import Wire.

Open Scope string_scope.
Open Scope list_scope.
Open Scope Z_scope.

(** * State (eapnoob.go) *)

Inductive State : Type := StateUnregistered | StateWaiting | StateOOBReceived | StateReconnecting | StateRegistered.
#[export] Instance State_eq : EqDecision State.
Proof. solve_decision. Defined.

Definition state_int (s : State) : Z :=
  match s with
  | StateUnregistered => 0 | StateWaiting => 1 | StateOOBReceived => 2 | StateReconnecting => 3 | StateRegistered => 4
  end.

(** An empty [o_Send] is nil: no message is. *)
Record Outcome : Type := mkOutcome { o_Send : string; o_State : State; o_Done : bool; o_Success : bool; o_Err : option ProtocolError }.

Record OOBMessage : Type := mkOOB { oob_PeerId : string; oob_Noob : string; oob_Hoob : string }.

Section Noob.
Context {EC : Ecdh} {sha : Sha256}.

Record methodState : Type := mkMethod {
  ms_suite : option cryptosuite; ms_peerId : string; ms_nai : string; ms_in : macInputs;
  ms_priv : option PrivateKey; ms_z : string; ms_ns : string; ms_np : string; ms_noob : string;
  ms_noobB64 : string; ms_noobID : string; ms_keyM : keyMaterial;
  ms_registered : option Association
}.

Definition method0 : methodState := mkMethod None "" "" macInputs0 None "" "" "" "" "" "" keyMaterial0 None.

Definition with_suite (v : option cryptosuite) (m : methodState) : methodState :=
  mkMethod v (ms_peerId m) (ms_nai m) (ms_in m) (ms_priv m) (ms_z m) (ms_ns m) (ms_np m)
  (ms_noob m) (ms_noobB64 m) (ms_noobID m) (ms_keyM m) (ms_registered m).
Definition with_peerId (v : string) (m : methodState) : methodState :=
  mkMethod (ms_suite m) v (ms_nai m) (ms_in m) (ms_priv m) (ms_z m) (ms_ns m) (ms_np m)
  (ms_noob m) (ms_noobB64 m) (ms_noobID m) (ms_keyM m) (ms_registered m).
Definition with_nai (v : string) (m : methodState) : methodState :=
  mkMethod (ms_suite m) (ms_peerId m) v (ms_in m) (ms_priv m) (ms_z m) (ms_ns m) (ms_np m)
  (ms_noob m) (ms_noobB64 m) (ms_noobID m) (ms_keyM m) (ms_registered m).
Definition with_in (v : macInputs) (m : methodState) : methodState :=
  mkMethod (ms_suite m) (ms_peerId m) (ms_nai m) v (ms_priv m) (ms_z m) (ms_ns m) (ms_np m)
  (ms_noob m) (ms_noobB64 m) (ms_noobID m) (ms_keyM m) (ms_registered m).
Definition with_priv (v : option PrivateKey) (m : methodState) : methodState :=
  mkMethod (ms_suite m) (ms_peerId m) (ms_nai m) (ms_in m) v (ms_z m) (ms_ns m) (ms_np m)
  (ms_noob m) (ms_noobB64 m) (ms_noobID m) (ms_keyM m) (ms_registered m).
Definition with_ns (v : string) (m : methodState) : methodState :=
  mkMethod (ms_suite m) (ms_peerId m) (ms_nai m) (ms_in m) (ms_priv m) (ms_z m) v (ms_np m)
  (ms_noob m) (ms_noobB64 m) (ms_noobID m) (ms_keyM m) (ms_registered m).
Definition with_registered (v : option Association) (m : methodState) : methodState :=
  mkMethod (ms_suite m) (ms_peerId m) (ms_nai m) (ms_in m) (ms_priv m) (ms_z m) (ms_ns m)
  (ms_np m) (ms_noob m) (ms_noobB64 m) (ms_noobID m) (ms_keyM m) v.

Definition deriveCompletionKeys (m : methodState) : methodState :=
  mkMethod (ms_suite m) (ms_peerId m) (ms_nai m) (ms_in m) (ms_priv m) (ms_z m) (ms_ns m)
  (ms_np m) (ms_noob m) (ms_noobB64 m) (ms_noobID m)
  (deriveCompletion (ms_z m) (ms_np m) (ms_ns m) (ms_noob m)) (ms_registered m).

Definition set_in_Noob (v : string) (i : macInputs) : macInputs :=
  mkMacInputs (in_Vers i) (in_Verp i) (in_PeerId i) (in_Cryptosuites i) (in_Dirs i)
  (in_ServerInfo i) (in_Cryptosuitep i) (in_Dirp i) (in_NAI i) (in_PeerInfo i) (in_PKs i)
  (in_Ns i) (in_PKp i) (in_Np i) v.

Definition setNoob (noob : string) (m : methodState) : methodState :=
  let b64 := rawString (b64Encode noob) in
  mkMethod (ms_suite m) (ms_peerId m) (ms_nai m) (set_in_Noob b64 (ms_in m)) (ms_priv m)
  (ms_z m) (ms_ns m) (ms_np m) noob b64 (computeNoobID b64) (ms_keyM m) (ms_registered m).

(** ** Out-of-band messages (helpers.go) *)

Definition oob_message (dir : Z) (noob : string) (m : methodState) : OOBMessage :=
  mkOOB (ms_peerId m) (b64Encode noob) (b64Encode (computeHoob dir (ms_in m))).

(** [rand] is what the random source yields. *)
Definition oobOutput (m : methodState) (dir : Z) (rand : option string) : methodState * option OOBMessage :=
  match rand with
  | None => (m, None)
  | Some noob => let m := setNoob noob m in (m, Some (oob_message dir noob m))
  end.

Definition oobOutputWith (m : methodState) (dir : Z) (noob : string) : methodState * option OOBMessage :=
  if negb (slen noob =? 16)%nat then (m, None)
  else let m := setNoob noob m in (m, Some (oob_message dir noob m)).

(** The result is whether there was no error. *)
Definition oobInputNoob (m : methodState) (noob : string) : methodState * bool :=
  if negb (slen noob =? 16)%nat then (m, false) else (setNoob noob m, true).

(** The nonce is recorded before the fingerprint is compared. *)
Definition oobInput (m : methodState) (dir : Z) (msg : OOBMessage) : methodState * bool :=
  if negb (bool_decide (ms_peerId m = "")) && negb (bool_decide (oob_PeerId msg = ms_peerId m)) then (m, false) else
  match b64Decode (oob_Noob msg) with
  | Some noob =>
      if negb (slen noob =? 16)%nat then (m, false) else
      let m := setNoob noob m in
      (m, bool_decide (b64Encode (computeHoob dir (ms_in m)) = oob_Hoob msg))
  | None => (m, false)
  end.

(** What one step may draw: an identifier, a private key, a nonce; and whether saving works. *)
Record draws : Type := mkDraws { d_id : option string; d_key : option scalar; d_nonce : option string; d_save : bool }.

(** ** The server (server.go) *)

Record ServerConfig : Type := mkServerConfig {
  sc_Versions : list Z; sc_Cryptosuites : list Z; sc_Dirs : Z;
  sc_ServerInfo : option (option string); sc_NewNAI : string; sc_SleepTime : Z
}.

Record Server : Type := mkServer {
  s_cfg : ServerConfig; s_store : MemoryStore; s_state : State; s_ms : methodState;
  s_peerState : Z; s_verp : Z; s_csp : Z; s_dirp : Z
}.

Definition NewServer (cfg : ServerConfig) : Server :=
  let cfg := mkServerConfig
    (if bool_decide (sc_Versions cfg = []) then [1] else sc_Versions cfg)
    (if bool_decide (sc_Cryptosuites cfg = []) then supportedCryptosuites else sc_Cryptosuites cfg)
    (if sc_Dirs cfg =? 0 then 3 else sc_Dirs cfg) (sc_ServerInfo cfg) (sc_NewNAI cfg) (sc_SleepTime cfg) in
  mkServer cfg ∅ StateUnregistered method0 0 0 0 0.

Definition srv_store (v : MemoryStore) (s : Server) : Server :=
  mkServer (s_cfg s) v (s_state s) (s_ms s) (s_peerState s) (s_verp s) (s_csp s) (s_dirp s).
Definition srv_state (v : State) (s : Server) : Server :=
  mkServer (s_cfg s) (s_store s) v (s_ms s) (s_peerState s) (s_verp s) (s_csp s) (s_dirp s).
Definition srv_ms (v : methodState) (s : Server) : Server :=
  mkServer (s_cfg s) (s_store s) (s_state s) v (s_peerState s) (s_verp s) (s_csp s) (s_dirp s).
Definition srv_peerState (v : Z) (s : Server) : Server :=
  mkServer (s_cfg s) (s_store s) (s_state s) (s_ms s) v (s_verp s) (s_csp s) (s_dirp s).
Definition srv_choice (verp csp dirp : Z) (s : Server) : Server :=
  mkServer (s_cfg s) (s_store s) (s_state s) (s_ms s) (s_peerState s) verp csp dirp.

Definition Start : option string := marshal (message typeDiscovery).

(** A handler's result: the state it leaves, and the outcome unless it returns an error. *)
Definition server_result : Type := Server * option Outcome.

Definition fail (st : State) (code : Z) (info : string) : option Outcome :=
  b ← errorMessage code info;
  Some (mkOutcome b st true false (Some (mkProtocolError code info))).

Definition sfail (s : Server) (code : Z) (info : string) : server_result := (s, fail (s_state s) code info).

Definition send (st : State) (m : wireMessage) : option Outcome :=
  b ← marshal m; Some (mkOutcome b st false false None).

Definition ended (st : State) (kind : string) (success : bool) : option Outcome :=
  Some (mkOutcome (resultBytes kind) st true success None).

(** The text of the error, if there is one. *)
Definition checkPeerId (s : Server) (wm : wireMessage) : option string :=
  if bool_decide (ms_peerId (s_ms s) = "") then None else
  match rawToString (wm_PeerId wm) with
  | None => Some "missing PeerId"
  | Some got => if bool_decide (got = ms_peerId (s_ms s)) then None else Some "PeerId mismatch"
  end.

Definition buildNegotiationRequest (e : draws) (s : Server) : server_result :=
  match d_id e with
  | None => (s, None)
  | Some id =>
      let peerId := b64Encode id in
      let vers := rawIntSlice (sc_Versions (s_cfg s)) in
      let cs := rawIntSlice (sc_Cryptosuites (s_cfg s)) in
      let dirs := rawInt (sc_Dirs (s_cfg s)) in
      let info := marshalInfo (sc_ServerInfo (s_cfg s)) in
      let m := set_Vers vers (set_PeerId (rawString peerId) (set_Cryptosuites cs (set_Dirs dirs
                 (set_ServerInfo info (message typeNegotiation))))) in
      let new := sc_NewNAI (s_cfg s) in
      let '(m, nai) := if bool_decide (new = "") then (m, ms_nai (s_ms s)) else (set_NewNAI (rawString new) m, new) in
      let i := ms_in (s_ms s) in
      let i := mkMacInputs vers (in_Verp i) (rawString peerId) cs dirs info (in_Cryptosuitep i) (in_Dirp i) (in_NAI i)
                 (in_PeerInfo i) (in_PKs i) (in_Ns i) (in_PKp i) (in_Np i) (in_Noob i) in
      let s := srv_ms (with_in i (with_nai nai (with_peerId peerId (s_ms s)))) s in
      (s, send (s_state s) m)
  end.

Definition sleep (s : Server) (m : wireMessage) : wireMessage :=
  if 0 <? sc_SleepTime (s_cfg s) then set_SleepTime (Some (sc_SleepTime (s_cfg s))) m else m.

Definition buildKeyExchangeRequest (e : draws) (cs : cryptosuite) (s : Server) : server_result :=
  match generateKeypair cs (d_key e) with
  | None => (s, None)
  | Some (priv, jwk) =>
      let s := srv_ms (with_priv (Some priv) (s_ms s)) s in
      match d_nonce e with
      | None => (s, None)
      | Some ns =>
          let pks := jwkRaw jwk in
          let nsRaw := rawString (b64Encode ns) in
          let i := ms_in (s_ms s) in
          let i := mkMacInputs (in_Vers i) (in_Verp i) (in_PeerId i) (in_Cryptosuites i) (in_Dirs i) (in_ServerInfo i)
                     (in_Cryptosuitep i) (in_Dirp i) (in_NAI i) (in_PeerInfo i) pks nsRaw (in_PKp i) (in_Np i) (in_Noob i) in
          let m := sleep s (set_PeerId (rawString (ms_peerId (s_ms s))) (set_PKs pks (set_Ns nsRaw (message typeKeyExchange)))) in
          let s := srv_ms (with_in i (with_ns ns (s_ms s))) s in
          (s, send (s_state s) m)
      end
  end.

Definition onNegotiation (e : draws) (s : Server) (wm : wireMessage) : server_result :=
  match checkPeerId s wm with
  | Some err => sfail s ErrUnexpectedPeerIdentier err
  | None =>
  match rawToInt (wm_Verp wm) with
  | None => sfail s ErrInvalidData "bad Verp"
  | Some verp =>
  if negb (containsInt (sc_Versions (s_cfg s)) verp) then sfail s ErrUnsupportedVersion "peer selected unsupported version" else
  match rawToInt (wm_Cryptosuitep wm) with
  | None => sfail s ErrInvalidData "bad Cryptosuitep"
  | Some csp =>
  if negb (containsInt (sc_Cryptosuites (s_cfg s)) csp) || negb (isSupportedCryptosuite csp)
  then sfail s ErrUnsupportedCryptosuite "peer selected unsupported cryptosuite" else
  match rawToInt (wm_Dirp wm) with
  | None => sfail s ErrInvalidData "bad Dirp"
  | Some dirp =>
  if (Z.land dirp (sc_Dirs (s_cfg s)) =? 0) || (dirp <? 1) || (3 <? dirp)
  then sfail s ErrNoMutuallySupportedOOB "no mutually supported OOB direction" else
  match suiteByID csp with
  | None => sfail s ErrUnsupportedCryptosuite ("eapnoob: unsupported cryptosuite " +:+ Itoa csp)
  | Some cs =>
      let m := s_ms s in
      let i := ms_in m in
      let i := mkMacInputs (in_Vers i) (wm_Verp wm) (in_PeerId i) (in_Cryptosuites i) (in_Dirs i) (in_ServerInfo i)
                 (wm_Cryptosuitep wm) (wm_Dirp wm) (rawString (ms_nai m)) (ensureRaw (wm_PeerInfo wm)) (in_PKs i) (in_Ns i)
                 (in_PKp i) (in_Np i) (in_Noob i) in
      buildKeyExchangeRequest e cs (srv_choice verp csp dirp (srv_ms (with_in i (with_suite (Some cs) m)) s))
  end end end end end.

(** Takes over the shared secret and the peer's nonce. *)
Definition set_exchange (z np pkp npRaw : string) (m : methodState) : methodState :=
  let i := ms_in m in
  let i := mkMacInputs (in_Vers i) (in_Verp i) (in_PeerId i) (in_Cryptosuites i) (in_Dirs i) (in_ServerInfo i) (in_Cryptosuitep i)
             (in_Dirp i) (in_NAI i) (in_PeerInfo i) (in_PKs i) (in_Ns i) pkp npRaw (in_Noob i) in
  mkMethod (ms_suite m) (ms_peerId m) (ms_nai m) i (ms_priv m) z (ms_ns m) np (ms_noob m)
  (ms_noobB64 m) (ms_noobID m) (ms_keyM m) (ms_registered m).

Definition onKeyExchange (s : Server) (wm : wireMessage) : server_result :=
  match s_state s, ms_suite (s_ms s), ms_priv (s_ms s) with
  | StateUnregistered, Some cs, Some priv =>
      match checkPeerId s wm with
      | Some err => sfail s ErrUnexpectedPeerIdentier err
      | None =>
      match rawToJWK (wm_PKp wm) with
      | None => sfail s ErrInvalidData "bad PKp"
      | Some jwk =>
      match computeZ cs priv jwk with
      | None => sfail s ErrInvalidData "ECDHE failure"
      | Some z =>
      match rawToString (wm_Np wm) with
      | None => sfail s ErrInvalidData "bad Np"
      | Some npB64 =>
      match b64Decode npB64 with
      | None => sfail s ErrInvalidData "bad Np encoding"
      | Some np =>
          let s := srv_state StateWaiting (srv_ms (set_exchange z np (wm_PKp wm) (wm_Np wm) (s_ms s)) s) in
          (s, ended (s_state s) eapFailure false)
      end end end end end
  | _, _, _ => sfail s ErrStateMismatch "key exchange requires negotiation during the initial exchange"
  end.

Definition buildWaitingRequest (s : Server) : server_result :=
  (s, send (s_state s) (sleep s (set_PeerId (rawString (ms_peerId (s_ms s))) (message typeWaiting)))).

Definition onWaitingResponse (s : Server) (wm : wireMessage) : server_result :=
  match checkPeerId s wm with
  | Some err => sfail s ErrUnexpectedPeerIdentier err
  | None => (s, ended (s_state s) eapFailure false)
  end.

Definition buildCompletionRequest (s : Server) : server_result :=
  let s := srv_ms (deriveCompletionKeys (s_ms s)) s in
  let m := s_ms s in
  let macs := computeMAC (km_Kms (ms_keyM m)) 2 (ms_in m) in
  (s, send (s_state s) (set_PeerId (rawString (ms_peerId m)) (set_NoobId (rawString (b64Encode (ms_noobID m)))
        (set_MACs (rawString (b64Encode macs)) (message typeCompletion))))).

Definition startCompletion (s : Server) (wm : wireMessage) : server_result :=
  match checkPeerId s wm with
  | Some err => sfail s ErrUnexpectedPeerIdentier err
  | None =>
      if bool_decide (ms_noob (s_ms s) = "") then sfail s ErrStateMismatch "no OOB message processed"
      else if s_peerState s =? 2
      then (s, send (s_state s) (set_PeerId (rawString (ms_peerId (s_ms s))) (message typeNoobID)))
      else buildCompletionRequest s
  end.

Definition onDiscovery (e : draws) (s : Server) (wm : wireMessage) : server_result :=
  match wm_PeerState wm with
  | None => sfail s ErrInvalidData "missing PeerState"
  | Some ps =>
      let m := s_ms s in
      let nai := if bool_decide (wm_NAI wm = "") then ms_nai m else default (ms_nai m) (rawToString (wm_NAI wm)) in
      let nai := if bool_decide (nai = "") then defaultNAI else nai in
      let s := srv_peerState ps (srv_ms (with_nai nai m) s) in
      let ss := state_int (s_state s) in
      if ((ss =? 2) && ((ps =? 1) || (ps =? 2))) || ((ps =? 2) && ((ss =? 1) || (ss =? 2))) then startCompletion s wm
      else if (ss =? 1) && (ps =? 1) then buildWaitingRequest s
      else if (ss =? 0) || (ps =? 0) then buildNegotiationRequest e s
      else sfail s ErrStateMismatch ("server state " +:+ (Itoa ss +:+ (" / peer state " +:+ Itoa ps)))
  end.

Definition onNoobID (s : Server) (wm : wireMessage) : server_result :=
  match checkPeerId s wm with
  | Some err => sfail s ErrUnexpectedPeerIdentier err
  | None =>
  match decodeNoobID (wm_NoobId wm) with
  | None => sfail s ErrInvalidData "bad NoobId"
  | Some noobID =>
      if bool_decide (noobID = ms_noobID (s_ms s)) then buildCompletionRequest s
      else sfail s ErrUnrecognizedOOBMsgID "unrecognized NoobId"
  end end.

(** The association the current keys make. *)
Definition association (m : methodState) (csp : Z) : Association :=
  mkAssociation (ms_peerId m) (ms_nai m) csp (km_Kz (ms_keyM m)).

Definition onCompletion (e : draws) (s : Server) (wm : wireMessage) : server_result :=
  if negb (bool_decide (s_state s = StateWaiting)) && negb (bool_decide (s_state s = StateOOBReceived))
     || bool_decide (ms_suite (s_ms s) = None) || bool_decide (km_Kmp (ms_keyM (s_ms s)) = "")
  then sfail s ErrStateMismatch "completion before authentication keys are ready" else
  match checkPeerId s wm with
  | Some err => sfail s ErrUnexpectedPeerIdentier err
  | None =>
  match decodeMAC (wm_MACp wm) with
  | None => sfail s ErrInvalidData "bad MACp"
  | Some macp =>
      if negb (bool_decide (macp = computeMAC (km_Kmp (ms_keyM (s_ms s))) 1 (ms_in (s_ms s))))
      then sfail s ErrHMACVerificationFailed "MACp verification failed" else
      if negb (d_save e) then (s, None) else
      let a := association (s_ms s) (s_csp s) in
      let s := srv_state StateRegistered (srv_ms (with_registered (Some a) (s_ms s))
                 (srv_store (store_Save (s_store s) a) s)) in
      (s, ended (s_state s) eapSuccess true)
  end end.

Definition server_Receive (e : draws) (s : Server) (b : string) : server_result :=
  match decode b with
  | None => sfail s ErrInvalidMessageStructure "malformed JSON"
  | Some wm =>
      match wm_ErrorCode wm with
      | Some c => (s, Some (mkOutcome "" (s_state s) true false (Some (mkProtocolError c (wm_ErrorInfo wm)))))
      | None =>
          match wm_Type wm with
          | None => sfail s ErrInvalidMessageStructure "missing Type"
          | Some t =>
              if t =? typeDiscovery then onDiscovery e s wm
              else if t =? typeNegotiation then onNegotiation e s wm
              else if t =? typeKeyExchange then onKeyExchange s wm
              else if t =? typeWaiting then onWaitingResponse s wm
              else if t =? typeNoobID then onNoobID s wm
              else if t =? typeCompletion then onCompletion e s wm
              else sfail s ErrUnexpectedMessageType ("unexpected type " +:+ Itoa t)
          end
      end
  end.

(** The out-of-band operations: [None] is their error. *)
Definition server_OOBOutput (rand : option string) (s : Server) : Server * option OOBMessage :=
  if negb (bool_decide (s_state s = StateWaiting)) then (s, None)
  else if negb (s_dirp s =? 2) && negb (s_dirp s =? 3) then (s, None)
  else let '(m, r) := oobOutput (s_ms s) 2 rand in (srv_ms m s, r).

Definition server_OOBOutputWith (noob : string) (s : Server) : Server * option OOBMessage :=
  if negb (bool_decide (s_state s = StateWaiting)) then (s, None)
  else if negb (s_dirp s =? 2) && negb (s_dirp s =? 3) then (s, None)
  else let '(m, r) := oobOutputWith (s_ms s) 2 noob in (srv_ms m s, r).

Definition server_OOBInput (msg : OOBMessage) (s : Server) : Server * bool :=
  if negb (bool_decide (s_state s = StateWaiting)) then (s, false)
  else if negb (s_dirp s =? 1) && negb (s_dirp s =? 3) then (s, false)
  else let '(m, ok) := oobInput (s_ms s) 1 msg in
       if ok then (srv_state StateOOBReceived (srv_ms m s), true) else (srv_ms m s, false).

(** ** The peer (peer.go) *)

Record PeerConfig : Type := mkPeerConfig {
  pc_NAI : string; pc_Versions : list Z; pc_Cryptosuites : list Z; pc_PreferDir : Z;
  pc_PeerInfo : option (option string)
}.

Record Peer : Type := mkPeer {
  p_cfg : PeerConfig; p_store : MemoryStore; p_state : State; p_completionVerified : bool;
  p_ms : methodState; p_verp : Z; p_csp : Z; p_dirp : Z
}.

Definition NewPeer (cfg : PeerConfig) : Peer :=
  let cfg := mkPeerConfig
    (if bool_decide (pc_NAI cfg = "") then defaultNAI else pc_NAI cfg)
    (if bool_decide (pc_Versions cfg = []) then [1] else pc_Versions cfg)
    (if bool_decide (pc_Cryptosuites cfg = []) then [1; 2] else pc_Cryptosuites cfg)
    (pc_PreferDir cfg) (pc_PeerInfo cfg) in
  mkPeer cfg ∅ StateUnregistered false (with_nai (pc_NAI cfg) method0) 0 0 0.

Definition pr_store (v : MemoryStore) (p : Peer) : Peer :=
  mkPeer (p_cfg p) v (p_state p) (p_completionVerified p) (p_ms p) (p_verp p) (p_csp p)
  (p_dirp p).
Definition pr_state (v : State) (p : Peer) : Peer :=
  mkPeer (p_cfg p) (p_store p) v (p_completionVerified p) (p_ms p) (p_verp p) (p_csp p)
  (p_dirp p).
Definition pr_completionVerified (v : bool) (p : Peer) : Peer :=
  mkPeer (p_cfg p) (p_store p) (p_state p) v (p_ms p) (p_verp p) (p_csp p) (p_dirp p).
Definition pr_ms (v : methodState) (p : Peer) : Peer :=
  mkPeer (p_cfg p) (p_store p) (p_state p) (p_completionVerified p) v (p_verp p) (p_csp p)
  (p_dirp p).
Definition pr_choice (verp csp dirp : Z) (p : Peer) : Peer :=
  mkPeer (p_cfg p) (p_store p) (p_state p) (p_completionVerified p) (p_ms p) verp csp dirp.

Definition peer_result : Type := Peer * option Outcome.
Definition pfail (p : Peer) (code : Z) (info : string) : peer_result := (p, fail (p_state p) code info).

(** The greatest common version; a negative one is never chosen. *)
Definition bestVersion (serverVers peerVers : list Z) : option Z :=
  let '(best, ok) := foldl (fun b v => if containsInt peerVers v && (b.1 <=? v) then (v, true) else b) (0, false) serverVers in
  if ok then Some best else None.

Definition firstSupported (serverCS peerCS : list Z) : option Z :=
  find (fun c => containsInt peerCS c && isSupportedCryptosuite c) serverCS.

Definition chooseDir (serverDirs prefer : Z) : option Z :=
  if serverDirs =? 1 then Some 1
  else if serverDirs =? 2 then Some 2
  else if serverDirs =? 3 then Some (if (prefer =? 1) || (prefer =? 2) then prefer else 2)
  else None.

Definition onResult (e : draws) (p : Peer) (wm : wireMessage) : peer_result :=
  let verified := p_completionVerified p in
  let p := pr_completionVerified false p in
  if bool_decide (wm_EAP wm = eapSuccess) then
    if negb verified then pfail p ErrStateMismatch "success before verified Completion"
    else if negb (d_save e) then (p, None)
    else
      let a := association (p_ms p) (p_csp p) in
      let p := pr_state StateRegistered (pr_ms (with_registered (Some a) (p_ms p)) (pr_store (store_Save (p_store p) a) p)) in
      (p, Some (mkOutcome "" (p_state p) true true None))
  else (p, Some (mkOutcome "" (p_state p) true false None)).

Definition onDiscoveryRequest (p : Peer) : peer_result :=
  let m := set_PeerState (Some (state_int (p_state p))) (set_NAI (rawString (ms_nai (p_ms p))) (message typeDiscovery)) in
  let m := if negb (bool_decide (p_state p = StateUnregistered)) && negb (bool_decide (ms_peerId (p_ms p) = ""))
           then set_PeerId (rawString (ms_peerId (p_ms p))) m else m in
  (p, send (p_state p) m).

Definition onNegotiationRequest (p : Peer) (wm : wireMessage) : peer_result :=
  match rawToString (wm_PeerId wm) with
  | None => pfail p ErrInvalidData "bad PeerId"
  | Some peerId =>
  let p := pr_ms (with_peerId peerId (p_ms p)) p in
  match rawToIntSlice (wm_Vers wm) with
  | None => pfail p ErrInvalidData "bad Vers"
  | Some serverVers =>
  match bestVersion serverVers (pc_Versions (p_cfg p)) with
  | None => pfail p ErrUnsupportedVersion "no common protocol version"
  | Some verp =>
  match rawToIntSlice (wm_Cryptosuites wm) with
  | None => pfail p ErrInvalidData "bad Cryptosuites"
  | Some serverCS =>
  match firstSupported serverCS (pc_Cryptosuites (p_cfg p)) with
  | None => pfail p ErrUnsupportedCryptosuite "no common cryptosuite"
  | Some csp =>
  match rawToInt (wm_Dirs wm) with
  | None => pfail p ErrInvalidData "bad Dirs"
  | Some serverDirs =>
  match chooseDir serverDirs (pc_PreferDir (p_cfg p)) with
  | None => pfail p ErrNoMutuallySupportedOOB "no mutually supported OOB direction"
  | Some dirp =>
  match suiteByID csp with
  | None => pfail p ErrUnsupportedCryptosuite ("eapnoob: unsupported cryptosuite " +:+ Itoa csp)
  | Some cs =>
      let m := with_suite (Some cs) (p_ms p) in
      let m := if bool_decide (wm_NewNAI wm = "") then m
               else match rawToString (wm_NewNAI wm) with Some nai => with_nai nai m | None => m end in
      let i := ms_in m in
      let info := marshalInfo (pc_PeerInfo (p_cfg p)) in
      let i := mkMacInputs (wm_Vers wm) (rawInt verp) (wm_PeerId wm) (wm_Cryptosuites wm) (wm_Dirs wm) (ensureRaw (wm_ServerInfo wm))
                 (rawInt csp) (rawInt dirp) (rawString (ms_nai m)) info (in_PKs i) (in_Ns i) (in_PKp i) (in_Np i) (in_Noob i) in
      let p := pr_choice verp csp dirp (pr_ms (with_in i m) p) in
      (p, send (p_state p) (set_Verp (rawInt verp) (set_PeerId (rawString peerId) (set_Cryptosuitep (rawInt csp)
            (set_Dirp (rawInt dirp) (set_PeerInfo info (message typeNegotiation)))))))
  end end end end end end end end.

(** Takes over both nonces, the server's key as received and the secret. *)
Definition set_peer_exchange (priv : PrivateKey) (z ns np pks nsRaw pkp npRaw : string) (m : methodState) : methodState :=
  let i := ms_in m in
  let i := mkMacInputs (in_Vers i) (in_Verp i) (in_PeerId i) (in_Cryptosuites i) (in_Dirs i) (in_ServerInfo i) (in_Cryptosuitep i)
             (in_Dirp i) (in_NAI i) (in_PeerInfo i) pks nsRaw pkp npRaw (in_Noob i) in
  mkMethod (ms_suite m) (ms_peerId m) (ms_nai m) i (Some priv) z ns np (ms_noob m)
  (ms_noobB64 m) (ms_noobID m) (ms_keyM m) (ms_registered m).

Definition onKeyExchangeRequest (e : draws) (p : Peer) (wm : wireMessage) : peer_result :=
  match p_state p, ms_suite (p_ms p) with
  | StateUnregistered, Some cs =>
      match rawToJWK (wm_PKs wm) with
      | None => pfail p ErrInvalidData "bad PKs"
      | Some jwk =>
      match rawToString (wm_Ns wm) with
      | None => pfail p ErrInvalidData "bad Ns"
      | Some nsB64 =>
      match b64Decode nsB64 with
      | None => pfail p ErrInvalidData "bad Ns encoding"
      | Some ns =>
      match generateKeypair cs (d_key e) with
      | None => (p, None)
      | Some (priv, pubJWK) =>
      match computeZ cs priv jwk with
      | None => pfail p ErrInvalidData "ECDHE failure"
      | Some z =>
      match d_nonce e with
      | None => (p, None)
      | Some np =>
          let pkp := jwkRaw pubJWK in
          let npRaw := rawString (b64Encode np) in
          let p := pr_ms (set_peer_exchange priv z ns np (wm_PKs wm) (wm_Ns wm) pkp npRaw (p_ms p)) p in
          let m := set_PeerId (rawString (ms_peerId (p_ms p))) (set_PKp pkp (set_Np npRaw (message typeKeyExchange))) in
          match marshal m with
          | None => (p, None)
          | Some b => let p := pr_state StateWaiting p in (p, Some (mkOutcome b (p_state p) false false None))
          end
      end end end end end end
  | _, _ => pfail p ErrStateMismatch "key exchange requires negotiation during the initial exchange"
  end.

Definition onWaitingRequest (p : Peer) : peer_result :=
  (p, send (p_state p) (set_PeerId (rawString (ms_peerId (p_ms p))) (message typeWaiting))).

Definition onNoobIDRequest (p : Peer) : peer_result :=
  if bool_decide (ms_noobID (p_ms p) = "") then pfail p ErrStateMismatch "no OOB message received"
  else (p, send (p_state p) (set_PeerId (rawString (ms_peerId (p_ms p)))
             (set_NoobId (rawString (b64Encode (ms_noobID (p_ms p)))) (message typeNoobID)))).

Definition onCompletionRequest (p : Peer) (wm : wireMessage) : peer_result :=
  if bool_decide (ms_noob (p_ms p) = "") then pfail p ErrStateMismatch "no OOB message processed" else
  match decodeNoobID (wm_NoobId wm) with
  | None => pfail p ErrInvalidData "bad NoobId"
  | Some noobID =>
  if negb (bool_decide (noobID = ms_noobID (p_ms p))) then pfail p ErrUnrecognizedOOBMsgID "unrecognized NoobId" else
  match decodeMAC (wm_MACs wm) with
  | None => pfail p ErrInvalidData "bad MACs"
  | Some macs =>
      let p := pr_ms (deriveCompletionKeys (p_ms p)) p in
      let k := ms_keyM (p_ms p) in
      let i := ms_in (p_ms p) in
      if negb (bool_decide (macs = computeMAC (km_Kms k) 2 i)) then pfail p ErrHMACVerificationFailed "MACs verification failed" else
      let m := set_PeerId (rawString (ms_peerId (p_ms p))) (set_MACp (rawString (b64Encode (computeMAC (km_Kmp k) 1 i))) (message typeCompletion)) in
      match marshal m with
      | None => (p, None)
      | Some b => (pr_completionVerified true p, Some (mkOutcome b (p_state p) false false None))
      end
  end end.

Definition peer_Receive (e : draws) (p : Peer) (b : string) : peer_result :=
  match decode b with
  | None => pfail (pr_completionVerified false p) ErrInvalidMessageStructure "malformed JSON"
  | Some wm =>
      if negb (bool_decide (wm_EAP wm = "")) then onResult e p wm else
      let p := pr_completionVerified false p in
      match wm_ErrorCode wm with
      | Some c => (p, Some (mkOutcome "" (p_state p) true false (Some (mkProtocolError c (wm_ErrorInfo wm)))))
      | None =>
          match wm_Type wm with
          | None => pfail p ErrInvalidMessageStructure "missing Type"
          | Some t =>
              if t =? typeDiscovery then onDiscoveryRequest p
              else if t =? typeNegotiation then onNegotiationRequest p wm
              else if t =? typeKeyExchange then onKeyExchangeRequest e p wm
              else if t =? typeWaiting then onWaitingRequest p
              else if t =? typeNoobID then onNoobIDRequest p
              else if t =? typeCompletion then onCompletionRequest p wm
              else pfail p ErrUnexpectedMessageType ("unexpected type " +:+ Itoa t)
          end
      end
  end.

Definition peer_OOBOutput (rand : option string) (p : Peer) : Peer * option OOBMessage :=
  if negb (bool_decide (p_state p = StateWaiting)) then (p, None)
  else if negb (p_dirp p =? 1) && negb (p_dirp p =? 3) then (p, None)
  else let '(m, r) := oobOutput (p_ms p) 1 rand in (pr_ms m p, r).

Definition peer_OOBInput (msg : OOBMessage) (p : Peer) : Peer * bool :=
  if negb (bool_decide (p_state p = StateWaiting)) then (p, false)
  else if negb (p_dirp p =? 2) && negb (p_dirp p =? 3) then (p, false)
  else let '(m, ok) := oobInput (p_ms p) 2 msg in
       if ok then (pr_state StateOOBReceived (pr_ms m p), true) else (pr_ms m p, false).

Definition peer_OOBInputNoob (noob : string) (p : Peer) : Peer * bool :=
  if negb (bool_decide (p_state p = StateWaiting)) then (p, false)
  else if negb (p_dirp p =? 2) && negb (p_dirp p =? 3) then (p, false)
  else let '(m, ok) := oobInputNoob (p_ms p) noob in
       if ok then (pr_state StateOOBReceived (pr_ms m p), true) else (pr_ms m p, false).

(** A side that is not registered exports nothing. *)
Definition server_Export (s : Server) : string -> string -> Z -> export_error + string := Export (ms_registered (s_ms s)).
Definition peer_Export (p : Peer) : string -> string -> Z -> export_error + string := Export (ms_registered (p_ms p)).
End Noob.
