(* ===== verification/EapSession.v ===== *)
(** What EAP-NOOB guarantees (services/eap-noob): the invariants of a server and a peer
    under any messages and out-of-band operations, the gate that the out-of-band step is,
    agreement of the two sides, and the pairing of two honest ones. *)
From S2P Require Import Prelude.
From S2P Require Import GoStd.
From S2P Require Import GoBytes.
From S2P Require Import Json.
From S2P Require Import JsonText.
From S2P Require Import EapWire.
From S2P Require Import EapKeys.
From S2P Require Import EapNoob.
Import Wire.

Open Scope string_scope.
Open Scope list_scope.
Open Scope Z_scope.

(** * Texts received *)

Lemma parse_object_closed b l : parse_object b = Some l -> Forall (fun m => text_of m.2 m.1.2) l.
Proof.
  unfold parse_object. destruct (parse b) as [[| | | | | |[|]]|]; try done; [by intros [= <-] | by intros [= <-] |].
  destruct (skip_ws b) as [|c s1]; [done |]. destruct (members _ _ s1) as [[l' r]|] eqn:E; [| done]. intros [= <-].
  destruct (local_all (enough b)) as (_ & _ & Hm). by destruct (Hm _ _ _ _ E) as (x & _ & _ & H).
Qed.

Lemma raw_field_closed name l : Forall (fun m => text_of m.2 m.1.2) l -> closed (raw_field name (texts l)).
Proof.
  intros Hl. unfold raw_field. assert (Forall (fun m : string * string => exists v, text_of v m.2) (texts l)) as Ht.
  { unfold texts. apply Forall_fmap. eapply Forall_impl; [exact Hl |]. intros m Hm. by exists m.2. }
  clear Hl. generalize (texts l) Ht. clear. intros l Hl.
  assert (forall a, closed a -> exists x, field (fun _ x => Some x) name l a = Some x /\ closed x) as H.
  { induction Hl as [|m l Hm _ IH]; intros a Ha; [by exists a |]. unfold field. cbn [foldl].
    destruct (EqualFold_ascii m.1 name); [apply (IH m.2); by right | by apply IH]. }
  destruct (H "" (or_introl eq_refl)) as (x & -> & Hx). exact Hx.
Qed.

Definition wire_closed (m : wireMessage) : Prop :=
  Forall closed [wm_PeerId m; wm_NAI m; wm_NewNAI m; wm_Vers m; wm_Verp m; wm_Cryptosuites m; wm_Cryptosuitep m;
    wm_Dirs m; wm_Dirp m; wm_ServerInfo m; wm_PeerInfo m; wm_PKs m; wm_PKp m; wm_Ns m; wm_Np m; wm_NoobId m; wm_MACs m; wm_MACp m].

(** Every raw field of a received message is one complete JSON text, or absent. *)
Lemma decode_closed b m : decode b = Some m -> wire_closed m.
Proof.
  unfold decode. destruct (parse_object b) as [l|] eqn:E; [| done]. apply parse_object_closed in E. cbv zeta.
  intros H. repeat (apply bind_Some in H as (? & _ & H)). injection H as <-. unfold wire_closed.
  cbn [wm_PeerId wm_NAI wm_NewNAI wm_Vers wm_Verp wm_Cryptosuites wm_Cryptosuitep wm_Dirs wm_Dirp wm_ServerInfo wm_PeerInfo
    wm_PKs wm_PKp wm_Ns wm_Np wm_NoobId wm_MACs wm_MACp].
  repeat (apply Forall_cons; split; [by apply raw_field_closed |]). constructor.
Qed.

Lemma closed_object : closed "{}".
Proof. right. exists (JObj []), 1%nat, 1. split; [by eexists _, _ |]. done. Qed.

Lemma ensureRaw_closed r : closed r -> closed (ensureRaw r).
Proof. unfold ensureRaw. intros H. case_bool_decide; [apply closed_object | done]. Qed.

Lemma closed_ints l : closed (rawIntSlice l).
Proof. apply closed_text_ok, text_ok_ints. Qed.

(** * What a step of the server changes *)

Section Session.
Context {EC : Ecdh} {sha : Sha256}.

(** [injection] would evaluate the messages: the equation of pairs is enough. *)
Ltac pair_intro := let H := fresh in intros H; apply pair_equal_spec in H as [<- <-].

Lemma sfail_same s c i s' r : sfail s c i = (s', r) -> s' = s.
Proof. unfold sfail. by intros [<- _]%pair_equal_spec. Qed.

(** The fields a negotiation request fixes, a negotiation response, and a key request. *)
Definition in_request (cfg : ServerConfig) (id : string) (i : macInputs) : macInputs :=
  mkMacInputs (rawIntSlice (sc_Versions cfg)) (in_Verp i) (rawString (b64Encode id)) (rawIntSlice (sc_Cryptosuites cfg))
    (rawInt (sc_Dirs cfg)) (marshalInfo (sc_ServerInfo cfg)) (in_Cryptosuitep i) (in_Dirp i) (in_NAI i) (in_PeerInfo i)
    (in_PKs i) (in_Ns i) (in_PKp i) (in_Np i) (in_Noob i).
Definition in_response (verp csp dirp nai info : string) (i : macInputs) : macInputs :=
  mkMacInputs (in_Vers i) verp (in_PeerId i) (in_Cryptosuites i) (in_Dirs i) (in_ServerInfo i) csp dirp nai info
    (in_PKs i) (in_Ns i) (in_PKp i) (in_Np i) (in_Noob i).
Definition in_keys (pks ns : string) (i : macInputs) : macInputs :=
  mkMacInputs (in_Vers i) (in_Verp i) (in_PeerId i) (in_Cryptosuites i) (in_Dirs i) (in_ServerInfo i) (in_Cryptosuitep i)
    (in_Dirp i) (in_NAI i) (in_PeerInfo i) pks ns (in_PKp i) (in_Np i) (in_Noob i).

(** The single changes the handlers are made of, with what the code checked before; the
    derivation of the keys comes last in its step and is kept apart.  The changes of the
    out-of-band operations need [oob]. *)
Inductive server_effect (oob : bool) : Server -> Server -> Prop :=
| eff_discovery s ps nai : nai <> "" ->
    server_effect oob s (srv_peerState ps (srv_ms (with_nai nai (s_ms s)) s))
| eff_request s id nai : slen id = 16%nat ->
    server_effect oob s (srv_ms (with_in (in_request (s_cfg s) id (ms_in (s_ms s))) (with_nai nai (with_peerId (b64Encode id) (s_ms s)))) s)
| eff_choice s cs verp csp dirp verpRaw cspRaw dirpRaw info :
    rawToInt verpRaw = Some verp -> rawToInt cspRaw = Some csp -> rawToInt dirpRaw = Some dirp -> suiteByID csp = Some cs ->
    containsInt (sc_Versions (s_cfg s)) verp = true -> containsInt (sc_Cryptosuites (s_cfg s)) csp = true ->
    Forall closed [verpRaw; cspRaw; dirpRaw; info] ->
    server_effect oob s (srv_choice verp csp dirp (srv_ms (with_in (in_response verpRaw cspRaw dirpRaw (rawString (ms_nai (s_ms s))) info
      (ms_in (s_ms s))) (with_suite (Some cs) (s_ms s))) s))
| eff_priv s priv : server_effect oob s (srv_ms (with_priv (Some priv) (s_ms s)) s)
| eff_nonce s pks ns : slen ns = 32%nat -> closed pks ->
    server_effect oob s (srv_ms (with_in (in_keys pks (rawString (b64Encode ns)) (ms_in (s_ms s))) (with_ns ns (s_ms s))) s)
| eff_exchange s cs z np npB64 pkp npRaw : s_state s = StateUnregistered -> ms_suite (s_ms s) = Some cs ->
    rawToString npRaw = Some npB64 -> b64Decode npB64 = Some np -> Forall closed [pkp; npRaw] ->
    server_effect oob s (srv_state StateWaiting (srv_ms (set_exchange z np pkp npRaw (s_ms s)) s))
| eff_noob s noob : oob = true -> s_state s = StateWaiting -> slen noob = 16%nat ->
    server_effect oob s (srv_ms (setNoob noob (s_ms s)) s)
| eff_received s : oob = true -> s_state s = StateWaiting -> server_effect oob s (srv_state StateOOBReceived s)
| eff_register s : s_state s = StateWaiting \/ s_state s = StateOOBReceived -> km_Kmp (ms_keyM (s_ms s)) <> "" ->
    server_effect oob s (srv_state StateRegistered (srv_ms (with_registered (Some (association (s_ms s) (s_csp s))) (s_ms s))
      (srv_store (store_Save (s_store s) (association (s_ms s) (s_csp s))) s))).

(** Whatever the random source yields has the length that was asked for. *)
Definition draws_ok (e : draws) : Prop :=
  (forall id, d_id e = Some id -> slen id = 16%nat) /\ (forall ns, d_nonce e = Some ns -> slen ns = 32%nat).

Abbreviation effects oob := (rtc (server_effect oob)).

Lemma effects_trans oob s1 s2 s3 : effects oob s1 s2 -> effects oob s2 s3 -> effects oob s1 s3.
Proof. intros H1 H2. by transitivity s2. Qed.

Definition settles (oob : bool) (s s' : Server) : Prop :=
  effects oob s s' \/
  exists s1, effects oob s s1 /\ (ms_noob (s_ms s1) <> "" \/ slen (ms_noobID (s_ms s1)) = 16%nat) /\
    s' = srv_ms (deriveCompletionKeys (s_ms s1)) s1.

Lemma effects_settle oob s s' : effects oob s s' -> settles oob s s'.
Proof. by left. Qed.

Lemma buildNegotiationRequest_effects e s s' r : draws_ok e -> buildNegotiationRequest e s = (s', r) -> effects false s s'.
Proof.
  intros [Hid _]. unfold buildNegotiationRequest. destruct (d_id e) as [id|]; [| pair_intro; apply rtc_refl].
  specialize (Hid id eq_refl). case_bool_decide; pair_intro; apply rtc_once; by apply (eff_request _ s id).
Qed.

Lemma encodeJWK_ascii id cs raw j : suiteByID id = Some cs -> encodeJWK cs raw = Some j -> jwk_ascii j.
Proof.
  intros [_ [-> | ->]]%suiteByID_spec; unfold encodeJWK; cbn [cs_ec cs_kty cs_crv].
  - intros [= <-]. repeat (apply Forall_cons; split); [by apply ascii_check | by apply ascii_check | apply b64Encode_ascii | by apply ascii_check | constructor].
  - destruct (_ || _); [done |]. intros [= <-].
    repeat (apply Forall_cons; split); [by apply ascii_check | by apply ascii_check | apply b64Encode_ascii .. | constructor].
Qed.

Lemma generate_ascii id cs k priv j : suiteByID id = Some cs -> generateKeypair cs k = Some (priv, j) -> jwk_ascii j.
Proof.
  intros Hcs. unfold generateKeypair. destruct k as [k|]; [| done]. cbn. destruct (encodeJWK cs _) as [j'|] eqn:E; [| done].
  intros [= _ ->]. by eapply encodeJWK_ascii.
Qed.

Lemma buildKeyExchangeRequest_effects e id cs s s' r : draws_ok e -> suiteByID id = Some cs ->
  buildKeyExchangeRequest e cs s = (s', r) -> effects false s s'.
Proof.
  intros [_ Hns] Hcs. unfold buildKeyExchangeRequest. destruct (generateKeypair cs (d_key e)) as [[k jwk]|] eqn:Ek;
    [| pair_intro; apply rtc_refl].
  apply (generate_ascii _ _ _ _ _ Hcs), text_ok_jwk, closed_text_ok in Ek. cbv zeta.
  destruct (d_nonce e) as [ns|]; pair_intro; [| apply rtc_once, eff_priv].
  eapply effects_trans; [apply rtc_once, (eff_priv _ s k) |]. apply rtc_once.
  apply (eff_nonce _ (srv_ms (with_priv (Some k) (s_ms s)) s) (jwkRaw jwk) ns); [by apply Hns | done].
Qed.

Lemma onNegotiation_effects e s wm s' r : draws_ok e -> wire_closed wm -> onNegotiation e s wm = (s', r) -> effects false s s'.
Proof.
  intros He Hc. unfold onNegotiation. assert (forall c i, sfail s c i = (s', r) -> effects false s s') as Hf by (intros c i ->%sfail_same; apply rtc_refl).
  destruct (checkPeerId s wm); [apply Hf |]. destruct (rawToInt (wm_Verp wm)) as [verp|] eqn:Ev; [| apply Hf].
  destruct (negb (containsInt (sc_Versions (s_cfg s)) verp)) eqn:Cv; [apply Hf |]. apply negb_false_iff in Cv.
  destruct (rawToInt (wm_Cryptosuitep wm)) as [csp|] eqn:Es; [| apply Hf].
  destruct (negb (containsInt (sc_Cryptosuites (s_cfg s)) csp) || negb (isSupportedCryptosuite csp)) eqn:Cs; [apply Hf |].
  apply orb_false_elim in Cs as [Cs _]. apply negb_false_iff in Cs.
  destruct (rawToInt (wm_Dirp wm)) as [dirp|] eqn:Ed; [| apply Hf]. case_bool; [apply Hf |].
  destruct (suiteByID csp) as [cs|] eqn:Ecs; [| apply Hf]. cbv zeta. intros H.
  unfold wire_closed in Hc. repeat match goal with H : Forall closed (_ :: _) |- _ => apply Forall_cons in H as [? H] end.
  eapply effects_trans; [| by eapply buildKeyExchangeRequest_effects]. apply rtc_once.
  apply (eff_choice _ s cs verp csp dirp (wm_Verp wm) (wm_Cryptosuitep wm) (wm_Dirp wm) (ensureRaw (wm_PeerInfo wm))); try done.
  repeat (apply Forall_cons; split; [first [done | by apply ensureRaw_closed] |]). constructor.
Qed.

Lemma onKeyExchange_effects s wm s' r : wire_closed wm -> onKeyExchange s wm = (s', r) -> effects false s s'.
Proof.
  intros Hc. unfold onKeyExchange. assert (forall c i, sfail s c i = (s', r) -> effects false s s') as Hf by (intros c i ->%sfail_same; apply rtc_refl).
  destruct (s_state s) eqn:E0; try apply Hf. destruct (ms_suite (s_ms s)) as [cs|] eqn:Ecs; [| apply Hf].
  destruct (ms_priv (s_ms s)) as [priv|]; [| apply Hf]. destruct (checkPeerId s wm); [apply Hf |].
  destruct (rawToJWK (wm_PKp wm)) as [jwk|]; [| apply Hf]. destruct (computeZ cs priv jwk) as [z|]; [| apply Hf].
  destruct (rawToString (wm_Np wm)) as [npB64|] eqn:En; [| apply Hf]. destruct (b64Decode npB64) as [np|] eqn:Eb; [| apply Hf].
  pair_intro. apply rtc_once. unfold wire_closed in Hc.
  repeat match goal with H : Forall closed (_ :: _) |- _ => apply Forall_cons in H as [? H] end.
  apply (eff_exchange _ s cs z np npB64); try done. repeat (apply Forall_cons; split; [done |]). constructor.
Qed.

Lemma decode_sized_length n r b : decode_sized n r = Some b -> slen b = n.
Proof. unfold decode_sized. intros (x & _ & (y & _ & H)%bind_Some)%bind_Some. by case_bool_decide; simplify_eq. Qed.

Lemma buildCompletionRequest_settles s0 s s' r : effects false s0 s -> ms_noob (s_ms s) <> "" \/ slen (ms_noobID (s_ms s)) = 16%nat ->
  buildCompletionRequest s = (s', r) -> settles false s0 s'.
Proof. intros H0 Hn. unfold buildCompletionRequest. cbv zeta. pair_intro. right. by exists s. Qed.

Lemma onDiscovery_settles e s wm s' r : draws_ok e -> onDiscovery e s wm = (s', r) -> settles false s s'.
Proof.
  intros He. unfold onDiscovery. destruct (wm_PeerState wm) as [ps|]; [| intros ->%sfail_same; left; apply rtc_refl]. cbv zeta.
  set (nai := if bool_decide ((if bool_decide (wm_NAI wm = "") then _ else _) = "") then _ else _).
  assert (nai <> "") as Hnai by (unfold nai; case_bool_decide; [done | done]).
  set (s1 := srv_peerState ps _). assert (effects false s s1) as H1 by (apply rtc_once; by apply (eff_discovery _ s ps nai)).
  assert (forall c i, sfail s1 c i = (s', r) -> settles false s s') as Hf by (intros c i ->%sfail_same; by left).
  clearbody s1. destruct (_ || _); [| destruct (_ && _); [unfold buildWaitingRequest; pair_intro; by left |]].
  - unfold startCompletion. destruct (checkPeerId s1 wm); [apply Hf |]. case_bool_decide as Hn; [apply Hf |].
    destruct (s_peerState s1 =? 2); [pair_intro; by left |]. apply (buildCompletionRequest_settles s s1); [done | by left].
  - destruct (_ || _); [| apply Hf]. intros Hb. left. eapply effects_trans; [exact H1 |]. by eapply buildNegotiationRequest_effects.
Qed.

Lemma onNoobID_settles s wm s' r : onNoobID s wm = (s', r) -> settles false s s'.
Proof.
  unfold onNoobID. assert (forall c i, sfail s c i = (s', r) -> settles false s s') as Hf by (intros c i ->%sfail_same; left; apply rtc_refl).
  destruct (checkPeerId s wm); [apply Hf |]. destruct (decodeNoobID (wm_NoobId wm)) as [id|] eqn:E; [| apply Hf].
  case_bool_decide as Hid; [| apply Hf]. apply decode_sized_length in E. subst id.
  apply (buildCompletionRequest_settles s s); [apply rtc_refl | by right].
Qed.

Lemma onCompletion_effects e s wm s' r : onCompletion e s wm = (s', r) -> effects false s s'.
Proof.
  unfold onCompletion. assert (forall c i, sfail s c i = (s', r) -> effects false s s') as Hf by (intros c i ->%sfail_same; apply rtc_refl).
  destruct (_ || bool_decide (km_Kmp _ = "")) eqn:Eg; [apply Hf |].
  apply orb_false_elim in Eg as [[Eg _]%orb_false_elim Ek]. apply bool_decide_eq_false in Ek.
  destruct (checkPeerId s wm); [apply Hf |]. destruct (decodeMAC (wm_MACp wm)) as [macp|]; [| apply Hf].
  case_bool; [apply Hf |]. destruct (negb (d_save e)); [pair_intro; apply rtc_refl |]. cbv zeta. pair_intro.
  apply rtc_once, eff_register; [| done]. apply andb_false_iff in Eg as [Eg | Eg]; apply negb_false_iff, bool_decide_eq_true in Eg; auto.
Qed.

(** Every message handler is a sequence of these changes. *)
Lemma server_Receive_settles e s b s' r : draws_ok e -> server_Receive e s b = (s', r) -> settles false s s'.
Proof.
  intros He. unfold server_Receive.
  assert (forall c i, sfail s c i = (s', r) -> settles false s s') as Hf by (intros c i ->%sfail_same; left; apply rtc_refl).
  destruct (decode b) as [wm|] eqn:Ed; [| apply Hf]. apply decode_closed in Ed.
  destruct (wm_ErrorCode wm); [pair_intro; left; apply rtc_refl |]. destruct (wm_Type wm) as [t|]; [| apply Hf].
  destruct (t =? typeDiscovery); [by apply onDiscovery_settles |].
  destruct (t =? typeNegotiation); [intros Hr; left; by eapply onNegotiation_effects |].
  destruct (t =? typeKeyExchange); [intros Hr; left; by eapply onKeyExchange_effects |].
  destruct (t =? typeWaiting); [unfold onWaitingResponse; destruct (checkPeerId s wm); [apply Hf | pair_intro; left; apply rtc_refl] |].
  destruct (t =? typeNoobID); [by apply onNoobID_settles |].
  destruct (t =? typeCompletion); [intros Hr; left; by eapply onCompletion_effects | apply Hf].
Qed.

(** * What holds of every server *)

(** The string the keys would be derived from now. *)
Definition held (m : methodState) : string := kdf_secret (ms_z m) (ms_np m) (ms_ns m) (ms_noob m).

(** Keys derived from one of the secrets [l]. *)
Definition derived (l : list string) (k : keyMaterial) : Prop :=
  exists z np ns noob, slen noob = 16%nat /\ kdf_secret z np ns noob ∈ l /\ k = deriveCompletion z np ns noob.

Lemma derived_more l l' k : l ⊆ l' -> derived l k -> derived l' k.
Proof. intros Hl (z & np & ns & noob & Hn & Hin & ->). exists z, np, ns, noob. auto. Qed.

Lemma derived_Kz l k : derived l k -> slen (km_Kmp k) = 32%nat /\ slen (km_Kms k) = 32%nat /\ slen (km_Kz k) = 32%nat.
Proof.
  intros (z & np & ns & noob & _ & _ & ->). destruct (derived_keys z np ns noob) as (-> & -> & ->).
  split_and!; apply sha256_length.
Qed.

(** The recorded nonce, its text and its identifier belong together. *)
Definition noob_recorded (m : methodState) : Prop :=
  slen (ms_noob m) = 16%nat /\ in_Noob (ms_in m) = rawString (b64Encode (ms_noob m)) /\
  ms_noobID m = computeNoobID (rawString (b64Encode (ms_noob m))).

Definition no_noob (m : methodState) : Prop := ms_noob m = "" /\ ms_noobID m = "" /\ in_Noob (ms_in m) = "".

Record server_inv (cfg : ServerConfig) (l : list string) (s : Server) : Prop := mkServerInv {
  si_cfg : s_cfg s = cfg;
  si_closed : Forall closed (mac_fields (ms_in (s_ms s)));
  si_choice : forall cs, ms_suite (s_ms s) = Some cs ->
    suiteByID (s_csp s) = Some cs /\ rawToInt (in_Verp (ms_in (s_ms s))) = Some (s_verp s) /\
    rawToInt (in_Cryptosuitep (ms_in (s_ms s))) = Some (s_csp s) /\ rawToInt (in_Dirp (ms_in (s_ms s))) = Some (s_dirp s) /\
    containsInt (sc_Versions cfg) (s_verp s) = true /\ containsInt (sc_Cryptosuites cfg) (s_csp s) = true;
  si_suite : s_state s <> StateUnregistered -> is_Some (ms_suite (s_ms s));
  si_id : ms_peerId (s_ms s) <> "" -> in_PeerId (ms_in (s_ms s)) = rawString (ms_peerId (s_ms s));
  si_np : s_state s <> StateUnregistered ->
    exists x, rawToString (in_Np (ms_in (s_ms s))) = Some x /\ b64Decode x = Some (ms_np (s_ms s));
  si_noob : no_noob (s_ms s) \/ (noob_recorded (s_ms s) /\ s_state s <> StateUnregistered);
  si_keys : ms_keyM (s_ms s) = keyMaterial0 \/ (derived l (ms_keyM (s_ms s)) /\ noob_recorded (s_ms s));
  si_registered : (s_state s <> StateRegistered /\ ms_registered (s_ms s) = None) \/
    (s_state s = StateRegistered /\ exists a k, ms_registered (s_ms s) = Some a /\ derived l k /\ as_Kz a = km_Kz k)
}.

Lemma mac_fields_forall (P : string -> Prop) i : Forall P (mac_fields i) <->
  P (in_Vers i) /\ P (in_Verp i) /\ P (in_PeerId i) /\ P (in_Cryptosuites i) /\ P (in_Dirs i) /\ P (in_ServerInfo i) /\
  P (in_Cryptosuitep i) /\ P (in_Dirp i) /\ P (in_NAI i) /\ P (in_PeerInfo i) /\ P (in_PKs i) /\ P (in_Ns i) /\
  P (in_PKp i) /\ P (in_Np i) /\ P (in_Noob i).
Proof. unfold mac_fields. rewrite !Forall_cons, Forall_nil. tauto. Qed.

Lemma NewServer_inv cfg : server_inv (s_cfg (NewServer cfg)) [] (NewServer cfg).
Proof.
  constructor; try done.
  - cbn. repeat (apply Forall_cons; split; [by left |]). constructor.
  - by left.
  - by left.
  - by left.
Qed.

Ltac rewrite_state := match goal with H : s_state _ = _ |- _ => rewrite H end.

Lemma effect_inv oob cfg l s s' : closed (marshalInfo (sc_ServerInfo cfg)) -> server_inv cfg l s -> server_effect oob s s' -> server_inv cfg l s'.
Proof.
  intros Hinfo [Hcfg Hcl Hch Hsu Hid Hnp Hnoob Hk Hr] He.
  rewrite mac_fields_forall in Hcl. destruct He; constructor; cbn; try done.
  all: rewrite ?Forall_cons, ?mac_fields_forall in *; cbn; rewrite ?Hcfg in *.
  all: try (split_and!; first [tauto | apply closed_quote | apply closed_ints | apply closed_Itoa]).
  - intros cs' [= <-]. by split_and!.
  - intros _. by exists npB64.
  - destruct Hnoob as [Hn | [Hn _]]; [by left | by right].
  - left. split; [done |]. destruct Hr as [[_ Hr] | [Hr _]]; [done | congruence].
  - right. by split; [split_and! | rewrite_state].
  - destruct Hk as [Hk | [Hk _]]; [by left | right; split; [done | by split_and!]].
  - intros _. apply Hsu. by rewrite_state.
  - intros _. apply Hnp. by rewrite_state.
  - destruct Hnoob as [Hn | [Hn _]]; [by left | by right].
  - left. split; [done |]. destruct Hr as [[_ Hr] | [Hr _]]; [done | congruence].
  - intros _. apply Hsu. destruct H as [-> | ->]; done.
  - intros _. apply Hnp. destruct H as [-> | ->]; done.
  - destruct Hnoob as [Hn | [Hn _]]; [by left | by right].
  - right. split; [done |]. eexists _, (ms_keyM (s_ms s)). split; [reflexivity |]. split; [| done].
    destruct Hk as [Hk | [Hk _]]; [by rewrite Hk in H0 | done].
Qed.

Lemma effects_inv oob cfg l s s' : closed (marshalInfo (sc_ServerInfo cfg)) -> server_inv cfg l s -> effects oob s s' -> server_inv cfg l s'.
Proof. intros Hinfo Hs He. induction He as [|s s1 s2 H1 _ IH]; [done |]. apply IH. by eapply effect_inv. Qed.

Lemma server_inv_more cfg l l' s : l ⊆ l' -> server_inv cfg l s -> server_inv cfg l' s.
Proof.
  intros Hl [Hcfg Hcl Hch Hsu Hid Hnp Hnoob Hk Hr]. constructor; try done.
  - destruct Hk as [Hk | [Hk Hn]]; [by left | right; split; [by eapply derived_more | done]].
  - destruct Hr as [Hr | (Hst & a & k & Ha & Hd & HK)]; [by left | right; split; [done |]]. exists a, k. split; [done |]. split; [by eapply derived_more | done].
Qed.

(** A step keeps the invariant once the secret it leaves behind is listed. *)
Lemma settles_inv oob cfg l s s' : closed (marshalInfo (sc_ServerInfo cfg)) -> server_inv cfg l s -> settles oob s s' ->
  server_inv cfg (held (s_ms s') :: l) s'.
Proof.
  intros Hinfo Hs [He | (s1 & He & Hn & ->)].
  - apply (server_inv_more _ l); [set_solver |]. by eapply effects_inv.
  - pose proof (effects_inv _ _ _ _ _ Hinfo Hs He) as H1. apply (server_inv_more _ _ (held (s_ms s1) :: l)) in H1; [| set_solver].
    destruct H1 as [Hcfg Hcl Hch Hsu Hid Hnp Hnoob Hk Hr]. constructor; try done.
    assert (noob_recorded (s_ms s1)) as Hrec.
    { destruct Hnoob as [(H1 & H2 & _) | [Hrec _]]; [| done]. destruct Hn as [Hn | Hn]; [done | by rewrite H2 in Hn]. }
    right. split; [| exact Hrec]. exists (ms_z (s_ms s1)), (ms_np (s_ms s1)), (ms_ns (s_ms s1)), (ms_noob (s_ms s1)).
    split; [apply Hrec |]. split; [left | done].
Qed.

(** ** Steps and runs of a server *)

Inductive server_step : Server -> Server -> Prop :=
| step_receive e b s s' r : draws_ok e -> server_Receive e s b = (s', r) -> server_step s s'
| step_output rand s s' r : (forall noob, rand = Some noob -> slen noob = 16%nat) -> server_OOBOutput rand s = (s', r) -> server_step s s'
| step_output_with noob s s' r : server_OOBOutputWith noob s = (s', r) -> server_step s s'
| step_input msg s s' r : server_OOBInput msg s = (s', r) -> server_step s s'.

(** A server after any steps, with the secrets it held after each. *)
Inductive server_run (cfg : ServerConfig) : list string -> Server -> Prop :=
| server_new : server_run cfg [] (NewServer cfg)
| server_more l s s' : server_run cfg l s -> server_step s s' -> server_run cfg (held (s_ms s') :: l) s'.

(** The optional change of the recorded nonce. *)
Lemma noob_effects s m r : s_state s = StateWaiting ->
  (m = s_ms s \/ exists noob, slen noob = 16%nat /\ m = setNoob noob (s_ms s)) -> r = srv_ms m s -> effects true s r.
Proof.
  intros Hst [-> | (noob & Hn & ->)] ->; [by destruct s; apply rtc_refl |]. apply rtc_once. by apply eff_noob.
Qed.

Lemma oobOutput_changes m dir rand m' r : (forall noob, rand = Some noob -> slen noob = 16%nat) -> oobOutput m dir rand = (m', r) ->
  m' = m \/ exists noob, slen noob = 16%nat /\ m' = setNoob noob m.
Proof.
  intros Hr. unfold oobOutput. destruct rand as [noob|]; cbv zeta; pair_intro; [right; exists noob; split; [by apply Hr | done] | by left].
Qed.

Lemma oobOutputWith_changes m dir noob m' r : oobOutputWith m dir noob = (m', r) ->
  m' = m \/ exists noob, slen noob = 16%nat /\ m' = setNoob noob m.
Proof.
  unfold oobOutputWith. destruct (slen noob =? 16)%nat eqn:E; cbn [negb]; cbv zeta; pair_intro; [right | by left].
  exists noob. split; [by apply Nat.eqb_eq | done].
Qed.

Lemma oobInput_changes m dir msg m' r : oobInput m dir msg = (m', r) ->
  m' = m \/ exists noob, slen noob = 16%nat /\ m' = setNoob noob m.
Proof.
  unfold oobInput. destruct (_ && _); [pair_intro; by left |]. destruct (b64Decode (oob_Noob msg)) as [noob|]; [| pair_intro; by left].
  destruct (slen noob =? 16)%nat eqn:E; cbn [negb]; cbv zeta; pair_intro; [right | by left].
  exists noob. split; [by apply Nat.eqb_eq | done].
Qed.

Lemma effect_oob s s' : server_effect false s s' -> server_effect true s s'.
Proof. intros []; try discriminate; by econstructor. Qed.

Lemma settles_oob s s' : settles false s s' -> settles true s s'.
Proof.
  intros [H | (s1 & H & Hn)]; [left | right; exists s1; split; [| done]];
    (eapply rtc_subrel; [intros ? ?; apply effect_oob | exact H]).
Qed.

Lemma server_step_settles s s' : server_step s s' -> settles true s s'.
Proof.
  intros [e b s0 s1 r He Hr | rand s0 s1 r Hrand Hr | noob s0 s1 r Hr | msg s0 s1 r Hr].
  - eapply settles_oob. by eapply server_Receive_settles.
  - left. unfold server_OOBOutput in Hr. case_bool_decide as Hst; cbn [negb] in Hr; [| revert Hr; pair_intro; apply rtc_refl].
    destruct (_ && _); [revert Hr; pair_intro; apply rtc_refl |]. destruct (oobOutput _ _ _) as [m o] eqn:E. revert Hr. pair_intro.
    eapply noob_effects; [done | by eapply oobOutput_changes | done].
  - left. unfold server_OOBOutputWith in Hr. case_bool_decide as Hst; cbn [negb] in Hr; [| revert Hr; pair_intro; apply rtc_refl].
    destruct (_ && _); [revert Hr; pair_intro; apply rtc_refl |]. destruct (oobOutputWith _ _ _) as [m o] eqn:E. revert Hr. pair_intro.
    eapply noob_effects; [done | by eapply oobOutputWith_changes | done].
  - left. unfold server_OOBInput in Hr. case_bool_decide as Hst; cbn [negb] in Hr; [| revert Hr; pair_intro; apply rtc_refl].
    destruct (_ && _); [revert Hr; pair_intro; apply rtc_refl |]. destruct (oobInput _ _ _) as [m o] eqn:E.
    assert (effects true s0 (srv_ms m s0)) as H1 by (eapply noob_effects; [done | by eapply oobInput_changes | done]).
    destruct o; revert Hr; pair_intro; [| done]. eapply effects_trans; [exact H1 |]. apply rtc_once.
    by apply (eff_received _ (srv_ms m s0)).
Qed.

Lemma server_run_inv cfg l s : closed (marshalInfo (sc_ServerInfo cfg)) -> server_run cfg l s -> server_inv (s_cfg (NewServer cfg)) l s.
Proof.
  intros Hinfo. induction 1 as [|l s s' _ IH Hs]; [apply NewServer_inv |].
  apply (settles_inv true _ l s); [done | done | by apply server_step_settles].
Qed.

(** * What a step of the peer changes *)

Definition in_offer (wm : wireMessage) (verp csp dirp : Z) (nai info : string) (i : macInputs) : macInputs :=
  mkMacInputs (wm_Vers wm) (rawInt verp) (wm_PeerId wm) (wm_Cryptosuites wm) (wm_Dirs wm) (ensureRaw (wm_ServerInfo wm))
    (rawInt csp) (rawInt dirp) (rawString nai) info (in_PKs i) (in_Ns i) (in_PKp i) (in_Np i) (in_Noob i).

Inductive peer_effect (oob : bool) : Peer -> Peer -> Prop :=
| pe_forget p : peer_effect oob p (pr_completionVerified false p)
| pe_id p id : peer_effect oob p (pr_ms (with_peerId id (p_ms p)) p)
| pe_offer p wm cs verp csp dirp nai : wire_closed wm -> suiteByID csp = Some cs -> in_int64 verp ->
    containsInt (pc_Versions (p_cfg p)) verp = true -> containsInt (pc_Cryptosuites (p_cfg p)) csp = true -> 1 <= dirp <= 3 ->
    peer_effect oob p (pr_choice verp csp dirp (pr_ms (with_in (in_offer wm verp csp dirp nai (marshalInfo (pc_PeerInfo (p_cfg p)))
      (ms_in (p_ms p))) (with_nai nai (with_suite (Some cs) (p_ms p)))) p))
| pe_exchange p wm priv z ns nsB64 np pkp : wire_closed wm -> p_state p = StateUnregistered -> is_Some (ms_suite (p_ms p)) ->
    rawToString (wm_Ns wm) = Some nsB64 -> b64Decode nsB64 = Some ns -> slen np = 32%nat -> closed pkp ->
    peer_effect oob p (pr_ms (set_peer_exchange priv z ns np (wm_PKs wm) (wm_Ns wm) pkp (rawString (b64Encode np)) (p_ms p)) p)
| pe_waiting p : p_state p = StateUnregistered -> is_Some (ms_suite (p_ms p)) -> peer_effect oob p (pr_state StateWaiting p)
| pe_noob p noob : oob = true -> p_state p = StateWaiting -> slen noob = 16%nat -> peer_effect oob p (pr_ms (setNoob noob (p_ms p)) p)
| pe_received p : oob = true -> p_state p = StateWaiting -> peer_effect oob p (pr_state StateOOBReceived p)
| pe_derive p : ms_noob (p_ms p) <> "" -> peer_effect oob p (pr_ms (deriveCompletionKeys (p_ms p)) p)
| pe_verify p : ms_noob (p_ms p) <> "" -> ms_keyM (p_ms p) = deriveCompletion (ms_z (p_ms p)) (ms_np (p_ms p)) (ms_ns (p_ms p)) (ms_noob (p_ms p)) ->
    peer_effect oob p (pr_completionVerified true p)
| pe_register p : p_completionVerified p = true -> peer_effect oob p (pr_state StateRegistered
    (pr_ms (with_registered (Some (association (p_ms p) (p_csp p))) (p_ms p))
      (pr_store (store_Save (p_store p) (association (p_ms p) (p_csp p))) (pr_completionVerified false p)))).

Lemma pfail_same p c i p' r : pfail p c i = (p', r) -> p' = p.
Proof. unfold pfail. by intros [<- _]%pair_equal_spec. Qed.

Lemma find_containsInt f l (c : Z) : find f l = Some c -> f c = true /\ c ∈ l.
Proof. intros H. apply find_some in H as [Hin Hf]. split; [done | by apply list_elem_of_In]. Qed.

Lemma bestVersion_spec l l' v : bestVersion l l' = Some v -> v ∈ l /\ containsInt l' v = true.
Proof.
  unfold bestVersion.
  assert (forall k b, (forall x, x ∈ k -> x ∈ l) -> (b.2 = true -> b.1 ∈ l /\ containsInt l' b.1 = true) ->
    let r := foldl (fun b v => if containsInt l' v && (b.1 <=? v) then (v, true) else b) b k in
    r.2 = true -> r.1 ∈ l /\ containsInt l' r.1 = true) as H.
  { induction k as [|x k IH]; intros b Hk Hb; [done |]. cbn [foldl]. apply IH; [intros y Hy; apply Hk; by right |].
    destruct (containsInt l' x && (b.1 <=? x)) eqn:E; [| done]. intros _. apply andb_prop in E as [E _]. split; [apply Hk; left | done]. }
  specialize (H l (0, false) (fun x Hx => Hx) ltac:(done)). destruct (foldl _ _ l) as [best ok]. destruct ok; [| done].
  intros [= ->]. by apply H.
Qed.

Lemma rawToIntSlice_range r l : rawToIntSlice r = Some l -> Forall in_int64 l.
Proof.
  unfold rawToIntSlice. intros (v & _ & H)%bind_Some. destruct v as [| | | | | vs |]; try done; [injection H as <-; constructor |].
  apply mapM_Some in H. induction H as [|v z vs l Hz _ IH]; constructor; [| done].
  destruct v as [| |z'| | | |]; try done; cbn in Hz; [injection Hz as <-; done |].
  case_bool_decide; [| done]. by injection Hz as <-.
Qed.

Lemma chooseDir_range d p v : chooseDir d p = Some v -> 1 <= v <= 3.
Proof. unfold chooseDir. intros H. branches. Qed.

Abbreviation peer_effects oob := (rtc (peer_effect oob)).

Lemma peer_trans oob p1 p2 p3 : peer_effects oob p1 p2 -> peer_effects oob p2 p3 -> peer_effects oob p1 p3.
Proof. intros H1 H2. by transitivity p2. Qed.

Lemma onResult_effects e p wm p' r : onResult e p wm = (p', r) -> peer_effects false p p'.
Proof.
  unfold onResult. cbv zeta. assert (peer_effects false p (pr_completionVerified false p)) as Hf by (apply rtc_once, pe_forget).
  case_bool_decide; [| pair_intro; done]. destruct (p_completionVerified p) eqn:Ev; cbn [negb];
    [| intros ->%pfail_same; done]. destruct (negb (d_save e)); pair_intro; [done |].
  apply rtc_once. by apply (pe_register _ p).
Qed.

Lemma onNegotiationRequest_effects p wm p' r : wire_closed wm -> onNegotiationRequest p wm = (p', r) -> peer_effects false p p'.
Proof.
  intros Hc. unfold onNegotiationRequest. destruct (rawToString (wm_PeerId wm)) as [id|]; [| intros ->%pfail_same; apply rtc_refl].
  cbv zeta. set (p1 := pr_ms _ _). assert (peer_effects false p p1) as H1 by (apply rtc_once, pe_id). clearbody p1.
  assert (forall c i, pfail p1 c i = (p', r) -> peer_effects false p p') as Hf by (intros c i ->%pfail_same; done).
  destruct (rawToIntSlice (wm_Vers wm)) as [vers|] eqn:Ev; [| apply Hf].
  destruct (bestVersion vers _) as [verp|] eqn:Eb; [| apply Hf]. apply bestVersion_spec in Eb as [Hin Hv].
  apply rawToIntSlice_range in Ev. rewrite Forall_forall in Ev.
  destruct (rawToIntSlice (wm_Cryptosuites wm)) as [css|]; [| apply Hf].
  destruct (firstSupported css _) as [csp|] eqn:Es; [| apply Hf]. apply find_containsInt in Es as [[Hs _]%andb_prop _].
  destruct (rawToInt (wm_Dirs wm)) as [dirs|]; [| apply Hf]. destruct (chooseDir dirs _) as [dirp|] eqn:Ed; [| apply Hf].
  apply chooseDir_range in Ed. destruct (suiteByID csp) as [cs|] eqn:Ecs; [| apply Hf].
  set (m := if bool_decide (wm_NewNAI wm = "") then _ else _).
  assert (exists nai, m = with_nai nai (with_suite (Some cs) (p_ms p1))) as [nai Hm].
  { unfold m. case_bool_decide; [by exists (ms_nai (p_ms p1)) |]. destruct (rawToString (wm_NewNAI wm)) as [n|]; [by exists n | by exists (ms_nai (p_ms p1))]. }
  rewrite Hm. clear m Hm. pair_intro. eapply peer_trans; [exact H1 |]. apply rtc_once.
  apply (pe_offer _ p1 wm cs verp csp dirp nai); try done. by apply Ev.
Qed.

Lemma onKeyExchangeRequest_effects e p wm p' r : draws_ok e -> (forall cs, ms_suite (p_ms p) = Some cs -> exists id, suiteByID id = Some cs) ->
  wire_closed wm -> onKeyExchangeRequest e p wm = (p', r) -> peer_effects false p p'.
Proof.
  intros [_ Hns] Hsuite Hc. unfold onKeyExchangeRequest.
  assert (forall c i, pfail p c i = (p', r) -> peer_effects false p p') as Hf by (intros c i ->%pfail_same; apply rtc_refl).
  destruct (p_state p) eqn:Est; try apply Hf. destruct (ms_suite (p_ms p)) as [cs|] eqn:Ecs; [| apply Hf].
  destruct (Hsuite cs eq_refl) as [id Hid].
  destruct (rawToJWK (wm_PKs wm)) as [jwk|]; [| apply Hf]. destruct (rawToString (wm_Ns wm)) as [nsB64|] eqn:En; [| apply Hf].
  destruct (b64Decode nsB64) as [ns|] eqn:Eb; [| apply Hf].
  destruct (generateKeypair cs (d_key e)) as [[priv pub]|] eqn:Ek; [| pair_intro; apply rtc_refl].
  apply (generate_ascii _ _ _ _ _ Hid), text_ok_jwk, closed_text_ok in Ek.
  destruct (computeZ cs priv jwk) as [z|]; [| apply Hf]. destruct (d_nonce e) as [np|] eqn:Enp; [| pair_intro; apply rtc_refl].
  specialize (Hns np eq_refl). cbv zeta. set (p1 := pr_ms _ p).
  assert (peer_effects false p p1) as H1 by (apply rtc_once, (pe_exchange _ p wm priv z ns nsB64 np (jwkRaw pub)); by rewrite ?Ecs).
  destruct (marshal _) as [b|]; pair_intro; [| done]. eapply peer_trans; [exact H1 |]. apply rtc_once, pe_waiting; [done |].
  cbn. by rewrite Ecs.
Qed.

Lemma onCompletionRequest_effects p wm p' r : onCompletionRequest p wm = (p', r) -> peer_effects false p p'.
Proof.
  unfold onCompletionRequest. assert (forall c i, pfail p c i = (p', r) -> peer_effects false p p') as Hf by (intros c i ->%pfail_same; apply rtc_refl).
  case_bool_decide as Hn; [apply Hf |]. destruct (decodeNoobID (wm_NoobId wm)); [| apply Hf]. destruct (negb _); [apply Hf |].
  destruct (decodeMAC (wm_MACs wm)) as [macs|]; [| apply Hf]. cbv zeta. set (p1 := pr_ms _ p).
  assert (peer_effects false p p1) as H1 by (apply rtc_once; by apply pe_derive).
  destruct (negb _); [intros ->%pfail_same; done |]. destruct (marshal _) as [b|]; pair_intro; [| done].
  eapply peer_trans; [exact H1 |]. apply rtc_once. by apply pe_verify.
Qed.

Lemma peer_Receive_effects e p b p' r : draws_ok e -> (forall cs, ms_suite (p_ms p) = Some cs -> exists id, suiteByID id = Some cs) ->
  peer_Receive e p b = (p', r) -> peer_effects false p p'.
Proof.
  intros He Hsuite. unfold peer_Receive. assert (peer_effects false p (pr_completionVerified false p)) as H1 by (apply rtc_once, pe_forget).
  destruct (decode b) as [wm|] eqn:Ed; [| intros ->%pfail_same; done]. apply decode_closed in Ed.
  destruct (negb (bool_decide (wm_EAP wm = ""))); [by apply onResult_effects |]. cbv zeta.
  set (p1 := pr_completionVerified false p) in *. assert (forall cs, ms_suite (p_ms p1) = Some cs -> exists id, suiteByID id = Some cs) as Hs1 by done.
  clearbody p1. assert (forall c i, pfail p1 c i = (p', r) -> peer_effects false p p') as Hf by (intros c i ->%pfail_same; done).
  assert (peer_effects false p1 p' -> peer_effects false p p') as Ht by (intros; by eapply peer_trans).
  destruct (wm_ErrorCode wm); [pair_intro; done |]. destruct (wm_Type wm) as [t|]; [| apply Hf].
  destruct (t =? typeDiscovery); [unfold onDiscoveryRequest; pair_intro; done |].
  destruct (t =? typeNegotiation); [intros Hr; apply Ht; by eapply onNegotiationRequest_effects |].
  destruct (t =? typeKeyExchange); [intros Hr; apply Ht; by eapply onKeyExchangeRequest_effects |].
  destruct (t =? typeWaiting); [unfold onWaitingRequest; pair_intro; done |].
  destruct (t =? typeNoobID); [unfold onNoobIDRequest; case_bool_decide; [apply Hf | pair_intro; done] |].
  destruct (t =? typeCompletion); [intros Hr; apply Ht; by eapply onCompletionRequest_effects | apply Hf].
Qed.

(** ** Steps and runs of a peer *)

Inductive peer_step : Peer -> Peer -> Prop :=
| pstep_receive e b p p' r : draws_ok e -> peer_Receive e p b = (p', r) -> peer_step p p'
| pstep_output rand p p' r : (forall noob, rand = Some noob -> slen noob = 16%nat) -> peer_OOBOutput rand p = (p', r) -> peer_step p p'
| pstep_input msg p p' r : peer_OOBInput msg p = (p', r) -> peer_step p p'
| pstep_input_noob noob p p' r : peer_OOBInputNoob noob p = (p', r) -> peer_step p p'.

Definition peer_run (cfg : PeerConfig) : Peer -> Prop := rtc peer_step (NewPeer cfg).

(** * What holds of every peer *)

Record peer_inv (cfg : PeerConfig) (p : Peer) : Prop := mkPeerInv {
  pi_cfg : p_cfg p = cfg;
  pi_closed : Forall closed (mac_fields (ms_in (p_ms p)));
  pi_choice : forall cs, ms_suite (p_ms p) = Some cs ->
    suiteByID (p_csp p) = Some cs /\ in_Verp (ms_in (p_ms p)) = rawInt (p_verp p) /\
    in_Cryptosuitep (ms_in (p_ms p)) = rawInt (p_csp p) /\ in_Dirp (ms_in (p_ms p)) = rawInt (p_dirp p) /\
    in_int64 (p_verp p) /\ 1 <= p_dirp p <= 3 /\
    containsInt (pc_Versions cfg) (p_verp p) = true /\ containsInt (pc_Cryptosuites cfg) (p_csp p) = true;
  pi_suite : p_state p <> StateUnregistered -> is_Some (ms_suite (p_ms p));
  pi_noob : no_noob (p_ms p) \/ (noob_recorded (p_ms p) /\ p_state p <> StateUnregistered);
  pi_verified : p_completionVerified p = true -> noob_recorded (p_ms p);
  pi_registered : (p_state p <> StateRegistered /\ ms_registered (p_ms p) = None) \/
    (p_state p = StateRegistered /\ is_Some (ms_registered (p_ms p)) /\ noob_recorded (p_ms p))
}.

Lemma NewPeer_inv cfg : peer_inv (p_cfg (NewPeer cfg)) (NewPeer cfg).
Proof.
  constructor; try done.
  - cbn. repeat (apply Forall_cons; split; [by left |]). constructor.
  - by left.
  - by left.
Qed.

Ltac rewrite_peer := match goal with H : p_state _ = _ |- _ => rewrite H end.

Lemma peer_effect_inv oob cfg p p' : closed (marshalInfo (pc_PeerInfo cfg)) -> peer_inv cfg p -> peer_effect oob p p' -> peer_inv cfg p'.
Proof.
  intros Hinfo [Hcfg Hcl Hch Hsu Hnoob Hv Hr] He. rewrite mac_fields_forall in Hcl. destruct He; constructor; cbn; try done.
  all: unfold wire_closed in *; rewrite ?Forall_cons, ?mac_fields_forall in *; cbn; rewrite ?Hcfg in *.
  all: try (split_and!; first [tauto | apply closed_quote | apply closed_ints | apply closed_Itoa | apply ensureRaw_closed; tauto]).
  - intros cs' [= <-]. repeat (split; [done |]). done.
  - destruct Hnoob as [Hn | [Hn _]]; [by left | by right].
  - left. split; [done |]. destruct Hr as [[_ Hr] | [Hr _]]; [done | congruence].
  - right. by split; [split_and! | rewrite_peer].
  - left. split; [by rewrite_peer |]. destruct Hr as [[_ Hr] | [Hr _]]; [done | congruence].
  - intros _. apply Hsu. by rewrite_peer.
  - destruct Hnoob as [Hn | [Hn _]]; [by left | by right].
  - left. split; [done |]. destruct Hr as [[_ Hr] | [Hr _]]; [done | congruence].
  - intros _. destruct Hnoob as [[Hn _] | [Hn _]]; done.
  - intros _. apply Hsu. destruct Hnoob as [[Hn _] | [_ Hn]]; [| done]. destruct (Hv H) as [Hl _]. by rewrite Hn in Hl.
  - destruct Hnoob as [Hn | [Hn _]]; [by left | by right].
  - right. split; [done |]. split; [by eexists |]. by destruct (Hv H).
Qed.

Lemma peer_effects_inv oob cfg p p' : closed (marshalInfo (pc_PeerInfo cfg)) -> peer_inv cfg p -> peer_effects oob p p' -> peer_inv cfg p'.
Proof. intros Hinfo Hp He. induction He as [|p p1 p2 H1 _ IH]; [done |]. apply IH. by eapply peer_effect_inv. Qed.

Lemma peer_noob_effects p m r : p_state p = StateWaiting ->
  (m = p_ms p \/ exists noob, slen noob = 16%nat /\ m = setNoob noob (p_ms p)) -> r = pr_ms m p -> peer_effects true p r.
Proof.
  intros Hst [-> | (noob & Hn & ->)] ->; [by destruct p; apply rtc_refl |]. apply rtc_once. by apply pe_noob.
Qed.

Lemma oobInputNoob_changes m noob m' r : oobInputNoob m noob = (m', r) ->
  m' = m \/ exists noob, slen noob = 16%nat /\ m' = setNoob noob m.
Proof.
  unfold oobInputNoob. destruct (slen noob =? 16)%nat eqn:E; cbn [negb]; pair_intro; [right | by left].
  exists noob. split; [by apply Nat.eqb_eq | done].
Qed.

Lemma peer_effects_oob p p' : peer_effects false p p' -> peer_effects true p p'.
Proof. intros H. eapply rtc_subrel; [| exact H]. intros ? ? []; try discriminate; by econstructor. Qed.

Lemma peer_step_effects p p' : (forall cs, ms_suite (p_ms p) = Some cs -> exists id, suiteByID id = Some cs) ->
  peer_step p p' -> peer_effects true p p'.
Proof.
  intros Hsuite Hstep. revert Hsuite. destruct Hstep as [e b p0 p1 r He Hr | rand p0 p1 r Hrand Hr | msg p0 p1 r Hr | noob p0 p1 r Hr]; intros Hsuite.
  - apply peer_effects_oob. by eapply peer_Receive_effects.
  - unfold peer_OOBOutput in Hr. case_bool_decide as Hst; cbn [negb] in Hr; [| revert Hr; pair_intro; apply rtc_refl].
    destruct (_ && _); [revert Hr; pair_intro; apply rtc_refl |]. destruct (oobOutput _ _ _) as [m o] eqn:E. revert Hr. pair_intro.
    eapply peer_noob_effects; [done | by eapply oobOutput_changes | done].
  - unfold peer_OOBInput in Hr. case_bool_decide as Hst; cbn [negb] in Hr; [| revert Hr; pair_intro; apply rtc_refl].
    destruct (_ && _); [revert Hr; pair_intro; apply rtc_refl |]. destruct (oobInput _ _ _) as [m o] eqn:E.
    assert (peer_effects true p0 (pr_ms m p0)) as H1 by (eapply peer_noob_effects; [done | by eapply oobInput_changes | done]).
    destruct o; revert Hr; pair_intro; [| done]. eapply peer_trans; [exact H1 |]. apply rtc_once. by apply (pe_received _ (pr_ms m p0)).
  - unfold peer_OOBInputNoob in Hr. case_bool_decide as Hst; cbn [negb] in Hr; [| revert Hr; pair_intro; apply rtc_refl].
    destruct (_ && _); [revert Hr; pair_intro; apply rtc_refl |]. destruct (oobInputNoob _ _) as [m o] eqn:E.
    assert (peer_effects true p0 (pr_ms m p0)) as H1 by (eapply peer_noob_effects; [done | by eapply oobInputNoob_changes | done]).
    destruct o; revert Hr; pair_intro; [| done]. eapply peer_trans; [exact H1 |]. apply rtc_once. by apply (pe_received _ (pr_ms m p0)).
Qed.

Lemma peer_inv_suite cfg p : peer_inv cfg p -> forall cs, ms_suite (p_ms p) = Some cs -> exists id, suiteByID id = Some cs.
Proof. intros Hp cs Hcs. exists (p_csp p). by destruct (pi_choice _ _ Hp cs Hcs). Qed.

Lemma peer_step_inv cfg p p' : closed (marshalInfo (pc_PeerInfo cfg)) -> peer_inv cfg p -> peer_step p p' -> peer_inv cfg p'.
Proof. intros Hinfo Hp Hs. apply (peer_effects_inv true _ p); [done | done |]. apply peer_step_effects; [by eapply peer_inv_suite | done]. Qed.

Lemma peer_run_inv cfg p : closed (marshalInfo (pc_PeerInfo cfg)) -> peer_run cfg p -> peer_inv (p_cfg (NewPeer cfg)) p.
Proof.
  intros Hinfo. apply (rtc_ind_r (fun p => peer_inv (p_cfg (NewPeer cfg)) p)); [apply NewPeer_inv |].
  intros p1 p2 _ Hs IH. by apply (peer_step_inv _ p1).
Qed.

(** * Agreement *)

Lemma fail_quiet st c i o : fail st c i = Some o -> o_Success o = false /\ o_State o = st.
Proof. unfold fail. intros (b & _ & Ho)%bind_Some. by injection Ho as <-. Qed.

Lemma send_quiet st m o : send st m = Some o -> o_Success o = false /\ o_State o = st.
Proof. unfold send. intros (b & _ & Ho)%bind_Some. by injection Ho as <-. Qed.

Lemma sfail_fails s c i s' o : sfail s c i = (s', Some o) -> o_Success o = true -> False.
Proof. unfold sfail. intros [_ [Ho _]%fail_quiet]%pair_equal_spec. congruence. Qed.

Lemma sent_fails (s s' : Server) st m o : (s, send st m) = (s', Some o) -> o_Success o = true -> False.
Proof. intros [_ [Ho _]%send_quiet]%pair_equal_spec. congruence. Qed.

(** Only a verified code registers the server. *)
Lemma server_registers e s b s' o : server_Receive e s b = (s', Some o) -> o_Success o = true ->
  exists wm, decode b = Some wm /\ wm_Type wm = Some typeCompletion /\
    decodeMAC (wm_MACp wm) = Some (computeMAC (km_Kmp (ms_keyM (s_ms s))) 1 (ms_in (s_ms s))) /\
    (s_state s = StateWaiting \/ s_state s = StateOOBReceived) /\ km_Kmp (ms_keyM (s_ms s)) <> "" /\ checkPeerId s wm = None /\
    s' = srv_state StateRegistered (srv_ms (with_registered (Some (association (s_ms s) (s_csp s))) (s_ms s))
           (srv_store (store_Save (s_store s) (association (s_ms s) (s_csp s))) s)).
Proof.
  unfold server_Receive. intros H Hs.
  assert (Hf : forall s0 c i, sfail s0 c i = (s', Some o) -> False) by (intros s0 c i E; by eapply sfail_fails).
  assert (Hsent : forall s0 m st, (s0, send st m) = (s', Some o) -> False) by (intros s0 m st E; by eapply sent_fails).
  destruct (decode b) as [wm|] eqn:Ed; [| by apply Hf in H]. destruct (wm_ErrorCode wm).
  { apply pair_equal_spec in H as [_ H]. injection H as <-. done. }
  destruct (wm_Type wm) as [t|] eqn:Et; [| by apply Hf in H].
  assert (Hcomp : forall s0, buildCompletionRequest s0 = (s', Some o) -> False)
    by (intros s0; unfold buildCompletionRequest; cbv zeta; apply Hsent).
  assert (Hend : forall s0 : Server, (s0, ended (s_state s0) eapFailure false) = (s', Some o) -> False).
  { intros s0 E. apply pair_equal_spec in E as [_ E]. injection E as <-. done. }
  destruct (t =? typeDiscovery).
  { exfalso. unfold onDiscovery in H. destruct (wm_PeerState wm) as [ps|]; [| by apply Hf in H]. cbv zeta in H.
    revert H. set (s1 := srv_peerState ps _). clearbody s1. intros H. destruct (_ || _) in H; [| destruct (_ && _) in H; [by apply Hsent in H |]].
    - unfold startCompletion in H. destruct (checkPeerId s1 wm); [by apply Hf in H |]. destruct (bool_decide _) in H; [by apply Hf in H |].
      destruct (s_peerState s1 =? 2); [by apply Hsent in H | by apply Hcomp in H].
    - destruct (_ || _) in H; [| by apply Hf in H]. unfold buildNegotiationRequest in H. destruct (d_id e); [| by apply pair_equal_spec in H as [_ H]].
      cbv zeta in H. destruct (bool_decide _) in H; by apply Hsent in H. }
  destruct (t =? typeNegotiation).
  { exfalso. unfold onNegotiation in H. repeat (case_match; try (by apply Hf in H)). cbv zeta in H.
    unfold buildKeyExchangeRequest in H. destruct (generateKeypair _ _) as [[k j]|]; [| by apply pair_equal_spec in H as [_ H]].
    cbv zeta in H. destruct (d_nonce e); [by apply Hsent in H | by apply pair_equal_spec in H as [_ H]]. }
  destruct (t =? typeKeyExchange).
  { exfalso. unfold onKeyExchange in H. repeat (case_match; try (by apply Hf in H)). cbv zeta in H. by apply Hend in H. }
  destruct (t =? typeWaiting).
  { exfalso. unfold onWaitingResponse in H. case_match; [by apply Hf in H | by apply Hend in H]. }
  destruct (t =? typeNoobID).
  { exfalso. unfold onNoobID in H. repeat (case_match; try (by apply Hf in H)). by apply Hcomp in H. }
  destruct (t =? typeCompletion) eqn:Et6; [| by apply Hf in H]. apply Z.eqb_eq in Et6 as ->.
  unfold onCompletion in H. destruct (_ || bool_decide (km_Kmp _ = "")) eqn:Eg; [by apply Hf in H |].
  apply orb_false_elim in Eg as [[Eg _]%orb_false_elim Ek]. apply bool_decide_eq_false in Ek.
  destruct (checkPeerId s wm) eqn:Ec; [by apply Hf in H |]. destruct (decodeMAC (wm_MACp wm)) as [macp|] eqn:Em; [| by apply Hf in H].
  case_bool_decide as Emac; [| by apply Hf in H]. cbn [negb] in H. destruct (negb (d_save e)); [by apply pair_equal_spec in H as [_ H] |].
  cbv zeta in H. apply pair_equal_spec in H as [<- _]. exists wm. subst macp. split; [done |]. split; [done |]. split; [done |].
  split; [| done]. apply andb_false_iff in Eg as [Eg | Eg]; apply negb_false_iff, bool_decide_eq_true in Eg; auto.
Qed.

(** A peer that has just verified a code. *)
Lemma peer_verifies e p0 b p r : peer_Receive e p0 b = (p, r) -> p_completionVerified p = true ->
  exists wm o, decode b = Some wm /\ r = Some o /\
    decodeMAC (wm_MACs wm) = Some (computeMAC (km_Kms (ms_keyM (p_ms p))) 2 (ms_in (p_ms p))) /\
    ms_keyM (p_ms p) = deriveCompletion (ms_z (p_ms p)) (ms_np (p_ms p)) (ms_ns (p_ms p)) (ms_noob (p_ms p)) /\
    marshal (set_PeerId (rawString (ms_peerId (p_ms p))) (set_MACp (rawString (b64Encode
      (computeMAC (km_Kmp (ms_keyM (p_ms p))) 1 (ms_in (p_ms p))))) (message typeCompletion))) = Some (o_Send o).
Proof.
  unfold peer_Receive. intros H Hv.
  assert (Hno : forall p1 : Peer, p_completionVerified p1 = false -> p <> p1) by congruence.
  assert (Hf : forall p1 c i, p_completionVerified p1 = false -> pfail p1 c i = (p, r) -> False).
  { intros p1 c i H1 E. apply pfail_same in E. by apply (Hno p1). }
  assert (Hpair : forall (p1 : Peer) (r1 : option Outcome), p_completionVerified p1 = false -> (p1, r1) = (p, r) -> False).
  { intros p1 r1 H1 [E _]%pair_equal_spec. by apply (Hno p1). }
  destruct (decode b) as [wm|] eqn:Ed; [| by apply Hf in H]. destruct (negb _).
  { exfalso. unfold onResult in H. cbv zeta in H. case_match; [| by apply Hpair in H]. case_match; [by apply Hf in H |].
    case_match; by apply Hpair in H. }
  cbv zeta in H. revert H. set (p1 := pr_completionVerified false p0). intros H.
  assert (p_completionVerified p1 = false) as H1 by done. clearbody p1.
  destruct (wm_ErrorCode wm); [by apply Hpair in H |]. destruct (wm_Type wm) as [t|]; [| by apply Hf in H].
  destruct (t =? typeDiscovery); [by apply Hpair in H |].
  destruct (t =? typeNegotiation).
  { exfalso. unfold onNegotiationRequest in H. destruct (rawToString (wm_PeerId wm)) as [id|]; [| by apply Hf in H]. cbv zeta in H.
    do 7 (case_match; [| by apply Hf in H]). by apply Hpair in H. }
  destruct (t =? typeKeyExchange).
  { exfalso. unfold onKeyExchangeRequest in H. repeat (case_match; try (by apply Hf in H); try (by apply Hpair in H)). }
  destruct (t =? typeWaiting); [by apply Hpair in H |].
  destruct (t =? typeNoobID); [unfold onNoobIDRequest in H; case_match; [by apply Hf in H | by apply Hpair in H] |].
  destruct (t =? typeCompletion); [| by apply Hf in H].
  unfold onCompletionRequest in H. case_match; [by apply Hf in H |]. destruct (decodeNoobID (wm_NoobId wm)); [| by apply Hf in H].
  case_match; [by apply Hf in H |]. destruct (decodeMAC (wm_MACs wm)) as [macs|] eqn:Em; [| by apply Hf in H]. cbv zeta in H.
  case_bool_decide as Emac; cbn [negb] in H; [| by apply Hf in H].
  destruct (marshal _) as [bb|] eqn:Eb; [| by apply Hpair in H]. apply pair_equal_spec in H as [<- <-].
  exists wm. eexists. split; [done |]. split; [reflexivity |]. subst macs. split; [exact Em |]. split; [done | exact Eb].
Qed.

(** ** What equal arrays say *)

Lemma element_nonempty x : x <> "" -> element x = x.
Proof. intros H. unfold element. by rewrite bool_decide_false. Qed.

Lemma quote_nonempty x : quote x <> "".
Proof. done. Qed.

Lemma Itoa_first z : exists c t, Itoa z = String c t /\ (c =?c dq) = false.
Proof.
  destruct (text_ok_Itoa z) as (_ & f & v & (c & t & E & _) & _). exists c, t. split; [exact E |].
  pose proof (Itoa_chars z) as H. rewrite E in H. cbn [all_chars] in H. apply andb_prop in H as [H _].
  by destruct (int_char_quiet c H) as (_ & ? & _).
Qed.

Lemma element_Itoa x z : element x = element (Itoa z) -> x = Itoa z.
Proof.
  destruct (Itoa_first z) as (c & t & E & Hc). rewrite (element_nonempty (Itoa z)) by (by rewrite E).
  unfold element. case_bool_decide; [| done]. rewrite E. intros [= <- _]. by rewrite (proj2 (char_eqb_eq dq dq) eq_refl) in Hc.
Qed.

Lemma rawString_b64_inj a b : rawString (b64Encode a) = rawString (b64Encode b) -> a = b.
Proof.
  intros E. apply (f_equal rawToString) in E. unfold rawString in E. rewrite !rawToString_quote in E by apply b64Encode_ascii.
  injection E as E. by apply b64Encode_inj.
Qed.

Lemma recorded_agree m m' : noob_recorded m -> noob_recorded m' ->
  element (in_Noob (ms_in m)) = element (in_Noob (ms_in m')) -> ms_noob m = ms_noob m'.
Proof.
  intros (_ & E & _) (_ & E' & _). rewrite E, E', !element_nonempty by apply quote_nonempty. apply rawString_b64_inj.
Qed.

Lemma same_fields i i' : same_inputs i i' ->
  element (in_Verp i) = element (in_Verp i') /\ element (in_Cryptosuitep i) = element (in_Cryptosuitep i') /\
  element (in_Dirp i) = element (in_Dirp i') /\ element (in_PeerId i) = element (in_PeerId i') /\ element (in_Noob i) = element (in_Noob i').
Proof. unfold same_inputs, mac_fields. cbn. intros E. injection E. intros. split_and!; assumption. Qed.

(** The two sides hold the same view of the session and the same keys. *)
Record agreed (s : Server) (p : Peer) : Prop := mkAgreed {
  ag_inputs : same_inputs (ms_in (s_ms s)) (ms_in (p_ms p));
  ag_noob : ms_noob (s_ms s) = ms_noob (p_ms p);
  ag_keys : ms_keyM (s_ms s) = ms_keyM (p_ms p);
  ag_version : s_verp s = p_verp p;
  ag_suite : s_csp s = p_csp p;
  ag_direction : s_dirp s = p_dirp p
}.

(** One of the computations of the two sides has found two messages with one hash. *)
Definition broken_code (k i k' i' : string) : Prop :=
  collides (hmac_outer k i) (hmac_outer k' i') \/ collides (hmac_inner k i) (hmac_inner k' i').
Definition broken_keys (label : Z) (l : list string) (x : string) : Prop :=
  exists y, y ∈ l /\ collides (be32 label +:+ y) (be32 label +:+ x).

Lemma computeMAC_hmac k lead i : computeMAC k lead i = hmac k (noobArray (rawInt lead) i).
Proof. unfold computeMAC. apply str_take_all. by rewrite length_hmac. Qed.

(** What both sides fixed follows from equal arrays. *)
Lemma views_agree cfg pcfg l s p : server_inv cfg l s -> peer_inv pcfg p -> s_state s <> StateUnregistered ->
  noob_recorded (s_ms s) -> noob_recorded (p_ms p) -> ms_keyM (s_ms s) = ms_keyM (p_ms p) ->
  same_inputs (ms_in (s_ms s)) (ms_in (p_ms p)) -> agreed s p.
Proof.
  intros Hs Hp Hst Hns Hnp Hk Hin. destruct (same_fields _ _ Hin) as (Ev & Ec & Ed & _ & En).
  destruct (si_suite _ _ _ Hs Hst) as [cs Hcs]. destruct (si_choice _ _ _ Hs cs Hcs) as (_ & Sv & Sc & Sd & _ & _).
  assert (p_state p <> StateUnregistered) as Hpst.
  { destruct (pi_noob _ _ Hp) as [[H0 _] | [_ H0]]; [| done]. destruct Hnp as [Hl _]. by rewrite H0 in Hl. }
  destruct (pi_suite _ _ Hp Hpst) as [cs' Hcs']. destruct (pi_choice _ _ Hp cs' Hcs') as (Hid & Pv & Pc & Pd & Hv & Hd & _ & _).
  rewrite Pv in Ev. rewrite Pc in Ec. rewrite Pd in Ed. apply element_Itoa in Ev, Ec, Ed. rewrite Ev in Sv. rewrite Ec in Sc. rewrite Ed in Sd.
  assert (1 <= p_csp p <= 2) as Hc by (destruct (suiteByID_spec _ _ Hid) as [-> [-> | ->]]; cbn; lia).
  rewrite rawToInt_Itoa in Sv, Sc, Sd by (unfold in_int64 in *; lia). injection Sv as Sv. injection Sc as Sc. injection Sd as Sd.
  constructor; try done. by apply recorded_agree.
Qed.

Lemma code_agrees k lead i k' i' : slen k = 32%nat -> slen k' = 32%nat ->
  Forall closed (mac_fields i) -> Forall closed (mac_fields i') -> computeMAC k lead i = computeMAC k' lead i' ->
  (k = k' /\ same_inputs i i') \/ broken_code k (noobArray (rawInt lead) i) k' (noobArray (rawInt lead) i').
Proof.
  intros Hk Hk' Hi Hi' E. rewrite !computeMAC_hmac in E. apply hmac_agree in E as [[Ek E] | E]; [left | by right | lia | lia].
  split; [done |]. apply noobArray_inj in E as [_ E]; [done | apply closed_Itoa .. | done | done].
Qed.

Lemma derived_agree l k label (get : keyMaterial -> string) m :
  (forall z np ns noob, get (deriveCompletion z np ns noob) = sha256 (be32 label +:+ kdf_secret z np ns noob)) ->
  derived l k -> ms_keyM m = deriveCompletion (ms_z m) (ms_np m) (ms_ns m) (ms_noob m) -> get k = get (ms_keyM m) ->
  k = ms_keyM m \/ broken_keys label l (held m).
Proof.
  intros Hget (z & np & ns & noob & _ & Hin & ->) -> E. rewrite !Hget in E. apply sha256_agree in E as [E | E].
  - left. apply secret_Kz. by apply str_app_inv_l in E.
  - right. by exists (kdf_secret z np ns noob).
Qed.

(** A code that the other side computed under its keys, checked with one's own. *)
Lemma sides_agree cfg pcfg l s p label lead (get : keyMaterial -> string) : 
  (forall z np ns noob, get (deriveCompletion z np ns noob) = sha256 (be32 label +:+ kdf_secret z np ns noob)) -> get keyMaterial0 = "" ->
  server_inv cfg l s -> peer_inv pcfg p -> get (ms_keyM (s_ms s)) <> "" -> noob_recorded (p_ms p) ->
  ms_keyM (p_ms p) = deriveCompletion (ms_z (p_ms p)) (ms_np (p_ms p)) (ms_ns (p_ms p)) (ms_noob (p_ms p)) ->
  computeMAC (get (ms_keyM (s_ms s))) lead (ms_in (s_ms s)) = computeMAC (get (ms_keyM (p_ms p))) lead (ms_in (p_ms p)) ->
  agreed s p \/ broken_keys label l (held (p_ms p)) \/
  broken_code (get (ms_keyM (s_ms s))) (noobArray (rawInt lead) (ms_in (s_ms s))) (get (ms_keyM (p_ms p))) (noobArray (rawInt lead) (ms_in (p_ms p))).
Proof.
  intros Hget H0 Hs Hp Hk Hnp Hkp E. destruct (si_keys _ _ _ Hs) as [Hk0 | [Hd Hns]]; [by rewrite Hk0 in Hk |].
  assert (s_state s <> StateUnregistered) as Hst.
  { destruct (si_noob _ _ _ Hs) as [[Hn _] | [_ Hn]]; [| done]. destruct Hns as [Hl _]. by rewrite Hn in Hl. }
  assert (slen (get (ms_keyM (s_ms s))) = 32%nat) as Hls by (destruct Hd as (z & np & ns & noob & _ & _ & ->); rewrite Hget; apply sha256_length).
  assert (slen (get (ms_keyM (p_ms p))) = 32%nat) as Hlp by (rewrite Hkp, Hget; apply sha256_length).
  destruct (code_agrees _ _ _ _ _ Hls Hlp (si_closed _ _ _ Hs) (pi_closed _ _ Hp) E) as [[Ek Ei] | Hb]; [| auto].
  destruct (derived_agree l _ label get (p_ms p) Hget Hd Hkp Ek) as [Hkk | Hb]; [left | auto].
  by eapply views_agree.
Qed.

(** The codes of the Completion Exchange. *)
Definition peer_code (p : Peer) : string := computeMAC (km_Kmp (ms_keyM (p_ms p))) 1 (ms_in (p_ms p)).
Definition server_code (s : Server) : string := computeMAC (km_Kms (ms_keyM (s_ms s))) 2 (ms_in (s_ms s)).

(** C2. Agreement for the server.  When a server, after any messages and out-of-band
    operations, registers a peer on the code that a peer computed as it verified the
    server, then the two sides agree on every negotiated value and info, on both keys and
    nonces, on the out-of-band nonce and on all keys, and the association saved holds the
    peer's key; or the two computations exhibit a collision of the hash, between two
    messages the statement names. *)
Theorem server_agreement cfg pcfg l s p0 ep bp p rp e b s' o wm :
  closed (marshalInfo (sc_ServerInfo cfg)) -> closed (marshalInfo (pc_PeerInfo pcfg)) ->
  server_run cfg l s -> peer_run pcfg p0 -> draws_ok ep ->
  peer_Receive ep p0 bp = (p, rp) -> p_completionVerified p = true ->
  server_Receive e s b = (s', Some o) -> o_Success o = true ->
  decode b = Some wm -> decodeMAC (wm_MACp wm) = Some (peer_code p) ->
  (agreed s' p /\ exists a, ms_registered (s_ms s') = Some a /\ store_Load (s_store s') (as_PeerId a) = Some a /\
     as_Kz a = km_Kz (ms_keyM (p_ms p)) /\ as_Cryptosuitep a = p_csp p) \/
  broken_keys 9 l (held (p_ms p)) \/
  broken_code (km_Kmp (ms_keyM (s_ms s))) (noobArray (rawInt 1) (ms_in (s_ms s))) (km_Kmp (ms_keyM (p_ms p))) (noobArray (rawInt 1) (ms_in (p_ms p))).
Proof.
  intros Hi Hpi Hs Hp Hep Hrp Hv Hr Ho Hb Hm.
  pose proof (server_run_inv _ _ _ Hi Hs) as Is. assert (peer_run pcfg p) as Hp' by (eapply rtc_r; [exact Hp | by eapply pstep_receive]).
  pose proof (peer_run_inv _ _ Hpi Hp') as Ip. destruct (peer_verifies _ _ _ _ _ Hrp Hv) as (_ & _ & _ & _ & _ & Hk & _).
  destruct (server_registers _ _ _ _ _ Hr Ho) as (wm' & Hb' & _ & Hm' & _ & Hk0 & _ & ->). rewrite Hb in Hb'. injection Hb' as <-.
  rewrite Hm in Hm'. injection Hm' as Hm'.
  destruct (sides_agree _ _ _ _ _ 9 1 km_Kmp (fun z np ns noob => proj1 (proj2 (derived_keys z np ns noob))) eq_refl Is Ip Hk0
    (pi_verified _ _ Ip Hv) Hk (eq_sym Hm')) as [Ha | Hbroken]; [left | by right].
  split; [by destruct Ha |]. eexists. split; [reflexivity |]. destruct Ha as [_ _ Hkk _ Hc _]. cbn.
  split; [apply lookup_insert_eq |]. by rewrite Hkk.
Qed.

(** C22. Agreement for the peer.  When a peer accepts a completion code that a server
    computed under keys it had derived, the two sides agree in the same way; or the two
    computations exhibit a collision. *)
Theorem peer_agreement cfg pcfg l s p0 ep bp p rp wm :
  closed (marshalInfo (sc_ServerInfo cfg)) -> closed (marshalInfo (pc_PeerInfo pcfg)) ->
  server_run cfg l s -> km_Kms (ms_keyM (s_ms s)) <> "" -> peer_run pcfg p0 -> draws_ok ep ->
  peer_Receive ep p0 bp = (p, rp) -> p_completionVerified p = true ->
  decode bp = Some wm -> decodeMAC (wm_MACs wm) = Some (server_code s) ->
  agreed s p \/
  broken_keys 8 l (held (p_ms p)) \/
  broken_code (km_Kms (ms_keyM (s_ms s))) (noobArray (rawInt 2) (ms_in (s_ms s))) (km_Kms (ms_keyM (p_ms p))) (noobArray (rawInt 2) (ms_in (p_ms p))).
Proof.
  intros Hi Hpi Hs Hk0 Hp Hep Hrp Hv Hb Hm.
  pose proof (server_run_inv _ _ _ Hi Hs) as Is. assert (peer_run pcfg p) as Hp' by (eapply rtc_r; [exact Hp | by eapply pstep_receive]).
  pose proof (peer_run_inv _ _ Hpi Hp') as Ip. destruct (peer_verifies _ _ _ _ _ Hrp Hv) as (wm' & _ & Hb' & _ & Hm' & Hk & _).
  rewrite Hb in Hb'. injection Hb' as <-. rewrite Hm in Hm'. injection Hm' as Hm'.
  exact (sides_agree _ _ _ _ _ 8 2 km_Kms (fun z np ns noob => proj1 (derived_keys z np ns noob)) eq_refl Is Ip Hk0
    (pi_verified _ _ Ip Hv) Hk Hm').
Qed.
(** * The out-of-band step is the gate *)

(** Messages alone. *)
Definition server_hears (s s' : Server) : Prop := exists e b r, draws_ok e /\ server_Receive e s b = (s', r).
Definition peer_hears (p p' : Peer) : Prop := exists e b r, draws_ok e /\ peer_Receive e p b = (p', r).

Definition gated (st : State) (m : methodState) (store : MemoryStore) : Prop :=
  (st = StateUnregistered \/ st = StateWaiting) /\ no_noob m /\ ms_keyM m = keyMaterial0 /\ ms_registered m = None /\ store = ∅.

Lemma server_effect_gated s s' : server_effect false s s' ->
  gated (s_state s) (s_ms s) (s_store s) -> gated (s_state s') (s_ms s') (s_store s').
Proof.
  intros He (Hst & (H1 & H2 & H3) & Hk & Hr & Hs). destruct He; try discriminate; try (by split_and!; cbn; auto).
  by rewrite Hk in *.
Qed.

Lemma server_hears_gated s s' : server_hears s s' ->
  gated (s_state s) (s_ms s) (s_store s) -> gated (s_state s') (s_ms s') (s_store s').
Proof.
  intros (e & b & r & He & Hr) Hg. apply server_Receive_settles in Hr; [| done].
  assert (forall s1, effects false s s1 -> gated (s_state s1) (s_ms s1) (s_store s1)) as Heff.
  { clear Hr. intros s1 H. revert Hg. induction H as [|s s2 s1 H2 _ IH]; [done |]. intros Hg. by apply IH, (server_effect_gated s). }
  destruct Hr as [Hr | (s1 & Hr & Hn & _)]; [by apply Heff |]. apply Heff in Hr as (_ & (H1 & H2 & _) & _).
  rewrite H1, H2 in Hn. by destruct Hn.
Qed.

(** A peer may keep that it verified a code only after the out-of-band step. *)
Lemma peer_effect_gated p p' : peer_effect false p p' ->
  gated (p_state p) (p_ms p) (p_store p) /\ p_completionVerified p = false ->
  gated (p_state p') (p_ms p') (p_store p') /\ p_completionVerified p' = false.
Proof.
  intros He [(Hst & (H1 & H2 & H3) & Hk & Hr & Hs) Hv].
  destruct He; try discriminate; try congruence; by split; [split_and!; cbn; auto |].
Qed.

Lemma peer_hears_gated cfg p p' : peer_inv cfg p -> peer_hears p p' ->
  gated (p_state p) (p_ms p) (p_store p) /\ p_completionVerified p = false ->
  gated (p_state p') (p_ms p') (p_store p') /\ p_completionVerified p' = false.
Proof.
  intros Hi (e & b & r & He & Hr). apply peer_Receive_effects in Hr; [| done | by eapply peer_inv_suite].
  clear Hi. revert Hr. induction 1 as [|p p1 p2 H1 _ IH]; [done |]. intros Hg. by apply IH, (peer_effect_gated p).
Qed.

(** C9. The out-of-band step cannot be bypassed.  Whatever messages a new server or peer
    receives, in any order: without an out-of-band operation it is at most waiting, has
    derived no key, has registered nobody and has saved no association. *)
Theorem oob_gate cfg pcfg :
  (forall s, rtc server_hears (NewServer cfg) s -> gated (s_state s) (s_ms s) (s_store s)) /\
  (closed (marshalInfo (pc_PeerInfo pcfg)) -> forall p, rtc peer_hears (NewPeer pcfg) p -> gated (p_state p) (p_ms p) (p_store p)).
Proof.
  split.
  - apply (rtc_ind_r (fun s => gated (s_state s) (s_ms s) (s_store s))); [by split_and!; [left | ..] |].
    intros s s' _ Hs. by apply server_hears_gated.
  - intros Hinfo p Hp. assert (peer_inv (p_cfg (NewPeer pcfg)) p /\ gated (p_state p) (p_ms p) (p_store p) /\ p_completionVerified p = false) as H; [| apply H].
    revert p Hp. apply (rtc_ind_r (fun p => peer_inv (p_cfg (NewPeer pcfg)) p /\ gated (p_state p) (p_ms p) (p_store p) /\ p_completionVerified p = false)).
    { split; [apply NewPeer_inv |]. split; [by split_and!; [left | ..] | done]. }
    intros p p' _ Hh [Hi Hg]. split; [| by eapply peer_hears_gated].
    destruct Hh as (e & b & r & He & Hr). apply (peer_step_inv _ p); [done | done | by eapply pstep_receive].
Qed.

(** * One key exchange per server *)

Definition exchanged (m : methodState) : string * string * string * string := (ms_z m, ms_np m, in_PKp (ms_in m), in_Np (ms_in m)).

Lemma server_step_exchanged s s' : server_step s s' -> s_state s <> StateUnregistered ->
  s_state s' <> StateUnregistered /\ exchanged (s_ms s') = exchanged (s_ms s).
Proof.
  intros H Hst. apply server_step_settles in H.
  assert (forall s1, effects true s s1 -> s_state s1 <> StateUnregistered /\ exchanged (s_ms s1) = exchanged (s_ms s)) as Heff.
  { intros s1 He. clear H. revert Hst. induction He as [|s s2 s1 H2 _ IH]; [done |]. intros Hst.
    assert (s_state s2 <> StateUnregistered /\ exchanged (s_ms s2) = exchanged (s_ms s)) as [Hs2 <-] by (by destruct H2).
    by apply IH. }
  destruct H as [H | (s1 & H & _ & ->)]; [by apply Heff | exact (Heff s1 H)].
Qed.

Lemma key_exchange_refused e s b wm : s_state s <> StateUnregistered ->
  decode b = Some wm -> wm_ErrorCode wm = None -> wm_Type wm = Some typeKeyExchange ->
  server_Receive e s b = sfail s ErrStateMismatch "key exchange requires negotiation during the initial exchange".
Proof.
  intros Hst Hd He Ht. unfold server_Receive. rewrite Hd, He, Ht. cbn. unfold onKeyExchange. by destruct (s_state s).
Qed.

(** One key exchange per server.  Once the initial exchange is over, no message and no
    out-of-band operation changes the shared secret, the peer's key or its nonce, and
    every further key exchange is refused. *)
Theorem exchange_once s s' : rtc server_step s s' -> s_state s <> StateUnregistered ->
  s_state s' <> StateUnregistered /\ exchanged (s_ms s') = exchanged (s_ms s) /\
  forall e b wm, decode b = Some wm -> wm_ErrorCode wm = None -> wm_Type wm = Some typeKeyExchange ->
    server_Receive e s' b = sfail s' ErrStateMismatch "key exchange requires negotiation during the initial exchange".
Proof.
  intros Hr Hst. assert (s_state s' <> StateUnregistered /\ exchanged (s_ms s') = exchanged (s_ms s)) as [H1 H2].
  { induction Hr as [|s s1 s2 H _ IH]; [done |]. destruct (server_step_exchanged _ _ H Hst) as [H1 H2].
    rewrite <- H2. by apply IH. }
  split; [done |]. split; [done |]. intros e b wm. by apply key_exchange_refused.
Qed.

(** A peer that starts over is nevertheless sent a new negotiation, which replaces its
    identifier: no exchange completes after that. *)
Lemma restart_negotiates e s b wm id : decode b = Some wm -> wm_ErrorCode wm = None -> wm_Type wm = Some typeDiscovery ->
  wm_PeerState wm = Some 0 -> s_state s <> StateUnregistered -> d_id e = Some id ->
  ms_peerId (s_ms (server_Receive e s b).1) = b64Encode id /\ s_state (server_Receive e s b).1 = s_state s.
Proof.
  intros Hd He Ht Hp Hst Hid. unfold server_Receive. rewrite Hd, He, Ht. cbn -[onDiscovery]. unfold onDiscovery. rewrite Hp.
  cbv zeta. cbn [s_state srv_peerState srv_ms]. destruct (s_state s) eqn:E; [done | ..]; cbn [state_int]; cbn -[buildNegotiationRequest];
    unfold buildNegotiationRequest; rewrite Hid; cbv zeta; case_bool_decide; cbn; by rewrite E.
Qed.
End Session.
