(* ===== verification/EapPairing.v ===== *)
(** Pairing with EAP-NOOB (services/eap-noob): what an accepted out-of-band message
    establishes, the conversation two honest sides have, and concrete sessions. *)
From S2P Require Import Prelude.
From S2P Require Import GoStd.
From S2P Require Import GoBytes.
From S2P Require Import Json.
From S2P Require Import JsonText.
From S2P Require Import EapWire.
From S2P Require Import EapKeys.
From S2P Require Import EapNoob.
From S2P Require Import EapSession.
Import Wire.

Open Scope string_scope.
Open Scope list_scope.
Open Scope Z_scope.

Section Pairing.
Context {EC : Ecdh} {sha : Sha256}.

(** * The out-of-band message *)

(** The fingerprint is half a digest. *)
Definition short_collision (x y : string) : Prop := x <> y /\ str_take 16 (sha256 x) = str_take 16 (sha256 y).

Lemma oobInput_accepts m dir msg m' : oobInput m dir msg = (m', true) ->
  exists noob, b64Decode (oob_Noob msg) = Some noob /\ m' = setNoob noob m /\ b64Encode (computeHoob dir (ms_in m')) = oob_Hoob msg.
Proof.
  unfold oobInput. destruct (_ && _); [by intros [_ ?]%pair_equal_spec |]. destruct (b64Decode _) as [noob|]; [| by intros [_ ?]%pair_equal_spec].
  destruct (negb _); [by intros [_ ?]%pair_equal_spec |]. cbv zeta. intros [<- H%bool_decide_eq_true]%pair_equal_spec. eauto.
Qed.

Lemma oobOutput_sends m dir rand m' msg : oobOutput m dir rand = (m', Some msg) ->
  exists noob, m' = setNoob noob m /\ msg = oob_message dir noob m'.
Proof.
  unfold oobOutput. destruct rand as [noob|]; [| by intros [_ ?]%pair_equal_spec]. cbv zeta.
  intros [<- [= <-]]%pair_equal_spec. by exists noob.
Qed.

Lemma setNoob_closed noob m : Forall closed (mac_fields (ms_in m)) -> Forall closed (mac_fields (ms_in (setNoob noob m))).
Proof. rewrite !mac_fields_forall. cbn. intros H. split_and!; first [tauto | apply closed_quote]. Qed.

(** A message made from one side's view and accepted by the other. *)
Lemma oob_agree m dir rand m1 msg m' m1' : Forall closed (mac_fields (ms_in m)) -> Forall closed (mac_fields (ms_in m')) ->
  oobOutput m dir rand = (m1, Some msg) -> oobInput m' dir msg = (m1', true) ->
  ms_noob m1' = ms_noob m1 /\
  (same_inputs (ms_in m1) (ms_in m1') \/ short_collision (noobArray (rawInt dir) (ms_in m1)) (noobArray (rawInt dir) (ms_in m1'))).
Proof.
  intros Hm Hm' (noob & -> & ->)%oobOutput_sends (noob' & Hn & -> & Hh)%oobInput_accepts. unfold oob_message in Hn. cbn [oob_Noob] in Hn. rewrite b64Decode_Encode in Hn.
  injection Hn as <-. split; [done |]. unfold oob_message in Hh. cbn [oob_Hoob] in Hh. apply b64Encode_inj in Hh. unfold computeHoob in Hh.
  destruct (decide (noobArray (rawInt dir) (ms_in (setNoob noob m)) = noobArray (rawInt dir) (ms_in (setNoob noob m')))) as [E | E]; [left | by right].
  apply noobArray_inj in E as [_ E]; [done | apply closed_Itoa .. | by apply setNoob_closed | by apply setNoob_closed].
Qed.

(** An accepted out-of-band message.  When a side accepts the message the other one
    has output, it is ready for completion, both hold the same nonce, and they saw the
    same initial exchange, every value of it; or the two views exhibit two texts with one
    fingerprint. *)
Theorem oob_agreement cfg pcfg l s p :
  closed (marshalInfo (sc_ServerInfo cfg)) -> closed (marshalInfo (pc_PeerInfo pcfg)) ->
  server_run cfg l s -> peer_run pcfg p ->
  (forall rand s1 msg p1, server_OOBOutput rand s = (s1, Some msg) -> peer_OOBInput msg p = (p1, true) ->
    p_state p1 = StateOOBReceived /\ ms_noob (p_ms p1) = ms_noob (s_ms s1) /\
    (same_inputs (ms_in (s_ms s1)) (ms_in (p_ms p1)) \/
     short_collision (noobArray (rawInt 2) (ms_in (s_ms s1))) (noobArray (rawInt 2) (ms_in (p_ms p1))))) /\
  (forall rand p1 msg s1, peer_OOBOutput rand p = (p1, Some msg) -> server_OOBInput msg s = (s1, true) ->
    s_state s1 = StateOOBReceived /\ ms_noob (s_ms s1) = ms_noob (p_ms p1) /\
    (same_inputs (ms_in (p_ms p1)) (ms_in (s_ms s1)) \/
     short_collision (noobArray (rawInt 1) (ms_in (p_ms p1))) (noobArray (rawInt 1) (ms_in (s_ms s1))))).
Proof.
  intros Hi Hpi Hs Hp. pose proof (si_closed _ _ _ (server_run_inv _ _ _ Hi Hs)) as Hsc. pose proof (pi_closed _ _ (peer_run_inv _ _ Hpi Hp)) as Hpc.
  split.
  - intros rand s1 msg p1 Ho Hin. unfold server_OOBOutput in Ho. destruct (negb _); [by apply pair_equal_spec in Ho as [_ ?] |].
    destruct (_ && _); [by apply pair_equal_spec in Ho as [_ ?] |]. destruct (oobOutput _ _ _) as [m o] eqn:Eo. apply pair_equal_spec in Ho as [<- ->].
    unfold peer_OOBInput in Hin. destruct (negb _); [by apply pair_equal_spec in Hin as [_ ?] |].
    destruct (_ && _); [by apply pair_equal_spec in Hin as [_ ?] |]. destruct (oobInput _ _ _) as [m' ok] eqn:Ei.
    destruct ok; apply pair_equal_spec in Hin as [<- ?]; [| done]. split; [done |]. exact (oob_agree _ _ _ _ _ _ _ Hsc Hpc Eo Ei).
  - intros rand p1 msg s1 Ho Hin. unfold peer_OOBOutput in Ho. destruct (negb _); [by apply pair_equal_spec in Ho as [_ ?] |].
    destruct (_ && _); [by apply pair_equal_spec in Ho as [_ ?] |]. destruct (oobOutput _ _ _) as [m o] eqn:Eo. apply pair_equal_spec in Ho as [<- ->].
    unfold server_OOBInput in Hin. destruct (negb _); [by apply pair_equal_spec in Hin as [_ ?] |].
    destruct (_ && _); [by apply pair_equal_spec in Hin as [_ ?] |]. destruct (oobInput _ _ _) as [m' ok] eqn:Ei.
    destruct ok; apply pair_equal_spec in Hin as [<- ?]; [| done]. split; [done |]. exact (oob_agree _ _ _ _ _ _ _ Hpc Hsc Eo Ei).
Qed.

(** A rejected message has replaced the nonce all the same. *)
Lemma rejected_recorded m dir msg noob : b64Decode (oob_Noob msg) = Some noob -> slen noob = 16%nat ->
  (ms_peerId m = "" \/ oob_PeerId msg = ms_peerId m) -> ms_noob (oobInput m dir msg).1 = noob.
Proof.
  intros Hd Hl Hp. unfold oobInput. rewrite Hd, Hl, Nat.eqb_refl.
  assert (negb (bool_decide (ms_peerId m = "")) && negb (bool_decide (oob_PeerId msg = ms_peerId m)) = false) as ->; [| done].
  destruct Hp as [H | H]; [by rewrite (bool_decide_true (ms_peerId m = "")) | rewrite (bool_decide_true (_ = ms_peerId m)) by done; by rewrite andb_false_r].
Qed.
(** * A conversation *)

(** What relays the messages: an answer goes to the other side until one has nothing to
    send; an error ends it. *)
Definition answers {A} (r : A * option Outcome) : option (A * string) :=
  match r with
  | (a, Some o) => match o_Err o with None => Some (a, o_Send o) | Some _ => None end
  | (_, None) => None
  end.

Fixpoint converse (fuel : nat) (es ep : draws) (peerTurn : bool) (msg : string) (s : Server) (p : Peer) : option (Server * Peer) :=
  match fuel with
  | O => None
  | S fuel =>
      if bool_decide (msg = "") then Some (s, p)
      else if peerTurn
      then r ← answers (peer_Receive ep p msg); converse fuel es ep false r.2 s r.1
      else r ← answers (server_Receive es s msg); converse fuel es ep true r.2 r.1 p
  end.

Lemma sent_answer {A} (a : A) st m : wire_ok m -> exists b, answers (a, send st m) = Some (a, b) /\ decode b = Some m /\ b <> "".
Proof.
  intros Hm. destruct (decode_marshal m Hm) as (b & Hb & Hd). exists b. unfold send. rewrite Hb. cbn. split; [done |].
  split; [done |]. intros ->. by vm_compute in Hd.
Qed.

Lemma converse_peer fuel es ep b s p p' st m : b <> "" -> peer_Receive ep p b = (p', send st m) -> wire_ok m ->
  exists b', decode b' = Some m /\ b' <> "" /\ converse (S fuel) es ep true b s p = converse fuel es ep false b' s p'.
Proof.
  intros Hb Hr Hm. destruct (sent_answer p' st m Hm) as (b' & Ha & Hd & Hne). exists b'. split; [done |]. split; [done |].
  cbn [converse]. by rewrite bool_decide_false, Hr, Ha by done.
Qed.

Lemma converse_server fuel es ep b s p s' st m : b <> "" -> server_Receive es s b = (s', send st m) -> wire_ok m ->
  exists b', decode b' = Some m /\ b' <> "" /\ converse (S fuel) es ep false b s p = converse fuel es ep true b' s' p.
Proof.
  intros Hb Hr Hm. destruct (sent_answer s' st m Hm) as (b' & Ha & Hd & Hne). exists b'. split; [done |]. split; [done |].
  cbn [converse]. by rewrite bool_decide_false, Hr, Ha by done.
Qed.

(** * Two honest sides *)

Section Honest.
Context {EL : EcdhLaws}.
Context (cfg : ServerConfig) (pcfg : PeerConfig).
Context (id ns np : string) (ks kp : scalar) (verp csp dirp : Z) (cs : cryptosuite).

(** What each side may be configured with. *)
Record configs_ok : Prop := mkConfigsOk {
  co_versions : Forall in_int64 (sc_Versions (s_cfg (NewServer cfg)));
  co_suites : Forall in_int64 (sc_Cryptosuites (s_cfg (NewServer cfg)));
  co_server_info : text_ok (marshalInfo (sc_ServerInfo cfg));
  co_peer_info : text_ok (marshalInfo (pc_PeerInfo pcfg));
  co_new_nai : ascii_text (sc_NewNAI cfg);
  co_nai : ascii_text (pc_NAI pcfg);
  co_sleep : in_int64 (sc_SleepTime cfg)
}.

(** What the two have in common. *)
Record compatible : Prop := mkCompatible {
  cp_version : bestVersion (sc_Versions (s_cfg (NewServer cfg))) (pc_Versions (p_cfg (NewPeer pcfg))) = Some verp;
  cp_suite : firstSupported (sc_Cryptosuites (s_cfg (NewServer cfg))) (pc_Cryptosuites (p_cfg (NewPeer pcfg))) = Some csp;
  cp_direction : chooseDir (sc_Dirs (s_cfg (NewServer cfg))) (pc_PreferDir pcfg) = Some dirp;
  cp_cs : suiteByID csp = Some cs
}.

Context (jwks jwkp : JWK) (z : string).

Record keys_ok : Prop := mkKeysOk {
  ko_jwks : generateKeypair cs (Some ks) = Some (mkPrivate (cs_curve cs) ks, jwks);
  ko_jwkp : generateKeypair cs (Some kp) = Some (mkPrivate (cs_curve cs) kp, jwkp);
  ko_jwks_ascii : jwk_ascii jwks;
  ko_jwkp_ascii : jwk_ascii jwkp;
  ko_server : computeZ cs (mkPrivate (cs_curve cs) ks) jwkp = Some z;
  ko_peer : computeZ cs (mkPrivate (cs_curve cs) kp) jwks = Some z
}.

Hypothesis (Hcfg : configs_ok) (Hcompat : compatible) (Hkeys : keys_ok).
Hypothesis (Hid : slen id = 16%nat) (Hns : slen ns = 32%nat) (Hnp : slen np = 32%nat).

Definition vers := rawIntSlice (sc_Versions (s_cfg (NewServer cfg))).
Definition suites := rawIntSlice (sc_Cryptosuites (s_cfg (NewServer cfg))).
Definition dirs := rawInt (sc_Dirs (s_cfg (NewServer cfg))).
Definition sinfo := marshalInfo (sc_ServerInfo cfg).
Definition pinfo := marshalInfo (pc_PeerInfo pcfg).
Definition id64 := b64Encode id.
Definition first_nai := pc_NAI (p_cfg (NewPeer pcfg)).
Definition nai := if bool_decide (sc_NewNAI cfg = "") then first_nai else sc_NewNAI cfg.
Definition ns64 := rawString (b64Encode ns).
Definition np64 := rawString (b64Encode np).

(** The view of the session, as it grows. *)
Definition view1 : macInputs := mkMacInputs vers "" (rawString id64) suites dirs sinfo "" "" "" "" "" "" "" "" "".
Definition view2 (pks nsRaw pkp npRaw : string) : macInputs :=
  mkMacInputs vers (rawInt verp) (rawString id64) suites dirs sinfo (rawInt csp) (rawInt dirp) (rawString nai) pinfo pks nsRaw pkp npRaw "".
Definition view : macInputs := view2 (jwkRaw jwks) ns64 (jwkRaw jwkp) np64.

Definition server1 : Server :=
  mkServer (s_cfg (NewServer cfg)) ∅ StateUnregistered
    (mkMethod None id64 nai view1 None "" "" "" "" "" "" keyMaterial0 None) 0 0 0 0.
Definition server2 : Server :=
  mkServer (s_cfg (NewServer cfg)) ∅ StateUnregistered
    (mkMethod (Some cs) id64 nai (view2 (jwkRaw jwks) ns64 "" "") (Some (mkPrivate (cs_curve cs) ks)) "" ns "" "" "" "" keyMaterial0 None)
    0 verp csp dirp.
Definition server_waits : Server :=
  mkServer (s_cfg (NewServer cfg)) ∅ StateWaiting
    (mkMethod (Some cs) id64 nai view (Some (mkPrivate (cs_curve cs) ks)) z ns np "" "" "" keyMaterial0 None) 0 verp csp dirp.
Definition peer1 : Peer :=
  mkPeer (p_cfg (NewPeer pcfg)) ∅ StateUnregistered false
    (mkMethod (Some cs) id64 nai (view2 "" "" "" "") None "" "" "" "" "" "" keyMaterial0 None) verp csp dirp.
Definition peer_waits : Peer :=
  mkPeer (p_cfg (NewPeer pcfg)) ∅ StateWaiting false
    (mkMethod (Some cs) id64 nai view (Some (mkPrivate (cs_curve cs) kp)) z ns np "" "" "" keyMaterial0 None) verp csp dirp.

(** The messages of the initial exchange. *)
Definition hello : wireMessage := set_PeerState (Some 0) (set_NAI (rawString first_nai) (message typeDiscovery)).
Definition offer : wireMessage :=
  let m := set_Vers vers (set_PeerId (rawString id64) (set_Cryptosuites suites (set_Dirs dirs (set_ServerInfo sinfo (message typeNegotiation))))) in
  if bool_decide (sc_NewNAI cfg = "") then m else set_NewNAI (rawString (sc_NewNAI cfg)) m.
Definition choice : wireMessage :=
  set_Verp (rawInt verp) (set_PeerId (rawString id64) (set_Cryptosuitep (rawInt csp) (set_Dirp (rawInt dirp) (set_PeerInfo pinfo (message typeNegotiation))))).
Definition server_key : wireMessage :=
  sleep (NewServer cfg) (set_PeerId (rawString id64) (set_PKs (jwkRaw jwks) (set_Ns ns64 (message typeKeyExchange)))).
Definition peer_key : wireMessage := set_PeerId (rawString id64) (set_PKp (jwkRaw jwkp) (set_Np np64 (message typeKeyExchange))).

Ltac raw_texts := first [left; lazymatch goal with |- "" = "" => reflexivity end | right; first [apply text_ok_quote; first [apply b64Encode_ascii | assumption] | apply text_ok_Itoa | apply text_ok_ints | by apply text_ok_jwk | assumption]].
Ltac wire_fields_ok :=
  constructor; cbn; repeat (apply Forall_cons; split; [first [raw_texts | intros ? [= <-]; done | intros ? [= <-]; assumption | done | by apply ascii_check] |]); try apply Forall_nil_2.

Lemma first_nai_ascii : ascii_text first_nai /\ first_nai <> "".
Proof. unfold first_nai, NewPeer. cbn. case_bool_decide; [split; [by apply ascii_check | done] | split; [apply Hcfg | done]]. Qed.

Lemma id64_nonempty : id64 <> "".
Proof. apply b64Encode_nonempty. intros E. by rewrite E in Hid. Qed.

Lemma hello_ok : wire_ok hello.
Proof. destruct first_nai_ascii as [Ha _]. unfold hello. wire_fields_ok. Qed.

Lemma offer_ok : wire_ok offer.
Proof. pose proof (co_server_info Hcfg) as Hi. pose proof (co_new_nai Hcfg) as Hn. unfold offer. case_bool_decide; wire_fields_ok. Qed.

Lemma choice_ok : wire_ok choice.
Proof. pose proof (co_peer_info Hcfg) as Hi. unfold choice. wire_fields_ok. Qed.

Lemma server_key_ok : wire_ok server_key.
Proof.
  pose proof (ko_jwks_ascii Hkeys) as Hj. pose proof (co_sleep Hcfg) as Hs. unfold server_key, sleep.
  destruct (0 <? _); wire_fields_ok.
Qed.

Lemma peer_key_ok : wire_ok peer_key.
Proof. pose proof (ko_jwkp_ascii Hkeys) as Hj. unfold peer_key. wire_fields_ok. Qed.
(** ** The initial exchange, message by message *)

Lemma peer_says_hello e b : decode b = Some (message typeDiscovery) ->
  peer_Receive e (NewPeer pcfg) b = (NewPeer pcfg, send StateUnregistered hello).
Proof. intros Hb. unfold peer_Receive. by rewrite Hb. Qed.

Lemma onDiscovery_new e s wm n : wm_PeerState wm = Some 0 -> wm_NAI wm = rawString n -> ascii_text n -> n <> "" -> s_state s = StateUnregistered ->
  onDiscovery e s wm = buildNegotiationRequest e (srv_peerState 0 (srv_ms (with_nai n (s_ms s)) s)).
Proof.
  intros Hp Hn Ha Hne Hs. unfold onDiscovery. rewrite Hp, Hn. cbv zeta. unfold rawString. rewrite rawToString_quote by done.
  rewrite (bool_decide_false (quote n = "")) by apply quote_nonempty.
  change (default (ms_nai (s_ms s)) (Some n)) with n. rewrite (bool_decide_false (n = "")) by done.
  change (s_state (srv_peerState 0 (srv_ms (with_nai n (s_ms s)) s))) with (s_state s). by rewrite Hs.
Qed.

Lemma server_offers e b : decode b = Some hello -> d_id e = Some id ->
  server_Receive e (NewServer cfg) b = (server1, send StateUnregistered offer).
Proof.
  intros Hb He. unfold server_Receive. rewrite Hb. destruct first_nai_ascii as [Ha Hne].
  change (onDiscovery e (NewServer cfg) hello = (server1, send StateUnregistered offer)).
  rewrite (onDiscovery_new _ _ _ first_nai) by done. unfold buildNegotiationRequest. rewrite He. cbv zeta.
  change (sc_NewNAI (s_cfg (srv_peerState 0 (srv_ms (with_nai first_nai (s_ms (NewServer cfg))) (NewServer cfg))))) with (sc_NewNAI cfg).
  unfold server1, offer, nai. case_bool_decide; reflexivity.
Qed.
Lemma offer_fields : wm_PeerId offer = rawString id64 /\ wm_Vers offer = vers /\ wm_Cryptosuites offer = suites /\ wm_Dirs offer = dirs /\
  wm_ServerInfo offer = sinfo /\ wm_NewNAI offer = (if bool_decide (sc_NewNAI cfg = "") then "" else rawString (sc_NewNAI cfg)) /\
  wm_EAP offer = "" /\ wm_ErrorCode offer = None /\ wm_Type offer = Some typeNegotiation.
Proof. unfold offer. by case_bool_decide. Qed.

Lemma chooseDir_fits d prefer v : chooseDir d prefer = Some v -> 1 <= d <= 3 /\ 1 <= v <= 3 /\ Z.land v d <> 0.
Proof.
  unfold chooseDir. destruct (d =? 1) eqn:E1; [apply Z.eqb_eq in E1; intros [= <-]; subst; split_and!; done |].
  destruct (d =? 2) eqn:E2; [apply Z.eqb_eq in E2; intros [= <-]; subst; split_and!; done |].
  destruct (d =? 3) eqn:E3; [apply Z.eqb_eq in E3 | done]. subst. destruct (prefer =? 1) eqn:P1; [| destruct (prefer =? 2) eqn:P2]; intros [= <-].
  - apply Z.eqb_eq in P1 as ->. by split_and!.
  - apply Z.eqb_eq in P2 as ->. by split_and!.
  - by split_and!.
Qed.

Lemma server_dirs_range : in_int64 (sc_Dirs (s_cfg (NewServer cfg))).
Proof. pose proof (chooseDir_fits _ _ _ (cp_direction Hcompat)). unfold in_int64. lia. Qed.

Lemma peer_chooses e b : decode b = Some offer ->
  peer_Receive e (NewPeer pcfg) b = (peer1, send StateUnregistered choice).
Proof.
  intros Hb. unfold peer_Receive. rewrite Hb. destruct offer_fields as (Fid & Fv & Fc & Fd & Fi & Fn & Fe & Fec & Ft).
  rewrite Fe, Fec, Ft. change (onNegotiationRequest (NewPeer pcfg) offer = (peer1, send StateUnregistered choice)).
  unfold onNegotiationRequest. rewrite Fid, Fv, Fc, Fd, Fi, Fn. unfold vers, suites, dirs.
  unfold rawString at 1. rewrite rawToString_quote by apply b64Encode_ascii. cbv zeta.
  change (p_cfg (pr_ms _ (NewPeer pcfg))) with (p_cfg (NewPeer pcfg)).
  unfold rawIntSlice at 1. rewrite rawToIntSlice_ints, (cp_version Hcompat) by apply Hcfg.
  unfold rawIntSlice at 1. rewrite rawToIntSlice_ints, (cp_suite Hcompat) by apply Hcfg.
  unfold rawInt at 1. rewrite rawToInt_Itoa by apply server_dirs_range.
  change (pc_PreferDir (p_cfg (NewPeer pcfg))) with (pc_PreferDir pcfg). rewrite (cp_direction Hcompat), (cp_cs Hcompat).
  assert (ensureRaw sinfo = sinfo) as -> by (unfold ensureRaw; rewrite bool_decide_false; [done | apply text_ok_nonempty, Hcfg]).
  unfold peer1, view2, nai. destruct (bool_decide (sc_NewNAI cfg = "")) eqn:En.
  - reflexivity.
  - rewrite (bool_decide_false (rawString _ = "")) by apply quote_nonempty. change (rawToString (rawString (sc_NewNAI cfg))) with (rawToString (quote (sc_NewNAI cfg))).
    rewrite rawToString_quote by apply Hcfg. reflexivity.
Qed.
Lemma checkPeerId_own s wm : ms_peerId (s_ms s) = id64 -> wm_PeerId wm = rawString id64 -> checkPeerId s wm = None.
Proof.
  intros Hs Hw. unfold checkPeerId. rewrite Hs, Hw, (bool_decide_false _ id64_nonempty). unfold rawString.
  rewrite rawToString_quote by apply b64Encode_ascii. by rewrite bool_decide_true.
Qed.

Lemma containsInt_elem l v : containsInt l v = true <-> v ∈ l.
Proof.
  unfold containsInt. rewrite existsb_exists. split; [intros (x & Hx & ->%Z.eqb_eq); by apply list_elem_of_In |].
  intros H. exists v. rewrite Z.eqb_refl. split; [by apply list_elem_of_In | done].
Qed.

(** What the peer chose is what the server offered. *)
Lemma choice_acceptable : containsInt (sc_Versions (s_cfg (NewServer cfg))) verp = true /\
  containsInt (sc_Cryptosuites (s_cfg (NewServer cfg))) csp = true /\ isSupportedCryptosuite csp = true /\
  in_int64 verp /\ in_int64 csp /\ in_int64 dirp /\
  (Z.land dirp (sc_Dirs (s_cfg (NewServer cfg))) =? 0) || (dirp <? 1) || (3 <? dirp) = false.
Proof.
  destruct Hcompat as [Hv Hc Hd Hcs]. apply bestVersion_spec in Hv as [Hv _]. apply find_containsInt in Hc as [[_ Hs]%andb_prop Hc].
  apply chooseDir_fits in Hd as (Hd & Hr & Hl). rewrite !containsInt_elem.
  pose proof (proj1 (Forall_forall _ _) (co_versions Hcfg) _ Hv). pose proof (proj1 (Forall_forall _ _) (co_suites Hcfg) _ Hc).
  split_and!; try done; [unfold in_int64; lia .. |].
  rewrite (proj2 (Z.eqb_neq _ _) Hl), (proj2 (Z.ltb_ge _ _)), (proj2 (Z.ltb_ge _ _)) by lia. done.
Qed.

Lemma pinfo_ensured : ensureRaw pinfo = pinfo.
Proof. unfold ensureRaw. rewrite bool_decide_false; [done | apply text_ok_nonempty, Hcfg]. Qed.

Lemma server_asks_key e b : decode b = Some choice -> d_key e = Some ks -> d_nonce e = Some ns ->
  server_Receive e server1 b = (server2, send StateUnregistered server_key).
Proof.
  intros Hb Hk Hn. unfold server_Receive. rewrite Hb.
  change (onNegotiation e server1 choice = (server2, send StateUnregistered server_key)).
  destruct choice_acceptable as (Av & Ac & As & Rv & Rc & Rd & Ad).
  unfold onNegotiation. rewrite checkPeerId_own by done.
  change (s_cfg server1) with (s_cfg (NewServer cfg)).
  change (rawToInt (wm_Verp choice)) with (rawToInt (Itoa verp)). rewrite rawToInt_Itoa, Av by done.
  change (rawToInt (wm_Cryptosuitep choice)) with (rawToInt (Itoa csp)). rewrite rawToInt_Itoa, Ac, As by done.
  change (rawToInt (wm_Dirp choice)) with (rawToInt (Itoa dirp)). rewrite rawToInt_Itoa, Ad, (cp_cs Hcompat) by done.
  cbn [negb orb]. cbv zeta. change (wm_PeerInfo choice) with pinfo. rewrite pinfo_ensured.
  unfold buildKeyExchangeRequest. rewrite Hk, (ko_jwks Hkeys). cbv zeta. rewrite Hn. reflexivity.
Qed.

Lemma peer_sends_key e b : decode b = Some server_key -> d_key e = Some kp -> d_nonce e = Some np ->
  peer_Receive e peer1 b = (peer_waits, send StateWaiting peer_key).
Proof.
  intros Hb Hk Hn. unfold peer_Receive. rewrite Hb.
  assert (wm_EAP server_key = "" /\ wm_ErrorCode server_key = None /\ wm_Type server_key = Some typeKeyExchange /\
    wm_PKs server_key = jwkRaw jwks /\ wm_Ns server_key = ns64) as (-> & -> & -> & Fk & Fn) by (unfold server_key, sleep; by destruct (0 <? _)).
  change (onKeyExchangeRequest e peer1 server_key = (peer_waits, send StateWaiting peer_key)).
  unfold onKeyExchangeRequest. change (p_state peer1) with StateUnregistered. change (ms_suite (p_ms peer1)) with (Some cs).
  rewrite Fk, Fn, rawToJWK_jwkRaw by apply Hkeys. unfold ns64 at 1. unfold rawString at 1. rewrite rawToString_quote by apply b64Encode_ascii.
  rewrite b64Decode_Encode, Hk, (ko_jwkp Hkeys), (ko_peer Hkeys), Hn. cbv zeta.
  destruct (decode_marshal peer_key peer_key_ok) as (b' & Hm & _).
  match goal with |- match marshal ?m with _ => _ end = _ => change m with peer_key end. rewrite Hm.
  unfold send. rewrite Hm. reflexivity.
Qed.

Lemma server_takes_key e b : decode b = Some peer_key ->
  server_Receive e server2 b = (server_waits, ended StateWaiting eapFailure false).
Proof.
  intros Hb. unfold server_Receive. rewrite Hb.
  change (onKeyExchange server2 peer_key = (server_waits, ended StateWaiting eapFailure false)).
  unfold onKeyExchange. change (s_state server2) with StateUnregistered. change (ms_suite (s_ms server2)) with (Some cs).
  change (ms_priv (s_ms server2)) with (Some (mkPrivate (cs_curve cs) ks)). rewrite checkPeerId_own by done.
  change (wm_PKp peer_key) with (jwkRaw jwkp). change (wm_Np peer_key) with (rawString (b64Encode np)).
  rewrite rawToJWK_jwkRaw, (ko_server Hkeys) by apply Hkeys. unfold rawString at 1. rewrite rawToString_quote by apply b64Encode_ascii.
  rewrite b64Decode_Encode. reflexivity.
Qed.
(** What each side draws. *)
Record draws_for (es ep : draws) : Prop := mkDrawsFor {
  df_id : d_id es = Some id; df_ks : d_key es = Some ks; df_ns : d_nonce es = Some ns;
  df_kp : d_key ep = Some kp; df_np : d_nonce ep = Some np; df_saves : d_save es = true /\ d_save ep = true
}.

Lemma start_message : exists b, Start = Some b /\ b <> "" /\ decode b = Some (message typeDiscovery).
Proof. eexists. split; [reflexivity |]. split; [done |]. vm_compute. reflexivity. Qed.

Lemma result_read kind : kind = eapFailure \/ kind = eapSuccess -> exists m, decode (resultBytes kind) = Some m /\ wm_EAP m = kind /\ resultBytes kind <> "".
Proof. intros [-> | ->]; (eexists; split; [vm_compute; reflexivity | done]). Qed.

Lemma peer_ends e b p m : decode b = Some m -> wm_EAP m = eapFailure ->
  peer_Receive e p b = (pr_completionVerified false p, Some (mkOutcome "" (p_state p) true false None)).
Proof. intros Hb Hm. unfold peer_Receive. rewrite Hb, Hm. cbn -[onResult]. unfold onResult. by rewrite Hm. Qed.

(** The initial exchange leaves both sides waiting, with one view and one secret. *)
Lemma initial_exchange es ep start : draws_for es ep -> Start = Some start ->
  converse 9 es ep true start (NewServer cfg) (NewPeer pcfg) = Some (server_waits, peer_waits).
Proof.
  intros [Did Dks Dns Dkp Dnp _] Hstart. destruct start_message as (b0 & E0 & Hne0 & Hd0). rewrite E0 in Hstart. injection Hstart as <-.
  destruct (converse_peer 8 es ep b0 (NewServer cfg) _ _ _ _ Hne0 (peer_says_hello ep b0 Hd0) hello_ok) as (b1 & Hd1 & Hne1 & ->).
  destruct (converse_server 7 es ep b1 _ (NewPeer pcfg) _ _ _ Hne1 (server_offers es b1 Hd1 Did) offer_ok) as (b2 & Hd2 & Hne2 & ->).
  destruct (converse_peer 6 es ep b2 server1 _ _ _ _ Hne2 (peer_chooses ep b2 Hd2) choice_ok) as (b3 & Hd3 & Hne3 & ->).
  destruct (converse_server 5 es ep b3 _ peer1 _ _ _ Hne3 (server_asks_key es b3 Hd3 Dks Dns) server_key_ok) as (b4 & Hd4 & Hne4 & ->).
  destruct (converse_peer 4 es ep b4 server2 _ _ _ _ Hne4 (peer_sends_key ep b4 Hd4 Dkp Dnp) peer_key_ok) as (b5 & Hd5 & Hne5 & ->).
  destruct (result_read eapFailure (or_introl eq_refl)) as (m & Hm & He & Hne).
  cbn [converse]. rewrite (bool_decide_false _ Hne5), (server_takes_key es b5 Hd5). unfold ended, answers. cbn [o_Err o_Send mbind option_bind fst snd].
  rewrite (bool_decide_false _ Hne). rewrite (peer_ends ep _ peer_waits m Hm He). reflexivity.
Qed.

(** ** The out-of-band step *)

Context (noob : string).
Hypothesis (Hnoob : slen noob = 16%nat).

Definition noob64 := rawString (b64Encode noob).
Definition view_noob : macInputs := set_in_Noob noob64 view.
Definition method_noob (priv : PrivateKey) (k : keyMaterial) (a : option Association) : methodState :=
  mkMethod (Some cs) id64 nai view_noob (Some priv) z ns np noob noob64 (computeNoobID noob64) k a.
Definition server_holds (st : State) (ps : Z) (k : keyMaterial) : Server :=
  mkServer (s_cfg (NewServer cfg)) ∅ st (method_noob (mkPrivate (cs_curve cs) ks) k None) ps verp csp dirp.
Definition peer_holds (st : State) (verified : bool) (k : keyMaterial) : Peer :=
  mkPeer (p_cfg (NewPeer pcfg)) ∅ st verified (method_noob (mkPrivate (cs_curve cs) kp) k None) verp csp dirp.

Lemma pin_step : dirp = 2 ->
  (exists msg, server_OOBOutputWith noob server_waits = (server_holds StateWaiting 0 keyMaterial0, Some msg)) /\
  peer_OOBInputNoob noob peer_waits = (peer_holds StateOOBReceived false keyMaterial0, true).
Proof.
  intros Hd. split.
  - unfold server_OOBOutputWith, oobOutputWith. rewrite Hnoob. change (s_dirp server_waits) with dirp. rewrite Hd. eexists. reflexivity.
  - unfold peer_OOBInputNoob, oobInputNoob. rewrite Hnoob. change (p_dirp peer_waits) with dirp. rewrite Hd. reflexivity.
Qed.

Lemma oobInput_own m dir : oobInput m dir (oob_message dir noob (setNoob noob m)) = (setNoob noob m, true).
Proof.
  unfold oobInput, oob_message. cbn [oob_PeerId oob_Noob oob_Hoob].
  change (ms_peerId (setNoob noob m)) with (ms_peerId m). rewrite (bool_decide_true (ms_peerId m = ms_peerId m)) by done.
  rewrite andb_false_r, b64Decode_Encode, Hnoob. cbn [Nat.eqb negb]. cbv zeta. by rewrite bool_decide_true.
Qed.

(** The message a user carries, in either direction. *)
Lemma carried_to_peer : dirp = 2 -> exists msg,
  server_OOBOutput (Some noob) server_waits = (server_holds StateWaiting 0 keyMaterial0, Some msg) /\
  peer_OOBInput msg peer_waits = (peer_holds StateOOBReceived false keyMaterial0, true).
Proof.
  intros Hd. exists (oob_message 2 noob (setNoob noob (s_ms server_waits))). split.
  - unfold server_OOBOutput. change (s_dirp server_waits) with dirp. rewrite Hd. reflexivity.
  - unfold peer_OOBInput. change (p_dirp peer_waits) with dirp. rewrite Hd.
    change (oob_message 2 noob (setNoob noob (s_ms server_waits))) with (oob_message 2 noob (setNoob noob (p_ms peer_waits))).
    rewrite oobInput_own. reflexivity.
Qed.

Lemma carried_to_server : dirp = 1 -> exists msg,
  peer_OOBOutput (Some noob) peer_waits = (peer_holds StateWaiting false keyMaterial0, Some msg) /\
  server_OOBInput msg server_waits = (server_holds StateOOBReceived 0 keyMaterial0, true).
Proof.
  intros Hd. exists (oob_message 1 noob (setNoob noob (p_ms peer_waits))). split.
  - unfold peer_OOBOutput. change (p_dirp peer_waits) with dirp. rewrite Hd. reflexivity.
  - unfold server_OOBInput. change (s_dirp server_waits) with dirp. rewrite Hd.
    change (oob_message 1 noob (setNoob noob (p_ms peer_waits))) with (oob_message 1 noob (setNoob noob (s_ms server_waits))).
    rewrite oobInput_own. reflexivity.
Qed.
(** ** The completion exchange, message by message *)

Definition keys : keyMaterial := deriveCompletion z np ns noob.
Definition result : Association := mkAssociation id64 nai csp (km_Kz keys).
Definition server_done (ps : Z) : Server :=
  mkServer (s_cfg (NewServer cfg)) (store_Save ∅ result) StateRegistered
    (method_noob (mkPrivate (cs_curve cs) ks) keys (Some result)) ps verp csp dirp.
Definition peer_done : Peer :=
  mkPeer (p_cfg (NewPeer pcfg)) (store_Save ∅ result) StateRegistered false
    (method_noob (mkPrivate (cs_curve cs) kp) keys (Some result)) verp csp dirp.

Definition again (ps : Z) : wireMessage :=
  set_PeerId (rawString id64) (set_PeerState (Some ps) (set_NAI (rawString nai) (message typeDiscovery))).
Definition which : wireMessage := set_PeerId (rawString id64) (message typeNoobID).
Definition this_one : wireMessage := set_PeerId (rawString id64) (set_NoobId (rawString (b64Encode (computeNoobID noob64))) (message typeNoobID)).
Definition server_proves : wireMessage :=
  set_PeerId (rawString id64) (set_NoobId (rawString (b64Encode (computeNoobID noob64)))
    (set_MACs (rawString (b64Encode (computeMAC (km_Kms keys) 2 view_noob))) (message typeCompletion))).
Definition peer_proves : wireMessage :=
  set_PeerId (rawString id64) (set_MACp (rawString (b64Encode (computeMAC (km_Kmp keys) 1 view_noob))) (message typeCompletion)).

Lemma nai_ascii : ascii_text nai /\ nai <> "".
Proof. unfold nai. case_bool_decide; [apply first_nai_ascii | split; [apply Hcfg | done]]. Qed.

Lemma again_ok ps : in_int64 ps -> wire_ok (again ps).
Proof. intros Hps. destruct nai_ascii as [Ha _]. unfold again. wire_fields_ok. Qed.
Lemma which_ok : wire_ok which.
Proof. unfold which. wire_fields_ok. Qed.
Lemma this_one_ok : wire_ok this_one.
Proof. unfold this_one. wire_fields_ok. Qed.
Lemma server_proves_ok : wire_ok server_proves.
Proof. unfold server_proves. generalize (computeMAC (km_Kms keys) 2 view_noob), (computeNoobID noob64). intros mac i. wire_fields_ok. Qed.
Lemma peer_proves_ok : wire_ok peer_proves.
Proof. unfold peer_proves. generalize (computeMAC (km_Kmp keys) 1 view_noob). intros mac. wire_fields_ok. Qed.

Lemma decode_sized_own n x : slen x = n -> decode_sized n (rawString (b64Encode x)) = Some x.
Proof.
  intros Hx. unfold decode_sized, rawString. rewrite rawToString_quote by apply b64Encode_ascii. cbn [mbind option_bind].
  rewrite b64Decode_Encode. cbn [mbind option_bind]. by rewrite bool_decide_true.
Qed.

Lemma length_noobID x : slen (computeNoobID x) = 16%nat.
Proof. unfold computeNoobID. by rewrite length_str_take, sha256_length. Qed.
Lemma length_mac k lead i : slen (computeMAC k lead i) = 32%nat.
Proof. by rewrite computeMAC_hmac, length_hmac. Qed.

Lemma noob_nonempty : noob <> "".
Proof. intros E. by rewrite E in Hnoob. Qed.
Lemma noobID_nonempty x : computeNoobID x <> "".
Proof. intros E. pose proof (length_noobID x) as H. by rewrite E in H. Qed.

Lemma peer_says_again st e b : st <> StateUnregistered -> decode b = Some (message typeDiscovery) ->
  peer_Receive e (peer_holds st false keyMaterial0) b = (peer_holds st false keyMaterial0, send st (again (state_int st))).
Proof.
  intros Hst Hb. unfold peer_Receive. rewrite Hb.
  change (onDiscoveryRequest (peer_holds st false keyMaterial0) = (peer_holds st false keyMaterial0, send st (again (state_int st)))).
  unfold onDiscoveryRequest. change (p_state (peer_holds st false keyMaterial0)) with st.
  change (ms_peerId (p_ms (peer_holds st false keyMaterial0))) with id64.
  rewrite (bool_decide_false (st = _)), (bool_decide_false _ id64_nonempty) by done. reflexivity.
Qed.

Lemma onDiscovery_again e s wm ps : wm_PeerState wm = Some ps -> wm_NAI wm = rawString nai ->
  (s_state s = StateWaiting /\ ps = 2) \/ (s_state s = StateOOBReceived /\ ps = 1) ->
  onDiscovery e s wm = startCompletion (srv_peerState ps (srv_ms (with_nai nai (s_ms s)) s)) wm.
Proof.
  intros Hp Hn Hs. unfold onDiscovery. rewrite Hp, Hn. cbv zeta. destruct nai_ascii as [Ha Hne]. unfold rawString. rewrite rawToString_quote by done.
  rewrite (bool_decide_false (quote nai = "")) by apply quote_nonempty.
  change (default (ms_nai (s_ms s)) (Some nai)) with nai. rewrite (bool_decide_false (nai = "")) by done.
  match goal with |- context [state_int (s_state ?x)] => change (s_state x) with (s_state s) end. by destruct Hs as [[-> ->] | [-> ->]].
Qed.

Lemma server_asks_which e b : decode b = Some (again 2) ->
  server_Receive e (server_holds StateWaiting 0 keyMaterial0) b = (server_holds StateWaiting 2 keyMaterial0, send StateWaiting which).
Proof.
  intros Hb. unfold server_Receive. rewrite Hb.
  change (onDiscovery e (server_holds StateWaiting 0 keyMaterial0) (again 2) = (server_holds StateWaiting 2 keyMaterial0, send StateWaiting which)).
  rewrite (onDiscovery_again _ _ _ 2) by (first [reflexivity | by left]). unfold startCompletion. rewrite checkPeerId_own by done.
  match goal with |- context [bool_decide (ms_noob ?x = "")] => change (ms_noob x) with noob end.
  rewrite (bool_decide_false _ noob_nonempty). reflexivity.
Qed.

Lemma server_completes e b : decode b = Some (again 1) ->
  server_Receive e (server_holds StateOOBReceived 0 keyMaterial0) b = (server_holds StateOOBReceived 1 keys, send StateOOBReceived server_proves).
Proof.
  intros Hb. unfold server_Receive. rewrite Hb.
  change (onDiscovery e (server_holds StateOOBReceived 0 keyMaterial0) (again 1) = (server_holds StateOOBReceived 1 keys, send StateOOBReceived server_proves)).
  rewrite (onDiscovery_again _ _ _ 1) by (first [reflexivity | by right]). unfold startCompletion. rewrite checkPeerId_own by done.
  match goal with |- context [bool_decide (ms_noob ?x = "")] => change (ms_noob x) with noob end.
  rewrite (bool_decide_false _ noob_nonempty). reflexivity.
Qed.

Lemma peer_says_which e b : decode b = Some which ->
  peer_Receive e (peer_holds StateOOBReceived false keyMaterial0) b = (peer_holds StateOOBReceived false keyMaterial0, send StateOOBReceived this_one).
Proof.
  intros Hb. unfold peer_Receive. rewrite Hb.
  change (onNoobIDRequest (peer_holds StateOOBReceived false keyMaterial0) = (peer_holds StateOOBReceived false keyMaterial0, send StateOOBReceived this_one)).
  unfold onNoobIDRequest. match goal with |- context [bool_decide (ms_noobID ?x = "")] => change (ms_noobID x) with (computeNoobID noob64) end.
  by rewrite (bool_decide_false _ (noobID_nonempty _)).
Qed.

Lemma server_completes_this e b : decode b = Some this_one ->
  server_Receive e (server_holds StateWaiting 2 keyMaterial0) b = (server_holds StateWaiting 2 keys, send StateWaiting server_proves).
Proof.
  intros Hb. unfold server_Receive. rewrite Hb.
  change (onNoobID (server_holds StateWaiting 2 keyMaterial0) this_one = (server_holds StateWaiting 2 keys, send StateWaiting server_proves)).
  unfold onNoobID. rewrite checkPeerId_own by done. change (wm_NoobId this_one) with (rawString (b64Encode (computeNoobID noob64))).
  unfold decodeNoobID. rewrite decode_sized_own by apply length_noobID. rewrite bool_decide_true by done. reflexivity.
Qed.

Lemma peer_verifies_server st e b : decode b = Some server_proves ->
  peer_Receive e (peer_holds st false keyMaterial0) b = (peer_holds st true keys, send st peer_proves).
Proof.
  intros Hb. unfold peer_Receive. rewrite Hb.
  change (onCompletionRequest (peer_holds st false keyMaterial0) server_proves = (peer_holds st true keys, send st peer_proves)).
  unfold onCompletionRequest. match goal with |- context [bool_decide (ms_noob ?x = "")] => change (ms_noob x) with noob end.
  rewrite (bool_decide_false _ noob_nonempty). change (wm_NoobId server_proves) with (rawString (b64Encode (computeNoobID noob64))).
  change (wm_MACs server_proves) with (rawString (b64Encode (computeMAC (km_Kms keys) 2 view_noob))).
  unfold decodeNoobID, decodeMAC. rewrite !decode_sized_own by (apply length_noobID || apply length_mac).
  rewrite bool_decide_true by done. cbn [negb]. cbv zeta. rewrite bool_decide_true by done. cbn [negb].
  destruct (decode_marshal peer_proves peer_proves_ok) as (b' & Hm & _).
  match goal with |- match marshal ?m with _ => _ end = _ => change m with peer_proves end. rewrite Hm. unfold send. rewrite Hm. reflexivity.
Qed.

Lemma server_verifies_peer st ps e b : st = StateWaiting \/ st = StateOOBReceived -> d_save e = true -> decode b = Some peer_proves ->
  server_Receive e (server_holds st ps keys) b = (server_done ps, ended StateRegistered eapSuccess true).
Proof.
  intros Hst He Hb. unfold server_Receive. rewrite Hb.
  change (onCompletion e (server_holds st ps keys) peer_proves = (server_done ps, ended StateRegistered eapSuccess true)).
  unfold onCompletion. change (s_state (server_holds st ps keys)) with st. change (ms_suite (s_ms (server_holds st ps keys))) with (Some cs).
  change (ms_keyM (s_ms (server_holds st ps keys))) with keys. rewrite (bool_decide_false (Some cs = None)) by done.
  rewrite (bool_decide_false (km_Kmp keys = "")).
  2: { destruct (derived_keys z np ns noob) as (_ & E & _). unfold keys. rewrite E. intros E'. apply (f_equal slen) in E'. by rewrite sha256_length in E'. }
  rewrite checkPeerId_own by done. change (wm_MACp peer_proves) with (rawString (b64Encode (computeMAC (km_Kmp keys) 1 view_noob))).
  unfold decodeMAC. rewrite decode_sized_own by apply length_mac.
  change (ms_in (s_ms (server_holds st ps keys))) with view_noob. generalize (computeMAC (km_Kmp keys) 1 view_noob). intros mac.
  rewrite (bool_decide_true (mac = mac)), He by done.
  destruct Hst as [-> | ->]; reflexivity.
Qed.

Lemma peer_registers st e b m : decode b = Some m -> wm_EAP m = eapSuccess -> d_save e = true ->
  peer_Receive e (peer_holds st true keys) b = (peer_done, Some (mkOutcome "" StateRegistered true true None)).
Proof. intros Hb Hm He. unfold peer_Receive. rewrite Hb, Hm. cbn -[onResult]. unfold onResult. rewrite Hm, He. reflexivity. Qed.
Lemma completion_ends st ps fuel es ep b : st = StateWaiting \/ st = StateOOBReceived -> d_save es = true -> d_save ep = true ->
  b <> "" -> decode b = Some server_proves ->
  converse (4 + fuel) es ep true b (server_holds st ps keys) (peer_holds (if bool_decide (st = StateWaiting) then StateOOBReceived else StateWaiting) false keyMaterial0) =
    Some (server_done ps, peer_done).
Proof.
  intros Hst Hes Hep Hb Hd. set (stp := if bool_decide (st = StateWaiting) then _ else _). clearbody stp. cbn [Nat.add].
  destruct (converse_peer (3 + fuel) es ep b (server_holds st ps keys) _ _ _ _ Hb (peer_verifies_server stp ep b Hd) peer_proves_ok) as (b1 & Hd1 & Hne1 & E).
  etransitivity; [exact E |]. clear E. destruct (result_read eapSuccess (or_intror eq_refl)) as (m & Hm & He & Hne). cbn [Nat.add converse].
  rewrite (bool_decide_false _ Hne1), (server_verifies_peer st ps es b1 Hst Hes Hd1).
  unfold ended, answers. cbn [o_Err o_Send mbind option_bind fst snd].
  rewrite (bool_decide_false _ Hne). rewrite (peer_registers stp ep _ m Hm He Hep). cbn. by destruct fuel.
Qed.

(** The completion exchange registers both, from either direction of the out-of-band step. *)
Lemma completion_to_peer es ep start : d_save es = true -> d_save ep = true -> Start = Some start ->
  converse 9 es ep true start (server_holds StateWaiting 0 keyMaterial0) (peer_holds StateOOBReceived false keyMaterial0) = Some (server_done 2, peer_done).
Proof.
  intros Hes Hep Hstart. destruct start_message as (b0 & E0 & Hne0 & Hd0). rewrite E0 in Hstart. injection Hstart as <-.
  destruct (converse_peer 8 es ep b0 (server_holds StateWaiting 0 keyMaterial0) _ _ _ _ Hne0 (peer_says_again StateOOBReceived ep b0 ltac:(done) Hd0) (again_ok 2 ltac:(done)))
    as (b1 & Hd1 & Hne1 & ->).
  destruct (converse_server 7 es ep b1 _ (peer_holds StateOOBReceived false keyMaterial0) _ _ _ Hne1 (server_asks_which es b1 Hd1) which_ok) as (b2 & Hd2 & Hne2 & ->).
  destruct (converse_peer 6 es ep b2 (server_holds StateWaiting 2 keyMaterial0) _ _ _ _ Hne2 (peer_says_which ep b2 Hd2) this_one_ok) as (b3 & Hd3 & Hne3 & ->).
  destruct (converse_server 5 es ep b3 _ (peer_holds StateOOBReceived false keyMaterial0) _ _ _ Hne3 (server_completes_this es b3 Hd3) server_proves_ok) as (b4 & Hd4 & Hne4 & ->).
  apply (completion_ends StateWaiting 2 1); auto.
Qed.

Lemma completion_to_server es ep start : d_save es = true -> d_save ep = true -> Start = Some start ->
  converse 9 es ep true start (server_holds StateOOBReceived 0 keyMaterial0) (peer_holds StateWaiting false keyMaterial0) = Some (server_done 1, peer_done).
Proof.
  intros Hes Hep Hstart. destruct start_message as (b0 & E0 & Hne0 & Hd0). rewrite E0 in Hstart. injection Hstart as <-.
  destruct (converse_peer 8 es ep b0 (server_holds StateOOBReceived 0 keyMaterial0) _ _ _ _ Hne0 (peer_says_again StateWaiting ep b0 ltac:(done) Hd0) (again_ok 1 ltac:(done)))
    as (b1 & Hd1 & Hne1 & ->).
  destruct (converse_server 7 es ep b1 _ (peer_holds StateWaiting false keyMaterial0) _ _ _ Hne1 (server_completes es b1 Hd1) server_proves_ok) as (b2 & Hd2 & Hne2 & ->).
  apply (completion_ends StateOOBReceived 1 3); auto.
Qed.
End Honest.

(** The keys of two generated key pairs fit together. *)
Lemma keys_exist `{!EcdhLaws} csp cs ks kp : suiteByID csp = Some cs -> exists jwks jwkp z, keys_ok ks kp cs jwks jwkp z.
Proof.
  intros Hcs. destruct (decode_encode_key csp cs ks Hcs) as (jwks & Es & As & Ds), (decode_encode_key csp cs kp Hcs) as (jwkp & Ep & Ap & Dp).
  destruct (shared_honest (cs_curve cs) ks kp) as [z Hz]. exists jwks, jwkp, z. constructor; try done.
  - unfold generateKeypair. cbn. by rewrite Es.
  - unfold generateKeypair. cbn. by rewrite Ep.
  - unfold computeZ. rewrite Dp. cbn. by rewrite bool_decide_true.
  - unfold computeZ. rewrite Ds. cbn. by rewrite bool_decide_true, shared_agrees.
Qed.

(** The ways a nonce gets from one side to the other: a PIN the user types, the message of
    the server, the message of the peer. *)
Inductive oob_step (noob : string) (s : Server) (p : Peer) : Server -> Peer -> Prop :=
| oob_pin s' p' msg : server_OOBOutputWith noob s = (s', Some msg) -> peer_OOBInputNoob noob p = (p', true) -> oob_step noob s p s' p'
| oob_to_peer s' p' msg : server_OOBOutput (Some noob) s = (s', Some msg) -> peer_OOBInput msg p = (p', true) -> oob_step noob s p s' p'
| oob_to_server s' p' msg : peer_OOBOutput (Some noob) p = (p', Some msg) -> server_OOBInput msg s = (s', true) -> oob_step noob s p s' p'.

Lemma chooseDir_choice d prefer v : chooseDir d prefer = Some v -> v = 1 \/ v = 2.
Proof.
  unfold chooseDir. destruct (d =? 1); [intros [= <-]; auto |]. destruct (d =? 2); [intros [= <-]; auto |]. destruct (d =? 3); [| done].
  destruct (prefer =? 1) eqn:E1; [apply Z.eqb_eq in E1 as ->; intros [= <-]; auto |].
  destruct (prefer =? 2) eqn:E2; [apply Z.eqb_eq in E2 as ->; intros [= <-]; auto |]. intros [= <-]. auto.
Qed.

(** Whichever way is taken, both hold the nonce afterwards, and the receiver knows. *)
Lemma oob_step_holds cfg pcfg id ns np ks kp verp csp dirp cs jwks jwkp z noob s1 p1 :
  slen noob = 16%nat -> dirp = 1 \/ dirp = 2 ->
  oob_step noob (server_waits cfg pcfg id ns np ks verp csp dirp cs jwks jwkp z) (peer_waits cfg pcfg id ns np kp verp csp dirp cs jwks jwkp z) s1 p1 ->
  (s1 = server_holds cfg pcfg id ns np ks verp csp dirp cs jwks jwkp z noob StateWaiting 0 keyMaterial0 /\
   p1 = peer_holds cfg pcfg id ns np kp verp csp dirp cs jwks jwkp z noob StateOOBReceived false keyMaterial0 /\ dirp = 2) \/
  (s1 = server_holds cfg pcfg id ns np ks verp csp dirp cs jwks jwkp z noob StateOOBReceived 0 keyMaterial0 /\
   p1 = peer_holds cfg pcfg id ns np kp verp csp dirp cs jwks jwkp z noob StateWaiting false keyMaterial0 /\ dirp = 1).
Proof.
  intros Hnoob Hdir Hstep. destruct Hdir as [-> | ->]; [right | left]; destruct Hstep as [s1 p1 msg H1 H2 | s1 p1 msg H1 H2 | s1 p1 msg H1 H2].
  - by apply pair_equal_spec in H1 as [_ ?].
  - by apply pair_equal_spec in H1 as [_ ?].
  - destruct (carried_to_server cfg pcfg id ns np ks kp verp csp 1 cs jwks jwkp z noob Hnoob eq_refl) as (msg' & E1 & E2).
    rewrite E1 in H1. apply pair_equal_spec in H1 as [<- [= <-]]. rewrite E2 in H2. by apply pair_equal_spec in H2 as [<- _].
  - destruct (pin_step cfg pcfg id ns np ks kp verp csp 2 cs jwks jwkp z noob Hnoob eq_refl) as [[msg' E1] E2].
    rewrite E1 in H1. rewrite E2 in H2. apply pair_equal_spec in H1 as [<- _]. by apply pair_equal_spec in H2 as [<- _].
  - destruct (carried_to_peer cfg pcfg id ns np ks kp verp csp 2 cs jwks jwkp z noob Hnoob eq_refl) as (msg' & E1 & E2).
    rewrite E1 in H1. apply pair_equal_spec in H1 as [<- [= <-]]. rewrite E2 in H2. by apply pair_equal_spec in H2 as [<- _].
  - by apply pair_equal_spec in H1 as [_ ?].
Qed.

Lemma exports_equal s p a : ms_registered (s_ms s) = Some a -> ms_registered (p_ms p) = Some a ->
  forall label context length, server_Export s label context length = peer_Export p label context length.
Proof. intros Hs Hp label context length. unfold server_Export, peer_Export. by rewrite Hs, Hp. Qed.

(** C11. Two honest sides pair.  With a version, a cryptosuite and a direction in common,
    the initial exchange leaves both waiting; one way to carry the nonce is open; and
    whichever is taken, the completion exchange registers both, with one association
    stored on either side under the same identifier, and both export the same secrets. *)
Theorem honest_pairing `{!EcdhLaws} cfg pcfg id ns np ks kp verp csp dirp cs es ep es' ep' noob :
  configs_ok cfg pcfg -> compatible cfg pcfg verp csp dirp cs -> draws_for id ns np ks kp es ep ->
  slen id = 16%nat -> slen ns = 32%nat -> slen np = 32%nat -> slen noob = 16%nat -> d_save es' = true -> d_save ep' = true ->
  exists start s p, Start = Some start /\ converse 9 es ep true start (NewServer cfg) (NewPeer pcfg) = Some (s, p) /\
    s_state s = StateWaiting /\ p_state p = StateWaiting /\ (exists s1 p1, oob_step noob s p s1 p1) /\
    forall s1 p1, oob_step noob s p s1 p1 -> exists s' p' a,
      converse 9 es' ep' true start s1 p1 = Some (s', p') /\ s_state s' = StateRegistered /\ p_state p' = StateRegistered /\
      ms_registered (s_ms s') = Some a /\ ms_registered (p_ms p') = Some a /\ agreed s' p' /\
      (forall label context length, server_Export s' label context length = peer_Export p' label context length) /\
      store_Load (s_store s') (as_PeerId a) = Some a /\ store_Load (p_store p') (as_PeerId a) = Some a /\ as_PeerId a = b64Encode id.
Proof.
  intros Hcfg Hc Hd Hid Hns Hnp Hnoob Hes Hep. destruct (keys_exist csp cs ks kp (cp_cs _ _ _ _ _ _ Hc)) as (jwks & jwkp & z & Hk).
  destruct start_message as (start & Hstart & _). exists start. do 2 eexists. split; [done |].
  split; [by eapply (initial_exchange cfg pcfg id ns np ks kp verp csp dirp cs jwks jwkp z) |]. split; [done |]. split; [done |].
  assert (dirp = 1 \/ dirp = 2) as Hdir by exact (chooseDir_choice _ _ _ (cp_direction _ _ _ _ _ _ Hc)). split.
  { destruct Hdir as [E | E].
    - destruct (carried_to_server cfg pcfg id ns np ks kp verp csp dirp cs jwks jwkp z noob Hnoob E) as (msg & H1 & H2).
      do 2 eexists. by eapply oob_to_server.
    - destruct (pin_step cfg pcfg id ns np ks kp verp csp dirp cs jwks jwkp z noob Hnoob E) as [[msg H1] H2].
      do 2 eexists. by eapply oob_pin. }
  intros s1 p1 Hstep. apply oob_step_holds in Hstep; [| done | done].
  assert (forall ps, agreed (server_done cfg pcfg id ns np ks verp csp dirp cs jwks jwkp z noob ps) (peer_done cfg pcfg id ns np kp verp csp dirp cs jwks jwkp z noob)) as Hagr
    by (intros ps; by constructor).
  destruct Hstep as [(-> & -> & _) | (-> & -> & _)].
  - do 3 eexists. split; [by eapply completion_to_peer |]. do 4 (split; [reflexivity |]). split; [apply Hagr |]. split; [apply (exports_equal _ _ (result cfg pcfg id ns np csp z noob)); reflexivity |].
    split; [apply lookup_insert_eq |]. split; [apply lookup_insert_eq | reflexivity].
  - do 3 eexists. split; [by eapply completion_to_server |]. do 4 (split; [reflexivity |]). split; [apply Hagr |]. split; [apply (exports_equal _ _ (result cfg pcfg id ns np csp z noob)); reflexivity |].
    split; [apply lookup_insert_eq |]. split; [apply lookup_insert_eq | reflexivity].
Qed.
End Pairing.
