(* ===== verification/EapExample.v ===== *)
(** A concrete EAP-NOOB session with SHA-256 and a toy key exchange: it runs the handlers
    of both sides, and shows that the hypotheses of the agreement theorems hold together. *)
From S2P Require Import Prelude.
From S2P Require Import GoStd.
From S2P Require Import GoBytes.
From S2P Require Import Json.
From S2P Require Import JsonText.
From S2P Require Import EapWire.
From S2P Require Import EapKeys.
From S2P Require Import EapNoob.
From S2P Require Import EapSession.
From S2P Require Import EapPairing.
Import Wire.

Open Scope string_scope.
Open Scope list_scope.
Open Scope Z_scope.

(** * A toy key exchange *)

(** Keys are added instead of multiplied: no secrecy, but all the laws. *)
Definition toy_public (c : curve) (k : Z) : string :=
  match c with
  | X25519 => String (chr k) (str_repeat (chr 7) 31)
  | P256 => String (chr 4) (String (chr k) (str_repeat (chr 7) 63))
  end.
Definition toy_shared (c : curve) (k : Z) (pub : string) : option string :=
  let pub := match c with X25519 => pub | P256 => str_drop 1 pub end in
  match pub with
  | String d _ => Some (String (chr (k + byte d)) (str_repeat (chr 9) 31))
  | "" => None
  end.

#[export] Instance toy_ecdh : Ecdh := {
  scalar := Z; PublicBytes := toy_public; NewPublicKey := fun _ _ => true; SharedSecret := toy_shared
}.

#[export] Instance toy_laws : EcdhLaws.
Proof.
  assert (forall a b, chr (a + byte (chr b)) = chr (b + byte (chr a))) as Hc.
  { intros a b. apply byte_inj. rewrite !byte_chr, !Z.add_mod_idemp_r by lia. by rewrite Z.add_comm. }
  constructor; intros.
  - done.
  - done.
  - done.
  - cbn. destruct c; cbn; by rewrite Hc.
  - cbn. destruct c; by eexists.
Qed.

(** * The session: PIN pairing, server to peer *)

Definition demo_cfg : ServerConfig := mkServerConfig [] [] 2 None "" 0.
Definition demo_pcfg : PeerConfig := mkPeerConfig "" [] [] 2 None.
Definition demo_es : draws := mkDraws (Some "0123456789abcdef") (Some 11) (Some "server nonce, thirty-two bytes..") true.
Definition demo_ep : draws := mkDraws None (Some 23) (Some "peer nonce, also 32 bytes long..") true.
Definition demo_noob : string := "PIN 123456 .....".

Definition demo_start : string := default "" Start.
Definition sent {A} (r : A * option Outcome) : string := match r.2 with Some o => o_Send o | None => "" end.

(** After the initial exchange, and after the user typed the PIN. *)
Definition demo_waiting : Server * Peer :=
  default (NewServer demo_cfg, NewPeer demo_pcfg) (converse 9 demo_es demo_ep true demo_start (NewServer demo_cfg) (NewPeer demo_pcfg)).
Definition demo_s : Server := (server_OOBOutputWith demo_noob demo_waiting.1).1.
Definition demo_p : Peer := (peer_OOBInputNoob demo_noob demo_waiting.2).1.

(** The completion exchange: hello, which nonce, this one, the server's code, the peer's
    code, success. *)
Definition demo_r1 := peer_Receive demo_ep demo_p demo_start.
Definition demo_r2 := server_Receive demo_es demo_s (sent demo_r1).
Definition demo_r3 := peer_Receive demo_ep demo_r1.1 (sent demo_r2).
Definition demo_r4 := server_Receive demo_es demo_r2.1 (sent demo_r3).
Definition demo_r5 := peer_Receive demo_ep demo_r3.1 (sent demo_r4).
Definition demo_r6 := server_Receive demo_es demo_r4.1 (sent demo_r5).
Definition no_outcome : Outcome := mkOutcome "" StateUnregistered false false None.
Definition demo_o6 : Outcome := default no_outcome demo_r6.2.
Definition read (b : string) : wireMessage := default (message typeError) (decode b).

(** The same step with a message instead of a PIN. *)
Definition demo_out := server_OOBOutput (Some demo_noob) demo_waiting.1.
Definition demo_msg : OOBMessage := default (mkOOB "" "" "") demo_out.2.
Definition demo_in := peer_OOBInput demo_msg demo_waiting.2.

Example demo_registers : s_state demo_r6.1 = StateRegistered /\ sent demo_r6 = "{" +:+ quote "eap" +:+ ":" +:+ quote "success" +:+ "}".
Proof. split; vm_compute; reflexivity. Qed.

(** * The runs *)

Lemma answers_some {A} (r : A * option Outcome) a b : answers r = Some (a, b) -> exists o, r = (a, o).
Proof. unfold answers. destruct r as [a' [o|]]; [| done]. destruct (o_Err o); [done |]. intros [= <- _]. eauto. Qed.

(** A conversation is a run of either side. *)
Lemma converse_runs cfg pcfg es ep : draws_ok es -> draws_ok ep -> forall fuel turn msg s p s' p' l,
  server_run cfg l s -> peer_run pcfg p -> converse fuel es ep turn msg s p = Some (s', p') ->
  (exists l', server_run cfg l' s') /\ peer_run pcfg p'.
Proof.
  intros Hes Hep. induction fuel as [|fuel IH]; intros turn msg s p s' p' l Hs Hp; [done |]. cbn [converse].
  case_bool_decide; [intros [= <- <-]; eauto |]. destruct turn.
  - destruct (answers (peer_Receive ep p msg)) as [[p1 b]|] eqn:E; [| done]. apply answers_some in E as [o E]. cbn.
    apply (IH _ _ _ _ _ _ l); [done |]. eapply rtc_r; [exact Hp | exact (pstep_receive ep msg _ _ o Hep E)].
  - destruct (answers (server_Receive es s msg)) as [[s1 b]|] eqn:E; [| done]. apply answers_some in E as [o E]. cbn.
    apply (IH _ _ _ _ _ _ (held (s_ms s1) :: l)); [| done]. eapply server_more; [exact Hs | exact (step_receive es msg _ _ o Hes E)].
Qed.

Lemma demo_draws : draws_ok demo_es /\ draws_ok demo_ep.
Proof. repeat split; intros x Hx; cbn in Hx; try done; injection Hx as <-; reflexivity. Qed.

Lemma demo_waiting_runs : (exists l, server_run demo_cfg l demo_waiting.1) /\ peer_run demo_pcfg demo_waiting.2.
Proof.
  destruct demo_draws as [Hes Hep]. unfold demo_waiting. destruct (converse _ _ _ _ _ _ _) as [[s p]|] eqn:E.
  - by apply (converse_runs demo_cfg demo_pcfg demo_es demo_ep Hes Hep 9 true demo_start _ _ s p [] (server_new _) (rtc_refl _ _)) in E.
  - split; [exists []; apply server_new | apply rtc_refl].
Qed.

Lemma demo_start_runs : (exists l, server_run demo_cfg l demo_s) /\ peer_run demo_pcfg demo_p.
Proof.
  destruct demo_waiting_runs as [[l Hs] Hp]. split.
  - eexists. eapply server_more; [exact Hs |]. eapply step_output_with. apply surjective_pairing.
  - eapply rtc_r; [exact Hp |]. eapply pstep_input_noob. apply surjective_pairing.
Qed.

Lemma demo_runs : (exists l, server_run demo_cfg l demo_r4.1) /\ peer_run demo_pcfg demo_r3.1.
Proof.
  destruct demo_draws as [Hes Hep], demo_start_runs as [[l Hs] Hp]. split.
  - eexists. eapply server_more; [| exact (step_receive demo_es _ demo_r2.1 _ demo_r4.2 Hes (surjective_pairing _))].
    eapply server_more; [exact Hs | exact (step_receive demo_es _ _ _ demo_r2.2 Hes (surjective_pairing _))].
  - eapply rtc_r; [| exact (pstep_receive demo_ep _ demo_r1.1 _ demo_r3.2 Hep (surjective_pairing _))].
    eapply rtc_r; [exact Hp | exact (pstep_receive demo_ep _ _ _ demo_r1.2 Hep (surjective_pairing _))].
Qed.

Lemma outcome_some {A} (r : A * option Outcome) : o_Success (default no_outcome r.2) = true -> r = (r.1, Some (default no_outcome r.2)).
Proof. by destruct r as [a [o|]]. Qed.

Lemma demo_success : server_Receive demo_es demo_r4.1 (sent demo_r5) = (demo_r6.1, Some demo_o6) /\ o_Success demo_o6 = true.
Proof.
  unfold demo_o6, demo_r6. assert (o_Success (default no_outcome (server_Receive demo_es demo_r4.1 (sent demo_r5)).2) = true) as H
    by (vm_compute; reflexivity).
  exact (conj (outcome_some _ H) H).
Qed.

(** The texts that prove the two sides to each other. *)
Lemma demo_codes : decode (sent demo_r4) = Some (read (sent demo_r4)) /\ decodeMAC (wm_MACs (read (sent demo_r4))) = Some (server_code demo_r4.1) /\
  decode (sent demo_r5) = Some (read (sent demo_r5)) /\ decodeMAC (wm_MACp (read (sent demo_r5))) = Some (peer_code demo_r5.1) /\
  p_completionVerified demo_r5.1 = true /\ slen (km_Kms (ms_keyM (s_ms demo_r4.1))) = 32%nat.
Proof. split_and!; vm_compute; reflexivity. Qed.

(** The message the server outputs, and the peer takes. *)
Lemma some_default {A B} (d : B) (r : A * option B) : bool_decide (is_Some r.2) = true -> r = (r.1, Some (default d r.2)).
Proof. by destruct r as [a [b|]]. Qed.

Lemma true_second {A} (r : A * bool) : r.2 = true -> r = (r.1, true).
Proof. destruct r as [a b]. cbn. by intros ->. Qed.

Lemma demo_carried : server_OOBOutput (Some demo_noob) demo_waiting.1 = (demo_out.1, Some demo_msg) /\
  peer_OOBInput demo_msg demo_waiting.2 = (demo_in.1, true).
Proof.
  split.
  - unfold demo_msg, demo_out. apply some_default. vm_compute. reflexivity.
  - unfold demo_in. apply true_second. vm_compute. reflexivity.
Qed.

(** * The agreement theorems apply *)

Lemma server_agreement_witness : exists l,
  (agreed demo_r6.1 demo_r5.1 /\ exists a, ms_registered (s_ms demo_r6.1) = Some a /\ store_Load (s_store demo_r6.1) (as_PeerId a) = Some a /\
     as_Kz a = km_Kz (ms_keyM (p_ms demo_r5.1)) /\ as_Cryptosuitep a = p_csp demo_r5.1) \/
  broken_keys 9 l (held (p_ms demo_r5.1)) \/
  broken_code (km_Kmp (ms_keyM (s_ms demo_r4.1))) (noobArray (rawInt 1) (ms_in (s_ms demo_r4.1)))
    (km_Kmp (ms_keyM (p_ms demo_r5.1))) (noobArray (rawInt 1) (ms_in (p_ms demo_r5.1))).
Proof.
  destruct demo_runs as [[l Hs] Hp]. exists l. destruct demo_success as [E6 Ho], demo_codes as (_ & _ & Hd & Hm & Hv & _).
  exact (server_agreement demo_cfg demo_pcfg l demo_r4.1 demo_r3.1 demo_ep (sent demo_r4) demo_r5.1 demo_r5.2 demo_es (sent demo_r5) demo_r6.1 demo_o6
    (read (sent demo_r5)) closed_object closed_object Hs Hp (proj2 demo_draws) (surjective_pairing _) Hv E6 Ho Hd Hm).
Defined.

Lemma peer_agreement_witness : exists l,
  agreed demo_r4.1 demo_r5.1 \/ broken_keys 8 l (held (p_ms demo_r5.1)) \/
  broken_code (km_Kms (ms_keyM (s_ms demo_r4.1))) (noobArray (rawInt 2) (ms_in (s_ms demo_r4.1)))
    (km_Kms (ms_keyM (p_ms demo_r5.1))) (noobArray (rawInt 2) (ms_in (p_ms demo_r5.1))).
Proof.
  destruct demo_runs as [[l Hs] Hp]. exists l. destruct demo_codes as (Hd & Hm & _ & _ & Hv & Hk).
  refine (peer_agreement demo_cfg demo_pcfg l demo_r4.1 demo_r3.1 demo_ep (sent demo_r4) demo_r5.1 demo_r5.2
    (read (sent demo_r4)) closed_object closed_object Hs _ Hp (proj2 demo_draws) (surjective_pairing _) Hv Hd Hm).
  intros E. rewrite E in Hk. discriminate Hk.
Defined.

Lemma exchange_once_witness : s_state demo_s <> StateUnregistered /\ exchanged (s_ms demo_r2.1) = exchanged (s_ms demo_s).
Proof.
  assert (s_state demo_s <> StateUnregistered) as Hst by (assert (s_state demo_s = StateWaiting) as -> by (vm_compute; reflexivity); discriminate).
  split; [exact Hst |]. apply (exchange_once demo_s demo_r2.1); [| exact Hst].
  apply rtc_once. exact (step_receive demo_es _ _ _ demo_r2.2 (proj1 demo_draws) (surjective_pairing _)).
Defined.

Lemma oob_agreement_witness : 
  p_state demo_in.1 = StateOOBReceived /\ ms_noob (p_ms demo_in.1) = ms_noob (s_ms demo_out.1) /\
  (same_inputs (ms_in (s_ms demo_out.1)) (ms_in (p_ms demo_in.1)) \/
   short_collision (noobArray (rawInt 2) (ms_in (s_ms demo_out.1))) (noobArray (rawInt 2) (ms_in (p_ms demo_in.1)))).
Proof.
  destruct demo_waiting_runs as [[l Hs] Hp]. destruct demo_carried as [Ho Hi].
  exact (proj1 (oob_agreement demo_cfg demo_pcfg l demo_waiting.1 demo_waiting.2 closed_object closed_object Hs Hp)
    (Some demo_noob) demo_out.1 demo_msg demo_in.1 Ho Hi).
Defined.

Lemma demo_configs : configs_ok demo_cfg demo_pcfg.
Proof.
  assert (text_ok "{}") as Hobj.
  { split; [vm_compute; reflexivity |]. exists 1%nat, (JObj []). split; [by eexists _, _ |]. done. }
  constructor; try done; try (by apply ascii_check).
  - repeat (apply Forall_cons; split; [done |]). constructor.
  - repeat (apply Forall_cons; split; [done |]). constructor.
Qed.

Lemma honest_pairing_witness : exists start s p s1 p1 s' p',
  Start = Some start /\ converse 9 demo_es demo_ep true start (NewServer demo_cfg) (NewPeer demo_pcfg) = Some (s, p) /\
  oob_step demo_noob s p s1 p1 /\ converse 9 demo_es demo_ep true start s1 p1 = Some (s', p') /\
  s_state s' = StateRegistered /\ p_state p' = StateRegistered.
Proof.
  destruct (honest_pairing (EC := toy_ecdh) demo_cfg demo_pcfg "0123456789abcdef" "server nonce, thirty-two bytes.." "peer nonce, also 32 bytes long.." (11 : Z) (23 : Z)
    1 2 2 (mkSuite 2 P256 "EC" "P-256" true) demo_es demo_ep demo_es demo_ep demo_noob) as (start & s & p & H1 & H2 & _ & _ & (s1 & p1 & H3) & H4);
    [apply demo_configs | by constructor | by constructor | reflexivity .. |].
  destruct (H4 s1 p1 H3) as (s' & p' & a & H5 & H6 & H7 & _). by exists start, s, p, s1, p1, s', p'.
Defined.
