(* ===== verification/ClusterAddresses.v ===== *)
(** Cluster members and the addresses they may be dialled at
    (services/nvpair-cluster-manager: membership.go, addresses.go and the address helpers of
    httpserver.go and invite.go).  A member's hints are kept in its record: the pairing
    address, at most seven candidates, and the earliest time of the next unproven dial. *)
From S2P Require Import Prelude.
From S2P Require Import GoStd.

Open Scope string_scope.
Open Scope list_scope.
Open Scope Z_scope.

(** * net/netip *)

(** A [netip.Addr]: four bytes, or sixteen and a zone. *)
Inductive Addr : Type := Addr4 (b : list Z) | Addr6 (b : list Z) (zone : string).

#[export] Instance Addr_eq : EqDecision Addr.
Proof. solve_decision. Defined.

Module Netip.
Definition ParseAddr (s : string) : option Addr :=
  match ip_syntax s with
  | Some "."%char => Addr4 <$> parseIPv4 s
  | Some ":"%char =>
      match cut "%" s with
      | Some (_, "") => None
      | Some (a, zone) => (fun b => Addr6 b zone) <$> parseIPv6 a
      | None => (fun b => Addr6 b "") <$> parseIPv6 s
      end
  | _ => None
  end.

Definition Unmap (a : Addr) : Addr :=
  match a with
  | Addr6 b _ => if bool_decide (take 12 b = v4_prefix) then Addr4 (drop 12 b) else a
  | _ => a
  end.

Definition zone_of (a : Addr) : string := match a with Addr4 _ => "" | Addr6 _ z => z end.
Definition Is6 (a : Addr) : bool := match a with Addr6 _ _ => true | _ => false end.

Definition IsUnspecified (a : Addr) : bool :=
  bool_decide (a = Addr4 [0; 0; 0; 0]) || bool_decide (a = Addr6 (replicate 16 0) "").

(** The predicates are asked of unmapped addresses. *)
Definition IsMulticast (a : Addr) : bool :=
  match a with
  | Addr4 (x :: _) => Z.land x 0xf0 =? 0xe0
  | Addr6 (x :: _) _ => x =? 0xff
  | _ => false
  end.
Definition IsLinkLocalUnicast (a : Addr) : bool :=
  match a with
  | Addr4 (x :: y :: _) => (x =? 169) && (y =? 254)
  | Addr6 (x :: y :: _) _ => (x =? 0xfe) && (Z.land y 0xc0 =? 0x80)
  | _ => false
  end.
Definition IsLoopback (a : Addr) : bool :=
  match a with
  | Addr4 (x :: _) => x =? 127
  | Addr6 b _ => bool_decide (b = IPv6loopback)
  | _ => false
  end.
Definition IsGlobalUnicast (a : Addr) : bool :=
  negb (bool_decide (a = Addr4 [0; 0; 0; 0])) && negb (bool_decide (a = Addr4 [255; 255; 255; 255])) &&
  negb (bool_decide (a = Addr6 (replicate 16 0) "")) &&
  negb (IsLoopback a) && negb (IsMulticast a) && negb (IsLinkLocalUnicast a).

(** [Addr.String]: dotted decimal, or RFC 5952. *)
Definition hex_digit (z : Z) : ascii := ascii_of_N (Z.to_N (if z <? 10 then 48 + z else 87 + z)).
Fixpoint hex_field (fuel : nat) (z : Z) (acc : string) : string :=
  match fuel with
  | O => acc
  | S fuel => let acc := String (hex_digit (Z.land z 15)) acc in
              if z <? 16 then acc else hex_field fuel (Z.shiftr z 4) acc
  end.
Fixpoint groups (b : list Z) : list Z :=
  match b with x :: y :: b => Z.shiftl x 8 + y :: groups b | _ => [] end.
(** The length of the run of zero groups the list starts with. *)
Fixpoint zeros (g : list Z) : nat :=
  match g with x :: g => if x =? 0 then S (zeros g) else O | [] => O end.
(** The first longest run of at least two zero groups: its position and length. *)
Definition longest_run (g : list Z) : nat * nat :=
  fold_left (fun best i => let l := zeros (drop i g) in
                           if (2 <=? l)%nat && (best.2 <? l)%nat then (i, l) else best)
    (seq 0 8) (O, O).
Fixpoint colons (l : list string) : string :=
  match l with [] => "" | [x] => x | x :: l => x +:+ ":" +:+ colons l end.
Definition string6 (b : list Z) : string :=
  let g := groups b in let '(i, n) := longest_run g in
  let f x := hex_field 4 x "" in
  if Nat.eqb n 0 then colons (f <$> g)
  else colons (f <$> take i g) +:+ "::" +:+ colons (f <$> drop (i + n) g).
Definition String_ (a : Addr) : string :=
  match a with
  | Addr4 b => join "." (Itoa <$> b)
  | Addr6 b z => string6 b +:+ (if bool_decide (z = "") then "" else "%" +:+ z)
  end.
End Netip.

Example netip_prints : Netip.String_ <$> (Netip.ParseAddr "FE80:0::0:1:0:0:c%en0") = Some "fe80::1:0:0:c%en0".
Proof. reflexivity. Qed.

(** * Endpoints (addresses.go, httpserver.go, invite.go) *)

(** [net.JoinHostPort] of a numeric address, in the form the manager dials. *)
Definition zone_char (c : ascii) : bool :=
  forallb (fun d => negb (byte c =? d)) [37; 47; 92; 63; 35; 91; 93; 58; 32; 9; 13; 10].

Definition candidateEndpoint (endpoint : string) (allowLoopback : bool) : option string :=
  match SplitHostPort endpoint with
  | None => None
  | Some (host, p) =>
      match Atoi p with
      | None => None
      | Some port =>
          if (port <? 1) || (65535 <? port) then None else
          match Netip.ParseAddr host with
          | None => None
          | Some ip =>
              let ip := Netip.Unmap ip in
              if Netip.IsUnspecified ip || Netip.IsMulticast ip
                 || (negb (Netip.IsGlobalUnicast ip) && negb (Netip.IsLinkLocalUnicast ip) && negb (Netip.IsLoopback ip))
                 || (negb allowLoopback && Netip.IsLoopback ip) then None
              else if match ip with
                      | Addr4 (b :: _) => (b =? 0) || (224 <=? b) || Netip.IsLinkLocalUnicast ip
                      | _ => false
                      end then None
              else if Netip.Is6 ip && Netip.IsLinkLocalUnicast ip && bool_decide (Netip.zone_of ip = "") then None
              else if negb (bool_decide (Netip.zone_of ip = ""))
                      && (negb (Netip.Is6 ip) || negb (Netip.IsLinkLocalUnicast ip)
                          || (64 <? String.length (Netip.zone_of ip))%nat
                          || negb (forallb zone_char (String.list_ascii_of_string (Netip.zone_of ip)))) then None
              else Some (JoinHostPort (Netip.String_ ip) (Itoa port))
          end
      end
  end.

Definition joinHostPort (host : string) (port defPort : Z) : string :=
  if bool_decide (host = "") then ""
  else JoinHostPort host (Itoa (if (port <? 1) || (65535 <? port) then defPort else port)).

Definition splitAddr (addr : string) (defPort : Z) : string * Z :=
  if bool_decide (addr = "") then ("", defPort)
  else match SplitHostPort addr with
       | None => (addr, defPort)
       | Some (host, p) => (host, default defPort (Atoi p))
       end.

Definition hostOnly (hostPort : string) : string :=
  match SplitHostPort hostPort with Some (host, _) => host | None => hostPort end.

(** What follows the first ['%'], empty without one. *)
Definition zone_after (s : string) : string := match cut "%" s with Some (_, z) => z | None => "" end.
Definition before_zone (s : string) : string := match cut "%" s with Some (a, _) => a | None => s end.

Definition localScope (advertised via : string) : string :=
  match SplitHostPort advertised with
  | None => advertised
  | Some (host, port) =>
      let bare := before_zone host in
      match ParseIP bare with
      | None => advertised
      | Some ip =>
          if negb (GoStd.IsLinkLocalUnicast ip) || bool_decide (is_Some (To4 ip)) then advertised
          else let zone := zone_after via in
               if bool_decide (zone = "") then JoinHostPort bare port
               else JoinHostPort (bare +:+ "%" +:+ zone) port
      end
  end.

Definition confirmedFirst (addrs : list string) (confirmed : string) : list string :=
  if bool_decide (confirmed = "") || bool_decide (head addrs = None) || bool_decide (head addrs = Some confirmed)
  then addrs
  else confirmed :: List.filter (fun a => negb (bool_decide (a = confirmed))) addrs.

(** * Members (membership.go, addresses.go) *)

Inductive MembershipState : Type := stateMember | statePendingOutbound | statePendingInbound.
#[export] Instance MembershipState_eq : EqDecision MembershipState.
Proof. solve_decision. Defined.

Record addressCandidate : Type := mkCandidate {
  ac_Address : string; ac_LearnedAt : Z; ac_LastSuccess : Z; ac_LastAttempt : Z
}.
#[export] Instance addressCandidate_eq : EqDecision addressCandidate.
Proof. solve_decision. Defined.

Record memberAddresses : Type := mkAddresses {
  ma_PairingAddress : string; ma_Candidates : list addressCandidate; ma_NextAddressProbe : Z
}.
Definition no_addresses : memberAddresses := mkAddresses "" [] 0.

(** Times are Unix milliseconds. *)
Record ClusterNode : Type := mkNode {
  cn_ID : string; cn_NodeUUID : string; cn_Name : string; cn_IPAddress : string; cn_Port : Z;
  cn_ClusterID : string; cn_AdmissionEpoch : Z; cn_State : MembershipState;
  cn_JoinedAt : option Z; cn_LastSeen : option Z; cn_addresses : memberAddresses
}.

Definition with_endpoint (ip : string) (port : Z) (a : memberAddresses) (n : ClusterNode) : ClusterNode :=
  mkNode (cn_ID n) (cn_NodeUUID n) (cn_Name n) ip port (cn_ClusterID n) (cn_AdmissionEpoch n)
    (cn_State n) (cn_JoinedAt n) (cn_LastSeen n) a.

Definition maxPeerAddresses : nat := 8.
Definition peerAddressTTL : Z := 30 * 24 * 3600 * 1000.
Definition newAddressInterval : Z := 30 * 1000.

(** The candidates worth keeping: valid, new in the list, and learnt or reached within
    the last thirty days; their times are not in the future. *)
Fixpoint keep_candidates (now : Z) (seen : list string) (l : list addressCandidate) : list addressCandidate :=
  match l with
  | [] => []
  | c :: l =>
      match candidateEndpoint (ac_Address c) true with
      | None => keep_candidates now seen l
      | Some addr =>
          if bool_decide (addr ∈ seen) || (Z.max (ac_LearnedAt c) (ac_LastSuccess c) <? now - peerAddressTTL)
          then keep_candidates now seen l
          else mkCandidate addr (Z.min (ac_LearnedAt c) now) (Z.min (ac_LastSuccess c) now) (ac_LastAttempt c)
                 :: keep_candidates now (addr :: seen) l
      end
  end.

Definition reached_later (a b : addressCandidate) : bool := ac_LastSuccess b <? ac_LastSuccess a.

Definition normalizeMemberAddresses (now : Z) (n : ClusterNode) : ClusterNode :=
  let a := cn_addresses n in
  let current := joinHostPort (cn_IPAddress n) (cn_Port n) (cn_Port n) in
  let first := if bool_decide (ma_PairingAddress a = "") && bool_decide (ma_Candidates a = [])
               then current else ma_PairingAddress a in
  let pairing := default "" (candidateEndpoint first true) in
  let kept := take (maxPeerAddresses - 1) (sort_by reached_later (keep_candidates now [] (ma_Candidates a))) in
  let '(ip, port) :=
    if negb (bool_decide (current = pairing))
       && negb (existsb (fun c => bool_decide (ac_Address c = current) && (0 <? ac_LastSuccess c)) kept)
    then let addr := match kept with
                     | c :: _ => if 0 <? ac_LastSuccess c then ac_Address c else pairing
                     | [] => pairing
                     end in
         if bool_decide (addr = "") then ("", cn_Port n) else splitAddr addr (cn_Port n)
    else (cn_IPAddress n, cn_Port n) in
  with_endpoint ip port
    (mkAddresses pairing kept (Z.min (ma_NextAddressProbe a) (now + newAddressInterval))) n.

Definition memberCandidateAddrs (now : Z) (n : ClusterNode) : list string :=
  let n := normalizeMemberAddresses now n in
  let out := ac_Address <$> ma_Candidates (cn_addresses n) in
  let p := ma_PairingAddress (cn_addresses n) in
  if negb (bool_decide (p = "")) && negb (bool_decide (p ∈ out)) then out ++ [p] else out.

(** ** Learning (learnPeerAddressesLocked) *)

Definition at_address (addr : string) (c : addressCandidate) : bool := bool_decide (ac_Address c = addr).

(** The list without its first element that satisfies [f]. *)
Fixpoint remove_first {A} (f : A -> bool) (l : list A) : list A :=
  match l with [] => [] | x :: l => if f x then l else x :: remove_first f l end.

(** The closure [add]; [success] tells an observed source from a claim. *)
Definition add_address (now : Z) (success : bool) (addr : string) (n : ClusterNode) : ClusterNode :=
  let a := cn_addresses n in
  let set l := let l := take (maxPeerAddresses - 1) l in
               let a' := mkAddresses (ma_PairingAddress a) l (ma_NextAddressProbe a) in
               let '(ip, port) := if success then splitAddr addr (cn_Port n) else (cn_IPAddress n, cn_Port n) in
               with_endpoint ip port a' n in
  if bool_decide (addr = ma_PairingAddress a) && negb success then n else
  match List.find (at_address addr) (ma_Candidates a) with
  | Some c =>
      if negb success then n
      else set (mkCandidate (ac_Address c) (ac_LearnedAt c) now (ac_LastAttempt c)
                  :: remove_first (at_address addr) (ma_Candidates a))
  | None =>
      if success then set (mkCandidate addr now now 0 :: ma_Candidates a)
      else if (length (ma_Candidates a) <? maxPeerAddresses - 1)%nat
           then set (ma_Candidates a ++ [mkCandidate addr now 0 0])
           else set (ma_Candidates a)
  end.

(** The part of [learnPeerAddressesLocked] after its guards: the member is already
    normalised.  [defPort] is the manager's own port. *)
Definition learn_addresses (now defPort : Z) (observed : string) (reports : list string) (successAddr : string)
    (n : ClusterNode) : ClusterNode :=
  let n := if bool_decide (observed = "") then n
           else match candidateEndpoint (joinHostPort observed (cn_Port n) defPort) true with
                | Some addr => add_address now true addr n
                | None => n
                end in
  let n := match candidateEndpoint successAddr true with
           | Some addr => add_address now true addr n
           | None => n
           end in
  let via := if bool_decide (observed = "") then hostOnly successAddr else observed in
  fold_left (fun n r => match candidateEndpoint (localScope r via) false with
                        | Some addr => add_address now false addr n
                        | None => n
                        end) (take maxPeerAddresses reports) n.

(** Whether what was learnt is worth telling. *)
Definition addresses_changed (before n : ClusterNode) : bool :=
  negb (bool_decide (cn_IPAddress before = cn_IPAddress n)) || negb (cn_Port before =? cn_Port n)
  || negb (bool_decide (ma_Candidates (cn_addresses before) = ma_Candidates (cn_addresses n))).

(** ** Dialling (limitCandidateDials) *)

Definition proven (c : addressCandidate) : bool := 0 <? ac_LastSuccess c.

(** The unproven candidate among [addrs] attempted longest ago, and that attempt. *)
Definition oldest_unproven (addrs : list string) (l : list addressCandidate) : string * Z :=
  fold_left (fun best c =>
    if (ac_LastSuccess c =? 0) && bool_decide (ac_Address c ∈ addrs) && (ac_LastAttempt c <? best.2)
    then (ac_Address c, ac_LastAttempt c) else best) l ("", 2 ^ 63 - 1).

Definition attempted (now : Z) (probe : string) (c : addressCandidate) : addressCandidate :=
  if bool_decide (ac_Address c = probe)
  then mkCandidate (ac_Address c) (ac_LearnedAt c) (ac_LastSuccess c) now else c.

Fixpoint dial_list (allowed : list string) (out addrs : list string) : list string :=
  match addrs with
  | [] => out
  | a :: addrs =>
      let out := if bool_decide (a ∈ allowed) && negb (bool_decide (a ∈ out)) then out ++ [a] else out in
      if Nat.eqb (length out) maxPeerAddresses then out else dial_list allowed out addrs
  end.

(** The endpoints to dial, and whether an unproven one is among them. *)
Definition limit_dials (now : Z) (addrs : list string) (n : ClusterNode) : ClusterNode * list string * bool :=
  let n := normalizeMemberAddresses now n in
  let a := cn_addresses n in
  let allowed := ma_PairingAddress a :: (ac_Address <$> List.filter proven (ma_Candidates a)) in
  let probe := if ma_NextAddressProbe a <=? now then (oldest_unproven addrs (ma_Candidates a)).1 else "" in
  if bool_decide (probe = "") then (n, dial_list allowed [] addrs, false)
  else (with_endpoint (cn_IPAddress n) (cn_Port n)
          (mkAddresses (ma_PairingAddress a) (attempted now probe <$> ma_Candidates a) (now + newAddressInterval)) n,
        dial_list (probe :: allowed) [] addrs, true).

(** [learnPeerAddressesLocked] on the member it found, with its report. *)
Definition learn_member (now defPort : Z) (observed : string) (reports : list string) (successAddr : string)
    (n : ClusterNode) : ClusterNode * bool :=
  let n := normalizeMemberAddresses now n in
  let n' := learn_addresses now defPort observed reports successAddr n in
  (n', addresses_changed n n').

(** What touches the hints of one member record. *)
Inductive hint_op : Type :=
| HNormalize
| HLearn (defPort : Z) (observed : string) (reports : list string) (successAddr : string)
| HDial (addrs : list string).

(** A dialling round: when, what was known, what was asked for, what is allowed, and
    whether it spends the budget. *)
Record dial : Type := mkDial {
  dl_now : Z; dl_known : memberAddresses; dl_asked : list string; dl_out : list string; dl_reserved : bool
}.

Definition hint_step (now : Z) (op : hint_op) (n : ClusterNode) : ClusterNode * list dial :=
  match op with
  | HNormalize => (normalizeMemberAddresses now n, [])
  | HLearn p o r s => ((learn_member now p o r s n).1, [])
  | HDial addrs =>
      let '(n', out, reserved) := limit_dials now addrs n in
      (n', [mkDial now (cn_addresses (normalizeMemberAddresses now n)) addrs out reserved])
  end.

Fixpoint dials (n : ClusterNode) (tr : list (Z * hint_op)) : list dial :=
  match tr with
  | [] => []
  | (now, op) :: tr => let '(n, ds) := hint_step now op n in ds ++ dials n tr
  end.

(** The times at which a round reserved an unproven endpoint. *)
Definition probe_times (l : list dial) : list Z := dl_now <$> List.filter dl_reserved l.

(** What a round may offer: endpoints asked for, at most eight, none twice, each the
    pairing address or one already reached, except a single one when it is reserved. *)
Definition dial_ok (d : dial) : Prop :=
  (length (dl_out d) <= maxPeerAddresses)%nat /\ NoDup (dl_out d) /\ dl_out d ⊆ dl_asked d /\
  exists probe, forall e, e ∈ dl_out d ->
    e = ma_PairingAddress (dl_known d) \/
    (exists c, c ∈ ma_Candidates (dl_known d) /\ ac_Address c = e /\ 0 < ac_LastSuccess c) \/
    (dl_reserved d = true /\ e = probe).

(** * Facts *)

Lemma normalize_addresses now n :
  cn_addresses (normalizeMemberAddresses now n) =
  mkAddresses (ma_PairingAddress (cn_addresses (normalizeMemberAddresses now n)))
    (ma_Candidates (cn_addresses (normalizeMemberAddresses now n)))
    (Z.min (ma_NextAddressProbe (cn_addresses n)) (now + newAddressInterval)).
Proof. unfold normalizeMemberAddresses. by repeat case_match. Qed.

Definition next_probe (n : ClusterNode) : Z := ma_NextAddressProbe (cn_addresses n).

Lemma normalize_next now n :
  next_probe (normalizeMemberAddresses now n) = Z.min (next_probe n) (now + newAddressInterval).
Proof. unfold next_probe. by rewrite normalize_addresses. Qed.

Lemma add_next now b addr n : next_probe (add_address now b addr n) = next_probe n.
Proof. unfold add_address. by repeat case_match. Qed.

Lemma claims_next now via l n :
  next_probe (fold_left (fun n r => match candidateEndpoint (localScope r via) false with
    | Some addr => add_address now false addr n | None => n end) l n) = next_probe n.
Proof.
  revert n. induction l as [|x l IH]; intros n; simpl; [done |].
  rewrite IH. destruct (candidateEndpoint _ _); [apply add_next | done].
Qed.

Lemma learn_next now p o r s n : next_probe (learn_addresses now p o r s n) = next_probe n.
Proof.
  unfold learn_addresses. rewrite claims_next.
  destruct (candidateEndpoint s true); rewrite ?add_next;
    (case_bool; [done |]); destruct (candidateEndpoint _ _); by rewrite ?add_next.
Qed.

(** A reservation moves the next probe one interval out, nothing else moves it except
    back to that distance. *)
Lemma hint_step_next now op n :
  match (hint_step now op n).2 with
  | [d] => dl_now d = now /\
           (if dl_reserved d then next_probe n <= now /\ next_probe (hint_step now op n).1 = now + newAddressInterval
            else next_probe (hint_step now op n).1 = Z.min (next_probe n) (now + newAddressInterval))
  | [] => next_probe (hint_step now op n).1 = Z.min (next_probe n) (now + newAddressInterval)
  | _ => False
  end.
Proof.
  destruct op as [| p o r s | addrs]; simpl.
  - apply normalize_next.
  - by rewrite learn_next, normalize_next.
  - unfold limit_dials. pose proof (normalize_next now n) as Hn. unfold next_probe in *.
    destruct (bool_decide _) eqn:E; [by split |]. simpl. split; [done |]. split; [| done].
    destruct (ma_NextAddressProbe _ <=? now) eqn:E'; unbool; [| done].
    rewrite Hn in E'. unfold newAddressInterval in *. lia.
Qed.

Lemma dial_list_spec allowed addrs out :
  (length out < maxPeerAddresses)%nat -> NoDup out ->
  let r := dial_list allowed out addrs in
  (length r <= maxPeerAddresses)%nat /\ NoDup r /\
  (forall e, e ∈ r -> e ∈ out \/ (e ∈ addrs /\ e ∈ allowed)).
Proof.
  revert out. induction addrs as [|a addrs IH]; intros out Hl Hd; simpl; [auto with lia |].
  set (o' := if bool_decide (a ∈ allowed) && negb (bool_decide (a ∈ out)) then out ++ [a] else out).
  assert ((length o' <= S (length out))%nat /\ NoDup o' /\
          (forall e, e ∈ o' -> e ∈ out \/ (e = a /\ a ∈ allowed))) as (Hl' & Hd' & Hi).
  { subst o'. destruct (_ && _) eqn:E; [| by auto].
    unbool. rewrite length_app; simpl. split_and!; [lia | |].
    - apply NoDup_app. split_and!; [done | | apply NoDup_singleton]. by intros x Hx ->%list_elem_of_singleton.
    - intros e [He | ->%list_elem_of_singleton]%elem_of_app; auto. }
  assert (forall e, e ∈ o' -> e ∈ out \/ (e ∈ a :: addrs /\ e ∈ allowed)) as Hi'.
  { intros e He. destruct (Hi e He) as [| [-> ?]]; [by left | right]. split; [constructor | done]. }
  destruct (Nat.eqb (length o') maxPeerAddresses) eqn:E; [apply Nat.eqb_eq in E | apply Nat.eqb_neq in E].
  - split_and!; [lia | done | done].
  - destruct (IH o') as (H1 & H2 & H3); [lia | done |].
    split_and!; [done | done |]. intros e He. destruct (H3 e He) as [He' | [? ?]]; [by auto |].
    right. split; [by constructor | done].
Qed.

Lemma elem_proven e l :
  e ∈ ac_Address <$> List.filter proven l -> exists c, c ∈ l /\ ac_Address c = e /\ 0 < ac_LastSuccess c.
Proof.
  intros (c & -> & Hc)%list_elem_of_fmap. apply list_elem_of_In, filter_In in Hc as [Hc Hp].
  exists c. apply list_elem_of_In in Hc. split_and!; [done | done |]. by apply Z.ltb_lt.
Qed.

Lemma hint_step_ok now op n : Forall dial_ok (hint_step now op n).2.
Proof.
  destruct op as [| p o r s | addrs]; simpl; [constructor | constructor |].
  unfold limit_dials. set (m := normalizeMemberAddresses now n).
  set (probe := if ma_NextAddressProbe (cn_addresses m) <=? now then _ else "").
  assert (forall al : list string, let r := dial_list al [] addrs in
            (length r <= maxPeerAddresses)%nat /\ NoDup r /\ (forall e, e ∈ r -> e ∈ addrs /\ e ∈ al)) as Hd.
  { intros al. destruct (dial_list_spec al addrs []) as (H1 & H2 & H3); [simpl; unfold maxPeerAddresses; lia | constructor |].
    split_and!; [done | done |]. intros e He. destruct (H3 e He) as [[]%not_elem_of_nil | ?]; done. }
  destruct (bool_decide (probe = "")) eqn:E; apply Forall_singleton; unfold dial_ok; simpl;
    match goal with |- context [dial_list ?al [] addrs] => destruct (Hd al) as (H1 & H2 & H3) end;
    split_and!; try done; try (intros e He; by apply H3); exists probe; intros e He; apply H3 in He as [_ He].
  - apply elem_of_cons in He as [-> | He]; [by left | right; left; by apply elem_proven].
  - apply elem_of_cons in He as [-> | He]; [by right; right |].
    apply elem_of_cons in He as [-> | He]; [by left | right; left; by apply elem_proven].
Qed.

Lemma probes_spaced now0 n tr :
  Sorted Z.le (fst <$> tr) -> Forall (fun p => now0 <= p.1) tr ->
  StronglySorted (fun a b => a + newAddressInterval <= b) (probe_times (dials n tr)) /\
  Forall (fun t => Z.min (next_probe n) (now0 + newAddressInterval) <= t) (probe_times (dials n tr)).
Proof.
  revert now0 n. induction tr as [|[t op] tr IH]; intros now0 n Hs Hf; simpl; [split; constructor |].
  inversion Hf as [| ? ? Ht Hf']; subst. simpl in *.
  apply Sorted_StronglySorted in Hs; [| intros a b c; lia].
  apply StronglySorted_inv in Hs as [Hs Hall]. apply StronglySorted_Sorted in Hs.
  rewrite Forall_fmap in Hall. pose proof (hint_step_next t op n) as Hn.
  destruct (hint_step t op n) as [n' ds]. simpl in Hn. destruct (IH t n' Hs Hall) as [IH1 IH2].
  unfold probe_times in *. rewrite List.filter_app, fmap_app.
  assert (newAddressInterval > 0) as Hpos by (unfold newAddressInterval; lia).
  destruct ds as [|d [|]]; try done; cbn in Hn |- *.
  - split; [done |]. eapply Forall_impl; [exact IH2 |]. intros x Hx; cbn beta in *; lia.
  - destruct Hn as [Hd Hn]. destruct (dl_reserved d); simpl.
    + destruct Hn as [Hle Hnext]. split.
      * constructor; [done |]. rewrite Hd. eapply Forall_impl; [exact IH2 |]. intros x Hx; cbn beta in *; lia.
      * constructor; [lia |]. eapply Forall_impl; [exact IH2 |]. intros x Hx; cbn beta in *; lia.
    + split; [done |]. eapply Forall_impl; [exact IH2 |]. intros x Hx; cbn beta in *; lia.
Qed.

(** The dial budget of a member (addresses.go): over any sequence of normalisations,
    learning steps and dialling rounds of its record at times that do not decrease, the
    rounds that reserve an unproven endpoint are at least [newAddressInterval] (30 s) apart,
    however many addresses the peer claims; and every round offers at most eight endpoints,
    each asked for and none twice, all of them the pairing address or an address already
    reached except at most one, and that one only in a round that spends the budget. *)
Theorem dial_budget (n : ClusterNode) (tr : list (Z * hint_op)) :
  Sorted Z.le (fst <$> tr) ->
  StronglySorted (fun a b => a + newAddressInterval <= b) (probe_times (dials n tr)) /\ Forall dial_ok (dials n tr).
Proof.
  intros Hs. split.
  - destruct tr as [|[t op] tr]; [constructor |]. apply (probes_spaced t n ((t, op) :: tr)); [done |].
    constructor; [simpl; lia |]. apply Sorted_StronglySorted in Hs; [| intros a b c; lia].
    apply StronglySorted_inv in Hs as [_ Hs]. by apply (Forall_fmap fst) in Hs.
  - clear Hs. revert n. induction tr as [|[t op] tr IH]; intros n; simpl; [constructor |].
    pose proof (hint_step_ok t op n) as Hk. destruct (hint_step t op n) as [n' ds]. by apply Forall_app.
Qed.

Definition example_member : ClusterNode :=
  mkNode "host" "peer" "host" "10.0.0.2" 14321 "c" 1 stateMember (Some 0) None no_addresses.

(** A peer that claims two unproven addresses: one is offered, the other after the interval. *)
Definition example_hints : list (Z * hint_op) :=
  [(1000, HLearn 14321 "10.0.0.2" ["10.0.0.9:14321"; "10.0.0.10:14321"] "");
   (1001, HDial ["10.0.0.9:14321"; "10.0.0.10:14321"; "10.0.0.2:14321"]);
   (1002, HDial ["10.0.0.9:14321"; "10.0.0.10:14321"; "10.0.0.2:14321"]);
   (31001, HDial ["10.0.0.9:14321"; "10.0.0.10:14321"; "10.0.0.2:14321"])].

Example example_dials :
  (fun d => (dl_out d, dl_reserved d)) <$> dials example_member example_hints =
  [(["10.0.0.9:14321"; "10.0.0.2:14321"], true); (["10.0.0.2:14321"], false);
   (["10.0.0.10:14321"; "10.0.0.2:14321"], true)].
Proof. vm_compute. reflexivity. Qed.

Lemma dial_budget_witness :
  probe_times (dials example_member example_hints) = [1001; 31001] /\
  (StronglySorted (fun a b => a + newAddressInterval <= b) (probe_times (dials example_member example_hints)) /\
   Forall dial_ok (dials example_member example_hints)).
Proof. split; [vm_compute; reflexivity |]. apply dial_budget. repeat constructor; simpl; lia. Defined.
