(* ===== verification/ClusterTrust.v ===== *)
(** What members of a cluster sign and check (services/nvpair-cluster-manager:
    endorsement.go, identity.go, the certificate checks of truststore.go, roster.go and
    removal_proof_store.go).  Certificates and signatures are an interface; base64 and the
    signed byte strings are as the code builds them. *)
From S2P Require Import Prelude.
From S2P Require Import GoStd.
From S2P Require Import GoBytes.
From Stdlib Require Import DecimalString DecimalZ DecimalPos.

Open Scope string_scope.
Open Scope list_scope.
Open Scope Z_scope.

(** * encoding/base64: StdEncoding *)

Module Std64.
Definition digit (z : Z) : ascii :=
  if z =? 62 then "+"%char else if z =? 63 then "/"%char else b64_digit z.
Definition value (c : ascii) : option Z :=
  if bool_decide (c = "+"%char) then Some 62 else if bool_decide (c = "/"%char) then Some 63
  else match b64_value c with Some v => if v <? 62 then Some v else None | None => None end.

Fixpoint EncodeToString (s : string) : string :=
  match s with
  | "" => ""
  | String a "" =>
      let v := byte a in
      String (digit (Z.shiftr v 2)) (String (digit (Z.shiftl (Z.land v 3) 4)) "==")
  | String a (String b "") =>
      let v := Z.shiftl (byte a) 8 + byte b in
      String (digit (Z.shiftr v 10)) (String (digit (Z.land (Z.shiftr v 4) 63))
        (String (digit (Z.shiftl (Z.land v 15) 2)) "="))
  | String a (String b (String c s)) =>
      let v := Z.shiftl (byte a) 16 + Z.shiftl (byte b) 8 + byte c in
      String (digit (Z.shiftr v 18)) (String (digit (Z.land (Z.shiftr v 12) 63))
        (String (digit (Z.land (Z.shiftr v 6) 63)) (String (digit (Z.land v 63)) (EncodeToString s))))
  end.

(** Line breaks are skipped wherever they are. *)
Definition not_break (c : ascii) : bool := negb (byte c =? 10) && negb (byte c =? 13).

(** Groups of four; only the last may be padded, and nothing follows the padding. *)
Fixpoint quanta (l : list ascii) : option string :=
  match l with
  | [] => Some ""
  | a :: b :: c :: d :: l =>
      match value a, value b with
      | Some a, Some b =>
          if bool_decide (c = "="%char) then
            if bool_decide (d = "="%char) && bool_decide (l = [])
            then Some (String (chr (Z.shiftr (Z.shiftl a 6 + b) 4)) "") else None
          else
          match value c with
          | None => None
          | Some c =>
              if bool_decide (d = "="%char) then
                if bool_decide (l = [])
                then let v := Z.shiftl a 12 + Z.shiftl b 6 + c in
                     Some (String (chr (Z.shiftr v 10)) (String (chr (Z.shiftr v 2)) "")) else None
              else
              match value d with
              | None => None
              | Some d =>
                  let v := Z.shiftl a 18 + Z.shiftl b 12 + Z.shiftl c 6 + d in
                  (fun s => String (chr (Z.shiftr v 16)) (String (chr (Z.shiftr v 8)) (String (chr v) s))) <$> quanta l
              end
          end
      | _, _ => None
      end
  | _ => None
  end.

Definition DecodeString (s : string) : option string :=
  quanta (List.filter not_break (String.list_ascii_of_string s)).
End Std64.

(** * Certificates and signatures *)

(** A parsed certificate: its URI names, its common name, its Ed25519 key if it has one. *)
Record Certificate : Type := mkCertificate { ct_URIs : list string; ct_CommonName : string; ct_PublicKey : option string }.

(** crypto/ed25519, encoding/pem and crypto/x509.  [pem_Decode] gives the type and the bytes
    of the first block. *)
Class Pki : Type := {
  PrivateKey : Type;
  Public : PrivateKey -> string;
  Sign : PrivateKey -> string -> string;
  Verify : string -> string -> string -> bool;
  pem_Decode : string -> option (string * string);
  ParseCertificate : string -> option Certificate
}.

(** What the package documents of signing and verifying: a signature verifies, and it has 64
    bytes. *)
Class PkiLaws `{!Pki} : Prop := {
  verify_sign : forall k m, Verify (Public k) m (Sign k m) = true;
  sign_size : forall k m, slen (Sign k m) = 64%nat
}.

Record Endorsement : Type := mkEndorsement {
  en_By : string; en_Fingerprint : string; en_ClusterID : string; en_AdmissionEpoch : Z;
  en_ByAdmissionEpoch : Z; en_IssuedAt : Z; en_Sig : string; en_SigV2 : string
}.
#[export] Instance Endorsement_eq : EqDecision Endorsement.
Proof. solve_decision. Defined.

Record Tombstone : Type := mkTombstone {
  tb_NodeUUID : string; tb_ClusterID : string; tb_AdmissionEpoch : Z; tb_By : string;
  tb_ByAdmissionEpoch : Z; tb_RemovedAt : Z; tb_Sig : string; tb_SigV2 : string
}.
#[export] Instance Tombstone_eq : EqDecision Tombstone.
Proof. solve_decision. Defined.

Definition endorseDomain : string := "nvpair-endorse:v1".
Definition endorseDomainV2 : string := "nvpair-endorse:v2".
Definition tombstoneDomain : string := "nvpair-remove:v1".
Definition tombstoneDomainV2 : string := "nvpair-remove:v2".

(** A domain and the fields that follow it, separated by line feeds. *)
Definition nl : ascii := "010"%char.
Definition lines (domain : string) (fields : list string) : string :=
  fold_left (fun a b => a +:+ String nl b) fields domain.

Definition endorsePayload (introducedUUID fingerprint clusterID : string) (issuedAt : Z) : string :=
  lines endorseDomain [introducedUUID; fingerprint; clusterID; Itoa issuedAt].
Definition tombstonePayload (nodeUUID clusterID : string) (removedAt : Z) : string :=
  lines tombstoneDomain [nodeUUID; clusterID; Itoa removedAt].
Definition endorsePayloadV2 (introducedUUID fingerprint clusterID : string)
    (admissionEpoch byAdmissionEpoch issuedAt : Z) : string :=
  lines endorseDomainV2 [introducedUUID; fingerprint; clusterID; Itoa admissionEpoch; Itoa byAdmissionEpoch; Itoa issuedAt].
Definition tombstonePayloadV2 (nodeUUID clusterID : string) (admissionEpoch byAdmissionEpoch removedAt : Z) : string :=
  lines tombstoneDomainV2 [nodeUUID; clusterID; Itoa admissionEpoch; Itoa byAdmissionEpoch; Itoa removedAt].

Section Trust.
Context {pki : Pki} {sha : Sha256}.

(** The variadic epochs: both present and non-zero, or no second signature. *)
Definition admission_epochs (epochs : list Z) : option (Z * Z) :=
  match epochs with e :: b :: _ => if negb (e =? 0) && negb (b =? 0) then Some (e, b) else None | _ => None end.

Definition signEndorsement (signer : PrivateKey) (by_ introducedUUID fingerprint clusterID : string)
    (issuedAt : Z) (epochs : list Z) : Endorsement :=
  let sig := Std64.EncodeToString (Sign signer (endorsePayload introducedUUID fingerprint clusterID issuedAt)) in
  match admission_epochs epochs with
  | Some (e, b) =>
      mkEndorsement by_ fingerprint clusterID e b issuedAt sig
        (Std64.EncodeToString (Sign signer (endorsePayloadV2 introducedUUID fingerprint clusterID e b issuedAt)))
  | None => mkEndorsement by_ fingerprint clusterID 0 0 issuedAt sig ""
  end.

Definition verifyEndorsement (pub introducedUUID fingerprint clusterID : string) (e : Endorsement) : bool :=
  if negb (bool_decide (en_Fingerprint e = fingerprint)) || negb (bool_decide (en_ClusterID e = clusterID)) then false
  else if negb (bool_decide (en_SigV2 e = "")) then
    if (en_AdmissionEpoch e =? 0) || (en_ByAdmissionEpoch e =? 0) then false else
    match Std64.DecodeString (en_SigV2 e) with
    | None => false
    | Some sig => Verify pub (endorsePayloadV2 introducedUUID fingerprint clusterID
                                (en_AdmissionEpoch e) (en_ByAdmissionEpoch e) (en_IssuedAt e)) sig
    end
  else match Std64.DecodeString (en_Sig e) with
       | None => false
       | Some sig => Verify pub (endorsePayload introducedUUID fingerprint clusterID (en_IssuedAt e)) sig
       end.

Definition signTombstone (signer : PrivateKey) (by_ nodeUUID clusterID : string) (removedAt : Z) (epochs : list Z) : Tombstone :=
  let sig := Std64.EncodeToString (Sign signer (tombstonePayload nodeUUID clusterID removedAt)) in
  match admission_epochs epochs with
  | Some (e, b) =>
      mkTombstone nodeUUID clusterID e by_ b removedAt sig
        (Std64.EncodeToString (Sign signer (tombstonePayloadV2 nodeUUID clusterID e b removedAt)))
  | None => mkTombstone nodeUUID clusterID 0 by_ 0 removedAt sig ""
  end.

Definition verifyTombstone (pub clusterID : string) (t : Tombstone) : bool :=
  if negb (bool_decide (tb_ClusterID t = clusterID)) || bool_decide (tb_NodeUUID t = "") then false
  else if negb (bool_decide (tb_SigV2 t = "")) then
    if (tb_AdmissionEpoch t =? 0) || (tb_ByAdmissionEpoch t =? 0) then false else
    match Std64.DecodeString (tb_SigV2 t) with
    | None => false
    | Some sig => Verify pub (tombstonePayloadV2 (tb_NodeUUID t) clusterID
                                (tb_AdmissionEpoch t) (tb_ByAdmissionEpoch t) (tb_RemovedAt t)) sig
    end
  else match Std64.DecodeString (tb_Sig t) with
       | None => false
       | Some sig => Verify pub (tombstonePayload (tb_NodeUUID t) clusterID (tb_RemovedAt t)) sig
       end.

(** * Identities (identity.go) *)

Definition nodeURISANPrefix : string := "urn:nvpair:node:".

(** The first URI name with the prefix and something behind it, or the common name. *)
Definition node_uri (s : string) : option string :=
  match cut_prefix nodeURISANPrefix s with Some "" => None | r => r end.
Definition uuidFromCert (c : Certificate) : string :=
  match omap node_uri (ct_URIs c) with u :: _ => u | [] => ct_CommonName c end.

Definition certFingerprintFromDER (der : string) : string := "sha256:" +:+ hex (sha256 der).

(** [pubFromDER]: [None] when the certificate does not parse or has another kind of key. *)
Definition pubFromDER (der : string) : option string := ParseCertificate der ≫= ct_PublicKey.

Record NodeIdentity : Type := mkIdentity {
  id_NodeUUID : string; id_NodeID : string; id_Name : string; id_CertPEM : string; id_DER : string;
  id_CertFingerprint : string; id_Signer : PrivateKey
}.

(** ** Pins (truststore.go) *)

Record TrustedPin : Type := mkPin {
  pin_NodeUUID : string; pin_NodeID : string; pin_Name : string; pin_ClusterID : string; pin_AdmissionEpoch : Z;
  pin_CertPem : string; pin_CertFingerprint : string; pin_PinnedAt : Z; pin_Endorsements : list Endorsement
}.

(** [pinFilename], on the platforms where a local name is one component other than the
    empty name, [.] and [..]: the result is whether the name is accepted. *)
Definition path_char (c : ascii) : bool :=
  bool_decide (c = "/"%char) || bool_decide (c = "\"%char) || bool_decide (c = ":"%char) || (byte c =? 0).
Definition pinFilename (uuid : string) : bool :=
  negb (bool_decide (uuid = ".")) && negb (bool_decide (uuid = "..")) && negb (bool_decide (uuid = ""))
  && negb (existsb path_char (String.list_ascii_of_string uuid)).

(** The DER of a CERTIFICATE block whose principal is [uuid]. *)
Definition cert_block (pem : string) : option string :=
  match pem_Decode pem with
  | Some (ty, der) => if bool_decide (ty = "CERTIFICATE") then Some der else None
  | None => None
  end.
Definition principal_cert (pem uuid : string) : option string :=
  match cert_block pem with
  | Some der =>
      match ParseCertificate der with
      | Some c => if bool_decide (uuidFromCert c = uuid) then Some der else None
      | None => None
      end
  | None => None
  end.

Definition validatePin (pin : TrustedPin) (expectUUID : string) : option string :=
  if negb (pinFilename expectUUID) || negb (bool_decide (pin_NodeUUID pin = expectUUID)) then None
  else principal_cert (pin_CertPem pin) expectUUID.

Definition endorsementKey (e : Endorsement) : string :=
  en_By e +:+ "|" +:+ (if bool_decide (en_SigV2 e = "") then en_Sig e else en_SigV2 e).

(** The elements of [incoming] whose key is not yet seen, in order. *)
Fixpoint unseen (key : Endorsement -> string) (seen : list string) (incoming : list Endorsement) : list Endorsement :=
  match incoming with
  | [] => []
  | e :: incoming =>
      if bool_decide (key e ∈ seen) then unseen key seen incoming
      else e :: unseen key (key e :: seen) incoming
  end.

(** ** Rosters and removal proofs (roster.go, removal_proof_store.go) *)

Record RemovalProof : Type := mkProof {
  rp_Tombstone : Tombstone; rp_SignerCertPem : string; rp_SignerFingerprint : string; rp_Endorsements : list Endorsement
}.
#[export] Instance RemovalProof_eq : EqDecision RemovalProof.
Proof. solve_decision. Defined.

Record RosterEntry : Type := mkEntry {
  re_NodeUUID : string; re_NodeID : string; re_Name : string; re_Addr : string; re_AdmissionEpoch : Z;
  re_CertPem : string; re_CertFingerprint : string; re_Endorsements : list Endorsement
}.

Record Roster : Type := mkRoster {
  ro_ClusterID : string; ro_Members : list RosterEntry; ro_Tombstones : list Tombstone;
  ro_RemovalProofs : list RemovalProof; ro_SelfAddresses : list string
}.

Definition proof_key (e : Endorsement) : string := en_By e +:+ "|" +:+ en_SigV2 e.
Definition mergeProofEndorsements (a b : list Endorsement) : list Endorsement :=
  a ++ unseen proof_key (proof_key <$> a) b.

Definition parseProofSigner (p : RemovalProof) : option string :=
  match principal_cert (rp_SignerCertPem p) (tb_By (rp_Tombstone p)) with
  | Some der => if bool_decide (certFingerprintFromDER der = rp_SignerFingerprint p) then Some der else None
  | None => None
  end.

Definition validateEntryCert (e : RosterEntry) : option string :=
  match principal_cert (re_CertPem e) (re_NodeUUID e) with
  | Some der => if bool_decide (certFingerprintFromDER der = re_CertFingerprint e) then Some der else None
  | None => None
  end.
End Trust.

(** * Facts *)

Lemma Itoa_no_nl z : has_char nl (Itoa z) = false.
Proof.
  destruct (decide (0 <= z)); [by apply Itoa_no_char |].
  destruct z as [|p|p]; [lia | lia |]. unfold Itoa. simpl.
  assert (forall d, has_char nl (NilZero.string_of_uint d) = false) as Hu.
  { intros d. destruct d; [done | ..]; exact (digits_no_char nl _ eq_refl). }
  by rewrite Hu.
Qed.

(** ** Base64 *)

Lemma digit_facts z : 0 <= z < 64 ->
  Std64.value (Std64.digit z) = Some z /\ Std64.not_break (Std64.digit z) = true /\ Std64.digit z <> "="%char.
Proof.
  intros H.
  assert (forallb (fun z => bool_decide (Std64.value (Std64.digit z) = Some z) && Std64.not_break (Std64.digit z)
                     && negb (bool_decide (Std64.digit z = "="%char))) (seqZ 0 64) = true) as Hall by (vm_compute; reflexivity).
  rewrite forallb_forall in Hall. specialize (Hall z). rewrite <- list_elem_of_In, elem_of_seqZ in Hall.
  specialize (Hall ltac:(lia)). by unbool.
Qed.

(** Names the digits of an encoded group: each is kept by the filter and read back. *)
Ltac std_digits :=
  repeat match goal with
  | |- context [Std64.digit ?z] =>
      let d := fresh "d" in let E := fresh "Ed" in
      destruct (digit_facts z) as (? & ? & E); [byte_arith |];
      apply (bool_decide_eq_false_2 _) in E; set (d := Std64.digit z) in *; clearbody d
  end.

Lemma Std64_round_trip s : Std64.DecodeString (Std64.EncodeToString s) = Some s.
Proof.
  unfold Std64.DecodeString. induction s as [|a|a b|a b c s IH] using string_ind3; [done | ..];
    cbn [Std64.EncodeToString]; std_digits; cbn [String.list_ascii_of_string List.filter];
    repeat match goal with H : Std64.not_break _ = true |- _ => rewrite H; clear H end.
  1-2: rewrite (eq_refl : Std64.not_break "="%char = true).
  all: cbn [List.filter Std64.quanta];
    repeat match goal with H : Std64.value _ = _ |- _ => rewrite H; clear H end;
    repeat match goal with H : bool_decide _ = false |- _ => rewrite H; clear H end;
    rewrite ?(eq_refl : bool_decide ("="%char = "="%char) = true).
  - rewrite (bool_decide_eq_true_2 ([] = [])) by done. cbn [andb].
    do 2 f_equal. apply chr_mod. byte_arith.
  - rewrite (bool_decide_eq_true_2 ([] = [])) by done.
    do 2 f_equal; [| f_equal]; apply chr_mod; byte_arith.
  - rewrite IH. cbn [fmap option_fmap option_map].
    do 2 f_equal; [| f_equal; [| f_equal]]; apply chr_mod; byte_arith.
Qed.

Lemma EncodeToString_nonempty s : s <> "" -> Std64.EncodeToString s <> "".
Proof. destruct s as [|a [|b [|c s]]]; done. Qed.

(** ** Signed byte strings *)

Lemma lines_snoc d l x : lines d (l ++ [x]) = lines d l +:+ String nl x.
Proof. unfold lines. by rewrite fold_left_app. Qed.

(** The last field can be read off when it has no line feed. *)
Lemma lines_last a b x y :
  has_char nl x = false -> has_char nl y = false -> a +:+ String nl x = b +:+ String nl y -> a = b /\ x = y.
Proof.
  intros Hx Hy H. apply (f_equal (cut_last nl)) in H. rewrite !cut_last_app in H by done. by injection H.
Qed.

Lemma lines_fields d l l' : length l = length l' ->
  Forall (fun x => has_char nl x = false) l -> Forall (fun x => has_char nl x = false) l' ->
  forall d', lines d l = lines d' l' -> d = d' /\ l = l'.
Proof.
  revert l'. induction l as [|x l IH] using rev_ind; intros l' Hl Hf Hf' d' H.
  - by destruct l'.
  - destruct l' as [|y l' _] using rev_ind; [rewrite length_app in Hl; simpl in Hl; lia |].
    rewrite !length_app in Hl. simpl in Hl. apply Forall_app in Hf as [Hf Hx%Forall_inv], Hf' as [Hf' Hy%Forall_inv].
    rewrite !lines_snoc in H. apply lines_last in H as [H ->]; [| done..].
    destruct (IH l' ltac:(lia) Hf Hf' d' H) as [-> ->]. done.
Qed.

Lemma string_app_nil (s : string) : s +:+ "" = s.
Proof. induction s as [|a s IH]; [done |]. by rewrite string_app_cons, IH. Qed.

Lemma lines_domain d l : exists r, lines d l = d +:+ r.
Proof.
  induction l as [|x l [r Hr]] using rev_ind; [exists ""; by rewrite string_app_nil |].
  exists (r +:+ String nl x). by rewrite lines_snoc, Hr, string_app_assoc.
Qed.

(** What a signature may state. *)
Inductive statement : Type :=
| Endorses (uuid fingerprint clusterID : string) (issuedAt : Z)
| EndorsesAdmission (uuid fingerprint clusterID : string) (epoch byEpoch issuedAt : Z)
| Removes (uuid clusterID : string) (removedAt : Z)
| RemovesAdmission (uuid clusterID : string) (epoch byEpoch removedAt : Z).

Definition payload (s : statement) : string :=
  match s with
  | Endorses u f c t => endorsePayload u f c t
  | EndorsesAdmission u f c e b t => endorsePayloadV2 u f c e b t
  | Removes u c t => tombstonePayload u c t
  | RemovesAdmission u c e b t => tombstonePayloadV2 u c e b t
  end.

(** A fingerprint is [sha256:] and hexadecimal digits, a cluster identifier a UUID. *)
Definition statement_ok (s : statement) : Prop :=
  match s with
  | Endorses _ f c _ | EndorsesAdmission _ f c _ _ _ => has_char nl f = false /\ has_char nl c = false
  | Removes _ c _ | RemovesAdmission _ c _ _ _ => has_char nl c = false
  end.

(** C31. Signed statements are unambiguous (endorsement.go): two endorsements or removals, of
    either version, that sign the same bytes are the same statement about the same node,
    cluster and admissions; a signature of one kind is never one of another, whatever bytes
    the node identifier holds. *)
Theorem payload_separation (s s' : statement) :
  statement_ok s -> statement_ok s' -> payload s = payload s' -> s = s'.
Proof.
  intros Hok Hok' H.
  assert (forall d d' l l', lines d l = lines d' l' -> exists r r', d +:+ r = d' +:+ r') as Hd.
  { intros d d' l l' E. destruct (lines_domain d l) as [r Hr], (lines_domain d' l') as [r' Hr'].
    exists r, r'. by rewrite <- Hr, <- Hr'. }
  assert (forall d u u' l l', lines d (u :: l) = lines d (u' :: l') -> length l = length l' ->
    Forall (fun x => has_char nl x = false) l -> Forall (fun x => has_char nl x = false) l' -> u = u' /\ l = l') as Hf.
  { intros d u u' l l' E Hl F F'. change (lines (d +:+ String nl u) l = lines (d +:+ String nl u') l') in E.
    apply lines_fields in E as [E ->]; [| done..]. apply str_app_inv_l in E. by injection E as ->. }
  destruct s, s'; simpl in Hok, Hok', H; unfold endorsePayload, endorsePayloadV2, tombstonePayload, tombstonePayloadV2 in H;
    try (apply Hd in H as (r & r' & H); discriminate H);
    apply Hf in H as [-> H]; try done; try (repeat constructor; try apply Itoa_no_nl; naive_solver);
    injection H; intros; repeat match goal with E : Itoa _ = Itoa _ |- _ => apply Itoa_inj in E end; by subst.
Qed.

Lemma payload_separation_witness :
  let s := EndorsesAdmission "node" "sha256:00" "cluster" 2 1 1700000000000 in
  payload s = payload s /\ s = s.
Proof. split; [reflexivity |]. apply payload_separation; [split; reflexivity | split; reflexivity | reflexivity]. Defined.

Section TrustFacts.
Context {pki : Pki} {sha : Sha256}.

Lemma admission_epochs_Some e b : e <> 0 -> b <> 0 -> admission_epochs [e; b] = Some (e, b).
Proof. intros He Hb. simpl. by destruct (Z.eqb_spec e 0), (Z.eqb_spec b 0). Qed.

(** An empty signature is not what the library makes; the second signature counts only
    when it is not the empty string. *)
Lemma signEndorsement_fields k by_ u f c t e b : e <> 0 -> b <> 0 ->
  let s := signEndorsement k by_ u f c t [e; b] in
  en_By s = by_ /\ en_Fingerprint s = f /\ en_ClusterID s = c /\ en_AdmissionEpoch s = e /\ en_ByAdmissionEpoch s = b
  /\ en_SigV2 s = Std64.EncodeToString (Sign k (endorsePayloadV2 u f c e b t)).
Proof. intros He Hb. unfold signEndorsement. by rewrite admission_epochs_Some. Qed.

Lemma verify_signEndorsement `{!PkiLaws} k by_ u f c t e b : e <> 0 -> b <> 0 ->
  verifyEndorsement (Public k) u f c (signEndorsement k by_ u f c t [e; b]) = true.
Proof.
  intros He Hb. unfold verifyEndorsement, signEndorsement. rewrite admission_epochs_Some by done. simpl.
  rewrite !bool_decide_eq_true_2 by done. cbn [negb orb].
  destruct (bool_decide _); cbn [negb].
  - by rewrite Std64_round_trip, verify_sign.
  - rewrite (proj2 (Z.eqb_neq e 0)), (proj2 (Z.eqb_neq b 0)) by done. cbn [orb].
    by rewrite Std64_round_trip, verify_sign.
Qed.

Lemma verify_signTombstone `{!PkiLaws} k by_ u c t e b : e <> 0 -> b <> 0 -> u <> "" ->
  verifyTombstone (Public k) c (signTombstone k by_ u c t [e; b]) = true.
Proof.
  intros He Hb Hu. unfold verifyTombstone, signTombstone. rewrite admission_epochs_Some by done. simpl.
  rewrite bool_decide_eq_true_2, bool_decide_eq_false_2 by done. cbn [negb orb].
  destruct (bool_decide _); cbn [negb].
  - by rewrite Std64_round_trip, verify_sign.
  - rewrite (proj2 (Z.eqb_neq e 0)), (proj2 (Z.eqb_neq b 0)) by done. cbn [orb].
    by rewrite Std64_round_trip, verify_sign.
Qed.
End TrustFacts.
