(* ===== verification/ClusterState.v ===== *)
(** The state of the cluster manager and its stores (services/nvpair-cluster-manager:
    manager.go, truststore.go, membership.go, membership_store.go, admission_store.go,
    tombstone_store.go, removal_proof_store.go, teardown_store.go, invite_provenance.go).
    Every operation is a state transformer over the manager with its disk; what the file
    system answers and what the clock reads come from the environment. *)
From S2P Require Import Prelude.
From S2P Require Import GoStd.
From S2P Require Import GoBytes.
From S2P Require Import Json.
From S2P Require Import ClusterAddresses.
From S2P Require Import ClusterTrust.

Open Scope string_scope.
Open Scope list_scope.
Open Scope Z_scope.

(** * Data *)

(** The three maps of the store; a pin, the DER and the key of its certificate. *)
Record TrustStore : Type := mkTrustStore {
  ts_pins : gmap string TrustedPin; ts_ders : gmap string string; ts_pubs : gmap string string
}.
Definition empty_store : TrustStore := mkTrustStore ∅ ∅ ∅.

(** Epochs are uint64, zero is none. *)
Record admissionState : Type := mkAdmission {
  ad_Counter : Z; ad_Activated : Z; ad_Retired : bool; ad_ClusterID : string; ad_Epoch : Z
}.
Definition no_admission : admissionState := mkAdmission 0 0 false "" 0.

Record teardownMarker : Type := mkMarker { td_ClusterID : string; td_AdmissionEpoch : Z; td_StartedAt : Z }.

Inductive InviteState : Type :=
| inviteStatePending | inviteStatePaired | inviteStateDeclined | inviteStateCanceled
| inviteStateExpired | inviteStateFailed | inviteStateRejected.
#[export] Instance InviteState_eq : EqDecision InviteState.
Proof. solve_decision. Defined.

Record Invite : Type := mkInvite {
  iv_InviteID : string; iv_FromNodeID : string; iv_FromNodeUUID : string; iv_FromNodeName : string;
  iv_ToNodeID : option string; iv_ClusterID : string; iv_ClusterFriendlyName : string; iv_Pin : option string;
  iv_State : InviteState; iv_Reason : string; iv_CreatedAt : Z; iv_RespondedAt : option Z
}.

Record PairingInfo : Type := mkPairingInfo {
  pi_V : Z; pi_NodeUUID : string; pi_NodeID : string; pi_Name : string; pi_ClusterID : string;
  pi_AdmissionEpoch : Z; pi_ClusterFriendlyName : string; pi_Addr : string; pi_Cert : string
}.

Inductive pairingRole : Type := roleInviter | roleJoiner.
#[export] Instance pairingRole_eq : EqDecision pairingRole.
Proof. solve_decision. Defined.

(** [ps_object] tells one session object from another under the same invite. *)
Record pairingSession : Type := mkSession {
  ps_object : nat; ps_inviteID : string; ps_role : pairingRole; ps_createdAt : Z; ps_addr : string;
  ps_joinerAddr : string; ps_clusterID : string; ps_peerPairing : option PairingInfo; ps_peerCert : option string;
  ps_localAdmissionEpoch : Z; ps_peerSrcIP : string; ps_invitedEmitted : bool; ps_awaitingAck : bool
}.

(** The files of the cluster directory, by what they decode to. *)
Record Disk : Type := mkDisk {
  d_pins : gmap string TrustedPin; d_members : list ClusterNode; d_tombstones : list Tombstone;
  d_removalProofs : list RemovalProof; d_admission : option admissionState; d_teardown : option teardownMarker;
  d_inviteCreated : option string
}.
Definition empty_disk : Disk := mkDisk ∅ [] [] [] None None None.

(** What the manager tells the rest of the node. *)
Inductive Event : Type :=
| TrustChanged
| NodesChanged (nodes : list ClusterNode)
| IdentityChanged (clusterID clusterFriendlyName : string)
| PairingCompleted (address peerUUID clusterID : string) (admissionEpoch : Z)
| AddressForgotten (uuid : string)
| ConnectionsClosed.

Record Manager : Type := mkManager {
  m_trust : TrustStore; m_members : gmap string ClusterNode; m_tombstones : gmap string Tombstone;
  m_removalProofs : gmap string RemovalProof; m_admission : admissionState; m_clusterID : string;
  m_clusterFriendlyName : string; m_inviteCreatedCluster : bool; m_inviteCreatedID : string;
  m_clusterGen : Z; m_clusterTornDown : bool; m_teardownPending : bool; m_sessGen : Z; m_sessions :
  gmap string pairingSession; m_invites : gmap string Invite; m_disk : Disk; m_io : nat; m_ticks :
  nat; m_out : list Event
}.

Definition set_trust (v : TrustStore) (m : Manager) : Manager :=
  mkManager v (m_members m) (m_tombstones m) (m_removalProofs m) (m_admission m) (m_clusterID m)
    (m_clusterFriendlyName m) (m_inviteCreatedCluster m) (m_inviteCreatedID m) (m_clusterGen m)
    (m_clusterTornDown m) (m_teardownPending m) (m_sessGen m) (m_sessions m) (m_invites m) (m_disk
    m) (m_io m) (m_ticks m) (m_out m).
Definition set_members (v : gmap string ClusterNode) (m : Manager) : Manager :=
  mkManager (m_trust m) v (m_tombstones m) (m_removalProofs m) (m_admission m) (m_clusterID m)
    (m_clusterFriendlyName m) (m_inviteCreatedCluster m) (m_inviteCreatedID m) (m_clusterGen m)
    (m_clusterTornDown m) (m_teardownPending m) (m_sessGen m) (m_sessions m) (m_invites m) (m_disk
    m) (m_io m) (m_ticks m) (m_out m).
Definition set_tombstones (v : gmap string Tombstone) (m : Manager) : Manager :=
  mkManager (m_trust m) (m_members m) v (m_removalProofs m) (m_admission m) (m_clusterID m)
    (m_clusterFriendlyName m) (m_inviteCreatedCluster m) (m_inviteCreatedID m) (m_clusterGen m)
    (m_clusterTornDown m) (m_teardownPending m) (m_sessGen m) (m_sessions m) (m_invites m) (m_disk
    m) (m_io m) (m_ticks m) (m_out m).
Definition set_removalProofs (v : gmap string RemovalProof) (m : Manager) : Manager :=
  mkManager (m_trust m) (m_members m) (m_tombstones m) v (m_admission m) (m_clusterID m)
    (m_clusterFriendlyName m) (m_inviteCreatedCluster m) (m_inviteCreatedID m) (m_clusterGen m)
    (m_clusterTornDown m) (m_teardownPending m) (m_sessGen m) (m_sessions m) (m_invites m) (m_disk
    m) (m_io m) (m_ticks m) (m_out m).
Definition set_admission (v : admissionState) (m : Manager) : Manager :=
  mkManager (m_trust m) (m_members m) (m_tombstones m) (m_removalProofs m) v (m_clusterID m)
    (m_clusterFriendlyName m) (m_inviteCreatedCluster m) (m_inviteCreatedID m) (m_clusterGen m)
    (m_clusterTornDown m) (m_teardownPending m) (m_sessGen m) (m_sessions m) (m_invites m) (m_disk
    m) (m_io m) (m_ticks m) (m_out m).
Definition set_clusterID (v : string) (m : Manager) : Manager :=
  mkManager (m_trust m) (m_members m) (m_tombstones m) (m_removalProofs m) (m_admission m) v
    (m_clusterFriendlyName m) (m_inviteCreatedCluster m) (m_inviteCreatedID m) (m_clusterGen m)
    (m_clusterTornDown m) (m_teardownPending m) (m_sessGen m) (m_sessions m) (m_invites m) (m_disk
    m) (m_io m) (m_ticks m) (m_out m).
Definition set_clusterFriendlyName (v : string) (m : Manager) : Manager :=
  mkManager (m_trust m) (m_members m) (m_tombstones m) (m_removalProofs m) (m_admission m)
    (m_clusterID m) v (m_inviteCreatedCluster m) (m_inviteCreatedID m) (m_clusterGen m)
    (m_clusterTornDown m) (m_teardownPending m) (m_sessGen m) (m_sessions m) (m_invites m) (m_disk
    m) (m_io m) (m_ticks m) (m_out m).
Definition set_inviteCreatedCluster (v : bool) (m : Manager) : Manager :=
  mkManager (m_trust m) (m_members m) (m_tombstones m) (m_removalProofs m) (m_admission m)
    (m_clusterID m) (m_clusterFriendlyName m) v (m_inviteCreatedID m) (m_clusterGen m)
    (m_clusterTornDown m) (m_teardownPending m) (m_sessGen m) (m_sessions m) (m_invites m) (m_disk
    m) (m_io m) (m_ticks m) (m_out m).
Definition set_inviteCreatedID (v : string) (m : Manager) : Manager :=
  mkManager (m_trust m) (m_members m) (m_tombstones m) (m_removalProofs m) (m_admission m)
    (m_clusterID m) (m_clusterFriendlyName m) (m_inviteCreatedCluster m) v (m_clusterGen m)
    (m_clusterTornDown m) (m_teardownPending m) (m_sessGen m) (m_sessions m) (m_invites m) (m_disk
    m) (m_io m) (m_ticks m) (m_out m).
Definition set_clusterGen (v : Z) (m : Manager) : Manager :=
  mkManager (m_trust m) (m_members m) (m_tombstones m) (m_removalProofs m) (m_admission m)
    (m_clusterID m) (m_clusterFriendlyName m) (m_inviteCreatedCluster m) (m_inviteCreatedID m) v
    (m_clusterTornDown m) (m_teardownPending m) (m_sessGen m) (m_sessions m) (m_invites m) (m_disk
    m) (m_io m) (m_ticks m) (m_out m).
Definition set_clusterTornDown (v : bool) (m : Manager) : Manager :=
  mkManager (m_trust m) (m_members m) (m_tombstones m) (m_removalProofs m) (m_admission m)
    (m_clusterID m) (m_clusterFriendlyName m) (m_inviteCreatedCluster m) (m_inviteCreatedID m)
    (m_clusterGen m) v (m_teardownPending m) (m_sessGen m) (m_sessions m) (m_invites m) (m_disk m)
    (m_io m) (m_ticks m) (m_out m).
Definition set_teardownPending (v : bool) (m : Manager) : Manager :=
  mkManager (m_trust m) (m_members m) (m_tombstones m) (m_removalProofs m) (m_admission m)
    (m_clusterID m) (m_clusterFriendlyName m) (m_inviteCreatedCluster m) (m_inviteCreatedID m)
    (m_clusterGen m) (m_clusterTornDown m) v (m_sessGen m) (m_sessions m) (m_invites m) (m_disk m)
    (m_io m) (m_ticks m) (m_out m).
Definition set_sessGen (v : Z) (m : Manager) : Manager :=
  mkManager (m_trust m) (m_members m) (m_tombstones m) (m_removalProofs m) (m_admission m)
    (m_clusterID m) (m_clusterFriendlyName m) (m_inviteCreatedCluster m) (m_inviteCreatedID m)
    (m_clusterGen m) (m_clusterTornDown m) (m_teardownPending m) v (m_sessions m) (m_invites m)
    (m_disk m) (m_io m) (m_ticks m) (m_out m).
Definition set_sessions (v : gmap string pairingSession) (m : Manager) : Manager :=
  mkManager (m_trust m) (m_members m) (m_tombstones m) (m_removalProofs m) (m_admission m)
    (m_clusterID m) (m_clusterFriendlyName m) (m_inviteCreatedCluster m) (m_inviteCreatedID m)
    (m_clusterGen m) (m_clusterTornDown m) (m_teardownPending m) (m_sessGen m) v (m_invites m)
    (m_disk m) (m_io m) (m_ticks m) (m_out m).
Definition set_invites (v : gmap string Invite) (m : Manager) : Manager :=
  mkManager (m_trust m) (m_members m) (m_tombstones m) (m_removalProofs m) (m_admission m)
    (m_clusterID m) (m_clusterFriendlyName m) (m_inviteCreatedCluster m) (m_inviteCreatedID m)
    (m_clusterGen m) (m_clusterTornDown m) (m_teardownPending m) (m_sessGen m) (m_sessions m) v
    (m_disk m) (m_io m) (m_ticks m) (m_out m).
Definition set_disk (v : Disk) (m : Manager) : Manager :=
  mkManager (m_trust m) (m_members m) (m_tombstones m) (m_removalProofs m) (m_admission m)
    (m_clusterID m) (m_clusterFriendlyName m) (m_inviteCreatedCluster m) (m_inviteCreatedID m)
    (m_clusterGen m) (m_clusterTornDown m) (m_teardownPending m) (m_sessGen m) (m_sessions m)
    (m_invites m) v (m_io m) (m_ticks m) (m_out m).
Definition set_io (v : nat) (m : Manager) : Manager :=
  mkManager (m_trust m) (m_members m) (m_tombstones m) (m_removalProofs m) (m_admission m)
    (m_clusterID m) (m_clusterFriendlyName m) (m_inviteCreatedCluster m) (m_inviteCreatedID m)
    (m_clusterGen m) (m_clusterTornDown m) (m_teardownPending m) (m_sessGen m) (m_sessions m)
    (m_invites m) (m_disk m) v (m_ticks m) (m_out m).
Definition set_ticks (v : nat) (m : Manager) : Manager :=
  mkManager (m_trust m) (m_members m) (m_tombstones m) (m_removalProofs m) (m_admission m)
    (m_clusterID m) (m_clusterFriendlyName m) (m_inviteCreatedCluster m) (m_inviteCreatedID m)
    (m_clusterGen m) (m_clusterTornDown m) (m_teardownPending m) (m_sessGen m) (m_sessions m)
    (m_invites m) (m_disk m) (m_io m) v (m_out m).
Definition set_out (v : list Event) (m : Manager) : Manager :=
  mkManager (m_trust m) (m_members m) (m_tombstones m) (m_removalProofs m) (m_admission m)
    (m_clusterID m) (m_clusterFriendlyName m) (m_inviteCreatedCluster m) (m_inviteCreatedID m)
    (m_clusterGen m) (m_clusterTornDown m) (m_teardownPending m) (m_sessGen m) (m_sessions m)
    (m_invites m) (m_disk m) (m_io m) (m_ticks m) v.

Definition init_manager (d : Disk) (io ticks : nat) : Manager :=
  mkManager empty_store ∅ ∅ ∅ no_admission "" "" false "" 0 false false 0 ∅ ∅ d io ticks [].

Definition with_pins (v : gmap string TrustedPin) (d : Disk) : Disk :=
  mkDisk v (d_members d) (d_tombstones d) (d_removalProofs d) (d_admission d) (d_teardown d) (d_inviteCreated d).
Definition with_members (v : list ClusterNode) (d : Disk) : Disk :=
  mkDisk (d_pins d) v (d_tombstones d) (d_removalProofs d) (d_admission d) (d_teardown d) (d_inviteCreated d).
Definition with_tombstones (v : list Tombstone) (d : Disk) : Disk :=
  mkDisk (d_pins d) (d_members d) v (d_removalProofs d) (d_admission d) (d_teardown d) (d_inviteCreated d).
Definition with_removalProofs (v : list RemovalProof) (d : Disk) : Disk :=
  mkDisk (d_pins d) (d_members d) (d_tombstones d) v (d_admission d) (d_teardown d) (d_inviteCreated d).
Definition with_admission (v : option admissionState) (d : Disk) : Disk :=
  mkDisk (d_pins d) (d_members d) (d_tombstones d) (d_removalProofs d) v (d_teardown d) (d_inviteCreated d).
Definition with_teardown (v : option teardownMarker) (d : Disk) : Disk :=
  mkDisk (d_pins d) (d_members d) (d_tombstones d) (d_removalProofs d) (d_admission d) v (d_inviteCreated d).
Definition with_inviteCreated (v : option string) (d : Disk) : Disk :=
  mkDisk (d_pins d) (d_members d) (d_tombstones d) (d_removalProofs d) (d_admission d) (d_teardown d) v.

(** * The environment and the state monad *)

(** Whether the n-th durable write succeeds, and what the n-th reading of the clock is, in
    Unix milliseconds.  A crash after a write is an environment in which no later write of
    the process succeeds. *)
Class World : Type := { writes : nat -> bool; clock : nat -> Z }.

Definition M (A : Type) : Type := Manager -> A * Manager.

#[export] Instance M_ret : MRet M := fun A a m => (a, m).
#[export] Instance M_bind : MBind M := fun A B f x m => let '(a, m) := x m in f a m.

Definition get {A} (f : Manager -> A) : M A := fun m => (f m, m).
Definition modify (f : Manager -> Manager) : M () := fun m => ((), f m).
Definition when (b : bool) (x : M ()) : M () := if b then x else mret ().

(** A loop over a list, the whole of it. *)
Fixpoint for_each {A} (l : list A) (f : A -> M ()) : M () :=
  match l with [] => mret () | x :: l => f x;; for_each l f end.

Section State.
Context {pki : Pki} {sha : Sha256} {R : MapRange} {W : World} (self : NodeIdentity) (port : Z).

Definition now : M Z := fun m => (clock (m_ticks m), set_ticks (S (m_ticks m)) m).

(** [atomicWrite]: the new file, or the old one and an error. *)
Definition write (f : Disk -> Disk) : M bool := fun m =>
  let m' := set_io (S (m_io m)) m in
  if writes (m_io m) then (true, set_disk (f (m_disk m)) m') else (false, m').

(** [os.Remove], an absent file being no error. *)
Definition remove_file {A} (present : Disk -> option A) (f : Disk -> Disk) : M bool := fun m =>
  match present (m_disk m) with None => (true, m) | Some _ => write f m end.

Definition emit (e : Event) : M () := modify (fun m => set_out (m_out m ++ [e]) m).
Definition announce (changed : bool) : M () := when changed (emit TrustChanged).

(** * The trust store (truststore.go) *)

Definition set_store_pin (uuid : string) (pin : TrustedPin) (m : Manager) : Manager :=
  let ts := m_trust m in set_trust (mkTrustStore (<[uuid := pin]> (ts_pins ts)) (ts_ders ts) (ts_pubs ts)) m.
Definition set_store_cert (uuid der pub : string) (m : Manager) : Manager :=
  let ts := m_trust m in set_trust (mkTrustStore (ts_pins ts) (<[uuid := der]> (ts_ders ts)) (<[uuid := pub]> (ts_pubs ts))) m.
Definition drop_store_pin (uuid : string) (m : Manager) : Manager :=
  let ts := m_trust m in
  set_trust (mkTrustStore (delete uuid (ts_pins ts)) (delete uuid (ts_ders ts)) (delete uuid (ts_pubs ts))) m.

Definition writePinLocked (pin : TrustedPin) : M bool :=
  if pinFilename (pin_NodeUUID pin) then
    ok ← write (fun d => with_pins (<[pin_NodeUUID pin := pin]> (d_pins d)) d);
    when ok (modify (set_store_pin (pin_NodeUUID pin) pin));; mret ok
  else mret false.

Definition with_endorsements (l : list Endorsement) (p : TrustedPin) : TrustedPin :=
  mkPin (pin_NodeUUID p) (pin_NodeID p) (pin_Name p) (pin_ClusterID p) (pin_AdmissionEpoch p) (pin_CertPem p)
    (pin_CertFingerprint p) (pin_PinnedAt p) l.

(** The result: [None] is an error, else whether something was added. *)
Definition mergeEndorsementsLocked (uuid : string) (incoming : list Endorsement) : M (option bool) :=
  pins ← get (fun m => ts_pins (m_trust m));
  match pins !! uuid with
  | None => mret (Some false)
  | Some pin =>
      let fresh := unseen endorsementKey (endorsementKey <$> pin_Endorsements pin) incoming in
      if bool_decide (fresh = []) then mret (Some false) else
      ok ← writePinLocked (with_endorsements (pin_Endorsements pin ++ fresh) pin);
      mret (if ok : bool then Some true else None)
  end.

(** The result is whether there was no error.  A store whose maps have the same keys never
    takes the branch without a current pin. *)
Definition Pin (pin : TrustedPin) : M bool :=
  match validatePin pin (pin_NodeUUID pin) with
  | None => mret false
  | Some der =>
      match pubFromDER der with
      | None => mret false
      | Some pub =>
          ts ← get m_trust;
          match ts_ders ts !! pin_NodeUUID pin with
          | Some existing =>
              if negb (bool_decide (existing = der)) then mret false else
              match ts_pins ts !! pin_NodeUUID pin with
              | None => mret false
              | Some current =>
                  if pin_AdmissionEpoch current <? pin_AdmissionEpoch pin then
                    ok ← writePinLocked (with_endorsements (pin_Endorsements current ++ pin_Endorsements pin) pin);
                    announce ok;; mret ok
                  else if pin_AdmissionEpoch pin <? pin_AdmissionEpoch current then mret true
                  else
                    added ← mergeEndorsementsLocked (pin_NodeUUID pin) (pin_Endorsements pin);
                    announce (default false added);; mret (bool_decide (added <> None))
              end
          | None =>
              ok ← writePinLocked pin;
              if ok : bool then
                modify (set_store_cert (pin_NodeUUID pin) der pub);; announce true;; mret true
              else mret false
          end
      end
  end.

Definition AddEndorsements (uuid : string) (endorsements : list Endorsement) : M bool :=
  added ← mergeEndorsementsLocked uuid endorsements;
  announce (default false added);; mret (bool_decide (added <> None)).

Definition with_pin_identity (nodeID name : string) (p : TrustedPin) : TrustedPin :=
  mkPin (pin_NodeUUID p) nodeID name (pin_ClusterID p) (pin_AdmissionEpoch p) (pin_CertPem p)
    (pin_CertFingerprint p) (pin_PinnedAt p) (pin_Endorsements p).
Definition with_pin_admission (cid : string) (epoch : Z) (p : TrustedPin) : TrustedPin :=
  mkPin (pin_NodeUUID p) (pin_NodeID p) (pin_Name p) cid epoch (pin_CertPem p)
    (pin_CertFingerprint p) (pin_PinnedAt p) (pin_Endorsements p).

(** An empty name keeps the old one. *)
Definition refreshed (v old : string) : string := if bool_decide (v = "") then old else v.

Definition UpdateIdentity (uuid nodeID name : string) : M (option bool) :=
  pins ← get (fun m => ts_pins (m_trust m));
  match pins !! uuid with
  | None => mret (Some false)
  | Some pin =>
      let id := refreshed nodeID (pin_NodeID pin) in let nm := refreshed name (pin_Name pin) in
      if bool_decide (id = pin_NodeID pin) && bool_decide (nm = pin_Name pin) then mret (Some false) else
      ok ← writePinLocked (with_pin_identity id nm pin);
      announce ok;; mret (if ok : bool then Some true else None)
  end.

Definition legacyAdmissionEpoch : Z := 1.

(** The loop of [MigrateLegacyAdmissions]: no error, and whether a pin was rewritten. *)
Fixpoint migrate_pins (clusterID : string) (l : list (string * TrustedPin)) (migrated : bool) : M (bool * bool) :=
  match l with
  | [] => mret (true, migrated)
  | (_, pin) :: l =>
      if negb (bool_decide (pin_ClusterID pin = "")) && negb (bool_decide (pin_ClusterID pin = clusterID))
      then migrate_pins clusterID l migrated
      else if negb (bool_decide (pin_ClusterID pin = "")) && negb (pin_AdmissionEpoch pin =? 0)
      then migrate_pins clusterID l migrated
      else
        let cid := if bool_decide (pin_ClusterID pin = "") then clusterID else pin_ClusterID pin in
        let epoch := if pin_AdmissionEpoch pin =? 0 then legacyAdmissionEpoch else pin_AdmissionEpoch pin in
        ok ← writePinLocked (with_pin_admission cid epoch pin);
        if ok : bool then migrate_pins clusterID l true else mret (false, migrated)
  end.
Definition MigrateLegacyAdmissions (clusterID : string) : M bool :=
  pins ← get (fun m => ts_pins (m_trust m));
  r ← migrate_pins clusterID (range pins) false;
  announce r.2;; mret r.1.

Definition held (uuid : string) (m : Manager) : bool := bool_decide (is_Some (ts_pins (m_trust m) !! uuid)).

Definition Remove (uuid : string) : M bool :=
  if negb (pinFilename uuid) then mret false else
  ok ← remove_file (fun d => d_pins d !! uuid) (fun d => with_pins (delete uuid (d_pins d)) d);
  if ok : bool then
    h ← get (held uuid);
    modify (drop_store_pin uuid);; announce h;; mret true
  else mret false.

Definition Forget (uuid : string) : M () :=
  h ← get (held uuid);
  modify (drop_store_pin uuid);; announce h.

Definition Get (uuid : string) (m : Manager) : option TrustedPin := ts_pins (m_trust m) !! uuid.
Definition PubKey (uuid : string) (m : Manager) : option string := ts_pubs (m_trust m) !! uuid.
Definition DER (uuid : string) (m : Manager) : option string := ts_ders (m_trust m) !! uuid.
Definition MatchDER (uuid der : string) (m : Manager) : bool := bool_decide (DER uuid m = Some der).
Definition List_ (m : Manager) : list TrustedPin := (range (ts_pins (m_trust m))).*2.

(** [load]: the files whose name, content and certificate agree. *)
Definition load_pin (fileUUID : string) (pin : TrustedPin) : option (TrustedPin * string * string) :=
  match validatePin pin fileUUID with
  | Some der => match pubFromDER der with Some pub => Some (pin, der, pub) | None => None end
  | None => None
  end.
Definition load_store (d : Disk) : TrustStore :=
  let loaded := map_imap load_pin (d_pins d) in
  mkTrustStore ((fun x => x.1.1) <$> loaded) ((fun x => x.1.2) <$> loaded) (snd <$> loaded).

(** * Membership (membership.go, membership_store.go) *)

(** [atomic.Uint64.Add]. *)
Definition bump_clusterGen : M () := modify (fun m => set_clusterGen (wrapU64 (m_clusterGen m + 1)) m).

Definition upsertMember (node : ClusterNode) : M () :=
  node' ← (if bool_decide (cn_State node = stateMember) then t ← now; mret (normalizeMemberAddresses t node) else mret node);
  modify (fun m => set_members (<[cn_NodeUUID node := node']> (m_members m)) m);; bump_clusterGen.

Definition removeMemberByUUID (uuid : string) : M bool :=
  ok ← get (fun m => bool_decide (is_Some (m_members m !! uuid)));
  modify (fun m => set_members (delete uuid (m_members m)) m);;
  emit (AddressForgotten uuid);;
  when ok bump_clusterGen;; mret ok.

Definition resetMembership : M () :=
  old ← get m_members;
  modify (set_members ∅);;
  for_each (range old) (fun p => emit (AddressForgotten p.1));; bump_clusterGen.

Definition resetInvites : M () :=
  modify (fun m => set_invites (filter (fun p => iv_State p.2 <> inviteStatePending) (m_invites m)) m).

(** By uuid, else the first of the others with that identifier. *)
Definition memberByNodeID (idOrUUID : string) (m : Manager) : option ClusterNode :=
  match m_members m !! idOrUUID with
  | Some n => Some n
  | None => snd <$> List.find (fun p => bool_decide (cn_ID p.2 = idOrUUID)) (range (m_members m))
  end.

Definition with_names (id name : string) (n : ClusterNode) : ClusterNode :=
  mkNode id (cn_NodeUUID n) name (cn_IPAddress n) (cn_Port n) (cn_ClusterID n) (cn_AdmissionEpoch n)
    (cn_State n) (cn_JoinedAt n) (cn_LastSeen n) (cn_addresses n).
Definition with_member_admission (cid : string) (epoch : Z) (n : ClusterNode) : ClusterNode :=
  mkNode (cn_ID n) (cn_NodeUUID n) (cn_Name n) (cn_IPAddress n) (cn_Port n) cid epoch
    (cn_State n) (cn_JoinedAt n) (cn_LastSeen n) (cn_addresses n).

Definition updateMemberIdentity (uuid nodeID name : string) : M bool :=
  members ← get m_members;
  match members !! uuid with
  | None => mret false
  | Some n =>
      let id := refreshed nodeID (cn_ID n) in let nm := refreshed name (cn_Name n) in
      modify (fun m => set_members (<[uuid := with_names id nm n]> (m_members m)) m);;
      mret (negb (bool_decide (id = cn_ID n) && bool_decide (nm = cn_Name n)))
  end.

Definition id_before (a b : ClusterNode) : bool := str_ltb (cn_ID a) (cn_ID b).
Definition snapshotNodes (m : Manager) : list ClusterNode := sort_by id_before (range (m_members m)).*2.

(** The confirmed members are normalised in place, each at its own reading of the clock. *)
Fixpoint collect_members (l : list (string * ClusterNode)) : M (list ClusterNode) :=
  match l with
  | [] => mret []
  | (k, n) :: l =>
      if bool_decide (cn_State n = stateMember) then
        t ← now;
        let n := normalizeMemberAddresses t n in
        modify (fun m => set_members (<[k := n]> (m_members m)) m);;
        rest ← collect_members l; mret (n :: rest)
      else collect_members l
  end.
Definition persistMembersErr : M bool :=
  members ← get m_members;
  durable ← collect_members (range members);
  write (with_members (sort_by id_before durable)).
Definition persistMembers : M () := _ ← persistMembersErr; mret ().

(** The rows of the file in order, the last for a key staying. *)
Fixpoint load_rows (l : list ClusterNode) : M () :=
  match l with
  | [] => mret ()
  | n :: l => t ← now;
              modify (fun m => set_members (<[cn_NodeUUID n := normalizeMemberAddresses t n]> (m_members m)) m);;
              load_rows l
  end.
Definition loadMembers : M () := rows ← get (fun m => d_members (m_disk m)); load_rows rows.

Definition emitNodesChanged : M () :=
  persistMembers;; nodes ← get snapshotNodes; emit (NodesChanged nodes).
Definition emitIdentityChanged : M () :=
  e ← get (fun m => IdentityChanged (m_clusterID m) (m_clusterFriendlyName m)); emit e.

Definition setClusterIdentity (id friendly : string) : M () :=
  changed ← get (fun m => negb (bool_decide (m_clusterID m = id)) || negb (bool_decide (m_clusterFriendlyName m = friendly)));
  modify (fun m => set_clusterFriendlyName friendly (set_clusterID id m));;
  when changed bump_clusterGen.

(** * Admissions (admission_store.go) *)

(** [loadAdmission] on the decoded file: the state to install, or an error. *)
Definition check_admission (s : admissionState) : option admissionState :=
  let s := if (ad_Activated s =? 0) && negb (ad_Epoch s =? 0)
           then mkAdmission (ad_Counter s) (ad_Epoch s) (ad_Retired s) (ad_ClusterID s) (ad_Epoch s) else s in
  if ad_Counter s <? ad_Epoch s then None
  else if (ad_Counter s <? ad_Activated s) || (ad_Activated s <? ad_Epoch s) then None
  else if negb (Bool.eqb (bool_decide (ad_ClusterID s = "")) (ad_Epoch s =? 0)) then None
  else Some s.

Definition loadAdmission : M bool :=
  file ← get (fun m => d_admission (m_disk m));
  match file with
  | None => mret true
  | Some s => match check_admission s with
              | Some s => modify (set_admission s);; mret true
              | None => mret false
              end
  end.

Definition persistAdmissionLocked : M bool :=
  s ← get m_admission; write (with_admission (Some s)).

(** Installs [s], and the old state again when it cannot be written. *)
Definition commit_admission (s : admissionState) : M bool :=
  old ← get m_admission;
  modify (set_admission s);;
  ok ← persistAdmissionLocked;
  when (negb ok) (modify (set_admission old));; mret ok.

(** [None] is an error. *)
Definition reserveAdmissionEpoch : M (option Z) :=
  a ← get m_admission;
  let c := wrapU64 (ad_Counter a + 1) in
  ok ← commit_admission (mkAdmission c (ad_Activated a) (ad_Retired a) (ad_ClusterID a) (ad_Epoch a));
  mret (if ok : bool then Some c else None).

Definition activateAdmission (clusterID : string) (epoch : Z) : M bool :=
  if bool_decide (clusterID = "") || (epoch =? 0) then mret false else
  pending ← get m_teardownPending;
  if pending : bool then mret false else
  a ← get m_admission;
  if (ad_Counter a <? epoch) || (epoch <=? ad_Activated a) then mret false
  else commit_admission (mkAdmission (ad_Counter a) epoch false clusterID epoch).

Definition ensureAdmission (clusterID : string) : M (option Z) :=
  a ← get m_admission;
  if bool_decide (ad_ClusterID a = clusterID) && negb (ad_Epoch a =? 0) then mret (Some (ad_Epoch a))
  else if negb (bool_decide (ad_ClusterID a = "")) || negb (ad_Epoch a =? 0) then mret None
  else if ad_Retired a then mret None
  else
    r ← reserveAdmissionEpoch;
    match r with
    | None => mret None
    | Some epoch => ok ← activateAdmission clusterID epoch; mret (if ok : bool then Some epoch else None)
    end.

Definition currentAdmission (m : Manager) : string * Z := (ad_ClusterID (m_admission m), ad_Epoch (m_admission m)).

Definition clearAdmission : M bool :=
  a ← get m_admission;
  commit_admission (mkAdmission (ad_Counter a) (ad_Activated a) true "" 0).

(** * Tombstones (tombstone_store.go) *)

Definition tb_before (a b : Tombstone) : bool := str_ltb (tb_NodeUUID a) (tb_NodeUUID b).
Definition snapshotTombstones (m : Manager) : list Tombstone := sort_by tb_before (range (m_tombstones m)).*2.
Definition persistTombstonesLocked : M bool := l ← get snapshotTombstones; write (with_tombstones l).

(** Installs a set of tombstones, and the old set again when it cannot be written. *)
Definition commit_tombstones (v : gmap string Tombstone) : M bool :=
  old ← get m_tombstones;
  modify (set_tombstones v);;
  ok ← persistTombstonesLocked;
  when (negb ok) (modify (set_tombstones old));; mret ok.

(** Whether the held one stays. *)
Definition tombstone_stays (cur t : Tombstone) : bool :=
  if negb (tb_AdmissionEpoch cur =? 0) && negb (tb_AdmissionEpoch t =? 0)
  then tb_AdmissionEpoch t <=? tb_AdmissionEpoch cur
  else tb_RemovedAt t <=? tb_RemovedAt cur.

Definition putTombstone (t : Tombstone) : M bool :=
  ts ← get m_tombstones;
  if match ts !! tb_NodeUUID t with Some cur => tombstone_stays cur t | None => false end then mret false
  else commit_tombstones (<[tb_NodeUUID t := t]> ts).

Definition tombstoneFor (uuid : string) (m : Manager) : option Tombstone := m_tombstones m !! uuid.

Definition clearTombstone (uuid : string) : M () :=
  ts ← get m_tombstones;
  match ts !! uuid with
  | None => mret ()
  | Some _ => _ ← commit_tombstones (delete uuid ts); mret ()
  end.

Definition clearAllTombstones : M bool :=
  ts ← get m_tombstones;
  if bool_decide (ts = ∅) then mret true else commit_tombstones ∅.

Definition loadTombstones : M () :=
  l ← get (fun m => d_tombstones (m_disk m));
  for_each l (fun t => modify (fun m => set_tombstones (<[tb_NodeUUID t := t]> (m_tombstones m)) m)).

(** * Removal proofs (removal_proof_store.go) *)

Definition proof_uuid (p : RemovalProof) : string := tb_NodeUUID (rp_Tombstone p).
Definition proof_epoch (p : RemovalProof) : Z := tb_AdmissionEpoch (rp_Tombstone p).
Definition rp_before (a b : RemovalProof) : bool := str_ltb (proof_uuid a) (proof_uuid b).
Definition snapshotRemovalProofs (m : Manager) : list RemovalProof := sort_by rp_before (range (m_removalProofs m)).*2.
Definition persistRemovalProofsLocked : M bool := l ← get snapshotRemovalProofs; write (with_removalProofs l).

Definition commit_proofs (v : gmap string RemovalProof) : M bool :=
  old ← get m_removalProofs;
  modify (set_removalProofs v);;
  ok ← persistRemovalProofsLocked;
  when (negb ok) (modify (set_removalProofs old));; mret ok.

Definition with_proof_endorsements (l : list Endorsement) (p : RemovalProof) : RemovalProof :=
  mkProof (rp_Tombstone p) (rp_SignerCertPem p) (rp_SignerFingerprint p) l.

Definition newRemovalProof (nodeUUID : string) (admissionEpoch : Z) : M (option RemovalProof) :=
  a ← get currentAdmission;
  if bool_decide (a.1 = "") || (a.2 =? 0) || (admissionEpoch =? 0) then mret None else
  t ← now;
  mret (Some (mkProof (signTombstone (id_Signer self) (id_NodeUUID self) nodeUUID a.1 t [admissionEpoch; a.2])
                (id_CertPEM self) (id_CertFingerprint self) [])).

Definition targetAdmissionAuthenticated (uuid : string) (epoch : Z) (m : Manager) : bool :=
  if bool_decide (uuid = "") || (epoch =? 0) then false
  else if bool_decide (uuid = id_NodeUUID self) then (currentAdmission m).2 =? epoch
  else match Get uuid m with Some pin => pin_AdmissionEpoch pin =? epoch | None => false end.

(** This node's word that the signer of the proof is a member. *)
Definition is_local_relay (selfEpoch : Z) (p : RemovalProof) (e : Endorsement) : bool :=
  bool_decide (en_By e = id_NodeUUID self) && (en_ByAdmissionEpoch e =? selfEpoch)
  && (en_AdmissionEpoch e =? tb_ByAdmissionEpoch (rp_Tombstone p))
  && bool_decide (en_Fingerprint e = rp_SignerFingerprint p) && negb (bool_decide (en_SigV2 e = "")).

Definition withLocalRelayEndorsement (p : RemovalProof) : M RemovalProof :=
  a ← get currentAdmission;
  if bool_decide (a.1 = "") || (a.2 =? 0) || negb (bool_decide (tb_ClusterID (rp_Tombstone p) = a.1)) then mret p
  else if existsb (is_local_relay a.2 p) (rp_Endorsements p) then mret p
  else
    t ← now;
    let relay := signEndorsement (id_Signer self) (id_NodeUUID self) (tb_By (rp_Tombstone p))
                   (rp_SignerFingerprint p) a.1 t [tb_ByAdmissionEpoch (rp_Tombstone p); a.2] in
    mret (with_proof_endorsements (mergeProofEndorsements (rp_Endorsements p) [relay]) p).

(** [None] is an error, else whether the store changed.  Two proofs are compared by their
    encodings, which are equal when the proofs are. *)
Definition putRemovalProof (p : RemovalProof) : M (option bool) :=
  if bool_decide (proof_uuid p = "") || (proof_epoch p =? 0) then mret None else
  p ← withLocalRelayEndorsement p;
  ps ← get m_removalProofs;
  let cur := ps !! proof_uuid p in
  if match cur with Some c => proof_epoch p <? proof_epoch c | None => false end then mret (Some false) else
  let p := match cur with
           | Some c => if proof_epoch c =? proof_epoch p
                       then with_proof_endorsements (mergeProofEndorsements (rp_Endorsements c) (rp_Endorsements p)) p
                       else p
           | None => p
           end in
  if match cur with Some c => (proof_epoch c =? proof_epoch p) && bool_decide (c = p) | None => false end
  then mret (Some false) else
  auth ← get (targetAdmissionAuthenticated (proof_uuid p) (proof_epoch p));
  if negb auth then mret None else
  ok ← commit_proofs (<[proof_uuid p := p]> ps);
  mret (if ok : bool then Some true else None).

Definition removalProofFor (uuid : string) (m : Manager) : option RemovalProof := m_removalProofs m !! uuid.

Definition removalProofBlocksAdmission (uuid clusterID : string) (admissionEpoch : Z) (m : Manager) : bool :=
  match removalProofFor uuid m with
  | Some p => bool_decide (tb_ClusterID (rp_Tombstone p) = clusterID)
              && ((admissionEpoch =? 0) || (admissionEpoch <=? proof_epoch p))
  | None => false
  end.

Definition clearRemovalProofAfterAdmission (uuid : string) (admissionEpoch : Z) : M bool :=
  ps ← get m_removalProofs;
  match ps !! uuid with
  | None => mret true
  | Some p => if admissionEpoch <=? proof_epoch p then mret true else commit_proofs (delete uuid ps)
  end.

Definition clearAllRemovalProofs : M bool :=
  ps ← get m_removalProofs;
  if bool_decide (ps = ∅) then mret true else commit_proofs ∅.

(** One row of the file: skipped without a targeted admission, else the highest epoch. *)
Definition load_proof (p : RemovalProof) (m : gmap string RemovalProof) : gmap string RemovalProof :=
  if bool_decide (proof_uuid p = "") || (proof_epoch p =? 0) then m else
  match m !! proof_uuid p with
  | Some cur => if proof_epoch cur <? proof_epoch p then <[proof_uuid p := p]> m else m
  | None => <[proof_uuid p := p]> m
  end.
Definition loadRemovalProofs : M () :=
  l ← get (fun m => d_removalProofs (m_disk m));
  for_each l (fun p => modify (fun m => set_removalProofs (load_proof p (m_removalProofs m)) m)).

Definition selfPub : string := Public (id_Signer self).
Definition trustedPub (uuid : string) (m : Manager) : option string :=
  if bool_decide (uuid = id_NodeUUID self) then Some selfPub else PubKey uuid m.

Definition trustedAdmissionEpoch (uuid : string) (m : Manager) : option Z :=
  if bool_decide (uuid = id_NodeUUID self)
  then (let e := (currentAdmission m).2 in if e =? 0 then None else Some e)
  else match Get uuid m with
       | Some pin => if pin_AdmissionEpoch pin =? 0 then None else Some (pin_AdmissionEpoch pin)
       | None => None
       end.

(** An endorsement of (uuid, epoch, certificate) by a node trusted in the admission it
    names: the loop body that [verifyRemovalProof] and [entryEndorsed] share. *)
Definition vouches (uuid fingerprint clusterID : string) (epoch : Z) (m : Manager) (e : Endorsement) : bool :=
  if bool_decide (en_SigV2 e = "") || negb (en_AdmissionEpoch e =? epoch) then false else
  match trustedAdmissionEpoch (en_By e) m with
  | None => false
  | Some byEpoch =>
      if negb (byEpoch =? en_ByAdmissionEpoch e) then false else
      match trustedPub (en_By e) m with
      | None => false
      | Some pub => verifyEndorsement pub uuid fingerprint clusterID e
      end
  end.

Definition verifyRemovalProof (p : RemovalProof) (clusterID : string) (m : Manager) : bool :=
  let t := rp_Tombstone p in
  if negb (bool_decide (tb_ClusterID t = clusterID)) || bool_decide (tb_NodeUUID t = "") || (tb_AdmissionEpoch t =? 0)
     || bool_decide (tb_By t = "") || (tb_ByAdmissionEpoch t =? 0) || bool_decide (tb_SigV2 t = "") then false else
  match parseProofSigner p with
  | None => false
  | Some der =>
      match pubFromDER der with
      | None => false
      | Some pub =>
          if negb (verifyTombstone pub clusterID t) then false
          else if bool_decide (tb_By t = id_NodeUUID self)
          then ((currentAdmission m).2 =? tb_ByAdmissionEpoch t) && bool_decide (der = id_DER self)
          else if match Get (tb_By t) m with
                  | Some pin => (pin_AdmissionEpoch pin =? tb_ByAdmissionEpoch t) && MatchDER (tb_By t) der m
                  | None => false
                  end then true
          else existsb (vouches (tb_By t) (rp_SignerFingerprint p) clusterID (tb_ByAdmissionEpoch t) m) (rp_Endorsements p)
      end
  end.

(** [replayRemovalProofs]: [None] is the error of a pin that cannot be deleted, else
    whether something was removed. *)
Fixpoint replay_proofs (cid : string) (l : list RemovalProof) (changed : bool) : M (option bool) :=
  match l with
  | [] => mret (Some changed)
  | p :: l =>
      let t := rp_Tombstone p in
      ok ← get (verifyRemovalProof p cid);
      if bool_decide (tb_NodeUUID t = id_NodeUUID self) || negb ok then replay_proofs cid l changed else
      pin ← get (Get (tb_NodeUUID t));
      let pinned := match pin with Some pin => pin_AdmissionEpoch pin =? tb_AdmissionEpoch t | None => false end in
      r ← (if pinned then Remove (tb_NodeUUID t) else mret true);
      if negb r then mret None else
      n ← get (memberByNodeID (tb_NodeUUID t));
      removed ← (if match n with Some n => cn_AdmissionEpoch n =? tb_AdmissionEpoch t | None => false end
                 then removeMemberByUUID (tb_NodeUUID t) else mret false);
      replay_proofs cid l (changed || pinned || removed)
  end.
Definition replayRemovalProofs : M bool :=
  a ← get currentAdmission;
  if bool_decide (a.1 = "") then mret true else
  l ← get snapshotRemovalProofs;
  r ← replay_proofs a.1 l false;
  match r with
  | None => mret false
  | Some true => persistMembersErr
  | Some false => mret true
  end.

(** * Provenance (invite_provenance.go) *)

Definition isInviteCreatedCluster (m : Manager) : bool :=
  m_inviteCreatedCluster m && bool_decide (m_inviteCreatedID m = m_clusterID m) && negb (bool_decide (m_clusterID m = "")).

Definition clearInviteCreatedCluster : M bool :=
  modify (fun m => set_inviteCreatedID "" (set_inviteCreatedCluster false m));;
  remove_file d_inviteCreated (with_inviteCreated None).

Definition setInviteCreatedCluster (v : bool) : M () :=
  if negb v then (_ ← clearInviteCreatedCluster; mret ()) else
  id ← get m_clusterID;
  modify (fun m => set_inviteCreatedID id (set_inviteCreatedCluster true m));;
  _ ← write (with_inviteCreated (Some id)); mret ().

Definition loadInviteCreatedCluster : M () :=
  file ← get (fun m => d_inviteCreated (m_disk m));
  match file with
  | None => mret ()
  | Some id => if bool_decide (id = "") then mret ()
               else modify (fun m => set_inviteCreatedID id (set_inviteCreatedCluster true m))
  end.

Definition restoreInviteCreatedCluster (id : string) : M bool :=
  ok ← get (fun m => negb (bool_decide (id = "")) && m_inviteCreatedCluster m && bool_decide (m_inviteCreatedID m = id));
  when (negb ok) (setInviteCreatedCluster false);; mret ok.

(** * Teardown (teardown_store.go, leave.go) *)

Definition beginDurableTeardown : M bool :=
  a ← get currentAdmission;
  t ← now;
  modify (set_teardownPending true);;
  ok ← write (with_teardown (Some (mkMarker a.1 a.2 t)));
  when (negb ok) (modify (set_teardownPending false));; mret ok.

(** Every pin, with the live authorisation forgotten where the file stays; the result is
    whether all files went. *)
Fixpoint drop_pins (l : list TrustedPin) (ok : bool) : M bool :=
  match l with
  | [] => mret ok
  | pin :: l =>
      r ← Remove (pin_NodeUUID pin);
      when (negb r) (Forget (pin_NodeUUID pin));;
      drop_pins l (ok && r)
  end.

Definition resetSessions : M () :=
  modify (fun m => set_sessGen (wrapU64 (m_sessGen m + 1)) (set_sessions ∅ m)).

Definition finishDurableTeardown : M bool :=
  modify (set_teardownPending true);;
  ok1 ← clearAdmission;
  pins ← get List_;
  ok2 ← drop_pins pins true;
  resetMembership;;
  ok3 ← persistMembersErr;
  ok4 ← clearAllTombstones;
  ok5 ← clearAllRemovalProofs;
  ok6 ← clearInviteCreatedCluster;
  setClusterIdentity "" "";;
  resetSessions;;
  resetInvites;;
  modify (set_clusterTornDown true);;
  emit ConnectionsClosed;;
  if negb (ok1 && ok2 && ok3 && ok4 && ok5 && ok6) then mret false else
  ok ← remove_file d_teardown (with_teardown None);
  if ok : bool then modify (set_teardownPending false);; mret true else mret false.

Definition recoverPendingTeardown : M bool :=
  file ← get (fun m => d_teardown (m_disk m));
  match file with
  | None => mret true
  | Some _ => modify (set_teardownPending true);; finishDurableTeardown
  end.

Definition teardownClusterLocalLocked : M bool :=
  ok ← beginDurableTeardown;
  if ok : bool then finishDurableTeardown else mret false.

Definition teardownClusterLocal : M bool :=
  ok ← teardownClusterLocalLocked;
  if ok : bool then emitIdentityChanged;; emitNodesChanged;; mret true else mret false.

(** * Startup (manager.go, membership_store.go) *)

Definition rollbackIncompleteAdmission : M bool :=
  a ← get currentAdmission;
  if negb (bool_decide (a.1 = "")) || negb (a.2 =? 0) then mret true else
  me ← get (memberByNodeID (id_NodeUUID self));
  match me with
  | None => mret true
  | Some n =>
      if bool_decide (cn_ClusterID n = "") || (cn_AdmissionEpoch n =? 0) then mret true else
      pins ← get List_;
      ok ← drop_pins pins true;
      resetMembership;;
      ok' ← persistMembersErr;
      mret (ok && ok')
  end.

Definition endorsePeerForAdmission (peerUUID fingerprint clusterID : string) (peerEpoch selfEpoch : Z) : M Endorsement :=
  t ← now;
  mret (signEndorsement (id_Signer self) (id_NodeUUID self) peerUUID fingerprint clusterID t [peerEpoch; selfEpoch]).
Definition endorsePeer (peerUUID fingerprint : string) (peerEpoch : Z) : M Endorsement :=
  cid ← get m_clusterID;
  a ← get currentAdmission;
  endorsePeerForAdmission peerUUID fingerprint cid peerEpoch a.2.

(** The pins of the cluster: their epochs, and a fresh endorsement where this node's own is
    missing; [None] is an error. *)
Fixpoint migrate_endorsements (clusterID : string) (selfEpoch : Z) (l : list TrustedPin) (epochs : gmap string Z)
    : M (option (gmap string Z)) :=
  match l with
  | [] => mret (Some epochs)
  | pin :: l =>
      if negb (bool_decide (pin_ClusterID pin = clusterID)) then migrate_endorsements clusterID selfEpoch l epochs else
      let epochs := <[pin_NodeUUID pin := pin_AdmissionEpoch pin]> epochs in
      if existsb (fun e => bool_decide (en_By e = id_NodeUUID self) && (en_AdmissionEpoch e =? pin_AdmissionEpoch pin)
                           && (en_ByAdmissionEpoch e =? selfEpoch)
                           && verifyEndorsement selfPub (pin_NodeUUID pin) (pin_CertFingerprint pin) clusterID e)
                 (pin_Endorsements pin)
      then migrate_endorsements clusterID selfEpoch l epochs
      else
        e ← endorsePeer (pin_NodeUUID pin) (pin_CertFingerprint pin) (pin_AdmissionEpoch pin);
        ok ← AddEndorsements (pin_NodeUUID pin) [e];
        if ok : bool then migrate_endorsements clusterID selfEpoch l epochs else mret None
  end.

(** The admission a member row should carry: this node's own, else its pin's. *)
Definition migrated_member (clusterID : string) (selfEpoch : Z) (epochs : gmap string Z) (n : ClusterNode) : ClusterNode :=
  if negb (bool_decide (cn_ClusterID n = "")) && negb (bool_decide (cn_ClusterID n = clusterID)) then n
  else if bool_decide (cn_NodeUUID n = id_NodeUUID self) then with_member_admission clusterID selfEpoch n
  else match epochs !! cn_NodeUUID n with
       | Some e => if e =? 0 then n else with_member_admission clusterID e n
       | None => n
       end.
Definition same_admission (a b : ClusterNode) : bool :=
  bool_decide (cn_ClusterID a = cn_ClusterID b) && (cn_AdmissionEpoch a =? cn_AdmissionEpoch b).

Definition migrateLegacyAdmissions (clusterID : string) (selfEpoch : Z) : M bool :=
  if bool_decide (clusterID = "") || (selfEpoch =? 0) then mret true else
  ok ← MigrateLegacyAdmissions clusterID;
  if negb ok then mret false else
  pins ← get List_;
  epochs ← migrate_endorsements clusterID selfEpoch pins ∅;
  match epochs with
  | None => mret false
  | Some epochs =>
      old ← get m_members;
      let f := migrated_member clusterID selfEpoch epochs in
      modify (fun m => set_members (f <$> m_members m) m);;
      if existsb (fun p => negb (same_admission p.2 (f p.2))) (range old) then persistMembersErr else mret true
  end.

(** Whether a member row is backed: this node's by its admission, another's by its pin. *)
Definition backed (clusterID : string) (selfEpoch : Z) (pins : gmap string TrustedPin) (uuid : string) (n : ClusterNode) : bool :=
  if bool_decide (uuid = id_NodeUUID self)
  then bool_decide (cn_ClusterID n = clusterID) && (cn_AdmissionEpoch n =? selfEpoch)
  else match pins !! uuid with
       | None => false
       | Some pin => bool_decide (cn_ClusterID n = clusterID) && bool_decide (pin_ClusterID pin = clusterID)
                     && negb (cn_AdmissionEpoch n =? 0) && (cn_AdmissionEpoch n =? pin_AdmissionEpoch pin)
       end.

(** The pins without such a row go; stops at the first that cannot. *)
Fixpoint prune_pins (clusterID : string) (l : list (string * TrustedPin)) : M bool :=
  match l with
  | [] => mret true
  | (uuid, pin) :: l =>
      n ← get (memberByNodeID uuid);
      if match n with
         | Some n => bool_decide (cn_ClusterID n = clusterID) && negb (cn_AdmissionEpoch n =? 0)
                     && (cn_AdmissionEpoch n =? pin_AdmissionEpoch pin)
         | None => false
         end
      then prune_pins clusterID l
      else ok ← Remove uuid; if ok : bool then prune_pins clusterID l else mret false
  end.

Definition pruneUnauthenticatedMembers (clusterID : string) (selfEpoch : Z) : M bool :=
  pins ← get (fun m => ts_pins (m_trust m));
  old ← get m_members;
  let kept := map_imap (fun uuid n => if backed clusterID selfEpoch pins uuid n then Some n else None) old in
  modify (set_members kept);;
  ok ← prune_pins clusterID (range pins);
  if negb ok then mret false
  else if negb (Nat.eqb (size kept) (size old)) then bump_clusterGen;; persistMembersErr
  else mret true.

Definition refreshSelfMemberIdentity : M () :=
  changed ← updateMemberIdentity (id_NodeUUID self) (id_NodeID self) (id_Name self);
  when changed persistMembers.

(** [NewManager] on the files of the directory: the result is whether it starts. *)
Definition NewManager : M bool :=
  modify (fun m => set_trust (load_store (m_disk m)) m);;
  ok ← loadAdmission;
  if negb ok then mret false else
  a ← get m_admission;
  let active := negb (bool_decide (ad_ClusterID a = "")) && negb (ad_Epoch a =? 0) in
  when active (modify (set_clusterID (ad_ClusterID a)));;
  when (ad_Retired a) (modify (set_clusterTornDown true));;
  loadMembers;;
  ok ← rollbackIncompleteAdmission;
  if negb ok then mret false else
  ok ← (if active then migrateLegacyAdmissions (ad_ClusterID a) (ad_Epoch a) else mret true);
  if negb ok then mret false else
  ok ← (if active then pruneUnauthenticatedMembers (ad_ClusterID a) (ad_Epoch a) else mret true);
  if negb ok then mret false else
  refreshSelfMemberIdentity;;
  loadTombstones;;
  loadRemovalProofs;;
  loadInviteCreatedCluster;;
  ok ← recoverPendingTeardown;
  if negb ok then mret false else replayRemovalProofs.
End State.
