(* ===== verification/ClusterRoster.v ===== *)
(** What changes the trust and the membership of a node (services/nvpair-cluster-manager:
    roster.go, roster_http.go, addresses.go, remove.go, mtls.go, leave.go, rpc_identity.go
    and the commits of httpserver.go and respond.go).  A handler that releases the roster
    lock to wait for the network is modelled as the steps it takes while it holds it. *)
From S2P Require Import Prelude.
From S2P Require Import GoStd.
From S2P Require Import GoBytes.
From S2P Require Import ClusterAddresses.
From S2P Require Import ClusterTrust.
From S2P Require Import ClusterState.

Open Scope string_scope.
Open Scope list_scope.
Open Scope Z_scope.

(** A loop whose body reports a change; all of it runs. *)
Fixpoint any_change {A} (l : list A) (f : A -> M bool) : M bool :=
  match l with
  | [] => mret false
  | x :: l => c ← f x; c' ← any_change l f; mret (c || c')
  end.

Section Roster.
Context {pki : Pki} {sha : Sha256} {R : MapRange} {W : World} (self : NodeIdentity) (port : Z).

(** * The outbound roster *)

(** [hosts] is what netpick finds on this host. *)
Definition localRosterAddresses (hosts : list string) : list string :=
  take maxPeerAddresses (omap (fun h => candidateEndpoint (JoinHostPort h (Itoa port)) false) hosts).

Definition pin_entry (m : Manager) (pin : TrustedPin) : RosterEntry :=
  mkEntry (pin_NodeUUID pin) (pin_NodeID pin) (pin_Name pin)
    match memberByNodeID (pin_NodeUUID pin) m with
    | Some n => if bool_decide (cn_IPAddress n = "") then "" else JoinHostPort (cn_IPAddress n) (Itoa (cn_Port n))
    | None => ""
    end
    (pin_AdmissionEpoch pin) (pin_CertPem pin) (pin_CertFingerprint pin) (pin_Endorsements pin).

Definition buildLocalRoster (hosts : list string) (m : Manager) : Roster :=
  mkRoster (m_clusterID m)
    (mkEntry (id_NodeUUID self) (id_NodeID self) (id_Name self) "" (currentAdmission m).2 (id_CertPEM self)
       (id_CertFingerprint self) [] :: (pin_entry m <$> List_ m))
    (snapshotTombstones m) (snapshotRemovalProofs m) (localRosterAddresses hosts).

(** * Merging (roster.go) *)

(** One proof: verified, stored, and only then enforced; the result is whether trust or
    membership changed. *)
Definition apply_proof (cid : string) (p : RemovalProof) : M bool :=
  let t := rp_Tombstone p in let u := tb_NodeUUID t in
  ok ← get (verifyRemovalProof self p cid);
  if bool_decide (u = id_NodeUUID self) || negb ok then mret false else
  r ← putRemovalProof self p;
  match r with
  | None => mret false
  | Some _ =>
      _ ← putTombstone t;
      pin ← get (Get u);
      if match pin with Some pin => negb (pin_AdmissionEpoch pin =? tb_AdmissionEpoch t) | None => false end then
        _ ← (match pin with
             | Some pin => if tb_AdmissionEpoch t <? pin_AdmissionEpoch pin
                           then clearRemovalProofAfterAdmission u (pin_AdmissionEpoch pin) else mret true
             | None => mret true
             end);
        mret false
      else
      member ← get (memberByNodeID u);
      if match member with Some n => negb (cn_AdmissionEpoch n =? tb_AdmissionEpoch t) | None => false end then mret false else
      let pinned := bool_decide (pin <> None) in
      ok ← (if pinned then Remove u else mret true);
      if negb ok then mret false else
      removed ← removeMemberByUUID u; mret (pinned || removed)
  end.
Definition applyRemovalProofs (proofs : list RemovalProof) (cid : string) : M bool := any_change proofs (apply_proof cid).

Definition applyTombstones (tombstones : list Tombstone) (cid : string) : M bool :=
  for_each tombstones (fun t =>
    pub ← get (trustedPub self (tb_By t));
    if bool_decide (tb_NodeUUID t = id_NodeUUID self) || negb (bool_decide (tb_SigV2 t = "")) then mret () else
    match pub with
    | Some pub => if verifyTombstone pub cid t then (_ ← putTombstone t; mret ()) else mret ()
    | None => mret ()
    end);;
  mret false.

Definition entryEndorsed (e : RosterEntry) (cid : string) (m : Manager) : bool :=
  if re_AdmissionEpoch e =? 0 then false
  else existsb (vouches self (re_NodeUUID e) (re_CertFingerprint e) cid (re_AdmissionEpoch e) m) (re_Endorsements e).

Definition supersededByTombstone (e : RosterEntry) (m : Manager) : bool :=
  let covered n := (re_AdmissionEpoch e =? 0) || (re_AdmissionEpoch e <=? n) in
  match removalProofFor (re_NodeUUID e) m with
  | Some p => covered (proof_epoch p)
  | None =>
      match tombstoneFor (re_NodeUUID e) m with
      | Some t => if bool_decide (tb_SigV2 t = "") || (tb_AdmissionEpoch t =? 0) then false else covered (tb_AdmissionEpoch t)
      | None => false
      end
  end.

(** The member is recorded before the pin, and put back when either cannot be written. *)
Definition pinEntry (e : RosterEntry) (der senderUUID : string) : M bool :=
  t ← now;
  let '(host, p) := if bool_decide (re_NodeUUID e = senderUUID) then
                      match candidateEndpoint (re_Addr e) false with
                      | Some addr => splitAddr addr port
                      | None => ("", port)
                      end
                    else ("", port) in
  cid ← get m_clusterID;
  previous ← get (memberByNodeID (re_NodeUUID e));
  upsertMember (mkNode (re_NodeID e) (re_NodeUUID e) (re_Name e) host p cid (re_AdmissionEpoch e) stateMember (Some t) None no_addresses);;
  let restoreMember : M () :=
    (match previous with
     | Some n => upsertMember n
     | None => _ ← removeMemberByUUID (re_NodeUUID e); mret ()
     end);;
    _ ← persistMembersErr; mret () in
  ok ← persistMembersErr;
  if negb ok then restoreMember;; mret false else
  cid ← get m_clusterID;
  t ← now;
  ok ← Pin (mkPin (re_NodeUUID e) (re_NodeID e) (re_Name e) cid (re_AdmissionEpoch e) (re_CertPem e)
              (certFingerprintFromDER der) t (re_Endorsements e));
  if ok : bool then mret true else restoreMember;; mret false.

Definition refreshMemberIdentity (e : RosterEntry) : M bool :=
  changed ← updateMemberIdentity (re_NodeUUID e) (re_NodeID e) (re_Name e);
  r ← UpdateIdentity (re_NodeUUID e) (re_NodeID e) (re_Name e);
  mret (changed || default false r).

(** Admits an entry that names no removed admission, carries the certificate it claims and
    is endorsed; the result is whether it was pinned. *)
Definition admit_entry (cid senderUUID : string) (e : RosterEntry) : M bool :=
  sup ← get (supersededByTombstone e);
  if sup : bool then mret false else
  match validateEntryCert e with
  | None => mret false
  | Some der =>
      ok ← get (entryEndorsed e cid);
      if negb ok then mret false else
      ok ← pinEntry e der senderUUID;
      if negb ok then mret false else
      _ ← clearRemovalProofAfterAdmission (re_NodeUUID e) (re_AdmissionEpoch e);
      clearTombstone (re_NodeUUID e);; mret true
  end.

(** The result is whether something changed, and whether an entry was admitted. *)
Definition apply_entry (cid senderUUID : string) (e : RosterEntry) : M (bool * bool) :=
  if bool_decide (re_NodeUUID e = id_NodeUUID self) then mret (false, false) else
  pin ← get (Get (re_NodeUUID e));
  match pin with
  | Some pin =>
      if pin_AdmissionEpoch pin <? re_AdmissionEpoch e then
        p ← admit_entry cid senderUUID e; mret (p, p)
      else
        _ ← AddEndorsements (re_NodeUUID e) (re_Endorsements e);
        c ← (if bool_decide (re_NodeUUID e = senderUUID) then refreshMemberIdentity e else mret false);
        mret (c, false)
  | None => p ← admit_entry cid senderUUID e; mret (p, p)
  end.

Fixpoint members_pass (cid senderUUID : string) (entries : list RosterEntry) : M (bool * bool) :=
  match entries with
  | [] => mret (false, false)
  | e :: entries =>
      r ← apply_entry cid senderUUID e;
      r' ← members_pass cid senderUUID entries;
      mret (r.1 || r'.1, r.2 || r'.2)
  end.

(** The loop of [applyMembers]: passes until one admits nothing. *)
Fixpoint members_loop (fuel : nat) (entries : list RosterEntry) (cid senderUUID : string) (changed : bool) : M bool :=
  match fuel with
  | O => mret changed
  | S fuel =>
      r ← members_pass cid senderUUID entries;
      if r.2 : bool then members_loop fuel entries cid senderUUID (changed || r.1) else mret (changed || r.1)
  end.
Definition applyMembers (entries : list RosterEntry) (cid senderUUID : string) : M bool :=
  members_loop (S (length entries)) entries cid senderUUID false.

Definition mergeRosterLocked (remote : Roster) (senderUUID : string) : M bool :=
  pending ← get m_teardownPending;
  cid ← get m_clusterID;
  if pending || bool_decide (cid = "") || negb (bool_decide (ro_ClusterID remote = cid)) then mret false else
  c1 ← applyRemovalProofs (ro_RemovalProofs remote) cid;
  c2 ← applyTombstones (ro_Tombstones remote) cid;
  c3 ← applyMembers (ro_Members remote) cid senderUUID;
  mret (c1 || c2 || c3).

(** * Address learning and dialling (addresses.go) *)

Definition learnPeerAddressesLocked (uuid observed : string) (reports : list string) (successAddr : string) (t : Z) : M bool :=
  pin ← get (Get uuid);
  pending ← get m_teardownPending;
  members ← get m_members;
  match pin, members !! uuid with
  | Some pin, Some n =>
      if pending || negb (bool_decide (cn_State n = stateMember)) || negb (cn_AdmissionEpoch n =? pin_AdmissionEpoch pin)
         || negb (bool_decide (cn_ClusterID n = pin_ClusterID pin)) then mret false else
      let r := learn_member t port observed reports successAddr n in
      modify (fun m => set_members (<[uuid := r.1]> (m_members m)) m);; mret r.2
  | _, _ => mret false
  end.

(** The endpoints to dial and whether one of them is a reserved probe. *)
Definition limitCandidateDials (uuid : string) (addrs : list string) (t : Z) : M (list string * bool) :=
  members ← get m_members;
  match members !! uuid with
  | None => mret ([], false)
  | Some n =>
      let r := limit_dials t addrs n in
      modify (fun m => set_members (<[uuid := r.1.1]> (m_members m)) m);; mret (r.1.2, r.2)
  end.

Definition reservePeerDialCandidates (uuid : string) (addrs : list string) : M (list string) :=
  t ← now;
  r ← limitCandidateDials uuid addrs t;
  if negb r.2 then mret r.1 else
  ok ← persistMembersErr;
  if ok : bool then mret r.1 else
  t ← now; r ← limitCandidateDials uuid r.1 t; mret r.1.

(** * The roster endpoint (roster_http.go) *)

(** A connection's client certificate: parsed, and its bytes. *)
Definition peer_cert : Type := option (Certificate * string).

(** The principal as the shared package reads it: a URI name that is the bare prefix counts. *)
Definition UUIDFromCert (c : Certificate) : string :=
  match omap (cut_prefix nodeURISANPrefix) (ct_URIs c) with u :: _ => u | [] => ct_CommonName c end.

Definition verifyClientPin (client : peer_cert) (m : Manager) : option string :=
  if m_teardownPending m then None else
  match client with
  | None => None
  | Some (c, der) => let uuid := UUIDFromCert c in
                     if bool_decide (uuid = "") || negb (MatchDER uuid der m) then None else Some uuid
  end.

Record rosterRejection : Type := mkRejection { rr_Tombstones : list Tombstone; rr_RemovalProofs : list RemovalProof }.

(** What names the caller in its certificate: at most one tombstone and one proof. *)
Definition rejectRosterReconcile (client : peer_cert) (m : Manager) : rosterRejection :=
  match client with
  | None => mkRejection [] []
  | Some (c, _) =>
      let uuid := uuidFromCert c in
      if bool_decide (uuid = "") then mkRejection [] [] else
      mkRejection (match tombstoneFor uuid m with Some t => [t] | None => [] end)
        (match List.find (fun p => bool_decide (proof_uuid p = uuid)) (snapshotRemovalProofs m) with
         | Some p => [p] | None => [] end)
  end.

Inductive RosterResponse : Type := RRejected (r : rosterRejection) | RInvalid | RStale | ROk (r : Roster).

(** Before the body is read: who calls, with which pin, in which admission. *)
Definition roster_begin (client : peer_cert) (m : Manager) : option (string * TrustedPin * (string * Z)) :=
  match verifyClientPin client m with
  | None => None
  | Some u => (fun pin => (u, pin, currentAdmission m)) <$> Get u m
  end.

(** After: the same caller in the same admissions, or nothing.  [remote] is [None] when the
    body does not decode; [observed] is the caller's address. *)
Definition roster_end (client : peer_cert) (sender : string) (pin0 : TrustedPin) (a0 : string * Z)
    (remote : option Roster) (observed : string) (hosts : list string) : M RosterResponse :=
  match remote with
  | None => mret RInvalid
  | Some remote =>
      a ← get currentAdmission;
      current ← get (Get sender);
      valid ← get (verifyClientPin client);
      if bool_decide (valid = None)
         || match current with Some pin => negb (pin_AdmissionEpoch pin =? pin_AdmissionEpoch pin0) | None => true end
         || bool_decide (a.1 = "") || negb (bool_decide (a = a0))
      then mret RStale else
      changed ← mergeRosterLocked remote sender;
      learnt ← (if bool_decide (ro_ClusterID remote = a.1)
                then t ← now; learnPeerAddressesLocked sender (hostOnly observed) (ro_SelfAddresses remote) "" t
                else mret false);
      when (learnt || changed) persistMembers;;
      when (learnt || changed) emitNodesChanged;;
      r ← get (buildLocalRoster hosts); mret (ROk r)
  end.

Definition rejectionProvesRemoval (rej : rosterRejection) (relayUUID : string) (m : Manager) : bool :=
  let cid := m_clusterID m in let '(acid, epoch) := currentAdmission m in
  if bool_decide (cid = "") || negb (bool_decide (acid = cid)) || (epoch =? 0) then false else
  existsb (fun p =>
    let t := rp_Tombstone p in
    bool_decide (tb_NodeUUID t = id_NodeUUID self) && (tb_AdmissionEpoch t =? epoch) && verifyRemovalProof self p cid m
    && (bool_decide (tb_By t = relayUUID) || existsb (fun e => bool_decide (en_By e = relayUUID)) (rp_Endorsements p)))
    (rr_RemovalProofs rej).

Inductive reconcileOutcome : Type := reconcileUnreachable | reconcileAccepted | reconcileRejected.
#[local] Instance reconcileOutcome_eq : EqDecision reconcileOutcome.
Proof. solve_decision. Defined.

(** A response: its status, whether its body was read whole, the server's certificate, and
    the body as either of the values it may decode to. *)
Record RosterReply : Type := mkReply {
  rpl_Status : Z; rpl_Read : bool; rpl_ServerDER : option string; rpl_Roster : option Roster; rpl_Rejection : option rosterRejection
}.

(** [reconcileOnce] once the response has come: outcome, proven removal, answered. *)
Definition reconcile_end (peerUUID addr : string) (pin0 : TrustedPin) (a0 : string * Z) (reply : RosterReply)
    : M (reconcileOutcome * bool * bool) :=
  a ← get currentAdmission;
  pin ← get (Get peerUUID);
  pending ← get m_teardownPending;
  matches ← get (fun m => match rpl_ServerDER reply with Some der => MatchDER peerUUID der m | None => false end);
  if match pin with Some pin => negb (pin_AdmissionEpoch pin =? pin_AdmissionEpoch pin0) | None => true end
     || bool_decide (a.1 = "") || negb (bool_decide (a = a0)) || pending || negb matches
  then mret (reconcileUnreachable, false, false)
  else if negb (rpl_Read reply) then mret (reconcileUnreachable, false, true)
  else if rpl_Status reply =? 403 then
    proven ← get (fun m => match rpl_Rejection reply with Some rej => rejectionProvesRemoval rej peerUUID m | None => false end);
    mret (reconcileRejected, proven, true)
  else if negb (rpl_Status reply =? 200) then mret (reconcileUnreachable, false, true)
  else match rpl_Roster reply with
       | None => mret (reconcileAccepted, false, true)
       | Some remote =>
           changed ← mergeRosterLocked remote peerUUID;
           learnt ← (if bool_decide (ro_ClusterID remote = a.1)
                     then t ← now; learnPeerAddressesLocked peerUUID "" (ro_SelfAddresses remote) addr t
                     else mret false);
           when (learnt || changed) emitNodesChanged;;
           mret (reconcileAccepted, false, true)
       end.

(** The peers a pass reconciles with. *)
Definition confirmed_peers (m : Manager) : list ClusterNode :=
  List.filter (fun n => negb (bool_decide (cn_NodeUUID n = id_NodeUUID self)) && bool_decide (cn_State n = stateMember)) (snapshotNodes m).

(** A member and its pin as they were when the peer was asked. *)
Definition same_admitted (clusterID : string) (n : ClusterNode) (m : Manager) : bool :=
  match memberByNodeID (cn_NodeUUID n) m, Get (cn_NodeUUID n) m with
  | Some current, Some pin =>
      bool_decide (cn_ClusterID current = clusterID) && bool_decide (pin_ClusterID pin = clusterID)
      && (cn_AdmissionEpoch current =? cn_AdmissionEpoch n) && (pin_AdmissionEpoch pin =? cn_AdmissionEpoch n)
  | _, _ => false
  end.

Definition removeBareRejectingPeers (clusterID : string) (generation : Z) (peers : list ClusterNode) : M () :=
  ok ← get (fun m => bool_decide (m_clusterID m = clusterID) && (m_clusterGen m =? generation));
  if negb ok then mret () else
  changed ← any_change peers (fun n =>
    ok ← get (same_admitted clusterID n);
    if negb ok then mret false else
    ok ← Remove (cn_NodeUUID n);
    if negb ok then mret false else removeMemberByUUID (cn_NodeUUID n));
  when changed persistMembers;;
  when changed emitNodesChanged.

(** The verdict of [reconcilePeersAndMaybeSelfRemove], from what every peer answered. *)
Definition self_remove_verdict (cid0 : string) (gen0 : Z) (answers : list (ClusterNode * reconcileOutcome * bool)) : M () :=
  let rejected := List.filter (fun a => bool_decide (a.1.2 = reconcileRejected)) answers in
  let proven := List.filter snd rejected in
  let bare := fst ∘ fst <$> List.filter (fun a => negb a.2) rejected in
  when (bool_decide (proven = []) && negb (bool_decide (bare = []))) (removeBareRejectingPeers cid0 gen0 bare);;
  if bool_decide (answers = []) || negb (Nat.eqb (length rejected) (length answers)) || bool_decide (proven = []) then mret () else
  stale ← get (fun m => bool_decide (m_clusterID m = "") || negb (bool_decide (m_clusterID m = cid0)) || negb (m_clusterGen m =? gen0));
  if stale : bool then mret () else
  ok ← teardownClusterLocalLocked;
  if ok : bool then emitIdentityChanged;; emitNodesChanged else mret ().

(** * Removal (remove.go, mtls.go) *)

Inductive Prepared : Type :=
| PNotMember (nodeID : string) | PSelf | PFailed
| PPrepared (node : ClusterNode) (proof : RemovalProof) (cid0 : string) (selfEpoch0 : Z).

(** Until the peer is notified. *)
Definition nodes_remove_begin (nodeID nodeUUID : option string) : M Prepared :=
  by_uuid ← get (fun m => nodeUUID ≫= fun u => memberByNodeID u m);
  by_id ← get (fun m => nodeID ≫= fun u => memberByNodeID u m);
  match (match by_uuid with Some n => Some n | None => by_id end) with
  | None => mret (PNotMember (default "" nodeID))
  | Some node =>
      if bool_decide (cn_NodeUUID node = id_NodeUUID self) then mret PSelf else
      a ← get currentAdmission;
      live ← get m_clusterID;
      pin ← get (Get (cn_NodeUUID node));
      if bool_decide (a.1 = "") || negb (bool_decide (live = a.1)) || (a.2 =? 0)
         || negb (bool_decide (cn_ClusterID node = a.1)) || (cn_AdmissionEpoch node =? 0)
         || match pin with
            | Some pin => negb (bool_decide (pin_ClusterID pin = a.1)) || negb (pin_AdmissionEpoch pin =? cn_AdmissionEpoch node)
            | None => true
            end
      then mret PFailed else
      proof ← newRemovalProof self (cn_NodeUUID node) (cn_AdmissionEpoch node);
      match proof with
      | None => mret PFailed
      | Some proof =>
          r ← putRemovalProof self proof;
          match r with
          | None => mret PFailed
          | Some _ => _ ← putTombstone (rp_Tombstone proof); mret (PPrepared node proof a.1 a.2)
          end
      end
  end.

Inductive Removed : Type := RemovalStale | RemovalFailed | RemovalDone.

Definition nodes_remove_end (node : ClusterNode) (cid0 : string) (selfEpoch0 : Z) : M Removed :=
  a ← get currentAdmission;
  live ← get m_clusterID;
  same ← get (same_admitted cid0 node);
  if negb (bool_decide (a.1 = cid0)) || negb (a.2 =? selfEpoch0) || negb (bool_decide (live = cid0)) || negb same
  then mret RemovalStale else
  ok ← Remove (cn_NodeUUID node);
  if negb ok then mret RemovalFailed else
  _ ← removeMemberByUUID (cn_NodeUUID node);
  emitNodesChanged;; mret RemovalDone.

(** The inbound half: status codes.  [req] is the body, [None] when it does not decode. *)
Definition members_remove_begin (client : peer_cert) (m : Manager) : option (string * string * (string * Z) * Z) :=
  match verifyClientPin client m, client with
  | Some u, Some (_, der) => Some (u, der, currentAdmission m, m_clusterGen m)
  | _, _ => None
  end.
Definition members_remove_end (uuid der : string) (a0 : string * Z) (gen0 : Z) (req : option (string * RemovalProof)) : M Z :=
  match req with
  | None => mret 400
  | Some (claimed, proof) =>
      if negb (bool_decide (claimed = "")) && negb (bool_decide (claimed = uuid)) then mret 400 else
      a ← get currentAdmission;
      gen ← get m_clusterGen;
      matches ← get (MatchDER uuid der);
      if bool_decide (a0.1 = "") || (a0.2 =? 0) || negb (bool_decide (a = a0)) || negb (gen =? gen0) || negb matches
      then mret 409 else
      ok ← get (verifyRemovalProof self proof a0.1);
      if negb (bool_decide (proof_uuid proof = id_NodeUUID self)) || negb (proof_epoch proof =? a0.2)
         || negb (bool_decide (tb_By (rp_Tombstone proof) = uuid)) || negb ok
      then mret 403 else
      ok ← teardownClusterLocalLocked;
      if negb ok then mret 500 else
      emitIdentityChanged;; emitNodesChanged;; mret 200
  end.

(** [leaveCluster] before its notifications go out; [None] is an error, [Some false] that
    there is nothing to leave. *)
Definition leave_begin : M (option bool) :=
  cid ← get m_clusterID;
  if bool_decide (cid = "") then mret (Some false) else
  a ← get currentAdmission;
  e ← (if a.2 =? 0 then ensureAdmission cid else mret (Some a.2));
  match e with
  | None => mret None
  | Some e =>
      proof ← newRemovalProof self (id_NodeUUID self) e;
      match proof with
      | None => mret None
      | Some proof =>
          r ← putRemovalProof self proof;
          match r with
          | None => mret None
          | Some _ => _ ← putTombstone (rp_Tombstone proof); mret (Some true)
          end
      end
  end.

(** * Founding and restoring an identity (rpc_identity.go) *)

Definition addSelfMemberForAdmission (clusterID : string) (epoch : Z) : M () :=
  t ← now;
  upsertMember (mkNode (id_NodeID self) (id_NodeUUID self) (id_Name self) "127.0.0.1" port clusterID epoch
                  stateMember (Some t) None no_addresses).

(** [newID] is the identifier minted; [None] is an error. *)
Definition foundCluster (newID friendly : string) : M (option (string * string)) :=
  r ← reserveAdmissionEpoch;
  match r with
  | None => mret None
  | Some epoch =>
      let name := refreshed friendly (id_Name self) in
      pending ← get m_teardownPending;
      if pending : bool then mret None else
      setClusterIdentity newID name;;
      addSelfMemberForAdmission newID epoch;;
      ok ← persistMembersErr;
      if negb ok then
        _ ← removeMemberByUUID (id_NodeUUID self); setClusterIdentity "" "";; mret None
      else
      ok ← activateAdmission newID epoch;
      if negb ok then
        _ ← removeMemberByUUID (id_NodeUUID self); _ ← persistMembersErr; setClusterIdentity "" "";; mret None
      else emitNodesChanged;; emitIdentityChanged;; mret (Some (newID, name))
  end.

Inductive SetIdentity : Type := SError | SIgnored | SRestored.

(** The composition closure of [handleSetIdentity], for the resolved parameters. *)
Definition set_identity (id friendly : string) : M SetIdentity :=
  cur ← get m_clusterID;
  torn ← get m_clusterTornDown;
  if negb (bool_decide (id = "")) && negb (bool_decide (id = cur)) && torn then mret SIgnored else
  let id := if bool_decide (id = "") && negb (bool_decide (cur = "")) then cur else id in
  if bool_decide (id = "") then setClusterIdentity id friendly;; mret SRestored else
  e ← ensureAdmission id;
  match e with
  | None => mret SError
  | Some epoch =>
      ok ← migrateLegacyAdmissions self id epoch;
      if negb ok then mret SError else
      ok ← pruneUnauthenticatedMembers self id epoch;
      if negb ok then mret SError else
      setClusterIdentity id friendly;; mret SRestored
  end.

(** * Pairing commits (httpserver.go, respond.go, pairing.go) *)

Definition with_pairing_admission (cid : string) (epoch : Z) (p : PairingInfo) : PairingInfo :=
  mkPairingInfo (pi_V p) (pi_NodeUUID p) (pi_NodeID p) (pi_Name p) cid epoch (pi_ClusterFriendlyName p) (pi_Addr p) (pi_Cert p).

(** [parsePairingInfo] on the decoded object, with the DER of its certificate. *)
Definition parsePairingInfo (p : PairingInfo) : option (PairingInfo * string) :=
  if bool_decide (pi_NodeUUID p = "") then None else
  match principal_cert (pi_Cert p) (pi_NodeUUID p) with
  | None => None
  | Some der =>
      if negb (pi_AdmissionEpoch p =? 0) then Some (p, der)
      else if 2 <=? pi_V p then None
      else Some (with_pairing_admission (pi_ClusterID p) legacyAdmissionEpoch p, der)
  end.

Definition recordMember (p : PairingInfo) (st : MembershipState) (joinedAt : option Z) : M () :=
  let '(host, prt) := splitAddr (pi_Addr p) port in
  upsertMember (mkNode (pi_NodeID p) (pi_NodeUUID p) (pi_Name p) host prt (pi_ClusterID p) (pi_AdmissionEpoch p)
                  st joinedAt None no_addresses).

Definition pinPeer (p : PairingInfo) (der : string) (endorsements : list Endorsement) : M bool :=
  t ← now;
  Pin (mkPin (pi_NodeUUID p) (pi_NodeID p) (pi_Name p) (pi_ClusterID p) (pi_AdmissionEpoch p) (pi_Cert p)
         (certFingerprintFromDER der) t endorsements).

Inductive Commit : Type := CommitFailed | CommitStale | CommitDone.

Definition with_peerPairing (p : option PairingInfo) (s : pairingSession) : pairingSession :=
  mkSession (ps_object s) (ps_inviteID s) (ps_role s) (ps_createdAt s) (ps_addr s) (ps_joinerAddr s) (ps_clusterID s)
    p (ps_peerCert s) (ps_localAdmissionEpoch s) (ps_peerSrcIP s) (ps_invitedEmitted s) (ps_awaitingAck s).

(** The session is the one registered under its invite. *)
Definition session_live (s : pairingSession) (m : Manager) : bool :=
  match m_sessions m !! ps_inviteID s with Some cur => Nat.eqb (ps_object cur) (ps_object s) | None => false end.

(** The inviter's commit. *)
Definition commitPairing (sess : pairingSession) (p : PairingInfo) (der : string) (t : Z) : M Commit :=
  pending ← get m_teardownPending;
  cid ← get m_clusterID;
  live ← get (session_live sess);
  blocked ← get (removalProofBlocksAdmission (pi_NodeUUID p) (ps_clusterID sess) (pi_AdmissionEpoch p));
  if pending : bool then mret CommitFailed
  else if bool_decide (cid = "") || negb (bool_decide (cid = ps_clusterID sess)) then mret CommitStale
  else if negb live then mret CommitStale
  else if blocked : bool then mret CommitFailed else
  let admitted := with_pairing_admission (ps_clusterID sess) (pi_AdmissionEpoch p) p in
  e ← endorsePeer self (pi_NodeUUID admitted) (certFingerprintFromDER der) (pi_AdmissionEpoch admitted);
  recordMember admitted stateMember (Some t);;
  ok ← persistMembersErr;
  if negb ok then (_ ← removeMemberByUUID (pi_NodeUUID admitted); mret CommitFailed) else
  ok ← pinPeer admitted der [e];
  if negb ok then (_ ← removeMemberByUUID (pi_NodeUUID admitted); _ ← persistMembersErr; mret CommitFailed) else
  _ ← clearRemovalProofAfterAdmission (pi_NodeUUID admitted) (pi_AdmissionEpoch admitted);
  modify (fun m => set_sessions (alter (with_peerPairing (Some admitted)) (ps_inviteID sess) (m_sessions m)) m);;
  let address := hostOnly (ps_joinerAddr sess) in
  when (negb (bool_decide (address = "")))
    (emit (PairingCompleted address (pi_NodeUUID admitted) (pi_ClusterID admitted) (pi_AdmissionEpoch admitted)));;
  mret CommitDone.

(** The joiner's commit: the closure of [handleRespondToInvite]. *)
Definition adopt_rollback (uuid : string) : M () :=
  ok ← Remove uuid;
  when (negb ok) (Forget uuid);;
  _ ← removeMemberByUUID uuid;
  _ ← removeMemberByUUID (id_NodeUUID self);
  _ ← persistMembersErr;
  setClusterIdentity "" "".

Definition adoptCluster (sess : pairingSession) (inv : Invite) (p : PairingInfo) (der : string) (t : Z) : M bool :=
  pending ← get m_teardownPending;
  blocked ← get (removalProofBlocksAdmission (pi_NodeUUID p) (iv_ClusterID inv) (pi_AdmissionEpoch p));
  if pending || blocked then mret false else
  let admitted := with_pairing_admission (iv_ClusterID inv) (pi_AdmissionEpoch p) p in
  e ← endorsePeerForAdmission self (pi_NodeUUID admitted) (certFingerprintFromDER der) (iv_ClusterID inv)
        (pi_AdmissionEpoch admitted) (ps_localAdmissionEpoch sess);
  recordMember admitted stateMember (Some t);;
  addSelfMemberForAdmission (iv_ClusterID inv) (ps_localAdmissionEpoch sess);;
  ok ← persistMembersErr;
  if negb ok then adopt_rollback (pi_NodeUUID admitted);; mret false else
  ok ← pinPeer admitted der [e];
  if negb ok then adopt_rollback (pi_NodeUUID admitted);; mret false else
  ok ← activateAdmission (iv_ClusterID inv) (ps_localAdmissionEpoch sess);
  if negb ok then adopt_rollback (pi_NodeUUID admitted);; mret false else
  setClusterIdentity (iv_ClusterID inv) (iv_ClusterFriendlyName inv);;
  _ ← clearRemovalProofAfterAdmission (pi_NodeUUID admitted) (pi_AdmissionEpoch admitted);
  mret true.
End Roster.
