(* ===== verification/ClusterLogic.v ===== *)
(** Reasoning about the state transformers of ClusterState: what an operation leaves alone,
    what it guarantees, and the store operations in those terms. *)
From S2P Require Import Prelude.
From S2P Require Import GoStd.
From S2P Require Import GoBytes.
From S2P Require Import ClusterAddresses.
From S2P Require Import ClusterTrust.
From S2P Require Import ClusterState.
From S2P Require Import ClusterRoster.

Open Scope string_scope.
Open Scope list_scope.
Open Scope Z_scope.

(** * Running a computation *)

Lemma run_bind {A B} (x : M A) (k : A -> M B) m : (x ≫= k) m = k (x m).1 (x m).2.
Proof. unfold mbind, M_bind. by destruct (x m). Qed.
Lemma run_ret {A} (a : A) m : (mret a : M A) m = (a, m).
Proof. done. Qed.
Lemma run_get {A} (f : Manager -> A) m : get f m = (f m, m).
Proof. done. Qed.
Lemma run_modify f m : modify f m = ((), f m).
Proof. done. Qed.
Create Rewrite HintDb run.
#[export] Hint Rewrite @run_bind @run_ret @run_get run_modify : run.
Ltac run := repeat progress (autorewrite with run; cbn [fst snd]).

(** * Triples *)

Definition triple {A} (P : Manager -> Prop) (x : M A) (Q : A -> Manager -> Prop) : Prop :=
  forall m, P m -> Q (x m).1 (x m).2.

Section Triples.
Context {A B : Type}.
Implicit Types (P : Manager -> Prop).

Lemma triple_ret P (a : A) (Q : A -> Manager -> Prop) : (forall m, P m -> Q a m) -> triple P (mret a) Q.
Proof. intros H m. apply H. Qed.

Lemma triple_bind P (x : M A) (Q : A -> Manager -> Prop) (k : A -> M B) (T : B -> Manager -> Prop) :
  triple P x Q -> (forall a, triple (Q a) (k a) T) -> triple P (x ≫= k) T.
Proof.
  intros Hx Hk m Hm. specialize (Hx m Hm). unfold mbind, M_bind.
  destruct (x m) as [a m']. exact (Hk a m' Hx).
Qed.

Lemma triple_get P (f : Manager -> A) (Q : A -> Manager -> Prop) : (forall m, P m -> Q (f m) m) -> triple P (get f) Q.
Proof. intros H m. apply H. Qed.

(** The value read is known of the state it was read from. *)
Lemma triple_read P (f : Manager -> A) (k : A -> M B) (T : B -> Manager -> Prop) :
  (forall a, triple (fun m => P m /\ f m = a) (k a) T) -> triple P (get f ≫= k) T.
Proof. intros H m Hm. exact (H (f m) m (conj Hm eq_refl)). Qed.

Lemma triple_modify P f (Q : () -> Manager -> Prop) : (forall m, P m -> Q () (f m)) -> triple P (modify f) Q.
Proof. intros H m. apply H. Qed.

Lemma triple_weaken P P' (x : M A) (Q Q' : A -> Manager -> Prop) :
  triple P' x Q' -> (forall m, P m -> P' m) -> (forall a m, Q' a m -> Q a m) -> triple P x Q.
Proof. intros H HP HQ m Hm. apply HQ, H, HP, Hm. Qed.

Lemma triple_pre P (x : M A) (Q : A -> Manager -> Prop) (F : Prop) :
  (forall m, P m -> F) -> (F -> triple P x Q) -> triple P x Q.
Proof. intros H Hx m Hm. exact (Hx (H m Hm) m Hm). Qed.
End Triples.

(** An invariant of a computation. *)
Definition keeps {A} (P : Manager -> Prop) (x : M A) : Prop := triple P x (fun _ => P).

Lemma keeps_ret {A} P (a : A) : keeps P (mret a).
Proof. by intros m. Qed.
Lemma keeps_get {A} P (f : Manager -> A) : keeps P (get f).
Proof. by intros m. Qed.
Lemma keeps_bind {A B} P (x : M A) (k : A -> M B) : keeps P x -> (forall a, keeps P (k a)) -> keeps P (x ≫= k).
Proof. intros Hx Hk. exact (triple_bind P x (fun _ => P) k (fun _ => P) Hx Hk). Qed.
Lemma keeps_when P b x : keeps P x -> keeps P (when b x).
Proof. intros H. destruct b; [exact H | apply keeps_ret]. Qed.
Lemma keeps_for_each {A} P (l : list A) f : (forall x, keeps P (f x)) -> keeps P (for_each l f).
Proof. intros H. induction l as [|x l IH]; simpl; [apply keeps_ret | by apply keeps_bind]. Qed.
Lemma keeps_any_change {A} P (l : list A) f : (forall x, keeps P (f x)) -> keeps P (any_change l f).
Proof.
  intros H. induction l as [|x l IH]; simpl; [apply keeps_ret |].
  apply keeps_bind; [done |]. intros c. apply keeps_bind; [done |]. intros c'. apply keeps_ret.
Qed.

(** What an operation does not touch: a reading of the state that it leaves unchanged. *)
Definition frame {X A} (f : Manager -> X) (x : M A) : Prop := forall m, f (x m).2 = f m.

Section Frames.
Context {X : Type} (f : Manager -> X).

Lemma frame_ret {A} (a : A) : frame f (mret a).
Proof. by intros m. Qed.
Lemma frame_get {A} (g : Manager -> A) : frame f (get g).
Proof. by intros m. Qed.
Lemma frame_modify g : (forall m, f (g m) = f m) -> frame f (modify g).
Proof. intros H m. apply H. Qed.
Lemma frame_bind {A B} (x : M A) (k : A -> M B) : frame f x -> (forall a, frame f (k a)) -> frame f (x ≫= k).
Proof.
  intros Hx Hk m. specialize (Hx m). unfold mbind, M_bind. destruct (x m) as [a m']. simpl in *.
  by rewrite Hk.
Qed.
Lemma frame_when b x : frame f x -> frame f (when b x).
Proof. intros H. destruct b; [exact H | apply frame_ret]. Qed.
Lemma frame_for_each {A} (l : list A) g : (forall x, frame f (g x)) -> frame f (for_each l g).
Proof. intros H. induction l as [|x l IH]; simpl; [apply frame_ret | by apply frame_bind]. Qed.
Lemma frame_any_change {A} (l : list A) g : (forall x, frame f (g x)) -> frame f (any_change l g).
Proof.
  intros H. induction l as [|x l IH]; simpl; [apply frame_ret |].
  apply frame_bind; [done |]. intros c. apply frame_bind; [done |]. intros c'. apply frame_ret.
Qed.

Lemma frame_keeps {A} (x : M A) (P : X -> Prop) : frame f x -> keeps (fun m => P (f m)) x.
Proof. intros H m Hm. by rewrite H. Qed.
End Frames.

Create HintDb frame.
#[export] Hint Resolve frame_ret frame_get : frame.

(** Walks through a computation, leaving the operations it has no lemma for. *)
Ltac frame_step :=
  first [ solve [eauto with frame]
        | apply frame_modify; solve [intros; reflexivity | intros []; reflexivity]
        | apply frame_when | apply frame_for_each; intros
        | apply frame_any_change; intros
        | apply frame_bind; [| intros]
        | case_match
        | case_bool ].
Ltac framed := repeat frame_step.

(** * The authority of a node *)

(** Everything an authorisation depends on, in memory and on disk. *)
Definition core (m : Manager) :=
  (m_trust m, m_removalProofs m, m_admission m, m_clusterID m, m_teardownPending m,
   d_pins (m_disk m), d_removalProofs (m_disk m), d_admission (m_disk m), d_teardown (m_disk m)).

(** What is left of it when the pins move. *)
Definition standing (m : Manager) :=
  (m_removalProofs m, m_admission m, m_clusterID m, m_teardownPending m,
   d_removalProofs (m_disk m), d_admission (m_disk m), d_teardown (m_disk m)).

(** And when the removal proofs move. *)
Definition identity_of (m : Manager) :=
  (m_admission m, m_clusterID m, m_teardownPending m, d_admission (m_disk m), d_teardown (m_disk m)).

Lemma frame_core_standing {A} (x : M A) : frame core x -> frame standing x.
Proof. intros H m. specialize (H m). unfold core, standing in *. injection H; intros; congruence. Qed.
Lemma frame_standing_identity {A} (x : M A) : frame standing x -> frame identity_of x.
Proof. intros H m. specialize (H m). unfold standing, identity_of in *. injection H; intros; congruence. Qed.
Lemma frame_core_trust {A} (x : M A) : frame core x -> frame m_trust x.
Proof. intros H m. specialize (H m). unfold core in *. injection H; intros; congruence. Qed.
#[export] Hint Resolve frame_core_standing frame_standing_identity : frame.

Section Core.
Context {pki : Pki} {sha : Sha256} {R : MapRange} {W : World} (self : NodeIdentity) (port : Z).

Lemma now_core : frame core now.
Proof. by intros m. Qed.
Hint Resolve now_core : frame.

(** A write of another file. *)
Lemma write_core f :
  (forall d, d_pins (f d) = d_pins d /\ d_removalProofs (f d) = d_removalProofs d /\ d_admission (f d) = d_admission d
             /\ d_teardown (f d) = d_teardown d) -> frame core (write f).
Proof.
  intros H m. unfold write, core. destruct (writes _); simpl; [| done].
  destruct (H (m_disk m)) as (-> & -> & -> & ->). done.
Qed.

Lemma emit_event_core e : frame core (emit e).
Proof. by intros m. Qed.
Hint Resolve emit_event_core : frame.
Lemma announce_core b : frame core (announce b).
Proof. unfold announce. framed. Qed.
Hint Resolve announce_core : frame.
Lemma bump_core : frame core bump_clusterGen.
Proof. by intros m. Qed.
Hint Resolve bump_core : frame.

Lemma upsertMember_core n : frame core (upsertMember n).
Proof. unfold upsertMember. framed. Qed.
Lemma removeMemberByUUID_core u : frame core (removeMemberByUUID u).
Proof. unfold removeMemberByUUID. framed. Qed.
Lemma resetMembership_core : frame core resetMembership.
Proof. unfold resetMembership. framed. Qed.
Lemma updateMemberIdentity_core u i n : frame core (updateMemberIdentity u i n).
Proof. unfold updateMemberIdentity. framed. Qed.
Lemma collect_members_core l : frame core (collect_members l).
Proof. induction l as [|[k n] l IH]; simpl; framed. Qed.
Hint Resolve upsertMember_core removeMemberByUUID_core resetMembership_core updateMemberIdentity_core collect_members_core : frame.

Lemma persistMembersErr_core : frame core persistMembersErr.
Proof. unfold persistMembersErr. framed. by apply write_core. Qed.
Hint Resolve persistMembersErr_core : frame.
Lemma persistMembers_core : frame core persistMembers.
Proof. unfold persistMembers. framed. Qed.
Hint Resolve persistMembers_core : frame.
Lemma emitNodesChanged_core : frame core emitNodesChanged.
Proof. unfold emitNodesChanged. framed. Qed.
Lemma emitIdentityChanged_core : frame core emitIdentityChanged.
Proof. unfold emitIdentityChanged. framed. Qed.
Lemma load_rows_core l : frame core (load_rows l).
Proof. induction l as [|n l IH]; simpl; framed. Qed.
Hint Resolve emitNodesChanged_core emitIdentityChanged_core load_rows_core : frame.
Lemma loadMembers_core : frame core loadMembers.
Proof. unfold loadMembers. framed. Qed.

Lemma commit_tombstones_core v : frame core (commit_tombstones v).
Proof. unfold commit_tombstones, persistTombstonesLocked. framed. by apply write_core. Qed.
Hint Resolve loadMembers_core commit_tombstones_core : frame.
Lemma putTombstone_core t : frame core (putTombstone t).
Proof. unfold putTombstone. framed. Qed.
Lemma clearTombstone_core u : frame core (clearTombstone u).
Proof. unfold clearTombstone. framed. Qed.
Lemma clearAllTombstones_core : frame core clearAllTombstones.
Proof. unfold clearAllTombstones. framed. Qed.
Lemma loadTombstones_core : frame core loadTombstones.
Proof. unfold loadTombstones. framed. Qed.
Hint Resolve putTombstone_core clearTombstone_core clearAllTombstones_core loadTombstones_core : frame.

Lemma remove_file_core {A} (g : Disk -> option A) f :
  (forall d, d_pins (f d) = d_pins d /\ d_removalProofs (f d) = d_removalProofs d /\ d_admission (f d) = d_admission d
             /\ d_teardown (f d) = d_teardown d) -> frame core (remove_file g f).
Proof. intros H m. unfold remove_file. case_match; [| done]. by apply write_core. Qed.
Lemma clearInviteCreatedCluster_core : frame core clearInviteCreatedCluster.
Proof. unfold clearInviteCreatedCluster. framed. by apply remove_file_core. Qed.
Hint Resolve clearInviteCreatedCluster_core : frame.
Lemma setInviteCreatedCluster_core b : frame core (setInviteCreatedCluster b).
Proof. unfold setInviteCreatedCluster. framed. by apply write_core. Qed.
Lemma loadInviteCreatedCluster_core : frame core loadInviteCreatedCluster.
Proof. unfold loadInviteCreatedCluster. framed. Qed.
Hint Resolve setInviteCreatedCluster_core loadInviteCreatedCluster_core : frame.

Lemma newRemovalProof_core u e : frame core (newRemovalProof self u e).
Proof. unfold newRemovalProof. framed. Qed.
Lemma withLocalRelayEndorsement_core p : frame core (withLocalRelayEndorsement self p).
Proof. unfold withLocalRelayEndorsement. framed. Qed.
Lemma endorsePeerForAdmission_core u fp c e s : frame core (endorsePeerForAdmission self u fp c e s).
Proof. unfold endorsePeerForAdmission. framed. Qed.
Hint Resolve newRemovalProof_core withLocalRelayEndorsement_core endorsePeerForAdmission_core : frame.
Lemma endorsePeer_core u fp e : frame core (endorsePeer self u fp e).
Proof. unfold endorsePeer. framed. Qed.
Lemma refreshSelf_core : frame core (refreshSelfMemberIdentity self).
Proof. unfold refreshSelfMemberIdentity. framed. Qed.
Lemma recordMember_core p st j : frame core (recordMember port p st j).
Proof. unfold recordMember. framed. Qed.
Lemma addSelfMember_core c e : frame core (addSelfMemberForAdmission self port c e).
Proof. unfold addSelfMemberForAdmission. framed. Qed.
Lemma learn_core u o r s t : frame core (learnPeerAddressesLocked port u o r s t).
Proof. unfold learnPeerAddressesLocked. framed. Qed.
Lemma limitCandidateDials_core u l t : frame core (limitCandidateDials u l t).
Proof. unfold limitCandidateDials. framed. Qed.
Hint Resolve limitCandidateDials_core : frame.
Lemma reservePeerDialCandidates_core u l : frame core (reservePeerDialCandidates u l).
Proof. unfold reservePeerDialCandidates. framed. Qed.
Lemma applyTombstones_core ts cid : frame core (applyTombstones self ts cid).
Proof. unfold applyTombstones. framed. Qed.
End Core.

#[export] Hint Resolve now_core emit_event_core announce_core bump_core upsertMember_core removeMemberByUUID_core
  resetMembership_core updateMemberIdentity_core collect_members_core persistMembersErr_core persistMembers_core
  emitNodesChanged_core emitIdentityChanged_core load_rows_core loadMembers_core commit_tombstones_core
  putTombstone_core clearTombstone_core clearAllTombstones_core loadTombstones_core clearInviteCreatedCluster_core
  setInviteCreatedCluster_core loadInviteCreatedCluster_core newRemovalProof_core withLocalRelayEndorsement_core
  endorsePeerForAdmission_core endorsePeer_core refreshSelf_core recordMember_core addSelfMember_core learn_core
  limitCandidateDials_core reservePeerDialCandidates_core applyTombstones_core : frame.

(** * The trust store *)

Section Store.
Context {pki : Pki} {sha : Sha256} {R : MapRange} {W : World} (self : NodeIdentity).

(** The three maps agree: a pin is valid under its key, and its certificate and key are
    those held. *)
Definition pin_held (ts : TrustStore) (u : string) : Prop :=
  match ts_pins ts !! u with
  | Some pin => exists der pub, load_pin u pin = Some (pin, der, pub) /\ ts_ders ts !! u = Some der /\ ts_pubs ts !! u = Some pub
  | None => ts_ders ts !! u = None /\ ts_pubs ts !! u = None
  end.
Definition store_ok (ts : TrustStore) : Prop := forall u, pin_held ts u.

Lemma load_pin_spec u pin p der pub :
  load_pin u pin = Some (p, der, pub) <->
  p = pin /\ pin_NodeUUID pin = u /\ pinFilename u = true /\ principal_cert (pin_CertPem pin) u = Some der /\ pubFromDER der = Some pub.
Proof.
  unfold load_pin, validatePin. destruct (pinFilename u); simpl; [| naive_solver].
  destruct (bool_decide (pin_NodeUUID pin = u)) eqn:E; simpl; unbool; [| naive_solver].
  destruct (principal_cert _ _) as [d|]; [| naive_solver]. destruct (pubFromDER d) as [k|] eqn:Ek; [| naive_solver].
  split; [intros [= -> -> ->]; by auto | intros (-> & _ & _ & [= ->] & Hk)]. rewrite Ek in Hk. by injection Hk as ->.
Qed.

Lemma store_pin ts u pin : store_ok ts -> ts_pins ts !! u = Some pin ->
  exists der pub, load_pin u pin = Some (pin, der, pub) /\ ts_ders ts !! u = Some der /\ ts_pubs ts !! u = Some pub.
Proof. intros H Hp. specialize (H u). unfold pin_held in H. by rewrite Hp in H. Qed.

Lemma store_key ts u pin : store_ok ts -> ts_pins ts !! u = Some pin -> pin_NodeUUID pin = u.
Proof. intros H Hp. destruct (store_pin ts u pin H Hp) as (d & k & Hl & _). by apply load_pin_spec in Hl as (_ & -> & _). Qed.

Lemma store_absent ts u : store_ok ts -> ts_pins ts !! u = None -> ts_ders ts !! u = None /\ ts_pubs ts !! u = None.
Proof. intros H Hp. specialize (H u). unfold pin_held in H. by rewrite Hp in H. Qed.

Lemma store_der_pin ts u der : store_ok ts -> ts_ders ts !! u = Some der ->
  exists pin, ts_pins ts !! u = Some pin /\ load_pin u pin <> None /\ principal_cert (pin_CertPem pin) u = Some der /\ pinFilename u = true.
Proof.
  intros H Hd. destruct (ts_pins ts !! u) as [pin|] eqn:E.
  - destruct (store_pin ts u pin H E) as (d & k & Hl & Hd' & _). rewrite Hd in Hd'. injection Hd' as <-.
    exists pin. pose proof Hl as Hl'. apply load_pin_spec in Hl' as (_ & _ & ? & ? & _). split_and!; [done | by rewrite Hl | done | done].
  - destruct (store_absent ts u H E) as [E' _]. by rewrite Hd in E'.
Qed.

(** Replacing a pin by one with the same key and certificate, and opening a new one. *)
Lemma store_ok_replace ts pin u der pub :
  store_ok ts -> load_pin u pin = Some (pin, der, pub) -> ts_ders ts !! u = Some der -> ts_pubs ts !! u = Some pub ->
  store_ok (mkTrustStore (<[u := pin]> (ts_pins ts)) (ts_ders ts) (ts_pubs ts)).
Proof.
  intros H Hl Hd Hk v. unfold pin_held. simpl. destruct (decide (v = u)) as [-> | Hne].
  - rewrite lookup_insert_eq. by exists der, pub.
  - rewrite lookup_insert_ne by done. exact (H v).
Qed.

Lemma store_ok_new ts pin u der pub :
  store_ok ts -> load_pin u pin = Some (pin, der, pub) ->
  store_ok (mkTrustStore (<[u := pin]> (ts_pins ts)) (<[u := der]> (ts_ders ts)) (<[u := pub]> (ts_pubs ts))).
Proof.
  intros H Hl v. unfold pin_held. simpl. destruct (decide (v = u)) as [-> | Hne].
  - rewrite !lookup_insert_eq. by exists der, pub.
  - rewrite !lookup_insert_ne by done. exact (H v).
Qed.

Lemma store_ok_drop ts u :
  store_ok ts -> store_ok (mkTrustStore (delete u (ts_pins ts)) (delete u (ts_ders ts)) (delete u (ts_pubs ts))).
Proof.
  intros H v. unfold pin_held. simpl. destruct (decide (v = u)) as [-> | Hne].
  - by rewrite !lookup_delete_eq.
  - rewrite !lookup_delete_ne by done. exact (H v).
Qed.

(** What is loaded from a directory is such a store. *)
Lemma load_store_ok d : store_ok (load_store d).
Proof.
  intros u. unfold pin_held, load_store. simpl. rewrite !lookup_fmap, map_lookup_imap.
  destruct (d_pins d !! u) as [pin|]; simpl; [| done].
  destruct (load_pin u pin) as [[[p der] pub]|] eqn:E; simpl; [| done].
  pose proof E as E'. apply load_pin_spec in E' as (-> & _). by exists der, pub.
Qed.

Definition files (m : Manager) : gmap string TrustedPin := d_pins (m_disk m).
Definition pins (m : Manager) : gmap string TrustedPin := ts_pins (m_trust m).

(** ** Writing a pin *)

Lemma write_result f m :
  (write f m).1 = true /\ m_disk (write f m).2 = f (m_disk m) \/ (write f m).1 = false /\ m_disk (write f m).2 = m_disk m.
Proof. unfold write. destruct (writes _); simpl; auto. Qed.
Lemma write_memory f m :
  m_trust (write f m).2 = m_trust m /\ m_removalProofs (write f m).2 = m_removalProofs m /\ m_admission (write f m).2 = m_admission m
  /\ m_clusterID (write f m).2 = m_clusterID m /\ m_teardownPending (write f m).2 = m_teardownPending m.
Proof. unfold write. by destruct (writes _). Qed.

Definition pin_written (pin : TrustedPin) (ok : bool) (m m' : Manager) : Prop :=
  standing m' = standing m /\
  if ok then pinFilename (pin_NodeUUID pin) = true
             /\ m_trust m' = mkTrustStore (<[pin_NodeUUID pin := pin]> (pins m)) (ts_ders (m_trust m)) (ts_pubs (m_trust m))
             /\ files m' = <[pin_NodeUUID pin := pin]> (files m)
  else m_trust m' = m_trust m /\ files m' = files m.

Lemma writePin_spec pin m : pin_written pin (writePinLocked pin m).1 m (writePinLocked pin m).2.
Proof.
  unfold writePinLocked. destruct (pinFilename _) eqn:E; [| by split].
  unfold mbind, M_bind, mret, M_ret, when, modify, pin_written, standing, files, pins, write.
  destruct (writes _); simpl; by rewrite ?E.
Qed.

(** ** Amending a pin *)

Definition epochs (m : Manager) : gmap string Z := pin_AdmissionEpoch <$> pins m.
Definition ders (m : Manager) : gmap string string := ts_ders (m_trust m).
Definition pubs (m : Manager) : gmap string string := ts_pubs (m_trust m).

(** Who is trusted, in which admission, with which certificate; and the rest of [standing]. *)
Definition authority (m : Manager) := (epochs m, ders m, pubs m, standing m).

(** A change that leaves the authority alone and writes only the files of pinned peers. *)
Definition amends (m m' : Manager) : Prop :=
  store_ok (m_trust m) ->
  store_ok (m_trust m') /\ authority m' = authority m /\ (forall u, epochs m !! u = None -> files m' !! u = files m !! u).

Lemma amends_refl m : amends m m.
Proof. by intros H. Qed.
Lemma amends_trans m1 m2 m3 : amends m1 m2 -> amends m2 m3 -> amends m1 m3.
Proof.
  intros H12 H23 H. destruct (H12 H) as (H2 & E2 & F2), (H23 H2) as (H3 & E3 & F3). split_and!; [done | by rewrite E3 |].
  intros u Hu. rewrite F3, F2; [done | done |]. assert (epochs m2 = epochs m1) as -> by (unfold authority in E2; congruence). done.
Qed.
Lemma core_amends m m' : core m' = core m -> amends m m'.
Proof.
  intros E H. unfold core in E. injection E as Et Ep Ea Ec Ed Ef Edp Eda Edt.
  unfold authority, epochs, ders, pubs, pins, files, standing. rewrite Et, Ep, Ea, Ec, Ed, Ef, Edp, Eda, Edt. by split_and!.
Qed.

Lemma replace_amends u cur pin ok m m' :
  pins m !! u = Some cur -> pin_NodeUUID pin = pin_NodeUUID cur -> pin_CertPem pin = pin_CertPem cur ->
  pin_AdmissionEpoch pin = pin_AdmissionEpoch cur -> pin_written pin ok m m' -> amends m m'.
Proof.
  intros Hp Hu Hc He [Hs Hw] Hok. destruct ok.
  - destruct Hw as (Hf & Ht & Hfs). pose proof (store_key _ u cur Hok Hp) as Hk. rewrite Hu, Hk in *.
    destruct (store_pin _ u cur Hok Hp) as (der & pub & Hl & Hd & Hb).
    assert (load_pin u pin = Some (pin, der, pub)) as Hl'.
    { apply load_pin_spec in Hl as (_ & _ & ? & ? & ?). apply load_pin_spec. rewrite Hc, Hu. by split_and!. }
    split_and!.
    + rewrite Ht. by apply (store_ok_replace _ pin u der pub).
    + unfold authority, epochs, ders, pubs, pins in *. rewrite Hs, Ht. simpl. rewrite fmap_insert, He.
      rewrite insert_id; [done |]. by rewrite lookup_fmap, Hp.
    + intros v Hv. rewrite Hfs, lookup_insert_ne; [done |]. intros ->. unfold epochs in Hv. by rewrite lookup_fmap, Hp in Hv.
  - destruct Hw as [Ht Hfs]. unfold authority, epochs, ders, pubs, pins. rewrite Hs, Ht, Hfs. by split_and!.
Qed.

(** [writePinLocked] followed by announcing. *)
Lemma announced_amends b m : amends m (announce b m).2.
Proof. apply core_amends, announce_core. Qed.

Lemma mergeEndorsements_amends u es m : amends m (mergeEndorsementsLocked u es m).2.
Proof.
  unfold mergeEndorsementsLocked. run.
  change (ts_pins (m_trust m)) with (pins m). destruct (pins m !! u) as [cur|] eqn:E; [| apply amends_refl].
  case_bool; [apply amends_refl |]. run.
  eapply replace_amends; [exact E | | | | apply writePin_spec]; done.
Qed.

Lemma AddEndorsements_amends u es m : amends m (AddEndorsements u es m).2.
Proof.
  unfold AddEndorsements. run.
  eapply amends_trans; [apply mergeEndorsements_amends | apply announced_amends].
Qed.

Lemma UpdateIdentity_amends u i n m : amends m (UpdateIdentity u i n m).2.
Proof.
  unfold UpdateIdentity. run.
  change (ts_pins (m_trust m)) with (pins m). destruct (pins m !! u) as [cur|] eqn:E; [| apply amends_refl].
  case_bool; [apply amends_refl |]. run.
  eapply amends_trans; [| apply announced_amends]. eapply replace_amends; [exact E | | | | apply writePin_spec]; done.
Qed.

(** ** Pinning *)

(** A peer newly trusted, or trusted in a later admission under the same certificate. *)
Definition pinned_at (pin : TrustedPin) (m m' : Manager) : Prop :=
  let u := pin_NodeUUID pin in
  exists der pub, validatePin pin u = Some der /\ pubFromDER der = Some pub /\
    epochs m' = <[u := pin_AdmissionEpoch pin]> (epochs m) /\ ders m' = <[u := der]> (ders m) /\ pubs m' = <[u := pub]> (pubs m) /\
    (forall v, v <> u -> files m' !! v = files m !! v) /\
    match epochs m !! u with
    | Some e => e < pin_AdmissionEpoch pin /\ ders m !! u = Some der
    | None => True
    end.

(** The write of a later admission of a pinned peer, and that of a new peer. *)
Lemma later_pinned pin cur der pub ok m m1 pin' :
  store_ok (m_trust m) -> validatePin pin (pin_NodeUUID pin) = Some der -> pubFromDER der = Some pub ->
  pins m !! pin_NodeUUID pin = Some cur -> ders m !! pin_NodeUUID pin = Some der ->
  pin_AdmissionEpoch cur < pin_AdmissionEpoch pin -> (exists l, pin' = with_endorsements l pin) ->
  pin_written pin' ok m m1 ->
  store_ok (m_trust m1) /\ standing m1 = standing m /\ if ok then pinned_at pin m m1 else amends m m1.
Proof.
  intros Hok Hv Hk Hc Hd Hlt [l ->] [Hs Hw].
  destruct (store_pin _ _ _ Hok Hc) as (d & k & Hcl & Hd' & Hk').
  change (ts_ders (m_trust m)) with (ders m) in Hd'. rewrite Hd in Hd'. injection Hd' as <-.
  assert (k = pub) as -> by (apply load_pin_spec in Hcl as (_ & _ & _ & _ & Hk2); congruence).
  destruct ok; simpl in Hw.
  - destruct Hw as (Hf & Ht & Hfs).
    assert (load_pin (pin_NodeUUID pin) (with_endorsements l pin) = Some (with_endorsements l pin, der, pub)) as Hl.
    { unfold load_pin. change (validatePin (with_endorsements l pin) (pin_NodeUUID pin)) with (validatePin pin (pin_NodeUUID pin)).
      by rewrite Hv, Hk. }
    split_and!; [rewrite Ht; by apply (store_ok_replace _ _ _ der pub) | done |].
    exists der, pub. unfold epochs, ders, pubs, pins, files in *. rewrite Ht. simpl.
    rewrite fmap_insert, lookup_fmap, Hc, Hfs, (insert_id (ts_ders (m_trust m)) _ der Hd), (insert_id (ts_pubs (m_trust m)) _ pub Hk').
    split_and!; try done.
    intros v Hne. by rewrite lookup_insert_ne.
  - destruct Hw as [Ht Hfs]. split_and!; [by rewrite Ht | done |].
    intros _. unfold authority, epochs, ders, pubs, pins. rewrite Hs, Ht, Hfs. by split_and!.
Qed.

Lemma newly_pinned pin der pub m m1 m2 :
  store_ok (m_trust m) -> validatePin pin (pin_NodeUUID pin) = Some der -> pubFromDER der = Some pub ->
  ders m !! pin_NodeUUID pin = None -> pin_written pin true m m1 ->
  core m2 = core (set_store_cert (pin_NodeUUID pin) der pub m1) ->
  store_ok (m_trust m2) /\ standing m2 = standing m /\ pinned_at pin m m2.
Proof.
  intros Hok Hv Hk Hd [Hs Hw] Hc. destruct Hw as (Hf & Ht & Hfs).
  assert (load_pin (pin_NodeUUID pin) pin = Some (pin, der, pub)) as Hl by (unfold load_pin; by rewrite Hv, Hk).
  assert (m_trust m2 = mkTrustStore (<[pin_NodeUUID pin := pin]> (pins m)) (<[pin_NodeUUID pin := der]> (ders m))
            (<[pin_NodeUUID pin := pub]> (pubs m))) as Ht2.
  { transitivity (m_trust (set_store_cert (pin_NodeUUID pin) der pub m1)); [unfold core in Hc; congruence |].
    unfold set_store_cert. simpl. by rewrite Ht. }
  split_and!.
  - rewrite Ht2. by apply store_ok_new.
  - unfold core, standing in *. simpl in Hc. congruence.
  - exists der, pub. unfold epochs, pins. unfold ders at 1, pubs at 1. rewrite Ht2. simpl.
    rewrite fmap_insert. split_and!; try done.
    + intros v Hne. unfold files in *. assert (d_pins (m_disk m2) = d_pins (m_disk m1)) as -> by (unfold core in Hc; simpl in Hc; congruence).
      rewrite Hfs. by rewrite lookup_insert_ne.
    + rewrite lookup_fmap. destruct (ts_pins (m_trust m) !! pin_NodeUUID pin) as [cur|] eqn:Ec; [| done].
      destruct (store_pin _ _ _ Hok Ec) as (d & k & _ & Hd' & _). unfold ders in Hd. congruence.
Qed.

Definition pin_result (pin : TrustedPin) (m : Manager) (r : bool * Manager) : Prop :=
  store_ok (m_trust r.2) /\ standing r.2 = standing m /\
  (amends m r.2 /\ (r.1 = true -> exists e, epochs m !! pin_NodeUUID pin = Some e /\ pin_AdmissionEpoch pin <= e)
   \/ r.1 = true /\ pinned_at pin m r.2).

Lemma pin_unchanged pin m : store_ok (m_trust m) -> pin_result pin m (false, m).
Proof. intros Hok. split_and!; [done | done | left; by split; [apply amends_refl |]]. Qed.

Lemma pinned_at_core pin m m1 m2 : core m2 = core m1 -> pinned_at pin m m1 -> pinned_at pin m m2.
Proof.
  intros Hc (der & pub & H). exists der, pub. unfold epochs, ders, pubs, pins, files in *.
  assert (m_trust m2 = m_trust m1) as -> by (unfold core in Hc; congruence).
  by assert (d_pins (m_disk m2) = d_pins (m_disk m1)) as -> by (unfold core in Hc; congruence).
Qed.

Lemma Pin_spec pin m : store_ok (m_trust m) -> pin_result pin m (Pin pin m).
Proof.
  intros Hok. unfold Pin. destruct (validatePin pin (pin_NodeUUID pin)) as [der|] eqn:Ev; [| by apply pin_unchanged].
  destruct (pubFromDER der) as [pub|] eqn:Ek; [| by apply pin_unchanged]. rewrite run_bind, run_get. cbn [fst snd].
  change (ts_ders (m_trust m)) with (ders m). change (ts_pins (m_trust m)) with (pins m).
  destruct (ders m !! pin_NodeUUID pin) as [existing|] eqn:Ed.
  - destruct (store_der_pin _ _ _ Hok Ed) as (cur & Hc & _ & _ & _). change (ts_pins (m_trust m)) with (pins m) in Hc.
    destruct (bool_decide (existing = der)) eqn:Eq; cbn [negb]; [| by apply pin_unchanged].
    apply bool_decide_eq_true in Eq as ->. rewrite Hc.
    assert (epochs m !! pin_NodeUUID pin = Some (pin_AdmissionEpoch cur)) as He by (unfold epochs; by rewrite lookup_fmap, Hc).
    destruct (pin_AdmissionEpoch cur <? pin_AdmissionEpoch pin) eqn:E1; [| destruct (pin_AdmissionEpoch pin <? pin_AdmissionEpoch cur) eqn:E2];
      unbool; run; unfold pin_result; cbn [fst snd].
    + set (pin' := with_endorsements _ pin).
      destruct (later_pinned pin cur der pub _ m _ pin' Hok Ev Ek Hc Ed E1 ltac:(by eexists) (writePin_spec pin' m)) as (H1 & H2 & H3).
      pose proof (announce_core (writePinLocked pin' m).1 (writePinLocked pin' m).2) as Hn.
      split_and!; [| |].
      * by assert (m_trust (announce (writePinLocked pin' m).1 (writePinLocked pin' m).2).2 = m_trust (writePinLocked pin' m).2) as ->
          by (unfold core in Hn; congruence).
      * rewrite <- H2. unfold core, standing in *. congruence.
      * destruct (writePinLocked pin' m).1; [right; split; [done | by eapply pinned_at_core]
        | left; split; [by eapply amends_trans; [| apply announced_amends] | done]].
    + split_and!; [done | done |]. left. split; [apply amends_refl |]. intros _. eexists. split; [done | lia].
    + assert (amends m (announce (default false (mergeEndorsementsLocked (pin_NodeUUID pin) (pin_Endorsements pin) m).1)
                    (mergeEndorsementsLocked (pin_NodeUUID pin) (pin_Endorsements pin) m).2).2) as Hab.
      { eapply amends_trans; [apply mergeEndorsements_amends | apply announced_amends]. }
      destruct (Hab Hok) as (Hok' & Hau & _).
      split_and!; [done | unfold authority in Hau; congruence |]. left. split; [done |].
      intros _. eexists. split; [done | lia].
  - rewrite run_bind. pose proof (writePin_spec pin m) as Hw. destruct (writePinLocked pin m) as [[|] m1]; cbn [fst snd] in *; run.
    + destruct (newly_pinned pin der pub m m1 (announce true (set_store_cert (pin_NodeUUID pin) der pub m1)).2 Hok Ev Ek Ed Hw)
        as (H1 & H2 & H3); [apply announce_core |]. split_and!; [done | done | by right].
    + destruct Hw as [Hs [Ht Hfs]]. split_and!; [by simpl; rewrite Ht | done |]. left. split; [| done].
      intros _. unfold authority, epochs, ders, pubs, pins. cbn [snd]. rewrite Hs, Ht, Hfs. by split_and!.
Qed.
End Store.

(** * Removing pins and writing proofs *)

Section Records.
Context {pki : Pki} {sha : Sha256} {R : MapRange} {W : World} (self : NodeIdentity) (port : Z).

Definition proofs (m : Manager) : gmap string RemovalProof := m_removalProofs m.
Definition proof_file (m : Manager) : list RemovalProof := d_removalProofs (m_disk m).

(** Everything of [core] but the proofs. *)
Definition base (m : Manager) := (m_trust m, files m, identity_of m).

Lemma core_parts m m' : core m' = core m -> base m' = base m /\ proofs m' = proofs m /\ proof_file m' = proof_file m.
Proof.
  unfold core, base, files, identity_of, proofs, proof_file. intros E. split_and!; congruence.
Qed.
Lemma standing_parts m m' : standing m' = standing m ->
  proofs m' = proofs m /\ proof_file m' = proof_file m /\ identity_of m' = identity_of m.
Proof. unfold standing, identity_of, proofs, proof_file. intros E. split_and!; congruence. Qed.
Lemma base_views m m' : base m' = base m ->
  m_trust m' = m_trust m /\ identity_of m' = identity_of m /\ epochs m' = epochs m /\ ders m' = ders m /\ pubs m' = pubs m /\ files m' = files m.
Proof.
  unfold base, epochs, ders, pubs, pins. intros E. assert (m_trust m' = m_trust m) as -> by congruence.
  split_and!; congruence.
Qed.

Definition removed_pin (u : string) (ok : bool) (m m' : Manager) : Prop :=
  standing m' = standing m /\
  if ok then m_trust m' = m_trust (drop_store_pin u m) /\ files m' = delete u (files m)
  else m_trust m' = m_trust m /\ files m' = files m.

Lemma Remove_spec u m : removed_pin u (Remove u m).1 m (Remove u m).2.
Proof.
  unfold Remove. destruct (pinFilename u); cbn [negb]; [| by split].
  rewrite run_bind. set (w := remove_file _ _ m).
  assert (standing w.2 = standing m /\ m_trust w.2 = m_trust m /\
          (w.1 = true /\ files w.2 = delete u (files m) \/ w.1 = false /\ files w.2 = files m)) as (Hs & Ht & Hw).
  { subst w. unfold remove_file, write. case_match eqn:E; [destruct (writes _); simpl; auto |].
    split_and!; [done | done |]. left. split; [done |]. unfold files in *. by rewrite delete_id. }
  destruct w as [[|] m1]; simpl in Hs, Ht, Hw; cbn [fst snd]; [| destruct Hw as [[? ?] | [_ Hf]]; [done | by split_and!]].
  destruct Hw as [[_ Hf] | [? _]]; [| done]. run.
  pose proof (announce_core (held u m1) (drop_store_pin u m1)) as Hc.
  set (m2 := (announce _ _).2) in *. clearbody m2.
  assert (standing m2 = standing m1) as E2 by (unfold core, standing in *; simpl in Hc; congruence).
  apply core_parts in Hc as (Hb & _). apply base_views in Hb as (E & _ & _ & _ & _ & F).
  unfold removed_pin. cbn [fst snd]. split_and!.
  - congruence.
  - rewrite E. unfold drop_store_pin. simpl. by rewrite Ht.
  - rewrite F. exact Hf.
Qed.

Definition written_proofs (v : gmap string RemovalProof) (ok : bool) (m m' : Manager) : Prop :=
  base m' = base m /\
  if ok then proofs m' = v /\ proof_file m' = sort_by rp_before (range v).*2
  else proofs m' = proofs m /\ proof_file m' = proof_file m.

Lemma commit_proofs_spec v m : written_proofs v (commit_proofs v m).1 m (commit_proofs v m).2.
Proof. unfold commit_proofs, persistRemovalProofsLocked, write. run. by destruct (writes _). Qed.

(** A proof is dropped only for a later admission. *)
Definition cleared (u : string) (e : Z) (m m' : Manager) : Prop :=
  proofs m' = proofs m /\ proof_file m' = proof_file m
  \/ exists p, proofs m !! u = Some p /\ proof_epoch p < e /\
       proofs m' = delete u (proofs m) /\ proof_file m' = sort_by rp_before (range (proofs m')).*2.

Lemma clear_spec u e m :
  let m' := (clearRemovalProofAfterAdmission u e m).2 in base m' = base m /\ cleared u e m m'.
Proof.
  unfold clearRemovalProofAfterAdmission. run. change (m_removalProofs m) with (proofs m).
  destruct (proofs m !! u) as [p|] eqn:E; [| by split; [| left]].
  destruct (Z.leb_spec e (proof_epoch p)); [by split; [| left] |].
  destruct (commit_proofs_spec (delete u (proofs m)) m) as [Hb H2]. split; [done |].
  destruct (commit_proofs _ m).1; [right | by left]. exists p. destruct H2 as [H2 H3]. by rewrite H2.
Qed.

Lemma withLocalRelay_fields p m :
  let q := (withLocalRelayEndorsement self p m).1 in rp_Tombstone q = rp_Tombstone p /\ core (withLocalRelayEndorsement self p m).2 = core m.
Proof.
  split; [| apply withLocalRelayEndorsement_core].
  unfold withLocalRelayEndorsement. run. case_bool; [done |]. case_bool; [done |]. by run.
Qed.

(** What is stored for a target is of the admission given and no earlier than what was
    held; the target is pinned in exactly that admission. *)
Definition stored (p : RemovalProof) (m : Manager) (r : option bool) (m' : Manager) : Prop :=
  base m' = base m /\
  match r with
  | Some true => exists q, rp_Tombstone q = rp_Tombstone p /\ targetAdmissionAuthenticated self (proof_uuid p) (proof_epoch p) m = true /\
                           (forall c, proofs m !! proof_uuid p = Some c -> proof_epoch c <= proof_epoch p) /\
                           proofs m' = <[proof_uuid p := q]> (proofs m) /\ proof_file m' = sort_by rp_before (range (proofs m')).*2
  | Some false => proofs m' = proofs m /\ proof_file m' = proof_file m
                  /\ exists c, proofs m !! proof_uuid p = Some c /\ proof_epoch p <= proof_epoch c
  | None => proofs m' = proofs m /\ proof_file m' = proof_file m
  end.

Lemma targetAuth_core u e m m' : core m' = core m -> targetAdmissionAuthenticated self u e m' = targetAdmissionAuthenticated self u e m.
Proof.
  unfold targetAdmissionAuthenticated, currentAdmission, Get. intros Hc.
  assert (m_trust m' = m_trust m /\ m_admission m' = m_admission m) as [-> ->] by (unfold core in Hc; split; congruence). done.
Qed.

Lemma putRemovalProof_spec p m : stored p m (putRemovalProof self p m).1 (putRemovalProof self p m).2.
Proof.
  unfold putRemovalProof. case_bool; [by split_and! |]. rewrite run_bind.
  pose proof (withLocalRelay_fields p m) as [Ht Hc]. set (w := withLocalRelayEndorsement self p m) in *.
  destruct w as [p1 m1]. cbn [fst snd] in *. pose proof Hc as Hc'. apply core_parts in Hc as (Hb & Hp & Hf).
  assert (proof_uuid p1 = proof_uuid p) as Eu by (unfold proof_uuid; by rewrite Ht).
  assert (proof_epoch p1 = proof_epoch p) as Ee by (unfold proof_epoch; by rewrite Ht).
  rewrite run_bind, run_get. cbn [fst snd]. change (m_removalProofs m1) with (proofs m1). rewrite Hp, Eu.
  destruct (proofs m !! proof_uuid p) as [c|] eqn:Ec.
  - rewrite Ee. destruct (Z.ltb_spec (proof_epoch p) (proof_epoch c)).
    { split; [done |]. cbn [fst snd]. split_and!; [done.. |]. exists c. split; [done | lia]. }
    set (q := if proof_epoch c =? proof_epoch p then with_proof_endorsements _ _ else p1). assert (rp_Tombstone q = rp_Tombstone p) as Hq by (subst q; by case_match).
    assert (proof_uuid q = proof_uuid p) as Hqu by (unfold proof_uuid; by rewrite Hq).
    assert (proof_epoch q = proof_epoch p) as Hqe by (unfold proof_epoch; by rewrite Hq). rewrite Hqu, Hqe.
    clearbody q. destruct (_ && _) eqn:Eq; unbool; [split; [done |]; cbn [fst snd]; split_and!; [done.. |]; exists c; split; [done | lia] |].
    rewrite run_bind, run_get. cbn [fst snd]. rewrite (targetAuth_core _ _ _ _ Hc').
    destruct (targetAdmissionAuthenticated _ _ _ _) eqn:Ea; cbn [negb]; [| by split_and!].
    run. destruct (commit_proofs_spec (<[proof_uuid p := q]> (proofs m)) m1) as [Hb2 H2].
    destruct (commit_proofs _ m1) as [[|] m2]; cbn [fst snd] in *; (split; [congruence |]); destruct H2 as [H2 H3].
    + exists q. split_and!; [done | done | | done | by rewrite H2].
      intros c' Hc2. assert (c' = c) as -> by congruence. lia.
    + split; congruence.
  - cbn [andb]. rewrite Eu, Ee. rewrite run_bind, run_get. cbn [fst snd]. rewrite (targetAuth_core _ _ _ _ Hc').
    destruct (targetAdmissionAuthenticated _ _ _ _) eqn:Ea; cbn [negb]; [| by split_and!].
    run. destruct (commit_proofs_spec (<[proof_uuid p := p1]> (proofs m)) m1) as [Hb2 H2].
    destruct (commit_proofs _ m1) as [[|] m2]; cbn [fst snd] in *; (split; [congruence |]); destruct H2 as [H2 H3].
    + exists p1. split_and!; [done | done | | done | by rewrite H2]. intros c' Hc2. congruence.
    + split; congruence.
Qed.
End Records.
