(* ===== verification/ClusterSafety.v ===== *)
(** What merging a roster does to the trust of a node: every pin it leaves is vouched for
    (services/nvpair-cluster-manager/roster.go). *)
From S2P Require Import Prelude.
From S2P Require Import GoStd.
From S2P Require Import GoBytes.
From S2P Require Import ClusterAddresses.
From S2P Require Import ClusterTrust.
From S2P Require Import ClusterState.
From S2P Require Import ClusterRoster.
From S2P Require Import ClusterLogic.

Open Scope string_scope.
Open Scope list_scope.
Open Scope Z_scope.

(** A step that leaves the authority alone keeps what is known of it. *)
Lemma triple_core_bind {A B} c (x : M A) (k : A -> M B) T :
  frame core x -> (forall a, triple (fun m => core m = c) (k a) T) -> triple (fun m => core m = c) (x ≫= k) T.
Proof. intros Hx Hk m <-. rewrite run_bind. apply Hk. apply Hx. Qed.

Section Admit.
Context {pki : Pki} {sha : Sha256} {R : MapRange} {W : World} (self : NodeIdentity) (port : Z).

(** * Admitting an entry *)

(** The entry names a peer that is not pinned, or pinned in an earlier admission. *)
Definition wants (e : RosterEntry) (m : Manager) : bool :=
  match epochs m !! re_NodeUUID e with Some n => n <? re_AdmissionEpoch e | None => true end.

(** The peer of the entry is pinned, in its admission and with its certificate. *)
Definition admitted (e : RosterEntry) (m m' : Manager) : Prop :=
  let u := re_NodeUUID e in
  exists der pub, validateEntryCert e = Some der /\ pubFromDER der = Some pub /\
    epochs m' = <[u := re_AdmissionEpoch e]> (epochs m) /\ ders m' = <[u := der]> (ders m) /\ pubs m' = <[u := pub]> (pubs m) /\
    (forall v, v <> u -> files m' !! v = files m !! v).

Definition entry_outcome (e : RosterEntry) (m : Manager) (ok : bool) (m' : Manager) : Prop :=
  store_ok (m_trust m') /\ standing m' = standing m /\ if ok then admitted e m m' else amends m m'.

Lemma core_views m m' : core m' = core m ->
  m_trust m' = m_trust m /\ standing m' = standing m /\ epochs m' = epochs m /\ ders m' = ders m /\ pubs m' = pubs m /\ files m' = files m.
Proof. unfold core, standing, epochs, ders, pubs, pins, files. intros [=]. split_and!; congruence. Qed.

Lemma entry_outcome_core e m ok m1 m2 : core m2 = core m1 -> entry_outcome e m ok m1 -> entry_outcome e m ok m2.
Proof.
  intros Hc (Ho & Hs & H). destruct (core_views _ _ Hc) as (E1 & E2 & E3 & E4 & E5 & E6).
  split_and!; [by rewrite E1 | by rewrite E2 |]. destruct ok.
  - destruct H as (der & pub & H). exists der, pub. by rewrite E3, E4, E5, E6.
  - by eapply amends_trans; [| apply core_amends].
Qed.

Lemma validatePin_cert pin u der : validatePin pin u = Some der -> principal_cert (pin_CertPem pin) u = Some der.
Proof. unfold validatePin. by case_match. Qed.
Lemma validateEntryCert_cert e der : validateEntryCert e = Some der -> principal_cert (re_CertPem e) (re_NodeUUID e) = Some der.
Proof. unfold validateEntryCert. destruct (principal_cert _ _); [| done]. by case_match. Qed.

Lemma pinEntry_spec e der s m :
  store_ok (m_trust m) -> validateEntryCert e = Some der -> wants e m = true ->
  entry_outcome e m (pinEntry port e der s m).1 (pinEntry port e der s m).2.
Proof.
  intros Hok Hv Hw.
  cut (triple (fun x => core x = core m) (pinEntry port e der s) (entry_outcome e m)); [intros H; by apply H |].
  unfold pinEntry. apply triple_core_bind; [framed |]. intros t.
  match goal with |- context [let '(_, _) := ?x in _] => destruct x as [host p] end.
  do 3 (apply triple_core_bind; [framed |]; intros ?).
  set (restore := (match _ with Some n => upsertMember n | None => _ end ;; _)).
  assert (frame core restore) as Hr by (unfold restore; framed).
  assert (forall m', entry_outcome e m false m' -> entry_outcome e m false (restore m').2) as Hback.
  { intros m'. by apply entry_outcome_core. }
  apply triple_core_bind; [framed |]; intros [|].
  2: { intros x Hx. cbn [negb]. run. apply Hback. eapply entry_outcome_core; [exact Hx |]. split_and!; [done | done | apply amends_refl]. }
  cbn [negb]. do 2 (apply triple_core_bind; [framed |]; intros ?). intros x Hx.
  set (pin := mkPin _ _ _ _ _ _ _ _ _). destruct (core_views _ _ Hx) as (E1 & E2 & E3 & E4 & E5 & E6).
  destruct (Pin_spec pin x) as (H1 & H2 & H3); [by rewrite E1 |]. rewrite run_bind. rewrite E2 in H2.
  destruct H3 as [[Ha Hp] | [Ht (der' & pub & Hd & Hk & H3)]].
  - destruct (Pin pin x).1.
    + exfalso. destruct (Hp eq_refl) as (n & Hn & Hle). rewrite E3 in Hn. unfold wants in Hw. simpl in *. rewrite Hn in Hw.
      unbool. lia.
    + cbn [negb]. run. apply Hback. split_and!; [done | done |]. eapply amends_trans; [by apply core_amends |]. done.
  - rewrite Ht. run. split_and!; [done | done |]. exists der, pub. rewrite E3, E4, E5, E6 in H3. simpl in *.
    assert (der' = der) as ->.
    { apply validatePin_cert in Hd. apply validateEntryCert_cert in Hv. simpl in Hd. congruence. }
    naive_solver.
Qed.
Lemma admitted_views e m m1 m2 : m_trust m2 = m_trust m1 -> files m2 = files m1 -> admitted e m m1 -> admitted e m m2.
Proof. unfold admitted, epochs, ders, pubs, pins. by intros -> ->. Qed.

(** One admission, with the removal record of the peer dropped when it is of an earlier one. *)
Definition admission (cid : string) (e : RosterEntry) (m m' : Manager) : Prop :=
  re_NodeUUID e <> id_NodeUUID self /\ wants e m = true /\ supersededByTombstone e m = false /\ entryEndorsed self e cid m = true
  /\ store_ok (m_trust m') /\ identity_of m' = identity_of m /\ admitted e m m' /\
  cleared (re_NodeUUID e) (re_AdmissionEpoch e) m m'.

Lemma admit_entry_spec cid s e m :
  store_ok (m_trust m) -> wants e m = true -> re_NodeUUID e <> id_NodeUUID self ->
  if (admit_entry self port cid s e m).1 then admission cid e m (admit_entry self port cid s e m).2
  else amends m (admit_entry self port cid s e m).2.
Proof.
  intros Hok Hw Hu. unfold admit_entry. rewrite run_bind, run_get. cbn [fst snd].
  destruct (supersededByTombstone e m) eqn:Es; [apply amends_refl |].
  destruct (validateEntryCert e) as [der|] eqn:Ev; [| apply amends_refl]. rewrite run_bind, run_get. cbn [fst snd].
  destruct (entryEndorsed self e cid m) eqn:Ee; cbn [negb]; [| apply amends_refl].
  rewrite run_bind. destruct (pinEntry_spec e der s m Hok Ev Hw) as (H1 & H2 & H3).
  destruct (pinEntry port e der s m) as [[|] m1]; cbn [fst snd negb] in *; [| exact H3]. run.
  destruct (clear_spec (re_NodeUUID e) (re_AdmissionEpoch e) m1) as [Hb Hp].
  set (m2 := (clearRemovalProofAfterAdmission _ _ m1).2) in *. clearbody m2.
  pose proof (clearTombstone_core (re_NodeUUID e) m2) as Hc. set (m3 := (clearTombstone _ m2).2) in *. clearbody m3.
  apply core_parts in Hc as (Hb3 & Hp3 & Hf3). apply base_views in Hb as (Et & Ei & _ & _ & _ & Ef).
  apply base_views in Hb3 as (Et3 & Ei3 & _ & _ & _ & Ef3).
  assert (proofs m1 = proofs m /\ proof_file m1 = proof_file m /\ identity_of m1 = identity_of m) as (Ep & Epf & Ei1)
    by (by apply standing_parts).
  unfold admission. split_and!; try done; [by rewrite Et3, Et | congruence | |].
  - eapply admitted_views; [| | exact H3]; congruence.
  - unfold cleared in *. by rewrite Hp3, Hf3, <- Ep, <- Epf.
Qed.

Lemma apply_entry_spec cid s e m :
  store_ok (m_trust m) ->
  if (apply_entry self port cid s e m).1.2 then admission cid e m (apply_entry self port cid s e m).2
  else amends m (apply_entry self port cid s e m).2.
Proof.
  intros Hok. unfold apply_entry. destruct (decide (re_NodeUUID e = id_NodeUUID self)) as [Eu | Eu].
  { rewrite bool_decide_eq_true_2 by done. apply amends_refl. }
  rewrite bool_decide_eq_false_2 by done. rewrite run_bind, run_get. cbn [fst snd].
  unfold Get. change (ts_pins (m_trust m)) with (pins m). destruct (pins m !! re_NodeUUID e) as [pin|] eqn:Ep.
  - destruct (pin_AdmissionEpoch pin <? re_AdmissionEpoch e) eqn:El; run.
    + apply admit_entry_spec; [done | | done]. unfold wants, epochs. by rewrite lookup_fmap, Ep.
    + eapply amends_trans; [apply AddEndorsements_amends |].
      destruct (bool_decide (re_NodeUUID e = s)); [| apply amends_refl].
      unfold refreshMemberIdentity. run. eapply amends_trans; [| apply UpdateIdentity_amends].
      apply core_amends, updateMemberIdentity_core.
  - run. apply admit_entry_spec; [done | | done]. unfold wants, epochs. by rewrite lookup_fmap, Ep.
Qed.

(** * A whole merge, as steps *)

(** What merging the members of a roster may do, one entry at a time. *)
Inductive member_step (cid : string) (entries : list RosterEntry) (m m' : Manager) : Prop :=
| step_amend : amends m m' -> member_step cid entries m m'
| step_admit e : e ∈ entries -> admission cid e m m' -> member_step cid entries m m'.

Lemma member_step_ok cid es m m' : store_ok (m_trust m) -> member_step cid es m m' ->
  store_ok (m_trust m') /\ identity_of m' = identity_of m.
Proof.
  intros Hok [Ha | e _ (_ & _ & _ & _ & H & Hi & _)]; [| done].
  destruct (Ha Hok) as (H & Hau & _). split; [done |]. apply standing_parts.
  unfold authority in Hau. congruence.
Qed.

Lemma member_steps_ok cid es m m' : rtc (member_step cid es) m m' -> store_ok (m_trust m) ->
  store_ok (m_trust m') /\ identity_of m' = identity_of m.
Proof.
  induction 1 as [|m m1 m2 H _ IH]; intros Hok; [done |].
  destruct (member_step_ok _ _ _ _ Hok H) as [Hok1 E]. destruct (IH Hok1) as [? ?]. split; [done | congruence].
Qed.

Lemma members_pass_steps cid s es entries m : es ⊆ entries -> store_ok (m_trust m) ->
  rtc (member_step cid entries) m (members_pass self port cid s es m).2.
Proof.
  revert m. induction es as [|e es IH]; intros m Hs Hok; simpl; [apply rtc_refl |]. run.
  assert (member_step cid entries m (apply_entry self port cid s e m).2) as Hst.
  { pose proof (apply_entry_spec cid s e m Hok) as H. destruct (apply_entry self port cid s e m).1.2; [| by left].
    right with e; [set_solver | done]. }
  eapply rtc_l; [exact Hst |]. apply IH; [set_solver |]. by apply (member_step_ok cid entries m).
Qed.

Lemma members_loop_steps fuel cid s entries b m : store_ok (m_trust m) ->
  rtc (member_step cid entries) m (members_loop self port fuel entries cid s b m).2.
Proof.
  revert b m. induction fuel as [|fuel IH]; intros b m Hok; simpl; [apply rtc_refl |]. rewrite run_bind.
  pose proof (members_pass_steps cid s entries entries m ltac:(done) Hok) as H.
  case_match; [| exact H]. etransitivity; [exact H |]. apply IH. by apply (member_steps_ok cid entries m).
Qed.

(** ** The removal proofs of a roster *)

(** What enforcing a proof may do: store it, drop one that a later admission outdates, or
    drop a pin whose own admission a stored proof ends. *)
Inductive record_step (m m' : Manager) : Prop :=
| step_core : core m' = core m -> record_step m m'
| step_store p : stored self p m (Some true) m' -> record_step m m'
| step_clear u e : epochs m !! u = Some e -> base m' = base m -> cleared u e m m' -> record_step m m'
| step_drop u e q : u <> id_NodeUUID self -> epochs m !! u = Some e -> proofs m !! u = Some q -> e <= proof_epoch q ->
                    removed_pin u true m m' -> record_step m m'.

Lemma removed_pin_false u m m' : removed_pin u false m m' -> core m' = core m.
Proof. unfold removed_pin, standing, core, files. intros (Hs & Ht & Hf). congruence. Qed.

Lemma record_core {A} (x : M A) m : frame core x -> rtc record_step m (x m).2.
Proof. intros H. apply rtc_once. by apply step_core. Qed.
Lemma record_then m1 m2 m3 : core m2 = core m1 -> rtc record_step m2 m3 -> rtc record_step m1 m3.
Proof. intros H Hs. eapply rtc_l; [by apply step_core | done]. Qed.

Lemma apply_proof_steps cid p m : rtc record_step m (apply_proof self cid p m).2.
Proof.
  unfold apply_proof. rewrite run_bind, run_get. cbn [fst snd]. case_match eqn:Eg; [apply rtc_refl |]. unbool.
  set (t := rp_Tombstone p) in *. set (u := tb_NodeUUID t) in *. rewrite run_bind.
  pose proof (putRemovalProof_spec self p m) as Hst.
  destruct (putRemovalProof self p m) as [r m1]. cbn [fst snd] in *.
  assert (rtc record_step m m1 /\ (r <> None -> exists q, proofs m1 !! u = Some q /\ tb_AdmissionEpoch t <= proof_epoch q)) as [Hm Hq].
  { destruct Hst as [Hb Hst]. destruct r as [[|]|].
    - split; [apply rtc_once, (step_store _ _ p); by split |]. intros _. destruct Hst as (q & Ht & _ & _ & -> & _).
      exists q. rewrite lookup_insert_eq. unfold proof_epoch. by rewrite Ht.
    - destruct Hst as (E1 & E2 & c & Hc & Hle). split; [| intros _; exists c; by rewrite E1].
      apply rtc_once, step_core. unfold base, identity_of, core, proofs, proof_file, files in *. congruence.
    - destruct Hst as (E1 & E2). split; [| done].
      apply rtc_once, step_core. unfold base, identity_of, core, proofs, proof_file, files in *. congruence. }
  destruct r as [b|]; [| exact Hm]. destruct (Hq ltac:(done)) as (q & Hq1 & Hq2). clear Hq.
  etransitivity; [exact Hm |]. rewrite run_bind. pose proof (putTombstone_core t m1) as Hc.
  eapply record_then; [exact Hc |]. set (m2 := (putTombstone t m1).2) in *. clearbody m2.
  apply core_parts in Hc as (_ & Hp & _). rewrite <- Hp in Hq1. clear Hp Hm Hst.
  rewrite run_bind, run_get. cbn [fst snd]. unfold Get. change (ts_pins (m_trust m2)) with (pins m2).
  assert (forall pin, pins m2 !! u = Some pin -> epochs m2 !! u = Some (pin_AdmissionEpoch pin)) as Hep.
  { intros pin E. unfold epochs. by rewrite lookup_fmap, E. }
  destruct (pins m2 !! u) as [pin|] eqn:Epin.
  - specialize (Hep pin eq_refl). destruct (pin_AdmissionEpoch pin =? tb_AdmissionEpoch t) eqn:Ee; cbn [negb]; unbool.
    + rewrite run_bind, run_get. cbn [fst snd]. case_match; [apply rtc_refl |]. rewrite bool_decide_eq_true_2 by done.
      rewrite run_bind. pose proof (Remove_spec u m2) as Hr. destruct (Remove u m2) as [ok m3]. cbn [fst snd] in *.
      destruct ok; cbn [negb]; [| apply rtc_once, step_core; by apply (removed_pin_false u)].
      run. eapply rtc_l; [apply (step_drop m2 m3 u (pin_AdmissionEpoch pin) q); [| done | done | lia | done] |].
      * intros ->. naive_solver.
      * apply record_core, removeMemberByUUID_core.
    + rewrite run_bind. case_match; run; [| apply rtc_refl].
      destruct (clear_spec u (pin_AdmissionEpoch pin) m2) as [Hb Hcl]. apply rtc_once. by eapply step_clear.
  - rewrite run_bind, run_get. cbn [fst snd]. case_match; [apply rtc_refl |]. rewrite bool_decide_eq_false_2 by naive_solver.
    run. cbn [negb]. run. apply record_core, removeMemberByUUID_core.
Qed.

Lemma applyRemovalProofs_steps l cid m : rtc record_step m (applyRemovalProofs self l cid m).2.
Proof.
  revert m. induction l as [|p l IH]; intros m; [apply rtc_refl |]. unfold applyRemovalProofs in *. simpl. run.
  etransitivity; [apply apply_proof_steps | apply IH].
Qed.

(** ** What a merge keeps *)

(** Node [u] is trusted in admission [e] with the key [pub]. *)
Definition trusts (u : string) (e : Z) (pub : string) (m : Manager) : Prop :=
  epochs m !! u = Some e /\ pubs m !! u = Some pub.

(** The end of admission [n] of [u] is on record, or [u] is back in a later one. *)
Definition watched (u : string) (n : Z) (m : Manager) : Prop :=
  (exists p, proofs m !! u = Some p /\ n <= proof_epoch p) \/ (exists e, epochs m !! u = Some e /\ n < e).

Definition pruned (m m' : Manager) : Prop :=
  store_ok (m_trust m') /\ identity_of m' = identity_of m /\
  (forall u e pub, trusts u e pub m' -> trusts u e pub m) /\ (forall u n, watched u n m -> watched u n m').

Lemma watched_views u n m m' : epochs m' = epochs m -> proofs m' = proofs m -> watched u n m -> watched u n m'.
Proof. unfold watched. by intros -> ->. Qed.

Lemma cleared_watched u e n m m' : cleared u e m m' -> epochs m' !! u = Some e ->
  (forall v, v <> u -> epochs m' !! v = epochs m !! v) -> (forall e', epochs m !! u = Some e' -> e' <= e) ->
  forall v, watched v n m -> watched v n m'.
Proof.
  intros Hc He Ho Hle v [(p & Hp & Hn) | (e' & He' & Hn)].
  - destruct Hc as [[Ep _] | (q & Hq & Hlt & E & _)]; [left; exists p; by rewrite Ep |].
    destruct (decide (v = u)) as [-> | Hne]; [right; exists e; split; [done |]; assert (q = p) as -> by congruence; lia |].
    left. exists p. by rewrite E, lookup_delete_ne.
  - right. destruct (decide (v = u)) as [-> | Hne]; [exists e; split; [done |]; specialize (Hle _ He'); lia |].
    exists e'. by rewrite Ho.
Qed.

Lemma record_step_pruned m m' : store_ok (m_trust m) -> record_step m m' -> pruned m m'.
Proof.
  intros Hok [Hc | p [Hb (q & Ht & _ & Hle & Hp & _)] | u e He Hb Hc | u e q _ He Hq Hle [Hs [Ht _]]].
  - apply core_parts in Hc as (Hb & Hp & _). apply base_views in Hb as (E1 & E2 & E3 & _ & E5 & _).
    split_and!; [by rewrite E1 | done | by unfold trusts; rewrite E3, E5 | intros u n; by apply watched_views].
  - apply base_views in Hb as (E1 & E2 & E3 & _ & E5 & _).
    split_and!; [by rewrite E1 | done | by unfold trusts; rewrite E3, E5 |].
    intros u n [(c & Hc & Hn) | H]; [left | right; by rewrite E3]. rewrite Hp. destruct (decide (u = proof_uuid p)) as [-> | Hne].
    + exists q. rewrite lookup_insert_eq. split; [done |]. specialize (Hle c Hc). unfold proof_epoch at 1. rewrite Ht.
      unfold proof_epoch in *. lia.
    + exists c. by rewrite lookup_insert_ne.
  - apply base_views in Hb as (E1 & E2 & E3 & _ & E5 & _).
    split_and!; [by rewrite E1 | done | by unfold trusts; rewrite E3, E5 |].
    intros v n. apply (cleared_watched u e); [done | by rewrite E3 | by rewrite E3 |]. intros e' He'. assert (e' = e) as -> by congruence. lia.
  - apply standing_parts in Hs as (Hp & _ & Hi).
    split_and!; [rewrite Ht; by apply store_ok_drop | done | |]; unfold trusts, watched, epochs, pubs, pins; rewrite Ht; simpl.
    + intros v e' pub. rewrite fmap_delete, !lookup_delete_Some. intros [[_ ?] [_ ?]]. done.
    + intros v n [H | (e' & He' & Hn)]; [left; by rewrite Hp |]. destruct (decide (v = u)) as [-> | Hne].
      * left. exists q. rewrite Hp. split; [done |]. assert (e' = e) as -> by (unfold epochs, pins in He; congruence). lia.
      * right. exists e'. by rewrite fmap_delete, lookup_delete_ne.
Qed.

Lemma pruned_trans m1 m2 m3 : pruned m1 m2 -> pruned m2 m3 -> pruned m1 m3.
Proof. intros (_ & I1 & T1 & W1) (O & I2 & T2 & W2). split_and!; [done | congruence | eauto | eauto]. Qed.

Lemma record_steps_pruned m m' : rtc record_step m m' -> store_ok (m_trust m) -> pruned m m'.
Proof.
  induction 1 as [|m m1 m2 H _ IH]; intros Hok; [by split_and! |].
  pose proof (record_step_pruned _ _ Hok H) as Hp. eapply pruned_trans; [exact Hp | apply IH, Hp].
Qed.

(** ** Who vouches for a pin *)

(** A chain of endorsements that starts at this node or at a peer pinned in [m]: every link
    is an entry of the roster with a valid certificate, endorsed for its cluster and
    admission by a node vouched for in the admission it signs from. *)
Inductive vouched (m : Manager) (cid : string) (entries : list RosterEntry) : string -> Z -> string -> Prop :=
| vouched_self : (currentAdmission m).2 <> 0 ->
    vouched m cid entries (id_NodeUUID self) (currentAdmission m).2 (selfPub self)
| vouched_pinned u e pub : u <> id_NodeUUID self -> trusts u e pub m -> vouched m cid entries u e pub
| vouched_entry en der pub s by_pub :
    en ∈ entries -> re_NodeUUID en <> id_NodeUUID self -> re_AdmissionEpoch en <> 0 ->
    validateEntryCert en = Some der -> pubFromDER der = Some pub ->
    s ∈ re_Endorsements en -> en_SigV2 s <> "" -> en_AdmissionEpoch s = re_AdmissionEpoch en ->
    vouched m cid entries (en_By s) (en_ByAdmissionEpoch s) by_pub ->
    verifyEndorsement by_pub (re_NodeUUID en) (re_CertFingerprint en) cid s = true ->
    vouched m cid entries (re_NodeUUID en) (re_AdmissionEpoch en) pub.

(** The new pins of [m'] are vouched for from [m], in admissions later than any recorded removal. *)
Definition sound_from (m : Manager) (cid : string) (entries : list RosterEntry) (m' : Manager) : Prop :=
  (forall u e pub, trusts u e pub m' ->
     trusts u e pub m \/ u <> id_NodeUUID self /\ vouched m cid entries u e pub /\ forall p, proofs m !! u = Some p -> proof_epoch p < e) /\
  (forall u n, watched u n m -> watched u n m').

Lemma signer_vouched m0 cid entries m by_ e pub :
  identity_of m = identity_of m0 -> sound_from m0 cid entries m ->
  trustedAdmissionEpoch self by_ m = Some e -> trustedPub self by_ m = Some pub -> vouched m0 cid entries by_ e pub.
Proof.
  unfold trustedAdmissionEpoch, trustedPub. intros Hi [Hs _] He Hp. destruct (bool_decide (by_ = id_NodeUUID self)) eqn:Eb; unbool.
  - subst. assert (currentAdmission m = currentAdmission m0) as Ea by (unfold currentAdmission, identity_of in *; congruence).
    rewrite Ea in He. destruct ((currentAdmission m0).2 =? 0) eqn:E0; [done |]. unbool. injection He as <-. injection Hp as <-.
    by apply vouched_self.
  - unfold Get, PubKey in *. destruct (ts_pins (m_trust m) !! by_) as [pin|] eqn:Epin; [| done]. case_bool; [done |]. injection He as <-.
    destruct (Hs by_ (pin_AdmissionEpoch pin) pub) as [H | (_ & H & _)]; [| by apply vouched_pinned | done].
    split; [| done]. unfold epochs, pins. by rewrite lookup_fmap, Epin.
Qed.

Lemma endorsed_vouched m0 cid entries m e der pub :
  identity_of m = identity_of m0 -> sound_from m0 cid entries m -> e ∈ entries -> re_NodeUUID e <> id_NodeUUID self ->
  validateEntryCert e = Some der -> pubFromDER der = Some pub -> entryEndorsed self e cid m = true ->
  vouched m0 cid entries (re_NodeUUID e) (re_AdmissionEpoch e) pub.
Proof.
  intros Hi Hs Hin Hu Hv Hk. unfold entryEndorsed. destruct (re_AdmissionEpoch e =? 0) eqn:E0; [done |]. unbool.
  rewrite existsb_exists. intros (s & Hsin & Hvo). unfold vouches in Hvo.
  destruct (_ || _) eqn:E1; [done |]. unbool.
  destruct (trustedAdmissionEpoch self (en_By s) m) as [be|] eqn:Ebe; [| done].
  destruct (be =? en_ByAdmissionEpoch s) eqn:E2; [| done]. unbool. subst be.
  destruct (trustedPub self (en_By s) m) as [by_pub|] eqn:Eb; [| done].
  apply (vouched_entry _ _ _ e der pub s by_pub); try done; [by apply list_elem_of_In | by eapply signer_vouched].
Qed.

Lemma member_step_sound m0 cid entries m m' :
  store_ok (m_trust m) -> identity_of m = identity_of m0 -> sound_from m0 cid entries m -> member_step cid entries m m' ->
  sound_from m0 cid entries m'.
Proof.
  intros Hok Hi Hs [Ha | e Hin (Hu & Hw & Hsup & He & Hok' & Hi' & (der & pub & Hv & Hk & Ee & Ed & Ep & _) & Hc)].
  - destruct (Ha Hok) as (_ & Hau & _). unfold sound_from, trusts, watched.
    assert (epochs m' = epochs m /\ pubs m' = pubs m /\ standing m' = standing m) as (-> & -> & Hst)
      by (unfold authority in Hau; split_and!; congruence).
    apply standing_parts in Hst as (-> & _). exact Hs.
  - pose proof (endorsed_vouched _ _ _ _ _ _ _ Hi Hs Hin Hu Hv Hk He) as Hvo. destruct Hs as [Ht Hp].
    assert (forall n, watched (re_NodeUUID e) n m -> n < re_AdmissionEpoch e) as Hlt.
    { intros n [(p & Hpr & Hn) | (e' & He' & Hn)].
      - unfold supersededByTombstone, removalProofFor in Hsup. change (m_removalProofs m) with (proofs m) in Hsup.
        rewrite Hpr in Hsup. unbool. lia.
      - unfold wants in Hw. rewrite He' in Hw. unbool. lia. }
    split.
    + intros u n k. unfold trusts. rewrite Ee, Ep. destruct (decide (u = re_NodeUUID e)) as [-> | Hne].
      * rewrite !lookup_insert_eq. intros [[= <-] [= <-]]. right. split_and!; [done | done |]. intros p Hpr.
        apply Hlt, Hp. left. by exists p.
      * rewrite !lookup_insert_ne by done. apply Ht.
    + intros u n Hwt. apply Hp in Hwt. revert Hwt. apply (cleared_watched _ _ _ _ _ Hc); rewrite ?Ee.
      * apply lookup_insert_eq.
      * intros v Hne. by apply lookup_insert_ne.
      * intros e' He'. unfold wants in Hw. rewrite He' in Hw. unbool. lia.
Qed.

Lemma member_steps_sound m0 cid entries m m' : rtc (member_step cid entries) m m' ->
  store_ok (m_trust m) -> identity_of m = identity_of m0 -> sound_from m0 cid entries m -> sound_from m0 cid entries m'.
Proof.
  induction 1 as [|m m1 m2 H _ IH]; intros Hok Hi Hs; [done |].
  destruct (member_step_ok _ _ _ _ Hok H) as [Hok1 E]. apply IH; [done | congruence |]. by apply (member_step_sound m0 cid entries m).
Qed.
Lemma sound_from_refl m cid entries : sound_from m cid entries m.
Proof. by split; [left |]. Qed.

(** Whether a roster is merged at all. *)
Definition mergeable (remote : Roster) (m : Manager) : bool :=
  negb (m_teardownPending m) && negb (bool_decide (m_clusterID m = "")) && bool_decide (ro_ClusterID remote = m_clusterID m).

(** C3. Merging a roster cannot forge trust (roster.go, [mergeRosterLocked]): whatever a peer
    sends, its removal proofs only ever take pins away, and after them a node is newly pinned
    in an admission only when a chain of endorsements vouches for it.  The chain starts at
    this node or at a peer that is still pinned, every link carries a valid certificate and
    an endorsement for this cluster, signed from the very admission in which the signer is
    itself vouched for, and the admission is later than any removal on record.  A removal on
    record stays effective, the node's own admission does not change, and a roster of another
    cluster changes nothing. *)
Theorem roster_soundness remote sender m :
  store_ok (m_trust m) ->
  let m' := (mergeRosterLocked self port remote sender m).2 in
  if mergeable remote m then
    let m1 := (applyRemovalProofs self (ro_RemovalProofs remote) (m_clusterID m) m).2 in
    store_ok (m_trust m') /\ identity_of m' = identity_of m /\
    (forall u e pub, trusts u e pub m1 -> trusts u e pub m) /\
    (forall u e pub, trusts u e pub m' ->
       trusts u e pub m1 \/
       u <> id_NodeUUID self /\ vouched m1 (m_clusterID m) (ro_Members remote) u e pub /\ forall p, proofs m1 !! u = Some p -> proof_epoch p < e) /\
    (forall u n, watched u n m -> watched u n m')
  else m' = m.
Proof.
  intros Hok. unfold mergeRosterLocked, mergeable.
  destruct (m_teardownPending m) eqn:E1, (bool_decide (m_clusterID m = "")) eqn:E2, (bool_decide (ro_ClusterID remote = m_clusterID m)) eqn:E3;
    run; rewrite ?E1, ?E2, ?E3; cbn [negb andb orb]; try done. run.
  set (cid := m_clusterID m). pose proof (applyRemovalProofs_steps (ro_RemovalProofs remote) cid m) as Hr.
  set (m1 := (applyRemovalProofs _ _ _ m).2) in *. destruct (record_steps_pruned _ _ Hr Hok) as (Hok1 & Hi1 & Ht1 & Hw1).
  pose proof (applyTombstones_core self (ro_Tombstones remote) cid m1) as Hc. set (m2 := (applyTombstones _ _ _ m1).2) in *. clearbody m2.
  apply core_parts in Hc as (Hb & Hp & _). apply base_views in Hb as (V1 & V2 & V3 & _ & V5 & _).
  assert (store_ok (m_trust m2)) as Hok2 by by rewrite V1.
  assert (sound_from m1 cid (ro_Members remote) m2) as Hs2.
  { split; [left; unfold trusts in *; congruence | intros u n; by apply watched_views]. }
  pose proof (members_loop_steps (S (length (ro_Members remote))) cid sender (ro_Members remote) false m2 Hok2) as Hm.
  unfold applyMembers. set (m3 := (members_loop _ _ _ _ _ _ _ m2).2) in *.
  destruct (member_steps_ok _ _ _ _ Hm Hok2) as [Hok3 Hi3].
  destruct (member_steps_sound m1 _ _ _ _ Hm Hok2 V2 Hs2) as [Hs3 Hp3].
  split_and!; [done | congruence | done | done | auto].
Qed.

(** * The loop over the members comes to rest *)

Definition waiting (entries : list RosterEntry) (m : Manager) : nat := length (List.filter (fun e => wants e m) entries).

(** Admissions only go forward. *)
Definition forward (m m' : Manager) : Prop := forall e, wants e m' = true -> wants e m = true.

Lemma filter_le {A} (f g : A -> bool) l : (forall x, f x = true -> g x = true) -> (length (List.filter f l) <= length (List.filter g l))%nat.
Proof.
  intros H. induction l as [|x l IH]; simpl; [lia |]. destruct (f x) eqn:E; [rewrite (H x E); simpl; lia |].
  destruct (g x); simpl; lia.
Qed.
Lemma filter_lt {A} (f g : A -> bool) l x : (forall x, f x = true -> g x = true) -> x ∈ l -> f x = false -> g x = true ->
  (length (List.filter f l) < length (List.filter g l))%nat.
Proof.
  intros H Hin Hf Hg. induction l as [|y l IH]; [by apply not_elem_of_nil in Hin |].
  pose proof (filter_le f g l H). simpl. apply elem_of_cons in Hin as [-> | Hin].
  - rewrite Hf, Hg. simpl. lia.
  - specialize (IH Hin). destruct (f y) eqn:E; [rewrite (H y E); simpl; lia |]. destruct (g y); simpl; lia.
Qed.

Lemma member_step_forward cid es m m' : store_ok (m_trust m) -> member_step cid es m m' -> forward m m'.
Proof.
  intros Hok [Ha | e _ (_ & Hw & _ & _ & _ & _ & (der & pub & _ & _ & Ee & _) & _)] f; unfold wants in *.
  - destruct (Ha Hok) as (_ & Hau & _). assert (epochs m' = epochs m) as -> by (unfold authority in Hau; congruence). done.
  - rewrite Ee. destruct (decide (re_NodeUUID f = re_NodeUUID e)) as [E | Hne]; [| by rewrite lookup_insert_ne].
    rewrite E, lookup_insert_eq. intros H. case_match; unbool; lia.
Qed.

Lemma member_steps_forward cid es m m' : rtc (member_step cid es) m m' -> store_ok (m_trust m) -> forward m m'.
Proof.
  induction 1 as [|m m1 m2 H _ IH]; intros Hok; [by intros e |].
  intros e He. apply (member_step_forward _ _ _ _ Hok H). apply IH; [by apply (member_step_ok _ _ _ _ Hok H) | done].
Qed.

Lemma apply_entry_step cid s e entries m : e ∈ entries -> store_ok (m_trust m) -> member_step cid entries m (apply_entry self port cid s e m).2.
Proof.
  intros Hin Hok. pose proof (apply_entry_spec cid s e m Hok) as H. destruct (apply_entry self port cid s e m).1.2; [by right with e | by left].
Qed.

(** An admission leaves fewer entries to wait for. *)
Lemma pass_progress cid s es entries m : es ⊆ entries -> store_ok (m_trust m) ->
  (members_pass self port cid s es m).1.2 = true -> (waiting entries (members_pass self port cid s es m).2 < waiting entries m)%nat.
Proof.
  revert m. induction es as [|e es IH]; intros m Hs Hok; [done |]. simpl. run.
  pose proof (apply_entry_step cid s e entries m ltac:(set_solver) Hok) as Hst.
  pose proof (apply_entry_spec cid s e m Hok) as Hsp. set (r := apply_entry self port cid s e m) in *.
  pose proof (member_step_ok _ _ _ _ Hok Hst) as [Hok1 _].
  pose proof (members_pass_steps cid s es entries r.2 ltac:(set_solver) Hok1) as Hrest.
  pose proof (member_steps_forward _ _ _ _ Hrest Hok1) as Hf. unfold waiting. intros H.
  destruct r.1.2; simpl in H.
  - eapply Nat.le_lt_trans; [apply filter_le, Hf |].
    destruct Hsp as (_ & Hw & _ & _ & _ & _ & (der & pub & _ & _ & Ee & _) & _).
    apply filter_lt with (x := e); [apply (member_step_forward _ _ _ _ Hok Hst) | set_solver | | done].
    unfold wants. rewrite Ee, lookup_insert_eq. apply Z.ltb_irrefl.
  - eapply Nat.lt_le_trans; [apply IH; [set_solver | done | done] |]. apply filter_le, (member_step_forward _ _ _ _ Hok Hst).
Qed.

Lemma loop_S fuel cid s entries b m :
  members_loop self port (S fuel) entries cid s b m =
  let r := members_pass self port cid s entries m in
  if r.1.2 then members_loop self port fuel entries cid s (b || r.1.1) r.2 else (b || r.1.1, r.2).
Proof. simpl. rewrite run_bind. by case_match. Qed.

(** With fuel for every entry still waited for, the loop ends with a pass that admits
    nothing, and more fuel changes nothing. *)
Lemma loop_rests fuel cid s entries b m : store_ok (m_trust m) -> (waiting entries m < fuel)%nat ->
  (exists m1, store_ok (m_trust m1) /\ (members_pass self port cid s entries m1).1.2 = false /\
     (members_loop self port fuel entries cid s b m).2 = (members_pass self port cid s entries m1).2) /\
  members_loop self port (S fuel) entries cid s b m = members_loop self port fuel entries cid s b m.
Proof.
  revert b m. induction fuel as [|fuel IH]; intros b m Hok Hlt; [lia |].
  pose proof (pass_progress cid s entries entries m ltac:(done) Hok) as Hp.
  pose proof (members_pass_steps cid s entries entries m ltac:(done) Hok) as Hst.
  pose proof (member_steps_ok _ _ _ _ Hst Hok) as [Hok1 _].
  rewrite (loop_S (S fuel) _ _ _ b m), (loop_S fuel _ _ _ b m). cbv zeta.
  destruct ((members_pass self port cid s entries m).1.2) eqn:E.
  - specialize (Hp eq_refl). destruct (IH (b || (members_pass self port cid s entries m).1.1) _ Hok1 ltac:(lia)) as [H1 H2].
    split; [exact H1 |]. exact H2.
  - split; [| done]. by exists m.
Qed.

(** ** Nothing admissible is left *)

(** What decides about an entry. *)
Definition grounds (m : Manager) := (authority m, m_tombstones m).

Lemma trustedEpoch_epochs u m :
  trustedAdmissionEpoch self u m =
  if bool_decide (u = id_NodeUUID self) then (let e := (currentAdmission m).2 in if e =? 0 then None else Some e)
  else match epochs m !! u with Some e => if e =? 0 then None else Some e | None => None end.
Proof.
  unfold trustedAdmissionEpoch, Get, epochs, pins. case_bool; [done |]. rewrite lookup_fmap.
  by destruct (ts_pins (m_trust m) !! u).
Qed.

Lemma grounds_views m m' : grounds m' = grounds m ->
  epochs m' = epochs m /\ ders m' = ders m /\ pubs m' = pubs m /\ proofs m' = proofs m /\ m_tombstones m' = m_tombstones m
  /\ currentAdmission m' = currentAdmission m.
Proof. unfold grounds, authority, standing, proofs, currentAdmission. intros E. split_and!; congruence. Qed.

Lemma entryEndorsed_grounds e cid m m' : grounds m' = grounds m -> entryEndorsed self e cid m' = entryEndorsed self e cid m.
Proof.
  intros (E1 & _ & E3 & _ & _ & E6)%grounds_views. unfold entryEndorsed. case_bool; [done |].
  assert (forall s, vouches self (re_NodeUUID e) (re_CertFingerprint e) cid (re_AdmissionEpoch e) m' s
                    = vouches self (re_NodeUUID e) (re_CertFingerprint e) cid (re_AdmissionEpoch e) m s) as Hv.
  { intros s. unfold vouches, trustedPub, PubKey. change (ts_pubs (m_trust m')) with (pubs m').
    change (ts_pubs (m_trust m)) with (pubs m). by rewrite !trustedEpoch_epochs, E1, E3, E6. }
  induction (re_Endorsements e) as [|s l IH]; [done |]. simpl. by rewrite Hv, IH.
Qed.

Lemma superseded_grounds e m m' : grounds m' = grounds m -> supersededByTombstone e m' = supersededByTombstone e m.
Proof.
  intros (_ & _ & _ & E4 & E5 & _)%grounds_views. unfold supersededByTombstone, removalProofFor, tombstoneFor.
  unfold proofs in E4. by rewrite E4, E5.
Qed.

(** The certificate of an entry, if it can be pinned beside what is pinned. *)
Definition pinnable (e : RosterEntry) (m : Manager) : bool :=
  match validateEntryCert e with
  | Some der => pinFilename (re_NodeUUID e) && bool_decide (is_Some (pubFromDER der))
                && match ders m !! re_NodeUUID e with Some d => bool_decide (d = der) | None => true end
  | None => false
  end.

(** An entry that ought to be admitted. *)
Definition admissible (cid : string) (m : Manager) (e : RosterEntry) : bool :=
  negb (bool_decide (re_NodeUUID e = id_NodeUUID self)) && wants e m && negb (supersededByTombstone e m)
  && pinnable e m && entryEndorsed self e cid m.

Lemma admissible_grounds cid e m m' : grounds m' = grounds m -> admissible cid m' e = admissible cid m e.
Proof.
  intros Hg. pose proof (grounds_views _ _ Hg) as (E1 & E2 & _). unfold admissible, pinnable, wants.
  by rewrite (superseded_grounds _ _ _ Hg), (entryEndorsed_grounds _ _ _ _ Hg), E1, E2.
Qed.

(** *** Tombstones change only with an admission *)

Lemma write_t f : frame m_tombstones (write f).
Proof. intros m. unfold write. by destruct (writes _). Qed.
Lemma now_t : frame m_tombstones now.
Proof. by intros m. Qed.
Hint Resolve write_t now_t : frame.
Lemma announce_t b : frame m_tombstones (announce b).
Proof. unfold announce, emit. framed. Qed.
Lemma upsertMember_t n : frame m_tombstones (upsertMember n).
Proof. unfold upsertMember, bump_clusterGen. framed. Qed.
Lemma removeMember_t u : frame m_tombstones (removeMemberByUUID u).
Proof. unfold removeMemberByUUID, bump_clusterGen, emit. framed. Qed.
Lemma collect_t l : frame m_tombstones (collect_members l).
Proof. induction l as [|[k n] l IH]; simpl; framed. Qed.
Hint Resolve announce_t upsertMember_t removeMember_t collect_t : frame.
Lemma persist_t : frame m_tombstones persistMembersErr.
Proof. unfold persistMembersErr. framed. Qed.
Lemma writePin_t pin : frame m_tombstones (writePinLocked pin).
Proof. unfold writePinLocked. framed. Qed.
Hint Resolve persist_t writePin_t : frame.
Lemma merge_t u es : frame m_tombstones (mergeEndorsementsLocked u es).
Proof. unfold mergeEndorsementsLocked. framed. Qed.
Hint Resolve merge_t : frame.
Lemma Pin_t pin : frame m_tombstones (Pin pin).
Proof. unfold Pin. framed. Qed.
Lemma AddEndorsements_t u es : frame m_tombstones (AddEndorsements u es).
Proof. unfold AddEndorsements. framed. Qed.
Lemma refresh_t e : frame m_tombstones (refreshMemberIdentity e).
Proof. unfold refreshMemberIdentity, updateMemberIdentity, UpdateIdentity. framed. Qed.
Hint Resolve Pin_t AddEndorsements_t refresh_t : frame.
Lemma pinEntry_t e der s : frame m_tombstones (pinEntry port e der s).
Proof. unfold pinEntry. framed. Qed.

Lemma apply_entry_quiet cid s e m : store_ok (m_trust m) -> (apply_entry self port cid s e m).1.2 = false ->
  grounds (apply_entry self port cid s e m).2 = grounds m.
Proof.
  intros Hok Hr. pose proof (apply_entry_spec cid s e m Hok) as Ha. rewrite Hr in Ha. destruct (Ha Hok) as (_ & Hau & _).
  assert (m_tombstones (apply_entry self port cid s e m).2 = m_tombstones m) as Ht; [| unfold grounds; congruence].
  assert ((admit_entry self port cid s e m).1 = false -> m_tombstones (admit_entry self port cid s e m).2 = m_tombstones m) as Had.
  { unfold admit_entry. run. case_bool; [done |]. destruct (validateEntryCert e); [| done]. run. case_bool; [done |]. run.
    destruct (pinEntry port e s0 s m) as [[|] m1] eqn:Ep; cbn [fst snd negb]; run; [done |]. intros _.
    pose proof (pinEntry_t e s0 s m) as H. by rewrite Ep in H. }
  clear Ha Hau. revert Hr. unfold apply_entry. destruct (bool_decide (re_NodeUUID e = id_NodeUUID self)); [done |]. run.
  destruct (Get (re_NodeUUID e) m) as [pin|]; [| by run]. destruct (_ <? _); run; [done |]. intros _.
  assert (frame m_tombstones (if bool_decide (re_NodeUUID e = s) then refreshMemberIdentity e else mret false)) as Hf by framed.
  by rewrite Hf, AddEndorsements_t.
Qed.

Section Reliable.
Hypothesis reliable : forall n, writes n = true.

Lemma write_ok f m : (write f m).1 = true.
Proof. unfold write. by rewrite reliable. Qed.

Lemma persist_ok m : (persistMembersErr m).1 = true.
Proof. unfold persistMembersErr. run. apply write_ok. Qed.

Lemma writePin_ok pin m : pinFilename (pin_NodeUUID pin) = true -> (writePinLocked pin m).1 = true.
Proof. intros H. unfold writePinLocked. rewrite H. run. apply write_ok. Qed.

Lemma merge_ok u es m : store_ok (m_trust m) -> (mergeEndorsementsLocked u es m).1 <> None.
Proof.
  intros Hok. unfold mergeEndorsementsLocked. run. destruct (ts_pins (m_trust m) !! u) as [pin|] eqn:E; [| done].
  case_bool; [done |]. run. rewrite writePin_ok; [done |]. destruct (store_pin _ _ _ Hok E) as (d & k & Hl & _).
  by apply load_pin_spec in Hl as (_ & <- & ? & _).
Qed.

Lemma Pin_ok pin m der : store_ok (m_trust m) -> validatePin pin (pin_NodeUUID pin) = Some der -> is_Some (pubFromDER der) ->
  (Pin pin m).1 = match ders m !! pin_NodeUUID pin with Some d => bool_decide (d = der) | None => true end.
Proof.
  intros Hok Hv [pub Hk]. unfold Pin. rewrite Hv, Hk. run. change (ts_ders (m_trust m)) with (ders m).
  assert (pinFilename (pin_NodeUUID pin) = true) as Hf by (unfold validatePin in Hv; by destruct (pinFilename _)).
  destruct (ders m !! pin_NodeUUID pin) as [d|] eqn:Ed; [| run; by rewrite writePin_ok].
  destruct (bool_decide (d = der)) eqn:Eb; [cbn [negb] | done]. unbool. subst d.
  destruct (store_der_pin _ _ _ Hok Ed) as (cur & -> & _). case_bool; run; [by apply writePin_ok |]. case_bool; run; [done |].
  apply bool_decide_eq_true_2. by apply merge_ok.
Qed.

Lemma pinEntry_ok e der s m : store_ok (m_trust m) -> validateEntryCert e = Some der -> (pinEntry port e der s m).1 = pinnable e m.
Proof.
  intros Hok Hv. cut (triple (fun x => core x = core m) (pinEntry port e der s) (fun r _ => r = pinnable e m)); [intros H; by apply H |].
  unfold pinEntry. apply triple_core_bind; [framed |]. intros t.
  match goal with |- context [let '(_, _) := ?x in _] => destruct x as [host p] end.
  do 3 (apply triple_core_bind; [framed |]; intros ?). set (restore := (match _ with Some n => upsertMember n | None => _ end ;; _)).
  intros x0 Hx0. rewrite run_bind, persist_ok. cbn [negb].
  assert (core (persistMembersErr x0).2 = core m) as Hx by (rewrite <- Hx0; apply persistMembersErr_core).
  set (x1 := (persistMembersErr x0).2) in *. clearbody x1. rewrite run_bind, run_get, run_bind. cbn [fst snd].
  rewrite <- (now_core x1) in Hx. set (x := (now x1).2) in *. clearbody x. generalize (now x1).1. intros t'.
  set (pin := mkPin _ _ _ _ _ _ _ _ _). destruct (core_views _ _ Hx) as (E1 & _ & _ & E4 & _ & _). rewrite run_bind.
  assert ((Pin pin x).1 = pinnable e m) as Hp.
  { unfold pinnable. rewrite Hv. apply validateEntryCert_cert in Hv.
    destruct (pinFilename (re_NodeUUID e)) eqn:Ef; [| unfold Pin, validatePin; simpl; by rewrite Ef].
    assert (validatePin pin (pin_NodeUUID pin) = Some der) as Hvp.
    { unfold validatePin. simpl. by rewrite Ef, bool_decide_eq_true_2. }
    destruct (pubFromDER der) as [k|] eqn:Ek; [| unfold Pin; by rewrite Hvp, Ek].
    rewrite (Pin_ok pin x der); [by rewrite E4 | by rewrite E1 | done | by rewrite Ek]. }
  rewrite Hp. destruct (pinnable e m); by run.
Qed.

Lemma admit_entry_ok cid s e m : store_ok (m_trust m) ->
  (admit_entry self port cid s e m).1 = negb (supersededByTombstone e m) && pinnable e m && entryEndorsed self e cid m.
Proof.
  intros Hok. unfold admit_entry. run. destruct (supersededByTombstone e m); [done |].
  destruct (validateEntryCert e) as [der|] eqn:Ev; [| unfold pinnable; by rewrite Ev]. run.
  destruct (entryEndorsed self e cid m); cbn [negb]; [| by rewrite andb_false_r]. rewrite run_bind.
  rewrite (pinEntry_ok _ _ _ _ Hok Ev). destruct (pinnable e m); cbn [negb]; by run.
Qed.

Lemma apply_entry_ok cid s e m : store_ok (m_trust m) -> (apply_entry self port cid s e m).1.2 = admissible cid m e.
Proof.
  intros Hok. unfold apply_entry, admissible. destruct (bool_decide (re_NodeUUID e = id_NodeUUID self)); [done |]. run.
  unfold wants, epochs, pins, Get. rewrite lookup_fmap. destruct (ts_pins (m_trust m) !! re_NodeUUID e) as [pin|]; simpl.
  - destruct (_ <? _); run; [by apply admit_entry_ok | done].
  - run. by apply admit_entry_ok.
Qed.

Lemma pass_rests cid s es m : store_ok (m_trust m) -> (members_pass self port cid s es m).1.2 = false ->
  grounds (members_pass self port cid s es m).2 = grounds m /\ forall e, e ∈ es -> admissible cid m e = false.
Proof.
  revert m. induction es as [|e es IH]; intros m Hok; [intros _; split; [done | by intros e He%not_elem_of_nil] |]. simpl. run.
  intros [Hr Hrest]%orb_false_elim. pose proof (apply_entry_quiet cid s e m Hok Hr) as Hq.
  pose proof (apply_entry_step cid s e [e] m ltac:(set_solver) Hok) as Hst.
  destruct (member_step_ok _ _ _ _ Hok Hst) as [Hok1 _]. destruct (IH _ Hok1 Hrest) as [Hg Hall]. split; [congruence |].
  intros e' [-> | Hin]%elem_of_cons; [by rewrite <- (apply_entry_ok cid s e m Hok) |].
  rewrite <- (admissible_grounds cid e' _ _ Hq). by apply Hall.
Qed.
End Reliable.

(** C21. Merging members comes to rest (roster.go, [applyMembers]): each pass that admits an
    entry leaves fewer entries to wait for, so the loop ends within as many passes as there
    are entries and one more, whatever the disk answers; a longer bound gives the same run.
    Where the disk accepts every write, what it leaves is closed: no entry remains that names
    another node in a later admission than it is pinned in, is not superseded by a removal,
    carries a certificate that can be pinned and is endorsed by a trusted node, however the
    endorsements of the roster depend on one another and in whatever order they come. *)
Theorem members_settle entries cid sender m :
  store_ok (m_trust m) ->
  (forall fuel, (length entries < fuel)%nat ->
     members_loop self port fuel entries cid sender false m = applyMembers self port entries cid sender m) /\
  ((forall n, writes n = true) ->
     forall e, e ∈ entries -> admissible cid (applyMembers self port entries cid sender m).2 e = false).
Proof.
  intros Hok. unfold applyMembers.
  assert (forall m, (waiting entries m <= length entries)%nat) as Hw by (intros m'; apply filter_length_le).
  split.
  - intros fuel Hf. induction fuel as [|fuel IH]; [lia |]. destruct (decide (fuel = length entries)) as [-> | Hne]; [done |].
    rewrite (proj2 (loop_rests fuel cid sender entries false m Hok ltac:(specialize (Hw m); lia))). apply IH. lia.
  - intros Hr e Hin. destruct (loop_rests (S (length entries)) cid sender entries false m Hok ltac:(specialize (Hw m); lia))
      as [(m1 & Hok1 & Hf & ->) _].
    destruct (pass_rests Hr cid sender entries m1 Hok1 Hf) as [Hg Hall]. rewrite (admissible_grounds cid e _ _ Hg). by apply Hall.
Qed.
End Admit.
