(* ===== verification/ClusterRemoval.v ===== *)
(** A removed node stays removed: what every operation of the manager, a restart included,
    does to a node whose removal is on record (services/nvpair-cluster-manager). *)
From S2P Require Import Prelude.
From S2P Require Import GoStd.
From S2P Require Import GoBytes.
From S2P Require Import ClusterAddresses.
From S2P Require Import ClusterTrust.
From S2P Require Import ClusterState.
From S2P Require Import ClusterRoster.
From S2P Require Import ClusterLogic.
From S2P Require Import ClusterSafety.

Open Scope string_scope.
Open Scope list_scope.
Open Scope Z_scope.

(** * Nodes that are out *)

Definition active (c : string) (s : admissionState) : Prop := ad_ClusterID s = c /\ ad_Epoch s <> 0.

(** The stored proofs name node [u] once at least, and each time in cluster [c] with an
    admission no earlier than [n]. *)
Definition rows (u : string) (n : Z) (c : string) (l : list RemovalProof) : Prop :=
  (exists p, p ∈ l /\ proof_uuid p = u) /\
  forall p, p ∈ l -> proof_uuid p = u -> n <= proof_epoch p /\ tb_ClusterID (rp_Tombstone p) = c.

Definition keyed (ps : gmap string RemovalProof) : Prop := forall k p, ps !! k = Some p -> proof_uuid p = k.

(** What being out depends on. *)
Definition anchor (m : Manager) :=
  (m_trust m, files m, m_clusterID m, m_admission m, d_admission (m_disk m), proofs m, proof_file m).

Section Removal.
Context {pki : Pki} {sha : Sha256} {R : MapRange} (self : NodeIdentity) (port : Z).
Variables (u : string) (n : Z) (c : string).

(** Node [u] has no pin, in memory or on file; this node is in cluster [c], in memory and on
    file; the file of proofs ends admission [n] of [u]. *)
Definition quarantined (m : Manager) : Prop :=
  store_ok (m_trust m) /\ epochs m !! u = None /\ files m !! u = None /\ m_clusterID m = c /\ active c (m_admission m) /\
  (exists s, d_admission (m_disk m) = Some s /\ active c s) /\ rows u n c (proof_file m).

(** And so does the proof held in memory. *)
Definition barred (m : Manager) : Prop :=
  quarantined m /\ keyed (proofs m) /\
  exists p, proofs m !! u = Some p /\ n <= proof_epoch p /\ tb_ClusterID (rp_Tombstone p) = c.

Definition readmitted (m : Manager) : Prop := exists e, epochs m !! u = Some e /\ n < e.

Lemma anchor_barred m m' : anchor m' = anchor m -> barred m -> barred m'.
Proof.
  unfold barred, quarantined, anchor, epochs, pins. intros E.
  assert (m_trust m' = m_trust m /\ files m' = files m /\ m_clusterID m' = m_clusterID m /\ m_admission m' = m_admission m
    /\ d_admission (m_disk m') = d_admission (m_disk m) /\ proofs m' = proofs m /\ proof_file m' = proof_file m)
    as (-> & -> & -> & -> & -> & -> & ->) by (split_and!; congruence). done.
Qed.
Lemma core_anchor m m' : core m' = core m -> anchor m' = anchor m.
Proof. unfold core, anchor, files, proofs, proof_file. intros E. congruence. Qed.
Lemma core_barred m m' : core m' = core m -> barred m -> barred m'.
Proof. intros H. by apply anchor_barred, core_anchor. Qed.

(** A change of other pins. *)
Definition spares (m m' : Manager) : Prop :=
  store_ok (m_trust m) -> epochs m !! u = None -> files m !! u = None ->
  store_ok (m_trust m') /\ epochs m' !! u = None /\ files m' !! u = None /\ standing m' = standing m.

Lemma spares_refl m : spares m m.
Proof. by intros. Qed.
Lemma spares_trans m1 m2 m3 : spares m1 m2 -> spares m2 m3 -> spares m1 m3.
Proof. intros H12 H23 A B C. destruct (H12 A B C) as (A' & B' & C' & E), (H23 A' B' C') as (? & ? & ? & ?). split_and!; [done.. | congruence]. Qed.
Lemma core_spares m m' : core m' = core m -> spares m m'.
Proof. intros Hc A B C. destruct (core_views _ _ Hc) as (-> & -> & -> & _ & _ & ->). done. Qed.
Lemma amends_spares m m' : amends m m' -> spares m m'.
Proof.
  intros H A B C. destruct (H A) as (A' & Hau & Hf). unfold authority in Hau.
  split_and!; [done | congruence | by rewrite Hf | congruence].
Qed.
Lemma removed_spares v ok m m' : removed_pin v ok m m' -> spares m m'.
Proof.
  intros [Hs H] A B C. destruct ok; destruct H as [Ht Hf].
  - split_and!; [rewrite Ht; by apply store_ok_drop | | | done].
    + unfold epochs, pins in *. rewrite Ht. simpl. rewrite fmap_delete. apply lookup_delete_None. by right.
    + rewrite Hf. apply lookup_delete_None. by right.
  - unfold epochs, pins in *. by rewrite Ht, Hf.
Qed.
Lemma spares_quarantined m m' : spares m m' -> quarantined m -> quarantined m'.
Proof.
  intros H (A & B & C & D & E & F & G). destruct (H A B C) as (A' & B' & C' & Hs).
  pose proof (standing_parts _ _ Hs) as (Hp & Hf & Hi). unfold quarantined.
  assert (m_clusterID m' = m_clusterID m /\ m_admission m' = m_admission m /\ d_admission (m_disk m') = d_admission (m_disk m))
    as (-> & -> & ->) by (unfold identity_of in Hi; split_and!; congruence).
  rewrite Hf. by split_and!.
Qed.
Lemma spares_barred m m' : spares m m' -> barred m -> barred m'.
Proof.
  intros H (Q & K & P). split; [by eapply spares_quarantined |]. destruct Q as (A & B & C & _).
  destruct (H A B C) as (_ & _ & _ & Hs). apply standing_parts in Hs as (-> & _). done.
Qed.

(** * The proofs stay *)

Hypothesis not_self : u <> id_NodeUUID self.

Lemma snapshot_rows v p : keyed v -> v !! u = Some p -> n <= proof_epoch p -> tb_ClusterID (rp_Tombstone p) = c ->
  rows u n c (sort_by rp_before (range v).*2).
Proof.
  intros K E Hn Hc.
  assert (forall q, q ∈ sort_by rp_before (range v).*2 <-> exists k, v !! k = Some q) as Hin.
  { intros q. rewrite elem_of_sort_by, list_elem_of_fmap. split.
    - intros ([k q'] & -> & H). exists k. by apply elem_of_range.
    - intros [k H]. exists (k, q). split; [done |]. by apply elem_of_range. }
  split.
  - exists p. split; [apply Hin; by exists u | by apply K].
  - intros q [k Hq]%Hin Hqu. apply K in Hq as Hk. assert (q = p) as -> by (subst k; congruence). done.
Qed.

(** Proofs rewritten, the rest as it was: node [u] stays out when its own entry stays. *)
Lemma proofs_barred m m' : barred m -> base m' = base m -> keyed (proofs m') ->
  proofs m' !! u = proofs m !! u ->
  (proof_file m' = proof_file m \/ proof_file m' = sort_by rp_before (range (proofs m')).*2) -> barred m'.
Proof.
  intros ((A & B & C & D & E & F & G) & K & p & Hp & Hn & Hc) Hb K' Hu Hf.
  pose proof (base_views _ _ Hb) as (E1 & E2 & E3 & _ & _ & E6).
  assert (rows u n c (proof_file m')) as G'.
  { destruct Hf as [-> | ->]; [done |]. eapply snapshot_rows; [done | by rewrite Hu, Hp | done..]. }
  unfold barred, quarantined. assert (m_clusterID m' = m_clusterID m /\ m_admission m' = m_admission m /\ d_admission (m_disk m') = d_admission (m_disk m))
    as (-> & -> & ->) by (unfold identity_of in E2; split_and!; congruence).
  rewrite E1, E3, E6, Hu. split_and!; try done. by exists p.
Qed.

Lemma cleared_barred v e m m' : v <> u -> base m' = base m -> cleared v e m m' -> barred m -> barred m'.
Proof.
  intros Hne Hb Hc Hm. pose proof Hm as (_ & K & _). apply (proofs_barred m); [done | done | ..].
  all: destruct Hc as [[E1 E2] | (p & _ & _ & E1 & E2)].
  all: try (by rewrite ?E1).
  - rewrite E1. intros k q [_ Hq]%lookup_delete_Some. by apply K.
  - rewrite E1. by apply lookup_delete_ne.
  - by left.
  - by right.
Qed.

Lemma record_step_barred m m' : record_step self m m' -> barred m -> barred m'.
Proof.
  intros [Hc | p [Hb (q & Ht & Ha & _ & Ep & Ef)] | v e He Hb Hc | v e q _ He _ _ Hr] Hm.
  - by eapply core_barred.
  - pose proof Hm as ((_ & Hu & _) & K & _).
    assert (proof_uuid p <> u) as Hne.
    { intros E. unfold targetAdmissionAuthenticated in Ha. rewrite E in Ha. case_bool; [done |].
      rewrite bool_decide_eq_false_2 in Ha by done. unfold Get in Ha. unfold epochs, pins in Hu. rewrite lookup_fmap in Hu.
      by destruct (ts_pins (m_trust m) !! u). }
    apply (proofs_barred m); [done | done | | | by right]; rewrite Ep.
    + intros k r. rewrite lookup_insert_Some. intros [[<- <-] | [_ H]]; [unfold proof_uuid; by rewrite Ht | by apply K].
    + by apply lookup_insert_ne.
  - apply (cleared_barred v e m); [| done..]. intros ->. destruct Hm as ((_ & Hu & _) & _). congruence.
  - eapply spares_barred; [by eapply removed_spares | done].
Qed.

Lemma record_steps_barred m m' : rtc (record_step self) m m' -> barred m -> barred m'.
Proof. induction 1; [done |]. eauto using record_step_barred. Qed.

(** * Only a later admission lets the node back *)

Lemma member_step_epoch cid entries m m' e : store_ok (m_trust m) -> member_step self cid entries m m' ->
  epochs m !! u = Some e -> exists e', epochs m' !! u = Some e' /\ e <= e'.
Proof.
  intros Hok [Ha | en _ (_ & Hw & _ & _ & _ & _ & (der & pub & _ & _ & Ee & _) & _)] He.
  - destruct (Ha Hok) as (_ & Hau & _). exists e. split; [unfold authority in Hau; congruence | lia].
  - rewrite Ee. destruct (decide (re_NodeUUID en = u)) as [E | Hne]; [| exists e; by rewrite lookup_insert_ne].
    unfold wants in Hw. rewrite E, He in Hw. unbool. exists (re_AdmissionEpoch en). rewrite E, lookup_insert_eq. split; [done | lia].
Qed.

Lemma member_step_barred cid entries m m' : store_ok (m_trust m) -> member_step self cid entries m m' ->
  barred m \/ readmitted m -> barred m' \/ readmitted m'.
Proof.
  intros Hok Hst [Hm | (e & He & Hn)].
  - destruct Hst as [Ha | e _ (_ & _ & Hsup & _ & Hok' & Hi & (der & pub & _ & _ & Ee & Ed & Ep & Ef) & Hc)].
    { left. eapply spares_barred; [by apply amends_spares | done]. }
    destruct (decide (re_NodeUUID e = u)) as [Eu | Hne].
    + right. exists (re_AdmissionEpoch e). rewrite Ee, Eu, lookup_insert_eq. split; [done |].
      destruct Hm as (_ & _ & p & Hp & Hn & _). unfold supersededByTombstone, removalProofFor in Hsup.
      rewrite Eu in Hsup. change (m_removalProofs m) with (proofs m) in Hsup. rewrite Hp in Hsup. unbool. lia.
    + left. destruct Hm as ((A & B & C & D & E & F & G) & K & p & Hp & Hn & Hpc).
      assert (rows u n c (proof_file m') /\ keyed (proofs m') /\ proofs m' !! u = Some p) as (G' & K' & Hp').
      { destruct Hc as [[-> ->] | (q & _ & _ & E1 & E2)]; [done |].
        assert (keyed (proofs m')) as K' by (rewrite E1; intros k r [_ Hr]%lookup_delete_Some; by apply K).
        assert (proofs m' !! u = Some p) as Hp' by (by rewrite E1, lookup_delete_ne).
        split_and!; [| done | done]. rewrite E2. by eapply snapshot_rows. }
      unfold barred, quarantined.
      assert (m_clusterID m' = m_clusterID m /\ m_admission m' = m_admission m /\ d_admission (m_disk m') = d_admission (m_disk m))
        as (-> & -> & ->) by (unfold identity_of in Hi; split_and!; congruence).
      split_and!; try done; [by rewrite Ee, lookup_insert_ne | by rewrite Ef | by exists p].
  - right. destruct (member_step_epoch cid entries m m' e Hok Hst He) as (e' & He' & Hle). exists e'. split; [done | lia].
Qed.

Lemma member_steps_barred cid entries m m' : rtc (member_step self cid entries) m m' -> store_ok (m_trust m) ->
  barred m \/ readmitted m -> barred m' \/ readmitted m'.
Proof.
  induction 1 as [|m m1 m2 H _ IH]; intros Hok Hm; [done |].
  apply IH; [by apply (member_step_ok self _ _ _ _ Hok H) | by eapply member_step_barred].
Qed.

(** What an operation leaves of a node that is out: it is out, or back in a later
    admission, or this node has left the cluster. *)
Definition fate (m : Manager) : Prop := barred m \/ readmitted m \/ m_clusterID m <> c.

Section Steps.
Context {W : World}.

Lemma fate_core {A} (x : M A) m : frame core x -> fate m -> fate (x m).2.
Proof.
  intros H [Hm | [(e & He) | Hm]]; specialize (H m).
  - left. by eapply core_barred.
  - right; left. exists e. by destruct (core_views _ _ H) as (_ & _ & -> & _).
  - right; right. assert (m_clusterID (x m).2 = m_clusterID m) as -> by (unfold core in H; congruence). done.
Qed.

Definition outcome {A} (x : M A) : Prop := forall m, barred m -> fate (x m).2.

Lemma out_frame {A} (x : M A) : frame core x -> outcome x.
Proof. intros H m Hm. by apply fate_core; [| left]. Qed.
Lemma out_pre {A B} (x : M A) (k : A -> M B) : frame core x -> (forall a, outcome (k a)) -> outcome (x ≫= k).
Proof. intros Hx Hk m Hm. rewrite run_bind. apply Hk. apply (core_barred m); [apply Hx | done]. Qed.
Lemma out_keeps {A B} (x : M A) (k : A -> M B) : keeps barred x -> (forall a, outcome (k a)) -> outcome (x ≫= k).
Proof. intros Hx Hk m Hm. rewrite run_bind. apply Hk. by apply Hx. Qed.
Lemma out_post {A B} (x : M A) (k : A -> M B) : outcome x -> (forall a, frame core (k a)) -> outcome (x ≫= k).
Proof. intros Hx Hk m Hm. rewrite run_bind. apply fate_core; [apply Hk | by apply Hx]. Qed.
Lemma out_read {A B} (f : Manager -> A) (k : A -> M B) : (forall a m, barred m -> f m = a -> fate (k a m).2) -> outcome (get f ≫= k).
Proof. intros H m Hm. rewrite run_bind. by apply H. Qed.
Lemma keeps_out {A} (x : M A) : keeps barred x -> outcome x.
Proof. intros H m Hm. left. by apply H. Qed.

(** A computation that changes other pins only. *)
Definition sparing {A} (x : M A) : Prop := forall m, spares m (x m).2.
Lemma sparing_frame {A} (x : M A) : frame core x -> sparing x.
Proof. intros H m. apply core_spares, H. Qed.
Lemma sparing_bind {A B} (x : M A) (k : A -> M B) : sparing x -> (forall a, sparing (k a)) -> sparing (x ≫= k).
Proof. intros Hx Hk m. rewrite run_bind. eapply spares_trans; [apply Hx | apply Hk]. Qed.
Lemma sparing_any_change {A} (l : list A) f : (forall x, sparing (f x)) -> sparing (any_change l f).
Proof.
  intros H. induction l as [|x l IH]; simpl; [apply sparing_frame; framed |].
  apply sparing_bind; [done |]. intros b. apply sparing_bind; [done |]. intros b'. apply sparing_frame. framed.
Qed.
Lemma keeps_spares {A} (x : M A) : sparing x -> keeps barred x.
Proof. intros H m Hm. apply (spares_barred m); [apply H | done]. Qed.
Lemma out_sparing {A B} (x : M A) (k : A -> M B) : sparing x -> (forall a, outcome (k a)) -> outcome (x ≫= k).
Proof. intros H. by apply out_keeps, keeps_spares. Qed.

Lemma Remove_sparing v : sparing (Remove v).
Proof. intros m. eapply removed_spares, Remove_spec. Qed.
Lemma put_keeps p : keeps barred (putRemovalProof self p).
Proof.
  intros m Hm. pose proof (putRemovalProof_spec self p m) as [Hb H]. pose proof Hm as (_ & K & _).
  destruct (putRemovalProof self p m).1 as [[|]|] eqn:E.
  - apply (record_step_barred m); [| done]. apply (step_store _ _ _ p). by split.
  - destruct H as (E1 & E2 & _). apply (proofs_barred m); [done | done | by rewrite E1 | by rewrite E1 | by left].
  - destruct H as (E1 & E2). apply (proofs_barred m); [done | done | by rewrite E1 | by rewrite E1 | by left].
Qed.

Lemma merge_outcome remote sender : outcome (mergeRosterLocked self port remote sender).
Proof.
  intros m Hm. unfold mergeRosterLocked. run. case_bool; [by left |]. run.
  pose proof (record_steps_barred _ _ (applyRemovalProofs_steps self (ro_RemovalProofs remote) (m_clusterID m) m) Hm) as H1.
  set (m1 := (applyRemovalProofs _ _ _ m).2) in *. clearbody m1.
  pose proof (core_barred _ _ (applyTombstones_core self (ro_Tombstones remote) (m_clusterID m) m1) H1) as H2.
  set (m2 := (applyTombstones _ _ _ m1).2) in *. clearbody m2. unfold applyMembers.
  destruct (member_steps_barred _ _ _ _ (members_loop_steps self port (S (length (ro_Members remote))) (m_clusterID m) sender
    (ro_Members remote) false m2 ltac:(apply H2)) ltac:(apply H2) (or_introl H2)) as [H | H]; [by left | by right; left].
Qed.
Hint Resolve learn_core : frame.

(** The outermost test. *)
Ltac out_case :=
  match goal with
  | |- outcome (match ?x with _ => _ end) => destruct x
  | |- sparing (match ?x with _ => _ end) => destruct x
  | |- keeps _ (match ?x with _ => _ end) => destruct x
  end.

Lemma roster_end_outcome client sender pin0 a0 remote observed hosts :
  outcome (roster_end self port client sender pin0 a0 remote observed hosts).
Proof.
  unfold roster_end. destruct remote as [remote|]; [| by apply out_frame; framed].
  do 3 (apply out_pre; [framed |]; intros ?). case_bool; [apply out_frame; framed |].
  apply out_post; [apply merge_outcome |]. intros changed. framed.
Qed.

Lemma reconcile_end_outcome peer addr pin0 a0 reply : outcome (reconcile_end self port peer addr pin0 a0 reply).
Proof.
  unfold reconcile_end. do 4 (apply out_pre; [framed |]; intros ?). case_bool; [apply out_frame; framed |].
  case_bool; [apply out_frame; framed |]. case_bool; [apply out_frame; framed |]. case_bool; [apply out_frame; framed |].
  destruct (rpl_Roster reply) as [remote|]; [| apply out_frame; framed].
  apply out_post; [apply merge_outcome |]. intros changed. framed.
Qed.

(** ** Teardown *)

Lemma Forget_spares v m : spares m (Forget v m).2.
Proof.
  unfold Forget. run. eapply spares_trans; [| apply core_spares, announce_core].
  intros A B C. split_and!; [by apply store_ok_drop | | done | done].
  unfold epochs, pins, drop_store_pin in *. simpl. rewrite fmap_delete. apply lookup_delete_None. by right.
Qed.
Lemma drop_pins_spares l b m : spares m (drop_pins l b m).2.
Proof.
  revert b m. induction l as [|pin l IH]; intros b m; simpl; [apply spares_refl |]. run.
  eapply spares_trans; [apply Remove_sparing |]. eapply spares_trans; [| apply IH].
  destruct (Remove (pin_NodeUUID pin) m).1; simpl; [apply spares_refl | apply Forget_spares].
Qed.

(** Where a computation ends, whatever it starts from. *)
Definition ends {A} (P : Manager -> Prop) (x : M A) : Prop := forall m, P (x m).2.
Lemma ends_bind {A B} P (x : M A) (k : A -> M B) : (forall a, ends P (k a)) -> ends P (x ≫= k).
Proof. intros H m. rewrite run_bind. apply H. Qed.

Lemma remove_file_cid {A} (g : Disk -> option A) f : frame m_clusterID (remove_file g f).
Proof. intros m. unfold remove_file, write. case_match; [| done]. by destruct (writes _). Qed.
Hint Resolve remove_file_cid : frame.

Lemma finish_leaves : ends (fun m => m_clusterID m = "") finishDurableTeardown.
Proof.
  unfold finishDurableTeardown. do 9 (apply ends_bind; intros ?). intros m. rewrite run_bind.
  assert (m_clusterID (setClusterIdentity "" "" m).2 = "") as E.
  { unfold setClusterIdentity, when, bump_clusterGen. run. by case_match. }
  set (m1 := (setClusterIdentity "" "" m).2) in *. clearbody m1. rewrite <- E.
  match goal with |- m_clusterID (?x m1).2 = _ => assert (frame m_clusterID x) as H; [| apply H] end.
  unfold resetSessions, resetInvites, emit. framed.
Qed.

Hypothesis cluster : c <> "".

Lemma teardown_outcome : outcome teardownClusterLocalLocked.
Proof.
  unfold teardownClusterLocalLocked. intros m Hm. rewrite run_bind.
  assert ((beginDurableTeardown m).1 = false -> anchor (beginDurableTeardown m).2 = anchor m) as Hb.
  { unfold beginDurableTeardown, write. run. by destruct (writes _). }
  destruct (beginDurableTeardown m) as [[|] m1]; cbn [fst snd] in *.
  - right; right. rewrite finish_leaves. done.
  - left. run. by apply (anchor_barred m); [apply Hb |].
Qed.

Lemma teardown_local_outcome : outcome teardownClusterLocal.
Proof. unfold teardownClusterLocal. apply out_post; [apply teardown_outcome |]. intros [|]; framed. Qed.

Lemma removeBare_sparing cid gen peers : sparing (removeBareRejectingPeers cid gen peers).
Proof.
  unfold removeBareRejectingPeers. apply sparing_bind; [apply sparing_frame; framed |]. intros ok.
  out_case; [apply sparing_frame; framed |].
  apply sparing_bind; [| intros; apply sparing_frame; framed]. apply sparing_any_change. intros x.
  apply sparing_bind; [apply sparing_frame; framed |]. intros ok'. out_case; [apply sparing_frame; framed |].
  apply sparing_bind; [apply Remove_sparing |]. intros r. out_case; apply sparing_frame; framed.
Qed.

Lemma verdict_outcome cid gen answers : outcome (self_remove_verdict cid gen answers).
Proof.
  unfold self_remove_verdict. apply out_sparing; [unfold when; out_case; [apply removeBare_sparing | apply sparing_frame; framed] |]. intros _.
  out_case; [apply out_frame; framed |]. apply out_pre; [framed |]. intros stale. out_case; [apply out_frame; framed |].
  apply out_post; [apply teardown_outcome |]. intros [|]; framed.
Qed.

Lemma told_outcome uuid der a0 gen0 req : outcome (members_remove_end self uuid der a0 gen0 req).
Proof.
  unfold members_remove_end. destruct req as [[claimed proof]|]; [| apply out_frame; framed].
  out_case; [apply out_frame; framed |]. do 3 (apply out_pre; [framed |]; intros ?).
  out_case; [apply out_frame; framed |]. apply out_pre; [framed |]. intros ok. out_case; [apply out_frame; framed |].
  apply out_post; [apply teardown_outcome |]. intros [|]; framed.
Qed.

(** ** Removing others, and leaving *)

Lemma remove_begin_keeps nodeID nodeUUID : outcome (nodes_remove_begin self nodeID nodeUUID).
Proof.
  unfold nodes_remove_begin. do 2 (apply out_pre; [framed |]; intros ?). out_case; [| apply out_frame; framed].
  out_case; [apply out_frame; framed |]. do 3 (apply out_pre; [framed |]; intros ?).
  out_case; [apply out_frame; framed |]. apply out_pre; [framed |]. intros [proof|]; [| apply out_frame; framed].
  apply out_keeps; [apply put_keeps |]. intros r. apply out_frame. framed.
Qed.

Lemma remove_end_outcome node cid0 e0 : outcome (nodes_remove_end node cid0 e0).
Proof.
  unfold nodes_remove_end. do 3 (apply out_pre; [framed |]; intros ?). out_case; [apply out_frame; framed |].
  apply out_sparing; [apply Remove_sparing |]. intros r. apply out_frame. framed.
Qed.

(** An active admission is neither renewed nor replaced. *)
Lemma ensure_idle id m : barred m ->
  ensureAdmission id m = (if bool_decide (id = c) then Some (ad_Epoch (m_admission m)) else None, m).
Proof.
  intros ((_ & _ & _ & _ & [Hc He] & _) & _). unfold ensureAdmission. run. rewrite Hc.
  rewrite (proj2 (Z.eqb_neq _ 0)) by done. cbn [negb]. rewrite andb_true_r.
  destruct (decide (id = c)) as [-> | Hne]; [by rewrite !bool_decide_eq_true_2 |].
  rewrite !bool_decide_eq_false_2 by done. done.
Qed.
Lemma ensure_keeps id : keeps barred (ensureAdmission id).
Proof. intros m Hm. by rewrite ensure_idle. Qed.

Lemma leave_begin_outcome : outcome (leave_begin self).
Proof.
  unfold leave_begin. apply out_pre; [framed |]. intros cid. out_case; [apply out_frame; framed |].
  apply out_pre; [framed |]. intros a. apply out_keeps; [out_case; [apply ensure_keeps | apply keeps_ret] |].
  intros [e|]; [| apply out_frame; framed]. apply out_pre; [framed |]. intros [proof|]; [| apply out_frame; framed].
  apply out_keeps; [apply put_keeps |]. intros r. apply out_frame. framed.
Qed.

(** ** Restoring an identity *)

Lemma writePin_spares pin ok m m' : pin_NodeUUID pin <> u ->
  (store_ok (m_trust m) -> exists der pub, load_pin (pin_NodeUUID pin) pin = Some (pin, der, pub)
     /\ ders m !! pin_NodeUUID pin = Some der /\ pubs m !! pin_NodeUUID pin = Some pub) ->
  pin_written pin ok m m' -> spares m m' /\ ders m' = ders m /\ pubs m' = pubs m.
Proof.
  intros Hu Hl [Hs Hw]. destruct ok; simpl in Hw.
  - destruct Hw as (_ & Ht & Hf). split; [| unfold ders, pubs; by rewrite Ht].
    intros A B C. destruct (Hl A) as (der & pub & Hl' & Hd & Hk). split_and!; [| | | done].
    + rewrite Ht. by apply (store_ok_replace _ _ _ der pub).
    + unfold epochs, pins in *. rewrite Ht. simpl. rewrite fmap_insert, lookup_insert_ne by done. exact B.
    + by rewrite Hf, lookup_insert_ne.
  - destruct Hw as [Ht Hf]. split; [| unfold ders, pubs; by rewrite Ht]. intros A B C.
    unfold epochs, pins in *. by rewrite Ht, Hf.
Qed.

(** A pin under the key of one that is held. *)
Definition held_as (m : Manager) (x : string * TrustedPin) : Prop :=
  x.1 <> u /\ exists der pub, load_pin x.1 x.2 = Some (x.2, der, pub) /\ ders m !! x.1 = Some der /\ pubs m !! x.1 = Some pub.

Lemma migrate_pins_spares cid l b m : Forall (held_as m) l -> spares m (migrate_pins cid l b m).2.
Proof.
  revert b m. induction l as [|[k pin] l IH]; intros b m Hl; [apply spares_refl |].
  apply Forall_cons in Hl as [(Hu & der & pub & Hld & Hd & Hk) Hl]. cbn [fst snd] in *. simpl.
  case_match; [by apply IH |]. case_match; [by apply IH |]. clear H H0.
  set (pin' := with_pin_admission _ _ pin).
  apply load_pin_spec in Hld as (_ & Ek & Hf & Hp & Hpk).
  assert (load_pin k pin' = Some (pin', der, pub)) as Hl' by (by apply load_pin_spec).
  assert (pin_NodeUUID pin' = k) as Ek' by done.
  destruct (writePin_spares pin' _ m _ ltac:(by rewrite Ek')
    ltac:(intros _; rewrite Ek'; by exists der, pub) (writePin_spec pin' m)) as (Hs & E1 & E2).
  run. destruct (writePinLocked pin' m) as [[|] m1]; cbn [fst snd] in *; run; [| exact Hs].
  eapply spares_trans; [exact Hs |]. apply IH. eapply Forall_impl; [exact Hl |].
  intros x (Hx & d & k' & H1 & H2 & H3). split; [done |]. exists d, k'. by rewrite E1, E2.
Qed.

Lemma legacy_sparing cid : sparing (MigrateLegacyAdmissions cid).
Proof.
  intros m. unfold MigrateLegacyAdmissions. run.
  assert (Forall (fun x => store_ok (m_trust m) -> epochs m !! u = None -> held_as m x) (range (ts_pins (m_trust m)))) as Hl.
  { apply Forall_forall. intros [k pin] Hin%elem_of_range A B. change (ts_pins (m_trust m)) with (pins m) in Hin.
    split; simpl; [| by apply (store_pin (m_trust m))].
    intros ->. unfold epochs in B. by rewrite lookup_fmap, Hin in B. }
  intros A B. eapply spares_trans; [apply migrate_pins_spares | apply core_spares, announce_core | done | done].
  eapply Forall_impl; [exact Hl |]. auto.
Qed.

Lemma AddEndorsements_sparing v es : sparing (AddEndorsements v es).
Proof. intros m. apply amends_spares, AddEndorsements_amends. Qed.

Lemma migrate_endorsements_sparing cid e l es : sparing (migrate_endorsements self cid e l es).
Proof.
  revert es. induction l as [|pin l IH]; intros es; simpl; [apply sparing_frame; framed |].
  out_case; [apply IH |]. out_case; [apply IH |]. apply sparing_bind; [apply sparing_frame; framed |]. intros en.
  apply sparing_bind; [apply AddEndorsements_sparing |]. intros [|]; [apply IH | apply sparing_frame; framed].
Qed.

Lemma migrate_sparing cid e : sparing (migrateLegacyAdmissions self cid e).
Proof.
  unfold migrateLegacyAdmissions. out_case; [apply sparing_frame; framed |]. apply sparing_bind; [apply legacy_sparing |].
  intros ok. out_case; [apply sparing_frame; framed |]. apply sparing_bind; [apply sparing_frame; framed |]. intros l.
  apply sparing_bind; [apply migrate_endorsements_sparing |]. intros [es|]; apply sparing_frame; framed.
Qed.

Lemma prune_pins_sparing cid l : sparing (prune_pins cid l).
Proof.
  induction l as [|[k pin] l IH]; simpl; [apply sparing_frame; framed |]. apply sparing_bind; [apply sparing_frame; framed |]. intros o.
  match goal with |- sparing (if ?b then _ else _) => destruct b end; [apply IH |].
  apply sparing_bind; [apply Remove_sparing |]. intros [|]; [apply IH | apply sparing_frame; framed].
Qed.

Lemma prune_sparing cid e : sparing (pruneUnauthenticatedMembers self cid e).
Proof.
  unfold pruneUnauthenticatedMembers. do 2 (apply sparing_bind; [apply sparing_frame; framed |]; intros ?).
  apply sparing_bind; [apply sparing_frame; framed |]. intros _. apply sparing_bind; [apply prune_pins_sparing |]. intros ok.
  out_case; apply sparing_frame; framed.
Qed.

Lemma set_identity_keeps friendly : keeps barred (setClusterIdentity c friendly).
Proof.
  intros m Hm. apply (anchor_barred m); [| done]. unfold setClusterIdentity, anchor, when, bump_clusterGen. run.
  destruct Hm as ((_ & _ & _ & E & _) & _). case_match; run; unfold files, proofs, proof_file; simpl; by rewrite E.
Qed.

Lemma restore_outcome id friendly : outcome (set_identity self id friendly).
Proof.
  unfold set_identity. apply out_read. intros cur m Hm <-. pose proof Hm as ((_ & _ & _ & E & _) & _). rewrite E. run.
  case_match; [by left |]. clear H. rewrite (bool_decide_eq_false_2 (c = "")) by done. cbn [negb]. rewrite andb_true_r.
  set (id' := if bool_decide (id = "") then c else id).
  assert (id' <> "") as Hid by (subst id'; by case_bool; unbool). rewrite (bool_decide_eq_false_2 (id' = "")) by done.
  rewrite run_bind, (ensure_idle _ _ Hm). cbn [fst snd]. destruct (decide (id' = c)) as [-> | Hne].
  - rewrite bool_decide_eq_true_2 by done. generalize (ad_Epoch (m_admission m)). intros e. revert m Hm E.
    enough (forall e, outcome (ok ← migrateLegacyAdmissions self c e; if negb ok then mret SError else
        ok ← pruneUnauthenticatedMembers self c e; if negb ok then mret SError else setClusterIdentity c friendly;; mret SRestored))
      as H by (intros m Hm _; by apply H).
    clear e. intros e. apply out_sparing; [apply migrate_sparing |]. intros ok. out_case; [apply out_frame; framed |].
    apply out_sparing; [apply prune_sparing |]. intros ok'. out_case; [apply out_frame; framed |].
    apply out_keeps; [apply set_identity_keeps |]. intros _. apply out_frame. framed.
  - rewrite bool_decide_eq_false_2 by done. by left.
Qed.

(** ** Pairing *)

Lemma Pin_fate pin m : (pin_NodeUUID pin = u -> n < pin_AdmissionEpoch pin) -> barred m ->
  if (Pin pin m).1 then (if decide (pin_NodeUUID pin = u) then readmitted (Pin pin m).2 else barred (Pin pin m).2)
  else barred (Pin pin m).2.
Proof.
  intros Hlate Hm. pose proof Hm as ((A & B & C & _) & _). destruct (Pin_spec pin m A) as (Hok & Hs & [[Ha Hp] | [Ht Hp]]).
  - pose proof (spares_barred _ _ (amends_spares _ _ Ha) Hm) as Hb. destruct (Pin pin m).1; [| done].
    destruct (decide _) as [E | _]; [| done]. destruct (Hp eq_refl) as (e & He & _). rewrite E in He. congruence.
  - rewrite Ht. destruct Hp as (der & pub & _ & _ & Ee & _ & _ & Hf & _). destruct (decide _) as [E | Hne].
    + exists (pin_AdmissionEpoch pin). rewrite Ee, E, lookup_insert_eq. auto.
    + apply (spares_barred m); [| done]. intros _ _ _. split_and!; [done | | | done].
      * by rewrite Ee, lookup_insert_ne.
      * by rewrite Hf.
Qed.

Lemma clear_fate v e m : (if decide (v = u) then readmitted m else barred m) -> fate (clearRemovalProofAfterAdmission v e m).2.
Proof.
  intros H. destruct (clear_spec v e m) as [Hb Hc]. destruct (decide (v = u)) as [-> | Hne].
  - right; left. destruct H as (e' & He). exists e'. by destruct (base_views _ _ Hb) as (_ & _ & -> & _).
  - left. by eapply cleared_barred.
Qed.

Lemma late_admission pi cid e m : barred m -> m_clusterID m = cid -> pi = u ->
  removalProofBlocksAdmission pi cid e m = false -> n < e.
Proof.
  intros ((_ & _ & _ & Hc & _) & _ & p & Hp & Hn & Hpc) <- ->. unfold removalProofBlocksAdmission, removalProofFor.
  change (m_removalProofs m) with (proofs m). rewrite Hp, Hpc, Hc, bool_decide_eq_true_2 by done. simpl.
  intros H. unbool. lia.
Qed.

(** Pinning in a late admission, undone by [undo] or concluded by [conclude]. *)
Lemma pinning_outcome {A} pin (undo conclude : M A) :
  (pin_NodeUUID pin = u -> n < pin_AdmissionEpoch pin) -> outcome undo ->
  (forall m, (if decide (pin_NodeUUID pin = u) then readmitted m else barred m) -> fate (conclude m).2) ->
  outcome (ok ← Pin pin; if negb ok then undo else conclude).
Proof.
  intros Hlate Hu Hc m Hm. rewrite run_bind. pose proof (Pin_fate pin m Hlate Hm) as H.
  destruct (Pin pin m) as [[|] m1]; cbn [fst snd negb] in *; [by apply Hc | by apply Hu].
Qed.

Lemma commit_tail sess admitted der t : (pi_NodeUUID admitted = u -> n < pi_AdmissionEpoch admitted) ->
  outcome (
    e ← endorsePeer self (pi_NodeUUID admitted) (certFingerprintFromDER der) (pi_AdmissionEpoch admitted);
    recordMember port admitted stateMember (Some t);;
    ok ← persistMembersErr;
    if negb ok then (_ ← removeMemberByUUID (pi_NodeUUID admitted); mret CommitFailed) else
    ok ← pinPeer admitted der [e];
    if negb ok then (_ ← removeMemberByUUID (pi_NodeUUID admitted); _ ← persistMembersErr; mret CommitFailed) else
    _ ← clearRemovalProofAfterAdmission (pi_NodeUUID admitted) (pi_AdmissionEpoch admitted);
    modify (fun m => set_sessions (alter (with_peerPairing (Some admitted)) (ps_inviteID sess) (m_sessions m)) m);;
    let address := hostOnly (ps_joinerAddr sess) in
    when (negb (bool_decide (address = "")))
      (emit (PairingCompleted address (pi_NodeUUID admitted) (pi_ClusterID admitted) (pi_AdmissionEpoch admitted)));;
    mret CommitDone).
Proof.
  intros Hlate. apply out_pre; [framed |]. intros e. apply out_pre; [apply recordMember_core |]. intros _.
  apply out_pre; [framed |]. intros ok. out_case; [apply out_frame; framed |].
  set (undo := _ ← removeMemberByUUID _; _). set (conclude := _ ← clearRemovalProofAfterAdmission _ _; _).
  intros m Hm. unfold pinPeer. rewrite run_bind, run_bind. set (pin := mkPin _ _ _ _ _ _ _ _ _).
  assert (outcome (ok ← Pin pin; if negb ok then undo else conclude)) as H.
  { apply pinning_outcome; [exact Hlate | apply out_frame; subst undo; framed |]. intros m' Hm'.
    apply (clear_fate _ (pi_AdmissionEpoch admitted)) in Hm'. subst conclude. rewrite run_bind.
    set (m1 := (clearRemovalProofAfterAdmission _ _ m').2) in *. clearbody m1.
    match goal with |- fate (?x m1).2 => assert (frame core x) as Hf; [| by apply fate_core] end. framed. }
  specialize (H (now m).2). rewrite run_bind in H. apply H. by apply (core_barred m); [apply now_core |].
Qed.

Lemma commit_outcome sess p der t : outcome (commitPairing self port sess p der t).
Proof.
  unfold commitPairing. apply out_pre; [framed |]. intros pending. apply out_read. intros cid m Hm Hcid.
  rewrite run_bind, run_get, run_bind, run_get. cbn [fst snd].
  case_match; [by left |]. case_match eqn:Ec; [by left |]. case_match; [by left |]. case_match eqn:Eb; [by left |]. unbool.
  apply commit_tail; [| done]. intros E. eapply (late_admission (pi_NodeUUID p)); [exact Hm | | exact E | done]. congruence.
Qed.

(** * Steps of the manager *)

(** Whatever the disk and the clock do meanwhile.  Founding a cluster and adopting one are
    reached only by a node that is in none. *)
Inductive op : Type :=
| OpRoster (client : peer_cert) (sender : string) (pin0 : TrustedPin) (a0 : string * Z) (remote : option Roster) (observed : string) (hosts : list string)
| OpReconcile (peer addr : string) (pin0 : TrustedPin) (a0 : string * Z) (reply : RosterReply)
| OpVerdict (cid : string) (gen : Z) (answers : list (ClusterNode * reconcileOutcome * bool))
| OpDial (uuid : string) (addrs : list string)
| OpRemove (nodeID nodeUUID : option string) | OpRemoved (node : ClusterNode) (cid : string) (epoch : Z)
| OpTold (uuid der : string) (a0 : string * Z) (gen : Z) (req : option (string * RemovalProof))
| OpLeave | OpTeardown
| OpFound (newID friendly : string) | OpIdentity (id friendly : string)
| OpCommit (sess : pairingSession) (p : PairingInfo) (der : string) (t : Z)
| OpAdopt (sess : pairingSession) (inv : Invite) (p : PairingInfo) (der : string) (t : Z).

Definition run_op (o : op) : M () :=
  match o with
  | OpRoster client sender pin0 a0 remote observed hosts => _ ← roster_end self port client sender pin0 a0 remote observed hosts; mret ()
  | OpReconcile peer addr pin0 a0 reply => _ ← reconcile_end self port peer addr pin0 a0 reply; mret ()
  | OpVerdict cid gen answers => self_remove_verdict cid gen answers
  | OpDial uuid addrs => _ ← reservePeerDialCandidates uuid addrs; mret ()
  | OpRemove nodeID nodeUUID => _ ← nodes_remove_begin self nodeID nodeUUID; mret ()
  | OpRemoved node cid epoch => _ ← nodes_remove_end node cid epoch; mret ()
  | OpTold uuid der a0 gen req => _ ← members_remove_end self uuid der a0 gen req; mret ()
  | OpLeave => _ ← leave_begin self; mret ()
  | OpTeardown => _ ← teardownClusterLocal; mret ()
  | OpFound newID friendly => _ ← foundCluster self port newID friendly; mret ()
  | OpIdentity id friendly => _ ← set_identity self id friendly; mret ()
  | OpCommit sess p der t => _ ← commitPairing self port sess p der t; mret ()
  | OpAdopt sess inv p der t => _ ← adoptCluster self port sess inv p der t; mret ()
  end.

Definition unclustered_only (o : op) : bool := match o with OpFound _ _ | OpAdopt _ _ _ _ _ => true | _ => false end.

Lemma run_op_outcome o : unclustered_only o = false -> outcome (run_op o).
Proof.
  destruct o; intros Hg; try discriminate Hg; cbn [run_op];
    try match goal with |- outcome (mbind _ _) => apply out_post; [| intros; framed] end.
  - apply roster_end_outcome.
  - apply reconcile_end_outcome.
  - apply verdict_outcome.
  - apply out_frame, reservePeerDialCandidates_core.
  - apply remove_begin_keeps.
  - apply remove_end_outcome.
  - apply told_outcome.
  - apply leave_begin_outcome.
  - apply teardown_local_outcome.
  - apply restore_outcome.
  - apply commit_outcome.
Qed.

Lemma run_op_fate o m : (unclustered_only o = true -> m_clusterID m = "") -> barred m -> fate (run_op o m).2.
Proof.
  intros Hg Hm. destruct (unclustered_only o) eqn:E; [| by apply run_op_outcome].
  destruct Hm as ((_ & _ & _ & Hc & _) & _). specialize (Hg eq_refl). congruence.
Qed.

(** ** Restarting *)

Hypothesis named : u <> "".
Hypothesis positive : 0 < n.

(** The proofs read from the file. *)
Definition loaded (l : list RemovalProof) (ps : gmap string RemovalProof) : gmap string RemovalProof :=
  fold_left (fun ps p => load_proof p ps) l ps.

Lemma loadRemovalProofs_spec m :
  m_removalProofs (loadRemovalProofs m).2 = loaded (proof_file m) (m_removalProofs m) /\
  (m_trust (loadRemovalProofs m).2, m_disk (loadRemovalProofs m).2, m_admission (loadRemovalProofs m).2, m_clusterID (loadRemovalProofs m).2)
  = (m_trust m, m_disk m, m_admission m, m_clusterID m).
Proof.
  unfold loadRemovalProofs. run. change (d_removalProofs (m_disk m)) with (proof_file m).
  generalize (proof_file m). intros l. revert m. induction l as [|p l IH]; intros m; [done |]. simpl. run.
  destruct (IH (set_removalProofs (load_proof p (m_removalProofs m)) m)) as [E1 E2]. rewrite E1, E2. done.
Qed.

Definition loads (ps : gmap string RemovalProof) : Prop :=
  keyed ps /\ forall p, ps !! u = Some p -> n <= proof_epoch p /\ tb_ClusterID (rp_Tombstone p) = c.

Lemma load_proof_loads p ps : loads ps -> (proof_uuid p = u -> n <= proof_epoch p /\ tb_ClusterID (rp_Tombstone p) = c) ->
  loads (load_proof p ps) /\ (is_Some (ps !! u) \/ proof_uuid p = u -> is_Some (load_proof p ps !! u)).
Proof.
  intros [K L] Hp. unfold load_proof.
  assert (loads (<[proof_uuid p := p]> ps)) as Hi.
  { split; [intros k q; rewrite lookup_insert_Some; intros [[<- <-] | [_ H]]; [done | by apply K] |].
    intros q. rewrite lookup_insert_Some. intros [[E <-] | [_ H]]; [by apply Hp | by apply L]. }
  assert (is_Some (ps !! u) \/ proof_uuid p = u -> is_Some (<[proof_uuid p := p]> ps !! u)) as Hs.
  { rewrite lookup_insert_is_Some'. tauto. }
  destruct (_ || _) eqn:E0.
  { split; [done |]. intros [H | Eu]; [done |]. specialize (Hp Eu).
    apply orb_prop in E0 as [E0 | E0]; unbool; [congruence | lia]. }
  destruct (ps !! proof_uuid p) as [cur|] eqn:Ec; [| by split].
  destruct (proof_epoch cur <? proof_epoch p); [by split |]. split; [done |]. intros [H | <-]; [done | by rewrite Ec].
Qed.

Lemma loaded_bars l ps : loads ps ->
  (forall p, p ∈ l -> proof_uuid p = u -> n <= proof_epoch p /\ tb_ClusterID (rp_Tombstone p) = c) ->
  loads (loaded l ps) /\ (is_Some (ps !! u) \/ (exists p, p ∈ l /\ proof_uuid p = u) -> is_Some (loaded l ps !! u)).
Proof.
  revert ps. induction l as [|p l IH]; intros ps Hps Hl; simpl.
  - split; [done |]. intros [H | (p & Hp & _)]; [done |]. by apply not_elem_of_nil in Hp.
  - destruct (load_proof_loads p ps Hps) as [H1 H2]; [apply Hl; by left |].
    destruct (IH (load_proof p ps) H1) as [H3 H4]; [intros q Hq; apply Hl; by right |].
    split; [done |]. intros [H | (q & [-> | Hq]%elem_of_cons & Hu)]; apply H4; [left; auto | left; auto |]. right. by exists q.
Qed.

(** Node [u] has no pin and the proofs in memory do not contradict the file: where a start
    stands until the file of proofs is read. *)
Definition staged (m : Manager) : Prop := quarantined m /\ loads (proofs m).

Lemma staged_sparing {A} (x : M A) m : sparing x -> staged m -> staged (x m).2.
Proof.
  intros H [Q L]. split; [by eapply spares_quarantined |]. destruct Q as (A1 & B & C & _).
  destruct (H m A1 B C) as (_ & _ & _ & Hs). by apply standing_parts in Hs as (-> & _).
Qed.

Lemma staged_barred m : staged m -> barred (loadRemovalProofs m).2.
Proof.
  intros [(A & B & C & D & E & F & [G1 G2]) L]. destruct (loadRemovalProofs_spec m) as [Ep Ev].
  change (m_removalProofs m) with (proofs m) in Ep. set (m' := (loadRemovalProofs m).2) in *. clearbody m'.
  assert (m_trust m' = m_trust m /\ m_disk m' = m_disk m /\ m_admission m' = m_admission m /\ m_clusterID m' = m_clusterID m)
    as (E1 & E2 & E3 & E4) by (split_and!; congruence).
  destruct (loaded_bars _ _ L G2) as [[K L'] Hs]. rewrite <- Ep in K, L', Hs. destruct (Hs (or_intror G1)) as [p Hp].
  unfold barred, quarantined, epochs, pins, files, proof_file in *. rewrite E1, E2, E3, E4. split_and!; try done.
  exists p. by destruct (L' p Hp).
Qed.

Lemma drop_pins_sparing l b : sparing (drop_pins l b).
Proof. intros m. apply drop_pins_spares. Qed.

Lemma rollback_sparing : sparing (rollbackIncompleteAdmission self).
Proof.
  unfold rollbackIncompleteAdmission. apply sparing_bind; [apply sparing_frame; framed |]. intros a.
  out_case; [apply sparing_frame; framed |]. apply sparing_bind; [apply sparing_frame; framed |]. intros [me|]; [| apply sparing_frame; framed].
  out_case; [apply sparing_frame; framed |]. apply sparing_bind; [apply sparing_frame; framed |]. intros l.
  apply sparing_bind; [apply drop_pins_sparing |]. intros ok. apply sparing_frame. framed.
Qed.

Lemma Remove_cid v : frame m_clusterID (Remove v).
Proof. intros m. destruct (Remove_spec v m) as [Hs _]. unfold standing in Hs. congruence. Qed.
Lemma core_cid {A} (x : M A) : frame core x -> frame m_clusterID x.
Proof. intros H m. specialize (H m). unfold core in H. congruence. Qed.
Lemma removeMember_cid v : frame m_clusterID (removeMemberByUUID v).
Proof. apply core_cid, removeMemberByUUID_core. Qed.
Lemma persist_cid : frame m_clusterID persistMembersErr.
Proof. apply core_cid, persistMembersErr_core. Qed.
Hint Resolve Remove_cid removeMember_cid persist_cid : frame.

Lemma replay_proofs_cid cid l b : frame m_clusterID (replay_proofs self cid l b).
Proof. revert b. induction l as [|p l IH]; intros b; simpl; [framed |]. framed; apply IH. Qed.
Hint Resolve replay_proofs_cid : frame.
Lemma replay_cid : frame m_clusterID (replayRemovalProofs self).
Proof. unfold replayRemovalProofs. framed. Qed.

Lemma replay_sparing : sparing (replayRemovalProofs self).
Proof.
  assert (forall cid l b, sparing (replay_proofs self cid l b)) as H.
  { intros cid l. induction l as [|p l IH]; intros b; simpl; [apply sparing_frame; framed |].
    apply sparing_bind; [apply sparing_frame; framed |]. intros ok. out_case; [apply IH |].
    apply sparing_bind; [apply sparing_frame; framed |]. intros pin.
    apply sparing_bind; [match goal with |- sparing (if ?b then _ else _) => destruct b end;
                         [apply Remove_sparing | apply sparing_frame; framed] |].
    intros r. out_case; [apply sparing_frame; framed |]. apply sparing_bind; [apply sparing_frame; framed |]. intros o.
    apply sparing_bind; [apply sparing_frame; framed |]. intros r'. apply IH. }
  unfold replayRemovalProofs. apply sparing_bind; [apply sparing_frame; framed |]. intros a.
  out_case; [apply sparing_frame; framed |]. apply sparing_bind; [apply sparing_frame; framed |]. intros l.
  apply sparing_bind; [apply H |]. intros [[|]|]; apply sparing_frame; framed.
Qed.

Lemma recover_outcome m : barred m -> barred (recoverPendingTeardown m).2 \/ m_clusterID (recoverPendingTeardown m).2 = "".
Proof.
  intros Hm. unfold recoverPendingTeardown. rewrite run_bind, run_get. cbn [fst snd]. case_match; [right | by left].
  run. apply finish_leaves.
Qed.

(** What a start finds when the disk is that of a node that has [u] out. *)
Lemma load_store_absent d : d_pins d !! u = None -> ts_pins (load_store d) !! u = None.
Proof. intros H. unfold load_store. simpl. by rewrite lookup_fmap, map_lookup_imap, H. Qed.

Lemma check_active s s' : check_admission s = Some s' -> active c s -> active c s'.
Proof.
  unfold check_admission, active. intros H Ha. revert H.
  destruct ((ad_Activated s =? 0) && negb (ad_Epoch s =? 0)); cbv zeta; simpl; repeat (case_match; [done |]); by intros [= <-].
Qed.

Lemma loadAdmission_spec m s : d_admission (m_disk m) = Some s ->
  loadAdmission m = match check_admission s with Some s' => (true, set_admission s' m) | None => (false, m) end.
Proof. intros H. unfold loadAdmission. rewrite run_bind, run_get. cbn [fst snd]. rewrite H. by case_match. Qed.

(** The rest of a start that succeeds. *)
Definition boots (x : M bool) : Prop := forall m, staged m -> (x m).1 = true -> fate (x m).2.

Lemma boots_pre {A} (x : M A) (k : A -> M bool) : sparing x -> (forall a, boots (k a)) -> boots (x ≫= k).
Proof. intros Hx Hk m Hm. rewrite run_bind. apply Hk. by apply staged_sparing. Qed.
Lemma boots_false : boots (mret false).
Proof. by intros m _ [=]. Qed.

Lemma boots_tail :
  boots (loadRemovalProofs;; loadInviteCreatedCluster;; ok ← recoverPendingTeardown; if negb ok then mret false else replayRemovalProofs self).
Proof.
  intros m Hm _. rewrite run_bind. apply staged_barred in Hm. set (m1 := (loadRemovalProofs m).2) in *. clearbody m1.
  rewrite run_bind. pose proof (core_barred _ _ (loadInviteCreatedCluster_core m1) Hm) as H2.
  set (m2 := (loadInviteCreatedCluster m1).2) in *. clearbody m2. rewrite run_bind.
  pose proof (recover_outcome m2 H2) as H3. set (r := recoverPendingTeardown m2) in *. clearbody r.
  destruct r as [[|] m3]; cbn [fst snd negb] in *.
  - destruct H3 as [H3 | H3]; [left; by apply (keeps_spares _ replay_sparing) |].
    right; right. rewrite replay_cid, H3. done.
  - destruct H3 as [H3 | H3]; [by left | right; right; simpl; by rewrite H3].
Qed.

Lemma NewManager_fate m io ticks :
  barred m -> (NewManager self (init_manager (m_disk m) io ticks)).1 = true ->
  fate (NewManager self (init_manager (m_disk m) io ticks)).2.
Proof.
  intros ((_ & _ & Hf & _ & _ & (s & Hs & Has) & Hrows) & _). unfold NewManager.
  rewrite run_bind, run_modify. cbn [fst snd]. set (m1 := set_trust _ _).
  rewrite run_bind, (loadAdmission_spec m1 s Hs). destruct (check_admission s) as [s'|] eqn:Ec; [| done].
  cbn [fst snd negb]. destruct (check_active s s' Ec Has) as [Hc He].
  rewrite run_bind, run_get. cbn [fst snd m_admission set_admission]. rewrite Hc, bool_decide_eq_false_2 by done.
  rewrite (proj2 (Z.eqb_neq _ 0)) by done. cbn [negb andb when]. rewrite run_bind, run_modify. cbn [fst snd].
  set (m2 := set_clusterID c (set_admission s' m1)).
  assert (staged m2) as Hst.
  { unfold staged, quarantined, loads. split_and!; try done.
    - apply load_store_ok.
    - unfold epochs, pins. change (m_trust m2) with (load_store (m_disk m)). by rewrite lookup_fmap, load_store_absent.
    - by exists s. }
  clearbody m2. revert m2 Hst.
  match goal with |- forall m, _ -> (?k m).1 = true -> _ => assert (boots k) as H; [| exact H] end.
  apply boots_pre; [apply sparing_frame; unfold when; framed |]. intros _.
  apply boots_pre; [apply sparing_frame; framed |]. intros _. apply boots_pre; [apply rollback_sparing |]. intros [|]; [| apply boots_false].
  apply boots_pre; [apply migrate_sparing |]. intros [|]; [| apply boots_false].
  apply boots_pre; [apply prune_sparing |]. intros [|]; [| apply boots_false].
  apply boots_pre; [apply sparing_frame; framed |]. intros _. apply boots_pre; [apply sparing_frame; framed |]. intros _.
  apply boots_tail.
Qed.
End Steps.

(** * Runs *)

(** One step of the node: an operation, or a restart on its disk that succeeds. *)
Inductive node_step (m m' : Manager) : Prop :=
| step_op (W : World) o : (unclustered_only o = true -> m_clusterID m = "") -> m' = (run_op o m).2 -> node_step m m'
| step_restart (W : World) io ticks : NewManager self (init_manager (m_disk m) io ticks) = (true, m') -> node_step m m'.
End Removal.

(** C6. A removed node stays removed (remove.go, removal_proof_store.go, roster.go,
    manager.go): once the removal of admission [n] of a node is on record and its pin is
    gone, then through any sequence of operations of this node and of restarts on what its
    disk holds - rosters from any peer, replies, verdicts, other removals, pairings, identity
    restores, each with disk writes that succeed or fail in any pattern - the node has no
    pin, in memory or on file, and the record stays in both; until the node is seen pinned in
    a later admission than [n], or this node has left the cluster. *)
Theorem removal_sticks {pki : Pki} {sha : Sha256} {R : MapRange} self port u n c m m' :
  u <> id_NodeUUID self -> u <> "" -> 0 < n -> c <> "" ->
  barred u n c m -> rtc (node_step self port) m m' ->
  barred u n c m' \/
  exists mi, rtc (node_step self port) m mi /\ rtc (node_step self port) mi m' /\ (readmitted u n mi \/ m_clusterID mi <> c).
Proof.
  intros Hu Hnm Hn Hc Hm Hr. induction Hr as [m | m m1 m2 Hst Hr IH]; [by left |].
  assert (fate u n c m1) as [Hb | H].
  { destruct Hst as [W o Hg -> | W io ticks Hnew]; [by apply run_op_fate |].
    pose proof (NewManager_fate self u n c Hu Hc Hnm Hn m io ticks Hm) as Hf. rewrite Hnew in Hf. by apply Hf. }
  - destruct (IH Hb) as [H | (mi & H1 & H2 & H3)]; [by left |]. right. exists mi. split_and!; [by eapply rtc_l | done | done].
  - right. exists m1. split_and!; [by apply rtc_once | done | done].
Qed.
