(* ===== verification/ClusterTeardown.v ===== *)
(** Leaving a cluster is final: what a teardown leaves behind whichever of its writes fail,
    and what the next start makes of it (services/nvpair-cluster-manager/teardown_store.go,
    leave.go, manager.go). *)
From S2P Require Import Prelude.
From S2P Require Import GoStd.
From S2P Require Import GoBytes.
From S2P Require Import ClusterAddresses.
From S2P Require Import ClusterTrust.
From S2P Require Import ClusterState.
From S2P Require Import ClusterRoster.
From S2P Require Import ClusterLogic.
From S2P Require Import ClusterSafety.
From S2P Require Import ClusterRemoval.

Open Scope string_scope.
Open Scope list_scope.
Open Scope Z_scope.

(** Operations that only read the disk, write one file or advance the clock. *)
Ltac leaf := intros ?; unfold write, remove_file, now; repeat case_match; reflexivity.
Ltac framing := repeat first [frame_step | solve [leaf] | case_match].

Section Teardown.
Context {pki : Pki} {sha : Sha256} {R : MapRange} {W : World} (self : NodeIdentity) (port : Z).

(** * Readings *)

Definition trusted (m : Manager) := (m_trust m, files m).
Definition admitted_as (m : Manager) := (m_admission m, d_admission (m_disk m)).
Definition marker (m : Manager) := d_teardown (m_disk m).
Definition pending (m : Manager) := m_teardownPending m.

(** What follows an operation does not touch what is read. *)
Lemma after {X A B} (f : Manager -> X) (x : M A) (k : A -> M B) m : (forall a, frame f (k a)) -> f ((x ≫= k) m).2 = f (x m).2.
Proof. intros H. rewrite run_bind. apply H. Qed.

Lemma collect_trusted l : frame trusted (collect_members l).
Proof. induction l as [|[k x] l IH]; simpl; framing. Qed.
Lemma collect_admitted l : frame admitted_as (collect_members l).
Proof. induction l as [|[k x] l IH]; simpl; framing. Qed.
Lemma collect_marker l : frame marker (collect_members l).
Proof. induction l as [|[k x] l IH]; simpl; framing. Qed.
Lemma collect_pending l : frame pending (collect_members l).
Proof. induction l as [|[k x] l IH]; simpl; framing. Qed.
Hint Resolve collect_trusted collect_admitted collect_marker collect_pending : frame.

(** The parts of a teardown between the pins and the marker. *)
Ltac teardown_parts :=
  unfold resetMembership, persistMembersErr, clearAllTombstones, commit_tombstones, persistTombstonesLocked,
    clearAllRemovalProofs, commit_proofs, persistRemovalProofsLocked, clearInviteCreatedCluster, setClusterIdentity,
    resetSessions, resetInvites, emit, bump_clusterGen, clearAdmission, commit_admission, persistAdmissionLocked.

Lemma drop_one v m :
  let r := Remove v m in let m' := (when (negb r.1) (Forget v) r.2).2 in
  m_trust m' = m_trust (drop_store_pin v m) /\ standing m' = standing m /\ (r.1 = true -> files m' = delete v (files m)).
Proof.
  pose proof (Remove_spec v m) as [Hs Hr]. destruct (Remove v m) as [[|] m1]; simpl in *.
  - destruct Hr as [Ht Hf]. by split_and!.
  - destruct Hr as [Ht Hf]. unfold Forget. run. pose proof (announce_core (held v m1) (drop_store_pin v m1)) as Hc.
    set (m2 := (announce _ _).2) in *. clearbody m2. pose proof (core_views _ _ Hc) as (E1 & E2 & _).
    split_and!; [| rewrite E2; exact Hs | done]. rewrite E1. unfold drop_store_pin. simpl. by rewrite Ht.
Qed.

(** What is left is as it was, and not of the list. *)
Definition without (l : list string) (old new : gmap string TrustedPin) : Prop :=
  forall u p, new !! u = Some p -> old !! u = Some p /\ u ∉ l.

Lemma without_delete u l old mid new : (forall v p, mid !! v = Some p -> delete u old !! v = Some p) -> without l mid new -> without (u :: l) old new.
Proof.
  intros Hm Hw v p H. apply Hw in H as [H Hl]. apply Hm, lookup_delete_Some in H as [Hne H].
  split; [done |]. intros [-> | ?]%elem_of_cons; done.
Qed.

Lemma drop_pins_spec l b m :
  let r := drop_pins l b m in
  without (pin_NodeUUID <$> l) (pins m) (pins r.2) /\ standing r.2 = standing m /\
  (r.1 = true -> b = true /\ without (pin_NodeUUID <$> l) (files m) (files r.2)).
Proof.
  revert b m. induction l as [|pin l IH]; intros b m; cbn [drop_pins].
  - run. split_and!; [| done | intros ->; split; [done |]]; intros u p H; (split; [done | apply not_elem_of_nil]).
  - run. destruct (drop_one (pin_NodeUUID pin) m) as (Ht & Hs & Hf).
    destruct (Remove (pin_NodeUUID pin) m) as [r m1]. cbn [fst snd] in *. set (m2 := (when (negb r) _ m1).2) in *. clearbody m2.
    destruct (IH (b && r) m2) as (H1 & H2 & H3). rewrite fmap_cons. split_and!.
    + eapply without_delete; [| exact H1]. intros v p. unfold pins. by rewrite Ht.
    + congruence.
    + intros [Hbr Hw]%H3. apply andb_prop in Hbr as [-> ->]. split; [done |]. eapply without_delete; [| exact Hw].
      intros v p. by rewrite (Hf eq_refl).
Qed.

Lemma elem_of_List m u pin : store_ok (m_trust m) -> pins m !! u = Some pin -> u ∈ pin_NodeUUID <$> List_ m.
Proof.
  intros Hok H. apply list_elem_of_fmap. exists pin. split; [symmetry; by apply (store_key (m_trust m)) |].
  unfold List_. apply list_elem_of_fmap. exists (u, pin). split; [done |]. by apply elem_of_range.
Qed.

(** * A teardown in progress *)

(** Nothing of the cluster is left in memory but, where their files could not be written,
    the records that grant nothing. *)
Definition quiet (m : Manager) : Prop :=
  m_clusterID m = "" /\ pins m = ∅ /\ m_members m = ∅ /\ m_sessions m = ∅ /\ m_clusterTornDown m = true /\
  (forall k i, m_invites m !! k = Some i -> iv_State i <> inviteStatePending).

(** And when it is done: nothing on file either, and the admission is retired. *)
Definition clean (old m : Manager) : Prop :=
  marker m = None /\ m_teardownPending m = false /\ m_tombstones m = ∅ /\ proofs m = ∅ /\
  (forall u, epochs old !! u <> None -> files m !! u = None) /\ d_members (m_disk m) = [] /\
  m_admission m = mkAdmission (ad_Counter (m_admission old)) (ad_Activated (m_admission old)) true "" 0 /\
  d_admission (m_disk m) = Some (m_admission m).

Lemma clearAdmission_spec m :
  let r := clearAdmission m in
  core (set_admission no_admission (set_disk (with_admission None (m_disk r.2)) r.2))
    = core (set_admission no_admission (set_disk (with_admission None (m_disk m)) m)) /\
  if r.1 then m_admission r.2 = mkAdmission (ad_Counter (m_admission m)) (ad_Activated (m_admission m)) true "" 0
              /\ d_admission (m_disk r.2) = Some (m_admission r.2)
  else admitted_as r.2 = admitted_as m.
Proof. unfold clearAdmission, commit_admission, persistAdmissionLocked, write, admitted_as. run. by destruct (writes _). Qed.

(** ** The parts of a teardown after the pins *)

Lemma resetMembership_spec m : m_members (resetMembership m).2 = ∅ /\ core (resetMembership m).2 = core m.
Proof.
  split; [| apply resetMembership_core]. unfold resetMembership. rewrite run_bind, run_get, run_bind, run_modify. cbn [fst snd].
  set (m1 := set_members ∅ m). transitivity (m_members m1); [| done].
  match goal with |- m_members (?x m1).2 = _ => assert (frame m_members x) as H; [| apply H] end.
  unfold bump_clusterGen, emit. framing.
Qed.

Lemma persist_empty m : m_members m = ∅ ->
  let r := persistMembersErr m in
  (core r.2, m_members r.2, m_tombstones r.2) = (core m, m_members m, m_tombstones m) /\ (r.1 = true -> d_members (m_disk r.2) = []).
Proof.
  intros Hm. unfold persistMembersErr. rewrite run_bind, run_get. cbn [fst snd]. rewrite Hm.
  assert (range (∅ : gmap string ClusterNode) = []) as -> by (apply Permutation_nil; by rewrite range_perm, map_to_list_empty).
  cbn [collect_members]. unfold write. run. cbn [sort_by]. destruct (writes _); simpl; by rewrite Hm.
Qed.

Lemma clearTombstones_spec m :
  let r := clearAllTombstones m in
  (core r.2, m_members r.2, d_members (m_disk r.2)) = (core m, m_members m, d_members (m_disk m)) /\ (r.1 = true -> m_tombstones r.2 = ∅).
Proof.
  unfold clearAllTombstones, commit_tombstones, persistTombstonesLocked, write. run.
  destruct (bool_decide (m_tombstones m = ∅)) eqn:E; unbool; [by split |]. run. by destruct (writes _).
Qed.

Lemma clearProofs_spec m :
  let r := clearAllRemovalProofs m in
  (base r.2, m_members r.2, d_members (m_disk r.2), m_tombstones r.2) = (base m, m_members m, d_members (m_disk m), m_tombstones m)
  /\ (r.1 = true -> proofs r.2 = ∅).
Proof.
  unfold clearAllRemovalProofs, commit_proofs, persistRemovalProofsLocked, write. run.
  destruct (bool_decide (m_removalProofs m = ∅)) eqn:E; unbool; [by split |]. run. by destruct (writes _).
Qed.

Lemma clearInvite_spec m :
  let r := clearInviteCreatedCluster m in
  (core r.2, m_members r.2, d_members (m_disk r.2), m_tombstones r.2) = (core m, m_members m, d_members (m_disk m), m_tombstones m).
Proof. unfold clearInviteCreatedCluster, remove_file, write. run. simpl. destruct (d_inviteCreated _); [by destruct (writes _) | done]. Qed.

(** What a teardown holds to the end, once the files have been seen to. *)
Definition remains (m : Manager) :=
  (m_trust m, files m, admitted_as m, marker m, pending m, proofs m, m_members m, d_members (m_disk m), m_tombstones m).

Lemma close_spec m :
  let m' := (setClusterIdentity "" "";; resetSessions;; resetInvites;; modify (set_clusterTornDown true);; emit ConnectionsClosed)
    m in
  remains m'.2 = remains m /\ m_clusterID m'.2 = "" /\ m_sessions m'.2 = ∅ /\ m_clusterTornDown m'.2 = true /\
  (forall k i, m_invites m'.2 !! k = Some i -> iv_State i <> inviteStatePending).
Proof.
  cbv zeta. unfold setClusterIdentity, resetSessions, resetInvites, emit, bump_clusterGen, when.
  run. simpl. destruct (_ || _); run; simpl.
  all: split_and!; [done.. |]; intros k i; rewrite map_lookup_filter_Some; by intros [_ ?].
Qed.

(** The marker goes last, and only when every file went. *)
Lemma marker_spec (all : bool) m :
  let r := (if negb all then mret false else
            ok ← remove_file d_teardown (with_teardown None);
            if ok : bool then modify (set_teardownPending false);; mret true else mret false) m in
  (m_trust r.2, files r.2, admitted_as r.2, m_clusterID r.2) = (m_trust m, files m, admitted_as m, m_clusterID m) /\
  (m_members r.2, m_sessions r.2, m_clusterTornDown r.2, m_invites r.2) = (m_members m, m_sessions m, m_clusterTornDown m, m_invites m) /\
  (m_tombstones r.2, proofs r.2, d_members (m_disk r.2)) = (m_tombstones m, proofs m, d_members (m_disk m)) /\
  if r.1 then all = true /\ marker r.2 = None /\ pending r.2 = false else pending r.2 = pending m /\ marker r.2 = marker m.
Proof.
  destruct all; [| by split_and!]. unfold remove_file, write. run. cbn [negb]. run.
  destruct (d_teardown (m_disk m)) as [mk|] eqn:E; [| by split_and!]. destruct (writes (m_io m)); cbn [fst snd]; run; by split_and!.
Qed.

(** From the pins to the marker: what is left of [m]. *)
Lemma files_spec m :
  exists ok3 ok4 ok5 ok6 m',
  (forall (ok : bool) (k : bool -> M bool),
    (resetMembership;;
     ok3 ← persistMembersErr; ok4 ← clearAllTombstones; ok5 ← clearAllRemovalProofs; ok6 ← clearInviteCreatedCluster;
     setClusterIdentity "" "";; resetSessions;; resetInvites;; modify (set_clusterTornDown true);; emit ConnectionsClosed;;
     k (ok && ok3 && ok4 && ok5 && ok6)) m = k (ok && ok3 && ok4 && ok5 && ok6) m') /\
  (m_trust m', files m', admitted_as m') = (m_trust m, files m, admitted_as m) /\ pending m' = pending m /\ marker m' = marker m /\
  m_clusterID m' = "" /\ m_members m' = ∅ /\ m_sessions m' = ∅ /\ m_clusterTornDown m' = true /\
  (forall k i, m_invites m' !! k = Some i -> iv_State i <> inviteStatePending) /\
  (ok3 = true -> d_members (m_disk m') = []) /\ (ok4 = true -> m_tombstones m' = ∅) /\ (ok5 = true -> proofs m' = ∅).
Proof.
  destruct (resetMembership_spec m) as [E1 F1]. destruct (resetMembership m) as [x1 m1] eqn:R1. cbn [snd] in *.
  destruct (persist_empty m1 E1) as [E2 F2]. destruct (persistMembersErr m1) as [ok3 m2] eqn:R2. cbn [fst snd] in *.
  destruct (clearTombstones_spec m2) as [E3 F3]. destruct (clearAllTombstones m2) as [ok4 m3] eqn:R3. cbn [fst snd] in *.
  destruct (clearProofs_spec m3) as [E4 F4]. destruct (clearAllRemovalProofs m3) as [ok5 m4] eqn:R4. cbn [fst snd] in *.
  pose proof (clearInvite_spec m4) as E5. cbv zeta in E5. destruct (clearInviteCreatedCluster m4) as [ok6 m5] eqn:R5. cbn [fst snd] in *.
  pose proof (close_spec m5) as E6. cbv zeta in E6. rewrite !run_bind in E6.
  remember (emit ConnectionsClosed (modify (set_clusterTornDown true) (resetInvites (resetSessions (setClusterIdentity "" "" m5).2).2).2).2).2
    as m6 eqn:R6.
  exists ok3, ok4, ok5, ok6, m6. split.
  { intros ok k. rewrite run_bind, R1. cbn [fst snd]. rewrite run_bind, R2. cbn [fst snd]. rewrite run_bind, R3. cbn [fst snd].
    rewrite run_bind, R4. cbn [fst snd]. rewrite run_bind, R5. cbn [fst snd]. rewrite !run_bind, <- R6. reflexivity. }
  clear R1 R2 R3 R4 R5 R6. destruct E6 as (E6 & G1 & G2 & G3 & G4).
  assert ((m_trust m6, files m6, admitted_as m6) = (m_trust m, files m, admitted_as m) /\ pending m6 = pending m /\ marker m6 = marker m
          /\ m_members m6 = ∅ /\ m_tombstones m6 = m_tombstones m3 /\ proofs m6 = proofs m4 /\ d_members (m_disk m6) = d_members (m_disk m2))
    as (H1 & H2 & H3 & H4 & H5 & H6 & H7).
  { unfold remains, core, base, identity_of, admitted_as, marker, pending, proofs, files in *. split_and!; congruence. }
  split_and!; try done; intros H; [rewrite H7 | rewrite H5 | rewrite H6]; auto.
Qed.

(** The disk after a teardown that ends holds no trace of it. *)
Lemma finish_spec m : store_ok (m_trust m) ->
  let r := finishDurableTeardown m in
  quiet r.2 /\ if r.1 then clean m r.2 else m_teardownPending r.2 = true /\ marker r.2 = marker m.
Proof.
  intros Hok. unfold finishDurableTeardown. rewrite run_bind, run_modify. cbn [fst snd].
  set (m1 := set_teardownPending true m). rewrite run_bind.
  pose proof (clearAdmission_spec m1) as [Hc1 Ha]. destruct (clearAdmission m1) as [ok1 m2]. cbn [fst snd] in *.
  rewrite run_bind, run_get, run_bind. cbn [fst snd].
  pose proof (drop_pins_spec (List_ m2) true m2) as (Hd1 & Hd2 & Hd3). destruct (drop_pins (List_ m2) true m2) as [ok2 m3]. cbn [fst snd] in *.
  destruct (files_spec m3) as (ok3 & ok4 & ok5 & ok6 & m4 & T0 & T1 & T2 & T3 & T4 & T5 & T6 & T7 & T8 & T9 & T10 & T11).
  specialize (T0 (ok1 && ok2) (fun all => if negb all then mret false else
    ok ← remove_file d_teardown (with_teardown None);
    if ok : bool then modify (set_teardownPending false);; mret true else mret false)). cbv beta in T0. rewrite T0.
  destruct (marker_spec (ok1 && ok2 && ok3 && ok4 && ok5 && ok6) m4) as (E1 & E2 & E3 & E4).
  match type of E1 with (m_trust (?r).2, _, _, _) = _ => set (r' := r) in * end. clear T0. clearbody r'.
  assert (m_trust m2 = m_trust m /\ files m2 = files m /\ pending m2 = true /\ marker m2 = marker m) as (F1 & F2 & F3 & F4).
  { unfold core, files, pending, marker in *. simpl in Hc1. split_and!; congruence. }
  assert (store_ok (m_trust m2)) as Hok2 by by rewrite F1.
  assert (pins m3 = ∅) as Hp.
  { apply map_empty. intros u. destruct (pins m3 !! u) as [p|] eqn:Eu; [| done]. apply Hd1 in Eu as [Eu Hl].
    destruct Hl. by eapply elem_of_List. }
  assert (pending m3 = true /\ marker m3 = marker m /\ admitted_as m3 = admitted_as m2) as (G1 & G2 & G3).
  { unfold standing, pending, marker, admitted_as in *. split_and!; congruence. }
  split.
  - unfold quiet, pins in *. assert (m_trust r'.2 = m_trust m3) as -> by congruence.
    assert (m_invites r'.2 = m_invites m4) as -> by congruence. split_and!; (done || congruence).
  - destruct (r'.1) eqn:Er; [| destruct E4; unfold pending in *; split; congruence].
    destruct E4 as (Hoks & E5 & E6). unbool. subst. destruct Ha as [Ha1 Ha2].
    assert (admitted_as r'.2 = admitted_as m2) as Had by congruence. unfold admitted_as in Had.
    specialize (T9 eq_refl). specialize (T10 eq_refl). specialize (T11 eq_refl).
    assert (m_admission r'.2 = mkAdmission (ad_Counter (m_admission m)) (ad_Activated (m_admission m)) true "" 0) as Had'.
    { transitivity (m_admission m2); [congruence | exact Ha1]. }
    unfold clean. split_and!; try (done || congruence).
    intros u Hu. assert (files r'.2 = files m3) as -> by congruence. destruct (files m3 !! u) as [p|] eqn:Ef; [| done].
    apply (proj2 (Hd3 eq_refl)) in Ef as [_ Hl]. exfalso. apply Hl.
    unfold epochs in Hu. rewrite lookup_fmap in Hu. destruct (pins m !! u) as [pin|] eqn:Ep; [| done].
    apply (elem_of_List m2 u pin); [done |]. unfold pins. by rewrite F1.
Qed.

(** C14. A teardown fails closed (teardown_store.go, leave.go): whichever of its writes fail,
    [teardownClusterLocalLocked] ends in one of three ways.  The marker could not be written:
    the node is as it was.  Everything succeeded: no cluster, pin, member, tombstone, proof
    or pairing is left in memory, the files of the pins are gone, the member file is empty,
    the admission is retired with its counter kept, in memory and on file, and so is the
    marker.  Or some file could not be written: the marker stays on file for the next start,
    and meanwhile the node is in no cluster, pins nobody, authenticates no caller and merges
    no roster. *)
Theorem teardown_fails_closed m :
  store_ok (m_trust m) ->
  let r := teardownClusterLocalLocked m in
  if r.1 then quiet r.2 /\ clean m r.2
  else (base r.2, proofs r.2, m_members r.2) = (base (set_teardownPending false m), proofs m, m_members m) \/
       quiet r.2 /\ m_teardownPending r.2 = true /\
       marker r.2 = Some (mkMarker (currentAdmission m).1 (currentAdmission m).2 (clock (m_ticks m))) /\
       (forall client, verifyClientPin client r.2 = None) /\
       (forall remote sender, mergeRosterLocked self port remote sender r.2 = (false, r.2)).
Proof.
  intros Hok. cbv zeta. unfold teardownClusterLocalLocked. rewrite run_bind.
  unfold beginDurableTeardown, write. run. simpl. destruct (writes (m_io m)); simpl; run; [| by left].
  set (m1 := set_disk _ _).
  destruct (finish_spec m1 Hok) as [Hq Hr]. destruct (finishDurableTeardown m1) as [[|] m2]; cbn [fst snd] in *.
  - by split.
  - right. destruct Hr as [Hp Hm]. split_and!; [done | done | done | |].
    + intros client. unfold verifyClientPin. by rewrite Hp.
    + intros remote sender. unfold mergeRosterLocked. run. by rewrite Hp.
Qed.

(** * Recovery at the next start *)

(** Sparing every node, a computation keeps the store in order and changes nothing else. *)
Lemma sparing_store {A} (x : M A) m : (forall u, sparing u x) -> store_ok (m_trust m) ->
  store_ok (m_trust (x m).2) /\ standing (x m).2 = standing m.
Proof.
  intros H Hok. destruct (exist_fresh (dom (epochs m) ∪ dom (files m))) as [u Hu]. apply not_elem_of_union in Hu as [H1 H2].
  apply not_elem_of_dom in H1, H2. destruct (H u m Hok H1 H2) as (? & _ & _ & ?). done.
Qed.

(** The node is out of any cluster and its disk has nothing left to undo. *)
Definition recovered (m : Manager) : Prop :=
  quiet m /\ marker m = None /\ m_teardownPending m = false /\ m_tombstones m = ∅ /\ proofs m = ∅ /\ d_members (m_disk m) = [] /\
  ad_Retired (m_admission m) = true /\ currentAdmission m = ("", 0) /\ d_admission (m_disk m) = Some (m_admission m).

Definition recovers (mk : teardownMarker) (x : M bool) : Prop :=
  forall m, store_ok (m_trust m) -> marker m = Some mk -> if (x m).1 then recovered (x m).2 else marker (x m).2 = Some mk.

Lemma recovers_false mk : recovers mk (mret false).
Proof. by intros m _. Qed.
Lemma recovers_pre {A} mk (x : M A) (k : A -> M bool) : (forall u, sparing u x) -> (forall a, recovers mk (k a)) -> recovers mk (x ≫= k).
Proof.
  intros Hx Hk m Hok Hm. rewrite run_bind. destruct (sparing_store x m Hx Hok) as [Hok' Hs].
  apply Hk; [done |]. unfold standing, marker in *. congruence.
Qed.

Lemma recovers_tail mk :
  recovers mk (loadRemovalProofs;; loadInviteCreatedCluster;;
    ok ← recoverPendingTeardown; if negb ok then mret false else replayRemovalProofs self).
Proof.
  intros m Hok Hm. rewrite run_bind. destruct (loadRemovalProofs_spec m) as [_ E]. set (m1 := (loadRemovalProofs m).2) in *.
  clearbody m1. rewrite run_bind. pose proof (loadInviteCreatedCluster_core m1) as Hc.
  set (m2 := (loadInviteCreatedCluster m1).2) in *. clearbody m2. destruct (core_views _ _ Hc) as (E1 & E2 & _).
  assert (marker m2 = Some mk) as Hm2 by (unfold standing, marker in *; congruence).
  assert (store_ok (m_trust m2)) as Hok2 by (by rewrite E1; assert (m_trust m1 = m_trust m) as -> by congruence).
  rewrite run_bind. unfold recoverPendingTeardown. rewrite run_bind, run_get. cbn [fst snd].
  change (d_teardown (m_disk m2)) with (marker m2). rewrite Hm2. rewrite run_bind, run_modify. cbn [fst snd].
  set (m3 := set_teardownPending true m2). destruct (finish_spec m3 Hok2) as [Hq Hr].
  destruct (finishDurableTeardown m3) as [[|] m4]; cbn [fst snd negb] in *.
  - destruct Hr as (H1 & H2 & H3 & H4 & _ & H5 & H6 & H7).
    assert (replayRemovalProofs self m4 = (true, m4)) as ->.
    { unfold replayRemovalProofs. rewrite run_bind, run_get. cbn [fst snd]. unfold currentAdmission. by rewrite H6. }
    unfold recovered, currentAdmission. cbn [fst snd]. rewrite H7. rewrite H6. by split_and!.
  - destruct Hr as [_ Hr]. simpl. by rewrite Hr.
Qed.

(** C15. A teardown survives any crash (manager.go, [NewManager]): when a node starts on a
    disk with a teardown marker, whatever else the disk holds and whichever writes fail, it
    either starts outside any cluster with nothing pinned, no member, proof or tombstone, a
    retired admission in memory and on file and no marker, or it does not start and the
    marker is still there for the next attempt. *)
Theorem teardown_survives_restarts d io ticks mk :
  d_teardown d = Some mk ->
  let r := NewManager self (init_manager d io ticks) in
  if r.1 then recovered r.2 else marker r.2 = Some mk.
Proof.
  intros Hd. cbv zeta. unfold NewManager. rewrite run_bind, run_modify. cbn [fst snd]. set (m1 := set_trust _ _).
  assert (store_ok (m_trust m1) /\ marker m1 = Some mk) as [Hok Hm] by (split; [apply load_store_ok | done]). clearbody m1.
  rewrite run_bind.
  assert (m_trust (loadAdmission m1).2 = m_trust m1 /\ m_disk (loadAdmission m1).2 = m_disk m1) as [E1 E2].
  { unfold loadAdmission. rewrite run_bind, run_get. cbn [fst snd]. case_match; [| done]. by case_match. }
  destruct (loadAdmission m1) as [ok m2]. cbn [fst snd] in *. destruct ok; cbn [negb]; [| cbn [mret M_ret fst snd]; unfold marker in *; by rewrite E2].
  rewrite run_bind, run_get. cbn [fst snd]. set (a := m_admission m2). set (act := negb _ && negb _). rewrite run_bind.
  set (m3 := (when act _ m2).2).
  assert (store_ok (m_trust m3) /\ marker m3 = Some mk) as [Hok3 Hm3].
  { subst m3. unfold marker in *. rewrite <- E1 in Hok. rewrite <- E2 in Hm. by destruct act. }
  clearbody m3. revert m3 Hok3 Hm3.
  match goal with |- forall m, _ -> _ -> if (?k m).1 then _ else _ => assert (recovers mk k) as H; [| exact H] end.
  apply recovers_pre; [intros u; apply sparing_frame; unfold when; framed |]. intros _.
  apply recovers_pre; [intros u; apply sparing_frame; framed |]. intros _.
  apply recovers_pre; [intros u; apply rollback_sparing |]. intros [|]; [| apply recovers_false].
  apply recovers_pre; [intros u; destruct act; [apply migrate_sparing | apply sparing_frame; framed] |]. intros [|]; [| apply recovers_false].
  apply recovers_pre; [intros u; destruct act; [apply prune_sparing | apply sparing_frame; framed] |]. intros [|]; [| apply recovers_false].
  apply recovers_pre; [intros u; apply sparing_frame; framed |]. intros _.
  apply recovers_pre; [intros u; apply sparing_frame; framed |]. intros _. apply recovers_tail.
Qed.
End Teardown.
