(* ===== verification/ClusterRelay.v ===== *)
(** Removals travel: a proof made by the remover is accepted by a node that has the remover
    pinned, and by a node that has pinned one that accepted it, as long as they still have
    the removed peer in the admission it is about, have no proof about it, and can write
    (services/nvpair-cluster-manager/remove.go, removal_proof_store.go, roster.go). *)
From S2P Require Import Prelude.
From S2P Require Import GoStd.
From S2P Require Import GoBytes.
From S2P Require Import ClusterAddresses.
From S2P Require Import ClusterTrust.
From S2P Require Import ClusterState.
From S2P Require Import ClusterRoster.
From S2P Require Import ClusterLogic.
From S2P Require Import ClusterSafety.

Open Scope string_scope.
Open Scope list_scope.
Open Scope Z_scope.

(** * Keys of endorsements *)

Definition bar : ascii := "|"%char.

Lemma digit_no_bar z : 0 <= z < 64 -> bool_decide (bar = Std64.digit z) = false.
Proof.
  intros H.
  assert (forallb (fun z => negb (bool_decide (bar = Std64.digit z))) (seqZ 0 64) = true) as Hall by (vm_compute; reflexivity).
  rewrite forallb_forall in Hall. specialize (Hall z). rewrite <- list_elem_of_In, elem_of_seqZ in Hall.
  apply negb_true_iff, Hall. lia.
Qed.

Lemma EncodeToString_no_bar s : has_char bar (Std64.EncodeToString s) = false.
Proof.
  induction s as [|a|a b|a b c s IH] using string_ind3; [done | ..];
    cbn [Std64.EncodeToString has_char]; rewrite ?digit_no_bar by byte_arith; cbn [orb]; done.
Qed.

Lemma proof_key_inj e e' : has_char bar (en_SigV2 e) = false -> has_char bar (en_SigV2 e') = false ->
  proof_key e = proof_key e' -> en_By e = en_By e'.
Proof.
  unfold proof_key. intros H H' E.
  change ("|" +:+ en_SigV2 e) with (String bar (en_SigV2 e)) in E. change ("|" +:+ en_SigV2 e') with (String bar (en_SigV2 e')) in E.
  apply (f_equal (cut_last bar)) in E. rewrite !cut_last_app in E by done. by injection E.
Qed.

Section Relay.
Context {pki : Pki} {laws : PkiLaws} {sha : Sha256} {R : MapRange} {W : World}.

(** * Nodes that know one another *)

(** An identity whose certificate is its own. *)
Definition genuine (id : NodeIdentity) : Prop :=
  id_NodeUUID id <> "" /\ principal_cert (id_CertPEM id) (id_NodeUUID id) = Some (id_DER id) /\
  pubFromDER (id_DER id) = Some (Public (id_Signer id)) /\ id_CertFingerprint id = certFingerprintFromDER (id_DER id).

(** A peer is pinned, in its admission [e] and with its own certificate. *)
Definition knows (m : Manager) (id : NodeIdentity) (e : Z) : Prop :=
  e <> 0 /\ epochs m !! id_NodeUUID id = Some e /\ ders m !! id_NodeUUID id = Some (id_DER id) /\
  pubs m !! id_NodeUUID id = Some (Public (id_Signer id)).

(** The word of a node that the signer of a proof is a member. *)
Definition relay_of (id : NodeIdentity) (e : Z) (cid : string) (p : RemovalProof) (en : Endorsement) : Prop :=
  let t := rp_Tombstone p in
  en_By en = id_NodeUUID id /\ en_ByAdmissionEpoch en = e /\ en_AdmissionEpoch en = tb_ByAdmissionEpoch t /\ en_SigV2 en <> "" /\
  verifyEndorsement (Public (id_Signer id)) (tb_By t) (rp_SignerFingerprint p) cid en = true.

(** A proof of the removal of admission [ev] of node [v], signed in cluster [cid]. *)
Definition proves (cid v : string) (ev : Z) (p : RemovalProof) (der : string) : Prop :=
  let t := rp_Tombstone p in
  tb_ClusterID t = cid /\ tb_NodeUUID t = v /\ v <> "" /\ tb_AdmissionEpoch t = ev /\ ev <> 0 /\ tb_By t <> "" /\
  tb_ByAdmissionEpoch t <> 0 /\ tb_SigV2 t <> "" /\ parseProofSigner p = Some der /\
  exists pub, pubFromDER der = Some pub /\ verifyTombstone pub cid t = true.

(** The proof as it leaves node [id], in admission [e]: the node signed it or vouches for
    its signer; the nodes it has been through are among [seen]. *)
Definition carried (cid v : string) (ev : Z) (id : NodeIdentity) (e : Z) (seen : list string) (p : RemovalProof) : Prop :=
  (exists der, proves cid v ev p der /\
     (tb_By (rp_Tombstone p) = id_NodeUUID id /\ tb_ByAdmissionEpoch (rp_Tombstone p) = e /\ der = id_DER id
      \/ exists en, en ∈ rp_Endorsements p /\ relay_of id e cid p en)) /\
  tb_By (rp_Tombstone p) ∈ seen /\
  Forall (fun en => has_char bar (en_SigV2 en) = false /\ en_By en ∈ seen) (rp_Endorsements p).

Lemma signature_nonempty k x : Std64.EncodeToString (Sign k x) <> "".
Proof. apply EncodeToString_nonempty. intros E. pose proof (sign_size k x) as H. by rewrite E in H. Qed.

(** ** The remover *)

Lemma new_proof_carried id v ev m p : genuine id -> v <> "" -> (newRemovalProof id v ev m).1 = Some p ->
  carried (currentAdmission m).1 v ev id (currentAdmission m).2 [id_NodeUUID id] p.
Proof.
  intros (Hu & Hc & Hk & Hf) Hv. unfold newRemovalProof. rewrite run_bind, run_get. cbn [fst snd].
  destruct (_ || _) eqn:E; [done |]. unbool. run. intros [= <-].
  set (cid := (currentAdmission m).1) in *. set (e := (currentAdmission m).2) in *.
  unfold carried. cbn [rp_Tombstone rp_Endorsements].
  assert (verifyTombstone (Public (id_Signer id)) cid (signTombstone (id_Signer id) (id_NodeUUID id) v cid (clock (m_ticks m)) [ev; e]) = true)
    as Hver by (by apply verify_signTombstone).
  unfold signTombstone in *. rewrite admission_epochs_Some in * by done. cbn [tb_By].
  split_and!; [| by left | done].
  exists (id_DER id). split; [| by left]. unfold proves. cbn. split_and!; try done; [apply signature_nonempty | |].
  - unfold parseProofSigner. cbn. rewrite Hc, Hf. by rewrite bool_decide_eq_true_2.
  - by exists (Public (id_Signer id)).
Qed.

(** ** A node that receives it *)

Lemma knows_pin m id e : store_ok (m_trust m) -> knows m id e ->
  exists pin, Get (id_NodeUUID id) m = Some pin /\ pin_AdmissionEpoch pin = e /\ MatchDER (id_NodeUUID id) (id_DER id) m = true
    /\ PubKey (id_NodeUUID id) m = Some (Public (id_Signer id)).
Proof.
  intros Hok (_ & He & Hd & Hp). unfold epochs in He. rewrite lookup_fmap in He. change (pins m) with (ts_pins (m_trust m)) in He.
  unfold Get. destruct (ts_pins (m_trust m) !! id_NodeUUID id) as [pin|]; [| done]. injection He as <-. exists pin.
  split_and!; [done | done | | done]. unfold MatchDER, DER. by apply bool_decide_eq_true_2.
Qed.

Lemma relay_vouches self m cid id e p en : store_ok (m_trust m) -> knows m id e -> id_NodeUUID self <> id_NodeUUID id ->
  relay_of id e cid p en -> vouches self (tb_By (rp_Tombstone p)) (rp_SignerFingerprint p) cid (tb_ByAdmissionEpoch (rp_Tombstone p)) m en = true.
Proof.
  intros Hok Hk Hne (Hb & He & Ha & Hs & Hv). destruct (knows_pin _ _ _ Hok Hk) as (pin & Hg & Hpe & _ & Hpk).
  unfold vouches. rewrite bool_decide_eq_false_2, Ha, Z.eqb_refl by done. cbn [negb orb].
  unfold trustedAdmissionEpoch, trustedPub. rewrite Hb, bool_decide_eq_false_2 by done. rewrite Hg, Hpe, Hpk.
  destruct Hk as (H0 & _). rewrite (proj2 (Z.eqb_neq e 0)) by done. rewrite He, Z.eqb_refl. by cbn [negb].
Qed.

Lemma carried_verifies self m cid v ev id e seen p :
  store_ok (m_trust m) -> knows m id e -> id_NodeUUID self <> id_NodeUUID id -> id_NodeUUID self ∉ seen ->
  carried cid v ev id e seen p -> verifyRemovalProof self p cid m = true.
Proof.
  intros Hok Hk Hne Hns ((der & (H1 & H2 & H3 & H4 & H5 & H6 & H7 & H8 & H9 & pub & H10 & H11) & Hc) & Hby & _).
  unfold verifyRemovalProof. rewrite H1, H2, H4, H9, H10, H11.
  rewrite (bool_decide_eq_true_2 (cid = cid)), (bool_decide_eq_false_2 (v = "")), (bool_decide_eq_false_2 (tb_By _ = "")),
    (bool_decide_eq_false_2 (tb_SigV2 _ = "")), (proj2 (Z.eqb_neq ev 0)), (proj2 (Z.eqb_neq (tb_ByAdmissionEpoch _) 0)) by done.
  cbn [negb orb]. rewrite bool_decide_eq_false_2 by congruence.
  destruct Hc as [(Hs & He & ->) | (en & Hin & Hr)].
  - destruct (knows_pin _ _ _ Hok Hk) as (pin & Hg & Hpe & Hm & _). rewrite Hs, Hg, Hpe, He, Hm, Z.eqb_refl. done.
  - case_match; [done |]. apply existsb_exists. exists en. split; [by apply list_elem_of_In |]. by apply (relay_vouches _ _ _ id e).
Qed.

(** A node adds its own word to what it stores. *)
Lemma relayed_carried self m cid e' v ev id e seen p : genuine self -> currentAdmission m = (cid, e') -> cid <> "" -> e' <> 0 ->
  id_NodeUUID self ∉ seen -> carried cid v ev id e seen p ->
  carried cid v ev self e' (id_NodeUUID self :: seen) (withLocalRelayEndorsement self p m).1.
Proof.
  intros Hg Ha Hc0 He0 Hns ((der & Hp & _) & Hby & Hall). unfold withLocalRelayEndorsement. rewrite run_bind, run_get. cbn [fst snd]. rewrite Ha. cbn [fst snd].
  pose proof Hp as (H1 & _ & _ & _ & _ & _ & H7 & H8 & _). rewrite H1.
  rewrite (bool_decide_eq_false_2 (cid = "")), (bool_decide_eq_true_2 (cid = cid)), (proj2 (Z.eqb_neq e' 0)) by done. cbn [negb orb].
  assert (existsb (is_local_relay self e' p) (rp_Endorsements p) = false) as ->.
  { destruct (existsb _ _) eqn:E; [| done]. exfalso. apply existsb_exists in E as (en & Hin & He).
    rewrite Forall_forall in Hall. destruct (Hall en) as [_ Hs]; [by apply list_elem_of_In |].
    unfold is_local_relay in He. rewrite bool_decide_eq_false_2 in He by congruence. done. }
  run. set (relay := signEndorsement _ _ _ _ _ _ _).
  destruct (signEndorsement_fields (id_Signer self) (id_NodeUUID self) (tb_By (rp_Tombstone p)) (rp_SignerFingerprint p) cid
    (now m).1 (tb_ByAdmissionEpoch (rp_Tombstone p)) e' H7 He0) as (F1 & _ & _ & F4 & F5 & F6).
  assert (has_char bar (en_SigV2 relay) = false) as Hbar by (subst relay; rewrite F6; apply EncodeToString_no_bar).
  assert (mergeProofEndorsements (rp_Endorsements p) [relay] = rp_Endorsements p ++ [relay]) as ->.
  { unfold mergeProofEndorsements. cbn [unseen]. rewrite bool_decide_eq_false_2; [done |].
    intros (en & Hk & Hin)%list_elem_of_fmap. rewrite Forall_forall in Hall. destruct (Hall en Hin) as [Hb Hs].
    apply proof_key_inj in Hk; [| done | done]. subst relay. rewrite F1 in Hk. by rewrite <- Hk in Hs. }
  unfold carried. cbn [rp_Tombstone rp_Endorsements with_proof_endorsements]. split_and!.
  - exists der. split; [exact Hp |]. right. exists relay. split; [set_solver |].
    unfold relay_of. subst relay. cbn [rp_Tombstone rp_SignerFingerprint with_proof_endorsements].
    split_and!; [done | done | done | rewrite F6; apply signature_nonempty | by apply verify_signEndorsement].
  - by right.
  - apply Forall_app. split; [| by constructor; [split; [done | subst relay; rewrite F1; by left] |]].
    eapply Forall_impl; [exact Hall |]. intros en [? ?]. split; [done | by right].
Qed.

(** ** Enforcing it *)

(** A node of the cluster that still has [v] as the proof names it. *)
Definition holds (self : NodeIdentity) (cid v : string) (ev e : Z) (m : Manager) : Prop :=
  store_ok (m_trust m) /\ currentAdmission m = (cid, e) /\ cid <> "" /\ e <> 0 /\ id_NodeUUID self <> v /\
  epochs m !! v = Some ev /\ proofs m !! v = None /\
  match memberByNodeID v m with Some n => cn_AdmissionEpoch n = ev | None => True end.

Section Reliable.
Hypothesis reliable : forall n, writes n = true.

Lemma putRemovalProof_new self p m :
  proof_uuid p <> "" -> proof_epoch p <> 0 -> proofs m !! proof_uuid p = None ->
  targetAdmissionAuthenticated self (proof_uuid p) (proof_epoch p) m = true ->
  exists m', putRemovalProof self p m = (Some true, m') /\ base m' = base m /\ m_members m' = m_members m /\
    proofs m' = <[proof_uuid p := (withLocalRelayEndorsement self p m).1]> (proofs m).
Proof.
  intros Hu He Hn Ha. unfold putRemovalProof.
  rewrite (bool_decide_eq_false_2 (proof_uuid p = "")), (proj2 (Z.eqb_neq (proof_epoch p) 0)) by done. cbn [orb].
  rewrite run_bind. pose proof (withLocalRelay_fields self p m) as [Ht Hc].
  assert (m_members (withLocalRelayEndorsement self p m).2 = m_members m) as Hmm.
  { assert (frame m_members (withLocalRelayEndorsement self p)) as H; [| apply H].
    unfold withLocalRelayEndorsement. framed. }
  set (w := withLocalRelayEndorsement self p m) in *. destruct w as [p1 m1]. cbn [fst snd] in *.
  assert (proof_uuid p1 = proof_uuid p) as Eu by (unfold proof_uuid; by rewrite Ht).
  assert (proof_epoch p1 = proof_epoch p) as Ee by (unfold proof_epoch; by rewrite Ht).
  rewrite run_bind, run_get. cbn [fst snd]. change (m_removalProofs m1) with (proofs m1).
  pose proof (core_parts _ _ Hc) as (Hb & Hp & _). rewrite Hp, Eu, Hn, Eu, Ee. cbn [andb].
  rewrite run_bind, run_get. cbn [fst snd]. rewrite (targetAuth_core self _ _ _ _ Hc), Ha. cbn [negb].
  unfold commit_proofs, persistRemovalProofsLocked, write. run. simpl. rewrite reliable. cbn [fst snd negb when]. run.
  eexists. split; [done |]. split_and!; [| exact Hmm | done].
  rewrite <- Hb. done.
Qed.

Lemma putTombstone_members t m : m_members (putTombstone t m).2 = m_members m.
Proof.
  assert (frame m_members (putTombstone t)) as H; [| apply H].
  unfold putTombstone, commit_tombstones, persistTombstonesLocked, write. framed. all: intros x; by destruct (writes _).
Qed.

Lemma Remove_ok v m : pinFilename v = true -> (Remove v m).1 = true.
Proof.
  intros Hf. unfold Remove. rewrite Hf. cbn [negb]. rewrite run_bind. unfold remove_file, write.
  destruct (d_pins (m_disk m) !! v); rewrite ?reliable; cbn [fst snd]; by run.
Qed.

(** The node drops its pin, in memory and on file, and has the proof to pass on. *)
Lemma apply_carried self cid v ev id e e' seen p m :
  genuine self -> holds self cid v ev e' m -> knows m id e -> id_NodeUUID self <> id_NodeUUID id -> id_NodeUUID self ∉ seen ->
  carried cid v ev id e seen p ->
  let r := apply_proof self cid p m in
  r.1 = true /\ epochs r.2 !! v = None /\ files r.2 !! v = None /\
  exists q, proofs r.2 !! v = Some q /\ carried cid v ev self e' (id_NodeUUID self :: seen) q.
Proof.
  intros Hg (Hok & Ha & Hc & He0 & Hsv & Hev & Hpr & Hmem) Hk Hne Hns Hcar. cbv zeta.
  pose proof (carried_verifies self m cid v ev id e seen p Hok Hk Hne Hns Hcar) as Hver.
  pose proof Hcar as ((der & (_ & Hv & Hv0 & Hep & Hep0 & _) & _) & _).
  assert (exists pin, Get v m = Some pin /\ pin_AdmissionEpoch pin = ev /\ pinFilename v = true) as (pin & Hpin & Hpe & Hfn).
  { unfold epochs in Hev. rewrite lookup_fmap in Hev. change (pins m) with (ts_pins (m_trust m)) in Hev. unfold Get.
    destruct (ts_pins (m_trust m) !! v) as [pin|] eqn:Ep; [| done]. injection Hev as <-. exists pin. split_and!; [done | done |].
    destruct (store_pin _ _ _ Hok Ep) as (d & k & Hl & _). by apply load_pin_spec in Hl as (_ & _ & ? & _). }
  destruct (putRemovalProof_new self p m) as (m1 & Hput & Hb & Hmm & Hps).
  { unfold proof_uuid. congruence. } { unfold proof_epoch. congruence. } { unfold proof_uuid. by rewrite Hv. }
  { unfold targetAdmissionAuthenticated, proof_uuid, proof_epoch. rewrite Hv, Hep.
    rewrite (bool_decide_eq_false_2 (v = "")), (bool_decide_eq_false_2 (v = id_NodeUUID self)), (proj2 (Z.eqb_neq ev 0)) by congruence.
    cbn [orb]. rewrite Hpin, Hpe. apply Z.eqb_refl. }
  pose proof (base_views _ _ Hb) as (T1 & _ & _ & _ & _ & Tf).
  unfold apply_proof. rewrite run_bind, run_get. cbn [fst snd]. rewrite Hv, Hver, bool_decide_eq_false_2 by congruence. cbn [negb orb].
  rewrite run_bind, Hput. cbn [fst snd]. rewrite run_bind.
  pose proof (putTombstone_core (rp_Tombstone p) m1) as Hct. pose proof (putTombstone_members (rp_Tombstone p) m1) as Hmt.
  set (m2 := (putTombstone (rp_Tombstone p) m1).2) in *. clearbody m2.
  pose proof (core_parts _ _ Hct) as (_ & Hp2 & _). pose proof (core_views _ _ Hct) as (T2 & _ & _ & _ & _ & Tf2).
  rewrite run_bind, run_get. cbn [fst snd]. assert (Get v m2 = Some pin) as -> by (unfold Get in *; by rewrite T2, T1).
  rewrite Hpe, Hep, Z.eqb_refl. cbn [negb]. rewrite run_bind, run_get. cbn [fst snd].
  assert (memberByNodeID v m2 = memberByNodeID v m) as -> by (unfold memberByNodeID; by rewrite Hmt, Hmm).
  assert (match memberByNodeID v m with Some n => negb (cn_AdmissionEpoch n =? ev) | None => false end = false) as ->.
  { destruct (memberByNodeID v m); [| done]. rewrite Hmem. by rewrite Z.eqb_refl. }
  rewrite bool_decide_eq_true_2 by done. rewrite run_bind, Remove_ok by done. cbn [negb]. rewrite run_bind. cbn [orb].
  pose proof (Remove_spec v m2) as [Hs Hr]. rewrite Remove_ok in Hr by done. destruct Hr as [Ht Hf]. run.
  pose proof (removeMemberByUUID_core v (Remove v m2).2) as Hcm. set (m3 := (removeMemberByUUID v (Remove v m2).2).2) in *. clearbody m3.
  destruct (core_views _ _ Hcm) as (_ & _ & Ee & _ & _ & Ef). pose proof (core_parts _ _ Hcm) as (_ & Ep & _).
  split_and!; [done | | | ].
  - rewrite Ee. unfold epochs, pins. rewrite Ht. simpl. by rewrite fmap_delete, lookup_delete_eq.
  - by rewrite Ef, Hf, lookup_delete_eq.
  - exists (withLocalRelayEndorsement self p m).1. split.
    + rewrite Ep. apply standing_parts in Hs as (-> & _). rewrite Hp2, Hps. unfold proof_uuid. by rewrite Hv, lookup_insert_eq.
    + by apply (relayed_carried self m cid e' v ev id e).
Qed.
End Reliable.
End Relay.

(** * Along a path *)

Section Path.
Context {pki : Pki} {laws : PkiLaws} {sha : Sha256} {R : MapRange}.

(** A node with its own clock and disk. *)
Record Peer : Type := mkPeer { pe_id : NodeIdentity; pe_epoch : Z; pe_state : Manager; pe_world : World }.

Definition enforce (cid : string) (p : RemovalProof) (x : Peer) : bool * Manager :=
  @apply_proof pki sha R (pe_world x) (pe_id x) cid p (pe_state x).

(** Every node hands on the proof it stored, in the roster it sends next. *)
Fixpoint pass_on (cid v : string) (p : RemovalProof) (l : list Peer) : list Manager :=
  match l with
  | [] => []
  | x :: l =>
      let m := (enforce cid p x).2 in
      m :: (match removalProofFor v m with Some q => pass_on cid v q l | None => [] end)
  end.

(** Each node of the path knows the one before, and none comes twice. *)
Fixpoint path (cid v : string) (ev : Z) (id : NodeIdentity) (e : Z) (seen : list string) (l : list Peer) : Prop :=
  match l with
  | [] => True
  | x :: l =>
      genuine (pe_id x) /\ holds (pe_id x) cid v ev (pe_epoch x) (pe_state x) /\ knows (pe_state x) id e /\
      (id_NodeUUID (pe_id x) ∉ seen) /\ (forall n, @writes (pe_world x) n = true) /\
      path cid v ev (pe_id x) (pe_epoch x) (id_NodeUUID (pe_id x) :: seen) l
  end.

Definition rid_of (v : string) (m : Manager) : Prop := Get v m = None /\ files m !! v = None.

Lemma epochs_Get v m : epochs m !! v = None -> Get v m = None.
Proof. unfold epochs, Get, pins. rewrite lookup_fmap. by destruct (ts_pins (m_trust m) !! v). Qed.

Lemma pass_on_path cid v ev l id e seen p : id_NodeUUID id ∈ seen -> carried cid v ev id e seen p -> path cid v ev id e seen l ->
  length (pass_on cid v p l) = length l /\ Forall (rid_of v) (pass_on cid v p l).
Proof.
  revert id e seen p. induction l as [|x l IH]; intros id e seen p Hid Hc Hp; [done |].
  destruct Hp as (Hg & Hh & Hk & Hns & Hw & Hl). cbn [pass_on].
  destruct (@apply_carried pki laws sha R (pe_world x) Hw (pe_id x) cid v ev id e (pe_epoch x) seen p (pe_state x) Hg Hh Hk)
    as (_ & He & Hf & q & Hq & Hcq); [congruence | done | done |].
  change (@apply_proof pki sha R (pe_world x) (pe_id x) cid p (pe_state x)) with (enforce cid p x) in *.
  unfold removalProofFor. change (m_removalProofs (enforce cid p x).2) with (proofs (enforce cid p x).2). rewrite Hq.
  destruct (IH (pe_id x) (pe_epoch x) (id_NodeUUID (pe_id x) :: seen) q ltac:(by left) Hcq Hl) as [H1 H2].
  split; [by cbn [length]; rewrite H1 |]. constructor; [split; [by apply epochs_Get | done] | done].
Qed.
End Path.

(** C12. A removal travels (remove.go, removal_proof_store.go, roster.go).  Take the proof that
    [nodes:remove] prepares and a path of distinct nodes of the cluster, each of which has the
    node before it pinned in its present admission - the first one the remover -, still has
    the removed peer pinned in the very admission the proof is about (and lists it as a
    member in that admission or not at all), and has no proof about that peer on record; and
    let every write to their disks succeed.  Then each of them, handed the proof its
    predecessor stored, accepts it, drops its pin of the removed peer, in memory and on file,
    and stores the proof with its own word for the remover's certificate, which is what the
    next one accepts, although nobody past the first need know the remover.  (A node that
    has a proof on record or no longer has the peer in that admission forms no union of
    proofs: [no_union_after_removal].) *)
Theorem removal_travels {pki : Pki} {laws : PkiLaws} {sha : Sha256} {R : MapRange} {W : World}
    self nodeID nodeUUID m m1 node p cid e l :
  genuine self -> nodes_remove_begin self nodeID nodeUUID m = (PPrepared node p cid e, m1) -> cn_NodeUUID node <> "" ->
  path cid (cn_NodeUUID node) (cn_AdmissionEpoch node) self e [id_NodeUUID self] l ->
  length (pass_on cid (cn_NodeUUID node) p l) = length l /\ Forall (rid_of (cn_NodeUUID node)) (pass_on cid (cn_NodeUUID node) p l).
Proof.
  intros Hg Hb Hv Hp. apply (pass_on_path _ _ (cn_AdmissionEpoch node) _ self e [id_NodeUUID self]); [by left | | done].
  unfold nodes_remove_begin in Hb. rewrite run_bind, run_get, run_bind, run_get in Hb. cbn [fst snd] in Hb.
  destruct (match nodeUUID ≫= _ with Some n => Some n | None => _ end) as [nd|]; [| done].
  case_bool; [done |]. rewrite run_bind, run_get, run_bind, run_get, run_bind, run_get in Hb. cbn [fst snd] in Hb.
  match type of Hb with (if ?b then _ else _) m = _ => destruct b; [done |] end.
  rewrite run_bind in Hb. destruct (newRemovalProof self (cn_NodeUUID nd) (cn_AdmissionEpoch nd) m) as [[pr|] m2] eqn:En; cbn [fst snd] in Hb; [| done].
  rewrite run_bind in Hb. destruct (putRemovalProof self pr m2).1; [| done]. rewrite run_bind in Hb.
  injection Hb as <- <- <- <- _. apply (new_proof_carried self _ _ m); [done | done | by rewrite En].
Qed.

(** * Two limits of relaying *)

Section Limits.
Context {pki : Pki} {sha : Sha256} {R : MapRange} {W : World}.

(** The union of two proofs of one admission is only formed while its node is still pinned:
    once the first proof has been enforced, a second one with further endorsements is
    refused. *)
Lemma no_union_after_removal self p m :
  proof_uuid p <> id_NodeUUID self -> epochs m !! proof_uuid p = None ->
  proofs (putRemovalProof self p m).2 = proofs m.
Proof.
  intros Hs Hu. destruct (putRemovalProof_spec self p m) as [_ H]. destruct (putRemovalProof self p m).1 as [[|]|]; [| by destruct H..].
  destruct H as (_ & _ & Ha & _). exfalso. unfold targetAdmissionAuthenticated in Ha.
  case_bool; [done |]. rewrite bool_decide_eq_false_2, (epochs_Get _ _ Hu) in Ha by done. done.
Qed.

(** An endorsement that merely names this node, whatever its signature, keeps the node from
    adding its own. *)
Lemma named_relay_kept self p m en :
  en ∈ rp_Endorsements p -> is_local_relay self (currentAdmission m).2 p en = true -> (withLocalRelayEndorsement self p m).1 = p.
Proof.
  intros Hin He. unfold withLocalRelayEndorsement. run. case_bool; [done |].
  destruct (existsb _ _) eqn:E; [done |]. exfalso.
  assert (existsb (is_local_relay self (currentAdmission m).2 p) (rp_Endorsements p) = true); [| congruence].
  apply existsb_exists. exists en. split; [by apply list_elem_of_In | done].
Qed.
End Limits.
