(* ===== verification/ClusterExample.v ===== *)
(** A concrete cluster of four nodes with SHA-256 and toy certificates: it runs the
    operations, and shows that the hypotheses of the theorems hold together. *)
From S2P Require Import Prelude.
From S2P Require Import GoStd.
From S2P Require Import GoBytes.
From S2P Require Import ClusterAddresses.
From S2P Require Import ClusterTrust.
From S2P Require Import ClusterState.
From S2P Require Import ClusterRoster.
From S2P Require Import ClusterLogic.
From S2P Require Import ClusterSafety.
From S2P Require Import ClusterRemoval.
From S2P Require Import ClusterTeardown.
From S2P Require Import ClusterRelay.

Open Scope string_scope.
Open Scope list_scope.
Open Scope Z_scope.

(** * A toy PKI *)

(** A key is its owner's name, and anyone can sign: no security, but all the laws. *)
Definition toy_sign (k m : string) : string := hex (sha256 (k +:+ "|" +:+ m)).

Lemma toy_sign_size k m : slen (toy_sign k m) = 64%nat.
Proof. unfold toy_sign. by rewrite length_hex, sha256_length. Qed.

(** A certificate is [CERT] and the name of the node, whose key is that name. *)
#[export] Instance toy_pki : Pki := {
  PrivateKey := string;
  Public := fun k => k;
  Sign := toy_sign;
  Verify := fun pub m s => bool_decide (s = toy_sign pub m);
  pem_Decode := fun pem => (fun der => ("CERTIFICATE", der)) <$> cut_prefix "PEM:" pem;
  ParseCertificate := fun der => (fun u => mkCertificate [] u (Some u)) <$> cut_prefix "CERT:" der
}.
#[export] Instance toy_pki_laws : PkiLaws.
Proof. constructor; intros k m; [by apply bool_decide_eq_true_2 | apply toy_sign_size]. Defined.

#[export] Instance demo_range : MapRange := ascending_range.
#[export] Instance demo_world : World := {| writes := fun _ => true; clock := fun n => 1700000000000 + Z.of_nat n |}.

(** * Four nodes *)

Definition toy_cert (u : string) : string := "CERT:" +:+ u.
Definition toy_id (u : string) : NodeIdentity :=
  mkIdentity u ("id " +:+ u) ("node " +:+ u) ("PEM:" +:+ toy_cert u) (toy_cert u) (certFingerprintFromDER (toy_cert u)) u.
Definition toy_pin (u : string) : TrustedPin :=
  mkPin u ("id " +:+ u) ("node " +:+ u) "cluster" 1 ("PEM:" +:+ toy_cert u) (certFingerprintFromDER (toy_cert u)) 1700000000000 [].
Definition toy_member (u : string) : ClusterNode :=
  mkNode ("id " +:+ u) u ("node " +:+ u) "10.0.0.1" 14321 "cluster" 1 stateMember (Some 1700000000000) None no_addresses.
Definition toy_admission : admissionState := mkAdmission 1 1 false "cluster" 1.

(** The disk of a member that has pinned the peers given, and the node running on it. *)
Definition toy_disk (peers : list string) (removed : list RemovalProof) : Disk :=
  mkDisk (list_to_map ((fun u => (u, toy_pin u)) <$> peers)) (toy_member <$> peers) [] removed (Some toy_admission) None None.
Definition toy_node (u : string) (peers : list string) (removed : list RemovalProof) : Manager :=
  let d := toy_disk peers removed in
  set_trust (load_store d)
    (set_members (list_to_map ((fun v => (v, toy_member v)) <$> u :: peers))
      (set_removalProofs (list_to_map ((fun p => (proof_uuid p, p)) <$> removed))
        (set_clusterID "cluster" (set_admission toy_admission (init_manager d 0 0))))).

Lemma toy_store_ok u peers removed : store_ok (m_trust (toy_node u peers removed)).
Proof. apply load_store_ok. Defined.

(** Such a node starts. *)
Example toy_starts : (NewManager (toy_id "a") (init_manager (toy_disk ["b"; "c"] []) 0 0)).1 = true.
Proof. vm_compute. reflexivity. Qed.

(** * Merging *)

(** A roster of [b]: it introduces [c], and [c] introduces [d], listed the other way round. *)
Definition toy_entry (u by_ : string) : RosterEntry :=
  mkEntry u ("id " +:+ u) ("node " +:+ u) "" 1 ("PEM:" +:+ toy_cert u) (certFingerprintFromDER (toy_cert u))
    [signEndorsement by_ by_ u (certFingerprintFromDER (toy_cert u)) "cluster" 1700000000000 [1; 1]].
Definition toy_roster : Roster := mkRoster "cluster" [toy_entry "d" "c"; toy_entry "c" "b"] [] [] [].

Example toy_merged :
  Get "c" (mergeRosterLocked (toy_id "a") 14321 toy_roster "b" (toy_node "a" ["b"] [])).2 <> None /\
  Get "d" (mergeRosterLocked (toy_id "a") 14321 toy_roster "b" (toy_node "a" ["b"] [])).2 <> None.
Proof. vm_compute. split; discriminate. Qed.

(** [d] is vouched for through [c] and [b]. *)
Lemma roster_soundness_witness :
  let m := toy_node "a" ["b"] [] in
  vouched (toy_id "a") (applyRemovalProofs (toy_id "a") [] "cluster" m).2 "cluster" (ro_Members toy_roster) "d" 1 "d".
Proof.
  pose proof (roster_soundness (toy_id "a") 14321 toy_roster "b" (toy_node "a" ["b"] []) (toy_store_ok _ _ _)) as H.
  assert (mergeable toy_roster (toy_node "a" ["b"] []) = true) as E by (vm_compute; reflexivity).
  cbv zeta in H. rewrite E in H. destruct H as (_ & _ & _ & H & _).
  destruct (H "d" 1 "d") as [[Habs _] | (_ & Hv & _)].
  - vm_compute. split; reflexivity.
  - exfalso. vm_compute in Habs. discriminate.
  - exact Hv.
Defined.

(** Nothing of the roster is left to admit. *)
Lemma members_settle_witness :
  let m := (applyMembers (toy_id "a") 14321 (ro_Members toy_roster) "cluster" "b" (toy_node "a" ["b"] [])).2 in
  admissible (toy_id "a") "cluster" m (toy_entry "d" "c") = false.
Proof.
  apply (members_settle (toy_id "a") 14321 (ro_Members toy_roster) "cluster" "b" (toy_node "a" ["b"] []) (toy_store_ok _ _ _)).
  - reflexivity.
  - left.
Defined.

(** * Removal *)

Definition toy_before : Manager := toy_node "a" ["b"; "c"; "d"] [].
Definition toy_proof : RemovalProof :=
  default (mkProof (mkTombstone "" "" 0 "" 0 0 "" "") "" "" []) (newRemovalProof (toy_id "a") "c" 1 toy_before).1.

(** [c] is out of the cluster. *)
Definition toy_after : Manager := toy_node "a" ["b"] [toy_proof].

Lemma toy_barred : barred "c" 1 "cluster" toy_after.
Proof.
  assert (proof_uuid toy_proof = "c" /\ proof_epoch toy_proof = 1 /\ tb_ClusterID (rp_Tombstone toy_proof) = "cluster") as (Hu & He & Hc)
    by (vm_compute; split_and!; reflexivity).
  split; [split_and!; try (vm_compute; reflexivity) | split].
  - apply toy_store_ok.
  - by split.
  - exists toy_admission. by split.
  - split; [exists toy_proof; split; [left | done] |]. intros p [-> | Hp%not_elem_of_nil]%elem_of_cons _; [| done]. split; [lia | done].
  - intros k p. change (proofs toy_after) with ({[proof_uuid toy_proof := toy_proof]} : gmap string RemovalProof).
    by intros [<- <-]%lookup_singleton_Some.
  - exists toy_proof. change (proofs toy_after) with ({[proof_uuid toy_proof := toy_proof]} : gmap string RemovalProof).
    rewrite Hu, lookup_singleton_eq. split_and!; [done | lia | done].
Defined.

(** The roster of a peer that has not heard of the removal, and a restart. *)
Definition toy_stale : op :=
  OpReconcile "b" "10.0.0.1:14321" (toy_pin "b") ("cluster", 1)
    (mkReply 200 true (Some (toy_cert "b")) (Some toy_roster) None).
Definition toy_later : Manager := (run_op (toy_id "a") 14321 toy_stale toy_after).2.
Definition toy_restarted : Manager := (NewManager (toy_id "a") (init_manager (m_disk toy_later) 0 0)).2.

Example toy_still_out : Get "c" toy_restarted = None /\ Get "b" toy_restarted <> None.
Proof. vm_compute. split; [reflexivity | discriminate]. Qed.

Lemma removal_sticks_witness :
  let run := rtc (node_step (toy_id "a") 14321) in
  barred "c" 1 "cluster" toy_restarted \/
  exists mi, run toy_after mi /\ run mi toy_restarted /\ (readmitted "c" 1 mi \/ m_clusterID mi <> "cluster").
Proof.
  apply (removal_sticks (toy_id "a") 14321 "c" 1 "cluster"); [done | done | lia | done | apply toy_barred |].
  eapply rtc_l; [by apply (step_op _ _ toy_after toy_later demo_world toy_stale) |].
  eapply rtc_once, (step_restart _ _ toy_later toy_restarted demo_world 0 0).
  vm_compute. reflexivity.
Defined.

(** * Leaving *)

(** A disk on which the third write fails. *)
Definition failing_world : World := {| writes := fun n => negb (Nat.eqb n 2); clock := fun n => Z.of_nat n |}.

Lemma teardown_fails_closed_witness :
  quiet (@teardownClusterLocalLocked demo_range failing_world toy_before).2 /\
  (forall client, verifyClientPin client (@teardownClusterLocalLocked demo_range failing_world toy_before).2 = None).
Proof.
  pose proof (@teardown_fails_closed toy_pki go_sha256 demo_range failing_world (toy_id "a") 14321 toy_before (toy_store_ok _ _ _)) as H.
  cbv zeta in H. assert ((@teardownClusterLocalLocked demo_range failing_world toy_before).1 = false) as E by (vm_compute; reflexivity).
  rewrite E in H. destruct H as [Habs | (Hq & _ & _ & Hc & _)].
  - exfalso. apply (f_equal (fun x => x.1.1.2.1.1.1.2)) in Habs. vm_compute in Habs. discriminate.
  - by split.
Defined.

(** What it leaves is taken up at the next start. *)
Definition toy_torn : Manager := (@teardownClusterLocalLocked demo_range failing_world toy_before).2.

Lemma teardown_survives_restarts_witness :
  d_teardown (m_disk toy_torn) = Some (mkMarker "cluster" 1 0) /\ recovered (NewManager (toy_id "a") (init_manager (m_disk toy_torn) 0 0)).2.
Proof.
  assert (d_teardown (m_disk toy_torn) = Some (mkMarker "cluster" 1 0)) as E by (vm_compute; reflexivity).
  split; [exact E |].
  pose proof (teardown_survives_restarts (toy_id "a") (m_disk toy_torn) 0 0 (mkMarker "cluster" 1 0) E) as H. cbv zeta in H.
  assert ((NewManager (toy_id "a") (init_manager (m_disk toy_torn) 0 0)).1 = true) as E2 by (vm_compute; reflexivity).
  rewrite E2 in H. exact H.
Defined.

(** * The removal of [c] travels from [a] by [b] to [d], who knows [b] only *)

Definition toy_prepared : Prepared * Manager := nodes_remove_begin (toy_id "a") (Some "c") None toy_before.
Definition toy_path : list Peer :=
  [mkPeer (toy_id "b") 1 (toy_node "b" ["a"; "c"] []) demo_world; mkPeer (toy_id "d") 1 (toy_node "d" ["b"; "c"] []) demo_world].

Ltac evaluate := vm_compute; (reflexivity || discriminate).

Lemma toy_genuine : genuine (toy_id "a") /\ genuine (toy_id "b") /\ genuine (toy_id "d").
Proof. unfold genuine. split_and!; evaluate. Defined.

Lemma removal_travels_witness :
  toy_prepared.1 = PPrepared (toy_member "c") toy_proof "cluster" 1 /\
  length (pass_on "cluster" "c" toy_proof toy_path) = 2%nat /\ Forall (rid_of "c") (pass_on "cluster" "c" toy_proof toy_path).
Proof.
  assert (toy_prepared.1 = PPrepared (toy_member "c") toy_proof "cluster" 1) as E by (vm_compute; reflexivity).
  destruct toy_genuine as (Ha & Hb & Hd). split; [exact E |].
  apply (removal_travels (toy_id "a") (Some "c") None toy_before toy_prepared.2 (toy_member "c") toy_proof "cluster" 1 toy_path);
    [exact Ha | rewrite <- E; apply surjective_pairing | done |].
  cbn [path toy_path pe_id pe_epoch pe_state pe_world]. unfold holds, knows.
  split_and!;
    lazymatch goal with
    | |- genuine (toy_id "b") => exact Hb
    | |- genuine (toy_id "d") => exact Hd
    | |- store_ok _ => apply toy_store_ok
    | |- _ ∉ _ => apply (bool_decide_unpack _); vm_compute; exact I
    | |- forall n, _ => intros n; reflexivity
    | |- True => exact I
    | |- _ => evaluate
    end.
Defined.
