(* ===== verification/Browser.v ===== *)
(** The shared mDNS browser (services/shared/discovery/discovery.go): the state machine
    that folds each scan into the map of known nodes, the events it announces, the probe
    it makes before it gives a node up, and the send failures it reports to address
    selection.  A scan's result ([seen]) and the verdicts of the liveness probe are
    inputs; reading mDNS packets is not modelled.  The browser is driven by one goroutine
    ([Run]), so a scan is one step.

    The proofs go through a machine for a single node ([cell_step]): the loops of
    [reconcile] run one such machine per key ([reconcile_cells]), and the properties are
    shown of a machine and its history. *)
From S2P Require Import Prelude.
From S2P Require Import GoStd.

Open Scope string_scope.
Open Scope list_scope.
Open Scope Z_scope.

(** * Data *)

Record Node : Type := mkNode {
  n_ID : string;
  n_Host : string;
  n_Port : Z;
  n_Addresses : list string;
  n_TXT : list string
}.

Inductive EventType : Type := Discovered | Updated | Removed.

Record Event : Type := mkEvent { ev_Type : EventType; ev_Node : Node }.

#[export] Instance EventType_eq_dec : EqDecision EventType.
Proof. solve_decision. Defined.
#[export] Instance Node_eq_dec : EqDecision Node.
Proof. solve_decision. Defined.
#[export] Instance Event_eq_dec : EqDecision Event.
Proof. solve_decision. Defined.

Definition missThresholdDefault : Z := 12.
Definition probeAfterMisses : Z := 3.
Definition emptyScanGrace : Z := 6.
Definition sendFailureThreshold : Z := 3.

(** The options that change the reconciliation: the probe is present or not, and its
    answers are an input of each scan. *)
Record options : Type := mkOptions {
  o_missThreshold : Z;
  o_noEvict : bool;
  o_liveness : bool;
  o_keyFunc : option (Node -> string)
}.

Record Browser : Type := mkBrowser {
  b_nodes : gmap string Node;
  b_misses : gmap string Z;
  b_emptyScans : Z;
  b_sendMisses : gmap string Z
}.

Definition New : Browser := mkBrowser ∅ ∅ 0 ∅.

Definition set_known (nodes : gmap string Node) (misses : gmap string Z) (b : Browser) : Browser :=
  mkBrowser nodes misses (b_emptyScans b) (b_sendMisses b).
Definition set_emptyScans (n : Z) (b : Browser) : Browser :=
  mkBrowser (b_nodes b) (b_misses b) n (b_sendMisses b).
Definition set_sendMisses (m : gmap string Z) (b : Browser) : Browser :=
  mkBrowser (b_nodes b) (b_misses b) (b_emptyScans b) m.

Definition misses_of (b : Browser) (k : string) : Z := default 0 (b_misses b !! k).

(** * Comparison of records *)

Definition UUIDFromTXT (txt : list string) : string :=
  default "" (head (omap (cut_prefix "uuid=") txt)).

Definition tally (d : Z) (counts : gmap string Z) (s : string) : gmap string Z :=
  <[s := default 0 (counts !! s) + d]> counts.

Definition sameStringSet (a b : list string) : bool :=
  bool_decide (length a = length b)
  && bool_decide (map_Forall (fun _ n => n = 0) (foldl (tally (-1)) (foldl (tally 1) ∅ a) b)).

Definition nodeEqual (a b : Node) : bool :=
  if negb (bool_decide (n_Host a = n_Host b)) || negb (n_Port a =? n_Port b) then false
  else sameStringSet (n_Addresses a) (n_Addresses b) && sameStringSet (n_TXT a) (n_TXT b).

(** * Reconciliation *)

Section Browser.
Context `{!MapRange} (o : options).

Definition key (n : Node) : string :=
  match o_keyFunc o with
  | Some f => if bool_decide (f n = "") then n_ID n else f n
  | None => n_ID n
  end.

Definition Seed (nodes : list Node) (b : Browser) : Browser :=
  foldl (fun b n => set_known (<[key n := n]> (b_nodes b)) (delete (key n) (b_misses b)) b) b nodes.

Definition probeAfter : Z :=
  if o_missThreshold o <? probeAfterMisses then o_missThreshold o else probeAfterMisses.

(** The first loop: one node of the scan. *)
Definition note_seen (st : Browser * list Event) (kn : string * Node) : Browser * list Event :=
  let '(b, pending) := st in
  let '(k, node) := kn in
  (set_known (<[k := node]> (b_nodes b)) (delete k (b_misses b)) b,
   match b_nodes b !! k with
   | None => pending ++ [mkEvent Discovered node]
   | Some existing => if nodeEqual existing node then pending else pending ++ [mkEvent Updated node]
   end).

(** Whether the scan lost several nodes at once and is still excused. *)
Definition suspicious (seen : gmap string Node) (b : Browser) : bool :=
  (size seen =? 0)%nat && (1 <? size (b_nodes b))%nat.
Definition count_empty (seen : gmap string Node) (b : Browser) : Browser :=
  set_emptyScans (if suspicious seen b then b_emptyScans b + 1 else 0) b.
Definition excused (seen : gmap string Node) (b : Browser) : bool :=
  suspicious seen b && (b_emptyScans b + 1 <=? emptyScanGrace).

(** The second loop: one known node, absent from the scan or not. *)
Definition note_missed (seen : gmap string Node) (st : Browser * list Event * list Node)
    (kn : string * Node) : Browser * list Event * list Node :=
  let '(b, pending, probe) := st in
  let '(k, node) := kn in
  match seen !! k with
  | Some _ => st
  | None =>
      let m := misses_of b k + 1 in
      let b := set_known (b_nodes b) (<[k := m]> (b_misses b)) b in
      if negb (o_liveness o) then
        if o_missThreshold o <=? m
        then (set_known (delete k (b_nodes b)) (delete k (b_misses b)) b,
              pending ++ [mkEvent Removed node], probe)
        else (b, pending, probe)
      else (b, pending, if probeAfter <=? m then probe ++ [node] else probe)
  end.

(** Everything [reconcile] does under its first lock: the new state, the events so far
    and the nodes to probe. *)
Definition observe (seen : gmap string Node) (b : Browser) : Browser * list Event * list Node :=
  let '(b, pending) := foldl note_seen (b, []) (range seen) in
  if o_noEvict o then (b, pending, [])
  else
    let quiet := excused seen b in
    let b := count_empty seen b in
    if quiet then (b, pending, [])
    else foldl (note_missed seen) (b, pending, []) (range (b_nodes b)).

Definition probeLiveness (alive : Node -> bool) (nodes : list Node) : list (Node * bool) :=
  (fun n => (n, alive n)) <$> nodes.

(** The last loop: one verdict. *)
Definition apply_verdict (st : Browser * list Event) (v : Node * bool) : Browser * list Event :=
  let '(b, pending) := st in
  let k := key v.1 in
  if v.2 then
    match b_nodes b !! k with
    | Some _ => (set_known (b_nodes b) (<[k := 0]> (b_misses b)) b, pending)
    | None => st
    end
  else
    match b_nodes b !! k with
    | Some cur =>
        if o_missThreshold o <=? misses_of b k
        then (set_known (delete k (b_nodes b)) (delete k (b_misses b)) b,
              pending ++ [mkEvent Removed cur])
        else st
    | None => st
    end.

Definition reconcile (seen : gmap string Node) (alive : Node -> bool) (b : Browser)
    : Browser * list Event :=
  let '(b, pending, probe) := observe seen b in
  foldl apply_verdict (b, pending) (probeLiveness alive probe).

(** One scan as the browser meets it: what it saw, and what each node would answer. *)
Record Scan : Type := mkScan { sc_seen : gmap string Node; sc_alive : Node -> bool }.

Fixpoint run (b : Browser) (scans : list Scan) : Browser * list Event :=
  match scans with
  | [] => (b, [])
  | s :: scans =>
      let '(b, events) := reconcile (sc_seen s) (sc_alive s) b in
      let '(b, events') := run b scans in (b, events ++ events')
  end.

(** * Send failures *)

Definition count_send (m : gmap string Z) (outcome : string * bool) : gmap string Z :=
  if outcome.2 then delete outcome.1 m
  else <[outcome.1 := default 0 (m !! outcome.1) + 1]> m.

Definition recordSendOutcomes (outcomes : gmap string bool) (b : Browser) : Browser :=
  let m := foldl count_send (b_sendMisses b) (range outcomes) in
  set_sendMisses (filter (fun p => is_Some (outcomes !! p.1)) m) b.

Definition SendFailures (b : Browser) : gmap string bool :=
  (fun _ => true) <$> filter (fun p : string * Z => sendFailureThreshold <= p.2) (b_sendMisses b).
End Browser.

(** * Comparison of lists as multisets *)

Lemma tally_lookup d m s t :
  default 0 (tally d m s !! t) = default 0 (m !! t) + (if bool_decide (s = t) then d else 0).
Proof.
  unfold tally. case_bool_decide as Hst; [subst; by rewrite lookup_insert_eq |].
  rewrite lookup_insert_ne by done. lia.
Qed.

Definition occurrences (t : string) (l : list string) : Z := Z.of_nat (count_occ String.string_dec l t).

Lemma tally_all d m l t : default 0 (foldl (tally d) m l !! t) = default 0 (m !! t) + d * occurrences t l.
Proof.
  revert m. induction l as [|s l IH]; intros m; cbn [foldl]; [unfold occurrences; cbn; lia |].
  rewrite IH, tally_lookup. unfold occurrences. cbn [count_occ].
  destruct (String.string_dec s t); case_bool_decide; try done; lia.
Qed.

Lemma zero_default (m : gmap string Z) :
  map_Forall (fun _ n => n = 0) m <-> forall t, default 0 (m !! t) = 0.
Proof.
  split; intros Hm t.
  - destruct (m !! t) as [n|] eqn:E; [by apply (Hm t) | done].
  - intros n Hn. specialize (Hm t). by rewrite Hn in Hm.
Qed.

(** [sameStringSet] decides equality up to order. *)
Lemma sameStringSet_perm a b : sameStringSet a b = true <-> a ≡ₚ b.
Proof.
  unfold sameStringSet. rewrite andb_true_iff, !bool_decide_eq_true, zero_default.
  rewrite (Permutation_count_occ String.string_dec). split.
  - intros [_ Hz] t. specialize (Hz t). rewrite !tally_all, lookup_empty in Hz. cbn in Hz.
    unfold occurrences in Hz. lia.
  - intros Hc. split.
    + by apply Permutation_length, (Permutation_count_occ String.string_dec).
    + intros t. rewrite !tally_all, lookup_empty. unfold occurrences. rewrite Hc. cbn. lia.
Qed.

(** Two records say the same thing: the browser's own comparison, as a relation. *)
Definition same_record (a b : Node) : Prop := nodeEqual a b = true.

Lemma same_record_spec a b :
  same_record a b <->
  n_Host a = n_Host b /\ n_Port a = n_Port b /\ n_Addresses a ≡ₚ n_Addresses b /\ n_TXT a ≡ₚ n_TXT b.
Proof.
  unfold same_record, nodeEqual.
  destruct (bool_decide (n_Host a = n_Host b)) eqn:Hh; cbn; unbool; [| naive_solver].
  destruct (Z.eqb_spec (n_Port a) (n_Port b)); cbn; [| naive_solver].
  rewrite andb_true_iff, !sameStringSet_perm. naive_solver.
Qed.

#[export] Instance same_record_equiv : Equivalence same_record.
Proof.
  split.
  - intros a. by apply same_record_spec.
  - intros a b. rewrite !same_record_spec. intros (? & ? & ? & ?). by repeat split.
  - intros a b c. rewrite !same_record_spec. intros (? & ? & ? & ?) (? & ? & ? & ?).
    repeat split; etransitivity; eauto.
Qed.

(** * One machine per node *)

Section Machine.
Context `{!MapRange} (o : options).

Definition cell : Type := option Node * Z.

Definition cell_of (b : Browser) (k : string) : cell := (b_nodes b !! k, misses_of b k).

(** What one scan does to one node. *)
Definition cell_step (quiet : bool) (seen : option Node) (alive : Node -> bool) (c : cell)
    : cell * list Event :=
  match seen, c.1 with
  | Some n, None => ((Some n, 0), [mkEvent Discovered n])
  | Some n, Some e => ((Some n, 0), if nodeEqual e n then [] else [mkEvent Updated n])
  | None, None => (c, [])
  | None, Some n =>
      if o_noEvict o || quiet then (c, [])
      else if o_liveness o && (c.2 + 1 <? probeAfter o) then ((Some n, c.2 + 1), [])
      else if o_liveness o && alive n then ((Some n, 0), [])
      else if o_missThreshold o <=? c.2 + 1 then ((None, 0), [mkEvent Removed n])
      else ((Some n, c.2 + 1), [])
  end.

Definition keyed (m : gmap string Node) : Prop := forall k n, m !! k = Some n -> key o n = k.

(** Known nodes are filed under their key, and only known nodes have misses. *)
Record wf (b : Browser) : Prop := {
  wf_keyed : keyed (b_nodes b);
  wf_misses : forall k, b_nodes b !! k = None -> misses_of b k = 0
}.

Definition of_key (k : string) (events : list Event) : list Event :=
  List.filter (fun e => bool_decide (key o (ev_Node e) = k)) events.

Lemma of_key_app k l l' : of_key k (l ++ l') = of_key k l ++ of_key k l'.
Proof. apply List.filter_app. Qed.

Lemma of_key_one k t n :
  of_key k [mkEvent t n] = if bool_decide (key o n = k) then [mkEvent t n] else [].
Proof. done. Qed.

Lemma misses_known nodes misses b k :
  misses_of (set_known nodes misses b) k = default 0 (misses !! k).
Proof. done. Qed.

Definition at_key (k : string) (st : Browser * list Event) : cell * list Event :=
  (cell_of st.1 k, of_key k st.2).
Definition at_key' (k : string) (st : Browser * list Event * list Node) : cell * list Event * list Node :=
  (at_key k st.1, List.filter (fun n => bool_decide (key o n = k)) st.2).

(** The map lemmas the three loops need, in one place. *)
Ltac at_other :=
  unfold at_key', at_key, cell_of, misses_of; cbn [fst snd b_nodes b_misses set_known];
  rewrite ?of_key_app, ?of_key_one, ?List.filter_app; cbn [List.filter];
  rewrite ?lookup_delete_ne, ?lookup_insert_ne by done;
  repeat (rewrite bool_decide_false by congruence); rewrite ?app_nil_r; try done.
Ltac at_same :=
  unfold at_key', at_key, cell_of, misses_of; cbn [fst snd b_nodes b_misses set_known];
  rewrite ?of_key_app, ?of_key_one, ?List.filter_app; cbn [List.filter];
  rewrite ?lookup_insert_eq, ?lookup_delete_eq;
  repeat (rewrite bool_decide_true by congruence); rewrite ?app_nil_r; try done.

Ltac use_tests :=
  repeat match goal with H : ?x = _ |- context [?x] => lazymatch type of x with bool => rewrite H end end.
Ltac split_key a b :=
  destruct (decide (a = b)) as [-> | ?];
  [rewrite (bool_decide_true (b = b)) by done | rewrite (bool_decide_false (a = b)) by done].

(** The three loop bodies as they act on the node they concern. *)
Definition seen_upd (t : cell * list Event) (p : string * Node) : cell * list Event :=
  ((Some p.2, 0), t.2 ++ match t.1.1 with
                         | None => [mkEvent Discovered p.2]
                         | Some e => if nodeEqual e p.2 then [] else [mkEvent Updated p.2]
                         end).

Definition missed_upd (seen : gmap string Node) (k : string) (t : cell * list Event * list Node)
    (p : string * Node) : cell * list Event * list Node :=
  match seen !! k with
  | Some _ => t
  | None =>
      let '((nd, m), evs, probe) := t in
      if negb (o_liveness o) then
        if o_missThreshold o <=? m + 1 then ((None, 0), evs ++ [mkEvent Removed p.2], probe)
        else ((nd, m + 1), evs, probe)
      else ((nd, m + 1), evs, if probeAfter o <=? m + 1 then probe ++ [p.2] else probe)
  end.

Definition verdict_upd (t : cell * list Event) (v : Node * bool) : cell * list Event :=
  let '((nd, m), evs) := t in
  match nd with
  | None => t
  | Some cur =>
      if v.2 then ((nd, 0), evs)
      else if o_missThreshold o <=? m then ((None, 0), evs ++ [mkEvent Removed cur])
      else t
  end.

Lemma note_seen_local k st p : key o p.2 = p.1 ->
  at_key k (note_seen st p) =
  if bool_decide (p.1 = k) then seen_upd (at_key k st) p else at_key k st.
Proof.
  unfold seen_upd. destruct st as [b pending], p as [k' n]. cbn [fst snd]. intros Hk. unfold note_seen.
  split_key k' k.
  - destruct (b_nodes b !! k) as [e|] eqn:En; [destruct (nodeEqual e n) eqn:Ee |];
      rewrite ?En; at_same; by rewrite ?En, ?Ee, ?app_nil_r.
  - destruct (b_nodes b !! k') as [e|] eqn:En; [destruct (nodeEqual e n) eqn:Ee |]; at_other.
Qed.

Lemma note_missed_local seen k st p : key o p.2 = p.1 ->
  at_key' k (note_missed o seen st p) =
  if bool_decide (p.1 = k) then missed_upd seen k (at_key' k st) p else at_key' k st.
Proof.
  unfold missed_upd.
  destruct st as [[b pending] probe], p as [k' n]. cbn [fst snd]. intros Hk. unfold note_missed.
  split_key k' k.
  - destruct (seen !! k); [done |]. unfold misses_of; cbv zeta.
    repeat case_bool; at_same; cbn; use_tests; done.
  - destruct (seen !! k'); [done |]. repeat case_bool; at_other.
Qed.

Definition keyed_state (st : Browser * list Event) : Prop := keyed (b_nodes st.1).

Lemma apply_verdict_local k st v : keyed_state st ->
  at_key k (apply_verdict o st v) =
  if bool_decide (key o v.1 = k) then verdict_upd (at_key k st) v else at_key k st.
Proof.
  unfold verdict_upd.
  destruct st as [b pending], v as [n ok]. unfold keyed_state. cbn [fst snd]. intros Hb. unfold apply_verdict.
  cbn [fst snd]. remember (key o n) as k' eqn:Hn. clear Hn. split_key k' k.
  - replace (at_key k (b, pending)) with ((b_nodes b !! k, misses_of b k), of_key k pending) by done. destruct ok.
    + destruct (b_nodes b !! k) eqn:En; at_same; by rewrite ?En.
    + destruct (b_nodes b !! k) as [cur|] eqn:En; [| at_same; by rewrite En]. pose proof (Hb k cur En).
      case_bool; at_same; by rewrite ?En.
  - destruct ok, (b_nodes b !! k') as [cur|] eqn:En; try done; [at_other |].
    pose proof (Hb k' cur En). case_bool; [at_other | done].
Qed.

Lemma apply_verdict_keyed st v : keyed_state st -> keyed_state (apply_verdict o st v).
Proof.
  destruct st as [b pending], v as [n ok]. unfold keyed_state, apply_verdict. cbn [fst snd]. intros Hb.
  destruct ok, (b_nodes b !! key o n); try case_bool; try done; cbn.
  intros k' n' [_ Hn]%lookup_delete_Some. by apply Hb.
Qed.

Lemma seen_loop seen b k : keyed seen ->
  at_key k (foldl note_seen (b, []) (range seen)) =
  match seen !! k with
  | Some n => ((Some n, 0), match b_nodes b !! k with
                            | None => [mkEvent Discovered n]
                            | Some e => if nodeEqual e n then [] else [mkEvent Updated n]
                            end)
  | None => (cell_of b k, [])
  end.
Proof.
  intros Hseen. destruct (foldl_project (fun _ => True) note_seen fst k (at_key k) seen_upd (range seen) (b, [])) as [-> _];
    [done | | done |].
  { intros s [k' n] Hin _. apply note_seen_local. by apply Hseen, elem_of_range. }
  rewrite filter_range. by destruct (seen !! k).
Qed.

(** The first loop touches neither counter. *)
Lemma seen_loop_counters l b pending :
  b_emptyScans (foldl note_seen (b, pending) l).1 = b_emptyScans b.
Proof.
  revert b pending. induction l as [|[k n] l IH]; intros b pending; cbn [foldl]; [done |].
  destruct (note_seen (b, pending) (k, n)) as [b' p'] eqn:E. rewrite IH. by injection E as <- <-.
Qed.

Lemma quiet_before seen b pending :
  excused seen (foldl note_seen (b, pending) (range seen)).1 = excused seen b
  /\ suspicious seen (foldl note_seen (b, pending) (range seen)).1 = suspicious seen b.
Proof.
  destruct (decide (seen = ∅)) as [-> | Hs].
  - assert (range (∅ : gmap string Node) = []) as -> by (apply Permutation_nil; symmetry; by rewrite range_perm, map_to_list_empty).
    done.
  - unfold excused, suspicious. apply map_size_non_empty_iff in Hs.
    destruct (Nat.eqb_spec (size seen) 0); [lia | done].
Qed.

Lemma observe_at seen b k : wf b -> keyed seen ->
  at_key' k (observe o seen b) =
  match seen !! k, b_nodes b !! k with
  | Some n, None => ((Some n, 0), [mkEvent Discovered n], [])
  | Some n, Some e => ((Some n, 0), if nodeEqual e n then [] else [mkEvent Updated n], [])
  | None, None => ((None, 0), [], [])
  | None, Some n =>
      if o_noEvict o || excused seen b then (cell_of b k, [], [])
      else let m := misses_of b k + 1 in
        if negb (o_liveness o) then
          if o_missThreshold o <=? m then ((None, 0), [mkEvent Removed n], []) else ((Some n, m), [], [])
        else ((Some n, m), [], if probeAfter o <=? m then [n] else [])
  end.
Proof.
  intros Hb Hseen. unfold observe. pose proof (seen_loop seen b k Hseen) as Hk.
  destruct (quiet_before seen b []) as [Hq _].
  assert (keyed (b_nodes (foldl note_seen (b, []) (range seen)).1)) as Hkeyed.
  { intros k' n' Hn. pose proof (seen_loop seen b k' Hseen) as Hk'. apply (f_equal fst) in Hk'.
    unfold at_key, cell_of in Hk'. cbn [fst] in Hk'. rewrite Hn in Hk'.
    destruct (seen !! k') eqn:Es; simplify_eq/=; [by apply Hseen |].
    apply (wf_keyed b Hb). congruence. }
  destruct (foldl note_seen (b, []) (range seen)) as [b1 p1]. cbn [fst] in *. rewrite Hq. clear Hq.
  unfold at_key in Hk. cbn [fst snd] in Hk.
  assert (at_key' k (b1, p1, []) = match seen !! k, b_nodes b !! k with
    | Some n, None => ((Some n, 0), [mkEvent Discovered n], [])
    | Some n, Some e => ((Some n, 0), if nodeEqual e n then [] else [mkEvent Updated n], [])
    | None, None => ((None, 0), [], [])
    | None, Some n => (cell_of b k, [], [])
    end) as Hk1.
  { unfold at_key', at_key. cbn [fst snd]. rewrite Hk. destruct (seen !! k), (b_nodes b !! k) eqn:En; try done.
    unfold cell_of. by rewrite En, (wf_misses b Hb). }
  destruct (o_noEvict o); cbn [orb].
  { rewrite Hk1. by destruct (seen !! k), (b_nodes b !! k). }
  destruct (excused seen b).
  { change (at_key' k (count_empty seen b1, p1, [])) with (at_key' k (b1, p1, [])). rewrite Hk1.
    by destruct (seen !! k), (b_nodes b !! k). }
  destruct (foldl_project (fun _ => True) (note_missed o seen) fst k (at_key' k) (missed_upd seen k)
    (range (b_nodes (count_empty seen b1))) (count_empty seen b1, p1, [])) as [-> _]; [done | | done |].
  { intros s [k' n] Hin _. apply note_missed_local. apply Hkeyed. by apply elem_of_range in Hin. }
  rewrite filter_range. cbn [b_nodes count_empty set_emptyScans].
  change (at_key' k (count_empty seen b1, p1, [])) with (at_key' k (b1, p1, [])). rewrite Hk1.
  assert (b_nodes b1 !! k = (at_key' k (b1, p1, [])).1.1.1) as -> by done. rewrite Hk1. clear Hk1 Hk Hkeyed.
  destruct (seen !! k) as [n|] eqn:Es, (b_nodes b !! k) as [e|] eqn:En; cbn [fst foldl snd];
    unfold missed_upd; rewrite ?Es; try done.
  replace (cell_of b k) with ((Some e, misses_of b k)) by (unfold cell_of; by rewrite En).
  cbn [fst foldl snd app].
  by repeat case_bool.
Qed.

Lemma observe_keyed seen b : wf b -> keyed seen -> keyed (b_nodes (observe o seen b).1.1).
Proof.
  intros Hb Hseen k n Hn. pose proof (observe_at seen b k Hb Hseen) as Hk.
  assert (b_nodes (observe o seen b).1.1 !! k = (at_key' k (observe o seen b)).1.1.1) as Hk' by done.
  rewrite Hk' in Hn. rewrite Hk in Hn. clear Hk Hk'.
  destruct (seen !! k) as [s|] eqn:Es.
  { assert (s = n) as -> by (destruct (b_nodes b !! k); by simplify_eq/=). by apply Hseen. }
  destruct (b_nodes b !! k) as [e|] eqn:En; [| by simplify_eq/=].
  assert (e = n) as -> by (unfold cell_of in Hn; rewrite En in Hn; repeat case_bool; by simplify_eq/=).
  by apply (wf_keyed b Hb).
Qed.

(** What a scan does to each node, and the events it announces for it. *)
Lemma reconcile_at seen alive b k : wf b -> keyed seen ->
  at_key k (reconcile o seen alive b) = cell_step (excused seen b) (seen !! k) alive (cell_of b k).
Proof.
  intros Hb Hseen. unfold reconcile. pose proof (observe_at seen b k Hb Hseen) as Hk.
  pose proof (observe_keyed seen b Hb Hseen) as Hkeyed.
  destruct (observe o seen b) as [[b1 p1] probe]. cbn [fst] in Hkeyed.
  destruct (foldl_project keyed_state (apply_verdict o) (fun v => key o v.1) k (at_key k) verdict_upd
    (probeLiveness alive probe) (b1, p1)) as [-> _];
    [intros; by apply apply_verdict_keyed | intros; by apply apply_verdict_local | done |].
  assert (List.filter (fun v : Node * bool => bool_decide (key o v.1 = k)) (probeLiveness alive probe) =
          probeLiveness alive (List.filter (fun n => bool_decide (key o n = k)) probe)) as ->.
  { clear. unfold probeLiveness. induction probe as [|n l IH]; [done |]. cbn. case_bool_decide; cbn; by rewrite IH. }
  unfold at_key' in Hk. cbn [fst snd] in Hk. revert Hk.
  generalize (at_key k (b1, p1)) (List.filter (fun n => bool_decide (key o n = k)) probe).
  intros t pr Hk. unfold cell_step, cell_of in *. cbn [fst snd].
  destruct (seen !! k) as [n|], (b_nodes b !! k) as [e|] eqn:En; cbn [fst snd];
    [by (injection Hk as -> ->) .. | | injection Hk as -> ->; by rewrite (wf_misses b Hb)].
  destruct (o_noEvict o || excused seen b); [by injection Hk as -> -> |]. cbv zeta in Hk.
  unfold probeLiveness, probeAfter in *.
  destruct (o_liveness o); cbn [negb andb] in *.
  - injection Hk as -> ->. repeat case_bool; unbool; cbn; try lia; use_tests; try done; case_bool; unbool; done || lia.
  - case_bool; by injection Hk as -> ->.
Qed.


Lemma reconcile_cell seen alive b k : wf b -> keyed seen ->
  cell_of (reconcile o seen alive b).1 k =
  (cell_step (excused seen b) (seen !! k) alive (cell_of b k)).1.
Proof. intros. by rewrite <- reconcile_at. Qed.

Lemma reconcile_events seen alive b k : wf b -> keyed seen ->
  of_key k (reconcile o seen alive b).2 =
  (cell_step (excused seen b) (seen !! k) alive (cell_of b k)).2.
Proof. intros. by rewrite <- reconcile_at. Qed.

(** A machine stays under its key, and an absent node has no misses. *)
Lemma cell_step_ok quiet k sn alive c :
  (forall n, c.1 = Some n -> key o n = k) -> (forall n, sn = Some n -> key o n = k) ->
  (c.1 = None -> c.2 = 0) ->
  let c' := (cell_step quiet sn alive c).1 in
  (forall n, c'.1 = Some n -> key o n = k) /\ (c'.1 = None -> c'.2 = 0).
Proof.
  destruct c as [nd m]. unfold cell_step. cbn [fst snd]. intros Hc Hs Hm.
  destruct sn, nd; cbn; repeat case_bool; cbn; naive_solver.
Qed.

Lemma reconcile_wf seen alive b : wf b -> keyed seen -> wf (reconcile o seen alive b).1.
Proof.
  intros Hb Hseen.
  assert (forall k, let c := cell_of (reconcile o seen alive b).1 k in
    (forall n, c.1 = Some n -> key o n = k) /\ (c.1 = None -> c.2 = 0)) as Hk.
  { intros k. rewrite reconcile_cell by done.
    apply cell_step_ok; [intros n; apply (wf_keyed b Hb) | intros n; apply Hseen | apply (wf_misses b Hb)]. }
  split; [intros k n; apply Hk | intros k; apply Hk].
Qed.

(** The counter of empty scans. *)
Lemma missed_counter seen l st :
  b_emptyScans (foldl (note_missed o seen) st l).1.1 = b_emptyScans st.1.1.
Proof.
  revert st. induction l as [|[k n] l IH]; intros st; cbn [foldl]; [done |]. rewrite IH.
  destruct st as [[b p] pr]. unfold note_missed. destruct (seen !! k); [done |]. by repeat case_bool.
Qed.

Lemma verdict_counter l st : b_emptyScans (foldl (apply_verdict o) st l).1 = b_emptyScans st.1.
Proof.
  revert st. induction l as [|[n ok] l IH]; intros st; cbn [foldl]; [done |]. rewrite IH.
  destruct st as [b p]. unfold apply_verdict. cbn [fst snd].
  by repeat case_match.
Qed.

Lemma reconcile_counter seen alive b :
  b_emptyScans (reconcile o seen alive b).1 =
  if o_noEvict o then b_emptyScans b
  else if suspicious seen b then b_emptyScans b + 1 else 0.
Proof.
  unfold reconcile, observe. destruct (quiet_before seen b []) as [Hq Hs].
  pose proof (seen_loop_counters (range seen) b []) as Hc.
  destruct (foldl note_seen (b, []) (range seen)) as [b1 p1]. cbn [fst] in *. rewrite Hq.
  destruct (o_noEvict o); [by rewrite verdict_counter |].
  destruct (excused seen b).
  - rewrite verdict_counter. cbn [fst]. unfold count_empty. cbn. by rewrite Hs, Hc.
  - pose proof (missed_counter seen (range (b_nodes (count_empty seen b1))) (count_empty seen b1, p1, [])) as Hm.
    destruct (foldl (note_missed o seen) _ _) as [[b2 p2] pr]. rewrite verdict_counter. cbn [fst] in *.
    rewrite Hm. unfold count_empty. cbn. by rewrite Hs, Hc.
Qed.

(** Histories: the states a run goes through. *)
Fixpoint states (b : Browser) (scans : list Scan) : list (Browser * Scan) :=
  match scans with
  | [] => []
  | s :: scans => (b, s) :: states (reconcile o (sc_seen s) (sc_alive s) b).1 scans
  end.

Definition scan_ok (s : Scan) : Prop := keyed (sc_seen s).

Lemma run_cons b s scans :
  run o b (s :: scans) =
  let r := reconcile o (sc_seen s) (sc_alive s) b in
  ((run o r.1 scans).1, r.2 ++ (run o r.1 scans).2).
Proof. cbn [run]. cbv zeta. destruct (reconcile _ _ _ _) as [b' e]. cbn [fst snd]. by destruct (run o b' scans). Qed.

Lemma scans_wf b scans : wf b -> Forall scan_ok scans -> wf (run o b scans).1.
Proof.
  revert b. induction scans as [|s scans IH]; intros b Hb Hs; [done |].
  apply Forall_cons in Hs as [Hs Hss]. rewrite run_cons. cbn [fst]. apply IH; [| done]. by apply reconcile_wf.
Qed.

Lemma scans_snoc b scans s :
  (run o b (scans ++ [s])).1 = (reconcile o (sc_seen s) (sc_alive s) (run o b scans).1).1.
Proof.
  revert b. induction scans as [|s' scans IH]; intros b; [change ([] ++ [s]) with [s]; by rewrite run_cons |].
  rewrite <- app_comm_cons, !run_cons. cbn [fst]. by rewrite IH.
Qed.

Lemma states_snoc b scans s :
  states b (scans ++ [s]) = states b scans ++ [((run o b scans).1, s)].
Proof.
  revert b. induction scans as [|s' scans IH]; intros b; [done |].
  rewrite <- app_comm_cons, run_cons. cbn [states fst app]. by rewrite IH.
Qed.

Lemma New_wf : wf New.
Proof. by split. Qed.

End Machine.

(** * Theorems *)

Section Facts.
Context `{!MapRange} (o : options).

(** What a consumer that keeps the events it is told knows of the fleet. *)
Definition deliver (view : gmap string Node) (e : Event) : gmap string Node :=
  match ev_Type e with
  | Removed => delete (key o (ev_Node e)) view
  | Discovered | Updated => <[key o (ev_Node e) := ev_Node e]> view
  end.

Definition same_view (view nodes : gmap string Node) : Prop :=
  forall k, option_Forall2 same_record (view !! k) (nodes !! k).

Definition heard (c : option Node) (e : Event) : option Node :=
  match ev_Type e with Removed => None | Discovered | Updated => Some (ev_Node e) end.

Lemma deliver_at k events view :
  foldl deliver view events !! k = foldl heard (view !! k) (of_key o k events).
Proof.
  destruct (foldl_project (fun _ => True) deliver (fun e => key o (ev_Node e)) k (fun v => v !! k) heard
    events view) as [-> _]; [done | | done | done].
  intros v e _ _. unfold deliver, heard. case_bool_decide as E; destruct (ev_Type e);
    subst; by rewrite ?lookup_insert_eq, ?lookup_insert_ne, ?lookup_delete_eq, ?lookup_delete_ne.
Qed.

Lemma heard_step quiet sn alive c w :
  option_Forall2 same_record w c.1 ->
  option_Forall2 same_record (foldl heard w (cell_step o quiet sn alive c).2) (cell_step o quiet sn alive c).1.1.
Proof.
  destruct c as [nd m]. unfold cell_step. cbn [fst snd]. intros Hw.
  destruct sn as [n|], nd as [e|]; cbn [fst snd].
  - destruct (nodeEqual e n) eqn:E; cbn; [| by constructor].
    inversion Hw as [w' ? Hw'|]; subst. constructor. by transitivity e.
  - by constructor.
  - repeat case_bool; cbn; done || constructor.
  - done.
Qed.

Lemma replicate_step seen alive b view : wf o b -> keyed o seen -> same_view view (b_nodes b) ->
  same_view (foldl deliver view (reconcile o seen alive b).2) (b_nodes (reconcile o seen alive b).1).
Proof.
  intros Hb Hseen Hview k. rewrite deliver_at, reconcile_events by done.
  change (b_nodes (reconcile o seen alive b).1 !! k) with (cell_of (reconcile o seen alive b).1 k).1.
  rewrite reconcile_cell by done. apply heard_step, Hview.
Qed.

Lemma replicate_run b scans view :
  wf o b -> Forall (scan_ok o) scans -> same_view view (b_nodes b) ->
  same_view (foldl deliver view (run o b scans).2) (b_nodes (run o b scans).1).
Proof.
  revert b view. induction scans as [|s scans IH]; intros b view Hb Hs Hview; [done |].
  apply Forall_cons in Hs as [Hs Hss]. rewrite run_cons. cbn [fst snd]. rewrite foldl_app.
  apply IH; [by apply reconcile_wf | done | by apply replicate_step].
Qed.

Lemma deliver_keyed events view : keyed o view -> keyed o (foldl deliver view events).
Proof.
  revert view. induction events as [|e events IH]; intros view Hv; [done |]. cbn [foldl]. apply IH. intros k n. unfold deliver.
  destruct (ev_Type e); [intros [[<- <-]|[_ ?]]%lookup_insert_Some | intros [[<- <-]|[_ ?]]%lookup_insert_Some |
    intros [_ ?]%lookup_delete_Some]; auto.
Qed.

(** A consumer's record of a node beside the browser's. *)
Definition stands_for (v n : Node) : Prop :=
  key o v = key o n /\ n_Host v = n_Host n /\ n_Port v = n_Port n /\
  n_Addresses v ≡ₚ n_Addresses n /\ n_TXT v ≡ₚ n_TXT n.

(** C18. Whatever the scans bring, in whatever order the maps are walked, a consumer that
    starts with the browser's nodes and applies the events it is sent (a discovered or
    updated node replaces the entry under its key, a removed one deletes it) holds after
    every scan the same keys as the browser, each with a record of the same key, host and
    port and, but for their order, the same addresses and TXT strings: no departure, no
    arrival and no change of these is lost or invented.  Without a key function the key is
    the instance name, so the names agree too; with one, a change of the instance name
    alone raises no event and the consumer keeps the name it was told first. *)
Theorem events_replicate (b : Browser) (scans : list Scan) (view : gmap string Node) :
  wf o b -> Forall (scan_ok o) scans ->
  (forall k, option_Forall2 stands_for (view !! k) (b_nodes b !! k)) ->
  let view' := foldl deliver view (run o b scans).2 in
  let nodes := b_nodes (run o b scans).1 in
  (forall k, option_Forall2 stands_for (view' !! k) (nodes !! k)) /\
  (o_keyFunc o = None -> forall k v n, view' !! k = Some v -> nodes !! k = Some n -> n_ID v = n_ID n).
Proof.
  intros Hb Hs Hview view' nodes.
  assert (same_view view' nodes) as Hsame.
  { apply replicate_run; [done | done |]. intros k. specialize (Hview k). inversion Hview as [v n (_ & ? & ? & ? & ?)|]; constructor.
    by apply same_record_spec. }
  assert (keyed o nodes) as Hn by (by apply (scans_wf o b scans)).
  assert (keyed o view') as Hv.
  { apply deliver_keyed. intros k v E. specialize (Hview k). rewrite E in Hview. inversion Hview as [? n (Hk & _) E1 E2|]; subst.
    rewrite Hk. by apply Hb. }
  assert (forall k, option_Forall2 stands_for (view' !! k) (nodes !! k)) as Hall.
  { intros k. specialize (Hsame k). destruct (view' !! k) as [v|] eqn:Ev, (nodes !! k) as [n|] eqn:En;
      inversion Hsame as [? ? Hr|]; subst; constructor. split; [by rewrite (Hv k), (Hn k) | by apply same_record_spec]. }
  split; [exact Hall |]. intros Hf k v n Ev En. pose proof (Hall k) as Hk. rewrite Ev, En in Hk.
  inversion Hk as [? ? [Hkey _]|]; subst. unfold key in Hkey. by rewrite Hf in Hkey.
Qed.

(** The nodes a scan asks before giving them up. *)
Definition asked (b : Browser) (seen : gmap string Node) : list Node := (observe o seen b).2.

Lemma asked_at b seen k n : wf o b -> keyed o seen -> b_nodes b !! k = Some n -> seen !! k = None ->
  n ∈ asked b seen <->
  o_noEvict o || excused seen b = false /\ o_liveness o = true /\ probeAfter o <= misses_of b k + 1.
Proof.
  intros Hb Hseen Hn Hs. pose proof (observe_at o seen b k Hb Hseen) as Hk. rewrite Hs, Hn in Hk.
  unfold asked. apply (f_equal snd) in Hk. cbn [at_key' snd] in Hk.
  assert (n ∈ (observe o seen b).2 <->
          n ∈ List.filter (fun n => bool_decide (key o n = k)) (observe o seen b).2) as ->.
  { rewrite elem_of_bfilter, bool_decide_eq_true. pose proof (wf_keyed o b Hb k n Hn). naive_solver. }
  rewrite Hk. clear Hk. destruct (o_noEvict o || excused seen b); [cbn; split; [by intros ?%not_elem_of_nil | naive_solver] |].
  cbv zeta. destruct (o_liveness o); cbn [negb].
  - cbn [snd]. case_bool; unbool.
    + split; [intros _; repeat split; lia | intros _; left].
    + split; [by intros ?%not_elem_of_nil | lia].
  - split; [case_bool; by intros ?%not_elem_of_nil | naive_solver].
Qed.

(** A scan asked the node and had no answer. *)
Definition refused (n : Node) (p : Browser * Scan) : bool :=
  bool_decide (n ∈ asked p.1 (sc_seen p.2)) && negb (sc_alive p.2 n).

(** A scan gave no sign of the node: it did not see it and, if it asked, had no answer. *)
Definition no_sign (k : string) (n : Node) (p : Browser * Scan) : Prop :=
  sc_seen p.2 !! k = None /\ (n ∈ asked p.1 (sc_seen p.2) -> sc_alive p.2 n = false).

Definition refusals (n : Node) (l : list (Browser * Scan)) : Z := Z.of_nat (length (List.filter (refused n) l)).

(** What the misses of a node stand for, over the history that led to them. *)
Definition evidence (hist : list (Browser * Scan)) (k : string) (n : Node) (m : Z) : Prop :=
  exists pre suf, hist = pre ++ suf /\ Forall (no_sign k n) suf /\ m <= Z.of_nat (length suf) /\
    (o_liveness o = true -> m - probeAfter o + 1 <= refusals n suf).

Lemma evidence_none hist k n m : 1 <= o_missThreshold o -> m <= 0 -> evidence hist k n m.
Proof.
  intros Ht Hm. exists hist, []. rewrite app_nil_r. repeat split; [constructor | cbn; lia |].
  intros _. unfold refusals, probeAfter, probeAfterMisses. cbn. case_bool; unbool; lia.
Qed.

Lemma evidence_more hist k n m m' p :
  evidence hist k n m -> no_sign k n p -> m' <= m + 1 ->
  (o_liveness o = true -> m < m' -> probeAfter o <= m' -> refused n p = true) ->
  evidence (hist ++ [p]) k n m'.
Proof.
  intros (pre & suf & -> & Hsuf & Hm & Hr) Hp Hm' Href. exists pre, (suf ++ [p]).
  rewrite app_assoc. repeat split.
  - by apply Forall_app_2; [| constructor].
  - rewrite length_app. cbn. lia.
  - intros Hl. specialize (Hr Hl). unfold refusals in *. rewrite List.filter_app, length_app. cbn [List.filter].
    destruct (decide (m < m' /\ probeAfter o <= m')) as [[? ?]|Hn].
    + rewrite Href by done. cbn. lia.
    + case_bool; cbn [length]; lia.
Qed.

Lemma not_asked b seen k n : wf o b -> keyed o seen -> b_nodes b !! k = Some n -> seen !! k = None ->
  o_noEvict o || excused seen b = true \/ misses_of b k + 1 < probeAfter o ->
  n ∉ asked b seen.
Proof.
  intros Hb Hseen Hn Hs Hq Ha. apply (asked_at b seen k n) in Ha as (? & ? & ?); try done.
  destruct Hq; [congruence | lia].
Qed.

Lemma evidence_step hist b s k n m n' m' : 1 <= o_missThreshold o -> wf o b -> scan_ok o s ->
  cell_of b k = (Some n, m) -> evidence hist k n m ->
  cell_of (reconcile o (sc_seen s) (sc_alive s) b).1 k = (Some n', m') ->
  evidence (hist ++ [(b, s)]) k n' m'.
Proof.
  intros Ht Hb Hs Hc Hev Hc'. rewrite reconcile_cell in Hc' by done. rewrite Hc in Hc'.
  injection Hc as Hn Hm. unfold cell_step in Hc'. cbn [fst snd] in Hc'.
  destruct (sc_seen s !! k) as [sn|] eqn:Es; cbn [fst] in Hc'.
  { simplify_eq. by apply evidence_none. }
  destruct (o_noEvict o || excused (sc_seen s) b) eqn:Eq; [| destruct (o_liveness o && (m + 1 <? probeAfter o)) eqn:El];
    [| | destruct (o_liveness o && sc_alive s n) eqn:Ea; [| destruct (o_missThreshold o <=? m + 1)]];
    cbn [fst] in Hc'; simplify_eq.
  - apply (evidence_more _ k n' (misses_of b k)); try done; try lia.
    split; [done |]. intros Ha. exfalso. revert Ha. eapply not_asked; eauto.
  - unbool. apply (evidence_more _ k n' (misses_of b k)); try done; try lia.
    split; [done |]. intros Ha. exfalso. revert Ha. eapply not_asked; eauto.
  - by apply evidence_none.
  - assert (o_liveness o = true -> sc_alive s n' = false) as Hal.
    { intros Hl. rewrite Hl in Ea. done. }
    apply (evidence_more _ k n' (misses_of b k)); try done; try lia.
    + split; [done |]. cbn [fst snd]. intros (_ & Hl & _)%(asked_at b _ k n'); auto.
    + intros Hl _ Hp. unfold refused. cbn [fst snd]. rewrite Hal, andb_true_r by done.
      apply bool_decide_eq_true, (asked_at b _ k n'); auto.
Qed.

Lemma history_evidence scans k n m : 1 <= o_missThreshold o -> Forall (scan_ok o) scans ->
  cell_of (run o New scans).1 k = (Some n, m) -> evidence (states o New scans) k n m.
Proof.
  intros Ht. revert n m. induction scans as [|s scans IH] using rev_ind; intros n m Hs Hc; [done |].
  apply Forall_app in Hs as [Hss Hs]. apply Forall_cons in Hs as [Hs _].
  rewrite scans_snoc in Hc. rewrite states_snoc. set (b := (run o New scans).1) in *.
  assert (wf o b) as Hb by (apply scans_wf; [apply New_wf | done]).
  destruct (b_nodes b !! k) as [n0|] eqn:En.
  - eapply evidence_step; [done | done | done | | | exact Hc].
    + unfold cell_of. by rewrite En.
    + apply IH; [done |]. unfold cell_of. by rewrite En.
  - rewrite reconcile_cell in Hc by done. unfold cell_of, cell_step in Hc. rewrite En in Hc. cbn [fst] in Hc.
    destruct (sc_seen s !! k); simplify_eq/=. by apply evidence_none.
Qed.

Lemma removed_cell seen alive b n : wf o b -> keyed o seen ->
  mkEvent Removed n ∈ (reconcile o seen alive b).2 ->
  let k := key o n in
  seen !! k = None /\ b_nodes b !! k = Some n /\ o_noEvict o || excused seen b = false /\
  o_missThreshold o <= misses_of b k + 1 /\
  (o_liveness o = true -> probeAfter o <= misses_of b k + 1 /\ alive n = false).
Proof.
  intros Hb Hseen Hin k.
  assert (mkEvent Removed n ∈ of_key o k (reconcile o seen alive b).2) as Hk.
  { apply elem_of_bfilter. split; [done |]. by apply bool_decide_eq_true. }
  rewrite reconcile_events in Hk by done. unfold cell_step, cell_of in Hk. cbn [fst snd] in Hk.
  destruct (seen !! k) as [sn|], (b_nodes b !! k) as [e|]; cbn [snd] in Hk; try (repeat case_bool; set_solver).
  destruct (o_noEvict o || excused seen b); [set_solver |].
  destruct (o_liveness o && (misses_of b k + 1 <? probeAfter o)) eqn:El; [set_solver |].
  destruct (o_liveness o && alive e) eqn:Ea; [set_solver |].
  destruct (o_missThreshold o <=? misses_of b k + 1) eqn:Et; [| set_solver].
  apply list_elem_of_singleton in Hk. simplify_eq. unbool. repeat split; try done; try lia.
  - destruct (o_liveness o); cbn in *; unbool; [lia | done].
  - destruct (o_liveness o); cbn in *; congruence.
Qed.

(** C26. A node is given up only on evidence gathered since its last sign of life: when a
    removal is announced, the scans so far end with at least [missThreshold] scans none of
    which saw the node and none of which had an answer when it asked, and, where a
    liveness probe is configured, in at least [missThreshold - probeAfter + 1] of them the
    node was asked and did not answer. *)
Theorem eviction_evidence (scans : list Scan) (s : Scan) (n : Node) :
  1 <= o_missThreshold o -> Forall (scan_ok o) (scans ++ [s]) ->
  mkEvent Removed n ∈ (reconcile o (sc_seen s) (sc_alive s) (run o New scans).1).2 ->
  exists pre suf, states o New (scans ++ [s]) = pre ++ suf /\
    Forall (no_sign (key o n) n) suf /\
    o_missThreshold o <= Z.of_nat (length suf) /\
    (o_liveness o = true -> o_missThreshold o - probeAfter o + 1 <= refusals n suf).
Proof.
  intros Ht [Hss [Hs _]%Forall_cons]%Forall_app Hin.
  assert (wf o (run o New scans).1) as Hb by (apply scans_wf; [apply New_wf | done]).
  destruct (removed_cell _ _ _ _ Hb Hs Hin) as (Hsn & Hn & Hq & Hm & Hl).
  rewrite states_snoc. apply (evidence_more _ _ n (misses_of (run o New scans).1 (key o n))); [| | lia |].
  - apply history_evidence; [done | done |]. unfold cell_of. by rewrite Hn.
  - split; [done |]. intros (_ & Hli & _)%(asked_at _ _ (key o n) n); [by apply Hl | done ..].
  - intros Hli _ Hp. unfold refused. cbn [fst snd].
    rewrite (proj2 (Hl Hli)), andb_true_r. apply bool_decide_eq_true, (asked_at _ _ (key o n) n);
      try done. split_and!; [done | done | by apply Hl].
Qed.

(** A scan in which a node gives no sign at all. *)
Definition silent (k : string) (s : Scan) : Prop :=
  sc_seen s !! k = None /\ forall n, key o n = k -> sc_alive s n = false.

(** Misses stay below the threshold, and the counter of empty scans is a count. *)
Definition counters_ok (b : Browser) : Prop :=
  0 <= b_emptyScans b /\ forall k, 0 <= misses_of b k < o_missThreshold o.

Lemma counters_step b s : 1 <= o_missThreshold o -> wf o b -> scan_ok o s -> counters_ok b ->
  counters_ok (reconcile o (sc_seen s) (sc_alive s) b).1.
Proof.
  intros Ht Hb Hs [He Hm]. split.
  - rewrite reconcile_counter. repeat case_bool; lia.
  - intros k. specialize (Hm k).
    change (misses_of (reconcile o (sc_seen s) (sc_alive s) b).1 k)
      with (cell_of (reconcile o (sc_seen s) (sc_alive s) b).1 k).2.
    rewrite reconcile_cell by done. unfold cell_step, cell_of. cbn [fst snd].
    destruct (sc_seen s !! k), (b_nodes b !! k); cbn [fst snd]; try lia.
    unfold probeAfter in *. repeat case_bool; cbn [fst snd]; unbool; lia.
Qed.

Lemma counters_run b scans : 1 <= o_missThreshold o -> wf o b -> Forall (scan_ok o) scans ->
  counters_ok b -> counters_ok (run o b scans).1.
Proof.
  intros Ht. revert b. induction scans as [|s scans IH]; intros b Hb Hs Hc; [done |].
  apply Forall_cons in Hs as [Hs Hss]. rewrite run_cons. cbn [fst].
  apply IH; [by apply reconcile_wf | done | by apply counters_step].
Qed.

(** How far a silent node is on its way out: each miss weighs one grace period and a
    scan, and the excused scans since the last counted one weigh one each. *)
Definition progress (b : Browser) (k : string) : Z :=
  (emptyScanGrace + 1) * misses_of b k + Z.min (b_emptyScans b) emptyScanGrace.

Lemma silent_step b s k : o_noEvict o = false -> wf o b -> scan_ok o s -> counters_ok b -> silent k s ->
  let b' := (reconcile o (sc_seen s) (sc_alive s) b).1 in
  b_nodes b' !! k = None \/ (is_Some (b_nodes b !! k) /\ progress b k + 1 <= progress b' k).
Proof.
  intros Hev Hb Hs [He Hm] [Hsn Hal] b'. specialize (Hm k).
  assert (cell_of b' k = (cell_step o (excused (sc_seen s) b) None (sc_alive s) (cell_of b k)).1) as Hc.
  { rewrite <- Hsn. by apply reconcile_cell. }
  assert (b_emptyScans b' = if suspicious (sc_seen s) b then b_emptyScans b + 1 else 0) as He'.
  { unfold b'. by rewrite reconcile_counter, Hev. }
  unfold progress. rewrite He'. unfold cell_of, cell_step in Hc. cbn [fst snd] in Hc.
  destruct (b_nodes b !! k) as [n|] eqn:En; cbn [fst] in Hc.
  - specialize (Hal n (wf_keyed o b Hb k n En)). rewrite Hev, Hal in Hc. cbn [orb] in Hc. rewrite andb_false_r in Hc.
    unfold excused, emptyScanGrace in *.
    destruct (suspicious (sc_seen s) b); cbn [andb] in *; repeat case_bool; injection Hc as Hn Hmiss;
      unbool; rewrite ?Hmiss; (by left) || (right; split; [by eexists | lia]).
  - left. injection Hc as Hn _. done.
Qed.

Lemma stays_gone b scans k : wf o b -> Forall (scan_ok o) scans -> Forall (silent k) scans ->
  b_nodes b !! k = None -> b_nodes (run o b scans).1 !! k = None.
Proof.
  revert b. induction scans as [|s scans IH]; intros b Hb Hs Hq Hn; [done |].
  apply Forall_cons in Hs as [Hs Hss]. apply Forall_cons in Hq as [[Hq _] Hqs]. rewrite run_cons. cbn [fst].
  apply IH; [by apply reconcile_wf | done | done |].
  change (b_nodes (reconcile o (sc_seen s) (sc_alive s) b).1 !! k)
    with (cell_of (reconcile o (sc_seen s) (sc_alive s) b).1 k).1.
  rewrite reconcile_cell by done. unfold cell_step, cell_of. by rewrite Hq, Hn.
Qed.

Lemma silent_progress b scans k : o_noEvict o = false -> 1 <= o_missThreshold o -> wf o b -> counters_ok b ->
  Forall (scan_ok o) scans -> Forall (silent k) scans ->
  b_nodes (run o b scans).1 !! k = None \/
  progress b k + Z.of_nat (length scans) <= progress (run o b scans).1 k.
Proof.
  intros Hev Ht. revert b. induction scans as [|s scans IH]; intros b Hb Hc Hs Hq; [cbn; right; lia |].
  apply Forall_cons in Hs as [Hs Hss]. apply Forall_cons in Hq as [Hq Hqs]. rewrite run_cons. cbn [fst].
  destruct (silent_step b s k Hev Hb Hs Hc Hq) as [Hn | [_ Hp]].
  - left. apply stays_gone; [by apply reconcile_wf | done ..].
  - destruct (IH (reconcile o (sc_seen s) (sc_alive s) b).1) as [Hn|Hp']; [by apply reconcile_wf | by apply counters_step | done | done | by left |].
    right. cbn [length]. lia.
Qed.

(** C27. A node that has left ages out however the scans fall, unless the browser was set up
    to keep its nodes (WithNoEviction): with a miss threshold of at least one and from any
    state such a browser can reach, after [(emptyScanGrace + 1) * missThreshold] scans that neither see a
    node nor have an answer from it, the node is gone, even when every scan that loses the
    whole fleet at once is excused as a failure of the receiver. *)
Theorem departed_ages_out (before scans : list Scan) (k : string) :
  o_noEvict o = false -> 1 <= o_missThreshold o ->
  Forall (scan_ok o) before -> Forall (scan_ok o) scans -> Forall (silent k) scans ->
  (emptyScanGrace + 1) * o_missThreshold o <= Z.of_nat (length scans) ->
  b_nodes (run o (run o New before).1 scans).1 !! k = None.
Proof.
  intros Hev Ht Hbef Hs Hq Hlen. set (b := (run o New before).1).
  assert (wf o b) as Hb by (apply scans_wf; [apply New_wf | done]).
  assert (counters_ok b) as Hc.
  { apply counters_run; [done | apply New_wf | done |]. split; [done |]. intros ?. unfold misses_of, New. cbn [b_misses]. rewrite lookup_empty. cbn. lia. }
  destruct (silent_progress b scans k Hev Ht Hb Hc Hs Hq) as [Hn|Hp]; [done |].
  destruct (counters_run b scans Ht Hb Hs Hc) as [He' Hm']. destruct Hc as [He Hm].
  specialize (Hm' k). specialize (Hm k). unfold progress, emptyScanGrace in *. lia.
Qed.

(** The reference for [SendFailures]: how many of the latest scans failed to send, counting
    back to the last scan that sent on the interface or did not try it. *)
Fixpoint failed_run (iface : string) (latest_first : list (gmap string bool)) : Z :=
  match latest_first with
  | [] => 0
  | out :: rest => if bool_decide (out !! iface = Some false) then 1 + failed_run iface rest else 0
  end.

Lemma record_at outcomes b i :
  default 0 (b_sendMisses (recordSendOutcomes outcomes b) !! i) =
  if bool_decide (outcomes !! i = Some false) then default 0 (b_sendMisses b !! i) + 1 else 0.
Proof.
  unfold recordSendOutcomes. cbn [b_sendMisses set_sendMisses].
  destruct (foldl_project (fun _ => True) count_send fst i (fun m => m !! i)
    (fun c p => if p.2 then None else Some (default 0 c + 1)) (range outcomes) (b_sendMisses b)) as [Hf _];
    [done | | done |].
  { intros m [i' ok] _ _. unfold count_send. cbn [fst snd]. case_bool_decide as E; destruct ok; subst;
      by rewrite ?lookup_delete_eq, ?lookup_delete_ne, ?lookup_insert_eq, ?lookup_insert_ne by done. }
  rewrite filter_range in Hf.
  rewrite map_lookup_filter, Hf. clear Hf.
  destruct (outcomes !! i) as [[]|] eqn:E; cbn.
  - done.
  - rewrite option_guard_True by (cbn; rewrite E; by eexists). done.
  - destruct (b_sendMisses b !! i); [| done]. cbn.
    rewrite option_guard_False; [done |]. cbn. rewrite E. by intros [].
Qed.

(** An interface is reported as unable to send exactly when its latest
    [sendFailureThreshold] scans all tried it and failed: one success, or one scan that
    did not try it, clears it at once. *)
Theorem SendFailures_spec (outs : list (gmap string bool)) (i : string) :
  SendFailures (foldl (fun b out => recordSendOutcomes out b) New outs) !! i =
  if sendFailureThreshold <=? failed_run i (rev outs) then Some true else None.
Proof.
  assert (default 0 (b_sendMisses (foldl (fun b out => recordSendOutcomes out b) New outs) !! i) =
          failed_run i (rev outs)) as Hd.
  { induction outs as [|out outs IH] using rev_ind; [done |].
    rewrite foldl_app, rev_app_distr. cbn [foldl rev app failed_run]. rewrite record_at, IH. case_bool; lia. }
  unfold SendFailures. rewrite lookup_fmap, map_lookup_filter. rewrite <- Hd. clear Hd.
  destruct (b_sendMisses _ !! i) as [m|]; [| done]. unfold default, id, from_option. cbn [mbind option_bind].
  destruct (Z.leb_spec sendFailureThreshold m).
  - by rewrite option_guard_True.
  - by rewrite option_guard_False by (cbn; lia).
Qed.
End Facts.
