(* ===== verification/Mesh.v ===== *)
(** A service's live view of the cluster (services/shared/clustertrust): the pins, the
    identity and the admission it reads from the directory the cluster manager owns, the
    membership it derives from them, the certificate it trusts for a principal, the record
    that binds a proof of identity to all of these, and the authenticated read of a peer's
    inventory.

    A [ClusterDir] is what the reads of one refresh returned, each at its own time: the
    pins, [node.crt] (read once to notice a change and once more with its key) and
    [admission.json] may come from different states of the directory. *)
From S2P Require Import Prelude.
From S2P Require Import GoStd.
From S2P Require Import GoBytes.
From S2P Require Import Json.
From S2P Require Import JsonText.
From S2P Require Import ClusterTrust.

Open Scope string_scope.
Open Scope list_scope.
Open Scope Z_scope.

(** * Files *)

(** A read of a file: absent, failed, or its content. *)
Inductive File : Type := Absent | Unreadable | Content (data : string).
Inductive DirEntry : Type := Subdir | Regular (f : File).
Inductive Listing : Type := NoDir | DirUnreadable | Entries (es : gmap string DirEntry).

Record ClusterDir : Type := mkDir {
  cd_trusted : Listing;
  cd_leaf : File;
  cd_crt : File;
  cd_key : File;
  cd_admission : File
}.

(** crypto/tls and crypto/x509 beyond [Pki]: the leaf of a certificate and key pair, and
    the validity of a certificate that parses (its first and last instant). *)
Class Tls `{!Pki} : Type := {
  X509KeyPair : string -> string -> option string;
  Validity : string -> Z * Z
}.

(** * State *)

Record Identity : Type := mkId { mi_NodeUUID : string; mi_DER : string }.
Record Trust : Type := mkTrust { tr_ders : gmap string string; tr_raw : gmap string string }.
Record admissionRecord : Type := mkAdm { am_ClusterID : string; am_Epoch : Z; am_Retired : bool }.

Record Mesh : Type := mkMesh {
  me_trust : Trust;
  me_id : option Identity;
  me_idCertPEM : string;
  me_admission : admissionRecord;
  me_clustered : bool
}.

Definition no_admission : admissionRecord := mkAdm "" 0 false.
Definition new_mesh : Mesh := mkMesh (mkTrust ∅ ∅) None "" no_admission false.

Section Mesh.
Context `{!MapRange, !Sha256, !Pki, !Tls}.

(** * Reading the directory *)

Definition urn_uuid (s : string) : option string := cut_prefix nodeURISANPrefix s.
Definition UUIDFromCert (c : Certificate) : string :=
  match omap urn_uuid (ct_URIs c) with u :: _ => u | [] => ct_CommonName c end.

Definition pinDER (innerUUID certPem fileUUID : string) : option string :=
  if negb (bool_decide (innerUUID = fileUUID)) then None
  else match cert_block certPem with
       | None => None
       | Some der =>
           match ParseCertificate der with
           | None => None
           | Some cert => if bool_decide (UUIDFromCert cert = fileUUID) then Some der else None
           end
       end.

(** [json.Unmarshal] into the two fields of a pin. *)
Definition unmarshal_pin (data : string) : option (string * string) :=
  match parse data with
  | None => None
  | Some v => dec_struct (fun l (a : string * string) =>
      match field dec_string "nodeUuid" l a.1, field dec_string "certPem" l a.2 with
      | Some u, Some c => Some (u, c)
      | _, _ => None
      end) ("", "") v
  end.

(** [strings.CutSuffix]. *)
Fixpoint cut_suffix (p s : string) : option string :=
  if bool_decide (s = p) then Some ""
  else match s with
       | "" => None
       | String c s' => String c <$> cut_suffix p s'
       end.

Definition json_suffix : string := ".json".
Definition pin_name (uuid : string) : string := uuid +:+ json_suffix.

Definition add_pin (uuid der raw : string) (t : Trust) : Trust :=
  mkTrust (<[uuid := der]> (tr_ders t)) (<[uuid := raw]> (tr_raw t)).

(** The pin a listed file yields, given the pins held so far; [None] leaves it out. *)
Definition read_pin (old : Trust) (uuid : string) (f : File) : option (string * string) :=
  match f with
  | Absent | Unreadable =>
      match tr_ders old !! uuid with
      | Some prevDER => Some (prevDER, default "" (tr_raw old !! uuid))
      | None => None
      end
  | Content data =>
      match tr_raw old !! uuid, tr_ders old !! uuid with
      | Some prevRaw, Some prevDER =>
          if bool_decide (data = prevRaw) then Some (prevDER, prevRaw)
          else match unmarshal_pin data with
               | None => None
               | Some (inner, pem) => (fun der => (der, data)) <$> pinDER inner pem uuid
               end
      | _, _ =>
          match unmarshal_pin data with
          | None => None
          | Some (inner, pem) => (fun der => (der, data)) <$> pinDER inner pem uuid
          end
      end
  end.

Definition reload_entry (old : Trust) (t : Trust) (e : string * DirEntry) : Trust :=
  match e.2, cut_suffix json_suffix e.1 with
  | Regular f, Some uuid =>
      match read_pin old uuid f with
      | Some (der, raw) => add_pin uuid der raw t
      | None => t
      end
  | _, _ => t
  end.

Definition Reload (l : Listing) (old : Trust) : Trust :=
  match l with
  | DirUnreadable => old
  | NoDir => mkTrust ∅ ∅
  | Entries es => foldl (reload_entry old) (mkTrust ∅ ∅) (range es)
  end.

Definition LoadIdentity (d : ClusterDir) : option Identity :=
  match cd_crt d, cd_key d with
  | Content certPEM, Content keyPEM =>
      match X509KeyPair certPEM keyPEM with
      | None => None
      | Some leaf =>
          match ParseCertificate leaf with
          | None => None
          | Some c => Some (mkId (UUIDFromCert c) leaf)
          end
      end
  | _, _ => None
  end.

(** [None] is a read error; an absent or malformed file is an empty record. *)
Definition readAdmission (f : File) : option admissionRecord :=
  match f with
  | Unreadable => None
  | Absent => Some no_admission
  | Content data =>
      Some (default no_admission
        (match parse data with
         | None => None
         | Some v => dec_struct (fun l (a : admissionRecord) =>
             match field dec_string "clusterId" l (am_ClusterID a), field dec_uint64 "epoch" l (am_Epoch a),
                   field dec_bool "retired" l (am_Retired a) with
             | Some c, Some e, Some r => Some (mkAdm c e r)
             | _, _, _ => None
             end) no_admission v
         end))
  end.

Definition Count (t : Trust) : nat := size (tr_ders t).

Definition Refresh (d : ClusterDir) (m : Mesh) : Mesh :=
  let trust := Reload (cd_trusted d) (me_trust m) in
  let '(id, pem) :=
    match cd_leaf d with
    | Content certPEM =>
        if bool_decide (certPEM = me_idCertPEM m) then (me_id m, me_idCertPEM m)
        else match LoadIdentity d with Some id => (Some id, certPEM) | None => (me_id m, me_idCertPEM m) end
    | _ => (me_id m, me_idCertPEM m)
    end in
  let admission := default (me_admission m) (readAdmission (cd_admission d)) in
  let clustered :=
    bool_decide (is_Some id)
    && ((negb (bool_decide (am_ClusterID admission = "")) && negb (am_Epoch admission =? 0))
        || (0 <? Count trust)%nat) in
  mkMesh trust id pem admission clustered.

(** * Gates *)

Definition Clustered (m : Mesh) : bool := me_clustered m.
Definition NodeUUID (m : Mesh) : string := match me_id m with Some id => mi_NodeUUID id | None => "" end.
Definition PeerCount (m : Mesh) : nat := Count (me_trust m).

Definition trustedDER (m : Mesh) (uuid : string) : option string :=
  if negb (Clustered m) || bool_decide (uuid = "") then None
  else match me_id m with
       | None => None
       | Some id => if bool_decide (uuid = mi_NodeUUID id) then Some (mi_DER id) else tr_ders (me_trust m) !! uuid
       end.

Definition HasPin (m : Mesh) (uuid : string) : bool := bool_decide (is_Some (trustedDER m uuid)).

Definition matchDER (m : Mesh) (uuid der : string) : bool := bool_decide (trustedDER m uuid = Some der).

Definition validLeafDER (now : Z) (der : string) : bool :=
  match ParseCertificate der with
  | Some _ => ((Validity der).1 <=? now) && (now <=? (Validity der).2)
  | None => false
  end.

Definition binding_of (self peer : string) (a : admissionRecord) : string :=
  hex (sha256 self) +:+ ":" +:+ hex (sha256 peer) +:+ ":" +:+ am_ClusterID a +:+ ":" +:+ Itoa (am_Epoch a).

Definition PeerRecordID (m : Mesh) (now : Z) (uuid : string) : string :=
  if bool_decide (uuid = "") then ""
  else match me_id m with
       | None => ""
       | Some id =>
           let a := me_admission m in
           if negb (Clustered m) || bool_decide (am_ClusterID a = "") || (am_Epoch a =? 0) || am_Retired a then ""
           else if negb (validLeafDER now (mi_DER id)) then ""
           else
             let peer :=
               if bool_decide (uuid = mi_NodeUUID id) then Some (mi_DER id)
               else match tr_raw (me_trust m) !! uuid, tr_ders (me_trust m) !! uuid with
                    | Some raw, Some der =>
                        if bool_decide (raw = "") || negb (validLeafDER now der) then None else Some raw
                    | _, _ => None
                    end in
             match peer with
             | None => ""
             | Some peer => "peer:" +:+ uuid +:+ ":" +:+ hex (sha256 (binding_of (mi_DER id) peer a))
             end
       end.

(** A certificate presented in a handshake is its DER. *)
Definition VerifyPeerCertificate (m : Mesh) (now : Z) (uuid der : string) : bool :=
  match ParseCertificate der with
  | None => false
  | Some c => validLeafDER now der && bool_decide (UUIDFromCert c = uuid) && matchDER m uuid der
  end.

(** [VerifyClientPin]: the certificates of the request's TLS connection, if any. *)
Definition VerifyClientPin (m : Mesh) (certs : list string) : option string :=
  if negb (Clustered m) then None
  else match certs with
       | [] => None
       | der :: _ =>
           match ParseCertificate der with
           | None => None
           | Some c =>
               let uuid := UUIDFromCert c in
               if bool_decide (uuid = "") || negb (matchDER m uuid der) then None else Some uuid
           end
       end.

(** The check a client made by [ClientTLSConfig] runs on the server's certificates. *)
Definition ClientTLSConfig (m : Mesh) (peerUUID : string) : option (list string -> bool) :=
  match trustedDER m peerUUID, me_id m with
  | Some der, Some _ => Some (fun certs => match certs with c :: _ => bool_decide (c = der) | [] => false end)
  | _, _ => None
  end.

(** * The authenticated read (inventory.go) *)

(** The answer to the request: its status, the certificate of its TLS peer if any, and its
    body, at most one byte more than the limit; [None] when the body cannot be read. *)
Record Response : Type := mkResponse { rs_Status : Z; rs_Cert : option string; rs_Body : option string }.

(** What the read holds between sending the request and its answer. *)
Record Pending : Type := mkPending { pr_principal : string; pr_local : string; pr_binding : string }.

(** The first half: refresh, and the records the request starts from. *)
Definition begin_read (d : ClusterDir) (now : Z) (principal : string) (m : Mesh) : Mesh * option Pending :=
  let m := Refresh d m in
  let local := PeerRecordID m now (NodeUUID m) in
  let binding := PeerRecordID m now principal in
  (m, if bool_decide (local = "") || (negb (bool_decide (principal = "")) && bool_decide (binding = "")) then None
      else Some (mkPending principal local binding)).

(** The second half: the answer is accepted only when the peer's certificate still matches
    and no record changed. *)
Definition end_read {A} (decode : string -> option A) (limit : Z) (d : ClusterDir) (now : Z) (p : Pending)
    (resp : option Response) (m : Mesh) : Mesh * option (string * string * A) :=
  match resp with
  | None => (m, None)
  | Some r =>
      match rs_Cert r with
      | None => (m, None)
      | Some cert =>
          if negb (rs_Status r =? 200) then (m, None)
          else
            let principal :=
              if bool_decide (pr_principal p = "")
              then match ParseCertificate cert with Some c => UUIDFromCert c | None => "" end
              else pr_principal p in
            match rs_Body r with
            | None => (m, None)
            | Some data =>
                if limit <? Z.of_nat (String.length data) then (m, None)
                else match decode data with
                     | None => (m, None)
                     | Some value =>
                         let m := Refresh d m in
                         let current := PeerRecordID m now principal in
                         if bool_decide (current = "")
                            || negb (bool_decide (pr_local p = PeerRecordID m now (NodeUUID m)))
                            || negb (VerifyPeerCertificate m now principal cert)
                            || (negb (bool_decide (pr_binding p = "")) && negb (bool_decide (pr_binding p = current)))
                         then (m, None)
                         else (m, Some (principal, current, value))
                     end
            end
      end
  end.
End Mesh.

(** * Facts *)

Lemma cut_suffix_spec p s u : cut_suffix p s = Some u <-> s = u +:+ p.
Proof.
  revert u. induction s as [|c s IH]; intros u; cbn [cut_suffix].
  - case_bool_decide as E; [subst p |].
    + destruct u; [done |]. split; done.
    + split; [done |]. destruct u; [done | done].
  - case_bool_decide as E.
    + subst p. split; [intros [= <-]; done |]. destruct u as [|d u]; [done |]. intros H.
      apply (f_equal String.length) in H. rewrite string_app_cons in H. cbn in H. rewrite string_length_app in H.
      cbn in H. lia.
    + destruct u as [|d u].
      * split; [| intros H; by destruct E]. destruct (cut_suffix p s); done.
      * rewrite string_app_cons. split.
        -- destruct (cut_suffix p s) as [u'|] eqn:Eu; [| done]. cbn. intros [= -> ->]. f_equal. by apply IH.
        -- intros [= -> H]. apply IH in H. by rewrite H.
Qed.

Section Facts.
Context `{!MapRange, !Sha256, !Pki, !Tls}.

(** What a listed pin file says, read afresh. *)
Definition parse_pin (uuid data : string) : option string :=
  match unmarshal_pin data with Some (inner, pem) => pinDER inner pem uuid | None => None end.

Definition held (t : Trust) (uuid : string) : option (string * string) :=
  (fun der => (der, default "" (tr_raw t !! uuid))) <$> tr_ders t !! uuid.

(** The reference for [Reload]: each listed file read afresh; what cannot be read is kept. *)
Definition pins_of (l : Listing) (old : Trust) (uuid : string) : option (string * string) :=
  match l with
  | DirUnreadable => held old uuid
  | NoDir => None
  | Entries es =>
      match es !! pin_name uuid with
      | Some (Regular (Content data)) => (fun der => (der, data)) <$> parse_pin uuid data
      | Some (Regular _) => held old uuid
      | _ => None
      end
  end.

(** Every pin held is what its recorded file content says. *)
Definition trust_ok (t : Trust) : Prop :=
  (forall uuid, is_Some (tr_raw t !! uuid) <-> is_Some (tr_ders t !! uuid)) /\
  forall uuid der raw, tr_ders t !! uuid = Some der -> tr_raw t !! uuid = Some raw -> parse_pin uuid raw = Some der.

Lemma held_ok t uuid der raw : trust_ok t -> held t uuid = Some (der, raw) -> parse_pin uuid raw = Some der.
Proof.
  intros [Hdom Hok] Hh. unfold held in Hh. destruct (tr_ders t !! uuid) as [d|] eqn:Ed; [| done]. cbn in Hh.
  injection Hh as <- <-. destruct (proj2 (Hdom uuid)) as [raw' Hr]; [by eexists |]. rewrite Hr. by apply Hok.
Qed.

(** With such a state the shortcut for an unchanged file is transparent. *)
Lemma read_pin_spec old uuid f : trust_ok old ->
  read_pin old uuid f =
  match f with Content data => (fun der => (der, data)) <$> parse_pin uuid data | _ => held old uuid end.
Proof.
  intros [Hdom Hok]. unfold read_pin, held, parse_pin. destruct f as [| |data].
  - by destruct (tr_ders old !! uuid).
  - by destruct (tr_ders old !! uuid).
  - destruct (tr_raw old !! uuid) as [raw|] eqn:Er, (tr_ders old !! uuid) as [der|] eqn:Ed;
      [case_bool_decide as E | ..]; try by destruct (unmarshal_pin data) as [[inner pem]|].
    subst raw. specialize (Hok uuid der data Ed Er). unfold parse_pin in Hok. by rewrite Hok.
Qed.

Definition pin_at (uuid : string) (t : Trust) : option string * option string :=
  (tr_ders t !! uuid, tr_raw t !! uuid).

Lemma reload_entry_local old uuid t e :
  pin_at uuid (reload_entry old t e) =
  if bool_decide (e.1 = pin_name uuid) then
    match e.2 with
    | Regular f => match read_pin old uuid f with
                   | Some (der, raw) => (Some der, Some raw)
                   | None => pin_at uuid t
                   end
    | Subdir => pin_at uuid t
    end
  else pin_at uuid t.
Proof.
  destruct e as [name [|f]]; cbn [fst snd]; unfold reload_entry; cbn [fst snd].
  - by case_bool_decide.
  - destruct (cut_suffix json_suffix name) as [u|] eqn:Ec.
    + apply cut_suffix_spec in Ec as ->. fold (pin_name u). destruct (decide (u = uuid)) as [->|Hne].
      * rewrite bool_decide_true by done. destruct (read_pin old uuid f) as [[der raw]|]; [| done].
        unfold pin_at, add_pin. cbn. by rewrite !lookup_insert_eq.
      * rewrite bool_decide_false; [destruct (read_pin old u f) as [[der raw]|]; [| done];
          unfold pin_at, add_pin; cbn; by rewrite !lookup_insert_ne |].
        intros Hu. apply Hne. assert (Some u = Some uuid) as [= ->]; [| done].
        rewrite <- (proj2 (cut_suffix_spec json_suffix (pin_name u) u)) by done.
        rewrite <- (proj2 (cut_suffix_spec json_suffix (pin_name uuid) uuid)) by done. by rewrite Hu.
    + rewrite bool_decide_false; [done |]. intros ->.
      by rewrite (proj2 (cut_suffix_spec json_suffix (pin_name uuid) uuid)) in Ec.
Qed.

(** [Reload] against its reference, one peer at a time. *)
Lemma Reload_held (l : Listing) (old : Trust) :
  trust_ok old -> trust_ok (Reload l old) /\ forall uuid, held (Reload l old) uuid = pins_of l old uuid.
Proof.
  intros Hold.
  assert (forall uuid, pin_at uuid (Reload l old) =
    match pins_of l old uuid with Some (der, raw) => (Some der, Some raw) | None => (None, None) end) as Hat.
  { intros uuid. destruct l as [| |es]; cbn [Reload pins_of].
    - done.
    - unfold pin_at, held. destruct (tr_ders old !! uuid) as [der|] eqn:Ed; cbn.
      + destruct (proj2 (proj1 Hold uuid)) as [raw Hr]; [by eexists |]. by rewrite Hr.
      + destruct (tr_raw old !! uuid) eqn:Er; [| done]. destruct (proj1 (proj1 Hold uuid)) as [? ?]; [by eexists | congruence].
    - edestruct (foldl_project (fun _ => True) (reload_entry old) fst (pin_name uuid) (pin_at uuid)
        (fun t e => match e.2 with
                    | Regular f => match read_pin old uuid f with
                                   | Some (der, raw) => (Some der, Some raw) | None => t end
                    | Subdir => t end) (range es) (mkTrust ∅ ∅)) as [-> _];
        [done | intros; apply reload_entry_local | done |].
      rewrite filter_range. destruct (es !! pin_name uuid) as [[|f]|]; [done | | done]. cbn [foldl snd].
      rewrite read_pin_spec by done. by destruct f. }
  assert (forall uuid, held (Reload l old) uuid = pins_of l old uuid) as Hheld.
  { intros uuid. specialize (Hat uuid). unfold pin_at in Hat. unfold held.
    destruct (pins_of l old uuid) as [[der raw]|]; injection Hat as Hd Hr; by rewrite Hd, ?Hr. }
  split; [| done]. split.
  - intros uuid. specialize (Hat uuid). unfold pin_at in Hat.
    destruct (pins_of l old uuid) as [[der raw]|]; injection Hat as -> ->; split; by intros [].
  - intros uuid der raw Hd Hr. specialize (Hat uuid). unfold pin_at in Hat. rewrite Hd, Hr in Hat.
    assert (pins_of l old uuid = Some (der, raw)) as Hp by (destruct (pins_of l old uuid) as [[]|]; congruence).
    destruct l as [| |es]; cbn [pins_of] in Hp; [done | by apply held_ok in Hp |].
    destruct (es !! pin_name uuid) as [[|[| |data]]|]; try done; try (by apply held_ok in Hp).
    destruct (parse_pin uuid data) eqn:E; cbn in Hp; congruence.
Qed.

(** Re-reading the pins is what it says it is, whatever was read before and in
    whatever order the directory is listed: a peer is pinned afterwards exactly when its
    file is listed and its content names that peer three times over (in its name, its
    field and its certificate), an unchanged file being recognised without parsing makes
    no difference, a file or a directory that cannot be read keeps what was held, and a
    file that is gone or no longer valid is a pin lost. *)
Theorem Reload_reads_directory (l : Listing) (old : Trust) :
  trust_ok old -> trust_ok (Reload l old) /\ forall uuid, held (Reload l old) uuid = pins_of l old uuid.
Proof. apply Reload_held. Qed.


(** * What a record binds *)

(** The certificate material, cluster and epoch a record of [uuid] stands for. *)
Definition bound (m : Mesh) (uuid : string) : option (string * string * string * Z) :=
  match me_id m with
  | None => None
  | Some id =>
      let peer := if bool_decide (uuid = mi_NodeUUID id) then Some (mi_DER id) else tr_raw (me_trust m) !! uuid in
      (fun peer => (mi_DER id, peer, am_ClusterID (me_admission m), am_Epoch (me_admission m))) <$> peer
  end.

(** Two texts with one digest. *)
Definition collision : Prop := exists x y : string, x <> y /\ sha256 x = sha256 y.

Lemma sha256_eq x y : sha256 x = sha256 y -> x = y \/ collision.
Proof. intros Hs. destruct (decide (x = y)); [by left | right; by exists x, y]. Qed.

Lemma digest_text_length x : slen (hex (sha256 x)) = 64%nat.
Proof. by rewrite length_hex, sha256_length. Qed.

Lemma string_app_inj_suffix (a b c d : string) :
  slen b = slen d -> a +:+ b = c +:+ d -> a = c /\ b = d.
Proof.
  intros Hl Heq. apply string_app_inj_len; [| done].
  apply (f_equal slen) in Heq. rewrite !string_length_app in Heq. lia.
Qed.

Ltac drop_nil H :=
  repeat match type of H with context [String.append "" ?x] => change (String.append "" x) with x in H end.

Lemma binding_inj self peer a self' peer' a' :
  0 <= am_Epoch a -> 0 <= am_Epoch a' -> binding_of self peer a = binding_of self' peer' a' ->
  (self = self' /\ peer = peer' /\ am_ClusterID a = am_ClusterID a' /\ am_Epoch a = am_Epoch a') \/ collision.
Proof.
  intros He He' Hb. unfold binding_of in Hb.
  apply string_app_inj_len in Hb as [Hs Hb]; [| by rewrite !digest_text_length].
  injection Hb as Hb. drop_nil Hb.
  apply string_app_inj_len in Hb as [Hp Hb]; [| by rewrite !digest_text_length].
  injection Hb as Hb. drop_nil Hb.
  apply hex_inj, sha256_eq in Hs as [-> |]; [| by right]. apply hex_inj, sha256_eq in Hp as [-> |]; [| by right].
  left. assert (forall c e, 0 <= e -> cut_last ":" (c +:+ ":" +:+ Itoa e) = Some (c, Itoa e)) as Hcut.
  { intros c e Hz. apply (cut_last_app ":"). by apply Itoa_no_char. }
  apply (f_equal (cut_last ":")) in Hb. rewrite !Hcut in Hb by done. injection Hb as Hc Hi.
  apply Itoa_inj in Hi. done.
Qed.

Lemma PeerRecordID_some m now uuid : PeerRecordID m now uuid <> "" ->
  exists self peer c e, bound m uuid = Some (self, peer, c, e) /\ c <> "" /\ e <> 0 /\
    me_clustered m = true /\ am_Retired (me_admission m) = false /\
    c = am_ClusterID (me_admission m) /\ e = am_Epoch (me_admission m) /\
    PeerRecordID m now uuid = "peer:" +:+ uuid +:+ ":" +:+ hex (sha256 (binding_of self peer (me_admission m))).
Proof.
  unfold PeerRecordID, bound, Clustered. case_bool_decide as Eu; [done |].
  destruct (me_id m) as [id|] eqn:Eid; [| done].
  destruct (negb (me_clustered m) || _ || _ || _) eqn:Eg; [done |].
  destruct (negb (validLeafDER now (mi_DER id))); [done |]. unbool.
  destruct (bool_decide (uuid = mi_NodeUUID id)).
  - intros _. eexists _, _, _, _. by split_and!.
  - destruct (tr_raw (me_trust m) !! uuid), (tr_ders (me_trust m) !! uuid); try done.
    destruct (bool_decide _ || _); [done |]. intros _. eexists _, _, _, _. by split_and!.
Qed.

(** * Reachable states *)

Record mesh_ok (m : Mesh) : Prop := {
  ok_trust : trust_ok (me_trust m);
  ok_epoch : 0 <= am_Epoch (me_admission m)
}.

Lemma new_mesh_ok : mesh_ok new_mesh.
Proof. split; [split |]; [done | done | cbn; lia]. Qed.

Lemma field_uint64 name l start r : 0 <= start -> field dec_uint64 name l start = Some r -> 0 <= r.
Proof.
  unfold field. intros Hs. revert r. induction l as [|[k v] l IH] using rev_ind; intros r; [by intros [= <-] |].
  rewrite foldl_app. cbn [foldl fst snd]. destruct (foldl _ _ l) as [a|]; [| done].
  specialize (IH a eq_refl). case_bool; [| by intros [= <-]].
  destruct v; cbn; try done; [by intros [= <-] |]. case_bool_decide; [intros [= <-]; lia | done].
Qed.

Lemma readAdmission_epoch f a : readAdmission f = Some a -> 0 <= am_Epoch a.
Proof.
  unfold readAdmission. destruct f as [| |data]; [intros [= <-]; cbn; lia | done |].
  intros [= <-]. destruct (parse data) as [v|]; [| cbn; lia]. destruct v; cbn [dec_struct]; try (cbn; lia).
  destruct (field dec_string "clusterId" _ _); [| cbn; lia].
  destruct (field dec_uint64 "epoch" _ _) eqn:E; [| cbn; lia].
  destruct (field dec_bool "retired" _ _); cbn; [| lia]. apply field_uint64 in E; [done | cbn; lia].
Qed.

Lemma Refresh_trust d m : me_trust (Refresh d m) = Reload (cd_trusted d) (me_trust m).
Proof.
  unfold Refresh. destruct (match cd_leaf d with Content _ => _ | _ => _ end) as [idn pem]. done.
Qed.
Lemma Refresh_admission d m : me_admission (Refresh d m) = default (me_admission m) (readAdmission (cd_admission d)).
Proof.
  unfold Refresh. destruct (match cd_leaf d with Content _ => _ | _ => _ end) as [idn pem]. done.
Qed.

Lemma Refresh_ok d m : mesh_ok m -> mesh_ok (Refresh d m).
Proof.
  intros [Ht He]. split.
  - rewrite Refresh_trust. by apply Reload_held.
  - rewrite Refresh_admission. destruct (readAdmission (cd_admission d)) as [a|] eqn:E; [| done].
    by apply readAdmission_epoch in E.
Qed.

(** A record spells its principal. *)
Lemma PeerRecordID_principal m m' now now' uuid uuid' :
  PeerRecordID m now uuid <> "" -> PeerRecordID m now uuid = PeerRecordID m' now' uuid' -> uuid = uuid'.
Proof.
  intros Hne Heq.
  destruct (PeerRecordID_some m now uuid Hne) as (self & peer & c & e & _ & _ & _ & _ & _ & _ & _ & Hr).
  destruct (PeerRecordID_some m' now' uuid') as (self' & peer' & c' & e' & _ & _ & _ & _ & _ & _ & _ & Hr');
    [congruence |].
  rewrite Hr, Hr' in Heq. apply string_app_inj_len in Heq as [_ Heq]; [| done].
  rewrite <- !string_app_assoc in Heq.
  apply string_app_inj_suffix in Heq as [Hu _]; [| by rewrite !digest_text_length].
  by apply string_app_inj_suffix in Hu as [-> _].
Qed.

Lemma PeerRecordID_inj (m m' : Mesh) (now now' : Z) (uuid uuid' : string) :
  mesh_ok m -> mesh_ok m' ->
  PeerRecordID m now uuid <> "" -> PeerRecordID m now uuid = PeerRecordID m' now' uuid' ->
  (uuid = uuid' /\ bound m uuid = bound m' uuid') \/ collision.
Proof.
  intros [_ He] [_ He'] Hne Heq.
  destruct (PeerRecordID_some m now uuid Hne) as (self & peer & c & e & Hb & _ & _ & _ & _ & Hc & Hep & Hr).
  destruct (PeerRecordID_some m' now' uuid') as (self' & peer' & c' & e' & Hb' & _ & _ & _ & _ & Hc' & Hep' & Hr');
    [congruence |].
  rewrite Hr, Hr' in Heq. apply string_app_inj_len in Heq as [_ Heq]; [| done].
  rewrite <- !string_app_assoc in Heq.
  apply string_app_inj_suffix in Heq as [Hu Hd]; [| by rewrite !digest_text_length].
  apply string_app_inj_suffix in Hu as [-> _]; [| done].
  apply hex_inj, sha256_eq in Hd as [Hd |]; [| by right].
  apply binding_inj in Hd as [(-> & -> & ? & ?) |]; [| by right | done | done].
  left. split; [done |]. rewrite Hb, Hb'. congruence.
Qed.

(** The record an inventory is published under pins down everything the proof of
    identity rested on: two equal records, computed at any two times in any two states,
    name the same principal and come from the same own certificate, the same pin file of
    the peer, the same cluster and the same admission, unless two different texts with one
    SHA-256 digest have been found. *)
Theorem PeerRecordID_binds (m m' : Mesh) (now now' : Z) (uuid uuid' : string) :
  mesh_ok m -> mesh_ok m' ->
  PeerRecordID m now uuid <> "" -> PeerRecordID m now uuid = PeerRecordID m' now' uuid' ->
  (uuid = uuid' /\ bound m uuid = bound m' uuid') \/ collision.
Proof. apply PeerRecordID_inj. Qed.

(** The gates, on a refreshed state. *)
Lemma trusted_needs_membership m uuid : HasPin m uuid = true -> Clustered m = true.
Proof.
  unfold HasPin, trustedDER. rewrite bool_decide_eq_true. destruct (Clustered m); [done |]. by intros [].
Qed.

(** C30. A membership that is over on disk is over for the service at its next look: when
    the admission file can be read and names no cluster (or no epoch, or is gone) and no
    file of the listed pins is valid, the refreshed service is no cluster member, trusts no
    certificate of anybody, not even its own, and binds no inventory to any peer, whatever
    it held before and although the key pair is still there. *)
Theorem teardown_observed (d : ClusterDir) (m : Mesh) (a : admissionRecord) (now : Z) (uuid : string) :
  mesh_ok m -> (forall u, pins_of (cd_trusted d) (me_trust m) u = None) ->
  readAdmission (cd_admission d) = Some a -> am_ClusterID a = "" \/ am_Epoch a = 0 ->
  Clustered (Refresh d m) = false /\ trustedDER (Refresh d m) uuid = None
  /\ PeerRecordID (Refresh d m) now uuid = "" /\ ClientTLSConfig (Refresh d m) uuid = None.
Proof.
  intros Hm Hpins Ha Hover.
  assert (tr_ders (Reload (cd_trusted d) (me_trust m)) = ∅) as Hnone.
  { apply map_empty. intros u. pose proof (proj2 (Reload_held (cd_trusted d) (me_trust m) (ok_trust m Hm)) u) as Hu.
    rewrite Hpins in Hu. unfold held in Hu. by destruct (tr_ders _ !! u). }
  assert (Clustered (Refresh d m) = false) as Hc.
  { unfold Refresh. destruct (match cd_leaf d with Content _ => _ | _ => _ end) as [idn pem].
    unfold Clustered, Count. cbn [me_clustered]. rewrite Hnone, map_size_empty, Ha. cbn [default from_option id].
    rewrite andb_false_iff. right. rewrite orb_false_r, andb_false_iff, !negb_false_iff, bool_decide_eq_true, Z.eqb_eq.
    done. }
  assert (trustedDER (Refresh d m) uuid = None) as Ht by (unfold trustedDER; by rewrite Hc).
  split_and!; [done | done | | by (unfold ClientTLSConfig; rewrite Ht)].
  unfold PeerRecordID. case_bool_decide; [done |]. rewrite Hc. by destruct (me_id (Refresh d m)).
Qed.

Lemma end_read_spec {A} (decode : string -> option A) limit d now p resp m m' principal rec v :
  end_read decode limit d now p resp m = (m', Some (principal, rec, v)) ->
  m' = Refresh d m /\ rec = PeerRecordID m' now principal /\ rec <> "" /\
  pr_local p = PeerRecordID m' now (NodeUUID m') /\
  (exists r cert data, resp = Some r /\ rs_Status r = 200 /\ rs_Cert r = Some cert /\ rs_Body r = Some data /\
     Z.of_nat (String.length data) <= limit /\ decode data = Some v /\
     trustedDER m' principal = Some cert /\ validLeafDER now cert = true) /\
  (pr_principal p <> "" -> principal = pr_principal p) /\ (pr_binding p <> "" -> rec = pr_binding p).
Proof.
  unfold end_read. destruct resp as [r|]; [| done]. destruct (rs_Cert r) as [cert|] eqn:Ec; [| done].
  destruct (Z.eqb_spec (rs_Status r) 200) as [Es|]; [| done]. cbn [negb].
  set (pr := if bool_decide (pr_principal p = "") then _ else _).
  destruct (rs_Body r) as [data|] eqn:Eb; [| done]. destruct (limit <? _) eqn:El; [done |].
  destruct (decode data) as [v'|] eqn:Ed; [| done].
  destruct (bool_decide _ || _ || _ || _) eqn:Eg; [done |]. intros [= <- <- <- <-]. unbool.
  unfold VerifyPeerCertificate, matchDER in *. destruct (ParseCertificate cert); [| done]. unbool.
  split_and!; try done.
  - by exists r, cert, data.
  - intros Hp. subst pr. by rewrite bool_decide_false.
  - intros Hb. rewrite (bool_decide_false _ Hb) in *. cbn in *. by unbool.
Qed.

(** The certificate an accepted answer was presented with names the principal. *)
Lemma end_read_named {A} (decode : string -> option A) limit d now p r m m' principal rec v :
  end_read decode limit d now p (Some r) m = (m', Some (principal, rec, v)) ->
  exists cert c, rs_Cert r = Some cert /\ ParseCertificate cert = Some c /\ UUIDFromCert c = principal.
Proof.
  unfold end_read. destruct (rs_Cert r) as [cert|]; [| done]. destruct (negb _); [done |].
  set (pr := if bool_decide (pr_principal p = "") then _ else _).
  destruct (rs_Body r); [| done]. destruct (limit <? _); [done |]. destruct (decode _); [| done].
  destruct (bool_decide _ || _ || _ || _) eqn:Eg; [done |]. intros [= <- <- <- <-]. unbool.
  unfold VerifyPeerCertificate in *. destruct (ParseCertificate cert) as [c|] eqn:Ec; [| done]. unbool.
  by exists cert, c.
Qed.

(** C29. An accepted inventory read is a proof of identity that holds when it is accepted:
    the answer came over a connection whose peer presented the very certificate this node
    pins for the principal it asked for, valid at that time; the record returned is the
    one of the current state; and nothing the proof rests on (the own certificate, the
    peer's pin file, the cluster and the admission) differs between the request and the
    answer, unless two texts with one SHA-256 digest have been found. *)
Theorem inventory_proof {A} (decode : string -> option A) (limit : Z) (d d' : ClusterDir) (now now' : Z)
    (uuid principal record : string) (m m1 m2 m3 : Mesh) (p : Pending) (resp : option Response) (v : A) :
  mesh_ok m -> mesh_ok m2 -> uuid <> "" ->
  begin_read d now uuid m = (m1, Some p) ->
  end_read decode limit d' now' p resp m2 = (m3, Some (principal, record, v)) ->
  principal = uuid /\ record = PeerRecordID m3 now' uuid /\ record <> "" /\
  (exists r cert, resp = Some r /\ rs_Cert r = Some cert /\
     trustedDER m3 uuid = Some cert /\ validLeafDER now' cert = true) /\
  (bound m1 uuid = bound m3 uuid \/ collision).
Proof.
  intros Hm Hm2 Hu Hb He. unfold begin_read in Hb. injection Hb as Hm1 Hp.
  case_bool; [done |]. injection Hp as Hp. unbool.
  apply end_read_spec in He as (Hm3 & Hrec & Hne & _ & (r & cert & data & ? & ? & ? & ? & ? & ? & ? & ?) & Hpr & Hbind).
  subst p. cbn in Hpr, Hbind. specialize (Hpr Hu). subst principal.
  assert (PeerRecordID (Refresh d m) now uuid <> "") as Hbne.
  { rewrite (bool_decide_false _ Hu) in *. cbn in *. by unbool. }
  specialize (Hbind Hbne). split_and!; try done.
  - by exists r, cert.
  - subst m1 m3. destruct (PeerRecordID_inj (Refresh d m) (Refresh d' m2) now now' uuid uuid) as [[_ Hbd] | Hc];
      [apply Refresh_ok, Hm | apply Refresh_ok, Hm2 | done | congruence | by left | by right].
Qed.
End Facts.
