(* ===== verification/RetryGate.v ===== *)
(** What the node scanner remembers of asking its peers (services/nvpair-node-scanner): the
    gate that allows one telemetry request per node at a time and backs off from an
    endpoint that failed (daemon.go), and the memory of the address that answered
    (enrich_hosts.go).  Requests run concurrently, so the gate is driven by the critical
    sections of its callers in any order ([step]). *)
From S2P Require Import Prelude.
From S2P Require Import GoStd.

Open Scope string_scope.
Open Scope list_scope.
Open Scope Z_scope.

(** * The telemetry retry gate *)

Definition telemetryRefreshInterval : Z := 2 * second.
Definition telemetryRefreshJitter : Z := 250 * millisecond.
Definition telemetryRetryMax : Z := 30 * second.

Record telemetryRetryState : Type := mkRetryState {
  rs_consecutiveFailures : Z;
  rs_retryAt : Z;
  rs_retryTargetKey : string;
  rs_token : Z;
  rs_inFlight : bool;
  rs_activeTargetKey : string;
  rs_discardActive : bool
}.

(** The zero [time.Time] is before every reading of the clock. *)
Definition zero_time : Z := - 2 ^ 80.
Definition zero_state : telemetryRetryState := mkRetryState 0 zero_time "" 0 false "" false.

Record telemetryRetryGate : Type := mkGate { g_nextToken : Z; g_peers : gmap string telemetryRetryState }.
Definition new_gate : telemetryRetryGate := mkGate 0 ∅.

(** The loop of [telemetryRetryDelay]: [n] failures left to count. *)
Fixpoint double_delay (n : nat) (delay : Z) : Z :=
  match n with
  | O => delay
  | S n => if telemetryRetryMax / 2 <=? delay then telemetryRetryMax else double_delay n (delay * 2)
  end.
Definition telemetryRetryDelay (consecutiveFailures : Z) : Z :=
  double_delay (Z.to_nat consecutiveFailures) telemetryRefreshInterval.

Definition nul : string := String "000" "".
Definition telemetryTargetKey (hosts : list string) (port : Z) : string :=
  Itoa port +:+ nul +:+ join "000" hosts.

Definition claim (hostUUID targetKey : string) (now : Z) (g : telemetryRetryGate)
    : telemetryRetryGate * option Z :=
  let st := default zero_state (g_peers g !! hostUUID) in
  let exists_ := bool_decide (is_Some (g_peers g !! hostUUID)) in
  if exists_ && rs_inFlight st then (g, None)
  else if exists_ && bool_decide (rs_retryTargetKey st = targetKey) && (now <? rs_retryAt st) then (g, None)
  else
    let '(failures, retryAt, retryKey) :=
      if negb (bool_decide (rs_retryTargetKey st = targetKey)) then (0, zero_time, "")
      else (rs_consecutiveFailures st, rs_retryAt st, rs_retryTargetKey st) in
    let token := wrapU64 (g_nextToken g + 1) in
    (mkGate token (<[hostUUID := mkRetryState failures retryAt retryKey token true targetKey false]> (g_peers g)),
     Some token).

Definition finish (hostUUID : string) (token : Z) (ok : bool) (now : Z) (g : telemetryRetryGate)
    : telemetryRetryGate :=
  match g_peers g !! hostUUID with
  | None => g
  | Some st =>
      if negb (rs_inFlight st) || negb (rs_token st =? token) then g
      else if rs_discardActive st then mkGate (g_nextToken g) (delete hostUUID (g_peers g))
      else if ok then mkGate (g_nextToken g) (delete hostUUID (g_peers g))
      else
        let failures :=
          (if negb (bool_decide (rs_retryTargetKey st = rs_activeTargetKey st)) then 0
           else rs_consecutiveFailures st) + 1 in
        mkGate (g_nextToken g)
          (<[hostUUID := mkRetryState failures (now + telemetryRetryDelay failures) (rs_activeTargetKey st)
                           (rs_token st) false "" (rs_discardActive st)]> (g_peers g))
  end.

Definition forget (hostUUID : string) (g : telemetryRetryGate) : telemetryRetryGate :=
  match g_peers g !! hostUUID with
  | None => g
  | Some st =>
      if negb (rs_inFlight st) then mkGate (g_nextToken g) (delete hostUUID (g_peers g))
      else mkGate (g_nextToken g)
             (<[hostUUID := mkRetryState 0 zero_time "" (rs_token st) true (rs_activeTargetKey st) true]> (g_peers g))
  end.

(** [telemetryIntervalForNode]: the FNV-1a hash of the node's name spreads the cadence. *)
Fixpoint fnv1a (hash : Z) (s : string) : Z :=
  match s with
  | "" => hash
  | String c s => fnv1a (Z.lxor hash (byte c) * 16777619 mod 2 ^ 32) s
  end.
Definition telemetryIntervalForNode (hostUUID : string) : Z :=
  if bool_decide (hostUUID = "") then telemetryRefreshInterval
  else
    let windowMillis := Z.quot (2 * telemetryRefreshJitter) millisecond + 1 in
    let offsetMillis := fnv1a 2166136261 hostUUID mod (windowMillis mod 2 ^ 32) - Z.quot windowMillis 2 in
    telemetryRefreshInterval + offsetMillis * millisecond.

(** * The gate and its requests *)

(** A request in flight: the node, the token it was given and the endpoint it asks. *)
Record request : Type := mkRequest { rq_host : string; rq_token : Z; rq_target : string }.
#[export] Instance request_eq_dec : EqDecision request.
Proof. solve_decision. Defined.

(** What happens at the gate: a request granted, one refused, one answered (well or not)
    at a time, a node that left the registry. *)
Inductive gate_event : Type :=
| GAsked (r : request)
| GRefused (host : string)
| GAnswered (r : request) (ok : bool) (now : Z)
| GRemoved (host : string).

Record sys : Type := mkSys { sy_gate : telemetryRetryGate; sy_requests : list request }.

Inductive step : gate_event -> sys -> sys -> Prop :=
| step_claim g l host target now token :
    (claim host target now g).2 = Some token ->
    step (GAsked (mkRequest host token target))
      (mkSys g l) (mkSys (claim host target now g).1 (mkRequest host token target :: l))
| step_refused g l host target now :
    (claim host target now g).2 = None ->
    step (GRefused host) (mkSys g l) (mkSys (claim host target now g).1 l)
| step_finish g l l' r ok now :
    l ≡ₚ r :: l' ->
    step (GAnswered r ok now) (mkSys g l) (mkSys (finish (rq_host r) (rq_token r) ok now g) l')
| step_forget g l host :
    step (GRemoved host) (mkSys g l) (mkSys (forget host g) l).

(** The runs from an empty gate, with what happened, newest first. *)
Inductive ran : list gate_event -> sys -> Prop :=
| ran_nil : ran [] (mkSys new_gate [])
| ran_step tr s e s' : ran tr s -> step e s s' -> ran (e :: tr) s'.

(** Whether the node left the registry since it was last asked. *)
Fixpoint removed_since (host : string) (tr : list gate_event) : bool :=
  match tr with
  | [] => false
  | GAsked r :: tr => if bool_decide (rq_host r = host) then false else removed_since host tr
  | GRemoved h :: tr => if bool_decide (h = host) then true else removed_since host tr
  | _ :: tr => removed_since host tr
  end.

(** The latest run of failures of a node's endpoint: the failed answers at it, back to
    the node's last good answer, last removal or last failed answer at another endpoint.
    The answer of a request whose node was removed meanwhile does not count. *)
Fixpoint failures_of (host target : string) (tr : list gate_event) : Z :=
  match tr with
  | [] => 0
  | GAnswered r ok _ :: tr =>
      if negb (bool_decide (rq_host r = host)) then failures_of host target tr
      else if ok || removed_since host tr || negb (bool_decide (rq_target r = target)) then 0
      else failures_of host target tr + 1
  | GRemoved h :: tr => if bool_decide (h = host) then 0 else failures_of host target tr
  | _ :: tr => failures_of host target tr
  end.

(** * The memory of answering addresses *)

(** A node and one of its services. *)
Abbreviation hostKey := (string * string)%type.
Abbreviation hostMemory := (gmap (string * string) string).

Definition mem_get (key : hostKey) (m : hostMemory) : string := default "" (m !! key).

Definition withoutHost (hosts : list string) (drop : string) : list string :=
  List.filter (fun h => negb (bool_decide (h = drop))) hosts.

Section Ask.
Context {T : Type} (ask : string -> option T).

(** All hosts are asked at once; the answers are read in the order of the list. *)
Fixpoint askTogether (hosts : list string) : option (string * T) :=
  match hosts with
  | [] => None
  | host :: hosts =>
      if bool_decide (host = "") then askTogether hosts
      else match ask host with
           | Some value => Some (host, value)
           | None => askTogether hosts
           end
  end.

Definition askRemembered (key : hostKey) (hosts : list string) (mem : hostMemory)
    : hostMemory * option (string * T) :=
  let rest hosts mem :=
    match askTogether hosts with
    | Some (host, value) => (<[key := host]> mem, Some (host, value))
    | None => (mem, None)
    end in
  let remembered := mem_get key mem in
  if bool_decide (remembered = "") then rest hosts mem
  else match ask remembered with
       | Some value => (mem, Some (remembered, value))
       | None => rest (withoutHost hosts remembered) (delete key mem)
       end.
End Ask.

(** * Facts: the delay *)

Lemma double_delay_closed n delay : 0 < delay -> delay <= telemetryRetryMax ->
  double_delay n delay = Z.min telemetryRetryMax (delay * 2 ^ Z.of_nat n).
Proof.
  revert delay. induction n as [|n IH]; intros delay Hp Hle; cbn [double_delay].
  - change (2 ^ Z.of_nat 0) with 1. lia.
  - replace (2 ^ Z.of_nat (S n)) with (2 * 2 ^ Z.of_nat n) by (rewrite Nat2Z.inj_succ, Z.pow_succ_r; lia).
    pose proof (Z.pow_pos_nonneg 2 (Z.of_nat n) ltac:(lia) ltac:(lia)).
    change (telemetryRetryMax / 2) with 15000000000. change telemetryRetryMax with 30000000000 in *.
    destruct (Z.leb_spec 15000000000 delay) as [H1|H1]; [nia |].
    rewrite IH by lia. f_equal. lia.
Qed.

(** The delay doubles with every failure and never exceeds its cap. *)
Lemma telemetryRetryDelay_closed n : 0 <= n ->
  telemetryRetryDelay n = Z.min telemetryRetryMax (telemetryRefreshInterval * 2 ^ n).
Proof.
  intros Hn. unfold telemetryRetryDelay. rewrite double_delay_closed by done. by rewrite Z2Nat.id.
Qed.

Lemma telemetryRetryDelay_bounds n : 0 <= n ->
  telemetryRefreshInterval <= telemetryRetryDelay n <= telemetryRetryMax.
Proof.
  intros Hn. rewrite telemetryRetryDelay_closed by done.
  pose proof (Z.pow_pos_nonneg 2 n ltac:(lia) Hn). unfold telemetryRefreshInterval, telemetryRetryMax, second. lia.
Qed.

(** The cadence stays within the jitter of its centre. *)
Lemma telemetryInterval_bounds host :
  telemetryRefreshInterval - telemetryRefreshJitter <= telemetryIntervalForNode host
  <= telemetryRefreshInterval + telemetryRefreshJitter.
Proof.
  unfold telemetryIntervalForNode. case_bool; [unfold telemetryRefreshInterval, telemetryRefreshJitter, second, millisecond; lia |].
  change (Z.quot (2 * telemetryRefreshJitter) millisecond + 1) with 501.
  change (501 mod 2 ^ 32) with 501. change (Z.quot 501 2) with 250.
  pose proof (Z.mod_pos_bound (fnv1a 2166136261 host) 501 ltac:(lia)).
  unfold telemetryRefreshInterval, telemetryRefreshJitter, second, millisecond in *. lia.
Qed.

(** * One request per node *)

(** The gate's claims and the requests in flight are one to one. *)
Record gate_ok (s : sys) : Prop := {
  go_nodup : NoDup (rq_host <$> sy_requests s);
  go_owned : forall r, r ∈ sy_requests s -> exists st, g_peers (sy_gate s) !! rq_host r = Some st /\
               rs_inFlight st = true /\ rs_token st = rq_token r /\ rs_activeTargetKey st = rq_target r;
  go_claims : forall host st, g_peers (sy_gate s) !! host = Some st ->
                0 <= rs_consecutiveFailures st /\
                (rs_inFlight st = true -> host ∈ rq_host <$> sy_requests s) /\
                (rs_inFlight st = false -> rs_discardActive st = false)
}.

Lemma claim_none host target now g : (claim host target now g).2 = None -> (claim host target now g).1 = g.
Proof. unfold claim. by repeat case_match. Qed.

Lemma claim_some host target now g token : (claim host target now g).2 = Some token ->
  (forall st, g_peers g !! host = Some st -> rs_inFlight st = false) /\
  exists st', g_peers (claim host target now g).1 = <[host := st']> (g_peers g) /\
    rs_inFlight st' = true /\ rs_token st' = token /\ rs_activeTargetKey st' = target /\
    rs_discardActive st' = false /\
    ((forall st, g_peers g !! host = Some st -> 0 <= rs_consecutiveFailures st) -> 0 <= rs_consecutiveFailures st').
Proof.
  unfold claim. destruct (g_peers g !! host) as [st|] eqn:E.
  - rewrite bool_decide_true by done. cbn [default from_option id andb].
    destruct (rs_inFlight st) eqn:Ei; [done |].
    destruct (bool_decide (rs_retryTargetKey st = target) && _); [done |].
    case_bool; intros [= <-]; (split; [by intros ? [= <-] |]); eexists; split_and!; try done.
    intros Hs. exact (Hs st eq_refl).
  - rewrite bool_decide_false by (by intros []). cbn [default from_option id andb]. unfold id.
    case_bool; intros [= <-]; (split; [done |]); eexists; split_and!; done.
Qed.

Lemma finish_at host token ok now g k :
  g_peers (finish host token ok now g) !! k =
  if bool_decide (k = host) then g_peers (finish host token ok now g) !! host else g_peers g !! k.
Proof.
  case_bool_decide as E; [by subst |]. unfold finish.
  by repeat (case_match; cbn; rewrite ?lookup_delete_ne, ?lookup_insert_ne).
Qed.

(** An owned request releases its claim, whatever came of it. *)
Lemma finish_owned host ok now g st :
  g_peers g !! host = Some st -> rs_inFlight st = true ->
  g_peers (finish host (rs_token st) ok now g) !! host =
  if rs_discardActive st || ok then None
  else let failures := (if bool_decide (rs_retryTargetKey st = rs_activeTargetKey st)
                        then rs_consecutiveFailures st else 0) + 1 in
       Some (mkRetryState failures (now + telemetryRetryDelay failures) (rs_activeTargetKey st) (rs_token st) false "" false).
Proof.
  intros Hst Hi. unfold finish. rewrite Hst, Hi, Z.eqb_refl. cbn [negb orb].
  destruct (rs_discardActive st) eqn:Ed; [by apply lookup_delete_eq |].
  destruct ok; cbn [orb]; [by apply lookup_delete_eq |].
  cbn [g_peers]. rewrite lookup_insert_eq. by destruct (bool_decide (rs_retryTargetKey st = _)).
Qed.

Lemma gate_step_ok s e s' : gate_ok s -> step e s s' -> gate_ok s'.
Proof.
  intros [Hnd How Hcl] Hstep. destruct Hstep as [g l host target now token Hc|g l host target now Hc|g l l' r ok now Hp|g l host];
    cbn [sy_gate sy_requests] in *.
  - apply claim_some in Hc as (Hfree & st' & Hg & Hi & Ht & Ha & Hd & Hf).
    assert (host ∉ rq_host <$> l) as Hout.
    { intros (r & -> & Hr)%list_elem_of_fmap. destruct (How r Hr) as (st & Hst & Hin & _).
      specialize (Hfree st Hst). congruence. }
    split; cbn [sy_gate sy_requests]; rewrite ?Hg.
    + rewrite fmap_cons. by apply NoDup_cons.
    + intros r [-> | Hr]%elem_of_cons; [exists st'; by rewrite lookup_insert_eq |].
      destruct (How r Hr) as (st & ? & ?). exists st. rewrite lookup_insert_ne; [done |].
      intros E. apply Hout. apply list_elem_of_fmap. by exists r.
    + intros k st Hk. destruct (decide (host = k)) as [<-|Hne].
      * rewrite lookup_insert_eq in Hk. injection Hk as <-. split_and!; [| intros _; by left | congruence].
        apply Hf. intros st0 Hst0. by apply (Hcl host).
      * rewrite lookup_insert_ne in Hk by done. destruct (Hcl k st Hk) as (? & Hfl & ?). split_and!; [done | | done].
        intros ?. right. by apply Hfl.
  - rewrite claim_none by done. by split.
  - rewrite Hp in Hnd. cbn [fmap list_fmap] in Hnd. apply NoDup_cons in Hnd as [Hr Hnd].
    destruct (How r) as (st & Hst & Hi & Ht & Ha); [rewrite Hp; by left |]. rewrite <- Ht.
    split; cbn [sy_gate sy_requests]; [done | |].
    + intros r' Hr'. destruct (How r') as (st' & ? & ?); [rewrite Hp; by right |]. exists st'.
      rewrite finish_at, bool_decide_false; [done |]. intros E. apply Hr. apply list_elem_of_fmap. by exists r'.
    + intros k st' Hk. rewrite finish_at in Hk. destruct (decide (k = rq_host r)) as [->|Hne].
      * rewrite bool_decide_true in Hk by done. rewrite (finish_owned _ _ _ _ _ Hst Hi) in Hk.
        destruct (Hcl _ _ Hst) as (? & _ & _). destruct (rs_discardActive st || ok); [done |].
        injection Hk as <-. cbn. split_and!; [case_bool; lia | done | done].
      * rewrite bool_decide_false in Hk by done. destruct (Hcl k st' Hk) as (? & Hfl & ?). split_and!; [done | | done].
        intros Hin. specialize (Hfl Hin). rewrite Hp in Hfl. cbn [fmap list_fmap] in Hfl.
        apply elem_of_cons in Hfl as [->|]; done.
  - unfold forget. destruct (g_peers g !! host) as [st|] eqn:E; [| by split].
    destruct (rs_inFlight st) eqn:Ei; cbn [negb].
    + split; cbn [sy_gate sy_requests g_peers]; [done | |].
      * intros r Hr. destruct (How r Hr) as (st' & Hst' & ? & ? & ?). destruct (decide (host = rq_host r)) as [->|].
        -- rewrite lookup_insert_eq. eexists. split; [done |]. cbn. split_and!; [done | congruence | congruence].
        -- exists st'. by rewrite lookup_insert_ne.
      * intros k st' Hk. destruct (decide (host = k)) as [<-|].
        -- rewrite lookup_insert_eq in Hk. injection Hk as <-. cbn. split_and!; [lia | | done].
           intros _. by apply (Hcl host st).
        -- rewrite lookup_insert_ne in Hk by done. by apply Hcl.
    + split; cbn [sy_gate sy_requests g_peers]; [done | |].
      * intros r Hr. destruct (How r Hr) as (st' & Hst' & ? & ? & ?). exists st'. rewrite lookup_delete_ne; [done |].
        intros ->. congruence.
      * intros k st' [_ Hk]%lookup_delete_Some. by apply Hcl.
Qed.

Lemma reach_ok tr s : ran tr s -> gate_ok s.
Proof.
  induction 1 as [|tr s e s' _ IH Hs]; [| by eapply gate_step_ok].
  split; cbn; [constructor | by intros r ?%not_elem_of_nil | by intros host st ?].
Qed.

(** However claims, finished requests and removals of nodes interleave, a node never
    has two telemetry requests in flight, and every request in flight owns its node's
    claim: the gate still carries its token and its endpoint, so its result is always
    accounted to it and never lost or taken for another's. *)
Theorem telemetry_single_flight (tr : list gate_event) (s : sys) :
  ran tr s ->
  NoDup (rq_host <$> sy_requests s) /\
  forall r, r ∈ sy_requests s -> exists st, g_peers (sy_gate s) !! rq_host r = Some st /\
    rs_inFlight st = true /\ rs_token st = rq_token r /\ rs_activeTargetKey st = rq_target r.
Proof. intros [? ? _]%reach_ok. done. Qed.

Definition allowed (host target : string) (now : Z) (g : telemetryRetryGate) : bool :=
  bool_decide (is_Some (claim host target now g).2).

Lemma allowed_idle host target now g st : g_peers g !! host = Some st -> rs_inFlight st = false ->
  allowed host target now g = negb (bool_decide (rs_retryTargetKey st = target) && (now <? rs_retryAt st)).
Proof.
  intros Hst Hi. unfold allowed, claim. rewrite Hst, (bool_decide_true (is_Some (Some st))) by done. cbn [default from_option id andb]. unfold id. rewrite Hi.
  destruct (bool_decide (rs_retryTargetKey st = target) && (now <? rs_retryAt st)) eqn:E; cbn [snd negb].
  - apply bool_decide_false. by intros [].
  - case_bool; cbn [snd]; by apply bool_decide_true.
Qed.

Lemma allowed_absent host target now g : g_peers g !! host = None -> allowed host target now g = true.
Proof.
  intros Hst. unfold allowed, claim. rewrite Hst, (bool_decide_false (is_Some None)) by (by intros []). cbn [default from_option andb].
  case_bool; cbn [snd]; by apply bool_decide_true.
Qed.

(** Whether a node can be asked depends on its own entry only. *)
Lemma allowed_entry host target now g g' : g_peers g !! host = g_peers g' !! host ->
  allowed host target now g = allowed host target now g'.
Proof.
  intros Heq. destruct (g_peers g' !! host) as [st|] eqn:E; [| by rewrite !allowed_absent].
  destruct (rs_inFlight st) eqn:Ei; [| by rewrite !(allowed_idle _ _ _ _ st)].
  unfold allowed, claim. rewrite Heq, E. cbn [default from_option]. unfold id. by rewrite Ei.
Qed.

(** * The run of failures *)

(** What a node's entry says of the runs of failures of its endpoints. *)
Definition counted (tr : list gate_event) (host : string) (entry : option telemetryRetryState) : Prop :=
  match entry with
  | None => forall k, failures_of host k tr = 0
  | Some st =>
      if rs_inFlight st then
        removed_since host tr = rs_discardActive st /\
        (rs_discardActive st = false -> failures_of host (rs_activeTargetKey st) tr =
           if bool_decide (rs_retryTargetKey st = rs_activeTargetKey st) then rs_consecutiveFailures st else 0)
      else forall k, failures_of host k tr =
             if bool_decide (rs_retryTargetKey st = k) then rs_consecutiveFailures st else 0
  end.

(** The node an event is about. *)
Definition event_host (e : gate_event) : string :=
  match e with GAsked r => rq_host r | GRefused h => h | GAnswered r _ _ => rq_host r | GRemoved h => h end.

Lemma other_event e tr host : event_host e <> host ->
  removed_since host (e :: tr) = removed_since host tr /\
  forall k, failures_of host k (e :: tr) = failures_of host k tr.
Proof.
  intros Hne. destruct e; cbn in *; rewrite ?bool_decide_false by done; done.
Qed.

Lemma counted_other e tr host entry : event_host e <> host -> counted tr host entry -> counted (e :: tr) host entry.
Proof.
  intros [Hr Hf]%(other_event e tr). unfold counted. destruct entry as [st|]; [destruct (rs_inFlight st) |];
    setoid_rewrite Hf; by rewrite ?Hr.
Qed.

(** A step leaves the other nodes' entries alone. *)
Lemma step_other e s s' host : step e s s' -> event_host e <> host ->
  g_peers (sy_gate s') !! host = g_peers (sy_gate s) !! host.
Proof.
  intros Hs Hne. destruct Hs as [g l h target now token Hc|g l h target now Hc|g l l' r ok now Hp|g l h]; cbn in *.
  - apply claim_some in Hc as (_ & st' & -> & _). by apply lookup_insert_ne.
  - by rewrite claim_none.
  - rewrite finish_at. by rewrite bool_decide_false.
  - unfold forget. repeat case_match; cbn; by rewrite ?lookup_delete_ne, ?lookup_insert_ne.
Qed.

Lemma counted_claim tr host target now g token :
  (claim host target now g).2 = Some token -> counted tr host (g_peers g !! host) ->
  counted (GAsked (mkRequest host token target) :: tr) host (g_peers (claim host target now g).1 !! host).
Proof.
  unfold claim. destruct (g_peers g !! host) as [st|] eqn:E.
  - rewrite bool_decide_true by done. cbn [default from_option id andb]. unfold id, counted.
    destruct (rs_inFlight st); [done |]. destruct (bool_decide (rs_retryTargetKey st = target) && _); [done |].
    intros Hc Hn. destruct (bool_decide (rs_retryTargetKey st = target)) eqn:Ek; cbn in Hc |- *;
      rewrite lookup_insert_eq; cbn; rewrite bool_decide_true by done; (split; [done |]); intros _; rewrite Hn, Ek; [done |].
    by case_bool.
  - rewrite bool_decide_false by (by intros []). cbn [default from_option id andb]. unfold id, counted. intros Hc Hn.
    destruct (bool_decide (rs_retryTargetKey zero_state = target)); cbn in Hc |- *; rewrite lookup_insert_eq; cbn;
      rewrite bool_decide_true by done; (split; [done |]); intros _; rewrite Hn; by case_bool.
Qed.

Lemma counted_finish tr r ok now g st :
  g_peers g !! rq_host r = Some st -> rs_inFlight st = true -> rs_activeTargetKey st = rq_target r ->
  counted tr (rq_host r) (Some st) ->
  counted (GAnswered r ok now :: tr) (rq_host r) (g_peers (finish (rq_host r) (rs_token st) ok now g) !! rq_host r).
Proof.
  intros Hst Hi Ha Hn. rewrite (finish_owned _ _ _ _ _ Hst Hi). unfold counted in *. rewrite Hi in Hn. destruct Hn as [Hr Hf].
  assert (forall k, failures_of (rq_host r) k (GAnswered r ok now :: tr) =
            if ok || rs_discardActive st || negb (bool_decide (rs_activeTargetKey st = k)) then 0
            else failures_of (rq_host r) k tr + 1) as Ht.
  { intros k. cbn. rewrite bool_decide_true by done. cbn. by rewrite Hr, Ha. }
  rewrite (orb_comm (rs_discardActive st) ok). destruct (ok || rs_discardActive st) eqn:Ed.
  { intros k. rewrite Ht. reflexivity. }
  intros k. rewrite Ht. cbn.
  apply orb_false_elim in Ed as [_ Ed].
  destruct (decide (rs_activeTargetKey st = k)) as [<-|Hne]; [rewrite !bool_decide_true by done | rewrite !bool_decide_false by done; done].
  cbn. by rewrite (Hf Ed).
Qed.

Lemma ran_counted tr s : ran tr s -> forall host, counted tr host (g_peers (sy_gate s) !! host).
Proof.
  induction 1 as [|tr s e s' Hran IH Hs]; intros host; [cbn; by rewrite lookup_empty |].
  destruct (decide (event_host e = host)) as [<-|Hne];
    [| rewrite (step_other _ _ _ _ Hs) by done; apply counted_other, IH; done].
  specialize (IH (event_host e)). pose proof (reach_ok _ _ Hran) as [_ How _].
  destruct Hs as [g l h target now token Hc|g l h target now Hc|g l l' r ok now Hp|g l h]; cbn [event_host rq_host sy_gate sy_requests] in *.
  - by apply counted_claim.
  - rewrite claim_none by done. exact IH.
  - destruct (How r) as (st & Hst & Hi & Ht & Ha); [rewrite Hp; by left |]. rewrite <- Ht. apply (counted_finish _ _ _ _ _ st); [done.. |].
    by rewrite <- Hst.
  - unfold forget. destruct (g_peers g !! h) as [st|] eqn:E; cbn [g_peers]; [| rewrite E; cbn; by rewrite bool_decide_true].
    destruct (rs_inFlight st); cbn [negb g_peers]; rewrite ?lookup_insert_eq, ?lookup_delete_eq; cbn;
      by rewrite bool_decide_true.
Qed.

(** C37. A failed request holds back its own endpoint and nothing else, for a time its run
    of failures sets.  When a request in flight is answered at [now]: after a failure its
    node can be asked again at the same endpoint exactly from [now] plus the delay on,
    which is two seconds doubled once for every failure of the latest run of failures of
    that endpoint, this one included, and at most thirty seconds; any other endpoint of
    the node can be asked at once.  After a success, or when the node left the registry
    since it was asked, nothing of it is held back.  No other node's permission changes. *)
Theorem backoff_per_endpoint (tr : list gate_event) (s : sys) (r : request) (ok : bool) (now : Z) :
  ran tr s -> r ∈ sy_requests s ->
  let g := finish (rq_host r) (rq_token r) ok now (sy_gate s) in
  (forall target t, allowed (rq_host r) target t g =
     if ok || removed_since (rq_host r) tr then true
     else negb (bool_decide (target = rq_target r)
                && (t <? now + Z.min (30 * second) (2 * second * 2 ^ (failures_of (rq_host r) (rq_target r) tr + 1))))) /\
  (forall host target t, host <> rq_host r -> allowed host target t g = allowed host target t (sy_gate s)).
Proof.
  intros Hs Hr g. pose proof (ran_counted _ _ Hs (rq_host r)) as Hn. apply reach_ok in Hs as [_ How Hcl].
  destruct (How r Hr) as (st & Hst & Hi & Ht & Ha). rewrite Hst in Hn. cbn in Hn. rewrite Hi in Hn. destruct Hn as [Hrem Hrun].
  split.
  - pose proof (finish_owned (rq_host r) ok now (sy_gate s) st Hst Hi) as Hf. rewrite Ht in Hf. fold g in Hf.
    rewrite Hrem, (orb_comm ok). destruct (rs_discardActive st || ok) eqn:Ed; intros target t; [by apply allowed_absent |].
    destruct (Hcl _ _ Hst) as (Hnn & _ & _). apply orb_false_elim in Ed as [Ed _].
    rewrite (allowed_idle _ _ _ _ _ Hf) by done. cbn [rs_retryTargetKey rs_retryAt]. rewrite <- Ha, (Hrun Ed).
    rewrite telemetryRetryDelay_closed by (case_bool; lia). do 2 f_equal. by apply bool_decide_ext.
  - intros host target t Hne. apply allowed_entry. subst g. by rewrite finish_at, bool_decide_false.
Qed.

(** * The memory of answering addresses *)

Section AskFacts.
Context {T : Type} (ask : string -> option T).

Lemma askTogether_spec hosts :
  match askTogether ask hosts with
  | Some (h, v) => h ∈ hosts /\ h <> "" /\ ask h = Some v /\
      exists before after, hosts = before ++ h :: after /\ Forall (fun h => h = "" \/ ask h = None) before
  | None => Forall (fun h => h = "" \/ ask h = None) hosts
  end.
Proof.
  induction hosts as [|h hosts IH]; cbn [askTogether]; [constructor |].
  case_bool_decide as E.
  - destruct (askTogether ask hosts) as [[h' v]|].
    + destruct IH as (? & ? & ? & before & after & -> & Hb). split_and!; [by right | done | done |].
      exists (h :: before), after. split; [done |]. constructor; [by left | done].
    + constructor; [by left | done].
  - destruct (ask h) as [v|] eqn:Ea.
    + split_and!; [by left | done | done |]. exists [], hosts. by split.
    + destruct (askTogether ask hosts) as [[h' v]|].
      * destruct IH as (? & ? & ? & before & after & -> & Hb). split_and!; [by right | done | done |].
        exists (h :: before), after. split; [done |]. constructor; [by right | done].
      * constructor; [by right | done].
Qed.

(** The address that answered last is kept while it answers; otherwise the answer is the
    best-ranked one, it is remembered, and the silent address is dropped. *)
Lemma askRemembered_spec key hosts mem :
  let '(mem', r) := askRemembered ask key hosts mem in
  (forall k, k <> key -> mem' !! k = mem !! k) /\
  match r with
  | Some (h, v) => ask h = Some v /\ mem' !! key = Some h /\ h <> "" /\ (h = mem_get key mem \/ h ∈ hosts)
  | None => (mem_get key mem = "" \/ mem' !! key = None) /\
      Forall (fun h => h = "" \/ ask h = None) (mem_get key mem :: hosts)
  end.
Proof.
  unfold askRemembered. case_bool_decide as E.
  - pose proof (askTogether_spec hosts) as Ht. destruct (askTogether ask hosts) as [[h v]|].
    + destruct Ht as (? & ? & ? & _). split; [intros k ?; by apply lookup_insert_ne |].
      rewrite lookup_insert_eq. split_and!; try done. by right.
    + split; [done |]. split; [by left |]. constructor; [by left | done].
  - destruct (ask (mem_get key mem)) as [v|] eqn:Ea.
    + split; [done |]. split_and!; try done; [| by left]. unfold mem_get in *. by destruct (mem !! key).
    + pose proof (askTogether_spec (withoutHost hosts (mem_get key mem))) as Ht.
      destruct (askTogether ask (withoutHost hosts (mem_get key mem))) as [[h v]|].
      * destruct Ht as (Hin & ? & ? & _). apply elem_of_bfilter in Hin as [Hin _].
        split; [intros k ?; by rewrite lookup_insert_ne, lookup_delete_ne |].
        rewrite lookup_insert_eq. split_and!; try done. by right.
      * split; [intros k ?; by apply lookup_delete_ne |]. split; [right; apply lookup_delete_eq |].
        constructor; [by right |]. apply Forall_forall. intros h Hh. destruct (decide (h = mem_get key mem)) as [->|Hne]; [by right |].
        rewrite Forall_forall in Ht. apply Ht, elem_of_bfilter. split; [done |]. by rewrite bool_decide_false.
Qed.
End AskFacts.
