(* ===== verification/NodeDirectory.v ===== *)
(** What the node scanner keeps (services/nvpair-node-scanner): the services this node
    advertises (registry.go), and the directory of all nodes with the guarded writes its
    concurrent readers use (directory.go).  Each operation holds its lock throughout, so
    it is one step. *)
From S2P Require Import Prelude.
From S2P Require Import GoStd.
From S2P Require Import GoBytes.
From S2P Require Import EngineNative.
From S2P Require Import Noderec.
From S2P Require Import Netpick.
From S2P Require Import Browser.

Open Scope string_scope.
Open Scope list_scope.
Open Scope Z_scope.

(** * The registry *)

Module Registry.
Record registry : Type := mkRegistry {
  r_hostUUID : string; r_cluUUID : string; r_ips : list string; r_services : gmap string Z
}.

Definition trimAddresses (ips : list string) : list string := take MaxAdvertisedIPs ips.

Lemma trim_length ips : (length (trimAddresses ips) <= MaxAdvertisedIPs)%nat.
Proof. unfold trimAddresses. rewrite length_take. apply Nat.le_min_l. Qed.

Definition newRegistry (hostUUID clusterUUID : string) (ips : list string) : registry :=
  mkRegistry hostUUID clusterUUID (trimAddresses ips) ∅.

Definition with_services (s : gmap string Z) (r : registry) : registry :=
  mkRegistry (r_hostUUID r) (r_cluUUID r) (r_ips r) s.

(** [register] with the service and port of its parameters. *)
Definition register (service : string) (port : Z) (r : registry) : registry * bool :=
  if bool_decide (service = "") || (port =? 0) then (r, false)
  else if default 0 (r_services r !! service) =? port then (r, false)
  else (with_services (<[service := port]> (r_services r)) r, true).

Definition unregister (s : string) (r : registry) : registry * bool :=
  match r_services r !! s with
  | None => (r, false)
  | Some _ => (with_services (delete s (r_services r)) r, true)
  end.

Definition setIdentity (hostUUID clusterUUID : string) (ips : list string) (r : registry) : registry * bool :=
  let ips := trimAddresses ips in
  if bool_decide (r_hostUUID r = hostUUID) && bool_decide (r_cluUUID r = clusterUUID) && bool_decide (r_ips r = ips)
  then (r, false)
  else (mkRegistry hostUUID clusterUUID ips (r_services r), true).

Definition setAddresses (ips : list string) (r : registry) : registry * bool :=
  let ips := trimAddresses ips in
  if bool_decide (r_ips r = ips) then (r, false)
  else (mkRegistry (r_hostUUID r) (r_cluUUID r) ips (r_services r), true).

Definition record (r : registry) : NodeRecord :=
  mkNodeRecord SchemaVersion (r_hostUUID r) (r_cluUUID r) (hd "" (r_ips r)) (r_ips r) (r_services r).

Definition txt `{!MapRange} (r : registry) : list string := TXT (record r).

(** The calls that change what is advertised. *)
Inductive call : Type :=
| CRegister (service : string) (port : Z)
| CUnregister (service : string)
| CSetIdentity (hostUUID clusterUUID : string) (ips : list string)
| CSetAddresses (ips : list string).

Definition do_call (c : call) (r : registry) : registry * bool :=
  match c with
  | CRegister s p => register s p r
  | CUnregister s => unregister s r
  | CSetIdentity h c ips => setIdentity h c ips r
  | CSetAddresses ips => setAddresses ips r
  end.

(** The registry reports a change exactly when the advertised record changed, so a node
    re-advertises itself when and only when there is something new to say, and it never
    holds more addresses than a record publishes. *)
Theorem change_reported (c : call) (r : registry) :
  map_Forall (fun _ p => p <> 0) (r_services r) ->
  let '(r', changed) := do_call c r in
  (changed = true <-> record r' <> record r) /\
  map_Forall (fun _ p => p <> 0) (r_services r') /\
  ((length (r_ips r) <= MaxAdvertisedIPs)%nat -> (length (r_ips r') <= MaxAdvertisedIPs)%nat).
Proof.
  intros Hp. destruct c as [s p|s|h cu ips|ips]; cbn [do_call].
  - unfold register. case_bool; [split; [split; [done | by intros []] | done] |]. unbool.
    destruct (Z.eqb_spec (default 0 (r_services r !! s)) p) as [He|He].
    + split; [split; [done | by intros []] | done].
    + split; [split; [| done] | split; [| done]].
      * intros _ Heq. apply (f_equal rec_Services) in Heq. cbn in Heq. rewrite <- Heq, lookup_insert_eq in He. done.
      * by apply map_Forall_insert_2.
  - unfold unregister. destruct (r_services r !! s) as [p|] eqn:E.
    + split; [split; [| done] | split; [| done]].
      * intros _ Heq. apply (f_equal rec_Services) in Heq. cbn in Heq. rewrite <- Heq, lookup_delete_eq in E. done.
      * by apply map_Forall_delete.
    + split; [split; [done | by intros []] | done].
  - unfold setIdentity. case_bool; unbool.
    + split; [split; [done | by intros []] | done].
    + split; [split; [| done] | split; [done |]].
      * intros _ Heq. injection Heq as Hh Hc _ Hi. rewrite <- Hh, <- Hc, <- Hi, !bool_decide_true in Heqb by done. done.
      * intros _. apply trim_length.
  - unfold setAddresses. case_bool; unbool.
    + split; [split; [done | by intros []] | done].
    + split; [split; [| done] | split; [done |]].
      * intros _ Heq. injection Heq as _ Hi. congruence.
      * intros _. apply trim_length.
Qed.
End Registry.

(** * The directory *)

Abbreviation directory := (gmap string DirectoryNode).

Definition set_views (models : option (list string)) (byEngine loadedByEngine : option (gmap string (list string)))
    (n : DirectoryNode) : DirectoryNode :=
  mkDirectoryNode (dn_HostUUID n) (dn_Name n) (dn_IP n) (dn_IPs n) (dn_ClusterUUID n) (dn_Trusted n) (dn_PeerRecordID n)
    (dn_IdentityVerification n) (dn_Services n) (dn_GPUs n) (dn_CPU n) (dn_Memory n)
    models byEngine loadedByEngine (dn_EngineNative n) (dn_LastSeen n).
Definition set_EngineNative (s : option Stats) (n : DirectoryNode) : DirectoryNode :=
  mkDirectoryNode (dn_HostUUID n) (dn_Name n) (dn_IP n) (dn_IPs n) (dn_ClusterUUID n) (dn_Trusted n) (dn_PeerRecordID n)
    (dn_IdentityVerification n) (dn_Services n) (dn_GPUs n) (dn_CPU n) (dn_Memory n)
    (dn_Models n) (dn_ModelsByEngine n) (dn_LoadedByEngine n) s (dn_LastSeen n).
Definition set_LastSeen (t : Z) (n : DirectoryNode) : DirectoryNode :=
  mkDirectoryNode (dn_HostUUID n) (dn_Name n) (dn_IP n) (dn_IPs n) (dn_ClusterUUID n) (dn_Trusted n) (dn_PeerRecordID n)
    (dn_IdentityVerification n) (dn_Services n) (dn_GPUs n) (dn_CPU n) (dn_Memory n)
    (dn_Models n) (dn_ModelsByEngine n) (dn_LoadedByEngine n) (dn_EngineNative n) t.

(** [reflect.DeepEqual] on the fields that are not compared with [==] on floats. *)
Definition deep_stats (a b : option Stats) : bool :=
  match a, b with
  | Some a, Some b =>
      bool_decide (st_Engine a = st_Engine b) && Bool.eqb (st_Supported a) (st_Supported b)
      && same_totals (st_Totals a) (st_Totals b) && same_rates (st_Rates a) (st_Rates b)
      && bool_decide (st_Models a = st_Models b) && bool_decide (st_Error a = st_Error b)
      && (st_ObservedAt a =? st_ObservedAt b)
  | None, None => true
  | _, _ => false
  end.

Definition DeepEqual (a b : DirectoryNode) : bool :=
  bool_decide (dn_HostUUID a = dn_HostUUID b) && bool_decide (dn_Name a = dn_Name b)
  && bool_decide (dn_IP a = dn_IP b) && bool_decide (dn_IPs a = dn_IPs b)
  && bool_decide (dn_ClusterUUID a = dn_ClusterUUID b) && Bool.eqb (dn_Trusted a) (dn_Trusted b)
  && bool_decide (dn_PeerRecordID a = dn_PeerRecordID b)
  && bool_decide (dn_IdentityVerification a = dn_IdentityVerification b)
  && bool_decide (dn_Services a = dn_Services b) && bool_decide (dn_GPUs a = dn_GPUs b)
  && bool_decide (dn_CPU a = dn_CPU b) && bool_decide (dn_Memory a = dn_Memory b)
  && bool_decide (dn_Models a = dn_Models b) && bool_decide (dn_ModelsByEngine a = dn_ModelsByEngine b)
  && bool_decide (dn_LoadedByEngine a = dn_LoadedByEngine b)
  && deep_stats (dn_EngineNative a) (dn_EngineNative b) && (dn_LastSeen a =? dn_LastSeen b).

Definition sameIgnoringLastSeen (a b : DirectoryNode) : bool := DeepEqual (set_LastSeen 0 a) (set_LastSeen 0 b).

Definition zero_node : DirectoryNode := bare_node "" "" "" [] "" false "" "" ∅.

(** [toDirectoryNode] at time [now] (Unix seconds). *)
Definition toDirectoryNode (now : Z) (raw : Node) : option DirectoryNode :=
  let rec_ := ParseTXT (n_TXT raw) in
  if bool_decide (rec_HostUUID rec_ = "") then None
  else
    let ips := Candidates (n_TXT raw) (n_Addresses raw) in
    Some (set_LastSeen now
      (bare_node (rec_HostUUID rec_) (n_ID raw) (hd "" ips) ips (rec_ClusterUUID rec_) false
         (PreviewRecordID (n_ID raw) (rec_HostUUID rec_)) "unverified"
         ((fun port => mkServiceStatus port "") <$> rec_Services rec_))).

Definition carryEngineNative (stored incoming : DirectoryNode) : DirectoryNode :=
  if ServicePeer incoming && bool_decide (dn_PeerRecordID incoming = dn_PeerRecordID stored)
     && bool_decide (dn_EngineNative incoming = None) && negb (bool_decide (dn_EngineNative stored = None))
  then set_EngineNative (dn_EngineNative stored) incoming
  else incoming.

Definition upsert (n : DirectoryNode) (d : directory) : directory * bool :=
  let key := RecordKey n in
  if bool_decide (key = "") then (d, false)
  else (<[key := carryEngineNative (default zero_node (d !! key)) n]> d, negb (bool_decide (is_Some (d !! key)))).

(** Whether the directory still holds this very entry. *)
Definition is_current (old : DirectoryNode) (d : directory) : bool :=
  match d !! RecordKey old with Some current => DeepEqual current old | None => false end.

Definition replaceIfCurrent (old replacement : DirectoryNode) (d : directory) : directory * bool :=
  if is_current old d then (<[RecordKey replacement := replacement]> (delete (RecordKey old) d), true) else (d, false).

Definition removeIfCurrent (old : DirectoryNode) (d : directory) : directory * bool :=
  if is_current old d then (delete (RecordKey old) d, true) else (d, false).

Definition snapshot `{!MapRange} (service : string) (d : directory) : list DirectoryNode :=
  sort_by (fun a b => str_ltb (dn_HostUUID a) (dn_HostUUID b))
    (List.filter (fun n => bool_decide (service = "") || HasService n service) (range d).*2).

Definition engine_lists (m : option (gmap string (list string))) : gmap string (list string) := default ∅ m.

Definition sameByEngine `{!MapRange} (a b : option (gmap string (list string))) : bool :=
  bool_decide (size (engine_lists a) = size (engine_lists b))
  && forallb (fun p => match engine_lists b !! p.1 with Some bv => sameStringSet p.2 bv | None => false end)
       (range (engine_lists a)).

(** The endpoint a fetch targeted is still the one the entry advertises. *)
Definition same_endpoint (n : DirectoryNode) (ip : string) (emPort : Z) : bool :=
  match dn_Services n !! ServiceEngineManager with
  | Some em => bool_decide (dn_IP n = ip) && (ss_Port em =? emPort)
  | None => false
  end.

Definition applyModels `{!MapRange} (hostUUID ip : string) (emPort : Z) (models : option (list string))
    (byEngine loadedByEngine : option (gmap string (list string))) (d : directory)
    : directory * (DirectoryNode * bool * bool) :=
  match d !! hostUUID with
  | None => (d, (zero_node, false, false))
  | Some n =>
      if negb (same_endpoint n ip emPort) then (d, (n, false, false))
      else if sameStringSet (default [] (dn_Models n)) (default [] models)
              && sameByEngine (dn_ModelsByEngine n) byEngine && sameByEngine (dn_LoadedByEngine n) loadedByEngine
      then (d, (n, false, true))
      else let n := set_views models byEngine loadedByEngine n in (<[hostUUID := n]> d, (n, true, true))
  end.

Definition applyEngineNative (hostUUID ip : string) (emPort : Z) (stats : option Stats) (d : directory)
    : directory * (DirectoryNode * bool * bool) :=
  match d !! hostUUID with
  | None => (d, (zero_node, false, false))
  | Some n =>
      if negb (same_endpoint n ip emPort) then (d, (n, false, false))
      else match stats with
           | None => (d, (n, false, true))
           | Some _ =>
               let moved := Changed (dn_EngineNative n) stats in
               let n := set_EngineNative stats n in (<[hostUUID := n]> d, (n, moved, true))
           end
  end.

(** * Facts *)

(** What decides where an entry is filed and whether it may be routed to. *)
Definition identity_of (n : DirectoryNode) : string * string * string * bool * string * string :=
  (dn_HostUUID n, dn_IP n, dn_ClusterUUID n, dn_Trusted n, dn_PeerRecordID n, dn_IdentityVerification n).

Lemma DeepEqual_identity a b : DeepEqual a b = true -> identity_of a = identity_of b /\ dn_Services a = dn_Services b
  /\ dn_IPs a = dn_IPs b /\ dn_Name a = dn_Name b.
Proof.
  unfold DeepEqual. intros He. unbool. unfold identity_of.
  destruct (dn_Trusted a), (dn_Trusted b); try done; repeat split; congruence.
Qed.

Lemma RecordKey_identity a b : identity_of a = identity_of b -> RecordKey a = RecordKey b.
Proof. unfold identity_of, RecordKey. by intros [= -> _ _ _ -> ->]. Qed.

Lemma ServicePeer_identity a b : identity_of a = identity_of b -> ServicePeer a = ServicePeer b.
Proof.
  intros He. unfold ServicePeer. rewrite (RecordKey_identity a b He). unfold identity_of in He.
  by injection He as _ _ _ -> -> ->.
Qed.

Lemma carry_identity s n : identity_of (carryEngineNative s n) = identity_of n.
Proof. unfold carryEngineNative. by case_bool. Qed.

(** A stored entry is filed under its own key. *)
Definition filed (d : directory) : Prop := forall k n, d !! k = Some n -> RecordKey n = k /\ k <> "".

Lemma filed_insert d k n : filed d -> RecordKey n = k -> k <> "" -> filed (<[k := n]> d).
Proof. intros Hd Hk Hne k' n' Hn. destruct (decide (k = k')) as [<-|?]; simplify_map_eq; [done | by apply Hd]. Qed.

Lemma filed_delete d k : filed d -> filed (delete k d).
Proof. intros Hd k' n' [_ Hn]%lookup_delete_Some. by apply Hd. Qed.

Lemma upsert_filed n d : filed d -> filed (upsert n d).1.
Proof.
  intros Hd. unfold upsert. case_bool_decide; [done |]. apply filed_insert; [done | | done].
  apply RecordKey_identity, carry_identity.
Qed.

Lemma remove_current_spec old d d' : removeIfCurrent old d = (d', true) ->
  exists current, d !! RecordKey old = Some current /\ DeepEqual current old = true /\ d' = delete (RecordKey old) d.
Proof.
  unfold removeIfCurrent, is_current. destruct (d !! RecordKey old) as [c|] eqn:E; [| done].
  destruct (DeepEqual c old) eqn:Ed; [| done]. intros [= <-]. by exists c.
Qed.

Lemma sameByEngine_spec `{!MapRange} a b :
  sameByEngine a b = true <->
  forall e, option_Forall2 (≡ₚ) (engine_lists a !! e) (engine_lists b !! e).
Proof.
  unfold sameByEngine. rewrite andb_true_iff, bool_decide_eq_true, forallb_forall.
  assert ((forall x, In x (range (engine_lists a)) ->
            (match engine_lists b !! x.1 with Some bv => sameStringSet x.2 bv | None => false end) = true) <->
          forall e av, engine_lists a !! e = Some av -> exists bv, engine_lists b !! e = Some bv /\ av ≡ₚ bv) as ->.
  { split.
    - intros Hx e av Hav. specialize (Hx (e, av)). rewrite <- list_elem_of_In, elem_of_range in Hx.
      specialize (Hx Hav). cbn in Hx. destruct (engine_lists b !! e) as [bv|]; [| done].
      exists bv. split; [done |]. by apply sameStringSet_perm.
    - intros Hx [e av] Hin. apply list_elem_of_In, elem_of_range in Hin. cbn [fst snd].
      destruct (Hx e av Hin) as (bv & -> & Hp).
      by apply sameStringSet_perm. }
  split.
  - intros [Hs Hx] e. destruct (engine_lists a !! e) as [av|] eqn:Ea.
    + destruct (Hx e av Ea) as (bv & -> & ?). by constructor.
    + destruct (engine_lists b !! e) as [bv|] eqn:Eb; [| constructor].
      assert (dom (engine_lists a) ⊆ dom (engine_lists b)) as Hsub.
      { intros e' (av & Hav)%elem_of_dom. apply Hx in Hav as (? & ? & _). apply elem_of_dom. by eexists. }
      assert (dom (engine_lists a) = dom (engine_lists b)) as Heq.
      { apply set_subseteq_size_eq; [done |]. rewrite !size_dom. lia. }
      assert (e ∈ dom (engine_lists a)) as [? ?]%elem_of_dom; [| congruence].
      rewrite Heq. apply elem_of_dom. by eexists.
  - intros He. split.
    + assert (dom (engine_lists a) = dom (engine_lists b)) as Hd.
      { apply set_eq. intros e. rewrite !elem_of_dom. specialize (He e). inversion He; naive_solver. }
      by rewrite <- !size_dom, Hd.
    + intros e av Hav. specialize (He e). rewrite Hav in He. inversion He; subst. by eexists.
Qed.

Lemma elem_of_snapshot `{!MapRange} service n d :
  n ∈ snapshot service d <-> exists k, d !! k = Some n /\ (service = "" \/ HasService n service = true).
Proof.
  unfold snapshot. rewrite elem_of_sort_by, elem_of_bfilter, list_elem_of_fmap, orb_true_iff, bool_decide_eq_true. split.
  - intros [([k m] & -> & Hin) Hs]. apply elem_of_range in Hin. eauto.
  - intros (k & Hk & Hs). split; [| done]. exists (k, n). split; [done |]. by apply elem_of_range.
Qed.

(** C38. A fetch that took its time writes nothing it should not: when the node was removed
    or is advertised at another endpoint by the time a model list arrives, the directory is
    untouched and the result is reported stale.  Otherwise a change is reported exactly when
    the fetched list of models, of models by engine or of loaded models differs from the
    stored one beyond its order; then these three fields of that one entry become the
    fetched ones, and every other field of it (identity, name, addresses, services, GPUs,
    CPU, memory, the engine's view, when it was last seen) and every other entry is kept.
    Without a change the entry is the stored one. *)
Theorem applyModels_guarded `{!MapRange} (host ip : string) (port : Z) (models : option (list string))
    (byEngine loaded : option (gmap string (list string))) (d : directory) :
  let '(d', (n', changed, valid)) := applyModels host ip port models byEngine loaded d in
  (valid = true <-> exists n, d !! host = Some n /\ same_endpoint n ip port = true) /\
  (forall k, k <> host -> d' !! k = d !! k) /\
  (changed = false -> d' = d) /\
  (valid = false -> changed = false) /\
  forall n, d !! host = Some n -> valid = true ->
    d' !! host = Some n' /\
    (changed = false <->
      default [] (dn_Models n) ≡ₚ default [] models
      /\ (forall e, option_Forall2 (≡ₚ) (engine_lists (dn_ModelsByEngine n) !! e) (engine_lists byEngine !! e))
      /\ (forall e, option_Forall2 (≡ₚ) (engine_lists (dn_LoadedByEngine n) !! e) (engine_lists loaded !! e))) /\
    (changed = true -> dn_Models n' = models /\ dn_ModelsByEngine n' = byEngine /\ dn_LoadedByEngine n' = loaded) /\
    (changed = false -> n' = n) /\
    identity_of n' = identity_of n /\ dn_Services n' = dn_Services n /\ dn_EngineNative n' = dn_EngineNative n /\
    dn_Name n' = dn_Name n /\ dn_IPs n' = dn_IPs n /\ dn_GPUs n' = dn_GPUs n /\ dn_CPU n' = dn_CPU n /\
    dn_Memory n' = dn_Memory n /\ dn_LastSeen n' = dn_LastSeen n.
Proof.
  unfold applyModels. destruct (d !! host) as [n|] eqn:E.
  - destruct (same_endpoint n ip port) eqn:Ep; cbn [negb].
    + set (same := _ && _ && _).
      assert (same = true <-> default [] (dn_Models n) ≡ₚ default [] models
        /\ (forall e, option_Forall2 (≡ₚ) (engine_lists (dn_ModelsByEngine n) !! e) (engine_lists byEngine !! e))
        /\ (forall e, option_Forall2 (≡ₚ) (engine_lists (dn_LoadedByEngine n) !! e) (engine_lists loaded !! e))) as Hs.
      { subst same. rewrite !andb_true_iff, sameStringSet_perm, !sameByEngine_spec. tauto. }
      destruct same.
      * split_and!; try done; [split; [intros _; by exists n | done] |].
        intros m [= <-] _. split_and!; try done; split; [intros _; by apply Hs | done].
      * split_and!; try done; [split; [intros _; by exists n | done] | intros k ?; by apply lookup_insert_ne |].
        intros m [= <-] _. split_and!; try done; [apply lookup_insert_eq |]. split; [done |].
        intros Hc. apply Hs in Hc. done.
    + split_and!; try done. split; [done |]. intros (m & [= <-] & ?). congruence.
  - split_and!; try done. split; [done |]. by intros (? & ? & _).
Qed.

(** The engine's own view is written under the same guard, and only that field. *)
Lemma applyEngineNative_guarded host ip port stats d :
  let '(d', (n', changed, valid)) := applyEngineNative host ip port stats d in
  (valid = true <-> exists n, d !! host = Some n /\ same_endpoint n ip port = true) /\
  (forall k, k <> host -> d' !! k = d !! k) /\
  (valid = false -> d' = d /\ changed = false) /\
  forall n, d !! host = Some n -> valid = true ->
    d' !! host = Some n' /\ identity_of n' = identity_of n /\ dn_Services n' = dn_Services n /\
    (dn_Models n', dn_ModelsByEngine n', dn_LoadedByEngine n') = (dn_Models n, dn_ModelsByEngine n, dn_LoadedByEngine n).
Proof.
  unfold applyEngineNative. destruct (d !! host) as [n|] eqn:E.
  - destruct (same_endpoint n ip port) eqn:Ep; cbn [negb].
    + destruct stats as [s|].
      * split_and!; try done; [split; [intros _; by exists n | done] | intros k ?; by apply lookup_insert_ne |].
        intros m [= <-] _. split_and!; try done. apply lookup_insert_eq.
      * split_and!; try done; [split; [intros _; by exists n | done] |]. by intros m [= <-] _.
    + split_and!; try done. split; [done |]. intros (m & [= <-] & ?). congruence.
  - split_and!; try done. split; [done |]. by intros (? & ? & _).
Qed.
