(* ===== verification/Scanner.v ===== *)
(** The node scanner's daemon (services/nvpair-node-scanner: daemon.go, peer_inventory.go,
    local_readiness.go): how a browsed record becomes an unverified preview, how a pinned
    mTLS read promotes it, how sweeps refresh, withdraw and expire peers, and how this node
    publishes itself.

    Handlers wait for the network and several run at once.  What a handler does between
    two waits is one function here, and a publication is one function by its steps, since
    other handlers run between them; ScannerSteps.v interleaves these.  Answers of the network, the readings of the cluster directory and of the clock
    are inputs. *)
From S2P Require Import Prelude.
From S2P Require Import GoStd.
From S2P Require Import GoBytes.
From S2P Require Import Json.
From S2P Require Import EngineNative.
From S2P Require Import Noderec.
From S2P Require Import Netpick.
From S2P Require Import ClusterTrust.
From S2P Require Import Mesh.
From S2P Require Import Browser.
From S2P Require Import RetryGate.
From S2P Require Import NodeDirectory.

Open Scope string_scope.
Open Scope list_scope.
Open Scope Z_scope.

(** * Data *)

Record PeerMetadata : Type := mkMetadata {
  pm_HostUUID : string; pm_Name : string; pm_IPs : list string; pm_Services : gmap string Z
}.

Record NodeInfoResponse : Type := mkInfo {
  ni_PeerMetadata : option PeerMetadata;
  ni_PeerRecordID : string;
  ni_GPUs : option (list GPUInfo);
  ni_CPU : option CPUInfo;
  ni_Memory : option MemoryInfo;
  ni_TelemetryValid : bool;
  ni_MSSince : Z;
  ni_SampleSeq : Z;
  ni_HostUUID : string;
  ni_ClusterUUID : option string
}.

Record modelInventory : Type := mkInventory {
  mi_models : option (list string);
  mi_byEngine : option (gmap string (list string));
  mi_loadedByEngine : option (gmap string (list string))
}.

(** What the daemon tells the broker. *)
Inductive notification : Type :=
| NodeDiscovered (n : DirectoryNode)
| NodeUpdated (n : DirectoryNode)
| NodeRemoved (n : DirectoryNode).

Record scanner : Type := mkScanner {
  s_reg : Registry.registry;
  s_instance : string;
  s_dir : directory;
  s_candidates : directory;
  s_mesh : Mesh;
  s_retries : telemetryRetryGate;
  s_enrichHosts : hostMemory;
  s_lastInfo : gmap string NodeInfoResponse;
  s_lastInfoAt : gmap string Z;
  s_lastModels : gmap string modelInventory;
  s_nodeInfoDown : gset string;
  s_lastActivityAt : gmap string Z;
  s_out : list notification
}.

Definition set_reg (x : Registry.registry) (s : scanner) : scanner :=
  mkScanner x (s_instance s) (s_dir s) (s_candidates s) (s_mesh s) (s_retries s) (s_enrichHosts s) (s_lastInfo s)
    (s_lastInfoAt s) (s_lastModels s) (s_nodeInfoDown s) (s_lastActivityAt s) (s_out s).
Definition set_dir (x : directory) (s : scanner) : scanner :=
  mkScanner (s_reg s) (s_instance s) x (s_candidates s) (s_mesh s) (s_retries s) (s_enrichHosts s) (s_lastInfo s)
    (s_lastInfoAt s) (s_lastModels s) (s_nodeInfoDown s) (s_lastActivityAt s) (s_out s).
Definition set_candidates (x : directory) (s : scanner) : scanner :=
  mkScanner (s_reg s) (s_instance s) (s_dir s) x (s_mesh s) (s_retries s) (s_enrichHosts s) (s_lastInfo s)
    (s_lastInfoAt s) (s_lastModels s) (s_nodeInfoDown s) (s_lastActivityAt s) (s_out s).
Definition set_mesh (x : Mesh) (s : scanner) : scanner :=
  mkScanner (s_reg s) (s_instance s) (s_dir s) (s_candidates s) x (s_retries s) (s_enrichHosts s) (s_lastInfo s)
    (s_lastInfoAt s) (s_lastModels s) (s_nodeInfoDown s) (s_lastActivityAt s) (s_out s).
Definition set_enrichHosts (x : hostMemory) (s : scanner) : scanner :=
  mkScanner (s_reg s) (s_instance s) (s_dir s) (s_candidates s) (s_mesh s) (s_retries s) x (s_lastInfo s)
    (s_lastInfoAt s) (s_lastModels s) (s_nodeInfoDown s) (s_lastActivityAt s) (s_out s).
Definition set_caches (info : gmap string NodeInfoResponse) (at_ : gmap string Z) (models : gmap string modelInventory)
    (down : gset string) (s : scanner) : scanner :=
  mkScanner (s_reg s) (s_instance s) (s_dir s) (s_candidates s) (s_mesh s) (s_retries s) (s_enrichHosts s)
    info at_ models down (s_lastActivityAt s) (s_out s).
Definition set_activity (x : gmap string Z) (s : scanner) : scanner :=
  mkScanner (s_reg s) (s_instance s) (s_dir s) (s_candidates s) (s_mesh s) (s_retries s) (s_enrichHosts s) (s_lastInfo s)
    (s_lastInfoAt s) (s_lastModels s) (s_nodeInfoDown s) x (s_out s).
Definition set_retries (x : telemetryRetryGate) (s : scanner) : scanner :=
  mkScanner (s_reg s) (s_instance s) (s_dir s) (s_candidates s) (s_mesh s) x (s_enrichHosts s) (s_lastInfo s)
    (s_lastInfoAt s) (s_lastModels s) (s_nodeInfoDown s) (s_lastActivityAt s) (s_out s).
Definition emit (x : notification) (s : scanner) : scanner :=
  mkScanner (s_reg s) (s_instance s) (s_dir s) (s_candidates s) (s_mesh s) (s_retries s) (s_enrichHosts s) (s_lastInfo s)
    (s_lastInfoAt s) (s_lastModels s) (s_nodeInfoDown s) (s_lastActivityAt s) (s_out s ++ [x]).

Definition loopbackHost : string := "127.0.0.1".
Definition reachableInfoFreshness : Z := 10 * second.
Definition activityFreshness : Z := 60 * second.

(** Updates of an entry the handlers make. *)
Definition with_verification (trusted : bool) (record verification : string) (n : DirectoryNode) : DirectoryNode :=
  mkDirectoryNode (dn_HostUUID n) (dn_Name n) (dn_IP n) (dn_IPs n) (dn_ClusterUUID n) trusted record verification
    (dn_Services n) (dn_GPUs n) (dn_CPU n) (dn_Memory n) (dn_Models n) (dn_ModelsByEngine n) (dn_LoadedByEngine n)
    (dn_EngineNative n) (dn_LastSeen n).
Definition with_inventory (info : NodeInfoResponse) (n : DirectoryNode) : DirectoryNode :=
  mkDirectoryNode (dn_HostUUID n) (dn_Name n) (dn_IP n) (dn_IPs n) (dn_ClusterUUID n) (dn_Trusted n) (dn_PeerRecordID n)
    (dn_IdentityVerification n) (dn_Services n) (ni_GPUs info) (ni_CPU info) (ni_Memory info)
    (dn_Models n) (dn_ModelsByEngine n) (dn_LoadedByEngine n) (dn_EngineNative n) (dn_LastSeen n).
Definition with_models (i : modelInventory) (n : DirectoryNode) : DirectoryNode :=
  set_views (mi_models i) (mi_byEngine i) (mi_loadedByEngine i) n.

Section Scanner.
Context `{!MapRange, !Sha256, !Pki, !Tls}.
(** [json.Unmarshal] of a node-info answer, by its text. *)
Context (decode_info : string -> option NodeInfoResponse).

Definition nodeInfoResponseLimit : Z := 1048576.

(** * Identity *)

Definition own_host (s : scanner) : string := Registry.r_hostUUID (s_reg s).
Definition localNode (hostUUID : string) (s : scanner) : bool := bool_decide (hostUUID = own_host s).

Definition refresh (d : ClusterDir) (s : scanner) : scanner := set_mesh (Refresh d (s_mesh s)) s.

Definition currentPeer (d : ClusterDir) (now : Z) (node : DirectoryNode) (s : scanner) : scanner * bool :=
  if localNode (dn_HostUUID node) s then (s, true)
  else let s := refresh d s in
       (s, ServicePeer node
           && bool_decide (dn_PeerRecordID node = PeerRecordID (s_mesh s) now (dn_ClusterUUID node))).

(** The start of [authenticatedInfo]: whether there is a peer to ask and a client for it. *)
Definition start_read (d : ClusterDir) (node : DirectoryNode) (s : scanner) : scanner * bool :=
  if bool_decide (dn_HostUUID node = "") || bool_decide (dn_ClusterUUID node = "")
     || negb (bool_decide (dn_HostUUID node = dn_ClusterUUID node))
  then (s, false)
  else let s := refresh d s in (s, HasPin (s_mesh s) (dn_ClusterUUID node)).

(** Whether an accepted answer is one about this very principal and port. *)
Definition info_ok (principal : string) (port : Z) (info : NodeInfoResponse) : bool :=
  bool_decide (ni_HostUUID info = principal) && bool_decide (ni_ClusterUUID info = Some principal)
  && match ni_PeerMetadata info with
     | None => false
     | Some meta =>
         bool_decide (pm_HostUUID meta = principal) && negb (bool_decide (pm_Name meta = ""))
         && (default 0 (pm_Services meta !! ServiceNodeInfo) =? port)
     end.

Definition with_record (record : string) (info : NodeInfoResponse) : NodeInfoResponse :=
  mkInfo (ni_PeerMetadata info) record (ni_GPUs info) (ni_CPU info) (ni_Memory info) (ni_TelemetryValid info)
    (ni_MSSince info) (ni_SampleSeq info) (ni_HostUUID info) (ni_ClusterUUID info).

(** The services of the metadata whose port is one. *)
Definition verified_services (meta : PeerMetadata) : gmap string ServiceStatus :=
  (fun port => mkServiceStatus port "") <$> filter (fun p : string * Z => 0 < p.2 <= 65535) (pm_Services meta).

(** [applyAuthenticatedInfo] at time [now] (Unix seconds). *)
Definition applyAuthenticatedInfo (now : Z) (info : NodeInfoResponse) (host : string) (node : DirectoryNode)
    : DirectoryNode :=
  match ni_PeerMetadata info with
  | None => node
  | Some meta =>
      mkDirectoryNode (dn_HostUUID node) (pm_Name meta) host [host] (dn_ClusterUUID node) true (ni_PeerRecordID info)
        "verified" (verified_services meta) (ni_GPUs info) (ni_CPU info) (ni_Memory info)
        (dn_Models node) (dn_ModelsByEngine node) (dn_LoadedByEngine node) (dn_EngineNative node) now
  end.

Definition withdrawPeer (n : DirectoryNode) : DirectoryNode :=
  mkDirectoryNode (dn_HostUUID n) (dn_Name n) (dn_IP n) (dn_IPs n) (dn_ClusterUUID n) false "" "unverified"
    (dn_Services n) None None None None None None None (dn_LastSeen n).

(** * Caches *)

Definition forget_node (hostUUID : string) (s : scanner) : scanner :=
  set_activity (delete hostUUID (s_lastActivityAt s))
    (set_caches (delete hostUUID (s_lastInfo s)) (delete hostUUID (s_lastInfoAt s)) (delete hostUUID (s_lastModels s))
       (s_nodeInfoDown s ∖ {[ hostUUID ]})
       (set_retries (forget hostUUID (s_retries s)) s)).

(** [noteActivity] at time [now]; the age is clamped before it becomes a duration. *)
Definition noteActivity (now : Z) (hostUUID : string) (msSince : Z) (s : scanner) : scanner :=
  if bool_decide (hostUUID = "") || localNode hostUUID s then s
  else
    let ms := if msSince <? 0 then 0 else msSince in
    let maxMS := Z.quot activityFreshness millisecond in
    let ms := if maxMS <? ms then maxMS else ms in
    let at_ := now - ms * millisecond in
    match s_lastActivityAt s !! hostUUID with
    | Some prev => if at_ <? prev then s else set_activity (<[hostUUID := at_]> (s_lastActivityAt s)) s
    | None => set_activity (<[hostUUID := at_]> (s_lastActivityAt s)) s
    end.

Definition activitySince (now : Z) (hostUUID : string) (s : scanner) : option Z :=
  (fun at_ => time_sub now at_) <$> s_lastActivityAt s !! hostUUID.

Definition noteNodeInfo (hostUUID : string) (ok : bool) (down : gset string) : gset string :=
  if ok then down ∖ {[ hostUUID ]} else {[ hostUUID ]} ∪ down.

(** * Publication and expiry (peer_inventory.go) *)

Definition expireVerified (node : DirectoryNode) (s : scanner) : scanner :=
  let '(dir, removed) := removeIfCurrent node (s_dir s) in
  if negb removed then s
  else emit (NodeRemoved node) (forget_node (dn_HostUUID node) (set_dir dir s)).

(** The candidate a publication came from still says what was proven. *)
Definition hint_holds (candidateKey : string) (node : DirectoryNode) (s : scanner) : bool :=
  if bool_decide (candidateKey = "") then true
  else match s_candidates s !! candidateKey with
       | None => false
       | Some hint => bool_decide (dn_HostUUID hint = dn_HostUUID node) && bool_decide (dn_IP node ∈ CandidateIPs hint)
       end.

(** Models and engine view a new read leaves out are those of the entry it replaces. *)
Definition inherit (prior node : DirectoryNode) : DirectoryNode :=
  let node := if bool_decide (dn_Models node = None)
              then set_views (dn_Models prior) (dn_ModelsByEngine prior) (dn_LoadedByEngine prior) node else node in
  if bool_decide (dn_EngineNative node = None) then set_EngineNative (dn_EngineNative prior) node else node.

Definition store (node : DirectoryNode) (s : scanner) : scanner :=
  emit (NodeUpdated node) (set_dir (upsert node (s_dir s)).1 s).

(** Where a publication stands.  It holds [inventoryMu] from its first step to its last, but
    most handlers do not take that lock, so they may run between any two accesses to the
    shared state. *)
Inductive stage : Type :=
| SCheck | SHint | SPrior | SReplace (prior : DirectoryNode) | SForget | SPreview
| SDrop (preview : DirectoryNode) | SDropped (preview : DirectoryNode) | SUpsert | SAnnounce.

(** A step of [publishVerified]: what it does, and where the publication goes on with
    which entry; [None] when it is over. *)
Definition publishVerified (d : ClusterDir) (now : Z) (st : stage) (node : DirectoryNode) (candidateKey : string)
    (s : scanner) : scanner * option (stage * DirectoryNode) :=
  match st with
  | SCheck => let '(s, current) := currentPeer d now node s in (s, if current then Some (SHint, node) else None)
  | SHint => (s, if hint_holds candidateKey node s then Some (SPrior, node) else None)
  | SPrior =>
      (s, match s_dir s !! dn_HostUUID node with
          | Some prior =>
              if bool_decide (dn_PeerRecordID prior = dn_PeerRecordID node) then
                let node := inherit prior node in
                Some (if sameIgnoringLastSeen prior node then SReplace prior else SPreview, node)
              else Some (SForget, node)
          | None => Some (SPreview, node)
          end)
  | SReplace prior => (set_dir (replaceIfCurrent prior node (s_dir s)).1 s, None)
  | SForget => (forget_node (dn_HostUUID node) s, Some (SPreview, node))
  | SPreview =>
      (s, Some (if bool_decide (candidateKey = "") then SUpsert
                else match s_dir s !! candidateKey with Some preview => SDrop preview | None => SUpsert end, node))
  | SDrop preview => (set_dir (delete candidateKey (s_dir s)) s, Some (SDropped preview, node))
  | SDropped preview => (emit (NodeRemoved preview) s, Some (SUpsert, node))
  | SUpsert => (set_dir (upsert node (s_dir s)).1 s, Some (SAnnounce, node))
  | SAnnounce => (emit (NodeUpdated node) s, None)
  end.

(** * Browsing (onBrowse) *)

Definition browse_ignored (ev : Event) (s : scanner) : bool :=
  let uuid := UUIDFromTXT (n_TXT (ev_Node ev)) in
  negb (bool_decide (uuid = "")) && bool_decide (uuid = own_host s).

Definition browse_removed (key : string) (s : scanner) : scanner :=
  let s := set_candidates (delete key (s_candidates s)) s in
  match s_dir s !! key with
  | None => s
  | Some prior => emit (NodeRemoved prior) (set_dir (delete key (s_dir s)) s)
  end.

(** The peer stayed silent through a sweep: whether it expires, which it does once its proof
    is 45 seconds old and it has not been serving.  [now] is in nanoseconds, [LastSeen] in
    seconds. *)
Definition sweep_failed (now : Z) (old : DirectoryNode) (s : scanner) : bool :=
  ServicePeer old && (45 * second <? time_sub now (dn_LastSeen old * second))
  && match activitySince now (dn_HostUUID old) s with Some age => activityFreshness <? age | None => true end.

(** * This node (publishSelf) *)

(** The local enrichment over loopback.  [ask_info] and [ask_models] are the two reads. *)
Definition enrich_self_info (now : Z) (ask_info : string -> option NodeInfoResponse) (node : DirectoryNode)
    (s : scanner) : scanner * DirectoryNode :=
  let node := with_verification (dn_Trusted node) (dn_PeerRecordID node) "local" node in
  match dn_Services node !! ServiceNodeInfo with
  | None => (s, node)
  | Some _ =>
      let ask host :=
        match ask_info host with
        | None => None
        | Some candidate =>
            if negb (bool_decide (ni_HostUUID candidate = "")) && negb (bool_decide (dn_HostUUID node = ""))
               && negb (bool_decide (ni_HostUUID candidate = dn_HostUUID node)) then None
            else Some candidate
        end in
      let '(mem, r) := askRemembered ask (dn_HostUUID node, ServiceNodeInfo) [loopbackHost] (s_enrichHosts s) in
      let s := set_enrichHosts mem s in
      let down := noteNodeInfo (dn_HostUUID node) (bool_decide (is_Some r)) (s_nodeInfoDown s) in
      match r with
      | Some (_, info) =>
          (set_caches (<[dn_HostUUID node := info]> (s_lastInfo s)) (<[dn_HostUUID node := now]> (s_lastInfoAt s))
             (s_lastModels s) down s, with_inventory info node)
      | None =>
          (set_caches (s_lastInfo s) (s_lastInfoAt s) (s_lastModels s) down s,
           match s_lastInfo s !! dn_HostUUID node with Some info => with_inventory info node | None => node end)
      end
  end.

(** [enrichModelsCandidates] for a local node that runs an engine manager. *)
Definition enrich_local_models (hosts : list string) (ask_models : string -> option modelInventory)
    (node : DirectoryNode) (s : scanner) : scanner * DirectoryNode :=
  match dn_Services node !! ServiceEngineManager with
  | None => (s, node)
  | Some _ =>
      let '(mem, r) := askRemembered ask_models (dn_HostUUID node, ServiceEngineManager) hosts (s_enrichHosts s) in
      let s := set_enrichHosts mem s in
      match r with
      | Some (_, i) =>
          (set_caches (s_lastInfo s) (s_lastInfoAt s) (<[dn_HostUUID node := i]> (s_lastModels s)) (s_nodeInfoDown s) s,
           with_models i node)
      | None =>
          (s, match s_lastModels s !! dn_HostUUID node with Some i => with_models i node | None => node end)
      end
  end.

(** The self entry as the registry describes it. *)
Definition self_node (now : Z) (s : scanner) : DirectoryNode :=
  let r := Registry.record (s_reg s) in
  let '(ip, ips) := if bool_decide (rec_IP r = "") then (loopbackHost, [loopbackHost]) else (rec_IP r, rec_IPs r) in
  set_LastSeen now
    (bare_node (rec_HostUUID r) (s_instance s) ip ips (rec_ClusterUUID r)
       (negb (bool_decide (rec_ClusterUUID r = "")) && HasPin (s_mesh s) (rec_ClusterUUID r)) "" "local"
       ((fun port => mkServiceStatus port "") <$> rec_Services r)).

Definition stored_or (node : DirectoryNode) (s : scanner) : DirectoryNode := default node (s_dir s !! RecordKey node).

(** [publishSelfLockedIf]: the caller holds the self lock throughout. *)
Definition publishSelf (d : ClusterDir) (now : Z) (ask_info : string -> option NodeInfoResponse)
    (ask_models : string -> option modelInventory) (shouldEmit : option (DirectoryNode -> bool)) (s : scanner) : scanner :=
  if bool_decide (own_host s = "") then s
  else
    let s := if bool_decide (Registry.r_cluUUID (s_reg s) = "") then s else refresh d s in
    let '(s, node) := enrich_self_info now ask_info (self_node now s) s in
    let '(s, node) := enrich_local_models [loopbackHost] ask_models node s in
    let '(dir, isNew) := upsert node (s_dir s) in
    let s := set_dir dir s in
    let stored := stored_or node s in
    if isNew then emit (NodeDiscovered stored) s
    else match shouldEmit with
         | Some f => if f stored then emit (NodeUpdated stored) s else s
         | None => emit (NodeUpdated stored) s
         end.

Definition refreshSelfOnce (d : ClusterDir) (now : Z) (ask_info : string -> option NodeInfoResponse)
    (ask_models : string -> option modelInventory) (s : scanner) : scanner :=
  if bool_decide (own_host s = "") then s
  else match s_dir s !! own_host s with
       | None => publishSelf d now ask_info ask_models None s
       | Some before =>
           publishSelf d now ask_info ask_models (Some (fun after => negb (sameIgnoringLastSeen before after))) s
       end.

Definition move_key {A} (old new : string) (m : gmap string A) : gmap string A :=
  match m !! old with Some x => delete old (<[new := x]> m) | None => delete old m end.

Definition dropSelf (old new : string) (s : scanner) : scanner :=
  let node := s_dir s !! old in
  let s := set_dir (delete old (s_dir s)) s in
  let s := set_caches (move_key old new (s_lastInfo s)) (move_key old new (s_lastInfoAt s))
             (move_key old new (s_lastModels s)) (s_nodeInfoDown s) s in
  match node with
  | Some n => emit (NodeRemoved (bare_node old (dn_Name n) "" [] "" false "" "" ∅)) s
  | None => s
  end.

(** [reloadIdentity] up to the republication of the self entry: the resolved identity and
    the ranked addresses are inputs; the result tells whether the entry is republished. *)
Definition reloadIdentity (d : ClusterDir) (hostUUID : string) (ips : list string) (s : scanner) : scanner * bool :=
  let old := own_host s in
  let s := refresh d s in
  let cluUUID := if Clustered (s_mesh s) then NodeUUID (s_mesh s) else "" in
  let '(reg, changed) := Registry.setIdentity hostUUID cluUUID ips (s_reg s) in
  if negb changed then (s, false)
  else
    let s := set_reg reg s in
    (if negb (bool_decide (old = "")) && negb (bool_decide (old = hostUUID)) then dropSelf old hostUUID s else s, true).

(** [reconcileIdentity]'s test. *)
Definition identity_stale (s : scanner) : bool :=
  negb (bool_decide (Registry.r_cluUUID (s_reg s) = if Clustered (s_mesh s) then NodeUUID (s_mesh s) else "")).

(** * Address evidence *)

Definition peerAddresses (s : scanner) : list string :=
  snapshot "" (s_dir s) ≫= fun n =>
    if bool_decide (dn_HostUUID n = own_host s) then []
    else (if bool_decide (dn_IP n = "") then [] else [dn_IP n]) ++ dn_IPs n.

Definition localAddresses (ifaces : list localIface) (routeIP : string) (sendFailures observed : gmap string bool)
    (s : scanner) : list string :=
  rankLocal ifaces (mkEvidence sendFailures (facingPeers ifaces (peerAddresses s)) observed) routeIP.

(** * Liveness (reachable, identityAlive) *)

Definition first_open (dial : string -> Z -> bool) (rec_ : NodeRecord) (ips : list string) : bool :=
  existsb (fun ip =>
    existsb (fun svc => match rec_Port rec_ svc with Some port => dial ip port | None => false end)
      [ServiceNodeInfo; ServiceEngineManager]) ips.

(** The verdict of the machines at the addresses: [None] when it is inconclusive. *)
Fixpoint identity_walk (probe : string -> option NodeInfoResponse) (uuid : string) (mismatch : bool) (ips : list string)
    : option bool :=
  match ips with
  | [] => if mismatch then Some false else None
  | ip :: ips =>
      if bool_decide (ip = "") then identity_walk probe uuid mismatch ips
      else match probe ip with
           | None => identity_walk probe uuid mismatch ips
           | Some info =>
               if bool_decide (ni_HostUUID info = "") then identity_walk probe uuid mismatch ips
               else if bool_decide (ni_HostUUID info = uuid) then Some true
               else identity_walk probe uuid true ips
           end
  end.

Definition identityAlive (probe : string -> option NodeInfoResponse) (rec_ : NodeRecord) (ips : list string) : option bool :=
  if bool_decide (rec_HostUUID rec_ = "") then None
  else match rec_Port rec_ ServiceNodeInfo with
       | None => None
       | Some _ => identity_walk probe (rec_HostUUID rec_) false ips
       end.

(** Fresh evidence that needs no probe. *)
Definition vouched (now : Z) (hostUUID : string) (s : scanner) : bool :=
  match s_lastInfoAt s !! hostUUID with
  | Some at_ => time_sub now at_ <? reachableInfoFreshness
  | None => false
  end
  || match activitySince now hostUUID s with Some since => since <? activityFreshness | None => false end.

Definition reachable (now : Z) (dial : string -> Z -> bool) (probe : string -> option NodeInfoResponse)
    (n : Node) (s : scanner) : bool :=
  let rec_ := ParseTXT (n_TXT n) in
  let candidates := Candidates (n_TXT n) (n_Addresses n) in
  match candidates with
  | [] => false
  | _ =>
      let own := negb (bool_decide (rec_HostUUID rec_ = "")) && bool_decide (rec_HostUUID rec_ = own_host s) in
      let candidates := if own then [loopbackHost] else candidates in
      if negb (bool_decide (rec_HostUUID rec_ = "")) && vouched now (rec_HostUUID rec_) s then true
      else if negb (first_open dial rec_ candidates) then false
      else match identityAlive probe rec_ candidates with Some alive => alive | None => true end
  end.

(** * Telemetry *)

Definition maxTelemetryAge : Z := 2 ^ 63 - 1.

(** The age reported: the one the node gave, plus the time the read took, saturated. *)
Definition telemetry_age (valid : bool) (msSince elapsed : Z) : Z :=
  if valid then
    let age := if msSince <? 0 then 0 else msSince in
    if maxTelemetryAge - age <? elapsed then maxTelemetryAge else age + elapsed
  else 0.

Definition max_utilization (gpus : list GPUInfo) : Z :=
  foldl (fun u g => match gpu_UtilizationPercent g with Some r => if u <? r then r else u | None => u end) 0 gpus.
End Scanner.

(** * Facts *)

Section Facts.
Context `{!MapRange, !Sha256, !Pki, !Tls}.

Definition names (probe : string -> option NodeInfoResponse) (uuid ip : string) : Prop :=
  ip <> "" /\ exists info, probe ip = Some info /\ ni_HostUUID info = uuid.

(** The verdict of the machines: one that names the record's host settles it, else one that
    names another refutes it, else there is none. *)
Lemma identity_walk_spec probe uuid mismatch ips : uuid <> "" ->
  match identity_walk probe uuid mismatch ips with
  | Some true => exists ip, ip ∈ ips /\ names probe uuid ip
  | Some false => (forall ip, ip ∈ ips -> ~ names probe uuid ip) /\
      (mismatch = true \/ exists ip other, ip ∈ ips /\ other <> "" /\ names probe other ip)
  | None => mismatch = false /\ forall ip other, ip ∈ ips -> other <> "" -> ~ names probe other ip
  end.
Proof.
  intros Hu. revert mismatch. induction ips as [|ip ips IH]; intros mm; cbn [identity_walk].
  - destruct mm; [split; [by intros ? ?%elem_of_nil | by left] | split; [done | by intros ? ? ?%elem_of_nil]].
  - assert (forall m' : bool, (forall other, other <> "" -> ~ names probe other ip) -> m' = mm ->
      match identity_walk probe uuid m' ips with
      | Some true => exists ip', ip' ∈ ip :: ips /\ names probe uuid ip'
      | Some false => (forall ip', ip' ∈ ip :: ips -> ~ names probe uuid ip') /\
          (mm = true \/ exists ip' other, ip' ∈ ip :: ips /\ other <> "" /\ names probe other ip')
      | None => mm = false /\ forall ip' other, ip' ∈ ip :: ips -> other <> "" -> ~ names probe other ip'
      end) as Hskip.
    { intros m' Hno ->. specialize (IH mm). destruct (identity_walk probe uuid mm ips) as [[]|].
      - destruct IH as (x & ? & ?). exists x. split; [by right | done].
      - destruct IH as [Hn Hm]. split.
        + intros x [-> |Hx]%elem_of_cons; [by apply Hno | by apply Hn].
        + destruct Hm as [|(x & o & ? & ?)]; [by left | right]. exists x, o. split; [by right | done].
      - destruct IH as [Hm Hn]. split; [done |]. intros x o [-> |Hx]%elem_of_cons Ho; [by apply Hno | by apply Hn]. }
    case_bool_decide as Ei; [apply Hskip; [by intros o _ [? _] | done] |].
    destruct (probe ip) as [info|] eqn:Ep; [| apply Hskip; [intros o _ (_ & i & ? & _); congruence | done]].
    case_bool_decide as Ee; [apply Hskip; [intros o ? (_ & i & ? & ?); congruence | done] |].
    case_bool_decide as Eu.
    + exists ip. split; [by left |]. split; [done | by exists info].
    + specialize (IH true). destruct (identity_walk probe uuid true ips) as [[]|]; [| | by destruct IH].
      * destruct IH as (x & ? & ?). exists x. split; [by right | done].
      * destruct IH as [Hn _]. split.
        -- intros x [-> |Hx]%elem_of_cons; [| by apply Hn]. intros (_ & i & Hi & <-). congruence.
        -- right. exists ip, (ni_HostUUID info). split_and!; [by left | done |]. split; [done | by exists info].
Qed.

(** A wiped machine does not keep its old record alive: when no fresh evidence vouches for
    the record, no address names its host and one names another, it is not reachable,
    however many ports are open. *)
Lemma wiped_unreachable now dial probe (n : Node) (s : scanner) (ip other : string) (port : Z) :
  let rec_ := ParseTXT (n_TXT n) in
  rec_HostUUID rec_ <> "" -> rec_HostUUID rec_ <> own_host s -> rec_Port rec_ ServiceNodeInfo = Some port ->
  vouched now (rec_HostUUID rec_) s = false ->
  (forall ip, ip ∈ Candidates (n_TXT n) (n_Addresses n) -> ~ names probe (rec_HostUUID rec_) ip) ->
  ip ∈ Candidates (n_TXT n) (n_Addresses n) -> other <> "" -> names probe other ip ->
  reachable now dial probe n s = false.
Proof.
  intros rec_ Hu Hown Hp Hv Hno Hin Ho Hname. unfold reachable. fold rec_.
  destruct (Candidates (n_TXT n) (n_Addresses n)) as [|c cs] eqn:Ec; [done |].
  rewrite (bool_decide_false (rec_HostUUID rec_ = "")), (bool_decide_false (rec_HostUUID rec_ = own_host s)), Hv by done.
  cbn [negb andb]. case_bool; [done |]. unfold identityAlive. rewrite bool_decide_false by done. rewrite Hp.
  pose proof (identity_walk_spec probe (rec_HostUUID rec_) false (c :: cs) Hu) as Hw.
  destruct (identity_walk _ _ _ _) as [[]|]; [| done |].
  - destruct Hw as (x & Hx & Hnx). by apply Hno in Hnx.
  - destruct Hw as [_ Hw]. by apply (Hw ip other) in Hname.
Qed.

(** What vouches for a peer is never stamped in the future nor more than a minute back. *)
Lemma activity_bounded now host ms (s : scanner) at_ :
  s_lastActivityAt (noteActivity now host ms s) !! host = Some at_ -> s_lastActivityAt s !! host <> Some at_ ->
  now - activityFreshness <= at_ <= now.
Proof.
  unfold noteActivity, activityFreshness. change (Z.quot (60 * second) millisecond) with 60000.
  set (x := if ms <? 0 then 0 else ms). assert (0 <= x) as Hx by (subst x; case_bool; unbool; lia).
  set (y := if 60000 <? x then 60000 else x). assert (0 <= y <= 60000) as Hy by (subst y; case_bool; unbool; lia).
  intros Hn Ho. unfold second, millisecond in *.
  repeat (case_match || case_bool); cbn in Hn; try congruence; rewrite lookup_insert_eq in Hn; injection Hn as <-; lia.
Qed.

(** A reported age is at least what the node said and never wraps. *)
Lemma telemetry_age_bounds valid ms elapsed : 0 <= elapsed <= maxTelemetryAge -> ms <= maxTelemetryAge ->
  0 <= telemetry_age valid ms elapsed <= maxTelemetryAge /\
  (valid = true -> telemetry_age valid ms elapsed = Z.min maxTelemetryAge (Z.max 0 ms + elapsed)).
Proof.
  unfold telemetry_age. intros He Hm. destruct valid; [| split; [unfold maxTelemetryAge; lia | done]].
  destruct (Z.ltb_spec ms 0); case_bool; unbool; split; intros; lia.
Qed.
End Facts.
