(* ===== verification/ScannerSteps.v ===== *)
(** The node scanner's handlers running side by side (services/nvpair-node-scanner:
    daemon.go, peer_inventory.go).

    A handler between two waits, for the network or for [inventoryMu], is one event of
    [act]; what it carries over a wait is a [task].  Browse events, the sweeps over
    membership, models and engine views, the trust pass of [reloadTrust] and the
    republication of this node interleave in any order and number, except that the trust
    passes, which the read loop runs, come one after the other.

    [inventoryMu] orders publications, the writes of fetched models and views and expiries
    among themselves ([locked]), and nothing else: the trust pass reads the directory and
    the mesh without it.  So a publication and the write of a fetch are tasks that hold the
    lock over several events, one for each access to the shared state, and everything that
    does not take the lock may fall in between.  An expiry, whose one access to the
    directory decides it, is one event that needs the lock to be free.

    The log records every authenticated read that was accepted, with the answer and the
    state of the mesh that accepted it.  *)
From S2P Require Import Prelude.
From S2P Require Import GoStd.
From S2P Require Import GoBytes.
From S2P Require Import Json.
From S2P Require Import EngineNative.
From S2P Require Import Noderec.
From S2P Require Import Netpick.
From S2P Require Import ClusterTrust.
From S2P Require Import Mesh.
From S2P Require Import Browser.
From S2P Require Import RetryGate.
From S2P Require Import NodeDirectory.
From S2P Require Import Scanner.

Open Scope string_scope.
Open Scope list_scope.
Open Scope Z_scope.

(** * Tasks *)

(** Who reads: the browse handler, for the candidate at a key, or the membership sweep. *)
Inductive purpose : Type := ForBrowse (candidateKey : string) | ForSweep.

(** A pass of [authenticatedInfo] over the addresses of an entry. *)
Record read : Type := mkRead {
  rd_node : DirectoryNode; rd_purpose : purpose; rd_port : Z; rd_hosts : list string
}.

Definition with_hosts (hosts : list string) (r : read) : read := mkRead (rd_node r) (rd_purpose r) (rd_port r) hosts.

Inductive fetched : Type := Models | EngineView.

(** A refresh of one node's models or engine view ([refreshNodeModelsCandidates],
    [refreshNodeEngineNative]). *)
Record fetch : Type := mkFetch {
  fe_what : fetched; fe_host : string; fe_guardIP : string; fe_hosts : list string; fe_port : Z
}.

(** What a fetch brought, and where its write stands. *)
Inductive got : Type := GotModels (i : modelInventory) | GotView (st : Stats).
Inductive apply_stage : Type := ACache | AApply | AAnnounce (n : DirectoryNode).

Inductive task : Type :=
| TSweep (key : string) (hosts : list string) (port : Z)
| TAuth (r : read)
| TRead (r : read)
| TWait (r : read) (host : string) (p : Pending)
| TPlain (node : DirectoryNode) (hosts : list string) (key : string)
| TModels (node : DirectoryNode) (hosts : list string) (key : string)
| TModelsWait (node : DirectoryNode) (hosts : list string) (key : string) (local : bool)
| TBrowsed (node : DirectoryNode) (key : string)
| TPublish (node : DirectoryNode) (key : string)
| TFetch (f : fetch)
| TFetchWait (f : fetch) (before : string)
| TFetched (f : fetch) (before : string) (g : got)
| TExpire (n : DirectoryNode)
| TPublishing (st : stage) (node : DirectoryNode) (key : string)
| TApplying (st : apply_stage) (f : fetch) (g : got).

(** The task holds [inventoryMu]. *)
Definition holds (t : task) : bool :=
  match t with TPublishing _ _ _ | TApplying _ _ _ => true | _ => false end.
Definition locked (flight : list task) : bool := existsb holds flight.

(** The handler of [reloadTrust]. *)
Inductive pass : Type :=
| PIdle
| PIdentity
| PCheck (todo : list DirectoryNode)
| PExpire (n : DirectoryNode) (todo : list DirectoryNode).

(** An accepted authenticated read. *)
Record proof : Type := mkProof {
  pf_principal : string; pf_record : string; pf_host : string; pf_info : NodeInfoResponse;
  pf_answer : Response; pf_mesh : Mesh; pf_time : Z
}.

Record sys : Type := mkSys {
  y_scanner : scanner; y_flight : list task; y_pass : pass; y_passes : nat; y_log : list proof
}.

(** What the network says of this node itself. *)
Record selfAnswers : Type := mkSelf {
  sa_info : string -> option NodeInfoResponse; sa_models : string -> option modelInventory
}.

Inductive event : Type :=
| EBrowse (d : ClusterDir) (now : Z) (ev : Event)
| ESweep (key : string)
| ELookup (i : nat)
| EClient (i : nat) (d : ClusterDir) (now : Z)
| ERequest (i : nat) (d : ClusterDir) (now sweptAt : Z)
| EAnswer (i : nat) (d : ClusterDir) (now seen : Z) (resp : option Response)
| EPlain (i : nat) (info : option NodeInfoResponse)
| EModels (i : nat) (d : ClusterDir) (now : Z)
| EModelsAnswer (i : nat) (d : ClusterDir) (now : Z) (ask : string -> option modelInventory)
| EBrowsed (i : nat)
| ELock (i : nat) (d : ClusterDir) (now : Z)
| EWrite (i : nat) (d : ClusterDir) (now : Z)
| EFetch (what : fetched) (key : string)
| EFetchStart (i : nat) (d : ClusterDir) (now : Z)
| EFetchModels (i : nat) (ask : string -> option modelInventory)
| EFetchView (i : nat) (ask : string -> option Stats)
| ERefresh (d : ClusterDir)
| EReloadTrust (d : ClusterDir)
| EReconcileIdentity (d : ClusterDir) (hostUUID : string) (ips : list string)
| ECheck (d : ClusterDir) (now : Z)
| EExpire
| EReloadIdentity (d : ClusterDir) (hostUUID : string) (ips : list string)
| EPublishSelf (d : ClusterDir) (now : Z) (a : selfAnswers)
| ERefreshSelf (d : ClusterDir) (now : Z) (a : selfAnswers)
| ERefreshAddresses (ips : list string)
| ERegister (service : string) (port : Z)
| EUnregister (service : string)
| EActivity (now : Z) (hostUUID : string) (msSince : Z).

Section Steps.
Context `{!MapRange, !Sha256, !Pki, !Tls}.
Context (decode_info : string -> option NodeInfoResponse).

(** * Handlers between their waits *)

(** [authenticatedInfo] gave up: a browsed node goes on as an unverified preview, with its
    public inventory unless it is pinned; a swept peer may expire. *)
Definition read_failed (now : Z) (r : read) (s : scanner) : scanner * list task :=
  let node := rd_node r in
  match rd_purpose r with
  | ForBrowse key =>
      let hosts := CandidateIPs node in
      (s, [if HasPin (s_mesh s) (dn_ClusterUUID node) || negb (HasService node ServiceNodeInfo)
           then TModels node hosts key else TPlain node hosts key])
  | ForSweep => (s, if sweep_failed now node s then [TExpire node] else [])
  end.

Definition read_done (now : Z) (r : read) (info : NodeInfoResponse) (host : string) (s : scanner) : scanner * list task :=
  let node := rd_node r in
  match rd_purpose r with
  | ForBrowse key => (s, [TModels (applyAuthenticatedInfo now info host node) (CandidateIPs node) key])
  | ForSweep =>
      let fresh := if bool_decide (dn_PeerRecordID node = ni_PeerRecordID info) then node else withdrawPeer node in
      let key := if bool_decide (dn_IdentityVerification node = "unverified") then RecordKey node else "" in
      (s, [TPublish (applyAuthenticatedInfo now info host fresh) key])
  end.

Definition on_browse (d : ClusterDir) (now : Z) (ev : Event) (s : scanner) : scanner * list task :=
  if browse_ignored ev s then (s, [])
  else
    let s := refresh d s in
    match toDirectoryNode now (ev_Node ev) with
    | None => (s, [])
    | Some node =>
        let key := RecordKey node in
        if bool_decide (ev_Type ev = Removed) then (browse_removed key s, [])
        else
          let s := set_candidates (<[key := node]> (s_candidates s)) s in
          let node := with_verification false (dn_PeerRecordID node) "unverified" node in
          match dn_Services node !! ServiceNodeInfo with
          | Some ni => (s, [TAuth (mkRead node (ForBrowse key) (ss_Port ni) (CandidateIPs node))])
          | None => read_failed now (mkRead node (ForBrowse key) 0 []) s
          end
    end.

(** [refreshClusterIdentityOnce] at a key of the directory or, failing that, the candidates. *)
Definition swept (key : string) (s : scanner) : option task :=
  let candidate := s_candidates s !! key in
  match (match s_dir s !! key with
         | Some n => if HasService n ServiceNodeInfo then Some n else candidate
         | None => candidate
         end) with
  | Some n =>
      match dn_Services n !! ServiceNodeInfo with
      | Some ni =>
          if bool_decide (dn_IP n = "") || bool_decide (dn_HostUUID n = own_host s) then None
          else Some (TSweep key (CandidateIPs n) (ss_Port ni))
      | None => None
      end
  | None => None
  end.

Definition lookup_swept (key : string) (hosts : list string) (port : Z) (s : scanner) : list task :=
  match (match s_dir s !! key with Some old => Some old | None => s_candidates s !! key end) with
  | Some old => if localNode (dn_HostUUID old) s then [] else [TAuth (mkRead old ForSweep port hosts)]
  | None => []
  end.

(** The start of [enrichModelsCandidates]. *)
Definition models_start (d : ClusterDir) (now : Z) (node : DirectoryNode) (hosts : list string) (key : string)
    (s : scanner) : scanner * list task :=
  let '(s, current) := currentPeer d now node s in
  if negb current then (s, [TBrowsed node key])
  else
    let local := localNode (dn_HostUUID node) s in
    let hosts := if local then hosts else CandidateIPs node in
    if HasService node ServiceEngineManager && negb (bool_decide (hosts = [])) then (s, [TModelsWait node hosts key local])
    else (s, [TBrowsed node key]).

Definition models_answer (d : ClusterDir) (now : Z) (ask : string -> option modelInventory) (node : DirectoryNode)
    (hosts : list string) (key : string) (local : bool) (s : scanner) : scanner * list task :=
  if local then let '(s, node) := enrich_local_models hosts ask node s in (s, [TBrowsed node key])
  else
    let '(mem, r) := askRemembered ask (dn_HostUUID node, ServiceEngineManager) hosts (s_enrichHosts s) in
    let s := set_enrichHosts mem s in
    match r with
    | Some (_, i) =>
        let '(s, current) := currentPeer d now node s in
        (s, [TBrowsed (if current then with_models i node else node) key])
    | None => (s, [TBrowsed node key])
    end.

(** The end of [onBrowse]. *)
Definition browsed (node : DirectoryNode) (key : string) (s : scanner) : scanner * list task :=
  if ServicePeer node then (s, [TPublish node key]) else (store node s, []).

Definition publishing (d : ClusterDir) (now : Z) (st : stage) (node : DirectoryNode) (key : string) (s : scanner)
    : scanner * list task :=
  let '(s, next) := publishVerified d now st node key s in
  (s, match next with Some (st, node) => [TPublishing st node key] | None => [] end).

(** [refreshModelsOnce] and [refreshEngineNativeOnce] at a key of the directory. *)
Definition fetch_of (what : fetched) (key : string) (s : scanner) : option task :=
  match s_dir s !! key with
  | Some n =>
      match dn_Services n !! ServiceEngineManager with
      | Some em =>
          if ServicePeer n && negb (bool_decide (dn_IP n = ""))
          then Some (TFetch (mkFetch what (dn_HostUUID n) (dn_IP n) (CandidateIPs n) (ss_Port em))) else None
      | None => None
      end
  | None => None
  end.

Definition fetch_start (d : ClusterDir) (now : Z) (f : fetch) (s : scanner) : scanner * list task :=
  let ask hosts before := TFetchWait (mkFetch (fe_what f) (fe_host f) (fe_guardIP f) hosts (fe_port f)) before in
  if localNode (fe_host f) s
  then (s, [ask [loopbackHost] (from_option dn_PeerRecordID "" (s_dir s !! fe_host f))])
  else match s_dir s !! fe_host f with
       | None => (s, [])
       | Some before =>
           let '(s, current) := currentPeer d now before s in
           (s, if current then [ask (fe_hosts f) (dn_PeerRecordID before)] else [])
       end.

(** The entry still is the one the fetch was made for. *)
Definition still_fetched (d : ClusterDir) (now : Z) (f : fetch) (before : string) (s : scanner) : scanner * bool :=
  if localNode (fe_host f) s then (s, true)
  else match s_dir s !! fe_host f with
       | None => (s, false)
       | Some after =>
           if bool_decide (before = dn_PeerRecordID after) then currentPeer d now after s else (s, false)
       end.

(** The answer of a fetch, before it waits for the lock. *)
Definition answered {T} (wrap : T -> got) (ask : string -> option T) (f : fetch) (before : string) (s : scanner)
    : scanner * list task :=
  let '(mem, r) := askRemembered ask (fe_host f, ServiceEngineManager) (fe_hosts f) (s_enrichHosts s) in
  (set_enrichHosts mem s, match r with Some (_, v) => [TFetched f before (wrap v)] | None => [] end).
Definition fetch_models : (string -> option modelInventory) -> fetch -> string -> scanner -> scanner * list task :=
  answered GotModels.
Definition fetch_view : (string -> option Stats) -> fetch -> string -> scanner -> scanner * list task :=
  answered GotView.

(** Under the lock: the check, and the steps of the write. *)
Definition fetch_check (d : ClusterDir) (now : Z) (f : fetch) (before : string) (g : got) (s : scanner)
    : scanner * list task :=
  let '(s, current) := still_fetched d now f before s in
  (s, if current then [TApplying (match g with GotModels _ => ACache | GotView _ => AApply end) f g] else []).

Definition apply_got (f : fetch) (g : got) (dir : directory) : directory * (DirectoryNode * bool * bool) :=
  match g with
  | GotModels i =>
      applyModels (fe_host f) (fe_guardIP f) (fe_port f) (mi_models i) (mi_byEngine i) (mi_loadedByEngine i) dir
  | GotView stats => applyEngineNative (fe_host f) (fe_guardIP f) (fe_port f) (Some stats) dir
  end.

Definition applying (st : apply_stage) (f : fetch) (g : got) (s : scanner) : scanner * list task :=
  match st with
  | ACache =>
      (match g with
       | GotModels i => set_caches (s_lastInfo s) (s_lastInfoAt s) (<[fe_host f := i]> (s_lastModels s)) (s_nodeInfoDown s) s
       | GotView _ => s
       end, [TApplying AApply f g])
  | AApply =>
      let '(dir, (node, changed, _)) := apply_got f g (s_dir s) in
      (set_dir dir s, if changed then [TApplying (AAnnounce node) f g] else [])
  | AAnnounce node => (emit (NodeUpdated node) s, [])
  end.

(** [reloadIdentity], whose republication of this node is an event of its own. *)
Definition reload_self (d : ClusterDir) (hostUUID : string) (ips : list string) (s : scanner) : scanner :=
  (reloadIdentity d hostUUID ips s).1.

(** One entry of [reconcileTrust]. *)
Definition check_entry (d : ClusterDir) (now : Z) (n : DirectoryNode) (todo : list DirectoryNode) (s : scanner)
    : scanner * pass :=
  if localNode (dn_HostUUID n) s || negb (dn_Trusted n) then (s, PCheck todo)
  else let '(s, current) := currentPeer d now n s in
       (s, if current then PCheck todo else PExpire n todo).

(** * The system *)

(** An authenticated read accepted in the state it leads to. *)
Definition read_answer (d : ClusterDir) (now seen : Z) (r : read) (host : string) (p : Pending) (resp : option Response)
    (s : scanner) : scanner * list task * list proof :=
  let '(m, result) := end_read decode_info nodeInfoResponseLimit d now p resp (s_mesh s) in
  let s := set_mesh m s in
  match result with
  | Some (principal, record, info) =>
      if info_ok principal (rd_port r) info then
        let info := with_record record info in
        (read_done seen r info host s,
         match resp with Some answer => [mkProof principal record host info answer m now] | None => [] end)
      else (s, [TRead r], [])
  | None => (s, [TRead r], [])
  end.

(** What becomes of a task; [None] when the event is not one of that task. *)
Definition advance (e : event) (t : task) (s : scanner) : option (scanner * list task * list proof) :=
  match e, t with
  | ELookup _, TSweep key hosts port => Some (s, lookup_swept key hosts port s, [])
  | EClient _ d now, TAuth r =>
      let '(s, ok) := start_read d (rd_node r) s in
      Some (if ok then (s, [TRead r]) else read_failed now r s, [])
  | ERequest _ d now sweptAt, TRead r =>
      match rd_hosts r with
      | [] => Some (read_failed sweptAt r s, [])
      | host :: hosts =>
          let '(m, pending) := begin_read d now (dn_ClusterUUID (rd_node r)) (s_mesh s) in
          let r := with_hosts hosts r in
          Some (set_mesh m s, [match pending with Some p => TWait r host p | None => TRead r end], [])
      end
  | EAnswer _ d now seen resp, TWait r host p => Some (read_answer d now seen r host p resp s)
  | EPlain _ info, TPlain node hosts key =>
      Some (s, [TModels (match info with Some i => with_inventory i node | None => node end) hosts key], [])
  | EModels _ d now, TModels node hosts key => Some (models_start d now node hosts key s, [])
  | EModelsAnswer _ d now ask, TModelsWait node hosts key local =>
      Some (models_answer d now ask node hosts key local s, [])
  | EBrowsed _, TBrowsed node key => Some (browsed node key s, [])
  | ELock _ d now, TPublish node key => Some (publishing d now SCheck node key s, [])
  | ELock _ d now, TFetched f before g => Some (fetch_check d now f before g s, [])
  | ELock _ d now, TExpire n => Some (expireVerified n s, [], [])
  | EWrite _ d now, TPublishing st node key => Some (publishing d now st node key s, [])
  | EWrite _ d now, TApplying st f g => Some (applying st f g s, [])
  | EFetchStart _ d now, TFetch f => Some (fetch_start d now f s, [])
  | EFetchModels _ ask, TFetchWait f before =>
      match fe_what f with Models => Some (fetch_models ask f before s, []) | EngineView => None end
  | EFetchView _ ask, TFetchWait f before =>
      match fe_what f with EngineView => Some (fetch_view ask f before s, []) | Models => None end
  | _, _ => None
  end.

(** The task an event is about. *)
Definition task_of (e : event) : option nat :=
  match e with
  | ELookup i | EClient i _ _ | ERequest i _ _ _ | EAnswer i _ _ _ _ | EPlain i _ | EModels i _ _
  | EModelsAnswer i _ _ _ | EBrowsed i | ELock i _ _ | EWrite i _ _ | EFetchStart i _ _ | EFetchModels i _
  | EFetchView i _ => Some i
  | _ => None
  end.

(** The event takes [inventoryMu], so it waits while a task holds it. *)
Definition takes_lock (e : event) : bool := match e with ELock _ _ _ | EExpire => true | _ => false end.

(** The events of no task: what happens to the scanner and which tasks start. *)
Definition arise (e : event) (s : scanner) : option (scanner * list task) :=
  let started (t : option task) := (fun t => (s, [t])) <$> t in
  match e with
  | EBrowse d now ev => Some (on_browse d now ev s)
  | ESweep key => started (swept key s)
  | EFetch what key => started (fetch_of what key s)
  | ERefresh d => Some (refresh d s, [])
  | EReloadIdentity d hostUUID ips => Some (reload_self d hostUUID ips s, [])
  | EPublishSelf d now a => Some (publishSelf d now (sa_info a) (sa_models a) None s, [])
  | ERefreshSelf d now a => Some (refreshSelfOnce d now (sa_info a) (sa_models a) s, [])
  | ERefreshAddresses ips => Some (set_reg (Registry.setAddresses ips (s_reg s)).1 s, [])
  | ERegister service port => Some (set_reg (Registry.register service port (s_reg s)).1 s, [])
  | EUnregister service => Some (set_reg (Registry.unregister service (s_reg s)).1 s, [])
  | EActivity now hostUUID msSince => Some (noteActivity now hostUUID msSince s, [])
  | _ => None
  end.

(** The events of the trust pass; the flag tells that the pass is over. *)
Definition trust_pass (e : event) (p : pass) (s : scanner) : option (scanner * pass * bool) :=
  match e, p with
  | EReloadTrust d, PIdle => Some (refresh d s, PIdentity, false)
  | EReconcileIdentity d hostUUID ips, PIdentity =>
      let s := if identity_stale s then reload_self d hostUUID ips s else s in
      Some (s, PCheck (snapshot "" (s_dir s)), false)
  | ECheck d now, PCheck (n :: todo) => Some (check_entry d now n todo s, false)
  | ECheck d now, PCheck [] => Some (s, PIdle, true)
  | EExpire, PExpire n todo => Some (expireVerified n s, PCheck todo, false)
  | _, _ => None
  end.

Definition act (e : event) (y : sys) : option sys :=
  if takes_lock e && locked (y_flight y) then None else
  match task_of e with
  | Some i =>
      match y_flight y !! i with
      | Some t =>
          match advance e t (y_scanner y) with
          | Some (s, ts, log) =>
              Some (mkSys s (delete i (y_flight y) ++ ts) (y_pass y) (y_passes y) (log ++ y_log y))
          | None => None
          end
      | None => None
      end
  | None =>
      match arise e (y_scanner y) with
      | Some (s, ts) => Some (mkSys s (y_flight y ++ ts) (y_pass y) (y_passes y) (y_log y))
      | None =>
          match trust_pass e (y_pass y) (y_scanner y) with
          | Some (s, p, over) =>
              Some (mkSys s (y_flight y) p (if over then S (y_passes y) else y_passes y) (y_log y))
          | None => None
          end
      end
  end.

(** The daemon as it starts. *)
Definition newDaemon (instance : string) (m : Mesh) (reg : Registry.registry) : sys :=
  mkSys (mkScanner reg instance ∅ ∅ m new_gate ∅ ∅ ∅ ∅ ∅ ∅ []) [] PIdle 0 [].

(** JSON has no text for a number that is not one. *)
Definition finite_stats (st : Stats) : Prop := same_totals (st_Totals st) (st_Totals st) && same_rates (st_Rates st) (st_Rates st) = true.
Definition decoded (e : event) : Prop :=
  match e with EFetchView _ ask => forall host st, ask host = Some st -> finite_stats st | _ => True end.

Inductive step (y y' : sys) : Prop :=
| step_act e : decoded e -> act e y = Some y' -> step y y'.

Fixpoint run (es : list event) (y : sys) : option sys :=
  match es with
  | [] => Some y
  | e :: es => match act e y with Some y => run es y | None => None end
  end.
End Steps.

(** * Runs *)

Section Runs.
Context `{!MapRange, !Sha256, !Pki, !Tls}.
Context (decode_info : string -> option NodeInfoResponse).

Lemma run_steps es y y' : Forall decoded es -> run decode_info es y = Some y' -> rtc (step decode_info) y y'.
Proof.
  revert y. induction es as [|e es IH]; intros y Hd Hr; cbn [run] in Hr; [injection Hr as <-; apply rtc_refl |].
  apply Forall_cons in Hd as [He Hd]. destruct (act decode_info e y) as [z|] eqn:Ea; [| done].
  eapply rtc_l; [by apply (step_act _ _ _ e) | by apply IH].
Qed.

(** A trust pass that has its entries comes to its end while no task holds the lock,
    whatever the directory then reads: two events an entry and one more. *)
Lemma pass_ends (d : ClusterDir) (now : Z) todo y : y_pass y = PCheck todo -> locked (y_flight y) = false ->
  exists es y', Forall decoded es /\ (length es <= 2 * length todo + 1)%nat /\
    run decode_info es y = Some y' /\ y_pass y' = PIdle /\ y_passes y' = S (y_passes y).
Proof.
  revert y. induction todo as [|n todo IH]; intros y Hp Hf.
  - exists [ECheck d now], (mkSys (y_scanner y) (y_flight y) PIdle (S (y_passes y)) (y_log y)).
    split_and!; [by repeat constructor | cbn; lia | | done | done].
    cbn [run]. unfold act. cbn [takes_lock andb task_of arise]. by rewrite Hp.
  - destruct (check_entry d now n todo (y_scanner y)) as [s p] eqn:E.
    assert (act decode_info (ECheck d now) y = Some (mkSys s (y_flight y) p (y_passes y) (y_log y))) as Ha
      by (unfold act; cbn [takes_lock andb task_of arise]; rewrite Hp; cbn [trust_pass]; by rewrite E).
    assert (p = PCheck todo \/ p = PExpire n todo) as Hcase.
    { unfold check_entry in E. case_bool; [injection E as <- <-; by left |]. destruct (currentPeer _ _ _ _) as [s1 []];
        injection E as <- <-; auto. }
    destruct Hcase as [-> | ->].
    + destruct (IH (mkSys s (y_flight y) (PCheck todo) (y_passes y) (y_log y)) eq_refl Hf) as (es & y' & Hd & Hl & Hr & Hi & Hps).
      exists (ECheck d now :: es), y'. split_and!; [by constructor | cbn [length]; lia | | done | done].
      cbn [run]. by rewrite Ha.
    + destruct (IH (mkSys (expireVerified n s) (y_flight y) (PCheck todo) (y_passes y) (y_log y)) eq_refl Hf)
        as (es & y' & Hd & Hl & Hr & Hi & Hps).
      exists (ECheck d now :: EExpire :: es), y'. split_and!; [by repeat constructor | cbn [length]; lia | | done | done].
      cbn [run]. rewrite Ha. unfold act. cbn [takes_lock andb y_flight task_of arise y_pass trust_pass]. by rewrite Hf.
Qed.

(** * The lock *)

Definition holders (flight : list task) : nat := length (List.filter holds flight).

Lemma holders_app a b : holders (a ++ b) = (holders a + holders b)%nat.
Proof. unfold holders. by rewrite List.filter_app, length_app. Qed.

Lemma holders_delete i t flight : flight !! i = Some t ->
  holders flight = ((if holds t then 1 else 0) + holders (delete i flight))%nat.
Proof.
  intros Hi. rewrite <- (take_drop_middle _ _ _ Hi) at 1. rewrite delete_take_drop, !holders_app. unfold holders.
  cbn [List.filter]. destruct (holds t); cbn [length]; lia.
Qed.

Lemma locked_holders flight : locked flight = false <-> holders flight = 0%nat.
Proof.
  unfold locked, holders. induction flight as [|t flight IH]; [done |]. cbn. destruct (holds t); cbn; [done | exact IH].
Qed.

Lemma advance_holders e t s s' ts new : advance decode_info e t s = Some (s', ts, new) ->
  (holders ts <= if takes_lock e || holds t then 1 else 0)%nat.
Proof.
  intros Ha. destruct e, t; cbn [advance] in Ha; try done; cbn [takes_lock holds orb].
  - injection Ha as <- <- <-. unfold lookup_swept. repeat case_match; cbn; lia.
  - unfold start_read, read_failed in Ha. repeat (case_match; simplify_eq); cbn; lia.
  - unfold read_failed in Ha. repeat (case_match; simplify_eq); cbn; lia.
  - unfold read_answer, read_done in Ha. repeat (case_match; simplify_eq); cbn; lia.
  - injection Ha as <- <- <-. cbn. lia.
  - unfold models_start in Ha. repeat (case_match; simplify_eq); cbn; lia.
  - unfold models_answer in Ha. repeat (case_match; simplify_eq); cbn; lia.
  - unfold browsed in Ha. repeat (case_match; simplify_eq); cbn; lia.
  - unfold publishing in Ha. destruct (publishVerified _ _ _ _ _ _) as [? [[]|]]; injection Ha as <- <- <-; cbn; lia.
  - unfold fetch_check in Ha. destruct (still_fetched _ _ _ _ _) as [? []]; injection Ha as <- <- <-; cbn; lia.
  - injection Ha as <- <- <-. cbn. lia.
  - unfold publishing in Ha. destruct (publishVerified _ _ _ _ _ _) as [? [[]|]]; injection Ha as <- <- <-; cbn; lia.
  - unfold applying in Ha. repeat (case_match; simplify_eq); cbn; lia.
  - unfold fetch_start in Ha. repeat (case_match; simplify_eq); cbn; lia.
  - unfold fetch_models, answered in Ha. repeat (case_match; simplify_eq); cbn; lia.
  - unfold fetch_view, answered in Ha. repeat (case_match; simplify_eq); cbn; lia.
Qed.

Lemma arise_holders e s s' ts : arise e s = Some (s', ts) -> holders ts = 0%nat.
Proof.
  destruct e; cbn [arise]; try done; try (by intros [= _ <-]).
  - unfold on_browse, read_failed. intros [= Ha]. repeat (case_match; simplify_eq); cbn; lia.
  - destruct (swept key s) as [t|] eqn:E; [| done]. intros [= _ <-]. unfold swept in E. by repeat (case_match; simplify_eq).
  - destruct (fetch_of what key s) as [t|] eqn:E; [| done]. intros [= _ <-]. unfold fetch_of in E. by repeat (case_match; simplify_eq).
Qed.

(** No two tasks are ever in a critical section of [inventoryMu]. *)
Lemma lock_excludes y y' : (holders (y_flight y) <= 1)%nat -> rtc (step decode_info) y y' -> (holders (y_flight y') <= 1)%nat.
Proof.
  intros Hy. induction 1 as [|y1 y2 y3 [e _ Ha] _ IH]; [done |]. apply IH. clear IH. unfold act in Ha.
  destruct (takes_lock e && locked (y_flight y1)) eqn:El; [done |]. destruct (task_of e) as [i|].
  - destruct (y_flight y1 !! i) as [t|] eqn:Et; [| done].
    destruct (advance decode_info e t (y_scanner y1)) as [[[s ts] new]|] eqn:Ea; [| done]. injection Ha as <-. cbn [y_flight].
    apply advance_holders in Ea. rewrite holders_app. apply holders_delete in Et.
    destruct (takes_lock e); cbn in El, Ea; [apply locked_holders in El; lia |]. destruct (holds t); lia.
  - destruct (arise e (y_scanner y1)) as [[s ts]|] eqn:Ea.
    + injection Ha as <-. cbn [y_flight]. apply arise_holders in Ea. rewrite holders_app. lia.
    + by destruct (trust_pass e (y_pass y1) (y_scanner y1)) as [[[? ?] ?]|]; [injection Ha as <- | done].
Qed.

(** The steps a task in its critical section has left, at most. *)
Definition left_of (t : task) : nat :=
  match t with
  | TPublishing st _ _ =>
      match st with
      | SCheck => 9 | SHint => 8 | SPrior => 7 | SForget => 6 | SPreview => 5 | SDrop _ => 4 | SDropped _ => 3
      | SUpsert => 2 | SAnnounce | SReplace _ => 1
      end
  | TApplying st _ _ => match st with ACache => 3 | AApply => 2 | AAnnounce _ => 1 end
  | _ => 0
  end.

Lemma left_delete i t flight : flight !! i = Some t ->
  sum_list (left_of <$> flight) = (left_of t + sum_list (left_of <$> delete i flight))%nat.
Proof.
  intros Hi. rewrite <- (take_drop_middle _ _ _ Hi) at 1. rewrite delete_take_drop, !fmap_app, fmap_cons, !sum_list_with_app.
  cbn. lia.
Qed.

Lemma write_goes_on d now t s : holds t = true -> forall i, exists s' ts,
  advance decode_info (EWrite i d now) t s = Some (s', ts, []) /\ (sum_list (left_of <$> ts) < left_of t)%nat.
Proof.
  intros Ht i. destruct t as [| | | | | | | | | | | | | st n key | st f g]; try done; cbn [advance].
  - unfold publishing. destruct (publishVerified d now st n key s) as [s' next] eqn:E. eexists _, _. split; [done |].
    destruct st; cbn [publishVerified] in E; repeat (case_match; simplify_eq); cbn; lia.
  - unfold applying. destruct st; [eexists _, _; split; [done | cbn; lia] | | eexists _, _; split; [done | cbn; lia]].
    destruct (apply_got f g (s_dir s)) as [dir [[n []] v]]; eexists _, _; (split; [done | cbn; lia]).
Qed.

(** Whoever is in a critical section leaves it by its own steps alone. *)
Lemma writes_end (d : ClusterDir) (now : Z) (y : sys) : exists es y', Forall decoded es /\ (length es <= sum_list (left_of <$> y_flight y))%nat /\
  run decode_info es y = Some y' /\ locked (y_flight y') = false.
Proof.
  remember (sum_list (left_of <$> y_flight y)) as k eqn:Ek. revert y Ek. induction (lt_wf k) as [k _ IH]. intros y ->.
  destruct (locked (y_flight y)) eqn:El; [| exists [], y; split_and!; [constructor | cbn; lia | done | done]].
  apply existsb_exists in El as (t & Hin & Ht). apply list_elem_of_In, list_elem_of_lookup in Hin as [i Hi].
  destruct (write_goes_on d now t (y_scanner y) Ht i) as (s' & ts & Ha & Hlt).
  set (y1 := mkSys s' (delete i (y_flight y) ++ ts) (y_pass y) (y_passes y) (y_log y)).
  assert (act decode_info (EWrite i d now) y = Some y1) as Hact.
  { unfold act. cbn [takes_lock andb task_of]. by rewrite Hi, Ha. }
  assert (sum_list (left_of <$> y_flight y1) < sum_list (left_of <$> y_flight y))%nat as Hdec.
  { apply left_delete in Hi. subst y1. cbn [y_flight]. rewrite fmap_app, sum_list_with_app. lia. }
  destruct (IH _ Hdec y1 eq_refl) as (es & y' & Hd & Hl & Hr & Hf).
  exists (EWrite i d now :: es), y'. split_and!; [by constructor | cbn [length]; lia | | done].
  cbn [run]. by rewrite Hact.
Qed.
End Runs.
