(* ===== verification/ScannerSafety.v ===== *)
(** What the node scanner guarantees whatever the interleaving of its handlers: nothing is
    routable without a proof of identity, and a revoked binding is out of the directory when
    a trust pass is over. *)
From S2P Require Import Prelude.
From S2P Require Import GoStd.
From S2P Require Import GoBytes.
From S2P Require Import Json.
From S2P Require Import EngineNative.
From S2P Require Import Noderec.
From S2P Require Import Netpick.
From S2P Require Import ClusterTrust.
From S2P Require Import Mesh.
From S2P Require Import Browser.
From S2P Require Import RetryGate.
From S2P Require Import NodeDirectory.
From S2P Require Import Scanner.
From S2P Require Import ScannerSteps.

Open Scope string_scope.
Open Scope list_scope.
Open Scope Z_scope.

Section Safety.
Context `{!MapRange, !Sha256, !Pki, !Tls}.
Context (decode_info : string -> option NodeInfoResponse).

(** * The entries *)

Definition finite (n : DirectoryNode) : Prop := from_option finite_stats True (dn_EngineNative n).

(** The entry shows what an accepted read proved, at the address that proved it. *)
Record shown (n : DirectoryNode) (pf : proof) : Prop := {
  sh_host : dn_HostUUID n = pf_principal pf;
  sh_cluster : dn_ClusterUUID n = pf_principal pf;
  sh_record : dn_PeerRecordID n = pf_record pf;
  sh_ip : dn_IP n = pf_host pf;
  sh_ips : dn_IPs n = [pf_host pf];
  sh_verified : dn_IdentityVerification n = "verified" /\ dn_Trusted n = true;
  sh_meta : exists meta, ni_PeerMetadata (pf_info pf) = Some meta /\ dn_Name n = pm_Name meta
              /\ dn_Services n = verified_services meta
}.

(** What makes an answer of the log's a proof: it came with status 200 over a connection
    whose peer presented the certificate that the mesh of that moment holds for the
    principal, valid then and naming the principal itself, and its body is the inventory
    the entry shows, which names the principal as host and as cluster. *)
Record accepted (pf : proof) : Prop := {
  ac_record : pf_record pf = PeerRecordID (pf_mesh pf) (pf_time pf) (pf_principal pf);
  ac_some : pf_record pf <> "";
  ac_presented : exists cert c, rs_Cert (pf_answer pf) = Some cert
    /\ trustedDER (pf_mesh pf) (pf_principal pf) = Some cert /\ validLeafDER (pf_time pf) cert = true
    /\ ParseCertificate cert = Some c /\ UUIDFromCert c = pf_principal pf;
  ac_body : exists data info, rs_Status (pf_answer pf) = 200 /\ rs_Body (pf_answer pf) = Some data
    /\ Z.of_nat (String.length data) <= nodeInfoResponseLimit
    /\ decode_info data = Some info /\ pf_info pf = with_record (pf_record pf) info;
  ac_names : ni_HostUUID (pf_info pf) = pf_principal pf /\ ni_ClusterUUID (pf_info pf) = Some (pf_principal pf)
}.

Definition proven (log : list proof) (n : DirectoryNode) : Prop := exists pf, pf ∈ log /\ shown n pf.
Definition claimed (n : DirectoryNode) : Prop :=
  dn_IdentityVerification n = "unverified" /\ exists name uuid, dn_PeerRecordID n = PreviewRecordID name uuid.
Definition own (self : string) (n : DirectoryNode) : Prop :=
  dn_IdentityVerification n = "local" /\ dn_HostUUID n = self /\ dn_PeerRecordID n = "".

Definition peer_node (log : list proof) (n : DirectoryNode) : Prop := (proven log n \/ claimed n) /\ finite n.

Lemma proven_more log log' n : log ⊆ log' -> proven log n -> proven log' n.
Proof. intros Hl (pf & Hin & Hs). exists pf. split; [by apply Hl | done]. Qed.
Lemma peer_more log log' n : log ⊆ log' -> peer_node log n -> peer_node log' n.
Proof. intros Hl [[Hp|Hc] Hf]; (split; [| done]); [left; by apply (proven_more log) | by right]. Qed.

(** What decorates an entry leaves its standing alone. *)
Lemma proven_views log a b c n : proven log (set_views a b c n) <-> proven log n.
Proof. split; intros (pf & Hin & Hs); exists pf; (split; [done |]); destruct Hs; by split. Qed.
Lemma proven_view log st n : proven log (set_EngineNative st n) <-> proven log n.
Proof. split; intros (pf & Hin & Hs); exists pf; (split; [done |]); destruct Hs; by split. Qed.

Lemma peer_views log a b c n : peer_node log n -> peer_node log (set_views a b c n).
Proof. intros [[Hp|Hc] Hf]; (split; [| done]); [left; by apply proven_views | by right]. Qed.
Lemma peer_view log st n : from_option finite_stats True st -> peer_node log n -> peer_node log (set_EngineNative st n).
Proof. intros Hst [[Hp|Hc] Hf]; (split; [| done]); [left; by apply proven_view | by right]. Qed.
Lemma peer_inventory log info n : peer_node log n -> peer_node log (with_inventory info n).
Proof.
  intros [[(pf & Hin & Hs)|Hc] Hf]; (split; [| done]); [left | by right]. exists pf. split; [done |]. destruct Hs; by split.
Qed.

Lemma authenticated_key n : dn_IdentityVerification n = "local" \/ dn_IdentityVerification n = "verified" ->
  RecordKey n <> "" -> RecordKey n = dn_HostUUID n.
Proof. unfold RecordKey. intros [->| ->]; cbn; by destruct (reserved_key _). Qed.

Lemma service_proven log self n : ServicePeer n = true -> proven log n \/ claimed n \/ own self n -> proven log n \/ own self n.
Proof.
  intros Hs [|[[Hu _]|]]; [by left | | by right]. unfold ServicePeer in Hs. rewrite Hu in Hs. cbn in Hs.
  by rewrite andb_false_r in Hs.
Qed.

(** * The scanner's invariant *)

Definition announced (log : list proof) (x : notification) : Prop :=
  match x with
  | NodeDiscovered n | NodeUpdated n => dn_IdentityVerification n = "local" \/ proven log n \/ claimed n
  | NodeRemoved _ => True
  end.

Record entry (log : list proof) (self k : string) (n : DirectoryNode) : Prop := {
  en_key : RecordKey n = k; en_some : k <> "";
  en_standing : proven log n \/ claimed n \/ own self n; en_finite : finite n
}.

Record scanner_ok (log : list proof) (s : scanner) : Prop := {
  so_dir : forall k n, s_dir s !! k = Some n -> entry log (own_host s) k n;
  so_candidates : forall k n, s_candidates s !! k = Some n -> claimed n /\ finite n;
  so_out : Forall (announced log) (s_out s)
}.

Lemma entry_more log log' self k n : log ⊆ log' -> entry log self k n -> entry log' self k n.
Proof. intros Hl [? ? Hs ?]. split; try done. destruct Hs as [|]; [left; by apply (proven_more log) | by right]. Qed.
Lemma announced_more log log' x : log ⊆ log' -> announced log x -> announced log' x.
Proof. intros Hl. destruct x; cbn; try done; intros [|[|]]; eauto using proven_more. Qed.
Lemma ok_more log log' s : log ⊆ log' -> scanner_ok log s -> scanner_ok log' s.
Proof.
  intros Hl [Hd Hc Ho]. split; [| done |].
  - intros k n Hn. by apply (entry_more log), Hd.
  - eapply Forall_impl; [exact Ho |]. intros x. by apply announced_more.
Qed.

(** Only the directory, the candidates, the notifications and the registry matter. *)
Record same_data (s s' : scanner) : Prop := {
  sd_dir : s_dir s' = s_dir s; sd_candidates : s_candidates s' = s_candidates s;
  sd_out : s_out s' = s_out s; sd_reg : s_reg s' = s_reg s
}.

Lemma ok_same log s s' : same_data s s' -> scanner_ok log s -> scanner_ok log s'.
Proof.
  intros [Hd Hc Ho Hr] [Hdir Hcand Hout]. unfold own_host in *.
  split; unfold own_host; [rewrite Hd, Hr | rewrite Hc | rewrite Ho]; done.
Qed.

Lemma refresh_data d s : same_data s (refresh d s).
Proof. by split. Qed.
Lemma forget_data host s : same_data s (forget_node host s).
Proof. by split. Qed.

Lemma noteActivity_data now host ms s : same_data s (noteActivity now host ms s).
Proof. unfold noteActivity. repeat (case_match || case_bool); by split. Qed.

Lemma currentPeer_data d now n s s' c : currentPeer d now n s = (s', c) -> same_data s s'.
Proof. unfold currentPeer. case_bool; intros [= <- _]; by split. Qed.

Lemma start_read_data d n s s' c : start_read d n s = (s', c) -> same_data s s'.
Proof. unfold start_read. case_bool; intros [= <- _]; by split. Qed.

Lemma local_models_data hosts ask n s s' n' : enrich_local_models hosts ask n s = (s', n') ->
  same_data s s' /\ exists a b c, n' = set_views a b c n.
Proof.
  assert (exists a b c, n = set_views a b c n) as Hn by (exists (dn_Models n), (dn_ModelsByEngine n), (dn_LoadedByEngine n); by destruct n).
  unfold enrich_local_models. destruct (dn_Services n !! ServiceEngineManager); [| intros [= <- <-]; by split].
  destruct (askRemembered _ _ _ _) as [mem [[host i]|]]; [intros [= <- <-]; split; [by split | by eexists _, _, _] |].
  intros [= <- <-]. split; [by split |]. case_match; [by eexists _, _, _ | done].
Qed.

Lemma ok_emit log x s : announced log x -> scanner_ok log s -> scanner_ok log (emit x s).
Proof. intros Hx [Hdir Hcand Hout]. split; [done | done |]. cbn. apply Forall_app. by split; [| constructor]. Qed.
Lemma ok_insert log k n s : entry log (own_host s) k n -> scanner_ok log s -> scanner_ok log (set_dir (<[k := n]> (s_dir s)) s).
Proof.
  intros Hn [Hdir Hcand Hout]. split; [| done | done]. intros k' n'. cbn.
  intros [[<- <-]|[_ Hl]]%lookup_insert_Some; [done | by apply Hdir].
Qed.
Lemma ok_delete log k s : scanner_ok log s -> scanner_ok log (set_dir (delete k (s_dir s)) s).
Proof. intros [Hdir Hcand Hout]. split; [| done | done]. intros k' n'. cbn. intros [_ Hl]%lookup_delete_Some. by apply Hdir. Qed.
Lemma ok_candidates log c s : (forall k n, c !! k = Some n -> claimed n /\ finite n) ->
  scanner_ok log s -> scanner_ok log (set_candidates c s).
Proof. intros Hc [Hdir Hcand Hout]. by split. Qed.

(** * The handlers preserve it *)

Lemma carry_finite stored n : finite stored -> finite n -> finite (carryEngineNative stored n).
Proof. unfold carryEngineNative. case_bool; done. Qed.
Lemma carry_standing log self stored n : (proven log n \/ claimed n \/ own self n) ->
  proven log (carryEngineNative stored n) \/ claimed (carryEngineNative stored n) \/ own self (carryEngineNative stored n).
Proof. unfold carryEngineNative. case_bool; [| done]. intros [|]; [left; by apply proven_view | by right]. Qed.

Lemma ok_upsert log n s : (proven log n \/ claimed n \/ own (own_host s) n) -> finite n ->
  scanner_ok log s -> scanner_ok log (set_dir (upsert n (s_dir s)).1 s).
Proof.
  intros Hn Hf Hok. unfold upsert. case_bool_decide as Ek; [by destruct Hok |]. cbn [fst].
  apply ok_insert; [| done]. split; [apply RecordKey_identity, carry_identity | done | by apply carry_standing |].
  apply carry_finite; [| done]. destruct (s_dir s !! RecordKey n) as [m|] eqn:E; [| done].
  by apply (so_dir log s Hok) in E as [_ _ _ ?].
Qed.

Lemma ok_store log n s : peer_node log n -> scanner_ok log s -> scanner_ok log (store n s).
Proof.
  intros [Hn Hf] Hok. apply ok_emit; [cbn; tauto |]. apply ok_upsert; [tauto | done | done].
Qed.

Lemma ok_expire log n s : scanner_ok log s -> scanner_ok log (expireVerified n s).
Proof.
  intros Hok. unfold expireVerified, removeIfCurrent. destruct (is_current n (s_dir s)); [| done].
  cbn [negb]. apply ok_emit; [done |]. apply (ok_same log (set_dir (delete (RecordKey n) (s_dir s)) s)); [apply forget_data |].
  by apply ok_delete.
Qed.

Lemma inherit_peer log prior n : finite prior -> peer_node log n -> peer_node log (inherit prior n).
Proof.
  intros Hp Hn. unfold inherit.
  assert (forall m, peer_node log m ->
    peer_node log (if bool_decide (dn_EngineNative m = None) then set_EngineNative (dn_EngineNative prior) m else m)) as Hv
    by (intros m Hm; case_bool_decide; [by apply peer_view | done]).
  apply Hv. case_bool_decide; [by apply peer_views | done].
Qed.

Lemma ok_replace log prior n s : peer_node log n ->
  RecordKey n <> "" -> scanner_ok log s -> scanner_ok log (set_dir (replaceIfCurrent prior n (s_dir s)).1 s).
Proof.
  intros [Hn Hf] Hk Hok. unfold replaceIfCurrent. destruct (is_current prior (s_dir s)); [| by destruct Hok].
  destruct Hok as [Hdir Hcand Hout]. split; [| done | done]. cbn.
  intros k m [[<- <-]|[_ [_ Hl]%lookup_delete_Some]]%lookup_insert_Some; [split; [done | done | tauto | done] | by apply Hdir].
Qed.

Lemma same_key a b : sameIgnoringLastSeen a b = true -> RecordKey a = RecordKey b.
Proof.
  unfold sameIgnoringLastSeen. intros [He _]%DeepEqual_identity.
  by apply (RecordKey_identity (set_LastSeen 0 a) (set_LastSeen 0 b)).
Qed.

(** What a stage of a publication knows besides its entry. *)
Definition stage_ok (st : stage) (n : DirectoryNode) : Prop :=
  match st with SReplace _ => RecordKey n <> "" | _ => True end.

Lemma ok_publish log d now st n key s s' next : publishVerified d now st n key s = (s', next) ->
  peer_node log n -> stage_ok st n -> scanner_ok log s ->
  scanner_ok log s' /\ forall st' n', next = Some (st', n') -> peer_node log n' /\ stage_ok st' n'.
Proof.
  intros Hp Hn Hst Hok. destruct st; cbn [publishVerified] in Hp.
  - destruct (currentPeer d now n s) as [s1 c] eqn:Ec. injection Hp as <- <-.
    split; [by apply (ok_same log _ _ (currentPeer_data _ _ _ _ _ _ Ec)) |]. by destruct c; intros ? ? [= <- <-].
  - injection Hp as <- <-. split; [done |]. by destruct (hint_holds key n s); intros ? ? [= <- <-].
  - injection Hp as <- <-. split; [done |].
    destruct (s_dir s !! dn_HostUUID n) as [prior|] eqn:Ep; [| by intros ? ? [= <- <-]].
    pose proof (so_dir log s Hok _ _ Ep) as [Hk Hne _ Hf]. case_bool_decide; [| by intros ? ? [= <- <-]].
    intros ? ? [= <- <-]. split; [by apply inherit_peer |].
    destruct (sameIgnoringLastSeen prior (inherit prior n)) eqn:Es; [| done]. apply same_key in Es. cbn. congruence.
  - injection Hp as <- <-. split; [by apply ok_replace | done].
  - injection Hp as <- <-. split; [by apply (ok_same log s); [apply forget_data |] | by intros ? ? [= <- <-]].
  - injection Hp as <- <-. split; [done |]. intros st' n'. by repeat case_match; intros [= <- <-].
  - injection Hp as <- <-. split; [by apply ok_delete | by intros ? ? [= <- <-]].
  - injection Hp as <- <-. split; [by apply ok_emit | by intros ? ? [= <- <-]].
  - injection Hp as <- <-. destruct Hn as [Hn Hf]. split; [apply ok_upsert; [tauto | done | done] | by intros ? ? [= <- <-]].
  - injection Hp as <- <-. destruct Hn as [Hn Hf]. split; [apply ok_emit; [cbn; tauto | done] | done].
Qed.

Lemma ok_removed log key s : scanner_ok log s -> scanner_ok log (browse_removed key s).
Proof.
  intros Hok. unfold browse_removed.
  assert (scanner_ok log (set_candidates (delete key (s_candidates s)) s)) as Hd.
  { apply ok_candidates; [| done]. intros k n [_ Hl]%lookup_delete_Some. by apply (so_candidates log s Hok) in Hl. }
  destruct (s_dir _ !! key); [| done]. apply ok_emit; [done | by apply ok_delete].
Qed.

(** This node's own entry. *)
Lemma self_info_data now ask n s s' n' : enrich_self_info now ask n s = (s', n') -> same_data s s' /\
  dn_HostUUID n' = dn_HostUUID n /\ dn_PeerRecordID n' = dn_PeerRecordID n /\ dn_IdentityVerification n' = "local" /\
  dn_EngineNative n' = dn_EngineNative n.
Proof.
  unfold enrich_self_info. destruct (dn_Services _ !! ServiceNodeInfo); [| by intros [= <- <-]].
  destruct (askRemembered _ _ _ _) as [mem [[host i]|]]; intros [= <- <-]; (split; [by split |]); [done |].
  case_match; done.
Qed.

Lemma publishSelf_data d now info models f s : publishSelf d now info models f s = s \/
  exists s' n, same_data s s' /\ own (own_host s) n /\ dn_EngineNative n = None /\
    let after := set_dir (upsert n (s_dir s')).1 s' in
    publishSelf d now info models f s =
      if (upsert n (s_dir s')).2 then emit (NodeDiscovered (stored_or n after)) after
      else if from_option (fun f => f (stored_or n after)) true f then emit (NodeUpdated (stored_or n after)) after else after.
Proof.
  unfold publishSelf. case_bool_decide; [by left |]. right.
  set (s1 := if bool_decide (Registry.r_cluUUID _ = "") then s else _). assert (same_data s s1) as Hs1 by (subst s1; case_bool_decide; by split).
  destruct (enrich_self_info _ _ _ _) as [s2 n2] eqn:E2. apply self_info_data in E2 as (Hs2 & Hh & Hr & Hv & He).
  destruct (enrich_local_models _ _ _ _) as [s3 n3] eqn:E3. apply local_models_data in E3 as (Hs3 & a & b & c & ->).
  assert (same_data s s3) as Hs by (destruct Hs1, Hs2, Hs3; split; congruence).
  assert (own (own_host s) n2 /\ dn_EngineNative n2 = None) as [Ho Hn].
  { unfold own, self_node in *. destruct Hs1 as [_ _ _ Hreg]. unfold own_host. rewrite <- Hreg.
    destruct (if bool_decide (rec_IP _ = "") then _ else _) as [ip ips]. cbn in *. by split_and!. }
  exists s3, (set_views a b c n2). split_and!; [done | done | done |].
  destruct (upsert _ _) as [dir isNew]. cbn. destruct isNew; [done |]. by destruct f.
Qed.

Lemma stored_local n s : own (own_host s) n -> filed (s_dir s) ->
  (forall m, s_dir s !! RecordKey n = Some m -> RecordKey n <> "" -> dn_IdentityVerification m = "local" /\ dn_PeerRecordID m = "") ->
  dn_IdentityVerification (stored_or n s) = "local" /\ dn_PeerRecordID (stored_or n s) = "".
Proof.
  intros [Hv [_ Hr]] Hf Hm. unfold stored_or. destruct (s_dir s !! RecordKey n) as [m|] eqn:E; [| done].
  cbn. apply Hm; [done |]. by apply Hf in E as [].
Qed.

Lemma upsert_own n self d : own self n -> filed d ->
  dn_IdentityVerification (default n ((upsert n d).1 !! RecordKey n)) = "local" /\
  dn_PeerRecordID (default n ((upsert n d).1 !! RecordKey n)) = "".
Proof.
  intros [Hv [_ Hr]] Hf. unfold upsert. case_bool_decide as E; cbn [fst].
  - rewrite E. destruct (d !! "") as [m|] eqn:Em; [by apply Hf in Em as [] | done].
  - rewrite lookup_insert_eq. cbn. unfold carryEngineNative. by case_bool.
Qed.

Lemma ok_filed log s : scanner_ok log s -> filed (s_dir s).
Proof. intros Hok k n Hn. by apply (so_dir log s Hok) in Hn as []. Qed.

Lemma ok_publishSelf log d now info models f s : scanner_ok log s -> scanner_ok log (publishSelf d now info models f s).
Proof.
  intros Hok. destruct (publishSelf_data d now info models f s) as [-> | (s' & n & Hd & Ho & He & ->)]; [done |].
  assert (own_host s' = own_host s) as Hh by (unfold own_host; by rewrite (sd_reg _ _ Hd)).
  apply (ok_same log _ _ Hd) in Hok.
  assert (scanner_ok log (set_dir (upsert n (s_dir s')).1 s')) as Hup.
  { apply ok_upsert; [right; right; by rewrite Hh | unfold finite; by rewrite He | done]. }
  assert (dn_IdentityVerification (stored_or n (set_dir (upsert n (s_dir s')).1 s')) = "local") as Hst
    by (by eapply upsert_own; [exact Ho | apply (ok_filed log)]).
  repeat case_bool; [apply ok_emit | apply ok_emit |]; cbn; auto.
Qed.

Lemma ok_refreshSelf log d now info models s : scanner_ok log s -> scanner_ok log (refreshSelfOnce d now info models s).
Proof. intros Hok. unfold refreshSelfOnce. case_bool_decide; [done |]. case_match; by apply ok_publishSelf. Qed.

(** A new identity: the old self entry is gone before the new name counts. *)
Lemma ok_reload log d host ips s : scanner_ok log s -> scanner_ok log (reload_self d host ips s).
Proof.
  intros Hok. unfold reload_self, reloadIdentity. destruct (Registry.setIdentity _ _ _ _) as [reg changed] eqn:Er.
  assert (changed = true -> Registry.r_hostUUID reg = host) as Hreg.
  { intros ->. unfold Registry.setIdentity in Er. case_bool; [done |]. by injection Er as <-. }
  destruct changed; cbn [negb fst]; [| apply (ok_same log s); [apply refresh_data | done]]. specialize (Hreg eq_refl).
  destruct Hok as [Hdir Hcand Hout].
  assert (forall k n, s_dir s !! k = Some n -> k <> own_host s \/ own_host s = host -> entry log host k n) as Hkeep.
  { intros k n Hn Hk. destruct (Hdir k n Hn) as [Hkey Hne Hst Hfin]. split; try done.
    destruct Hst as [|[|Ho]]; [tauto | tauto |]. right; right. destruct Hk as [Hk | <-]; [| done].
    destruct Hk. destruct Ho as (Hv & <- & _). rewrite <- Hkey.
    apply authenticated_key; [by left | congruence]. }
  destruct (negb (bool_decide (own_host s = "")) && negb (bool_decide (own_host s = host))) eqn:Eg; unbool.
  - unfold dropSelf. cbn. assert (scanner_ok log (set_dir (delete (own_host s) (s_dir s)) (set_reg reg s))) as Hs.
    { split; [| done | done]. unfold own_host. cbn. rewrite Hreg. intros k n [? Hl]%lookup_delete_Some. apply Hkeep; auto. }
    destruct (s_dir s !! own_host s); [apply ok_emit; [done |] |]; by eapply ok_same; [| exact Hs].
  - split; [| done | done]. unfold own_host. cbn. rewrite Hreg. intros k n Hn. apply Hkeep; [done |].
    apply andb_false_iff in Eg as [Eg|Eg]; unbool; [left | right; done]. rewrite Eg. by destruct (Hdir k n Hn).
Qed.

(** * The system's invariant *)

Definition one_principal (n : DirectoryNode) : Prop := dn_HostUUID n <> "" /\ dn_ClusterUUID n = dn_HostUUID n.

Definition got_ok (g : got) : Prop := match g with GotModels _ => True | GotView st => finite_stats st end.

Definition task_ok (log : list proof) (t : task) : Prop :=
  match t with
  | TAuth r => peer_node log (rd_node r)
  | TRead r => peer_node log (rd_node r) /\ one_principal (rd_node r)
  | TWait r _ p => peer_node log (rd_node r) /\ one_principal (rd_node r) /\ pr_principal p = dn_ClusterUUID (rd_node r)
  | TPlain n _ _ | TModels n _ _ | TModelsWait n _ _ _ | TBrowsed n _ | TPublish n _ => peer_node log n
  | TPublishing st n _ => peer_node log n /\ stage_ok st n
  | TApplying (AAnnounce n) _ g => announced log (NodeUpdated n) /\ got_ok g
  | TApplying _ _ g | TFetched _ _ g => got_ok g
  | TSweep _ _ _ | TFetch _ | TFetchWait _ _ | TExpire _ => True
  end.

Record sys_ok (y : sys) : Prop := {
  yo_scanner : scanner_ok (y_log y) (y_scanner y);
  yo_flight : Forall (task_ok (y_log y)) (y_flight y);
  yo_log : Forall accepted (y_log y)
}.

Lemma task_more log log' t : log ⊆ log' -> task_ok log t -> task_ok log' t.
Proof.
  intros Hl. destruct t as [| | | | | | | | | | | | |st n key|st f g]; cbn; try done; try by apply peer_more.
  - intros [Hn Ho]. split; [by eapply peer_more | done].
  - intros (Hn & Ho & Hp). split_and!; [by eapply peer_more | done | done].
  - intros [Hn Hs]. split; [by eapply peer_more | done].
  - destruct st as [| |n]; try done. intros [Hn Hg]. split; [| done].
    destruct Hn as [|[Hn|]]; [by left | right; left; by apply (proven_more log) | by right; right].
Qed.

(** What an event leads to, given the log it adds. *)
Definition fine (log : list proof) (r : scanner * list task) : Prop := scanner_ok log r.1 /\ Forall (task_ok log) r.2.

Lemma fine_one log s t : scanner_ok log s -> task_ok log t -> fine log (s, [t]).
Proof. intros Hs Ht. split; [done |]. by constructor. Qed.
Lemma fine_none log s : scanner_ok log s -> fine log (s, []).
Proof. intros Hs. split; [done | constructor]. Qed.

Lemma entry_peer log s k n : scanner_ok log s -> s_dir s !! k = Some n -> localNode (dn_HostUUID n) s = false -> peer_node log n.
Proof.
  intros Hok Hn Hl. apply (so_dir log s Hok) in Hn as [_ _ Hst Hf]. split; [| done].
  destruct Hst as [|[|(_ & Ho & _)]]; [by left | by right |]. unfold localNode in Hl. unbool. done.
Qed.

Lemma fine_failed log now r s : peer_node log (rd_node r) -> scanner_ok log s -> fine log (read_failed now r s).
Proof.
  intros Hr Hok. unfold read_failed. destruct (rd_purpose r).
  - apply fine_one; [done |]. by case_bool.
  - destruct (sweep_failed now (rd_node r) s); [by apply fine_one | by apply fine_none].
Qed.

Lemma applied_shown now info host n pf meta : dn_HostUUID n = pf_principal pf -> dn_ClusterUUID n = pf_principal pf ->
  ni_PeerRecordID info = pf_record pf -> pf_host pf = host -> pf_info pf = info -> ni_PeerMetadata info = Some meta ->
  shown (applyAuthenticatedInfo now info host n) pf.
Proof.
  intros Hh Hc Hr <- <- Hm. unfold applyAuthenticatedInfo. rewrite Hm. split; try done. by exists meta.
Qed.

Lemma applied_finite now info host n : finite n -> finite (applyAuthenticatedInfo now info host n).
Proof. unfold applyAuthenticatedInfo. by destruct (ni_PeerMetadata info). Qed.

Lemma fine_done log now r pf s : peer_node log (rd_node r) ->
  dn_HostUUID (rd_node r) = pf_principal pf -> dn_ClusterUUID (rd_node r) = pf_principal pf ->
  ni_PeerRecordID (pf_info pf) = pf_record pf -> is_Some (ni_PeerMetadata (pf_info pf)) ->
  scanner_ok log s -> fine (pf :: log) (read_done now r (pf_info pf) (pf_host pf) s).
Proof.
  intros [_ Hf] Hh Hc Hr [meta Hm] Hok. unfold read_done.
  assert (forall n, dn_HostUUID n = pf_principal pf -> dn_ClusterUUID n = pf_principal pf -> finite n ->
    peer_node (pf :: log) (applyAuthenticatedInfo now (pf_info pf) (pf_host pf) n)) as Hn.
  { intros n Hnh Hnc Hnf. split; [| by apply applied_finite]. left. exists pf. split; [by left |].
    by eapply applied_shown. }
  apply (ok_more log (pf :: log)) in Hok; [| set_solver].
  destruct (rd_purpose r); (apply fine_one; [done | cbn]); apply Hn; try case_bool_decide; done.
Qed.

Lemma preview_claimed now raw n : toDirectoryNode now raw = Some n ->
  claimed n /\ dn_EngineNative n = None /\ dn_Trusted n = false.
Proof.
  unfold toDirectoryNode. case_bool_decide; [done |]. intros [= <-]. split_and!; [split; [done |] | done | done]. by eexists _, _.
Qed.

Lemma fine_browse log d now ev s : scanner_ok log s -> fine log (on_browse d now ev s).
Proof.
  intros Hok. unfold on_browse. case_bool; [by apply fine_none |].
  apply (ok_same log _ _ (refresh_data d s)) in Hok. destruct (toDirectoryNode now (ev_Node ev)) as [n|] eqn:E; [| by apply fine_none].
  apply preview_claimed in E as ([Hv Hr] & He & Ht). assert (finite n) as Hf by (unfold finite; by rewrite He).
  case_bool_decide; [by apply fine_none, ok_removed |].
  assert (scanner_ok log (set_candidates (<[RecordKey n := n]> (s_candidates (refresh d s))) (refresh d s))) as Hs.
  { apply ok_candidates; [| done]. intros k m [[_ <-]|[_ Hl]]%lookup_insert_Some; [done |].
    by apply (so_candidates log _ Hok) in Hl. }
  assert (peer_node log (with_verification false (dn_PeerRecordID n) "unverified" n)) as Hn by (split; [by right | done]).
  destruct (dn_Services _ !! ServiceNodeInfo); [by apply fine_one | by apply fine_failed].
Qed.

Lemma fine_lookup log key hosts port s : scanner_ok log s -> fine log (s, lookup_swept key hosts port s).
Proof.
  intros Hok. unfold lookup_swept. destruct (s_dir s !! key) as [n|] eqn:Ed.
  - destruct (localNode _ s) eqn:El; [by apply fine_none | apply fine_one; [done |]]. by apply (entry_peer log s key).
  - destruct (s_candidates s !! key) as [n|] eqn:Ec; [| by apply fine_none].
    case_bool; [by apply fine_none | apply fine_one; [done |]]. apply (so_candidates log s Hok) in Ec as [? ?].
    split; [by right | done].
Qed.

Lemma fine_models log d now n hosts key s : peer_node log n -> scanner_ok log s -> fine log (models_start d now n hosts key s).
Proof.
  intros Hn Hok. unfold models_start. destruct (currentPeer d now n s) as [s' c] eqn:Ec.
  apply (ok_same log _ _ (currentPeer_data _ _ _ _ _ _ Ec)) in Hok. repeat case_bool; by apply fine_one.
Qed.

Lemma fine_answer log d now ask n hosts key local s : peer_node log n -> scanner_ok log s ->
  fine log (models_answer d now ask n hosts key local s).
Proof.
  intros Hn Hok. unfold models_answer. destruct local.
  - destruct (enrich_local_models hosts ask n s) as [s' n'] eqn:E. apply local_models_data in E as (Hs & a & b & c & ->).
    apply fine_one; [by apply (ok_same log s) | by apply peer_views].
  - destruct (askRemembered _ _ _ _) as [mem r].
    assert (scanner_ok log (set_enrichHosts mem s)) as Hs by (by apply (ok_same log s)).
    destruct r as [[host i]|]; [| by apply fine_one].
    destruct (currentPeer d now n (set_enrichHosts mem s)) as [s' c] eqn:Ec.
    apply fine_one; [by apply (ok_same log _ _ (currentPeer_data _ _ _ _ _ _ Ec)) |].
    destruct c; [by apply peer_views | done].
Qed.

Lemma fine_fetch_start log d now f s : scanner_ok log s -> fine log (fetch_start d now f s).
Proof.
  intros Hok. unfold fetch_start. case_bool; [by apply fine_one |].
  destruct (s_dir s !! fe_host f) as [n|]; [| by apply fine_none]. destruct (currentPeer d now n s) as [s' c] eqn:Ec.
  apply (ok_same log _ _ (currentPeer_data _ _ _ _ _ _ Ec)) in Hok. destruct c; [by apply fine_one | by apply fine_none].
Qed.

Lemma still_fetched_data d now f before s s' c : still_fetched d now f before s = (s', c) -> same_data s s'.
Proof.
  unfold still_fetched. case_bool; [by intros [= <- _] |]. destruct (s_dir s !! fe_host f); [| by intros [= <- _]].
  case_bool_decide; [apply currentPeer_data | by intros [= <- _]].
Qed.

(** A guarded write changes the decoration of the entry at the host, or nothing. *)
Definition decorates (host : string) (d : directory) (r : directory * (DirectoryNode * bool * bool)) : Prop :=
  (r.1 = d /\ r.2.1.2 = false) \/
  exists n n', d !! host = Some n /\ r.1 = <[host := n']> d /\ r.2.1.1 = n' /\ (finite n -> finite n') /\
    ((exists a b c, n' = set_views a b c n) \/ (exists st, n' = set_EngineNative st n)).

Lemma models_decorate host ip port a b c d : decorates host d (applyModels host ip port a b c d).
Proof.
  unfold decorates, applyModels. destruct (d !! host) as [n|] eqn:E; [| by left]. case_bool; [by left |].
  case_bool; [by left | right]. exists n, (set_views a b c n). split_and!; try done. left. by eexists _, _, _.
Qed.
Lemma view_decorates host ip port st d : finite_stats st -> decorates host d (applyEngineNative host ip port (Some st) d).
Proof.
  intros Hst. unfold decorates, applyEngineNative. destruct (d !! host) as [n|] eqn:E; [| by left]. case_bool; [by left |].
  right. exists n, (set_EngineNative (Some st) n). split_and!; try done. right. by eexists.
Qed.

Lemma got_decorates f g d : got_ok g -> decorates (fe_host f) d (apply_got f g d).
Proof. destruct g; [intros _; apply models_decorate | apply view_decorates]. Qed.

Lemma fine_applying log st f g s : task_ok log (TApplying st f g) -> scanner_ok log s -> fine log (applying st f g s).
Proof.
  intros Ht Hok. destruct st as [| |n]; cbn [applying].
  - apply fine_one; [| done]. destruct g; [by apply (ok_same log s) | done].
  - pose proof (got_decorates f g (s_dir s) Ht) as Hr. destruct (apply_got f g (s_dir s)) as [dir [[n' changed] valid]].
    unfold decorates in Hr. cbn [fst snd] in Hr.
    destruct Hr as [[-> ->] | (n & m & Hn & -> & -> & Hf & Hm)]; [by apply fine_none; destruct Hok |].
    pose proof (so_dir log s Hok _ _ Hn) as [Hk Hne Hst Hfin].
    assert (entry log (own_host s) (fe_host f) m) as He.
    { destruct Hm as [(a & b & c & ->)|(st & ->)]; (split; [done | done | | by apply Hf]);
        (destruct Hst as [|]; [left | by right]); [by apply proven_views | by apply proven_view]. }
    assert (scanner_ok log (set_dir (<[fe_host f := m]> (s_dir s)) s)) as Hs by (by apply ok_insert).
    destruct changed; [| by apply fine_none]. apply fine_one; [done |]. split; [| done]. cbn.
    destruct He as [_ _ [|[|[? _]]] _]; tauto.
  - destruct Ht as [Hn _]. by apply fine_none, ok_emit.
Qed.

Lemma asked_answer {T} (ask : string -> option T) key hosts mem mem' host v :
  askRemembered ask key hosts mem = (mem', Some (host, v)) -> ask host = Some v.
Proof. intros E. pose proof (askRemembered_spec ask key hosts mem) as Hs. rewrite E in Hs. by destruct Hs as [_ [? _]]. Qed.

Lemma fine_answered {T} (wrap : T -> got) log ask f before s : (forall host v, ask host = Some v -> got_ok (wrap v)) ->
  scanner_ok log s -> fine log (answered wrap ask f before s).
Proof.
  intros Hask Hok. unfold answered. destruct (askRemembered _ _ _ _) as [mem r] eqn:Er.
  assert (scanner_ok log (set_enrichHosts mem s)) as Hs by (by apply (ok_same log s)).
  destruct r as [[host v]|]; [| by apply fine_none]. apply fine_one; [done |]. apply asked_answer in Er. by eapply Hask.
Qed.

Lemma fine_check log d now f before g s : got_ok g -> scanner_ok log s -> fine log (fetch_check d now f before g s).
Proof.
  intros Hg Hok. unfold fetch_check. destruct (still_fetched d now f before s) as [s' c] eqn:E.
  apply (ok_same log _ _ (still_fetched_data _ _ _ _ _ _ _ E)) in Hok.
  destruct c; [| by apply fine_none]. apply fine_one; [done |]. by destruct g.
Qed.

Lemma fine_publishing log d now st n key s : peer_node log n -> stage_ok st n -> scanner_ok log s ->
  fine log (publishing d now st n key s).
Proof.
  intros Hn Hst Hok. unfold publishing. destruct (publishVerified d now st n key s) as [s' next] eqn:E.
  apply (ok_publish log) in E as [Hs Hnext]; [| done..].
  destruct next as [[st' n']|]; [| by apply fine_none]. apply fine_one; [done |]. by apply Hnext.
Qed.

Lemma started_read d n s s' : start_read d n s = (s', true) -> one_principal n.
Proof. unfold start_read. case_bool; [done |]. intros _. unbool. by split. Qed.

Lemma begin_principal d now u m m' p : begin_read d now u m = (m', Some p) -> pr_principal p = u.
Proof. unfold begin_read. intros [= _ Hp]. case_bool; [done |]. by injection Hp as <-. Qed.

Lemma info_ok_names principal port info : info_ok principal port info = true ->
  ni_HostUUID info = principal /\ ni_ClusterUUID info = Some principal /\ is_Some (ni_PeerMetadata info).
Proof. unfold info_ok. intros Hi. unbool. destruct (ni_PeerMetadata info); [by split_and! | done]. Qed.

Lemma read_accepted d now seen r host p resp s s' ts new :
  read_answer decode_info d now seen r host p resp s = (s', ts, new) ->
  pr_principal p = dn_ClusterUUID (rd_node r) -> one_principal (rd_node r) ->
  (new = [] /\ exists m, s' = set_mesh m s /\ ts = [TRead r]) \/
  exists pf, new = [pf] /\ accepted pf /\ pf_principal pf = dn_HostUUID (rd_node r) /\ pf_host pf = host /\
    ni_PeerRecordID (pf_info pf) = pf_record pf /\ is_Some (ni_PeerMetadata (pf_info pf)) /\ pf_mesh pf = s_mesh s' /\
    (s', ts) = read_done seen r (pf_info pf) (pf_host pf) (set_mesh (pf_mesh pf) s).
Proof.
  unfold read_answer. intros Ha Hp [Hne Hc]. destruct (end_read _ _ _ _ _ _ _) as [m [[[principal record] info]|]] eqn:E.
  - destruct (info_ok principal (rd_port r) info) eqn:Ei; [| injection Ha as <- <- <-; left; split; [done | by eexists]].
    right. destruct resp as [rsp'|]; [| done]. destruct (read_done _ _ _ _ _) as [s1 ts1] eqn:Ed. injection Ha as <- <- <-. eexists. split; [done |].
    cbn [pf_principal pf_record pf_host pf_info pf_mesh ni_PeerRecordID with_record ni_PeerMetadata].
    pose proof E as (_ & Hrec & Hrne & _ & (rsp & cert & data & [= <-] & Hst & Hc1 & Hb & Hlim & Hdec & Hcert & Hvalid) & Hpr & _)%end_read_spec.
    apply end_read_named in E as (cert' & c & Hc2 & Hparse & Hname).
    rewrite Hp in Hpr. specialize (Hpr ltac:(congruence)). apply info_ok_names in Ei as (? & ? & ?).
    split_and!; try done; [| congruence |].
    + split; cbn; try done.
      * exists cert, c. split_and!; try done. congruence.
      * by exists data, info.
    + unfold read_done in Ed. by destruct (rd_purpose r); injection Ed as <- _.
  - injection Ha as <- <- <-. left. split; [done | by eexists].
Qed.

Lemma advance_ok log e t s s' ts new : decoded e -> advance decode_info e t s = Some (s', ts, new) ->
  task_ok log t -> scanner_ok log s -> Forall accepted new /\ fine (new ++ log) (s', ts).
Proof.
  intros He Ha Ht Hok.
  destruct e, t; cbn [advance] in Ha; try done;
    try (injection Ha as <- <- <-; split; [done |]);
    try (first [by apply fine_lookup | by apply fine_none, ok_expire]).
  - destruct (start_read d (rd_node r) s) as [s1 ok] eqn:E. injection Ha as Ha <-. split; [done |].
    pose proof (ok_same log _ _ (start_read_data _ _ _ _ _ E) Hok) as Hs. destruct ok.
    + injection Ha as <- <-. apply fine_one; [done |]. split; [done | by eapply started_read].
    + rewrite <- Ha. by apply fine_failed.
  - destruct Ht as [Hn Hp]. destruct (rd_hosts r) as [|host hosts] eqn:Eh.
    + injection Ha as Ha <-. split; [done |]. rewrite <- Ha. by apply fine_failed.
    + destruct (begin_read _ _ _ _) as [m pending] eqn:Eb. injection Ha as <- <- <-. split; [done |].
      apply fine_one; [by apply (ok_same log s) |]. destruct pending as [p|]; [| done].
      split_and!; [done | done | by eapply begin_principal].
  - destruct Ht as (Hn & Ho & Hp). injection Ha as Ha. eapply read_accepted in Ha; [| done..].
    destruct Ha as [(-> & m & -> & ->) | (pf & -> & Hacc & Hpf & _ & Hr & Hm & _ & ->)].
    + split; [done |]. apply fine_one; [by apply (ok_same log s) | done].
    + split; [by constructor |]. apply fine_done; try done; [by destruct Ho; congruence |]. by apply (ok_same log s).
  - apply fine_one; [done |]. destruct info; [by apply peer_inventory | done].
  - injection Ha as Ha <-. split; [done |]. rewrite <- Ha. by apply fine_models.
  - injection Ha as Ha <-. split; [done |]. rewrite <- Ha. by apply fine_answer.
  - injection Ha as Ha <-. split; [done |]. rewrite <- Ha. unfold browsed. destruct (ServicePeer node); [by apply fine_one | by apply fine_none, ok_store].
  - injection Ha as Ha <-. split; [done |]. rewrite <- Ha. by apply fine_publishing.
  - injection Ha as Ha <-. split; [done |]. rewrite <- Ha. by apply fine_check.
  - injection Ha as Ha <-. split; [done |]. rewrite <- Ha. destruct Ht. by apply fine_publishing.
  - injection Ha as Ha <-. split; [done |]. rewrite <- Ha. by apply fine_applying.
  - injection Ha as Ha <-. split; [done |]. rewrite <- Ha. by apply fine_fetch_start.
  - destruct (fe_what f); [| done]. injection Ha as Ha <-. split; [done |]. rewrite <- Ha. by apply fine_answered.
  - destruct (fe_what f); [done |]. injection Ha as Ha <-. split; [done |]. rewrite <- Ha. by apply fine_answered.
Qed.

Lemma reg_data reg s : Registry.r_hostUUID reg = own_host s -> forall log, scanner_ok log s -> scanner_ok log (set_reg reg s).
Proof. intros Hr log [Hdir Hcand Hout]. split; [| done | done]. unfold own_host. cbn. by rewrite Hr. Qed.

Lemma arise_ok log e s s' ts : arise e s = Some (s', ts) -> scanner_ok log s -> fine log (s', ts).
Proof.
  intros Ha Hok. destruct e; cbn [arise] in Ha; try done; try (injection Ha as <- <-; apply fine_none).
  - injection Ha as Ha. rewrite <- Ha. by apply fine_browse.
  - destruct (swept key s) as [t|] eqn:E; [| done]. injection Ha as <- <-. apply fine_one; [done |].
    unfold swept in E. by repeat (case_match; simplify_eq).
  - destruct (fetch_of what key s) as [t|] eqn:E; [| done]. injection Ha as <- <-. apply fine_one; [done |].
    unfold fetch_of in E. by repeat (case_match; simplify_eq).
  - by apply (ok_same log s).
  - by apply ok_reload.
  - by apply ok_publishSelf.
  - by apply ok_refreshSelf.
  - apply reg_data; [| done]. unfold Registry.setAddresses. by case_bool.
  - apply reg_data; [| done]. unfold Registry.register. by repeat case_bool.
  - apply reg_data; [| done]. unfold Registry.unregister. by destruct (_ !! service).
  - apply (ok_same log s); [apply noteActivity_data | done].
Qed.

Lemma pass_ok log e p s s' p' over : trust_pass e p s = Some (s', p', over) -> scanner_ok log s -> scanner_ok log s'.
Proof.
  intros Hp Hok. destruct e, p; cbn [trust_pass] in Hp; try done.
  - injection Hp as <- <- <-. by apply (ok_same log s).
  - injection Hp as <- <- <-. case_bool; [by apply ok_reload | done].
  - destruct todo as [|n todo]; [by injection Hp as <- <- <- | injection Hp as Hp <-].
    unfold check_entry in Hp. case_bool; [by injection Hp as <- <- |].
    destruct (currentPeer d now n s) as [s1 c] eqn:E. injection Hp as <- _.
    by apply (ok_same log _ _ (currentPeer_data _ _ _ _ _ _ E)).
  - injection Hp as <- <- <-. by apply ok_expire.
Qed.

Lemma act_ok e y y' : decoded e -> act decode_info e y = Some y' -> sys_ok y -> sys_ok y'.
Proof.
  intros He Ha [Hs Hf Hl]. unfold act in Ha. destruct (takes_lock e && locked (y_flight y)); [done |]. destruct (task_of e) as [i|].
  - destruct (y_flight y !! i) as [t|] eqn:Et; [| done].
    destruct (advance decode_info e t (y_scanner y)) as [[[s ts] new]|] eqn:Ea; [| done]. injection Ha as <-.
    apply (advance_ok (y_log y)) in Ea as [Hn [Hs' Ht]]; [| done | | done].
    + split; cbn; [done | | by apply Forall_app]. apply Forall_app. split; [| done].
      apply Forall_delete. eapply Forall_impl; [exact Hf |]. intros t'. apply task_more. set_solver.
    + by eapply Forall_lookup_1.
  - destruct (arise e (y_scanner y)) as [[s ts]|] eqn:Ea.
    + injection Ha as <-. apply (arise_ok (y_log y)) in Ea as [Hs' Ht]; [| done]. split; cbn; [done | by apply Forall_app | done].
    + destruct (trust_pass e (y_pass y) (y_scanner y)) as [[[s p] over]|] eqn:Ep; [| done]. injection Ha as <-.
      split; cbn; [by eapply pass_ok | done | done].
Qed.

Lemma daemon_start_ok instance m reg : sys_ok (newDaemon instance m reg).
Proof. split; cbn; [split; [done | done | constructor] | constructor | constructor]. Qed.

Lemma reach_sys_ok y y' : sys_ok y -> rtc (step decode_info) y y' -> sys_ok y'.
Proof. intros Hy. induction 1 as [|y1 y2 y3 [e He Ha] _ IH]; [done |]. by eapply IH, act_ok. Qed.

(** C4. Whatever arrives over mDNS and in whatever order the handlers and sweeps run,
    nothing becomes routable without a proof of identity: every service peer of the
    directory is filed under its own host and is this very node or shows what an accepted
    read proved, that is: over the connection of that read the peer presented the very
    certificate then pinned for the principal, valid at that moment and naming the principal
    itself; the answer's body, of status 200 and within the size limit, names that principal
    as host and as cluster; and the entry carries the record of that proof, only the address
    that gave it, and the name and services of the answer alone.  The same holds of every
    announcement of a service peer. *)
Theorem only_proven_routable (instance : string) (m : Mesh) (reg : Registry.registry) (y : sys) :
  rtc (step decode_info) (newDaemon instance m reg) y ->
  (forall k n, s_dir (y_scanner y) !! k = Some n -> ServicePeer n = true ->
    k = dn_HostUUID n /\
    (own (own_host (y_scanner y)) n \/ exists pf, pf ∈ y_log y /\ accepted pf /\ shown n pf)) /\
  (forall n, NodeUpdated n ∈ s_out (y_scanner y) \/ NodeDiscovered n ∈ s_out (y_scanner y) -> ServicePeer n = true ->
    dn_IdentityVerification n = "local" \/ exists pf, pf ∈ y_log y /\ accepted pf /\ shown n pf).
Proof.
  intros Hr. apply reach_sys_ok in Hr as [[Hdir _ Hout] _ Hlog]; [| apply daemon_start_ok]. rewrite Forall_forall in Hlog. rewrite Forall_forall in Hout.
  assert (forall n, proven (y_log y) n -> exists pf, pf ∈ y_log y /\ accepted pf /\ shown n pf) as Hp.
  { intros n (pf & Hin & Hs). exists pf. split_and!; [done | by apply Hlog | done]. }
  split.
  - intros k n Hn Hsp. destruct (Hdir k n Hn) as [Hk Hne Hst _].
    apply (service_proven _ _ _ Hsp) in Hst as [Hpr|Ho].
    + split; [| right; by apply Hp]. destruct Hpr as (pf & _ & Hs). rewrite <- Hk. apply authenticated_key; [right; by apply Hs | congruence].
    + split; [| by left]. rewrite <- Hk. apply authenticated_key; [left; by apply Ho | congruence].
  - intros n Hn Hsp. assert (dn_IdentityVerification n = "local" \/ proven (y_log y) n \/ claimed n) as [|[|Hc]]
      by (destruct Hn as [Hn|Hn]; apply Hout in Hn; exact Hn); [by left | right; by apply Hp |].
    apply (service_proven (y_log y) (dn_HostUUID n) n) in Hsp as [|[? _]]; [right; by apply Hp | by left | tauto].
Qed.
End Safety.
