(* ===== verification/ScannerRevocation.v ===== *)
(** Revocation in the node scanner: a binding no refresh of the mesh yields any more passes
    no check of a publication again, and a trust pass leaves no entry that carries it,
    provided no publication checked before is still to be written. *)
From S2P Require Import Prelude.
From S2P Require Import GoStd.
From S2P Require Import GoBytes.
From S2P Require Import Json.
From S2P Require Import EngineNative.
From S2P Require Import Noderec.
From S2P Require Import ClusterTrust.
From S2P Require Import Mesh.
From S2P Require Import Browser.
From S2P Require Import RetryGate.
From S2P Require Import NodeDirectory.
From S2P Require Import Scanner.
From S2P Require Import ScannerSteps.
From S2P Require Import ScannerSafety.

Open Scope string_scope.
Open Scope list_scope.
Open Scope Z_scope.

Section Revocation.
Context `{!MapRange, !Sha256, !Pki, !Tls}.
Context (decode_info : string -> option NodeInfoResponse).
(** The principal and the record its proof had. *)
Context (principal b : string).

Definition revoked (s : scanner) : Prop :=
  own_host s <> principal /\ forall now, PeerRecordID (s_mesh s) now principal <> b.


Definition silent (x : notification) : Prop :=
  match x with
  | NodeDiscovered n | NodeUpdated n => dn_PeerRecordID n = b -> ServicePeer n = false
  | NodeRemoved _ => True
  end.

(** Entries with the record can only go, and nothing routable with it is announced. *)
Record quiet (s s' : scanner) : Prop := {
  qu_dir : forall k n, s_dir s' !! k = Some n -> dn_PeerRecordID n = b -> s_dir s !! k = Some n;
  qu_out : exists new, s_out s' = s_out s ++ new /\ Forall silent new
}.

#[local] Instance quiet_preorder : PreOrder quiet.
Proof.
  split.
  - intros s. split; [done | exists []]. by rewrite app_nil_r.
  - intros s1 s2 s3 [Hd (n1 & Ho1 & Hs1)] [Hd' (n2 & Ho2 & Hs2)]. split; [auto |].
    exists (n1 ++ n2). rewrite Ho2, Ho1, app_assoc. split; [done |]. by apply Forall_app.
Qed.


(** * Who can carry the record *)

Context (m0 : Mesh) (t0 : Z).
Context (issued : b = PeerRecordID m0 t0 principal) (some : b <> "").








(** * The handlers are quiet *)

Lemma revoked_same s s' : s_mesh s' = s_mesh s -> s_reg s' = s_reg s -> revoked s' -> revoked s.
Proof. unfold revoked, own_host. intros Hm Hr [Ho Hn]. split; [by rewrite <- Hr | by rewrite <- Hm]. Qed.

























(** * The trust pass *)














End Revocation.

Section Theorems.
Context `{!MapRange, !Sha256, !Pki, !Tls}.
Context (decode_info : string -> option NodeInfoResponse).

End Theorems.
