(* ===== verification/ScannerExample.v ===== *)
(** One node beside another: the scanner of [a] browses [b], proves it, loses it to a
    removal; and the browser under scans that come and go.  The hypotheses of the theorems
    about the scanner hold here. *)
From S2P Require Import Prelude.
From S2P Require Import GoStd.
From S2P Require Import GoBytes.
From S2P Require Import Json.
From S2P Require Import JsonText.
From S2P Require Import EngineNative.
From S2P Require Import Noderec.
From S2P Require Import ClusterTrust.
From S2P Require Import ClusterExample.
From S2P Require Import Mesh.
From S2P Require Import Browser.
From S2P Require Import RetryGate.
From S2P Require Import NodeDirectory.
From S2P Require Import Scanner.
From S2P Require Import ScannerSteps.
From S2P Require Import ScannerSafety.
From S2P Require Import ScannerRevocation.

Open Scope string_scope.
Open Scope list_scope.
Open Scope Z_scope.

(** * The directory of a member *)

#[export] Instance toy_tls : Tls := {
  X509KeyPair := fun certPEM _ => cut_prefix "PEM:" certPEM;
  Validity := fun _ => (0, 1000)
}.

(** Single quotes stand for double ones. *)
Fixpoint quoted (s : string) : string :=
  match s with
  | "" => ""
  | String c s => String (if Ascii.eqb c "'" then dq else c) (quoted s)
  end.

Definition pin_of (u : string) : DirEntry :=
  Regular (Content (quoted ("{'nodeUuid':'" +:+ u +:+ "','certPem':'PEM:CERT:" +:+ u +:+ "'}"))).
Definition dir_of (peers : list string) (cluster : string) : ClusterDir :=
  mkDir (Entries (list_to_map ((fun u => (pin_name u, pin_of u)) <$> peers)))
    (Content "PEM:CERT:a") (Content "PEM:CERT:a") (Content "key")
    (Content (quoted ("{'clusterId':'" +:+ cluster +:+ "','epoch':1}"))).

Definition member : ClusterDir := dir_of ["b"] "c1".
Definition removed : ClusterDir := dir_of [] "c1".
Definition alone : ClusterDir := dir_of [] "".

Definition mesh_a : Mesh := Refresh member new_mesh.

Example mesh_a_pins : Clustered mesh_a = true /\ NodeUUID mesh_a = "a" /\ HasPin mesh_a "b" = true /\
  PeerRecordID mesh_a 10 "b" <> "" /\ PeerRecordID (Refresh removed mesh_a) 10 "b" = "".
Proof. vm_compute. repeat split; discriminate. Qed.

Lemma mesh_a_ok : mesh_ok mesh_a.
Proof. apply Refresh_ok, new_mesh_ok. Defined.

(** * A proof *)

Definition info_b : NodeInfoResponse :=
  mkInfo (Some (mkMetadata "b" "node b" ["10.0.0.2"] {[ ServiceNodeInfo := 14000; ServiceOllama := 11434 ]})) ""
    None None None false 0 0 "b" (Some "b").
Definition decode_toy (s : string) : option NodeInfoResponse := if bool_decide (s = "info") then Some info_b else None.
Definition from_b : Response := mkResponse 200 (Some "CERT:b") (Some "info").

Definition mesh_1 : Mesh := (begin_read member 10 "b" mesh_a).1.
Definition pending_1 : Pending := default (mkPending "" "" "") (begin_read member 10 "b" mesh_a).2.
Definition mesh_3 : Mesh := (end_read decode_toy nodeInfoResponseLimit member 20 pending_1 (Some from_b) mesh_1).1.
Definition record_b : string := PeerRecordID mesh_a 10 "b".

Lemma inventory_proof_witness :
  record_b = PeerRecordID mesh_3 20 "b" /\ (bound mesh_1 "b" = bound mesh_3 "b" \/ collision).
Proof.
  destruct (inventory_proof decode_toy nodeInfoResponseLimit member member 10 20 "b" "b" record_b mesh_a mesh_1 mesh_1 mesh_3
              pending_1 (Some from_b) info_b) as (_ & H2 & _ & _ & H5).
  - exact mesh_a_ok.
  - apply Refresh_ok, mesh_a_ok.
  - discriminate.
  - vm_compute. reflexivity.
  - vm_compute. reflexivity.
  - split; [exact H2 | exact H5].
Defined.

Lemma teardown_observed_witness :
  Clustered (Refresh alone mesh_a) = false /\ ClientTLSConfig (Refresh alone mesh_a) "b" = None.
Proof.
  destruct (teardown_observed alone mesh_a (mkAdm "" 1 false) 10 "b" mesh_a_ok) as (H1 & _ & _ & H2).
  - intros u. reflexivity.
  - vm_compute. reflexivity.
  - left. reflexivity.
  - split; [exact H1 | exact H2].
Defined.

(** * The browser *)

Definition node_b (addr : string) : Browser.Node :=
  Browser.mkNode "node b" "b.local" 14000 [addr] ["uuid=b"; "cluster-uuid=b"; "ip=10.0.0.2"; "ni=14000"].
Definition node_c : Browser.Node := Browser.mkNode "node c" "c.local" 14000 ["10.0.0.3"] ["uuid=c"; "ip=10.0.0.3"; "ni=14000"].
Definition watch : options := mkOptions 3 false true (Some (fun n => UUIDFromTXT (n_TXT n))).
Definition both : Scan := mkScan {[ "b" := node_b "10.0.0.2"; "c" := node_c ]} (fun _ => false).
Definition only_c : Scan := mkScan {[ "c" := node_c ]} (fun _ => false).

Lemma both_ok : scan_ok watch both.
Proof. intros k n. cbn. intros [[<- <-]|[_ [<- <-]%lookup_singleton_Some]]%lookup_insert_Some; vm_compute; reflexivity. Defined.
Lemma only_c_ok : scan_ok watch only_c.
Proof. intros k n. cbn. intros [<- <-]%lookup_singleton_Some. vm_compute. reflexivity. Defined.

Definition scans : list Scan := [both; only_c; only_c].
Lemma scans_ok : Forall (scan_ok watch) (scans ++ [only_c]).
Proof. repeat constructor; apply both_ok || apply only_c_ok. Defined.

Lemma events_replicate_witness :
  b_nodes (Browser.run watch New (scans ++ [only_c])).1 !! "b" = None /\
  forall k, option_Forall2 (stands_for watch)
    (foldl (deliver watch) ∅ (Browser.run watch New (scans ++ [only_c])).2 !! k)
    (b_nodes (Browser.run watch New (scans ++ [only_c])).1 !! k).
Proof.
  split; [vm_compute; reflexivity |]. apply (events_replicate watch New (scans ++ [only_c]) ∅).
  - apply New_wf.
  - exact scans_ok.
  - intros k. rewrite lookup_empty. cbn. rewrite lookup_empty. constructor.
Defined.

(** The same host under a new instance name: no event, and the browser holds the new name. *)
Definition renamed_b : Scan :=
  mkScan {[ "b" := Browser.mkNode "renamed b" "b.local" 14000 ["10.0.0.2"] ["uuid=b"; "cluster-uuid=b"; "ip=10.0.0.2"; "ni=14000"];
            "c" := node_c ]} (fun _ => false).

Example rename_unheard :
  (ev_Node <$> (Browser.run watch (Browser.run watch New [both]).1 [renamed_b]).2) = [] /\
  n_ID <$> b_nodes (Browser.run watch New [both; renamed_b]).1 !! "b" = Some "renamed b".
Proof. vm_compute. by split. Qed.

Lemma eviction_evidence_witness :
  exists pre suf, states watch New (scans ++ [only_c]) = pre ++ suf /\
    Forall (no_sign watch (key watch (node_b "10.0.0.2")) (node_b "10.0.0.2")) suf /\ 3 <= Z.of_nat (length suf).
Proof.
  destruct (eviction_evidence watch scans only_c (node_b "10.0.0.2")) as (pre & suf & H1 & H2 & H3 & _).
  - cbn. lia.
  - exact scans_ok.
  - vm_compute. left.
  - exists pre, suf. split; [exact H1 |]. split; [exact H2 | exact H3].
Defined.

Lemma departed_ages_out_witness : b_nodes (Browser.run watch (Browser.run watch New [both]).1 (repeat only_c 21)).1 !! "b" = None.
Proof.
  apply (departed_ages_out watch [both] (repeat only_c 21) "b").
  - reflexivity.
  - cbn. lia.
  - repeat constructor. apply both_ok.
  - repeat constructor; apply only_c_ok.
  - repeat constructor.
  - vm_compute. discriminate.
Defined.

(** * A failed telemetry request *)

Definition request_1 : request := mkRequest "b" 1 "10.0.0.2:14000".
Definition request_2 : request := mkRequest "b" 2 "10.0.0.2:14000".
Definition gate_1 : telemetryRetryGate := (claim "b" "10.0.0.2:14000" 0 new_gate).1.
Definition gate_2 : telemetryRetryGate :=
  (claim "b" "10.0.0.2:14000" (10 * second) (finish "b" 1 false (1 * second) gate_1)).1.
Definition failed_once : list gate_event :=
  [GAsked request_2; GAnswered request_1 false (1 * second); GAsked request_1].

(** The second failure in a row, at 11 s, holds its endpoint back for eight seconds. *)
Lemma backoff_per_endpoint_witness :
  ran failed_once (RetryGate.mkSys gate_2 [request_2]) /\
  let g := finish "b" 2 false (11 * second) gate_2 in
  allowed "b" "10.0.0.2:14000" (18 * second) g = false /\
  allowed "b" "10.0.0.2:14000" (19 * second) g = true /\
  allowed "b" "10.0.0.9:14000" (18 * second) g = true.
Proof.
  assert (ran failed_once (RetryGate.mkSys gate_2 [request_2])) as Hran.
  { eapply ran_step; [eapply ran_step; [eapply ran_step; [apply ran_nil |] |] |].
    - apply (step_claim new_gate [] "b" "10.0.0.2:14000" 0 1). vm_compute. reflexivity.
    - apply (step_finish gate_1 [request_1] [] request_1 false (1 * second)). reflexivity.
    - apply (step_claim (finish "b" 1 false (1 * second) gate_1) [] "b" "10.0.0.2:14000" (10 * second) 2). vm_compute. reflexivity. }
  split; [exact Hran |].
  destruct (backoff_per_endpoint failed_once (RetryGate.mkSys gate_2 [request_2]) request_2 false (11 * second) Hran) as [H _].
  - left.
  - cbv zeta. split; [| split].
    + exact (H "10.0.0.2:14000" (18 * second)).
    + exact (H "10.0.0.2:14000" (19 * second)).
    + exact (H "10.0.0.9:14000" (18 * second)).
Defined.

(** * A model list that arrives late *)

Definition entry_b : DirectoryNode :=
  set_views (Some ["m1"]) None None
    (bare_node "b" "node b" "10.0.0.2" ["10.0.0.2"] "b" true "" "" {[ ServiceEngineManager := mkServiceStatus 14001 "" ]}).
Definition fetched : option (list string) := Some ["m2"; "m1"].
Definition by_engine : option (gmap string (list string)) := Some {[ "ollama" := ["m1"; "m2"] ]}.
Definition loaded_b : option (gmap string (list string)) := Some {[ "ollama" := ["m2"] ]}.
Definition dir_b : directory := {[ "b" := entry_b ]}.

Lemma applyModels_guarded_witness :
  (fun n => (dn_Models n, dn_ModelsByEngine n, dn_LoadedByEngine n, dn_Name n)) <$>
    ((applyModels "b" "10.0.0.2" 14001 fetched by_engine loaded_b dir_b).1 !! "b")
    = Some (fetched, by_engine, loaded_b, "node b") /\
  (applyModels "b" "10.0.0.9" 14001 fetched by_engine loaded_b dir_b).2.2 = false.
Proof.
  split; [| vm_compute; reflexivity].
  pose proof (applyModels_guarded "b" "10.0.0.2" 14001 fetched by_engine loaded_b dir_b) as H.
  destruct (applyModels "b" "10.0.0.2" 14001 fetched by_engine loaded_b dir_b) as [d' [[n' changed] valid]] eqn:E.
  destruct H as (_ & _ & _ & _ & H). vm_compute in E. injection E as Ed En Ec Ev.
  destruct (H entry_b) as (H1 & _ & H3 & _ & _ & _ & _ & H8 & _).
  - vm_compute. reflexivity.
  - congruence.
  - destruct (H3 (eq_sym Ec)) as (H4 & H5 & H6). cbn [fst]. rewrite H1. cbn. rewrite H4, H5, H6, H8. reflexivity.
Defined.

(** * The scanner *)

Definition start : sys := newDaemon "node a" mesh_a (Registry.newRegistry "a" "a" ["10.0.0.1"]).
Definition ask_b : list event :=
  [EBrowse member 5 (mkEvent Discovered (node_b "10.0.0.2")); EClient 0 member 5; ERequest 0 member 6 0;
   EAnswer 0 member 7 7 (Some from_b); EModels 0 member 8; EBrowsed 0].
(** The check of a publication under the lock, and its steps after it. *)
Definition write (n : nat) (now : Z) : list event := replicate n (EWrite 0 member now).
Definition publish (n : nat) (now : Z) : list event := ELock 0 member now :: write n now.
Definition meet : list event := ask_b ++ publish 5 9.
Definition met : sys := default start (ScannerSteps.run decode_toy meet start).

(** [b] is known by its proof, and by nothing else. *)
Example met_b :
  (fun n => (dn_IP n, dn_Name n, ServicePeer n, dn_PeerRecordID n)) <$> s_dir (y_scanner met) !! "b" =
    Some ("10.0.0.2", "node b", true, record_b) /\
  size (s_dir (y_scanner met)) = 1%nat /\ length (y_log met) = 1%nat /\ y_flight met = [].
Proof. vm_compute. repeat split. Qed.

Lemma meet_decoded : Forall decoded meet.
Proof. repeat constructor. Defined.

Lemma met_reached : rtc (ScannerSteps.step decode_toy) start met.
Proof. apply (run_steps decode_toy meet); [exact meet_decoded | vm_compute; reflexivity]. Defined.

Lemma only_proven_routable_witness :
  exists n, s_dir (y_scanner met) !! "b" = Some n /\ exists pf, pf ∈ y_log met /\ accepted decode_toy pf /\ shown n pf.
Proof.
  destruct (s_dir (y_scanner met) !! "b") as [n|] eqn:E; [| vm_compute in E; discriminate].
  exists n. split; [reflexivity |].
  destruct (only_proven_routable decode_toy "node a" mesh_a (Registry.newRegistry "a" "a" ["10.0.0.1"]) met met_reached) as [H _].
  assert (ServicePeer n = true) as Hs by (vm_compute in E; injection E as <-; vm_compute; reflexivity).
  destruct (H "b" n E Hs) as [_ [(_ & Ho & _) | Hp]]; [exfalso | exact Hp].
  vm_compute in E. injection E as <-. vm_compute in Ho. discriminate.
Defined.

(** The cluster removes [b]: a trust pass under the directory without its pin. *)
Definition part : list event :=
  [EReloadTrust removed; EReconcileIdentity removed "a" ["10.0.0.1"]; ECheck removed 20; EExpire; ECheck removed 21].
Definition at_ (k : nat) : sys := default start (ScannerSteps.run decode_toy (take k part) met).

Example parted_b : s_dir (y_scanner (at_ 5)) = ∅ /\ y_pass (at_ 5) = PIdle /\ y_passes (at_ 5) = 1%nat.
Proof. vm_compute. repeat split. Qed.





(** The same removal and its whole trust pass, after the check of a publication and before
    its writes: the pass finds nothing to expire, and then the proof is published. *)
Definition overtaken : sys :=
  default start (ScannerSteps.run decode_toy
    (ask_b ++ [ELock 0 member 9; EReloadTrust removed; EReconcileIdentity removed "a" ["10.0.0.1"]; ECheck removed 20]
     ++ write 5 21) start).

Example publication_outlives_pass :
  y_pass overtaken = PIdle /\ y_passes overtaken = 1%nat /\ y_flight overtaken = [] /\
  bound (s_mesh (y_scanner overtaken)) "b" = None /\
  (fun n => (dn_PeerRecordID n, ServicePeer n)) <$> s_dir (y_scanner overtaken) !! "b" = Some (record_b, true).
Proof. vm_compute. repeat split. Qed.

(** * Previews that stay *)

(** A browsed node that gives no proof; [i] is the index of its task. *)
Definition unproven (ev : Browser.Event) : list event :=
  [EBrowse member 5 ev; EClient 0 member 5; EPlain 0 None; EModels 0 member 8; EBrowsed 0].
Definition renamed_c : Browser.Node :=
  Browser.mkNode "new c" "new-c.local" 14000 ["10.0.0.3"] ["uuid=c"; "ip=10.0.0.3"; "ni=14000"].

(** The browser keys by uuid, so a host that changes its name is an update, and its departure
    names the new one: the preview under the old name has nobody left to remove it. *)
Example preview_orphaned :
  let y := default start (ScannerSteps.run decode_toy
    (unproven (mkEvent Discovered node_c) ++ unproven (mkEvent Updated renamed_c) ++
     [EBrowse member 30 (mkEvent Removed renamed_c)]) start) in
  y_flight y = [] /\
  (dn_Name <$> s_dir (y_scanner y) !! PreviewRecordID "node c" "c") = Some "node c" /\
  is_Some (s_candidates (y_scanner y) !! PreviewRecordID "node c" "c") /\
  s_dir (y_scanner y) !! PreviewRecordID "new c" "c" = None.
Proof. vm_compute. repeat split. by eexists. Qed.

(** [b] is proven, then misses one proof, then gives the same proof again: it is listed as
    a peer and as a preview. *)
Definition missed_b : list event :=
  [EBrowse member 15 (mkEvent Updated (node_b "10.0.0.2")); EClient 0 member 15; ERequest 0 member 15 0;
   EAnswer 0 member 16 16 None; ERequest 0 member 16 16; EModels 0 member 17; EBrowsed 0].
Definition again_b : list event :=
  [EBrowse member 25 (mkEvent Updated (node_b "10.0.0.2")); EClient 0 member 25; ERequest 0 member 25 0;
   EAnswer 0 member 26 26 (Some from_b); EModels 0 member 27; EBrowsed 0] ++ publish 3 28.

Example preview_lingers :
  let y := default start (ScannerSteps.run decode_toy (meet ++ missed_b ++ again_b) start) in
  y_flight y = [] /\
  (dn_LastSeen <$> s_dir (y_scanner y) !! "b") = Some 26 /\
  (dn_IdentityVerification <$> s_dir (y_scanner y) !! PreviewRecordID "node b" "b") = Some "unverified".
Proof. vm_compute. repeat split. Qed.
